(* ===== verification/_CoqProject ===== *)
-Q . S2P
Prelude.v
GoStd.v
AccessList.v
Sdk.v
EvmCoin.v
PreciseBank.v
PreciseBankInv.v
PreciseBankSend.v
PreciseBankMintBurn.v
PreciseBankOps.v
PreciseBankGenesis.v
SdkLedger.v
PreciseBankProps.v
StateDB.v
StateDBRevert.v
StateDBJournal.v
SnapshotStore.v
MapKeeper.v
StateDBProps.v
StateDBCommit.v
EvmKeeper.v
EvmKeeperProps.v
Precompile.v
PrecompileProps.v
LegacyDec.v
FeeMarket.v
FeeMarketProps.v
Heap.v
TxList.v
PoolList.v
PoolProps.v
Reserver.v
TxLookup.v
PricedList.v
TxStore.v
CosmosStore.v
BlockOrder.v
PoolValidation.v
RecheckPool.v
ReapList.v
LegacyPool.v
LegacyPoolReorg.v
ReorgLoop.v
PoolInv.v
LegacyPoolInv.v
LegacyPoolAdd.v
LegacyPoolMaint.v
LegacyPoolLimits.v
LegacyPoolOps.v
LegacyPoolProps.v
PoolWitnesses.v
EvmTx.v
EvmParams.v
EvmParamsProps.v
StateTransition.v
StateTransitionProps.v
EvmFees.v
EvmTransaction.v
Ante.v
AnteProps.v
EvmTransactionProps.v
EvmHistory.v
AnteCosmos.v
FeeChecker.v
GasSearch.v
Erc20Registry.v
Erc20RegistryProps.v
Erc20Names.v
Erc20Convert.v
Erc20Props.v
CallEvm.v
Erc20Ibc.v
Erc20Genesis.v
PrecompileAbi.v
Erc20Precompile.v
Erc20PrecompileProps.v
QueryPrecompiles.v
DemoChain.v
TxWitnesses.v
Erc20Witnesses.v
