(* ===== verification/Prelude.v ===== *)
(** * Infinite: a verified model of a Cosmos EVM chain

    The repository is a Cosmos SDK chain that runs Ethereum transactions.  Its
    Go code falls into the EVM module ([x/vm]) with the state database that the
    interpreter writes to, the fee market ([x/feemarket]) that sets the base fee
    of every block, the precise bank ([contrib/x/precisebank]) that gives the
    gas coin 18 decimals on top of [x/bank], the stateful precompiles that call
    SDK modules from contracts ([precompiles]), the ante handlers ([ante]) that
    check and charge a transaction before it runs, and the transaction pool
    ([mempool]).  An Ethereum transaction enters the pool, is ordered by price
    and nonce, is charged by the ante handler, and runs against a state database
    on a branch of the stores; precompiles write through a
    cache context with snapshots of its own; committing the state database
    writes accounts, code and storage to the keeper, and balances through a bank
    wrapper to [x/bank] or to the precise bank.  The ERC-20 module ([x/erc20])
    pairs coins with contracts: tokens of a contract are escrowed and coins minted
    for them, and a coin has a precompile with the methods of the standard.

    ** Layout

    - [Prelude]: outcomes of Go code ([Ok], [Err], [Panic]), state passing with
      errors, weakest preconditions, their tactics, sums over maps.
    - [GoStd]: machine words with their wrap-around, [sort.Search], sorted keys.
      [Heap]: [container/heap] over any strict weak order.
    - [Sdk], [SdkLedger], [LegacyDec]: what the code uses of the Cosmos SDK, as
      classes of operations and of documented laws, and an executable instance
      that satisfies them.  Nothing of the SDK or of go-ethereum is defined
      beyond these instances, which only the witnesses use.
    - [EvmCoin]: [x/vm/types/denom.go], [denom_config.go], [scaling.go].
    - [PreciseBank], [PreciseBankInv], [PreciseBankSend], [PreciseBankMintBurn],
      [PreciseBankOps], [PreciseBankGenesis], [PreciseBankProps]: the keeper and
      the genesis of [contrib/x/precisebank]; one definition per Go function.
      The state is the fractional balances, the remainder, and the state of the
      bank below.
    - [AccessList], [StateDB], [StateDBRevert], [StateDBJournal], [StateDBProps],
      [StateDBCommit]: [x/vm/statedb], with the journal as a list of entries of
      one inductive type, the state objects by address, and a keeper interface
      ([Keeper], [CacheContext], [Snapshotter]).  [SnapshotStore]: the stacks of
      cache layers of [x/vm/store], which implement [Snapshotter]; [MapKeeper]: a
      keeper over in-memory maps.
    - [EvmKeeper], [EvmKeeperProps]: the part of [x/vm/keeper] that implements
      the keeper interface, and [x/vm/wrappers/bank.go].
    - [Precompile], [PrecompileProps]: [precompiles/common], [runNativeAction]
      with its gas accounting and its balance handler.
    - [FeeMarket], [FeeMarketProps]: [x/feemarket] and its wrapper.
    - [EvmTx]: messages, fees, the base fee and the gas meter ([x/vm/types/msg.go],
      [tx.go], [eth.go], [utils.go], [gasmeter.go]); a go-ethereum transaction is
      the record of what its accessors return.  [EvmParams], [EvmParamsProps]: the
      parameters with their validation and storage, access control and the lookup
      of precompiles.  [StateTransition] (one message: [ApplyMessageWithConfig],
      EIP-7702), [EvmFees] ([fees.go], [gas.go]), [EvmTransaction]
      ([ApplyTransaction], hooks, the message server, block hooks, the history of
      block hashes), with [StateTransitionProps],
      [EvmTransactionProps], [EvmHistory], [GasSearch]: the execution
      part of [x/vm/keeper].
    - [Ante], [AnteProps]: [ante/evm], the mono decorator with its
      steps; [AnteCosmos]: [ante/cosmos/authz.go] and [reject_msgs.go];
      [FeeChecker]: [ante/evm/fee_checker.go] and [ante/cosmos/min_gas_price.go],
      and that the ante handler and the keeper use the same base fee.
    - [Erc20Registry], [Erc20RegistryProps]: token pairs with their indexes,
      allowances, parameters and precompile sets of [x/erc20/keeper]; [Erc20Names]:
      sanitized names; [Erc20Convert], [Erc20Props]: conversions, the message
      server, registration and precompiles of coins, over interfaces for the EVM
      and bank keepers; [CallEvm]: [x/vm/keeper/call_evm.go], which implements the
      first; [Erc20Ibc]: packets; [Erc20Genesis]: genesis.
    - [PrecompileAbi]: methods and topics of [precompiles/common];
      [Erc20Precompile], [Erc20PrecompileProps]: [precompiles/erc20] and
      [precompiles/werc20]; [QueryPrecompiles]: [precompiles/bank], [bech32] and
      [p256].  [Erc20Witnesses]: a chain with a bank and token
      contracts in memory.
    - [DemoChain], [TxWitnesses]: a chain in memory with an interpreter of two
      programs, on which the properties of transactions are witnessed.
    - [TxList] (module [SM]: [SortedMap]), [PoolList] (module [TL]: [list]),
      [PricedList] (module [PR]: [priceHeap], [pricedList]): the file
      [mempool/txpool/legacypool/list.go]; [TxLookup] (module [LK]): [lookup] of
      [legacypool.go]; [Reserver] (modules [RV], [NC]): [mempool/reserver] and
      [noncer.go]; [PoolProps]: the lists as a state machine.
    - [TxStore] (modules [TS], [HS]): the rechecked transactions
      ([legacypool/tx_store.go]), kept per height
      ([mempool/internal/heightsync]), and what block builders get of them.
      [PoolValidation] (module [PV]): [mempool/txpool/validation.go].
    - [LegacyPool] (module [LP]: submission, removal, reads) and [LegacyPoolReorg]
      (module [RO]: promotion, demotion, truncation, eviction, reset,
      [runReorg]): the pool of [legacypool.go]; its state is one record of the
      fields of the Go struct, with the clock and the callbacks made.
      [ReorgLoop] (module [RL]): [scheduleReorgLoop] as a state machine on
      events.  [PoolInv], [LegacyPoolInv], [LegacyPoolAdd], [LegacyPoolMaint],
      [LegacyPoolLimits], [LegacyPoolOps]: the invariant that ties lists, table, heaps and reservations, on abstract
      contents first, and that every operation keeps it; [LegacyPoolProps]: the
      theorems; [PoolWitnesses]: a pool with two accounts.
    - [CosmosStore] (module [CS]): the snapshot of checked Cosmos transactions
      ([mempool/tx_store.go]), buckets by the set of signers.  [BlockOrder]: a
      merge of lists through a heap of their heads, used by the order of EVM
      transactions (module [MO], [mempool/miner/ordering.go]), that of Cosmos ones
      (module [CO], [mempool/cosmos_ordering.go]), and the iterator over both
      (module [IT], [mempool/iterator.go]).  [RecheckPool] (module [RP]): the
      pool of Cosmos transactions with its reservations, its recheck and the
      context it checks against ([mempool/recheck_pool.go], [rechecker.go]), with
      its scheduling loop (module [RK]).  [ReapList] (modules [RE], [IQ]): the list
      consensus reaps from ([mempool/reap_list.go]) and the queue of insertions
      ([mempool/internal/queue]), whose critical sections are steps that interleave.

    ** What is proved

    - The precise bank (C1-C4, C7): every reachable state has proper fractions and a
      reserve that backs them; every operation implements a movement on an
      abstract ledger, where a transfer from or to the reserve moves whole integer
      coins only; when a send between any two accounts succeeds, which is when it
      is covered except to oneself and with the reserve; the internal panics are
      unreachable while the reserve takes no part; genesis round trips.
    - The state database (C9): reverting to a snapshot restores the whole
      observable state after any operations, nested snapshots and precompile
      calls.  Precompiles (C13-C15): a call is undone as a whole by a revert;
      balances follow the bank events; running out of gas charges nothing.
    - The EVM keeper (C16, C17): committing persists exactly the dirty accounts,
      code and storage; the balance that is made spendable.
    - The ERC-20 module: coins and contracts stay in one-to-one correspondence
      (C36); the coins of registered contracts stay backed by the module's tokens
      through any messages (C32), for plain contracts, which follow the standard and
      call no other contract and no precompile; genesis
      round trips (C18); what a refund that cannot be converted leaves behind (C38);
      the precompile of a coin refines the standard (C39).
    - Transactions: the ante handler accepts only transactions with a verified
      sender, the account's nonce and a covered cost, charges exactly the fee
      (C34), and accepts each once (C35); the gas a message is charged (C8); the
      effect of EIP-7702 authorizations (C29); a transaction is atomic (C40) and,
      when it fails, costs its sender the gas used and nothing else, from the ante
      handler to the refund (C33); both sides use the same base fee (C11); gas
      estimation ends with a minimal limit (C30); recent block hashes are served
      (C12); the stored parameters are well formed (C10); no disabled message is
      hidden in x/authz (C23).
    - The fee market (C19, C20): the stored base fee is that of EIP-1559; its steps
      are bounded, and it is monotone in the gas and not below the minimum gas
      price when the fee before was not, which fails when that was below it.
    - The transaction pool: every reachable pool is consistent and no operation
      panics or fails from it (C24); a maintenance run settles the pool at the new
      head within its limits (C22), except that it panics when the chain has no
      state for that head (C26); truncation is fair (C27); a batch reports a result
      per transaction (C31); requests for maintenance are served by a run with
      exactly the heads and accounts asked for until its launch (C21).  Of its
      parts: eviction conserves live transactions and frees enough slots (C37).  The
      hypotheses on a pool are the universe of submitted transactions (fewer than 2^64, with distinct hashes, 64-bit nonces and costs below 2^192),
      balances below 2^192, total computations of gas, a priority queue that pops
      longer lists first, a chain that has the states of its heads, and recheckers
      whose calls return.
    - Around the pool: the iterator of block builders refines a greedy merge of
      both kinds of transactions by tip and nonce, and ends (C28); a recheck of the
      Cosmos pool drops exactly what the ante handler refuses and the followers of
      what was dropped, and panics exactly for a gas limit of 2^63 or more without
      consensus parameters (C5), for a pool below it that removes what it is told to;
      an insertion that fails gives up reservations that are still needed (C6);
      the indexed reap list is a plain queue that gives out a transaction once (C25).
    - Further theorems stand beside these: mints and burns of the precise bank are
      exact, the pool's replacement rule, its cached cost filter is the plain filter,
      requests to recheck are served and cancel the recheck in progress, every
      queued insertion is answered in any interleaving, snapshots of Cosmos transactions stay
      well formed and lose exactly the dependents of a replaced one, the multi store reverts to and flushes
      its layers, lists of the pool stay well formed and strict ones without gaps,
      the base fee never falls below the minimum gas price, the one-byte counter of precompile calls wraps, reservations are
      exclusive and round trip, the virtual nonces refine a function, the pool's
      loops end, the table of transactions restores itself, underpriced transactions
      are exactly those not above any live entry, accounts round trip through the
      keeper, queries of contracts write nothing, spenders stay within allowances,
      Cosmos transactions pay between the base fee and what they offer.

    ** Bounds and fuel

    The loops of [sort.Search] get as many rounds as the slice has elements, and
    halve it; those of the heap get its length, which bounds its height;
    [Forward] and [Ready] get the number of nonces; [Discard] gets twice
    the urgent entries plus the floating ones, since a round moves an entry from
    urgent to floating or takes one out; a round of [equalize] in the truncation
    drops a transaction, so the count of pending ones is enough; going through the
    iterator of a block takes at most a step per transaction; the search for a gas limit gets the
    logarithm of its interval, for limits below 2^63 (beyond, its sum of bounds
    overflows).  The gas a message is charged is exact for limits below 2^63,
    where the conversion of the gas used to a signed integer is.  Words are integers with explicit
    wrap-around: 8 bits for the counter of precompile calls, 64 for nonces and
    gas, 256 for balances and costs.  The fee market is shown not to panic for
    base fees below 2^190, where the 256-bit limit of the decimals is out of
    reach.  The total cost of a list is shown exact while the sum of the costs is
    below 2^256, which [Add] itself does not check.  The reap list is shown to keep its limits for
    limits, sizes and gas below 2^63, where its totals do not wrap.

    ** Not modelled

    The interpreter of go-ethereum and the SDK are not in the repository: what
    is used of them is a parameter with named laws.  Events are values whose
    attributes are not modelled.  The application mempool around the pools
    ([mempool.go], [krakatoa_mempool.go], the tracker of metrics), the queries, preinstalled contracts and state overrides of [x/vm], the precompiles
    of SDK modules, signature verification, contract callbacks of IBC, JSON-RPC, the
    node (I/O and wiring) and generated code are not modelled.
    Mutexes, logs, metrics and tracing are left out everywhere: every operation
    that holds its lock throughout is one atomic step. *)
From stdpp Require Export base tactics list gmap strings numbers fin_maps sorting.
From Stdlib Require Export Lia.

#[global] Open Scope Z_scope.

(** * Outcomes of Go code *)

(** A Go call that returns [(value, error)] and may panic.  The panic carries
    the site that raised it, so that theorems can tell panics apart. *)
Inductive res (E A : Type) : Type :=
| Ok (a : A)
| Err (e : E)
| Panic (site : string).
Arguments Ok {E A} a.
Arguments Err {E A} e.
Arguments Panic {E A} site.

(** State passing with errors: the state survives an error or a panic, as the
    writes a Go function made before returning its error do. *)
Definition M (S E A : Type) : Type := S → S * res E A.

#[global] Instance M_ret {S E} : MRet (M S E) := λ A a s, (s, Ok a).
#[global] Instance M_bind {S E} : MBind (M S E) := λ A B k m s,
  match m s with
  | (s', Ok a) => k a s'
  | (s', Err e) => (s', Err e)
  | (s', Panic p) => (s', Panic p)
  end.
#[global] Instance M_fmap {S E} : FMap (M S E) := λ A B f m s,
  match m s with
  | (s', Ok a) => (s', Ok (f a))
  | (s', Err e) => (s', Err e)
  | (s', Panic p) => (s', Panic p)
  end.

Section Combinators.
Context {S E : Type}.

Definition throw {A} (e : E) : M S E A := λ s, (s, Err e).
Definition panic {A} (site : string) : M S E A := λ s, (s, Panic site).
Definition gets {A} (f : S → A) : M S E A := λ s, (s, Ok (f s)).
Definition modify (f : S → S) : M S E unit := λ s, (f s, Ok tt).
Definition when (b : bool) (m : M S E unit) : M S E unit :=
  if b then m else mret tt.

(** [if err := m; err != nil { return h(err) }]. *)
Definition on_err {A} (m : M S E A) (h : E → M S E E) : M S E A := λ s,
  match m s with
  | (s', Err e) =>
      match h e s' with
      | (s'', Ok e') => (s'', Err e')
      | (s'', Err e') => (s'', Err e')
      | (s'', Panic p) => (s'', Panic p)
      end
  | r => r
  end.

(** [if err := m; err != nil { panic(...) }]. *)
Definition or_panic {A} (m : M S E A) (site : string) : M S E A := λ s,
  match m s with
  | (s', Err _) => (s', Panic site)
  | r => r
  end.

(** A [for _, x := range xs] loop whose body may return early. *)
Fixpoint for_each {X} (xs : list X) (body : X → M S E unit) : M S E unit :=
  match xs with
  | [] => mret tt
  | x :: xs' => body x ;; for_each xs' body
  end.
End Combinators.

(** Split a run whose outcome is known by evaluation. *)
Lemma run_outcome {S E A} (m : M S E A) (s : S) (r : res E A) :
  snd (m s) = r → m s = (fst (m s), r).
Proof. intros <-. by destruct (m s). Qed.

(** A sequence that returns: its first step returned, and so did the rest. *)
Lemma bind_ok {S E A B} (m : M S E A) (k : A → M S E B) s s' b :
  (m ≫= k) s = (s', Ok b) → ∃ s1 a, m s = (s1, Ok a) ∧ k a s1 = (s', Ok b).
Proof. unfold mbind, M_bind. destruct (m s) as [s1 [a|e|p]]; naive_solver. Qed.

Lemma when_ok {S E} (b : bool) (m : M S E unit) s s' :
  when b m s = (s', Ok tt) → if b then m s = (s', Ok tt) else s' = s.
Proof. destruct b; [done|]. by intros [= ->]. Qed.

(** Take a returning run apart, one step at a time. *)
Ltac bind_step H :=
  let s1 := fresh "s" in let a := fresh "x" in let H1 := fresh "Hstep" in
  apply bind_ok in H as (s1 & a & H1 & H); cbv beta in H.

(** Run a computation of a sub-component inside a larger state. *)
Definition zoom {S T E A} (get : S → T) (set : T → S → S) (m : M T E A) : M S E A :=
  λ s, let '(t', r) := m (get s) in (set t' s, r).

(** * Weakest preconditions *)

(** [wp m Q s]: running [m] from [s] ends in a state and an outcome that
    satisfy [Q].  The model is total, so this is total correctness. *)
Definition wp {S E A} (m : M S E A) (Q : S → res E A → Prop) (s : S) : Prop :=
  Q (fst (m s)) (snd (m s)).

Section Wp.
Context {S E : Type}.
Implicit Types s : S.

Lemma wp_ret {A} (a : A) (Q : S → res E A → Prop) s :
  Q s (Ok a) → wp (mret a) Q s.
Proof. done. Qed.

Lemma wp_throw {A} (e : E) (Q : S → res E A → Prop) s :
  Q s (Err e) → wp (throw e) Q s.
Proof. done. Qed.

Lemma wp_panic {A} site (Q : S → res E A → Prop) s :
  Q s (Panic site) → wp (panic site) Q s.
Proof. done. Qed.

Lemma wp_gets {A} (f : S → A) (Q : S → res E A → Prop) s :
  Q s (Ok (f s)) → wp (gets f) Q s.
Proof. done. Qed.

Lemma wp_modify (f : S → S) (Q : S → res E unit → Prop) s :
  Q (f s) (Ok tt) → wp (modify f) Q s.
Proof. done. Qed.

Lemma wp_bind {A B} (m : M S E A) (k : A → M S E B) (Q : S → res E B → Prop) s :
  wp m (λ s' r, match r with
                | Ok a => wp (k a) Q s'
                | Err e => Q s' (Err e)
                | Panic p => Q s' (Panic p)
                end) s →
  wp (mbind k m) Q s.
Proof. unfold wp, mbind, M_bind. by destruct (m s) as [s' []]. Qed.

Lemma wp_mono {A} (m : M S E A) (P Q : S → res E A → Prop) s :
  wp m P s → (∀ s' r, P s' r → Q s' r) → wp m Q s.
Proof. unfold wp. eauto. Qed.

Lemma wp_on_err {A} (m : M S E A) h (Q : S → res E A → Prop) s :
  wp m (λ s' r, match r with
                | Err e => wp (h e) (λ s'' r', match r' with
                                      | Ok e' | Err e' => Q s'' (Err e')
                                      | Panic p => Q s'' (Panic p)
                                      end) s'
                | r => Q s' r
                end) s →
  wp (on_err m h) Q s.
Proof.
  unfold wp, on_err. destruct (m s) as [s' [a|e|p]]; simpl; try done.
  by destruct (h e s') as [s'' []].
Qed.

Lemma wp_or_panic {A} (m : M S E A) site (Q : S → res E A → Prop) s :
  wp m (λ s' r, match r with
                | Err _ => Q s' (Panic site)
                | r => Q s' r
                end) s →
  wp (or_panic m site) Q s.
Proof. unfold wp, or_panic. by destruct (m s) as [s' []]. Qed.

Lemma wp_if {A} (b : bool) (m1 m2 : M S E A) (Q : S → res E A → Prop) s :
  (b = true → wp m1 Q s) → (b = false → wp m2 Q s) →
  wp (if b then m1 else m2) Q s.
Proof. destruct b; eauto. Qed.

Lemma wp_run {A} (m : M S E A) (Q : S → res E A → Prop) s s' r :
  wp m Q s → m s = (s', r) → Q s' r.
Proof. unfold wp. intros HQ Hm. by rewrite Hm in HQ. Qed.

(** A postcondition that names the final state and outcome. *)
Lemma wp_run_eq {A} (m : M S E A) s s' r :
  wp m (λ s1 r1, s1 = s' ∧ r1 = r) s → m s = (s', r).
Proof. unfold wp. destruct (m s) as [s1 r1]. simpl. by intros [-> ->]. Qed.

Lemma wp_intro {A} (m : M S E A) (Q : S → res E A → Prop) s :
  (∀ s' r, m s = (s', r) → Q s' r) → wp m Q s.
Proof. unfold wp. destruct (m s) as [s' r]. eauto. Qed.
End Wp.

Lemma wp_zoom {S T E A} (get : S → T) (set : T → S → S) (m : M T E A)
    (Q : S → res E A → Prop) s :
  wp m (λ t' r, Q (set t' s) r) (get s) → wp (zoom get set m) Q s.
Proof. unfold wp, zoom. by destruct (m (get s)). Qed.

#[global] Opaque wp.

(** The notations of the development live in a scope of their own. *)
Declare Scope go_scope.
Delimit Scope go_scope with go.
#[global] Open Scope go_scope.

Notation "m 'or_return' h" := (on_err m h)
  (at level 90, h at level 90, left associativity) : go_scope.
Notation "m 'or_die' site" := (or_panic m site)
  (at level 90, site at level 9, left associativity) : go_scope.

(** * The integer type [cosmossdk.io/math.Int] *)

(** A [math.Int] is an arbitrary-precision integer whose arithmetic panics as
    soon as a result needs more than 256 bits. *)
Definition MaxBitLen : Z := 256.
Definition int_fits (z : Z) : bool := Z.abs z <? 2 ^ MaxBitLen.

Section IntOps.
Context {S E : Type}.

Definition int_checked (z : Z) : M S E Z :=
  if int_fits z then mret z else panic "math.Int overflow".
Definition IntAdd (a b : Z) : M S E Z := int_checked (a + b).
Definition IntSub (a b : Z) : M S E Z := int_checked (a - b).
Definition IntMul (a b : Z) : M S E Z := int_checked (a * b).
(** [Int.Quo] truncates, [Int.Mod] is the Euclidean remainder; both panic on
    a zero divisor. *)
Definition IntQuo (a b : Z) : M S E Z :=
  if b =? 0 then panic "division by zero" else mret (Z.quot a b).
Definition IntMod (a b : Z) : M S E Z :=
  if b =? 0 then panic "division by zero" else mret (a mod Z.abs b).

Lemma wp_int_checked z (Q : S → res E Z → Prop) s :
  Z.abs z < 2 ^ MaxBitLen → Q s (Ok z) → wp (int_checked z) Q s.
Proof.
  intros Hz HQ. unfold int_checked, int_fits.
  rewrite (proj2 (Z.ltb_lt _ _) Hz). by apply wp_ret.
Qed.

Lemma wp_int_checked_or z (Q : S → res E Z → Prop) s :
  Q s (Ok z) → (2 ^ MaxBitLen ≤ Z.abs z → Q s (Panic "math.Int overflow")) →
  wp (int_checked z) Q s.
Proof.
  intros HQ Hp. unfold int_checked, int_fits.
  destruct (Z.ltb_spec (Z.abs z) (2 ^ MaxBitLen)); [by apply wp_ret|].
  by apply wp_panic, Hp.
Qed.

Lemma wp_IntQuo a b (Q : S → res E Z → Prop) s :
  0 ≤ a → 0 < b → Q s (Ok (a / b)) → wp (IntQuo a b) Q s.
Proof.
  intros Ha Hb HQ. unfold IntQuo. rewrite (proj2 (Z.eqb_neq b 0)) by lia.
  rewrite Z.quot_div_nonneg by lia. by apply wp_ret.
Qed.

Lemma wp_IntMod a b (Q : S → res E Z → Prop) s :
  0 < b → Q s (Ok (a mod b)) → wp (IntMod a b) Q s.
Proof.
  intros Hb HQ. unfold IntMod. rewrite (proj2 (Z.eqb_neq b 0)) by lia.
  rewrite Z.abs_eq by lia. by apply wp_ret.
Qed.
End IntOps.

Infix "+!" := IntAdd (at level 50, left associativity) : go_scope.
Infix "-!" := IntSub (at level 50, left associativity) : go_scope.
Infix "*!" := IntMul (at level 40, left associativity) : go_scope.

(** * Frames *)

(** A computation that leaves part of its state alone, whatever its outcome. *)
Section Keeps.
Context {S T E : Type} (part : S → T).
Definition keeps {X} (m : M S E X) : Prop := ∀ s s' r, m s = (s', r) → part s' = part s.
Lemma keeps_bind {X Y} (m : M S E X) (k : X → M S E Y) :
  keeps m → (∀ x, keeps (k x)) → keeps (m ≫= k).
Proof.
  intros Hm Hk s s' r. unfold mbind, M_bind. destruct (m s) as [s1 [x|e|p]] eqn:H1.
  - intros H2. rewrite (Hk _ _ _ _ H2). by eapply Hm.
  - intros [= <- _]. by eapply Hm.
  - intros [= <- _]. by eapply Hm.
Qed.
Lemma keeps_ret {X} (x : X) : keeps (mret x).
Proof. by intros s s' r [= <- _]. Qed.
Lemma keeps_throw {X} e : keeps (throw (A := X) e).
Proof. by intros s s' r [= <- _]. Qed.
Lemma keeps_panic {X} p : keeps (panic (A := X) p).
Proof. by intros s s' r [= <- _]. Qed.
Lemma keeps_gets {X} (f : S → X) : keeps (gets f).
Proof. by intros s s' r [= <- _]. Qed.
Lemma keeps_modify (f : S → S) : (∀ s, part (f s) = part s) → keeps (modify f).
Proof. intros Hf s s' r [= <- _]. apply Hf. Qed.
Lemma keeps_if {X} (b : bool) (m1 m2 : M S E X) : keeps m1 → keeps m2 → keeps (if b then m1 else m2).
Proof. by destruct b. Qed.
Lemma keeps_when b (m : M S E unit) : keeps m → keeps (when b m).
Proof. intros H. destruct b; [done|apply keeps_ret]. Qed.
Lemma keeps_for_each {X} (xs : list X) (body : X → M S E unit) : (∀ x, keeps (body x)) → keeps (for_each xs body).
Proof. intros H. induction xs as [|x xs IH]; cbn; [apply keeps_ret|]. by apply keeps_bind. Qed.
(** What is kept adds to what is proved of the outcome. *)
Lemma wp_keeps {X} (m : M S E X) Q s : keeps m → wp m Q s → wp m (λ s' r, Q s' r ∧ part s' = part s) s.
Proof. intros Hk Hw. apply wp_intro. intros s' r Hm. split; [by eapply wp_run|by eapply Hk]. Qed.
End Keeps.
Create HintDb keeps.
#[export] Hint Resolve keeps_bind keeps_ret keeps_throw keeps_panic keeps_gets keeps_if keeps_when keeps_for_each : keeps.

(** * Automation *)

Create HintDb go discriminated.
#[export] Hint Resolve wp_ret wp_throw wp_panic wp_gets wp_modify : go.

(** Booleans of the code as propositions. *)
Ltac zbool :=
  repeat match goal with
  | H : (_ && _)%bool = true |- _ => apply andb_true_iff in H as [? ?]
  | H : (_ || _)%bool = false |- _ => apply orb_false_iff in H as [? ?]
  | H : negb _ = true |- _ => apply negb_true_iff in H
  | H : negb _ = false |- _ => apply negb_false_iff in H
  | H : (_ =? _)%Z = true |- _ => apply Z.eqb_eq in H
  | H : (_ =? _)%Z = false |- _ => apply Z.eqb_neq in H
  | H : (_ <? _)%Z = true |- _ => apply Z.ltb_lt in H
  | H : (_ <? _)%Z = false |- _ => apply Z.ltb_ge in H
  | H : (_ <=? _)%Z = true |- _ => apply Z.leb_le in H
  | H : (_ <=? _)%Z = false |- _ => apply Z.leb_gt in H
  | H : (_ >=? _)%Z = _ |- _ => rewrite Z.geb_leb in H
  | H : (_ >? _)%Z = _ |- _ => rewrite Z.gtb_ltb in H
  | H : bool_decide _ = true |- _ => apply bool_decide_eq_true in H
  | H : bool_decide _ = false |- _ => apply bool_decide_eq_false in H
  end.

(** Side conditions of checked integer arithmetic: only the arithmetic part of
    the context matters. *)
Ltac clear_irrelevant :=
  repeat match goal with
  | H : ?P |- _ =>
      lazymatch type of P with
      | Prop =>
          lazymatch P with
          | context [Z.lt] => fail
          | context [Z.le] => fail
          | @eq Z _ _ => fail
          | ~ (@eq Z _ _) => fail
          | _ => clear H
          end
      end
  end.
Ltac int_range := clear_irrelevant; unfold MaxBitLen in *; lia.

(** One symbolic step of a monadic program under [wp]. *)
Ltac wp_step :=
  lazymatch goal with
  | |- wp (mbind _ _) _ _ => apply wp_bind
  | |- wp (mret _) _ _ => apply wp_ret
  | |- wp (throw _) _ _ => apply wp_throw
  | |- wp (panic _) _ _ => apply wp_panic
  | |- wp (gets _) _ _ => apply wp_gets
  | |- wp (modify _) _ _ => apply wp_modify
  | |- wp (on_err _ _) _ _ => apply wp_on_err
  | |- wp (or_panic _ _) _ _ => apply wp_or_panic
  | |- wp (zoom _ _ _) _ _ => apply wp_zoom
  | |- wp (when ?b _) _ _ => unfold when; let Hb := fresh "Hb" in
        apply wp_if; intros Hb
  | |- wp (if _ then _ else _) _ _ => let Hb := fresh "Hb" in
        apply wp_if; intros Hb
  | |- wp (IntAdd _ _) _ _ => apply wp_int_checked; [int_range|]
  | |- wp (IntSub _ _) _ _ => apply wp_int_checked; [int_range|]
  | |- wp (IntMul _ _) _ _ => apply wp_int_checked; [int_range|]
  | |- wp (IntQuo _ _) _ _ => apply wp_IntQuo; [int_range|int_range|]
  | |- wp (IntMod _ _) _ _ => apply wp_IntMod; [int_range|]
  end.
Ltac wp_steps := repeat (wp_step; zbool; simpl).

(** Compute a monadic program in the goal. *)
Ltac run_M :=
  unfold mbind, M_bind, mret, M_ret, fmap, M_fmap, throw, panic, gets, modify, when; cbn.

(** Two splittings of one list, the first one earlier. *)
Lemma app_split_earlier {A} (l1 k1 l2 k2 : list A) :
  l1 ++ k1 = l2 ++ k2 → (length l1 ≤ length l2)%nat →
  ∃ mid, l2 = l1 ++ mid ∧ k1 = mid ++ k2.
Proof.
  intros Heq Hlen. destruct (app_eq_inv _ _ _ _ Heq) as [(k & -> & ->)|(k & -> & ->)].
  - exists []. rewrite length_app in Hlen. destruct k; simpl in *; [|lia].
    by rewrite !app_nil_r.
  - by exists k.
Qed.

(** * Sums over finite maps *)

Section MapSum.
Context {K : Type} `{Countable K}.
Implicit Types m : gmap K Z.

Definition map_sum (m : gmap K Z) : Z := map_fold (λ _ v acc, v + acc) 0 m.

Lemma map_sum_empty : map_sum ∅ = 0.
Proof. apply map_fold_empty. Qed.

Lemma map_sum_insert_new m k v :
  m !! k = None → map_sum (<[k:=v]> m) = v + map_sum m.
Proof. intros Hk. unfold map_sum. rewrite map_fold_insert_L; [done|lia|done]. Qed.

Lemma map_sum_delete m k :
  map_sum (delete k m) = map_sum m - default 0 (m !! k).
Proof.
  destruct (m !! k) as [v|] eqn:Hk; simpl.
  - rewrite <- (insert_delete_id m k v Hk) at 2.
    rewrite map_sum_insert_new by apply lookup_delete_eq. lia.
  - rewrite delete_id by done. lia.
Qed.

Lemma map_sum_insert m k v :
  map_sum (<[k:=v]> m) = map_sum m - default 0 (m !! k) + v.
Proof.
  rewrite <- insert_delete_eq.
  rewrite map_sum_insert_new by apply lookup_delete_eq.
  rewrite map_sum_delete. lia.
Qed.

Lemma map_sum_nonneg m : (∀ k v, m !! k = Some v → 0 ≤ v) → 0 ≤ map_sum m.
Proof.
  induction m as [|k v m Hk IH] using map_ind; intros Hm.
  - by rewrite map_sum_empty.
  - rewrite map_sum_insert_new by done.
    assert (0 ≤ v) by (apply (Hm k), lookup_insert_eq).
    assert (0 ≤ map_sum m); [|lia]. apply IH. intros k' v' Hk'.
    apply (Hm k'). rewrite lookup_insert_ne; [done|congruence].
Qed.

(** A lower bound on the sum from the entries at two different keys. *)
Lemma map_sum_two m k1 k2 :
  k1 ≠ k2 → (∀ k v, m !! k = Some v → 0 ≤ v) →
  default 0 (m !! k1) + default 0 (m !! k2) ≤ map_sum m.
Proof.
  intros Hne Hm.
  assert (0 ≤ map_sum (delete k2 (delete k1 m))) as Hrest.
  { apply map_sum_nonneg. intros k v Hk.
    apply lookup_delete_Some in Hk as [_ Hk].
    apply lookup_delete_Some in Hk as [_ Hk]. eauto. }
  rewrite !map_sum_delete, lookup_delete_ne in Hrest by done. lia.
Qed.

Lemma map_sum_one m k :
  (∀ k v, m !! k = Some v → 0 ≤ v) → default 0 (m !! k) ≤ map_sum m.
Proof.
  intros Hm. assert (0 ≤ map_sum (delete k m)) as Hrest.
  { apply map_sum_nonneg. intros k' v Hk.
    apply lookup_delete_Some in Hk as [_ Hk]. eauto. }
  rewrite map_sum_delete in Hrest. lia.
Qed.
End MapSum.

(** A filter that keeps everything. *)
Lemma filter_all {A} (P : A → Prop) `{!∀ x, Decision (P x)} l : Forall P l → filter P l = l.
Proof. induction 1 as [|x l Hx _ IH]; [done|]. by rewrite filter_cons_True, IH. Qed.
