(* ===== verification/GoStd.v ===== *)
(** The parts of Go's standard library that the modelled code calls:
    [sort.Search], [sort.Slice] on keys, and fixed-width arithmetic. *)
From S2P Require Import Prelude.

(** ** Fixed-width unsigned integers *)

Definition wrap (w z : Z) : Z := z mod 2 ^ w.
Definition u8_add (a b : Z) : Z := wrap 8 (a + b).
Definition u64_add (a b : Z) : Z := wrap 64 (a + b).
Definition u64_sub (a b : Z) : Z := wrap 64 (a - b).
Definition u256_add (a b : Z) : Z := wrap 256 (a + b).
Definition u256_sub (a b : Z) : Z := wrap 256 (a - b).

Lemma wrap_small w z : 0 ≤ w → 0 ≤ z < 2 ^ w → wrap w z = z.
Proof. intros Hw Hz. unfold wrap. by apply Z.mod_small. Qed.

Lemma wrap_range w z : 0 ≤ w → 0 ≤ wrap w z < 2 ^ w.
Proof. intros Hw. unfold wrap. apply Z.mod_pos_bound. by apply Z.pow_pos_nonneg. Qed.

(** ** [sort.Search] *)

(** The loop of [sort.Search]: [i] and [j] bound the answer; every round halves
    their distance, so [j - i] rounds of fuel are enough. *)
Fixpoint search_loop (fuel i j : nat) (f : nat → bool) : nat :=
  match fuel with
  | O => i
  | S fuel' =>
      if (i <? j)%nat then
        let h := ((i + j) / 2)%nat in
        if negb (f h) then search_loop fuel' (S h) j f else search_loop fuel' i h f
      else i
  end.
Definition Search (n : nat) (f : nat → bool) : nat := search_loop n 0 n f.

Section SearchSpec.
Context (n : nat) (f : nat → bool).
Hypothesis Hmono : ∀ x y, (x ≤ y < n)%nat → f x = true → f y = true.

Lemma search_loop_spec fuel i j :
  (j - i ≤ fuel)%nat → (i ≤ j ≤ n)%nat →
  (∀ x, (x < i)%nat → f x = false) →
  let k := search_loop fuel i j f in
  (i ≤ k ≤ j)%nat ∧ (∀ x, (x < k)%nat → f x = false) ∧ ((k < j)%nat → f k = true).
Proof.
  revert i j. induction fuel as [|fuel IH]; intros i j Hf Hij Hlo; cbn [search_loop].
  - split_and!; [lia|lia|done|intros; lia].
  - destruct (Nat.ltb_spec i j) as [Hlt|]; [|split_and!; [lia|lia|done|intros; lia]].
    assert (i ≤ (i + j) / 2 < j)%nat as [Hh1 Hh2].
    { split; [apply Nat.div_le_lower_bound; lia|apply Nat.Div0.div_lt_upper_bound; lia]. }
    set (h := ((i + j) / 2)%nat) in *. destruct (f h) eqn:Hfh; cbn [negb].
    + destruct (IH i h) as (? & ? & Hk); [lia|lia|done|].
      split_and!; [lia|lia|done|]. intros _.
      destruct (decide (search_loop fuel i h f < h)%nat); [by apply Hk|].
      by replace (search_loop fuel i h f) with h by lia.
    + destruct (IH (S h) j) as (? & ? & Hk); [lia|lia|..].
      { intros x Hx. destruct (f x) eqn:Hfx; [|done].
        rewrite (Hmono x h) in Hfh by (done || lia). done. }
      split_and!; [lia|lia|done|done].
Qed.

(** [Search] returns the least index that satisfies [f], or [n]. *)
Lemma Search_spec :
  let k := Search n f in
  (k ≤ n)%nat ∧ (∀ x, (x < k)%nat → f x = false) ∧ ((k < n)%nat → f k = true).
Proof.
  destruct (search_loop_spec n 0 n) as (? & ? & ?); [lia|lia|intros; lia|].
  unfold Search. split_and!; [lia|done|done].
Qed.
End SearchSpec.

(** ** Sorted keys of a map *)

Definition sorted_keys {A} (m : gmap Z A) : list Z := merge_sort Z.le (map_to_list m).*1.

Lemma sorted_keys_elem {A} (m : gmap Z A) k : k ∈ sorted_keys m ↔ is_Some (m !! k).
Proof.
  unfold sorted_keys. rewrite merge_sort_Permutation, list_elem_of_fmap. split.
  - intros ([k' v] & -> & Hin). apply elem_of_map_to_list in Hin. simpl. eauto.
  - intros [v Hv]. exists (k, v). split; [done|]. by apply elem_of_map_to_list.
Qed.

Lemma sorted_keys_NoDup {A} (m : gmap Z A) : NoDup (sorted_keys m).
Proof. unfold sorted_keys. rewrite merge_sort_Permutation. apply NoDup_fst_map_to_list. Qed.
