(* ===== verification/AccessList.v ===== *)
(** The EIP-2930 access list ([x/vm/statedb/access_list.go]) and the EIP-1153
    transient storage ([x/vm/statedb/transient_storage.go]) of the state
    database.

    Addresses and storage words are fixed-width byte arrays; they are modelled by
    their big-endian values, so that byte order is the order of [Z]. *)
From S2P Require Import Prelude GoStd.

Abbreviation Address := Z.
Abbreviation Hash := Z.
Abbreviation Storage := (gmap Hash Hash).

(** ** Access list *)

(** [addresses] maps an address to its index in [slots], or to -1. *)
Record accessList := mkAccessList {
  al_addresses : gmap Address Z;
  al_slots : list (gset Hash);
}.

Definition newAccessList : accessList := mkAccessList ∅ [].

Definition ContainsAddress (al : accessList) (address : Address) : bool :=
  bool_decide (is_Some (al_addresses al !! address)).

(** [al.slots[idx]]; an index out of range is a run-time panic, which the
    invariant [al_ok] excludes. *)
Definition slot_at (al : accessList) (idx : Z) : option (gset Hash) :=
  if idx <? 0 then None else al_slots al !! Z.to_nat idx.

Definition Contains (al : accessList) (address : Address) (slot : Hash) : option (bool * bool) :=
  match al_addresses al !! address with
  | None => Some (false, false)
  | Some idx =>
      if idx =? -1 then Some (true, false)
      else m ← slot_at al idx; Some (true, bool_decide (slot ∈ m))
  end.

Definition AddAddress (al : accessList) (address : Address) : accessList * bool :=
  match al_addresses al !! address with
  | Some _ => (al, false)
  | None => (mkAccessList (<[address:=-1]> (al_addresses al)) (al_slots al), true)
  end.

Definition AddSlot (al : accessList) (address : Address) (slot : Hash) :
    option (accessList * (bool * bool)) :=
  let fresh addrPresent :=
    Some (mkAccessList (<[address := Z.of_nat (length (al_slots al))]> (al_addresses al))
                       (al_slots al ++ [{[slot]}]), (negb addrPresent, true)) in
  match al_addresses al !! address with
  | None => fresh false
  | Some idx =>
      if idx =? -1 then fresh true
      else
        slotmap ← slot_at al idx;
        if bool_decide (slot ∈ slotmap) then Some (al, (false, false))
        else Some (mkAccessList (al_addresses al)
                     (<[Z.to_nat idx := {[slot]} ∪ slotmap]> (al_slots al)), (false, true))
  end.

Definition DeleteSlot (al : accessList) (address : Address) (slot : Hash) : option accessList :=
  idx ← al_addresses al !! address;
  slotmap ← slot_at al idx;
  let slotmap' := slotmap ∖ {[slot]} in
  if bool_decide (slotmap' = ∅)
  then Some (mkAccessList (<[address:=-1]> (al_addresses al)) (take (Z.to_nat idx) (al_slots al)))
  else Some (mkAccessList (al_addresses al) (<[Z.to_nat idx := slotmap']> (al_slots al))).

Definition DeleteAddress (al : accessList) (address : Address) : accessList :=
  mkAccessList (delete address (al_addresses al)) (al_slots al).

(** Every index points to a slot set that is not empty. *)
Definition al_ok (al : accessList) : Prop :=
  ∀ a i, al_addresses al !! a = Some i →
    i = -1 ∨ ∃ m, 0 ≤ i ∧ al_slots al !! Z.to_nat i = Some m ∧ m ≠ ∅.

Lemma newAccessList_ok : al_ok newAccessList.
Proof. intros a i Hi. simpl in Hi. by rewrite lookup_empty in Hi. Qed.

Lemma AddAddress_ok al a : al_ok al → al_ok (AddAddress al a).1.
Proof.
  intros Hok. unfold AddAddress. destruct (al_addresses al !! a) eqn:Ha; [done|].
  intros b i. simpl. rewrite lookup_insert_Some. intros [[<- <-]|[_ Hb]]; [by left|].
  by apply Hok in Hb.
Qed.

(** Undoing the addition of an address. *)
Lemma AddAddress_undo al al' a :
  AddAddress al a = (al', true) → DeleteAddress al' a = al.
Proof.
  unfold AddAddress, DeleteAddress. destruct (al_addresses al !! a) eqn:Ha; intros; simplify_eq.
  simpl. rewrite delete_insert_id by done. by destruct al.
Qed.

Lemma slot_at_ok al a i :
  al_ok al → al_addresses al !! a = Some i → i ≠ -1 →
  ∃ m, slot_at al i = Some m ∧ 0 ≤ i ∧ al_slots al !! Z.to_nat i = Some m ∧ m ≠ ∅.
Proof.
  intros Hok Ha Hi. destruct (Hok a i Ha) as [?|(m & Hi0 & Hm & Hne)]; [done|].
  exists m. unfold slot_at. destruct (Z.ltb_spec i 0); [lia|]. done.
Qed.

(** The access list after an [AddSlot], by case. *)
Lemma AddSlot_total al a k :
  al_ok al → ∃ al' c, AddSlot al a k = Some (al', c) ∧ al_ok al'.
Proof.
  intros Hok. unfold AddSlot.
  assert (Hfresh : al_ok (mkAccessList (<[a := Z.of_nat (length (al_slots al))]> (al_addresses al))
                            (al_slots al ++ [{[k]}]))).
  { intros b i. simpl. rewrite lookup_insert_Some. intros [[<- <-]|[_ Hb]].
    - right. exists {[k]}. rewrite Nat2Z.id. split_and!; [lia| |set_solver].
      rewrite lookup_app_r, Nat.sub_diag by lia. done.
    - destruct (Hok b i Hb) as [?|(m & ? & Hm & ?)]; [by left|]. right. exists m.
      split_and!; [done| |done]. by apply lookup_app_l_Some. }
  destruct (al_addresses al !! a) as [i|] eqn:Ha; [|by eexists _, _].
  destruct (Z.eqb_spec i (-1)) as [|Hi]; [by eexists _, _|].
  destruct (slot_at_ok al a i Hok Ha Hi) as (m & -> & Hi0 & Hm & Hne). simpl.
  case_bool_decide; [by eexists _, _|]. eexists _, _. split; [done|].
  intros b j Hb. simpl in *. destruct (Hok b j Hb) as [?|(m' & ? & Hm' & ?)]; [by left|].
  right. destruct (decide (Z.to_nat j = Z.to_nat i)) as [->|].
  - exists ({[k]} ∪ m). rewrite list_lookup_insert_eq by by eapply lookup_lt_Some.
    split_and!; [done..|set_solver].
  - exists m'. rewrite list_lookup_insert_ne by done. done.
Qed.

(** Undoing an [AddSlot]: the slot first, then the address if it was new. *)
Lemma AddSlot_undo al al' a k addrMod slotMod :
  al_ok al → AddSlot al a k = Some (al', (addrMod, slotMod)) →
  if slotMod then
    ∃ al1, DeleteSlot al' a k = Some al1 ∧ al_ok al1 ∧
           (if addrMod then DeleteAddress al1 a else al1) = al
  else addrMod = false ∧ al' = al.
Proof.
  intros Hok. unfold AddSlot.
  assert (Hlast : ∀ i (l : list (gset Hash)), i = Z.of_nat (length l) →
            slot_at (mkAccessList (<[a:=i]> (al_addresses al)) (l ++ [{[k]}])) i = Some {[k]}).
  { intros i l ->. unfold slot_at. destruct (Z.ltb_spec (Z.of_nat (length l)) 0); [lia|]. simpl.
    rewrite Nat2Z.id, lookup_app_r, Nat.sub_diag by lia. done. }
  assert (Hdel : DeleteSlot (mkAccessList (<[a := Z.of_nat (length (al_slots al))]> (al_addresses al))
                               (al_slots al ++ [{[k]}])) a k =
                 Some (mkAccessList (<[a:=-1]> (al_addresses al)) (al_slots al))).
  { unfold DeleteSlot. simpl. rewrite lookup_insert_eq. simpl. rewrite Hlast by done. simpl.
    rewrite bool_decide_eq_true_2 by set_solver.
    by rewrite insert_insert_eq, Nat2Z.id, take_app_length. }
  assert (Hok1 : al_ok (mkAccessList (<[a:=-1]> (al_addresses al)) (al_slots al))).
  { intros b i. simpl. rewrite lookup_insert_Some. intros [[_ <-]|[_ Hb]]; [by left|].
    by apply Hok in Hb. }
  destruct (al_addresses al !! a) as [i|] eqn:Ha.
  - destruct (Z.eqb_spec i (-1)) as [->|Hi].
    + intros [= <- <- <-]. rewrite Hdel. eexists. split_and!; [done..|]. destruct al. simpl in *.
      f_equal. by rewrite insert_id.
    + destruct (slot_at_ok al a i Hok Ha Hi) as (m & -> & Hi0 & Hm & Hne). simpl.
      case_bool_decide as Hk; intros [= <- <- <-]; [done|].
      exists al. split_and!; [|done|done]. unfold DeleteSlot. simpl. rewrite Ha. simpl. unfold slot_at. simpl.
      destruct (Z.ltb_spec i 0); [lia|].
      rewrite list_lookup_insert_eq by by eapply lookup_lt_Some. simpl.
      replace (({[k]} ∪ m) ∖ {[k]}) with m by set_solver.
      rewrite bool_decide_eq_false_2 by done. rewrite list_insert_insert_eq.
      rewrite list_insert_id by done. by destruct al.
  - intros [= <- <- <-]. rewrite Hdel. eexists. split_and!; [done..|]. unfold DeleteAddress. simpl.
    rewrite delete_insert_eq, delete_id by done. by destruct al.
Qed.

(** ** Transient storage *)

Abbreviation transientStorage := (gmap Address Storage).

Definition ts_Set (t : transientStorage) (addr : Address) (key value : Hash) : transientStorage :=
  if value =? 0 then
    match t !! addr with
    | Some storage =>
        let storage' := delete key storage in
        if bool_decide (storage' = ∅) then delete addr t else <[addr:=storage']> t
    | None => t
    end
  else <[addr := <[key:=value]> (default ∅ (t !! addr))]> t.

Definition ts_Get (t : transientStorage) (addr : Address) (key : Hash) : Hash :=
  match t !! addr with
  | Some val => default 0 (val !! key)
  | None => 0
  end.

(** Reading after a write. *)
Lemma ts_Get_Set t a k v b j :
  ts_Get (ts_Set t a k v) b j = if decide (a = b ∧ k = j) then v else ts_Get t b j.
Proof.
  unfold ts_Get, ts_Set. destruct (Z.eqb_spec v 0) as [->|Hv].
  - destruct (t !! a) as [st|] eqn:Ha.
    + case_bool_decide as He.
      * rewrite lookup_delete. case_decide as Hab; subst; [|by rewrite decide_False by naive_solver].
        rewrite Ha. case_decide as Hk; [done|].
        assert (delete k st !! j = None) as Hj by (by rewrite He, lookup_empty).
        rewrite lookup_delete_ne in Hj by naive_solver. by rewrite Hj.
      * rewrite lookup_insert. case_decide as Hab; subst; [|by rewrite decide_False by naive_solver].
        rewrite Ha, lookup_delete. repeat case_decide; naive_solver.
    + case_decide as Hk; [|done]. destruct Hk as [<- <-]. by rewrite Ha.
  - rewrite lookup_insert. case_decide as Hab; subst; [|by rewrite decide_False by naive_solver].
    rewrite lookup_insert. destruct (decide (k = j)) as [->|]; [by rewrite decide_True|].
    rewrite decide_False by naive_solver. by destruct (t !! b).
Qed.
