(* ===== verification/Sdk.v ===== *)
(** The Cosmos SDK as the modules of this repository see it.

    The SDK is not part of the repository, so nothing of it is defined here:
    its types of data are records, its functions are methods of classes
    ([CoinsLib], [AccountKeeper], [BankKeeper]) that the model's definitions
    take as arguments, and what the repository relies on is stated as the
    documented laws in the classes [CoinsLaws] and [BankLaws].  The file
    [SdkLedger] instantiates all of them by an executable ledger, which shows
    that the laws can hold together and which the witnesses compute with. *)
From S2P Require Import Prelude.

(** Account addresses are byte strings; the empty string is the nil address. *)
Abbreviation AccAddress := string.

Record Coin := mkCoin { Denom : string; Amount : Z }.
Abbreviation Coins := (list Coin).

#[global] Instance Coin_eq_dec : EqDecision Coin.
Proof. solve_decision. Defined.

(** The registered errors of [cosmos-sdk/types/errors] and of the modules that
    the code tests or returns.  [errorsmod.Wrap] keeps the error's identity, so
    a wrapped error is modelled by the error it wraps. *)
Inductive SdkError :=
| ErrInvalidCoins
| ErrInsufficientFunds
| ErrUnauthorized
| ErrUnknownAddress
| ErrInvalidAddress
| ErrSendDisabled
| ErrInvalidSigner
| ErrPlain (msg : string).

#[global] Instance SdkError_eq_dec : EqDecision SdkError.
Proof. solve_decision. Defined.

(** [sdk.Coins] and [sdk.Coin] methods. *)
Class CoinsLib := {
  ValidateDenom : string → bool;
  IsValid : Coins → bool;
  AmountOf : Coins → string → Z;
  (** [Coins.Sub]; [None] is its panic on a negative result. *)
  SubCoin : Coins → Coin → option Coins;
  IsAllPositive : Coins → bool;
  NewCoins : list Coin → Coins;
}.

Section CoinOps.
Context `{CoinsLib} {S E : Type}.

(** [sdk.NewCoin] panics on an invalid denomination or a negative amount. *)
Definition NewCoin (denom : string) (amount : Z) : M S E Coin :=
  if ValidateDenom denom && (0 <=? amount)
  then mret (mkCoin denom amount) else panic "sdk.NewCoin".

Definition Sub (cs : Coins) (c : Coin) : M S E Coins :=
  match SubCoin cs c with
  | Some cs' => mret cs'
  | None => panic "Coins.Sub"
  end.

(** [Coins.Empty]: there are no coins. *)
Definition Empty (cs : Coins) : bool := bool_decide (cs = []).
End CoinOps.

Class CoinsLaws `{CoinsLib} : Prop := {
  IsValid_amount cs d : IsValid cs = true → 0 ≤ AmountOf cs d < 2 ^ MaxBitLen;
  IsValid_denom cs d :
    IsValid cs = true → 0 < AmountOf cs d → ValidateDenom d = true;
  SubCoin_spec cs d :
    IsValid cs = true → 0 < AmountOf cs d →
    ∃ cs', SubCoin cs (mkCoin d (AmountOf cs d)) = Some cs' ∧
      IsValid cs' = true ∧
      ∀ d', AmountOf cs' d' = if decide (d = d') then 0 else AmountOf cs d';
  IsAllPositive_spec cs :
    IsValid cs = true → IsAllPositive cs = false → ∀ d, AmountOf cs d = 0;
  AmountOf_nil d : AmountOf [] d = 0;
  NewCoins_spec d a :
    ValidateDenom d = true → 0 < a < 2 ^ MaxBitLen →
    IsValid (NewCoins [mkCoin d a]) = true ∧
    ∀ d', AmountOf (NewCoins [mkCoin d a]) d' = if decide (d = d') then a else 0;
}.

(** The account keeper: module accounts and their permissions. *)
Record ModuleAccount := { ma_addr : AccAddress; ma_perms : list string }.

Class AccountKeeper := {
  GetModuleAccount : string → option ModuleAccount;
}.

Section AccountOps.
Context `{AccountKeeper}.

(** [GetModuleAddress] is nil for an unregistered module. *)
Definition GetModuleAddress (name : string) : option AccAddress :=
  ma_addr <$> GetModuleAccount name.

Definition HasPermission (acc : ModuleAccount) (perm : string) : bool :=
  bool_decide (perm ∈ ma_perms acc).
End AccountOps.

Definition Minter : string := "minter".
Definition Burner : string := "burner".

(** The bank keeper, over its own state [B]. *)
Class BankKeeper (B : Type) := {
  bk_GetBalance : B → AccAddress → string → Coin;
  bk_SpendableCoin : B → AccAddress → string → Coin;
  bk_IsSendEnabledCoin : B → Coin → bool;
  bk_BlockedAddr : AccAddress → bool;
  bk_SendCoins : AccAddress → AccAddress → Coins → M B SdkError unit;
  bk_SendCoinsFromAccountToModule : AccAddress → string → Coins → M B SdkError unit;
  bk_SendCoinsFromModuleToModule : string → string → Coins → M B SdkError unit;
  bk_MintCoins : string → Coins → M B SdkError unit;
  bk_BurnCoins : string → Coins → M B SdkError unit;
}.

Section BankViews.
Context {B : Type} `{BankKeeper B}.
Definition bal (b : B) (a : AccAddress) (d : string) : Z := Amount (bk_GetBalance b a d).
Definition spendable (b : B) (a : AccAddress) (d : string) : Z :=
  Amount (bk_SpendableCoin b a d).

(** Balances after adding [amt] coins to one account and subtracting them
    from another. *)
Definition moved (b b' : B) (src dst : option AccAddress) (amt : string → Z) : Prop :=
  ∀ a d, bal b' a d =
    bal b a d - (if decide (src = Some a) then amt d else 0)
              + (if decide (dst = Some a) then amt d else 0).
End BankViews.

(** What x/bank documents of the methods above.  A valid coin set is sent
    unless the spendable balance of one of its denominations is too small (no
    send restriction is configured); a mint or burn by a module that holds the
    permission and the funds succeeds. *)
Class BankLaws (B : Type) `{CoinsLib, AccountKeeper, BankKeeper B} : Prop := {
  bal_nonneg b a d : 0 ≤ bal b a d;
  spendable_range b a d : 0 ≤ spendable b a d ≤ bal b a d;
  module_spendable b m acc d :
    GetModuleAccount m = Some acc → spendable b (ma_addr acc) d = bal b (ma_addr acc) d;
  send_moves b f t cs b' :
    IsValid cs = true → bk_SendCoins f t cs b = (b', Ok tt) →
    moved b b' (Some f) (Some t) (AmountOf cs);
  send_spendable b f t cs b' d :
    IsValid cs = true → f ≠ t → bk_SendCoins f t cs b = (b', Ok tt) →
    spendable b' f d = spendable b f d - AmountOf cs d;
  send_covered b f t cs :
    IsValid cs = true →
    (∃ b', bk_SendCoins f t cs b = (b', Ok tt)) ∨ (∃ d, spendable b f d < AmountOf cs d);
  send_short b f t cs d :
    IsValid cs = true → spendable b f d < AmountOf cs d →
    ∃ b', bk_SendCoins f t cs b = (b', Err ErrInsufficientFunds) ∧
      ∀ a d', bal b' a d' ≤ bal b a d';
  send_to_module f m acc cs :
    GetModuleAccount m = Some acc →
    bk_SendCoinsFromAccountToModule f m cs = bk_SendCoins f (ma_addr acc) cs;
  send_between_modules m1 m2 acc1 acc2 cs :
    GetModuleAccount m1 = Some acc1 → GetModuleAccount m2 = Some acc2 →
    bk_SendCoinsFromModuleToModule m1 m2 cs = bk_SendCoins (ma_addr acc1) (ma_addr acc2) cs;
  mint_moves b m acc cs b' :
    GetModuleAccount m = Some acc → IsValid cs = true →
    bk_MintCoins m cs b = (b', Ok tt) →
    moved b b' None (Some (ma_addr acc)) (AmountOf cs);
  mint_permitted b m acc cs :
    GetModuleAccount m = Some acc → HasPermission acc Minter = true →
    IsValid cs = true → ∃ b', bk_MintCoins m cs b = (b', Ok tt);
  burn_moves b m acc cs b' :
    GetModuleAccount m = Some acc → IsValid cs = true →
    bk_BurnCoins m cs b = (b', Ok tt) →
    moved b b' (Some (ma_addr acc)) None (AmountOf cs);
  burn_covered b m acc cs :
    GetModuleAccount m = Some acc → HasPermission acc Burner = true →
    IsValid cs = true →
    (∃ b', bk_BurnCoins m cs b = (b', Ok tt)) ∨ (∃ d, bal b (ma_addr acc) d < AmountOf cs d);
  burn_short b m acc cs d :
    GetModuleAccount m = Some acc → HasPermission acc Burner = true →
    IsValid cs = true → bal b (ma_addr acc) d < AmountOf cs d →
    ∃ b', bk_BurnCoins m cs b = (b', Err ErrInsufficientFunds) ∧
      ∀ a d', bal b' a d' ≤ bal b a d';
}.

(** One coin moved through x/bank: the shape every call of precisebank has. *)
Section SingleCoin.
Context {B : Type} `{HC : CoinsLib, HA : AccountKeeper, HB : !BankKeeper B}.
Context `{!CoinsLaws, !BankLaws B}.

Definition one_coin (d : string) (a : Z) (d' : string) : Z :=
  if decide (d = d') then a else 0.

Lemma wp_send_one b f t d a (Q : B → res SdkError unit → Prop) :
  ValidateDenom d = true → 0 < a < 2 ^ MaxBitLen →
  (a ≤ spendable b f d → ∀ b', moved b b' (Some f) (Some t) (one_coin d a) →
     (f ≠ t → spendable b' f d = spendable b f d - a) → Q b' (Ok tt)) →
  (spendable b f d < a → ∀ b', (∀ x d', bal b' x d' ≤ bal b x d') →
     Q b' (Err ErrInsufficientFunds)) →
  wp (bk_SendCoins f t (NewCoins [mkCoin d a])) Q b.
Proof.
  intros Hd Ha Hok Herr.
  destruct (NewCoins_spec d a Hd Ha) as [Hv Hamt].
  destruct (decide (a ≤ spendable b f d)) as [Hle|Hgt].
  - destruct (send_covered b f t (NewCoins [mkCoin d a]) Hv) as [[b' Hb']|[d' Hd']].
    2:{ rewrite Hamt in Hd'. pose proof (spendable_range b f d').
        case_decide; subst; lia. }
    apply wp_intro. intros b1 r Hr. rewrite Hb' in Hr. simplify_eq.
    apply Hok; [done|..].
    + intros x d'. rewrite (send_moves _ _ _ _ _ Hv Hb'), Hamt. done.
    + intros Hft. rewrite (send_spendable _ _ _ _ _ d Hv Hft Hb'), Hamt.
      by rewrite decide_True.
  - destruct (send_short b f t (NewCoins [mkCoin d a]) d) as (b' & Hb' & Hle); [done|..].
    { rewrite Hamt. rewrite decide_True by done. lia. }
    apply wp_intro. intros b1 r Hr. rewrite Hb' in Hr. simplify_eq.
    apply Herr; [lia|done].
Qed.

Lemma wp_mint_one b m acc d a (Q : B → res SdkError unit → Prop) :
  GetModuleAccount m = Some acc → HasPermission acc Minter = true →
  ValidateDenom d = true → 0 < a < 2 ^ MaxBitLen →
  (∀ b', moved b b' None (Some (ma_addr acc)) (one_coin d a) → Q b' (Ok tt)) →
  wp (bk_MintCoins m (NewCoins [mkCoin d a])) Q b.
Proof.
  intros Hm Hp Hd Ha Hok.
  destruct (NewCoins_spec d a Hd Ha) as [Hv Hamt].
  destruct (mint_permitted b m acc _ Hm Hp Hv) as [b' Hb'].
  apply wp_intro. intros b1 r Hr. rewrite Hb' in Hr. simplify_eq.
  apply Hok. intros x d'. by rewrite (mint_moves _ _ _ _ _ Hm Hv Hb'), Hamt.
Qed.

Lemma wp_burn_one b m acc d a (Q : B → res SdkError unit → Prop) :
  GetModuleAccount m = Some acc → HasPermission acc Burner = true →
  ValidateDenom d = true → 0 < a < 2 ^ MaxBitLen →
  (a ≤ bal b (ma_addr acc) d →
     ∀ b', moved b b' (Some (ma_addr acc)) None (one_coin d a) → Q b' (Ok tt)) →
  (bal b (ma_addr acc) d < a → ∀ b', (∀ x d', bal b' x d' ≤ bal b x d') →
     Q b' (Err ErrInsufficientFunds)) →
  wp (bk_BurnCoins m (NewCoins [mkCoin d a])) Q b.
Proof.
  intros Hm Hp Hd Ha Hok Herr.
  destruct (NewCoins_spec d a Hd Ha) as [Hv Hamt].
  destruct (decide (a ≤ bal b (ma_addr acc) d)) as [Hle|Hgt].
  - destruct (burn_covered b m acc _ Hm Hp Hv) as [[b' Hb']|[d' Hd']].
    2:{ rewrite Hamt in Hd'. pose proof (bal_nonneg b (ma_addr acc) d').
        case_decide; subst; lia. }
    apply wp_intro. intros b1 r Hr. rewrite Hb' in Hr. simplify_eq.
    apply Hok; [done|]. intros x d'. by rewrite (burn_moves _ _ _ _ _ Hm Hv Hb'), Hamt.
  - destruct (burn_short b m acc _ d Hm Hp Hv) as (b' & Hb' & Hle).
    { rewrite Hamt. rewrite decide_True by done. lia. }
    apply wp_intro. intros b1 r Hr. rewrite Hb' in Hr. simplify_eq.
    apply Herr; [lia|done].
Qed.
End SingleCoin.
