(* ===== verification/EvmCoin.v ===== *)
(** The EVM coin: its denominations and decimals
    ([x/vm/types/denom.go], [denom_config.go], [scaling.go]).

    [Decimals] and the table of conversion factors to 18 decimals, the
    process-wide coin information with its one-shot setter, and the scaling
    functions.  [None] stands for Go's nil, both for the nil [math.Int] that an
    absent table entry yields and for the unset coin information. *)
From S2P Require Import Prelude Sdk.

(** [type Decimals uint32]. *)
Abbreviation Decimals := Z.
Definition EighteenDecimals : Decimals := 18.

(** The [ConversionFactor] table. *)
Definition ConversionFactor_table : gmap Z Z := list_to_map
  [(1, 100000000000000000); (2, 10000000000000000); (3, 1000000000000000);
   (4, 100000000000000); (5, 10000000000000); (6, 1000000000000);
   (7, 100000000000); (8, 10000000000); (9, 1000000000); (10, 100000000);
   (11, 10000000); (12, 1000000); (13, 100000); (14, 10000); (15, 1000);
   (16, 100); (17, 10); (18, 1)].

Definition Decimals_Validate (d : Decimals) : bool :=
  (0 <? d) && (d <=? EighteenDecimals).

(** [None] is the nil [math.Int] of a missing table entry. *)
Definition Decimals_ConversionFactor (d : Decimals) : option Z :=
  ConversionFactor_table !! d.

Record EvmCoinInfo := mkEvmCoinInfo {
  eci_Denom : string;
  eci_ExtendedDenom : string;
  eci_DisplayDenom : string;
  eci_Decimals : Z;
}.

(** The package variables [evmCoinInfo] and [defaultEvmCoinInfo]. *)
Record CoinGlobals := mkCoinGlobals {
  g_evmCoinInfo : option EvmCoinInfo;
  g_defaultEvmCoinInfo : option EvmCoinInfo;
}.

Abbreviation CM := (M CoinGlobals SdkError).

Section CoinConfig.
Context `{CoinsLib}.

Definition SetDefaultEvmCoinInfo (coinInfo : EvmCoinInfo) : CM unit :=
  modify (λ g, mkCoinGlobals (g_evmCoinInfo g) (Some coinInfo)).

Definition getEvmCoinInfo (g : CoinGlobals) : option EvmCoinInfo :=
  match g_evmCoinInfo g with
  | None => g_defaultEvmCoinInfo g
  | Some i => Some i
  end.

(** [evmCoinInfo.X = v]: dereferences the pointer. *)
Definition update_evmCoinInfo (f : EvmCoinInfo → EvmCoinInfo) : CM unit := λ g,
  match g_evmCoinInfo g with
  | None => (g, Panic "nil pointer dereference")
  | Some i => (mkCoinGlobals (Some (f i)) (g_defaultEvmCoinInfo g), Ok tt)
  end.

Definition setEVMCoinDecimals (d : Decimals) : CM unit :=
  if negb (Decimals_Validate d) then throw (ErrPlain "setting EVM coin decimals")
  else update_evmCoinInfo (λ i, mkEvmCoinInfo (eci_Denom i) (eci_ExtendedDenom i)
                                  (eci_DisplayDenom i) d).

Definition setEVMCoinDenom (denom : string) : CM unit :=
  if negb (ValidateDenom denom) then throw (ErrPlain "setting EVM coin denom")
  else update_evmCoinInfo (λ i, mkEvmCoinInfo denom (eci_ExtendedDenom i)
                                  (eci_DisplayDenom i) (eci_Decimals i)).

Definition setEVMCoinExtendedDenom (extendedDenom : string) : CM unit :=
  if negb (ValidateDenom extendedDenom) then throw (ErrPlain "invalid denom")
  else update_evmCoinInfo (λ i, mkEvmCoinInfo (eci_Denom i) extendedDenom
                                  (eci_DisplayDenom i) (eci_Decimals i)).

Definition setDisplayDenom (displayDenom : string) : CM unit :=
  if negb (ValidateDenom displayDenom)
  then throw (ErrPlain "setting EVM coin display denom")
  else update_evmCoinInfo (λ i, mkEvmCoinInfo (eci_Denom i) (eci_ExtendedDenom i)
                                  displayDenom (eci_Decimals i)).

(** The getters dereference [getEvmCoinInfo()]. *)
Definition deref_info {A} (f : EvmCoinInfo → A) : CM A := λ g,
  match getEvmCoinInfo g with
  | Some i => (g, Ok (f i))
  | None => (g, Panic "nil pointer dereference")
  end.
Definition GetEVMCoinDecimals : CM Decimals := deref_info eci_Decimals.
Definition GetEVMCoinDenom : CM string := deref_info eci_Denom.
Definition GetEVMCoinExtendedDenom : CM string := deref_info eci_ExtendedDenom.
Definition GetEVMCoinDisplayDenom : CM string := deref_info eci_DisplayDenom.

Definition setEVMCoinInfo (eci : EvmCoinInfo) : CM unit :=
  cur ← gets g_evmCoinInfo;
  match cur with
  | Some _ => throw (ErrPlain "EVM coin info already set")
  | None =>
      if (eci_Decimals eci =? EighteenDecimals)
         && negb (String.eqb (eci_Denom eci) (eci_ExtendedDenom eci))
      then throw (ErrPlain "EVM coin denom and extended denom must be the same for 18 decimals")
      else
        modify (λ g, mkCoinGlobals (Some (mkEvmCoinInfo "" "" "" 0)) (g_defaultEvmCoinInfo g)) ;;
        setEVMCoinDenom (eci_Denom eci) ;;
        setEVMCoinExtendedDenom (eci_ExtendedDenom eci) ;;
        setDisplayDenom (eci_DisplayDenom eci) ;;
        setEVMCoinDecimals (eci_Decimals eci)
  end.

(** ** Scaling to 18 decimals, for a configured coin [info] *)

Definition ConvertAmountTo18DecimalsBigInt (info : EvmCoinInfo) (amt : Z) : option Z :=
  cf ← Decimals_ConversionFactor (eci_Decimals info); Some (amt * cf).

(** [uint256] multiplication wraps; the factor is below [2^64]. *)
Definition ConvertAmountTo18Decimals256Int (info : EvmCoinInfo) (amt : Z) : option Z :=
  cf ← Decimals_ConversionFactor (eci_Decimals info);
  Some ((amt * (cf mod 2 ^ 64)) mod 2 ^ 256).

Definition ConvertEvmCoinDenomToExtendedDenom (info : EvmCoinInfo) (coin : Coin) :
    res SdkError Coin :=
  if String.eqb (Denom coin) (eci_Denom info)
  then Ok (mkCoin (eci_ExtendedDenom info) (Amount coin))
  else Err (ErrPlain "expected coin denom").

(** The loop of [ConvertCoinsDenomToExtendedDenom], before its final [Sort]. *)
Definition convert_denom (info : EvmCoinInfo) (coin : Coin) : Coin :=
  if String.eqb (Denom coin) (eci_Denom info) then
    match ConvertEvmCoinDenomToExtendedDenom info coin with
    | Ok c => c
    | _ => mkCoin "" 0
    end
  else coin.
Definition ConvertCoinsDenomToExtendedDenom (Sort : Coins → Coins)
    (info : EvmCoinInfo) (coins : Coins) : Coins :=
  Sort (convert_denom info <$> coins).

(** [utils.Uint256FromBigInt]. *)
Definition Uint256FromBigInt (i : Z) : option Z :=
  if i <? 0 then None else if 2 ^ 256 <=? i then None else Some i.

(** ** Lemmas *)

Lemma setEVMCoinInfo_ok eci g g' :
  setEVMCoinInfo eci g = (g', Ok tt) →
  g_evmCoinInfo g = None ∧ g_evmCoinInfo g' = Some eci ∧
  Decimals_Validate (eci_Decimals eci) = true ∧
  ValidateDenom (eci_Denom eci) = true ∧
  ValidateDenom (eci_ExtendedDenom eci) = true ∧
  (eci_Decimals eci = EighteenDecimals → eci_Denom eci = eci_ExtendedDenom eci).
Proof.
  unfold setEVMCoinInfo, setEVMCoinDenom, setEVMCoinExtendedDenom,
    setDisplayDenom, setEVMCoinDecimals, update_evmCoinInfo. run_M.
  destruct g as [[i|] df]; [done|]. cbn.
  destruct (_ && _) eqn:Hd; [done|]. cbn.
  destruct (ValidateDenom (eci_Denom eci)) eqn:H1; [|done]. cbn.
  destruct (ValidateDenom (eci_ExtendedDenom eci)) eqn:H2; [|done]. cbn.
  destruct (ValidateDenom (eci_DisplayDenom eci)) eqn:H3; [|done]. cbn.
  destruct (Decimals_Validate (eci_Decimals eci)) eqn:H4; [|done]. cbn.
  intros Heq. simplify_eq. destruct eci as [den ext disp decs]. cbn in *.
  do 5 (split; [done|]). intros ->. apply andb_false_iff in Hd as [Hd|Hd]; [done|].
  apply negb_false_iff, String.eqb_eq in Hd. done.
Qed.
End CoinConfig.

(** Every supported number of decimals has a factor, a power of ten. *)
Lemma Decimals_ConversionFactor_supported d :
  Decimals_Validate d = true → Decimals_ConversionFactor d = Some (10 ^ (18 - d)).
Proof.
  unfold Decimals_Validate, EighteenDecimals. intros Hd. zbool.
  assert (d = 1 ∨ d = 2 ∨ d = 3 ∨ d = 4 ∨ d = 5 ∨ d = 6 ∨ d = 7 ∨ d = 8 ∨ d = 9 ∨
          d = 10 ∨ d = 11 ∨ d = 12 ∨ d = 13 ∨ d = 14 ∨ d = 15 ∨ d = 16 ∨ d = 17 ∨
          d = 18) as Hcases by lia.
  by destruct_or! Hcases; subst.
Qed.

Lemma factor_range d : 1 ≤ d ≤ 18 → 1 ≤ 10 ^ (18 - d) ≤ 10 ^ 17.
Proof.
  intros Hd. split.
  - change 1 with (10 ^ 0) at 1. apply Z.pow_le_mono_r; lia.
  - apply Z.pow_le_mono_r; lia.
Qed.

(** The table is looked up through the lemma above only. *)
#[global] Opaque ConversionFactor_table.
