(* ===== verification/PreciseBank.v ===== *)
(** The precise bank ([contrib/x/precisebank]).

    x/precisebank extends the precision of the EVM coin beyond what x/bank
    stores: an account's extended balance is its integer balance in x/bank times
    the conversion factor, plus a fractional balance kept here.  The fractional
    balances and a remainder are backed by integer coins held by the module's
    own account, the reserve.

    [PBState] is the keeper's store (the fractional balances under their prefix,
    the remainder key), the x/bank state it calls into and the emitted events.
    Every keeper method is a definition over [M (PBState B) SdkError]; x/bank,
    the account keeper and [sdk.Coins] are the classes of [Sdk]. *)
From S2P Require Import Prelude Sdk EvmCoin.

(** [types.ModuleName]. *)
Definition ModuleName : string := "precisebank".

(** [types.NewEventFractionalBalanceChange]: the address and the delta. *)
Record FractionalBalanceChange := mkFBC { fbc_address : AccAddress; fbc_delta : Z }.

Record PBState (B : Type) := mkPB {
  pb_bank : B;
  pb_frac : gmap AccAddress Z;
  pb_rem : option Z;
  pb_events : list FractionalBalanceChange;
}.
Arguments mkPB {B}.
Arguments pb_bank {B}.
Arguments pb_frac {B}.
Arguments pb_rem {B}.
Arguments pb_events {B}.

(** The byte order of the keys of the fractional balance store. *)
Definition key_le (x y : AccAddress * Z) : Prop := String.leb x.1 y.1 = true.
#[global] Instance key_le_dec x y : Decision (key_le x y).
Proof. unfold key_le. apply _. Defined.

Section Keeper.
Context {B : Type} `{HC : CoinsLib, HA : AccountKeeper, HB : !BankKeeper B}.
Context (info : EvmCoinInfo).

Abbreviation PM := (M (PBState B) SdkError).

(** ** [types/fractional_balance.go] *)

(** The nil factor of unsupported decimals, which [setEVMCoinInfo] refuses,
    is zero here: every use of it then panics on the zero divisor. *)
Definition ConversionFactor : Z := default 0 (Decimals_ConversionFactor (eci_Decimals info)).
Definition IntegerCoinDenom : string := eci_Denom info.
Definition ExtendedCoinDenom : string := eci_ExtendedDenom info.
Definition IsExtendedDenomSameAsIntegerDenom : bool :=
  String.eqb IntegerCoinDenom ExtendedCoinDenom.

Definition ValidateFractionalAmount (amt : option Z) : res SdkError unit :=
  match amt with
  | None => Err (ErrPlain "nil amount")
  | Some amt =>
      if negb (0 <? amt) then Err (ErrPlain "non-positive amount")
      else if amt >=? ConversionFactor then Err (ErrPlain "amount exceeds max")
      else Ok tt
  end.

(** [GetModuleAddress(ModuleName)]; the nil address is empty. *)
Definition reserveAddr : AccAddress := default "" (GetModuleAddress ModuleName).

(** ** Store access: [keeper/fractional_balance.go], [remainder_amount.go] *)

Definition GetFractionalBalance (address : AccAddress) : PM Z :=
  gets (λ s, default 0 (pb_frac s !! address)).

Definition DeleteFractionalBalance (address : AccAddress) : PM unit :=
  modify (λ s, mkPB (pb_bank s) (delete address (pb_frac s)) (pb_rem s) (pb_events s)).

Definition SetFractionalBalance (address : AccAddress) (amount : Z) : PM unit :=
  if String.eqb address "" then panic "address cannot be empty"
  else if amount =? 0 then DeleteFractionalBalance address
  else match ValidateFractionalAmount (Some amount) with
       | Ok _ => modify (λ s, mkPB (pb_bank s) (<[address:=amount]> (pb_frac s))
                                (pb_rem s) (pb_events s))
       | _ => panic "amount is invalid"
       end.

(** The entries under the prefix, in the byte order of their keys. *)
Definition store_entries (s : PBState B) : list (AccAddress * Z) :=
  merge_sort key_le (map_to_list (pb_frac s)).

(** The iterator's loop; the callback's closure variable is the accumulator,
    its boolean result is [stop]. *)
Fixpoint iterate_entries {A} (l : list (AccAddress * Z)) (acc : A)
    (cb : AccAddress → Z → A → PM (A * bool)) : PM A :=
  match l with
  | [] => mret acc
  | (address, amount) :: l' =>
      '(acc', stop) ← cb address amount acc;
      if stop : bool then mret acc' else iterate_entries l' acc' cb
  end.
Definition IterateFractionalBalances {A} (acc : A)
    (cb : AccAddress → Z → A → PM (A * bool)) : PM A :=
  l ← gets store_entries; iterate_entries l acc cb.

Definition GetTotalSumFractionalBalances : PM Z :=
  IterateFractionalBalances 0 (λ _ amount sum, sum' ← sum +! amount; mret (sum', false)).

Definition GetRemainderAmount : PM Z := gets (λ s, default 0 (pb_rem s)).

Definition DeleteRemainderAmount : PM unit :=
  modify (λ s, mkPB (pb_bank s) (pb_frac s) None (pb_events s)).

Definition SetRemainderAmount (amount : Z) : PM unit :=
  if amount =? 0 then DeleteRemainderAmount
  else match ValidateFractionalAmount (Some amount) with
       | Ok _ => modify (λ s, mkPB (pb_bank s) (pb_frac s) (Some amount) (pb_events s))
       | _ => panic "remainder amount is invalid"
       end.

(** [types/events.go]. *)
Definition EmitEventFractionalBalanceChange (address : AccAddress)
    (beforeAmount afterAmount : Z) : PM unit :=
  delta ← afterAmount -! beforeAmount;
  modify (λ s, mkPB (pb_bank s) (pb_frac s) (pb_rem s)
                 (pb_events s ++ [mkFBC address delta])).

(** Calls into x/bank. *)
Definition with_bank {A} (m : M B SdkError A) : PM A :=
  zoom pb_bank (λ b s, mkPB b (pb_frac s) (pb_rem s) (pb_events s)) m.

(** ** [keeper/view.go] *)

Definition GetBalance (addr : AccAddress) (denom : string) : PM Coin :=
  if String.eqb denom ExtendedCoinDenom && String.eqb addr reserveAddr
  then NewCoin denom 0
  else if negb (String.eqb denom ExtendedCoinDenom)
  then gets (λ s, bk_GetBalance (pb_bank s) addr denom)
  else
    integerCoins ← gets (λ s, bk_GetBalance (pb_bank s) addr IntegerCoinDenom);
    fractionalAmount ← GetFractionalBalance addr;
    scaled ← Amount integerCoins *! ConversionFactor;
    fullAmount ← scaled +! fractionalAmount;
    NewCoin ExtendedCoinDenom fullAmount.

Definition SpendableCoin (addr : AccAddress) (denom : string) : PM Coin :=
  if String.eqb denom ExtendedCoinDenom && String.eqb addr reserveAddr
  then NewCoin denom 0
  else if negb (String.eqb denom ExtendedCoinDenom)
  then gets (λ s, bk_SpendableCoin (pb_bank s) addr denom)
  else
    integerCoin ← gets (λ s, bk_SpendableCoin (pb_bank s) addr IntegerCoinDenom);
    fractionalAmount ← GetFractionalBalance addr;
    scaled ← Amount integerCoin *! ConversionFactor;
    fullAmount ← scaled +! fractionalAmount;
    NewCoin ExtendedCoinDenom fullAmount.

(** ** [keeper/send.go] *)

Definition IsSendEnabledCoin (coin : Coin) : PM bool :=
  if String.eqb (Denom coin) (eci_ExtendedDenom info) then
    q ← IntQuo (Amount coin) ConversionFactor;
    c ← NewCoin (eci_Denom info) q;
    gets (λ s, bk_IsSendEnabledCoin (pb_bank s) c)
  else gets (λ s, bk_IsSendEnabledCoin (pb_bank s) coin).

Definition IsSendEnabledCoins (coins : Coins) : PM unit :=
  for_each coins (λ coin,
    enabled ← IsSendEnabledCoin coin;
    if negb enabled then throw ErrSendDisabled else mret tt).

Definition updateInsufficientFundsError (addr : AccAddress) (amt : Z)
    (err : SdkError) : PM SdkError :=
  if negb (bool_decide (err = ErrInsufficientFunds)) then mret err
  else
    bal ← SpendableCoin addr ExtendedCoinDenom;
    coin ← NewCoin ExtendedCoinDenom amt;
    mret ErrInsufficientFunds.

Definition subFromFractionalBalance (currentFractionalBalance amountToSub : Z) :
    PM (Z * bool) :=
  if currentFractionalBalance >=? ConversionFactor
  then panic "currentFractionalBalance must be less than ConversionFactor"
  else if amountToSub >=? ConversionFactor
  then panic "amountToSub must be less than ConversionFactor"
  else
    newFractionalBalance ← currentFractionalBalance -! amountToSub;
    if newFractionalBalance <? 0 then
      newFractionalBalance' ← newFractionalBalance +! ConversionFactor;
      mret (newFractionalBalance', true)
    else mret (newFractionalBalance, false).

Definition addToFractionalBalance (currentFractionalBalance amountToAdd : Z) :
    PM (Z * bool) :=
  if currentFractionalBalance >=? ConversionFactor
  then panic "currentFractionalBalance must be less than ConversionFactor"
  else if amountToAdd >=? ConversionFactor
  then panic "amountToAdd must be less than ConversionFactor"
  else
    newFractionalBalance ← currentFractionalBalance +! amountToAdd;
    if newFractionalBalance >=? ConversionFactor then
      newFractionalBalance' ← newFractionalBalance -! ConversionFactor;
      mret (newFractionalBalance', true)
    else mret (newFractionalBalance, false).

(** A transfer that involves the reserve moves integer coins only. *)
Definition sendThroughReserve (from to : AccAddress) (amt : Z) : PM unit :=
  integerAmt ← IntQuo amt ConversionFactor;
  if 0 <? integerAmt then
    transferCoin ← NewCoin IntegerCoinDenom integerAmt;
    with_bank (bk_SendCoins from to (NewCoins [transferCoin]))
      or_return updateInsufficientFundsError from amt
  else mret tt.

Definition sendExtendedCoins (from to : AccAddress) (amt : Z) : PM unit :=
  let moduleAddr := reserveAddr in
  if String.eqb from moduleAddr || String.eqb to moduleAddr
  then sendThroughReserve from to amt
  else if String.eqb from to then mret tt
  else
    senderFracBal ← GetFractionalBalance from;
    recipientFracBal ← GetFractionalBalance to;
    integerAmt0 ← IntQuo amt ConversionFactor;
    fractionalAmt ← IntMod amt ConversionFactor;
    '(senderNewFracBal, senderNeedsBorrow) ←
      subFromFractionalBalance senderFracBal fractionalAmt;
    '(recipientNewFracBal, recipientNeedsCarry) ←
      addToFractionalBalance recipientFracBal fractionalAmt;
    integerAmt ← (if senderNeedsBorrow && recipientNeedsCarry
                  then integerAmt0 +! 1 else mret integerAmt0);
    (if 0 <? integerAmt then
       transferCoin ← NewCoin IntegerCoinDenom integerAmt;
       with_bank (bk_SendCoins from to (NewCoins [transferCoin]))
         or_return updateInsufficientFundsError from amt
     else mret tt) ;;
    (if senderNeedsBorrow && negb recipientNeedsCarry then
       borrowCoin ← NewCoin IntegerCoinDenom 1;
       with_bank (bk_SendCoinsFromAccountToModule from ModuleName (NewCoins [borrowCoin]))
         or_return updateInsufficientFundsError from amt
     else mret tt) ;;
    (if negb senderNeedsBorrow && recipientNeedsCarry then
       carryCoin ← NewCoin IntegerCoinDenom 1;
       with_bank (bk_SendCoins reserveAddr to (NewCoins [carryCoin]))
         or_die "failed to carry fractional coins"
     else mret tt) ;;
    SetFractionalBalance from senderNewFracBal ;;
    SetFractionalBalance to recipientNewFracBal ;;
    EmitEventFractionalBalanceChange from senderFracBal senderNewFracBal ;;
    EmitEventFractionalBalanceChange to recipientFracBal recipientNewFracBal.

(** The coins that x/bank handles, without the extended denomination. *)
Definition passthrough (amt : Coins) (extendedAmount : Z) : PM Coins :=
  if 0 <? extendedAmount then
    c ← NewCoin ExtendedCoinDenom extendedAmount;
    Sub amt c
  else mret amt.

Definition SendCoins (from to : AccAddress) (amt : Coins) : PM unit :=
  if negb (IsValid amt) then throw ErrInvalidCoins
  else
    let extendedCoinAmount := AmountOf amt ExtendedCoinDenom in
    passthroughCoins ← passthrough amt extendedCoinAmount;
    (if IsAllPositive passthroughCoins
     then with_bank (bk_SendCoins from to passthroughCoins)
     else mret tt) ;;
    (if 0 <? extendedCoinAmount
     then sendExtendedCoins from to extendedCoinAmount
     else mret tt).

Definition SendCoinsFromAccountToModule (senderAddr : AccAddress)
    (recipientModule : string) (amt : Coins) : PM unit :=
  match GetModuleAccount recipientModule with
  | None => panic "module account does not exist"
  | Some recipientAcc =>
      if String.eqb recipientModule ModuleName then throw ErrUnauthorized
      else SendCoins senderAddr (ma_addr recipientAcc) amt
  end.

Definition SendCoinsFromModuleToAccount (senderModule : string)
    (recipientAddr : AccAddress) (amt : Coins) : PM unit :=
  match GetModuleAddress senderModule with
  | None => panic "module account does not exist"
  | Some senderAddr =>
      if String.eqb senderModule ModuleName then throw ErrUnauthorized
      else if bk_BlockedAddr recipientAddr then throw ErrUnauthorized
      else SendCoins senderAddr recipientAddr amt
  end.

Definition SendCoinsFromModuleToModule (senderModule recipientModule : string)
    (amt : Coins) : PM unit :=
  match GetModuleAddress senderModule with
  | None => panic "module account does not exist"
  | Some senderAddr =>
      match GetModuleAccount recipientModule with
      | None => panic "module account does not exist"
      | Some recipientAcc =>
          if String.eqb recipientModule ModuleName then throw ErrUnauthorized
          else SendCoins senderAddr (ma_addr recipientAcc) amt
      end
  end.

(** [Send], the forked message handler; [StringToBytes] is the account
    keeper's address codec.  The telemetry of its deferred call is left out. *)
Definition Send (StringToBytes : string → option AccAddress)
    (fromAddress toAddress : string) (amount : Coins) : PM unit :=
  match StringToBytes fromAddress with
  | None => throw ErrInvalidAddress
  | Some from =>
      match StringToBytes toAddress with
      | None => throw ErrInvalidAddress
      | Some to =>
          if negb (IsValid amount) then throw ErrInvalidCoins
          else if negb (IsAllPositive amount) then throw ErrInvalidCoins
          else
            IsSendEnabledCoins amount ;;
            if bk_BlockedAddr to then throw ErrUnauthorized
            else SendCoins from to amount
      end
  end.

(** ** [keeper/mint.go] *)

Definition mintExtendedCoin (recipientModuleName : string) (amt : Z) : PM unit :=
  let moduleAddr := default "" (GetModuleAddress recipientModuleName) in
  if String.eqb recipientModuleName ModuleName then
    integerMintAmount ← IntQuo amt ConversionFactor;
    if 0 <? integerMintAmount then
      integerMintCoin ← NewCoin IntegerCoinDenom integerMintAmount;
      with_bank (bk_MintCoins recipientModuleName (NewCoins [integerMintCoin]))
    else mret tt
  else
    fractionalAmount ← GetFractionalBalance moduleAddr;
    integerMintAmount0 ← IntQuo amt ConversionFactor;
    fractionalMintAmount ← IntMod amt ConversionFactor;
    prevRemainder ← GetRemainderAmount;
    newRemainder0 ← prevRemainder -! fractionalMintAmount;
    newFractionalBalance0 ← fractionalAmount +! fractionalMintAmount;
    let carry := newFractionalBalance0 >=? ConversionFactor in
    (if carry && (newRemainder0 >=? 0) then
       carryCoin ← NewCoin IntegerCoinDenom 1;
       with_bank (bk_SendCoinsFromModuleToModule ModuleName recipientModuleName
                    (NewCoins [carryCoin]))
     else mret tt) ;;
    integerMintAmount ← (if carry && (newRemainder0 <? 0)
                         then integerMintAmount0 +! 1 else mret integerMintAmount0);
    newFractionalBalance ← (if carry
                            then newFractionalBalance0 -! ConversionFactor
                            else mret newFractionalBalance0);
    (if 0 <? integerMintAmount then
       integerMintCoin ← NewCoin IntegerCoinDenom integerMintAmount;
       with_bank (bk_MintCoins recipientModuleName (NewCoins [integerMintCoin]))
     else mret tt) ;;
    SetFractionalBalance moduleAddr newFractionalBalance ;;
    wasCarriedSum ← fractionalAmount +! fractionalMintAmount;
    let wasCarried := wasCarriedSum >=? ConversionFactor in
    (if (prevRemainder <? fractionalMintAmount) && negb wasCarried then
       reserveMintCoin ← NewCoin IntegerCoinDenom 1;
       with_bank (bk_MintCoins ModuleName (NewCoins [reserveMintCoin]))
     else mret tt) ;;
    newRemainder ← (if newRemainder0 <? 0
                    then newRemainder0 +! ConversionFactor else mret newRemainder0);
    SetRemainderAmount newRemainder ;;
    EmitEventFractionalBalanceChange moduleAddr fractionalAmount newFractionalBalance.

Definition MintCoins (moduleName : string) (amt : Coins) : PM unit :=
  if String.eqb moduleName ModuleName then panic "module account cannot be minted to"
  else match GetModuleAccount moduleName with
  | None => panic "module account does not exist"
  | Some acc =>
      if negb (HasPermission acc Minter)
      then panic "module account does not have permissions to mint tokens"
      else if negb (IsValid amt) then throw ErrInvalidCoins
      else
        let extendedAmount := AmountOf amt ExtendedCoinDenom in
        passthroughCoins ← passthrough amt extendedAmount;
        (if negb (Empty passthroughCoins)
         then with_bank (bk_MintCoins moduleName passthroughCoins) else mret tt) ;;
        (if 0 <? extendedAmount then mintExtendedCoin moduleName extendedAmount
         else mret tt)
  end.

(** ** [keeper/burn.go] *)

Definition burnExtendedCoin (moduleName : string) (amt : Z) : PM unit :=
  let moduleAddr := default "" (GetModuleAddress moduleName) in
  if String.eqb moduleName ModuleName then
    integerBurnAmount ← IntQuo amt ConversionFactor;
    if 0 <? integerBurnAmount then
      integerBurnCoin ← NewCoin IntegerCoinDenom integerBurnAmount;
      with_bank (bk_BurnCoins moduleName (NewCoins [integerBurnCoin]))
    else mret tt
  else
    prevFractionalBalance ← GetFractionalBalance moduleAddr;
    prevRemainder ← GetRemainderAmount;
    integerBurnAmount0 ← IntQuo amt ConversionFactor;
    fractionalBurnAmount ← IntMod amt ConversionFactor;
    newFractionalBalance0 ← prevFractionalBalance -! fractionalBurnAmount;
    let requiresBorrow := newFractionalBalance0 <? 0 in
    newRemainder0 ← prevRemainder +! fractionalBurnAmount;
    let overflowingRemainder := newRemainder0 >=? ConversionFactor in
    (* Case #1: direct burn instead of borrow and reserve burn. *)
    '(newFractionalBalance1, newRemainder1, integerBurnAmount) ←
      (if requiresBorrow && overflowingRemainder then
         f ← newFractionalBalance0 +! ConversionFactor;
         r ← newRemainder0 -! ConversionFactor;
         i ← integerBurnAmount0 +! 1;
         mret (f, r, i)
       else mret (newFractionalBalance0, newRemainder0, integerBurnAmount0));
    (* Case #2: transfer 1 integer coin to the reserve. *)
    newFractionalBalance ←
      (if requiresBorrow && negb overflowingRemainder then
         f ← newFractionalBalance1 +! ConversionFactor;
         borrowCoin ← NewCoin IntegerCoinDenom 1;
         (with_bank (bk_SendCoinsFromModuleToModule moduleName ModuleName
                       (NewCoins [borrowCoin]))
            or_return updateInsufficientFundsError moduleAddr amt) ;;
         mret f
       else mret newFractionalBalance1);
    (* Case #3: burn 1 integer coin of the reserve. *)
    newRemainder ←
      (if negb requiresBorrow && overflowingRemainder then
         reserveBurnCoin ← NewCoin IntegerCoinDenom 1;
         with_bank (bk_BurnCoins ModuleName (NewCoins [reserveBurnCoin])) ;;
         newRemainder1 -! ConversionFactor
       else mret newRemainder1);
    (if negb (integerBurnAmount =? 0) then
       coin ← NewCoin IntegerCoinDenom integerBurnAmount;
       with_bank (bk_BurnCoins moduleName (NewCoins [coin]))
         or_return updateInsufficientFundsError moduleAddr amt
     else mret tt) ;;
    SetFractionalBalance moduleAddr newFractionalBalance ;;
    SetRemainderAmount newRemainder ;;
    EmitEventFractionalBalanceChange moduleAddr prevFractionalBalance newFractionalBalance.

Definition BurnCoins (moduleName : string) (amt : Coins) : PM unit :=
  if String.eqb moduleName ModuleName then panic "module account cannot be burned from"
  else match GetModuleAccount moduleName with
  | None => panic "module account does not exist"
  | Some acc =>
      if negb (HasPermission acc Burner)
      then panic "module account does not have permissions to burn tokens"
      else if negb (IsValid amt) then throw ErrInvalidCoins
      else
        let extendedAmount := AmountOf amt ExtendedCoinDenom in
        passthroughCoins ← passthrough amt extendedAmount;
        (if negb (Empty passthroughCoins)
         then with_bank (bk_BurnCoins moduleName passthroughCoins) else mret tt) ;;
        (if 0 <? extendedAmount then burnExtendedCoin moduleName extendedAmount
         else mret tt)
  end.

(** [types/extended_balance.go]. *)
Definition SumExtendedCoin (amt : Coins) : PM Coin :=
  integerAmount ← AmountOf amt IntegerCoinDenom *! ConversionFactor;
  fullEmissionAmount ← integerAmount +! AmountOf amt ExtendedCoinDenom;
  NewCoin ExtendedCoinDenom fullEmissionAmount.
End Keeper.

#[global] Arguments PBState : clear implicits.
