(* ===== verification/PreciseBankInv.v ===== *)
(** The reserve invariant of the precise bank.

    [wf]: stored fractional balances and the remainder are proper fractions and
    the reserve has no fractional balance of its own.  [slack]: the reserve's
    integer coins, in extended units, minus everything they back.  The
    operations of the keeper preserve [wf] and keep [slack] where it was, which
    is shown operation by operation in the files that follow, through the
    [wp] rules of this file. *)
From S2P Require Import Prelude Sdk EvmCoin PreciseBank.

(** The application's configuration: a validated coin and a registered
    reserve account that may mint and burn. *)
Class PBConfig `{CoinsLib, AccountKeeper} (info : EvmCoinInfo) (racc : ModuleAccount) : Prop := {
  cfg_decimals : Decimals_Validate (eci_Decimals info) = true;
  cfg_denom : ValidateDenom (eci_Denom info) = true;
  cfg_extended : ValidateDenom (eci_ExtendedDenom info) = true;
  cfg_reserve : GetModuleAccount ModuleName = Some racc;
  cfg_reserve_addr : ma_addr racc ≠ "";
  cfg_minter : HasPermission racc Minter = true;
  cfg_burner : HasPermission racc Burner = true;
}.

(** What storing a fraction does to the two stores. *)
Definition upd_frac (a : AccAddress) (v : Z) (m : gmap AccAddress Z) : gmap AccAddress Z :=
  if v =? 0 then delete a m else <[a:=v]> m.
Definition upd_rem (v : Z) : option Z := if v =? 0 then None else Some v.

Lemma upd_frac_lookup a v m x :
  default 0 (upd_frac a v m !! x) = if decide (a = x) then v else default 0 (m !! x).
Proof.
  unfold upd_frac. destruct (v =? 0) eqn:Hv; zbool.
  - rewrite lookup_delete. by case_decide; subst.
  - rewrite lookup_insert. by case_decide; subst.
Qed.

Lemma upd_frac_sum a v m :
  map_sum (upd_frac a v m) = map_sum m - default 0 (m !! a) + v.
Proof.
  unfold upd_frac. destruct (v =? 0) eqn:Hv; zbool.
  - rewrite map_sum_delete. lia.
  - apply map_sum_insert.
Qed.

Lemma upd_rem_default v : default 0 (upd_rem v) = v.
Proof. unfold upd_rem. by destruct (v =? 0) eqn:Hv; zbool. Qed.

Section Inv.
Context {B : Type} `{HC : CoinsLib, HA : AccountKeeper, HB : !BankKeeper B}.
Context `{HCL : !CoinsLaws, HBL : !BankLaws B}.
Context (info : EvmCoinInfo) (racc : ModuleAccount) `{HCfg : !PBConfig info racc}.

Abbreviation CF := (ConversionFactor info).
Abbreviation intDenom := (IntegerCoinDenom info).
Abbreviation extDenom := (ExtendedCoinDenom info).
Implicit Types s : PBState B.

Lemma reserveAddr_eq : reserveAddr = ma_addr racc.
Proof. unfold reserveAddr, GetModuleAddress. by rewrite cfg_reserve. Qed.

Lemma CF_eq : CF = 10 ^ (18 - eci_Decimals info).
Proof.
  unfold ConversionFactor.
  by rewrite Decimals_ConversionFactor_supported by apply cfg_decimals.
Qed.

Lemma CF_range : 1 ≤ CF ≤ 10 ^ 17.
Proof.
  rewrite CF_eq. apply factor_range. pose proof cfg_decimals as Hd.
  unfold Decimals_Validate, EighteenDecimals in Hd. zbool. lia.
Qed.

Definition frac_of s (a : AccAddress) : Z := default 0 (pb_frac s !! a).
Definition rem_of s : Z := default 0 (pb_rem s).

(** The extended balance and the part of it that can be spent. *)
Definition ext_bal s (a : AccAddress) : Z := CF * bal (pb_bank s) a intDenom + frac_of s a.
Definition ext_spendable s (a : AccAddress) : Z :=
  CF * spendable (pb_bank s) a intDenom + frac_of s a.

Record wf s : Prop := {
  wf_frac a v : pb_frac s !! a = Some v → 0 < v < CF;
  wf_rem v : pb_rem s = Some v → 0 < v < CF;
  wf_reserve : pb_frac s !! reserveAddr = None;
}.

(** How much more the reserve holds than it has to back. *)
Definition slack s : Z :=
  CF * bal (pb_bank s) reserveAddr intDenom - (map_sum (pb_frac s) + rem_of s).

Lemma frac_of_range s a : wf s → 0 ≤ frac_of s a < CF.
Proof.
  intros Hwf. unfold frac_of. pose proof CF_range.
  destruct (pb_frac s !! a) as [v|] eqn:Ha; simpl; [|lia].
  apply (wf_frac s Hwf) in Ha. lia.
Qed.

Lemma rem_of_range s : wf s → 0 ≤ rem_of s < CF.
Proof.
  intros Hwf. unfold rem_of. pose proof CF_range.
  destruct (pb_rem s) as [v|] eqn:Ha; simpl; [|lia].
  apply (wf_rem s Hwf) in Ha. lia.
Qed.

Lemma frac_sum_two s a1 a2 :
  wf s → a1 ≠ a2 → frac_of s a1 + frac_of s a2 ≤ map_sum (pb_frac s).
Proof.
  intros Hwf Hne. apply map_sum_two; [done|].
  intros k v Hk. apply (wf_frac s Hwf) in Hk. lia.
Qed.

Lemma frac_sum_one s a : wf s → frac_of s a ≤ map_sum (pb_frac s).
Proof.
  intros Hwf. apply map_sum_one.
  intros k v Hk. apply (wf_frac s Hwf) in Hk. lia.
Qed.

(** Storing fractions keeps a state well formed. *)
Lemma wf_upd_frac s b a v r ev :
  wf s → a ≠ reserveAddr → 0 ≤ v < CF → (∀ x, r = Some x → 0 < x < CF) →
  wf (mkPB b (upd_frac a v (pb_frac s)) r ev).
Proof.
  intros [Hf Hr Hres] Ha Hv Hrem. split; simpl; [|done|].
  - intros x w. unfold upd_frac. destruct (v =? 0) eqn:E; zbool.
    + rewrite lookup_delete_Some. intros [? ?]. eauto.
    + rewrite lookup_insert_Some. intros [[<- <-]|[? ?]]; [lia|eauto].
  - unfold upd_frac. destruct (v =? 0).
    + by rewrite lookup_delete_ne.
    + by rewrite lookup_insert_ne.
Qed.

Lemma upd_rem_range v : 0 ≤ v < CF → ∀ x, upd_rem v = Some x → 0 < x < CF.
Proof. unfold upd_rem. destruct (v =? 0) eqn:E; zbool; intros; simplify_eq. lia. Qed.

(** ** [wp] rules of the store operations *)

Lemma ValidateFractionalAmount_ok v :
  0 < v < CF → ValidateFractionalAmount info (Some v) = Ok tt.
Proof.
  intros Hv. unfold ValidateFractionalAmount.
  rewrite (proj2 (Z.ltb_lt 0 v)) by lia. simpl.
  rewrite Z.geb_leb, (proj2 (Z.leb_gt CF v)) by lia. done.
Qed.

Lemma wp_SetFractionalBalance s a v (Q : PBState B → res SdkError unit → Prop) :
  a ≠ "" → 0 ≤ v < CF →
  Q (mkPB (pb_bank s) (upd_frac a v (pb_frac s)) (pb_rem s) (pb_events s)) (Ok tt) →
  wp (SetFractionalBalance info a v) Q s.
Proof.
  intros Ha Hv HQ. unfold SetFractionalBalance, upd_frac in *.
  destruct (String.eqb_spec a ""); [done|].
  destruct (v =? 0) eqn:E; zbool; [by apply wp_modify|].
  rewrite ValidateFractionalAmount_ok by lia. by apply wp_modify.
Qed.

Lemma wp_SetRemainderAmount s v (Q : PBState B → res SdkError unit → Prop) :
  0 ≤ v < CF →
  Q (mkPB (pb_bank s) (pb_frac s) (upd_rem v) (pb_events s)) (Ok tt) →
  wp (SetRemainderAmount info v) Q s.
Proof.
  intros Hv HQ. unfold SetRemainderAmount, upd_rem in *.
  destruct (v =? 0) eqn:E; zbool; [by apply wp_modify|].
  rewrite ValidateFractionalAmount_ok by lia. by apply wp_modify.
Qed.

Lemma wp_Emit s a x y (Q : PBState B → res SdkError unit → Prop) :
  0 ≤ x < CF → 0 ≤ y < CF →
  Q (mkPB (pb_bank s) (pb_frac s) (pb_rem s) (pb_events s ++ [mkFBC a (y - x)])) (Ok tt) →
  wp (EmitEventFractionalBalanceChange a x y) Q s.
Proof.
  intros Hx Hy HQ. pose proof CF_range. unfold EmitEventFractionalBalanceChange.
  do 2 wp_step. by wp_step.
Qed.

Lemma wp_NewCoin {S E} d a (Q : S → res E Coin → Prop) (s : S) :
  ValidateDenom d = true → 0 ≤ a → Q s (Ok (mkCoin d a)) → wp (NewCoin d a) Q s.
Proof.
  intros Hd Ha HQ. unfold NewCoin. rewrite Hd, (proj2 (Z.leb_le 0 a)) by lia.
  by apply wp_ret.
Qed.

Lemma wp_subFromFractionalBalance s x y (Q : PBState B → res SdkError (Z * bool) → Prop) :
  0 ≤ x < CF → 0 ≤ y < CF →
  Q s (Ok (if x <? y then x - y + CF else x - y, x <? y)) →
  wp (subFromFractionalBalance info x y) Q s.
Proof.
  intros Hx Hy HQ. pose proof CF_range. unfold subFromFractionalBalance.
  rewrite !Z.geb_leb, (proj2 (Z.leb_gt CF x)), (proj2 (Z.leb_gt CF y)) by lia.
  do 2 wp_step. replace (x - y <? 0) with (x <? y) by lia.
  destruct (x <? y) eqn:E; zbool; [do 3 wp_step|wp_step]; done.
Qed.

Lemma wp_addToFractionalBalance s x y (Q : PBState B → res SdkError (Z * bool) → Prop) :
  0 ≤ x < CF → 0 ≤ y < CF →
  Q s (Ok (if CF <=? x + y then x + y - CF else x + y, CF <=? x + y)) →
  wp (addToFractionalBalance info x y) Q s.
Proof.
  intros Hx Hy HQ. pose proof CF_range. unfold addToFractionalBalance.
  rewrite !Z.geb_leb, (proj2 (Z.leb_gt CF x)), (proj2 (Z.leb_gt CF y)) by lia.
  do 2 wp_step. rewrite Z.geb_leb.
  destruct (CF <=? x + y) eqn:E; zbool; [do 3 wp_step|wp_step]; done.
Qed.

(** The error path of a failed x/bank call: it reports insufficient funds,
    unless the account's extended balance needs more than 256 bits. *)
Lemma wp_updateInsufficientFundsError s a amt (Q : PBState B → res SdkError SdkError → Prop) :
  wf s → 0 ≤ amt →
  Q s (Ok ErrInsufficientFunds) →
  (2 ^ MaxBitLen ≤ ext_bal s a → Q s (Panic "math.Int overflow")) →
  wp (updateInsufficientFundsError info a amt ErrInsufficientFunds) Q s.
Proof.
  intros Hwf Hamt HQ Hovf. pose proof CF_range as HCF.
  pose proof (frac_of_range s a Hwf) as Hfa.
  pose proof (spendable_range (pb_bank s) a intDenom) as Hsp.
  assert (Hm : spendable (pb_bank s) a intDenom * CF ≤ CF * bal (pb_bank s) a intDenom) by nia.
  assert (Hn : 0 ≤ spendable (pb_bank s) a intDenom * CF) by nia.
  unfold updateInsufficientFundsError. rewrite bool_decide_true by done. simpl.
  unfold ext_bal, frac_of, spendable, bal in *. wp_step.
  unfold SpendableCoin, GetFractionalBalance. rewrite String.eqb_refl. simpl.
  destruct (String.eqb_spec a reserveAddr) as [->|Hne]; simpl.
  - apply wp_NewCoin; [apply cfg_extended|done|simpl].
    wp_step. apply wp_NewCoin; [apply cfg_extended|done|by apply wp_ret].
  - do 5 (wp_step; simpl). apply wp_int_checked_or; [simpl|intros; apply Hovf; lia].
    wp_step. apply wp_int_checked_or; [simpl|intros; apply Hovf; lia].
    apply wp_NewCoin; [apply cfg_extended|lia|simpl].
    wp_step. apply wp_NewCoin; [apply cfg_extended|done|by apply wp_ret].
Qed.
End Inv.
