(* ===== verification/PreciseBankSend.v ===== *)
(** Transfers of the precise bank: [sendExtendedCoins] and [SendCoins] move
    exactly the requested amount, fail exactly when the sender cannot cover it,
    never reach the carry panic and leave the reserve's backing as it was. *)
From S2P Require Import Prelude Sdk EvmCoin PreciseBank PreciseBankInv.

(** The integer balance change that a movement of [n] coins makes at [a]. *)
Definition shift (src dst : option AccAddress) (n : Z) (a : AccAddress) : Z :=
  (if decide (dst = Some a) then n else 0) - (if decide (src = Some a) then n else 0).

(** Evaluate [shift] at accounts known to be equal or different. *)
Ltac shifts := unfold shift; simpl; repeat (case_decide; try congruence).

Section Send.
Context {B : Type} `{HC : CoinsLib, HA : AccountKeeper, HB : !BankKeeper B}.
Context `{HCL : !CoinsLaws, HBL : !BankLaws B}.
Context (info : EvmCoinInfo) (racc : ModuleAccount) `{HCfg : !PBConfig info racc}.

Abbreviation CF := (ConversionFactor info).
Abbreviation intDenom := (IntegerCoinDenom info).
Abbreviation extDenom := (ExtendedCoinDenom info).
Abbreviation wf := (wf info).
Abbreviation slack := (slack info).
Abbreviation ext_bal := (ext_bal info).
Abbreviation ext_spendable := (ext_spendable info).
Implicit Types s : PBState B.

Definition set_bank (b : B) s : PBState B := mkPB b (pb_frac s) (pb_rem s) (pb_events s).

Lemma wf_set_bank b s : wf s → wf (set_bank b s).
Proof. intros [? ? ?]. by split. Qed.

Lemma moved_int (b b' : B) src dst n :
  moved b b' src dst (one_coin intDenom n) →
  ∀ a, bal b' a intDenom = bal b a intDenom + shift src dst n a.
Proof.
  intros Hm a. rewrite (Hm a intDenom). unfold one_coin, shift.
  repeat case_decide; try done; lia.
Qed.

Lemma moved_other (b b' : B) src dst n :
  moved b b' src dst (one_coin intDenom n) →
  ∀ a d, d ≠ intDenom → bal b' a d = bal b a d.
Proof.
  intros Hm a d Hd. rewrite (Hm a d). unfold one_coin.
  repeat case_decide; try congruence; lia.
Qed.

(** The integer balances changed by [δ], all others not at all. *)
Definition after (b b' : B) (δ : AccAddress → Z) : Prop :=
  (∀ a, bal b' a intDenom = bal b a intDenom + δ a) ∧
  (∀ a d, d ≠ intDenom → bal b' a d = bal b a d).

Lemma after_refl b : after b b (λ _, 0).
Proof. split; [intros a; lia|done]. Qed.

Lemma after_move b b1 b2 δ src dst n :
  after b b1 δ → moved b1 b2 src dst (one_coin intDenom n) →
  after b b2 (λ a, δ a + shift src dst n a).
Proof.
  intros [Hi Ho] Hm. split.
  - intros a. rewrite (moved_int _ _ _ _ _ Hm), Hi. lia.
  - intros a d Hd. by rewrite (moved_other _ _ _ _ _ Hm), Ho.
Qed.

(** An integer transfer on behalf of [addr], with the keeper's error path. *)
Lemma wp_pay s f t a addr amt (Q : PBState B → res SdkError unit → Prop) :
  wf s → 0 < a < 2 ^ MaxBitLen → 0 ≤ amt →
  (a ≤ spendable (pb_bank s) f intDenom → ∀ b',
     moved (pb_bank s) b' (Some f) (Some t) (one_coin intDenom a) →
     (f ≠ t → spendable b' f intDenom = spendable (pb_bank s) f intDenom - a) →
     Q (set_bank b' s) (Ok tt)) →
  (spendable (pb_bank s) f intDenom < a → ∀ s', Q s' (Err ErrInsufficientFunds)) →
  (2 ^ MaxBitLen ≤ ext_bal s addr → ∀ s', Q s' (Panic "math.Int overflow")) →
  wp (with_bank (bk_SendCoins f t (NewCoins [mkCoin intDenom a]))
        or_return updateInsufficientFundsError info addr amt) Q s.
Proof.
  intros Hwf Ha Hamt Hok Herr Hovf. apply wp_on_err, wp_zoom.
  apply wp_send_one; [apply cfg_denom|done|done|].
  intros Hlt b' Hle. pose proof (CF_range info racc).
  eapply wp_updateInsufficientFundsError; [done|by apply wf_set_bank|done|by apply Herr|].
  intros Hbig. apply Hovf. specialize (Hle addr intDenom).
  unfold ext_bal, frac_of in *. simpl in *. nia.
Qed.

(** Two fractional balances written, one after the other. *)
Lemma two_frac_update s (b : B) (from to : AccAddress) (F R : Z) ev :
  let s' := mkPB b (upd_frac to R (upd_frac from F (pb_frac s))) (pb_rem s) ev in
  wf s → from ≠ to → from ≠ reserveAddr → to ≠ reserveAddr →
  0 ≤ F < CF → 0 ≤ R < CF →
  wf s' ∧
  map_sum (pb_frac s') =
    map_sum (pb_frac s) - frac_of s from - frac_of s to + F + R ∧
  (∀ a, frac_of s' a = if decide (to = a) then R
                       else if decide (from = a) then F else frac_of s a).
Proof.
  intros s' Hwf Hne Hf Ht HF HR. split_and!.
  - assert (wf (mkPB b (upd_frac from F (pb_frac s)) (pb_rem s) ev)) as Hwf1.
    { apply wf_upd_frac; try done. apply Hwf. }
    apply (wf_upd_frac _ _ _ _ _ _ _ Hwf1); try done. apply Hwf.
  - unfold s'. simpl. rewrite !upd_frac_sum, upd_frac_lookup.
    rewrite decide_False by done. unfold frac_of. lia.
  - intros a. unfold s', frac_of. simpl. by rewrite !upd_frac_lookup.
Qed.

(** What a successful transfer leaves behind. *)
Definition sent s s' (from to : AccAddress) (amt : Z) : Prop :=
  wf s' ∧ slack s' = slack s ∧ rem_of s' = rem_of s ∧
  (∀ a, a ≠ reserveAddr →
     ext_bal s' a = ext_bal s a - (if decide (from = a) then amt else 0)
                                + (if decide (to = a) then amt else 0)) ∧
  (∀ a d, d ≠ intDenom → bal (pb_bank s') a d = bal (pb_bank s) a d).

(** The integer movements of a transfer, and what they add up to. *)
Lemma sent_intro s (b' : B) (from to : AccAddress) (F R : Z) ev (amt : Z) δ :
  let s' := mkPB b' (upd_frac to R (upd_frac from F (pb_frac s))) (pb_rem s) ev in
  wf s → from ≠ to → from ≠ reserveAddr → to ≠ reserveAddr →
  0 ≤ F < CF → 0 ≤ R < CF →
  after (pb_bank s) b' δ →
  CF * δ from + F - frac_of s from = - amt →
  CF * δ to + R - frac_of s to = amt →
  CF * δ reserveAddr = F + R - frac_of s from - frac_of s to →
  (∀ a, a ≠ from → a ≠ to → a ≠ reserveAddr → δ a = 0) →
  sent s s' from to amt.
Proof.
  intros s' Hwf Hne Hf Ht HF HR [Hδ Ho] Hfrom Hto Hres Hrest.
  destruct (two_frac_update s b' from to F R ev Hwf Hne Hf Ht HF HR) as (Hwf' & Hsum & Hfrac).
  fold s' in Hwf', Hsum, Hfrac. split_and!; [done|..|done].
  - unfold slack, rem_of. rewrite Hsum. simpl. rewrite Hδ. lia.
  - done.
  - intros a Ha. unfold ext_bal. rewrite Hfrac. simpl. rewrite Hδ.
    destruct (decide (to = a)) as [<-|Hta].
    + rewrite decide_False by done. lia.
    + destruct (decide (from = a)) as [<-|Hfa]; [lia|]. rewrite (Hrest a) by done. lia.
Qed.

(** The block [if integerAmt.IsPositive() { SendCoins }]. *)
Lemma wp_transfer s from to n amt (Q : PBState B → res SdkError unit → Prop) :
  wf s → from ≠ to → 0 ≤ n < 2 ^ MaxBitLen → 0 ≤ amt →
  (n ≤ spendable (pb_bank s) from intDenom → ∀ b',
     moved (pb_bank s) b' (Some from) (Some to) (one_coin intDenom n) →
     spendable b' from intDenom = spendable (pb_bank s) from intDenom - n →
     Q (set_bank b' s) (Ok tt)) →
  (spendable (pb_bank s) from intDenom < n → ∀ s', Q s' (Err ErrInsufficientFunds)) →
  (2 ^ MaxBitLen ≤ ext_bal s from → ∀ s', Q s' (Panic "math.Int overflow")) →
  wp (if 0 <? n then
        transferCoin ← NewCoin intDenom n;
        with_bank (bk_SendCoins from to (NewCoins [transferCoin]))
          or_return updateInsufficientFundsError info from amt
      else mret tt) Q s.
Proof.
  intros Hwf Hne Hn Hamt Hok Herr Hovf. apply wp_if; intros Hb; zbool.
  - apply wp_bind, wp_NewCoin; [apply cfg_denom|lia|simpl].
    apply wp_pay; try done; [lia|]. intros Hle b' Hm Hs. apply Hok; [done|done|auto].
  - assert (n = 0) as -> by lia. apply wp_ret.
    destruct s as [b fr re ev]. apply (Hok (proj1 (spendable_range _ _ _)) b); [|simpl; lia].
    intros a d. unfold one_coin. repeat case_decide; simpl; lia.
Qed.

(** The end of a transfer: both fractional balances and both events. *)
Lemma wp_send_tail s from to F F' R R' (Q : PBState B → res SdkError unit → Prop) :
  from ≠ "" → to ≠ "" → 0 ≤ F < CF → 0 ≤ F' < CF → 0 ≤ R < CF → 0 ≤ R' < CF →
  (∀ ev, Q (mkPB (pb_bank s) (upd_frac to R' (upd_frac from F' (pb_frac s))) (pb_rem s) ev)
           (Ok tt)) →
  wp (SetFractionalBalance info from F' ;;
      SetFractionalBalance info to R' ;;
      EmitEventFractionalBalanceChange from F F' ;;
      EmitEventFractionalBalanceChange to R R') Q s.
Proof.
  intros Hf Ht HF HF' HR HR' HQ.
  apply wp_bind, wp_SetFractionalBalance; [done|done|simpl].
  apply wp_bind, wp_SetFractionalBalance; [done|done|simpl].
  apply wp_bind. eapply wp_Emit; [done..|simpl].
  by eapply wp_Emit.
Qed.

(** Sufficient funds, in integer coins and in extended coins. *)
Lemma covered_iff s from amt :
  wf s → 0 < amt →
  let borrow := if frac_of s from <? amt mod CF then 1 else 0 in
  amt / CF + borrow ≤ spendable (pb_bank s) from intDenom ↔ amt ≤ ext_spendable s from.
Proof.
  intros Hwf Hamt. pose proof (CF_range info racc) as HCF.
  pose proof (frac_of_range info racc s from Hwf) as HF. unfold ext_spendable.
  pose proof (Z.div_mod amt CF ltac:(lia)) as Hdm.
  pose proof (Z.mod_pos_bound amt CF ltac:(lia)) as Hm.
  generalize dependent (spendable (pb_bank s) from intDenom). intros I.
  generalize dependent (amt mod CF). intros f Hdm Hm.
  generalize dependent (amt / CF). intros q Hdm.
  destruct (frac_of s from <? f) eqn:E; zbool; simpl; split; nia.
Qed.

(** When the recipient carries and the sender does not borrow, the reserve
    holds at least one integer coin. *)
Lemma reserve_covers_carry s from to f :
  wf s → 0 ≤ slack s → from ≠ to → f ≤ frac_of s from → CF ≤ frac_of s to + f →
  1 ≤ bal (pb_bank s) reserveAddr intDenom.
Proof.
  intros Hwf Hsl Hne Hf Hc. pose proof (CF_range info racc).
  pose proof (frac_sum_two info s from to Hwf Hne).
  pose proof (rem_of_range info racc s Hwf). unfold slack in Hsl. nia.
Qed.

(** The postcondition of [sendExtendedCoins], on every outcome. *)
Definition send_post s (from to : AccAddress) (amt : Z)
    (s' : PBState B) (r : res SdkError unit) : Prop :=
  match r with
  | Ok _ => amt ≤ ext_spendable s from ∧ sent s s' from to amt
  | Err e => e = ErrInsufficientFunds ∧ ext_spendable s from < amt
  | Panic site => site = "math.Int overflow" ∧ 2 ^ MaxBitLen ≤ ext_bal s from
  end.

Ltac finish_send s :=
  apply wp_send_tail; [done|done|lia..|]; intros ev; split;
  [ assumption
  | simpl; eapply (sent_intro s);
    [assumption|assumption|assumption|assumption|lia|lia
    |eauto using after_refl, after_move
    |shifts; clear_irrelevant; lia|shifts; clear_irrelevant; lia
    |shifts; clear_irrelevant; lia|intros; shifts; clear_irrelevant; lia] ].

Lemma wp_sendExtendedCoins s from to amt :
  wf s → 0 ≤ slack s → from ≠ "" → to ≠ "" → from ≠ to →
  from ≠ reserveAddr → to ≠ reserveAddr → 0 < amt < 2 ^ MaxBitLen →
  wp (sendExtendedCoins info from to amt) (send_post s from to amt) s.
Proof.
  intros Hwf Hsl Hf0 Ht0 Hne Hfr Htr Hamt.
  pose proof (CF_range info racc) as HCF.
  pose proof (frac_of_range info racc s from Hwf) as HF.
  pose proof (frac_of_range info racc s to Hwf) as HR.
  pose proof (covered_iff s from amt Hwf ltac:(lia)) as Hcov. simpl in Hcov.
  pose proof (Z.div_mod amt CF ltac:(lia)) as Hdm.
  pose proof (Z.mod_pos_bound amt CF ltac:(lia)) as Hm.
  pose proof (Z.div_pos amt CF ltac:(lia) ltac:(lia)) as Hq.
  unfold sendExtendedCoins.
  destruct (String.eqb_spec from reserveAddr); [congruence|].
  destruct (String.eqb_spec to reserveAddr); [congruence|].
  destruct (String.eqb_spec from to); [congruence|]. simpl.
  unfold GetFractionalBalance. do 4 (wp_step; simpl).
  fold (frac_of s from) (frac_of s to).
  wp_step. apply wp_IntQuo; [lia|lia|]. wp_step. apply wp_IntMod; [lia|].
  apply wp_bind, (wp_subFromFractionalBalance info racc); [lia|lia|simpl].
  apply wp_bind, (wp_addToFractionalBalance info racc); [lia|lia|simpl].
  set (q := amt / CF) in *. set (f := amt mod CF) in *.
  assert (q ≤ CF * q) by nia.
  destruct (frac_of s from <? f) eqn:Eb; destruct (CF <=? frac_of s to + f) eqn:Ec;
    zbool; simpl.
  - (* borrow and carry: one more integer coin goes directly *)
    wp_step. apply wp_int_checked; [lia|simpl].
    apply wp_bind, wp_transfer; [done|done|lia|lia| | |by intros].
    2:{ intros Hlt s'. split; [done|]. apply Z.nle_gt. rewrite <- Hcov. lia. }
    intros Hle b1 Hmv _. apply Hcov in Hle. do 4 (wp_step; simpl).
    finish_send s.
  - (* borrow: one integer coin goes to the reserve *)
    wp_step. wp_step. simpl. apply wp_bind, wp_transfer; [done|done|lia|lia| | |by intros].
    2:{ intros Hlt s'. split; [done|]. apply Z.nle_gt. rewrite <- Hcov. lia. }
    intros Hle b1 Hmv Hsp. wp_step. apply wp_bind, wp_NewCoin; [apply cfg_denom|lia|simpl].
    rewrite (send_to_module _ _ racc) by apply cfg_reserve.
    apply wp_pay; [by apply wf_set_bank|done|lia| | |].
    2:{ simpl. intros Hlt s'. split; [done|]. apply Z.nle_gt. rewrite <- Hcov. lia. }
    2:{ intros Hbig s'. split; [done|]. revert Hbig. unfold ext_bal, frac_of. simpl.
        rewrite (moved_int _ _ _ _ _ Hmv). shifts. lia. }
    simpl. intros Hle2 b2 Hmv2 _. assert (Hok : amt ≤ ext_spendable s from) by (apply Hcov; lia).
    wp_step. wp_step. simpl. rewrite <- (reserveAddr_eq info racc) in Hmv2.
    finish_send s.
  - (* carry: one integer coin comes from the reserve *)
    wp_step. wp_step. simpl. apply wp_bind, wp_transfer; [done|done|lia|lia| | |by intros].
    2:{ intros Hlt s'. split; [done|]. apply Z.nle_gt. rewrite <- Hcov. lia. }
    intros Hle b1 Hmv _. assert (Hok : amt ≤ ext_spendable s from) by (apply Hcov; lia).
    wp_step. wp_step. simpl. apply wp_bind, wp_bind, wp_NewCoin; [apply cfg_denom|lia|simpl].
    apply wp_or_panic, wp_zoom, wp_send_one; [apply cfg_denom|done| |].
    { intros _ b2 Hmv2 _. simpl. finish_send s. }
    simpl. intros Hlt. exfalso. rewrite (reserveAddr_eq info racc) in Hlt.
    rewrite (module_spendable _ ModuleName) in Hlt by apply cfg_reserve.
    rewrite <- (reserveAddr_eq info racc), (moved_int _ _ _ _ _ Hmv) in Hlt.
    pose proof (reserve_covers_carry s from to f Hwf Hsl Hne ltac:(lia) ltac:(lia)).
    revert Hlt. shifts. lia.
  - (* neither *)
    wp_step. wp_step. simpl. apply wp_bind, wp_transfer; [done|done|lia|lia| | |by intros].
    2:{ intros Hlt s'. split; [done|]. apply Z.nle_gt. rewrite <- Hcov. lia. }
    intros Hle b1 Hmv _. assert (Hok : amt ≤ ext_spendable s from) by (apply Hcov; lia).
    do 4 (wp_step; simpl). finish_send s.
Qed.
End Send.
