(* ===== verification/PreciseBankMintBurn.v ===== *)
(** Minting and burning extended coins: [mintExtendedCoin] always succeeds for a
    module that may mint, [burnExtendedCoin] succeeds exactly when the module
    owns the amount; both change the module's extended balance by exactly the
    amount and keep the reserve's backing as it was. *)
From S2P Require Import Prelude Sdk EvmCoin PreciseBank PreciseBankInv PreciseBankSend.

Section MintBurn.
Context {B : Type} `{HC : CoinsLib, HA : AccountKeeper, HB : !BankKeeper B}.
Context `{HCL : !CoinsLaws, HBL : !BankLaws B}.
Context (info : EvmCoinInfo) (racc : ModuleAccount) `{HCfg : !PBConfig info racc}.

Abbreviation CF := (ConversionFactor info).
Abbreviation intDenom := (IntegerCoinDenom info).
Abbreviation wf := (wf info).
Abbreviation slack := (slack info).
Abbreviation ext_bal := (ext_bal info).
Implicit Types s : PBState B.

(** What a mint ([amt] positive) or a burn ([amt] negative) leaves behind. *)
Definition changed s s' (a : AccAddress) (amt : Z) : Prop :=
  wf s' ∧ slack s' = slack s ∧
  (∀ x, x ≠ reserveAddr → ext_bal s' x = ext_bal s x + (if decide (a = x) then amt else 0)) ∧
  (∀ x d, d ≠ intDenom → bal (pb_bank s') x d = bal (pb_bank s) x d).

Lemma changed_intro s (b' : B) (a : AccAddress) (F r : Z) ev (amt : Z) δ :
  let s' := mkPB b' (upd_frac a F (pb_frac s)) (upd_rem r) ev in
  wf s → a ≠ reserveAddr → 0 ≤ F < CF → 0 ≤ r < CF →
  after info (pb_bank s) b' δ →
  CF * δ a + F - frac_of s a = amt →
  CF * δ reserveAddr = F - frac_of s a + r - rem_of s →
  (∀ x, x ≠ a → x ≠ reserveAddr → δ x = 0) →
  changed s s' a amt.
Proof.
  intros s' Hwf Ha HF Hr [Hδ Ho] Hamt Hres Hrest. split_and!; [..|done].
  - apply wf_upd_frac; try done. by apply upd_rem_range.
  - unfold slack, rem_of, s'. simpl. rewrite upd_frac_sum, upd_rem_default, Hδ.
    unfold rem_of, frac_of in *. lia.
  - intros x Hx. unfold ext_bal, frac_of, s'. simpl. rewrite upd_frac_lookup, Hδ.
    case_decide; subst; [unfold frac_of in *; lia|]. rewrite Hrest by done. lia.
Qed.

Ltac finish_change s :=
  simpl; eapply (changed_intro s);
  [assumption|assumption|lia|lia|eauto using after_refl, after_move
  |shifts; clear_irrelevant; lia|shifts; clear_irrelevant; lia
  |intros; shifts; clear_irrelevant; lia].

(** The end of a mint or burn. *)
Lemma wp_change_tail s a F F' r (Q : PBState B → res SdkError unit → Prop) :
  a ≠ "" → 0 ≤ F < CF → 0 ≤ F' < CF → 0 ≤ r < CF →
  (∀ ev, Q (mkPB (pb_bank s) (upd_frac a F' (pb_frac s)) (upd_rem r) ev) (Ok tt)) →
  wp (SetFractionalBalance info a F' ;;
      SetRemainderAmount info r ;;
      EmitEventFractionalBalanceChange a F F') Q s.
Proof.
  intros Ha HF HF' Hr HQ.
  apply wp_bind, wp_SetFractionalBalance; [done|done|simpl].
  apply wp_bind, wp_SetRemainderAmount; [done|simpl].
  by eapply wp_Emit.
Qed.

(** [if n.IsPositive() { MintCoins }] by a module that may mint. *)
Lemma wp_mint_block s m acc n (Q : PBState B → res SdkError unit → Prop) :
  GetModuleAccount m = Some acc → HasPermission acc Minter = true →
  0 ≤ n < 2 ^ MaxBitLen →
  (∀ b', moved (pb_bank s) b' None (Some (ma_addr acc)) (one_coin intDenom n) →
     Q (set_bank b' s) (Ok tt)) →
  wp (if 0 <? n then
        coin ← NewCoin intDenom n; with_bank (bk_MintCoins m (NewCoins [coin]))
      else mret tt) Q s.
Proof.
  intros Hm Hp Hn HQ. apply wp_if; intros Hb; zbool.
  - apply wp_bind, wp_NewCoin; [apply cfg_denom|lia|simpl].
    apply wp_zoom. eapply wp_mint_one; [done|done|apply cfg_denom|lia|]. done.
  - assert (n = 0) as -> by lia. apply wp_ret. destruct s. apply (HQ pb_bank).
    intros x d. unfold one_coin. repeat case_decide; simpl; lia.
Qed.

(** The end of a mint: the fractional balance, the reserve's extra coin when
    neither a carry nor the remainder provides it, the remainder. *)
Lemma wp_mint_tail s a F F' f r neg (Q : PBState B → res SdkError unit → Prop) :
  neg = (r <? f) → a ≠ "" → 0 ≤ F < CF → 0 ≤ F' < CF → 0 ≤ f < CF → 0 ≤ r < CF →
  (∀ b' ev, moved (pb_bank s) b' None (Some reserveAddr)
              (one_coin intDenom (if (r <? f) && (F + f <? CF) then 1 else 0)) →
     Q (mkPB b' (upd_frac a F' (pb_frac s)) (upd_rem (if r <? f then r - f + CF else r - f)) ev)
       (Ok tt)) →
  wp (SetFractionalBalance info a F' ;;
      (wasCarriedSum ← F +! f;
       (if (r <? f) && negb (wasCarriedSum >=? CF) then
          coin ← NewCoin intDenom 1; with_bank (bk_MintCoins ModuleName (NewCoins [coin]))
        else mret tt) ;;
       newRemainder ← (if neg : bool then (r - f) +! CF else mret (r - f));
       SetRemainderAmount info newRemainder ;;
       EmitEventFractionalBalanceChange a F F')) Q s.
Proof.
  intros -> Ha HF HF' Hf Hr HQ. pose proof (CF_range info racc) as HCF.
  apply wp_bind, wp_SetFractionalBalance; [done|lia|simpl].
  wp_step. apply wp_int_checked; [int_range|simpl].
  rewrite Z.geb_leb. replace (negb (CF <=? F + f)) with (F + f <? CF) by lia.
  apply wp_bind.
  assert (Hend : ∀ b', moved (pb_bank s) b' None (Some reserveAddr)
              (one_coin intDenom (if (r <? f) && (F + f <? CF) then 1 else 0)) →
    wp (newRemainder ← (if r <? f then (r - f) +! CF else mret (r - f));
        SetRemainderAmount info newRemainder ;;
        EmitEventFractionalBalanceChange a F F') Q
       (mkPB b' (upd_frac a F' (pb_frac s)) (pb_rem s) (pb_events s))).
  { intros b' Hb'. specialize (λ ev, HQ b' ev Hb'). wp_step.
    destruct (r <? f) eqn:Er; zbool; [apply wp_int_checked; [int_range|]|apply wp_ret];
      simpl; apply wp_bind, wp_SetRemainderAmount; try lia; simpl;
      by eapply wp_Emit. }
  destruct ((r <? f) && (F + f <? CF)) eqn:Em.
  - apply wp_bind, wp_NewCoin; [apply cfg_denom|lia|simpl]. apply wp_zoom.
    eapply wp_mint_one; [apply cfg_reserve|apply cfg_minter|apply cfg_denom|done|].
    rewrite <- (reserveAddr_eq info racc). intros b' Hb'. by apply Hend.
  - apply wp_ret, Hend. intros x d. unfold one_coin. repeat case_decide; simpl; lia.
Qed.

Ltac finish_mint s neg :=
  apply (wp_mint_tail _ _ _ _ _ _ neg); [lia|done|lia|lia|lia|lia|]; simpl; intros b3 ev H3;
  split; [done|]; repeat (case_match; zbool); try lia; finish_change s.

Lemma wp_mintExtendedCoin s m acc amt :
  wf s → 0 ≤ slack s → m ≠ ModuleName →
  GetModuleAccount m = Some acc → HasPermission acc Minter = true →
  ma_addr acc ≠ "" → ma_addr acc ≠ reserveAddr → 0 < amt < 2 ^ MaxBitLen →
  wp (mintExtendedCoin info m amt)
     (λ s' r, r = Ok tt ∧ changed s s' (ma_addr acc) amt) s.
Proof.
  intros Hwf Hsl Hm Hacc Hp Ha0 Har Hamt. destruct acc as [a perms]. simpl in Ha0, Har.
  pose proof (CF_range info racc) as HCF.
  pose proof (frac_of_range info racc s a Hwf) as HF.
  pose proof (rem_of_range info racc s Hwf) as Hr.
  pose proof (frac_sum_one info s a Hwf) as Hsum.
  pose proof (Z.div_mod amt CF ltac:(lia)) as Hdm.
  pose proof (Z.mod_pos_bound amt CF ltac:(lia)) as Hmod.
  pose proof (Z.div_pos amt CF ltac:(lia) ltac:(lia)) as Hq.
  unfold mintExtendedCoin, GetModuleAddress. rewrite Hacc. simpl.
  destruct (String.eqb_spec m ModuleName); [congruence|].
  unfold GetFractionalBalance, GetRemainderAmount. do 2 (wp_step; simpl).
  fold (frac_of s a). wp_step. apply wp_IntQuo; [lia|lia|simpl].
  wp_step. apply wp_IntMod; [lia|simpl]. do 2 (wp_step; simpl). fold (rem_of s).
  set (q := amt / CF) in *. set (f := amt mod CF) in *.
  assert (q ≤ CF * q) by nia.
  do 2 (wp_step; apply wp_int_checked; [int_range|simpl]).
  rewrite !Z.geb_leb.
  replace (0 <=? rem_of s - f) with (negb (rem_of s - f <? 0)) by lia.
  destruct (CF <=? frac_of s a + f) eqn:Ec; destruct (rem_of s - f <? 0) eqn:Er; zbool; simpl.
  - (* carry, remainder insufficient: mint one more integer coin *)
    do 2 (wp_step; simpl). wp_step. apply wp_int_checked; [int_range|simpl].
    wp_step. apply wp_int_checked; [int_range|simpl].
    apply wp_bind, (wp_mint_block _ _ _ _ _ Hacc); [done|int_range|]. intros b1 H1.
    finish_mint s true.
  - (* carry, remainder sufficient: one integer coin from the reserve *)
    wp_step. apply wp_bind, wp_NewCoin; [apply cfg_denom|lia|simpl].
    rewrite (send_between_modules _ _ _ _ _ cfg_reserve Hacc).
    apply wp_zoom, wp_send_one; [apply cfg_denom|done| |].
    2:{ intros Hlt. exfalso. rewrite (module_spendable _ ModuleName) in Hlt by apply cfg_reserve.
        rewrite <- (reserveAddr_eq info racc) in Hlt. unfold slack in Hsl. nia. }
    intros _ b1 H1 _. rewrite <- (reserveAddr_eq info racc) in H1. simpl.
    do 2 (wp_step; simpl). wp_step. apply wp_int_checked; [int_range|simpl].
    apply wp_bind, (wp_mint_block _ _ _ _ _ Hacc); [done|int_range|]. intros b2 H2.
    finish_mint s false.
  - (* no carry, remainder insufficient: mint one integer coin to the reserve *)
    do 6 (wp_step; simpl).
    apply wp_bind, (wp_mint_block _ _ _ _ _ Hacc); [done|int_range|]. intros b1 H1.
    finish_mint s true.
  - (* neither *)
    do 6 (wp_step; simpl).
    apply wp_bind, (wp_mint_block _ _ _ _ _ Hacc); [done|int_range|]. intros b1 H1.
    finish_mint s false.
Qed.
(** ** Burning *)

(** [if !n.IsZero() { BurnCoins }] with the keeper's error path. *)
Lemma wp_burn_block s m acc n amt (Q : PBState B → res SdkError unit → Prop) :
  GetModuleAccount m = Some acc → HasPermission acc Burner = true → wf s →
  0 ≤ n < 2 ^ MaxBitLen → 0 ≤ amt →
  (n ≤ bal (pb_bank s) (ma_addr acc) intDenom → ∀ b',
     moved (pb_bank s) b' (Some (ma_addr acc)) None (one_coin intDenom n) →
     Q (set_bank b' s) (Ok tt)) →
  (bal (pb_bank s) (ma_addr acc) intDenom < n → ∀ s', Q s' (Err ErrInsufficientFunds)) →
  (2 ^ MaxBitLen ≤ ext_bal s (ma_addr acc) → ∀ s', Q s' (Panic "math.Int overflow")) →
  wp (if negb (n =? 0) then
        coin ← NewCoin intDenom n;
        with_bank (bk_BurnCoins m (NewCoins [coin]))
          or_return updateInsufficientFundsError info (ma_addr acc) amt
      else mret tt) Q s.
Proof.
  intros Hm Hp Hwf Hn Hamt Hok Herr Hovf. apply wp_if; intros Hb; zbool.
  - apply wp_bind, wp_NewCoin; [apply cfg_denom|lia|simpl].
    apply wp_on_err, wp_zoom. eapply wp_burn_one; [done|done|apply cfg_denom|lia|done|].
    intros Hlt b' Hle. pose proof (CF_range info racc).
    eapply wp_updateInsufficientFundsError; [done|by apply wf_set_bank|done|by apply Herr|].
    intros Hbig. apply Hovf. specialize (Hle (ma_addr acc) intDenom).
    unfold ext_bal, frac_of in *. simpl in *. nia.
  - subst n. apply wp_ret. destruct s. apply (Hok (bal_nonneg _ _ _) pb_bank).
    intros x d. unfold one_coin. repeat case_decide; simpl; lia.
Qed.

Definition burn_post s (a : AccAddress) (amt : Z)
    (s' : PBState B) (r : res SdkError unit) : Prop :=
  match r with
  | Ok _ => amt ≤ ext_bal s a ∧ changed s s' a (- amt)
  | Err e => e = ErrInsufficientFunds ∧ ext_bal s a < amt
  | Panic site => site = "math.Int overflow" ∧ 2 ^ MaxBitLen ≤ ext_bal s a
  end.

Ltac finish_burn s Hcov :=
  apply wp_change_tail; [done|lia|lia|lia|]; intros ev; split;
  [apply Hcov; lia | finish_change s].
Ltac short_burn Hcov :=
  let Hlt := fresh in let s' := fresh in simpl; intros Hlt s'; split;
  [done | apply Z.nle_gt; rewrite <- Hcov; lia].

Lemma wp_burnExtendedCoin s m acc amt :
  wf s → 0 ≤ slack s → m ≠ ModuleName →
  GetModuleAccount m = Some acc → HasPermission acc Burner = true →
  ma_addr acc ≠ "" → ma_addr acc ≠ reserveAddr → 0 < amt < 2 ^ MaxBitLen →
  wp (burnExtendedCoin info m amt) (burn_post s (ma_addr acc) amt) s.
Proof.
  intros Hwf Hsl Hm Hacc Hp Ha0 Har Hamt. destruct acc as [a perms]. simpl in Ha0, Har.
  pose proof (CF_range info racc) as HCF.
  pose proof (frac_of_range info racc s a Hwf) as HF.
  pose proof (rem_of_range info racc s Hwf) as Hr.
  pose proof (frac_sum_one info s a Hwf) as Hsum.
  pose proof (covered_iff info racc s a amt Hwf ltac:(lia)) as Hcov. simpl in Hcov.
  unfold ext_spendable in Hcov. rewrite (module_spendable _ _ _ _ Hacc) in Hcov.
  simpl in Hcov. fold (ext_bal s a) in Hcov.
  pose proof (Z.div_mod amt CF ltac:(lia)) as Hdm.
  pose proof (Z.mod_pos_bound amt CF ltac:(lia)) as Hmod.
  pose proof (Z.div_pos amt CF ltac:(lia) ltac:(lia)) as Hq.
  unfold burnExtendedCoin, GetModuleAddress. rewrite Hacc. simpl.
  destruct (String.eqb_spec m ModuleName); [congruence|].
  unfold GetFractionalBalance, GetRemainderAmount. do 4 (wp_step; simpl).
  fold (frac_of s a) (rem_of s). wp_step. apply wp_IntQuo; [lia|lia|simpl].
  wp_step. apply wp_IntMod; [lia|simpl].
  set (q := amt / CF) in *. set (f := amt mod CF) in *. assert (q ≤ CF * q) by nia.
  do 2 (wp_step; apply wp_int_checked; [int_range|simpl]).
  rewrite !Z.geb_leb.
  destruct (frac_of s a - f <? 0) eqn:Eb; destruct (CF <=? rem_of s + f) eqn:Eo; zbool;
    first [replace (frac_of s a <? f) with true in Hcov by lia
          |replace (frac_of s a <? f) with false in Hcov by lia]; simpl; wp_step.
  - (* borrow and remainder overflow: burn one more integer coin *)
    do 3 (wp_step; apply wp_int_checked; [int_range|simpl]).
    wp_step. do 4 (wp_step; simpl).
    apply wp_bind, (wp_burn_block _ _ _ _ _ _ Hacc); [done|done|int_range|lia| |short_burn Hcov|done].
    simpl. intros Hle b1 H1. finish_burn s Hcov.
  - (* borrow: one integer coin goes to the reserve *)
    wp_step. simpl. wp_step. wp_step. apply wp_int_checked; [int_range|simpl].
    apply wp_bind, wp_NewCoin; [apply cfg_denom|lia|simpl]. wp_step.
    rewrite (send_between_modules _ _ _ _ _ Hacc cfg_reserve). simpl.
    apply (wp_pay info racc); [done|done|lia| | |done].
    2:{ rewrite (module_spendable _ _ _ _ Hacc : spendable _ a _ = _). short_burn Hcov. }
    intros _ b1 H1 _. rewrite <- (reserveAddr_eq info racc) in H1. do 3 (wp_step; simpl).
    apply wp_bind, (wp_burn_block _ _ _ _ _ _ Hacc); [done|by apply wf_set_bank|int_range|lia| | |].
    2:{ simpl. rewrite (moved_int _ _ _ _ _ _ H1). shifts. short_burn Hcov. }
    2:{ simpl. intros Hbig s'. split; [done|]. revert Hbig. unfold ext_bal, frac_of. simpl.
        rewrite (moved_int _ _ _ _ _ _ H1). shifts. lia. }
    simpl. rewrite (moved_int _ _ _ _ _ _ H1). shifts. intros Hle b2 Hm2. finish_burn s Hcov.
  - (* remainder overflow: burn one integer coin of the reserve *)
    wp_step. simpl. do 3 (wp_step; simpl).
    apply wp_bind, wp_NewCoin; [apply cfg_denom|lia|simpl]. wp_step. apply wp_zoom.
    eapply wp_burn_one; [apply cfg_reserve|apply cfg_burner|apply cfg_denom|done| |].
    2:{ rewrite <- (reserveAddr_eq info racc). intros Hlt. exfalso. unfold slack in Hsl. nia. }
    simpl. rewrite <- (reserveAddr_eq info racc). intros _ b1 H1. simpl.
    apply wp_int_checked; [int_range|simpl].
    apply wp_bind, (wp_burn_block _ _ _ _ _ _ Hacc); [done|by apply (wf_set_bank _ b1)|int_range|lia| | |].
    2:{ simpl. rewrite (moved_int _ _ _ _ _ _ H1). shifts. short_burn Hcov. }
    2:{ simpl. intros Hbig s'. split; [done|]. revert Hbig. unfold ext_bal, frac_of. simpl.
        rewrite (moved_int _ _ _ _ _ _ H1). shifts. lia. }
    simpl. rewrite (moved_int _ _ _ _ _ _ H1). shifts. intros Hle b2 Hm2. finish_burn s Hcov.
  - (* neither *)
    wp_step. simpl. do 4 (wp_step; simpl).
    apply wp_bind, (wp_burn_block _ _ _ _ _ _ Hacc); [done|done|int_range|lia| |short_burn Hcov|done].
    simpl. intros Hle b1 H1. finish_burn s Hcov.
Qed.
End MintBurn.
