(* ===== verification/PreciseBankOps.v ===== *)
(** The public operations of the precise bank, on whole coin sets: [SendCoins]
    and its module variants, [MintCoins] and [BurnCoins].

    [Ledger] is the abstract specification: one balance per account and
    denomination, where the integer coin is folded into the extended coin.
    Every operation implements the obvious movement on it; [pb_step] is the
    step relation of the keeper, the successful operations that do not involve
    the reserve account. *)
From S2P Require Import Prelude Sdk EvmCoin PreciseBank PreciseBankInv PreciseBankSend PreciseBankMintBurn.

(** ** The abstract ledger *)

Definition Ledger : Type := AccAddress → string → Z.

Definition ledger_move (src dst : option AccAddress) (c : string → Z) (L : Ledger) : Ledger :=
  λ a d, L a d - (if decide (src = Some a) then c d else 0)
               + (if decide (dst = Some a) then c d else 0).

(** The operations of the keeper. *)
Inductive pb_op :=
| OpSend (from to : AccAddress) (amt : Coins)
| OpSendToModule (from : AccAddress) (toModule : string) (amt : Coins)
| OpSendFromModule (fromModule : string) (to : AccAddress) (amt : Coins)
| OpSendModules (fromModule toModule : string) (amt : Coins)
| OpMint (moduleName : string) (amt : Coins)
| OpBurn (moduleName : string) (amt : Coins).

Section Ops.
Context {B : Type} `{HC : CoinsLib, HA : AccountKeeper, HB : !BankKeeper B}.
Context `{HCL : !CoinsLaws, HBL : !BankLaws B}.
Context (info : EvmCoinInfo) (racc : ModuleAccount) `{HCfg : !PBConfig info racc}.

Abbreviation CF := (ConversionFactor info).
Abbreviation intDenom := (IntegerCoinDenom info).
Abbreviation extDenom := (ExtendedCoinDenom info).
Abbreviation wf := (wf info).
Abbreviation slack := (slack info).
Abbreviation ext_bal := (ext_bal info).
Abbreviation ext_spendable := (ext_spendable info).
Implicit Types s : PBState B.

(** Fold the integer coin of a family of amounts into the extended coin. *)
Definition fold_denoms (ext : Z) (c : string → Z) (d : string) : Z :=
  if decide (d = extDenom) then ext else if decide (d = intDenom) then 0 else c d.

Definition abs s : Ledger := λ a, fold_denoms (ext_bal s a) (bal (pb_bank s) a).
Definition abs_spendable s : Ledger :=
  λ a, fold_denoms (ext_spendable s a) (spendable (pb_bank s) a).

(** The value of a coin set in extended coins. *)
Definition ext_amount (cs : Coins) : Z :=
  (if decide (intDenom = extDenom) then 0 else CF * AmountOf cs intDenom)
  + AmountOf cs extDenom.
Definition abs_coins (cs : Coins) : string → Z := fold_denoms (ext_amount cs) (AmountOf cs).

Definition run_op (o : pb_op) : M (PBState B) SdkError unit :=
  match o with
  | OpSend from to amt => SendCoins info from to amt
  | OpSendToModule from m amt => SendCoinsFromAccountToModule info from m amt
  | OpSendFromModule m to amt => SendCoinsFromModuleToAccount info m to amt
  | OpSendModules m1 m2 amt => SendCoinsFromModuleToModule info m1 m2 amt
  | OpMint m amt => MintCoins info m amt
  | OpBurn m amt => BurnCoins info m amt
  end.

(** The accounts an operation debits and credits, and its coins. *)
Definition op_src (o : pb_op) : option AccAddress :=
  match o with
  | OpSend from _ _ | OpSendToModule from _ _ => Some from
  | OpSendFromModule m _ _ | OpSendModules m _ _ | OpBurn m _ => GetModuleAddress m
  | OpMint _ _ => None
  end.
Definition op_dst (o : pb_op) : option AccAddress :=
  match o with
  | OpSend _ to _ | OpSendFromModule _ to _ => Some to
  | OpSendToModule _ m _ | OpSendModules _ m _ | OpMint m _ => GetModuleAddress m
  | OpBurn _ _ => None
  end.
Definition op_coins (o : pb_op) : Coins :=
  match o with
  | OpSend _ _ amt | OpSendToModule _ _ amt | OpSendFromModule _ _ amt
  | OpSendModules _ _ amt | OpMint _ amt | OpBurn _ amt => amt
  end.

(** No participant is the reserve or the nil address. *)
Definition op_guard (o : pb_op) : Prop :=
  ∀ a, op_src o = Some a ∨ op_dst o = Some a → a ≠ "" ∧ a ≠ reserveAddr.

Inductive pb_step : PBState B → PBState B → Prop :=
| pb_step_op s s' o :
    op_guard o → run_op o s = (s', Ok tt) → pb_step s s'.

(** What an operation promises: the invariant, the backing and the ledger. *)
Definition refines s s' (src dst : option AccAddress) (cs : Coins) : Prop :=
  wf s' ∧ slack s' = slack s ∧
  ∀ a d, a ≠ reserveAddr → abs s' a d = ledger_move src dst (abs_coins cs) (abs s) a d.

Lemma fold_denoms_ext e c : fold_denoms e c extDenom = e.
Proof. unfold fold_denoms. by rewrite decide_True. Qed.

(** ** The coins that go through x/bank *)

Lemma wp_passthrough amt (Q : PBState B → res SdkError Coins → Prop) s :
  IsValid amt = true →
  (∀ cs, IsValid cs = true →
     (∀ d, AmountOf cs d = if decide (extDenom = d) then 0 else AmountOf amt d) →
     Q s (Ok cs)) →
  wp (passthrough info amt (AmountOf amt extDenom)) Q s.
Proof.
  intros Hv HQ. unfold passthrough. apply wp_if; intros Hp; zbool.
  - destruct (SubCoin_spec amt extDenom Hv Hp) as (cs & Hsub & Hcs & Hamt).
    apply wp_bind, wp_NewCoin; [apply cfg_extended|lia|simpl].
    unfold Sub. rewrite Hsub. apply wp_ret. eauto.
  - apply wp_ret, HQ; [done|]. intros d. case_decide; [subst|done].
    pose proof (IsValid_amount amt extDenom Hv). lia.
Qed.

(** Moving coins in x/bank alone, between accounts that are not the reserve. *)
Lemma bank_moved s b' src dst cs :
  wf s → src ≠ Some reserveAddr → dst ≠ Some reserveAddr →
  moved (pb_bank s) b' src dst (AmountOf cs) → AmountOf cs extDenom = 0 →
  refines s (set_bank b' s) src dst cs.
Proof.
  intros Hwf Hs Hd Hm Hext. split_and!.
  - by apply wf_set_bank.
  - unfold slack, rem_of. simpl. rewrite (Hm reserveAddr intDenom).
    rewrite !decide_False by done. lia.
  - intros a d Ha. unfold abs, ledger_move, abs_coins, fold_denoms, ext_amount, ext_bal.
    simpl. rewrite (Hm a intDenom), (Hm a d).
    destruct (decide (d = extDenom)); [|repeat case_decide; lia].
    unfold frac_of. simpl.
    destruct (decide (intDenom = extDenom)) as [->|]; rewrite ?Hext;
      repeat case_decide; lia.
Qed.

Lemma abs_move_zero cs src dst L a d :
  (∀ d', AmountOf cs d' = 0) → ledger_move src dst (abs_coins cs) L a d = L a d.
Proof.
  intros Hz. unfold ledger_move, abs_coins, fold_denoms, ext_amount. rewrite !Hz.
  repeat case_decide; lia.
Qed.

Lemma moved_zero (b : B) src dst cs :
  (∀ d, AmountOf cs d = 0) → moved b b src dst (AmountOf cs).
Proof. intros Hz a d. rewrite Hz. repeat case_decide; lia. Qed.

(** A movement of the extended coin after one through x/bank. *)
Lemma refines_compose s s1 s2 src dst amt cs :
  (∀ d, AmountOf cs d = if decide (extDenom = d) then 0 else AmountOf amt d) →
  refines s s1 src dst cs →
  wf s2 → slack s2 = slack s1 →
  (∀ a, a ≠ reserveAddr →
     ext_bal s2 a = ext_bal s1 a - (if decide (src = Some a) then AmountOf amt extDenom else 0)
                                 + (if decide (dst = Some a) then AmountOf amt extDenom else 0)) →
  (∀ a d, d ≠ intDenom → bal (pb_bank s2) a d = bal (pb_bank s1) a d) →
  refines s s2 src dst amt.
Proof.
  intros Hcs (_ & Hsl & Habs) Hwf2 Hsl2 Hext Hoth. split_and!; [done|by rewrite Hsl2|].
  intros a d Ha. specialize (Habs a d Ha). specialize (Hext a Ha).
  unfold abs, ledger_move, abs_coins, fold_denoms, ext_amount in *. rewrite !Hcs in Habs.
  rewrite (decide_True _ _ (eq_refl extDenom)) in Habs.
  destruct (decide (d = extDenom)) as [->|Hd].
  - rewrite Hext, Habs. repeat case_decide; congruence || lia.
  - destruct (decide (d = intDenom)) as [->|]; [repeat case_decide; congruence || lia|].
    rewrite (Hoth a d) by done. rewrite Habs. repeat case_decide; congruence || lia.
Qed.

(** ** Sending *)

(** The sender's spendable balances cover a coin set. *)
Definition covers s (from : AccAddress) (cs : Coins) : Prop :=
  ∀ d, abs_coins cs d ≤ abs_spendable s from d.

Definition coins_post s (src dst : option AccAddress) (cs : Coins) (covered : Prop)
    (s' : PBState B) (r : res SdkError unit) : Prop :=
  match r with
  | Ok _ => covered ∧ refines s s' src dst cs
  | Err e => e = ErrInsufficientFunds ∧ ¬ covered
  | Panic site => site = "math.Int overflow" ∧
                  ∃ a, src = Some a ∧ 2 ^ MaxBitLen ≤ ext_bal s a
  end.

Lemma wp_bank_send s from to cs (Q : PBState B → res SdkError unit → Prop) :
  IsValid cs = true →
  (∀ b', (∀ d, AmountOf cs d ≤ spendable (pb_bank s) from d) →
     moved (pb_bank s) b' (Some from) (Some to) (AmountOf cs) →
     (from ≠ to → ∀ d, spendable b' from d = spendable (pb_bank s) from d - AmountOf cs d) →
     Q (set_bank b' s) (Ok tt)) →
  (∀ d, spendable (pb_bank s) from d < AmountOf cs d → ∀ s', Q s' (Err ErrInsufficientFunds)) →
  wp (if IsAllPositive cs then with_bank (bk_SendCoins from to cs) else mret tt) Q s.
Proof.
  intros Hv Hok Herr. apply wp_if; intros Hp.
  - apply wp_zoom, wp_intro. intros b' r Hr.
    destruct (send_covered (pb_bank s) from to cs Hv) as [[b1 H1]|[d Hd]].
    + rewrite H1 in Hr. simplify_eq. apply Hok.
      * intros d. apply Z.nlt_ge. intros Hlt.
        destruct (send_short _ from to cs d Hv Hlt) as (? & He & _). congruence.
      * by apply send_moves.
      * intros Hne d. by eapply send_spendable.
    + destruct (send_short _ from to cs d Hv Hd) as (b1 & H1 & _).
      rewrite H1 in Hr. simplify_eq. by eapply Herr.
  - pose proof (IsAllPositive_spec cs Hv Hp) as Hz. apply wp_ret.
    destruct s as [b fr re ev]. apply (Hok b); simpl.
    + intros d. rewrite Hz. apply spendable_range.
    + by apply moved_zero.
    + intros _ d. rewrite Hz. lia.
Qed.

Lemma units_le (c x y f e : Z) : 0 ≤ f < c → 0 ≤ e → c * x + e ≤ c * y + f → x ≤ y.
Proof. intros. nia. Qed.

(** The part of a coin set left for the extended coin is covered exactly when
    the whole set is. *)
Lemma covers_split s from amt cs :
  wf s → IsValid amt = true → IsValid cs = true →
  (∀ d, AmountOf cs d = if decide (extDenom = d) then 0 else AmountOf amt d) →
  (covers s from amt ↔
     (∀ d, AmountOf cs d ≤ spendable (pb_bank s) from d) ∧
     AmountOf amt extDenom ≤ ext_spendable s from - CF * AmountOf cs intDenom).
Proof.
  intros Hwf Ha Hv Hcs. pose proof (CF_range info racc) as HCF.
  pose proof (frac_of_range info racc s from Hwf) as HF.
  pose proof (IsValid_amount amt extDenom Ha) as Hext.
  unfold covers, abs_coins, abs_spendable, fold_denoms, ext_amount, ext_spendable. split.
  - intros Hc. pose proof (Hc extDenom) as He. rewrite decide_True in He by done.
    assert (CF * AmountOf cs intDenom + AmountOf amt extDenom ≤
              CF * spendable (pb_bank s) from intDenom + frac_of s from) as He'.
    { revert He. rewrite Hcs. repeat case_decide; congruence || lia. }
    pose proof (IsValid_amount cs intDenom Hv). split; [|lia]. intros d.
    destruct (decide (d = extDenom)) as [->|Hde].
    { rewrite Hcs, decide_True by done. apply spendable_range. }
    destruct (decide (d = intDenom)) as [->|Hdi].
    + apply (units_le CF _ _ (frac_of s from) (AmountOf amt extDenom)); lia.
    + rewrite Hcs, decide_False by done. specialize (Hc d).
      by rewrite !(decide_False (P := d = _)) in Hc by done.
  - intros [Hc He] d. rewrite Hcs in He. destruct (decide (d = extDenom)) as [->|Hde].
    + revert He. repeat case_decide; congruence || lia.
    + destruct (decide (d = intDenom)); [lia|]. specialize (Hc d).
      by rewrite Hcs, decide_False in Hc by done.
Qed.

(** When a transfer succeeds.  A transfer of the extended coin to oneself is
    not checked against the balance. *)
Definition send_ok s (from to : AccAddress) (amt : Coins) : Prop :=
  if decide (from = to)
  then ∀ d, d ≠ extDenom → AmountOf amt d ≤ spendable (pb_bank s) from d
  else covers s from amt.

Lemma send_ok_short s from to amt cs d :
  wf s → IsValid amt = true → IsValid cs = true →
  (∀ d, AmountOf cs d = if decide (extDenom = d) then 0 else AmountOf amt d) →
  spendable (pb_bank s) from d < AmountOf cs d → ¬ send_ok s from to amt.
Proof.
  intros Hwf Ha Hv Hcs Hd. unfold send_ok. case_decide as Hft.
  - intros Hc. rewrite Hcs in Hd. pose proof (spendable_range (pb_bank s) from d).
    case_decide; [lia|]. specialize (Hc d ltac:(done)). lia.
  - intros Hc. apply (covers_split s from amt cs) in Hc as [Hc _]; try done.
    specialize (Hc d). lia.
Qed.

(** The extended part of a transfer, for any two accounts. *)
Lemma wp_send_extended s from to e (Q : PBState B → res SdkError unit → Prop) :
  wf s → 0 ≤ slack s → from ≠ "" → to ≠ "" →
  from ≠ reserveAddr → to ≠ reserveAddr → 0 ≤ e < 2 ^ MaxBitLen →
  (∀ s', (from ≠ to → e ≤ ext_spendable s from) → sent info s s' from to e → Q s' (Ok tt)) →
  (from ≠ to → ext_spendable s from < e → ∀ s', Q s' (Err ErrInsufficientFunds)) →
  (2 ^ MaxBitLen ≤ ext_bal s from → ∀ s', Q s' (Panic "math.Int overflow")) →
  wp (if 0 <? e then sendExtendedCoins info from to e else mret tt) Q s.
Proof.
  intros Hwf Hsl Hf0 Ht0 Hfr Htr He Hok Herr Hovf.
  assert (Hsame : ∀ n, from = to ∨ n = 0 → sent info s s from to n).
  { intros n Hn. split_and!; try done. intros a _. destruct Hn as [->| ->];
      repeat case_decide; lia. }
  apply wp_if; intros Hp; zbool.
  - destruct (decide (from = to)) as [<-|Hne].
    + unfold sendExtendedCoins.
      destruct (String.eqb_spec from reserveAddr); [done|]. simpl.
      rewrite String.eqb_refl. apply wp_ret, Hok; [done|auto].
    + eapply wp_mono; [apply (wp_sendExtendedCoins info racc); done || lia|].
      intros s' [[]|e'|p]; simpl.
      * intros [Hc Hs]. by apply Hok.
      * intros [-> Hlt]. by apply Herr.
      * intros [-> Hbig]. by apply Hovf.
  - assert (e = 0) as -> by lia. apply wp_ret, Hok; [|auto].
    intros _. pose proof (frac_of_range info racc s from Hwf).
    pose proof (spendable_range (pb_bank s) from intDenom).
    pose proof (CF_range info racc). unfold ext_spendable. nia.
Qed.

Lemma wp_SendCoins s from to amt :
  wf s → 0 ≤ slack s → from ≠ "" → to ≠ "" →
  from ≠ reserveAddr → to ≠ reserveAddr → IsValid amt = true →
  wp (SendCoins info from to amt)
     (coins_post s (Some from) (Some to) amt (send_ok s from to amt)) s.
Proof.
  intros Hwf Hsl Hf0 Ht0 Hfr Htr Hv. unfold SendCoins. rewrite Hv. simpl.
  apply wp_bind, wp_passthrough; [done|]. intros cs Hvc Hcs.
  pose proof (covers_split s from amt cs Hwf Hv Hvc Hcs) as Hcov.
  pose proof (IsValid_amount amt extDenom Hv) as Hext.
  pose proof (IsValid_amount cs intDenom Hvc) as Hint.
  apply wp_bind, wp_bank_send; [done| |].
  2:{ intros d Hd s'. split; [done|]. by eapply send_ok_short. }
  intros b1 Hb Hm Hsp.
  assert (Hr1 : refines s (set_bank b1 s) (Some from) (Some to) cs).
  { apply bank_moved; [done|congruence|congruence|done|]. by rewrite Hcs, decide_True. }
  destruct (Hr1) as (Hwf1 & Hsl1 & _).
  assert (Hes : from ≠ to → ext_spendable (set_bank b1 s) from =
                  ext_spendable s from - CF * AmountOf cs intDenom).
  { intros Hne. unfold ext_spendable. simpl. rewrite (Hsp Hne). unfold frac_of. simpl. lia. }
  apply wp_send_extended; try done; [by rewrite Hsl1|..].
  - intros s2 He (Hwf2 & Hsl2 & _ & Hx & Ho). split.
    + unfold send_ok. case_decide as Hft; [|apply Hcov; split; [done|rewrite <- Hes; auto]].
      intros d Hd. specialize (Hb d). by rewrite Hcs, decide_False in Hb.
    + eapply refines_compose; try done. intros a Ha. rewrite (Hx a Ha).
      repeat case_decide; congruence || lia.
  - intros Hne Hlt s'. split; [done|]. unfold send_ok. rewrite decide_False by done.
    intros Hc. apply Hcov in Hc as [_ Hc]. rewrite Hes in Hlt by done. lia.
  - intros Hbig s'. split; [done|]. exists from. split; [done|].
    pose proof (CF_range info racc). revert Hbig. unfold ext_bal. simpl.
    rewrite (Hm from intDenom), decide_True by done. unfold frac_of. simpl.
    case_decide; nia.
Qed.

(** ** Transfers that involve the reserve

    Such a transfer moves whole integer coins only: the fraction of the extended
    amount stays where it is, and the transfer succeeds. *)

Definition with_reserve (from to : AccAddress) : Prop := from = reserveAddr ∨ to = reserveAddr.
(** The coins that go through x/bank: the other denominations, and the whole
    integer coins in the extended amount. *)
Definition other_coins (amt : Coins) (d : string) : Z := if decide (extDenom = d) then 0 else AmountOf amt d.
Definition whole_units (amt : Coins) : string → Z := one_coin intDenom (AmountOf amt extDenom / CF).
Definition bank_coins (amt : Coins) (d : string) : Z := other_coins amt d + whole_units amt d.
(** The two sends through x/bank are checked one after the other; a send to oneself
    takes nothing away before the second check. *)
Definition reserve_covers s (from to : AccAddress) (amt : Coins) : Prop :=
  ∀ d, if decide (from = to)
       then other_coins amt d ≤ spendable (pb_bank s) from d ∧ whole_units amt d ≤ spendable (pb_bank s) from d
       else bank_coins amt d ≤ spendable (pb_bank s) from d.
Definition reserve_post s (from to : AccAddress) (amt : Coins) (s' : PBState B) (r : res SdkError unit) : Prop :=
  match r with
  | Ok _ => reserve_covers s from to amt ∧
            ∃ b', s' = set_bank b' s ∧ moved (pb_bank s) b' (Some from) (Some to) (bank_coins amt)
  | Err e => e = ErrInsufficientFunds ∧ ¬ reserve_covers s from to amt
  | Panic site => site = "math.Int overflow" ∧ 2 ^ MaxBitLen ≤ ext_bal s from
  end.

Lemma self_spendable (b b' : B) (from to : AccAddress) c :
  with_reserve from to → moved b b' (Some from) (Some to) c → from = to → ∀ d, spendable b' from d = spendable b from d.
Proof.
  intros Hr Hm <- d. assert (from = ma_addr racc) as -> by (rewrite <- (reserveAddr_eq info racc); by destruct Hr).
  rewrite !(module_spendable _ ModuleName racc) by apply cfg_reserve. rewrite (Hm _ d), !decide_True by done. lia.
Qed.
Lemma wp_sendThroughReserve s from to e (Q : PBState B → res SdkError unit → Prop) :
  wf s → 0 ≤ e < 2 ^ MaxBitLen →
  (e / CF ≤ spendable (pb_bank s) from intDenom → ∀ b',
     moved (pb_bank s) b' (Some from) (Some to) (one_coin intDenom (e / CF)) → Q (set_bank b' s) (Ok tt)) →
  (spendable (pb_bank s) from intDenom < e / CF → ∀ s', Q s' (Err ErrInsufficientFunds)) →
  (2 ^ MaxBitLen ≤ ext_bal s from → ∀ s', Q s' (Panic "math.Int overflow")) →
  wp (sendThroughReserve info from to e) Q s.
Proof.
  intros Hwf He Hok Herr Hovf. pose proof (CF_range info racc) as HCF.
  assert (0 ≤ e / CF ≤ e) by (split; [apply Z.div_pos; lia|apply Z.div_le_upper_bound; nia]).
  unfold sendThroughReserve. wp_step. apply wp_IntQuo; [lia|lia|]. apply wp_if; intros Hp; zbool.
  - apply wp_bind, wp_NewCoin; [apply cfg_denom|lia|simpl]. apply (wp_pay info racc); try done; [lia|lia|]. intros Hle b' Hm _. by apply Hok.
  - assert (e / CF = 0) as Hz by lia. rewrite Hz in *. apply wp_ret. destruct s as [b fr re ev].
    apply (Hok (proj1 (spendable_range _ _ _)) b). intros a d. unfold one_coin. repeat case_decide; simpl; lia.
Qed.
Lemma wp_SendCoins_reserve s from to amt :
  wf s → with_reserve from to → IsValid amt = true → wp (SendCoins info from to amt) (reserve_post s from to amt) s.
Proof.
  intros Hwf Hr Hv. pose proof (CF_range info racc) as HCF. pose proof (IsValid_amount amt extDenom Hv) as He.
  assert (Hw : ∀ d, 0 ≤ whole_units amt d).
  { intros d. unfold whole_units, one_coin. case_decide; [apply Z.div_pos; lia|lia]. }
  assert (Hwi : whole_units amt intDenom = AmountOf amt extDenom / CF) by (unfold whole_units, one_coin; by rewrite decide_True).
  unfold SendCoins. rewrite Hv. simpl. apply wp_bind, wp_passthrough; [done|]. intros cs Hvc Hcs.
  change (∀ d, AmountOf cs d = other_coins amt d) in Hcs.
  apply wp_bind, wp_bank_send; [done| |].
  2:{ intros d Hd s'. split; [done|]. intros Hc. specialize (Hc d). rewrite Hcs in Hd. specialize (Hw d). unfold bank_coins in Hc.
      case_decide; lia. }
  intros b1 Hb Hm Hsp. assert (Hother : ∀ d, other_coins amt d ≤ spendable (pb_bank s) from d) by (intros d; by rewrite <- Hcs).
  assert (Hleft : spendable b1 from intDenom = spendable (pb_bank s) from intDenom - (if decide (from = to) then 0 else other_coins amt intDenom)).
  { case_decide as Hft; [rewrite (self_spendable _ _ _ _ _ Hr Hm Hft); lia|]. by rewrite (Hsp Hft), Hcs. }
  assert (Hcov : reserve_covers s from to amt ↔ AmountOf amt extDenom / CF ≤ spendable b1 from intDenom).
  { rewrite Hleft. split.
    - intros Hc. specialize (Hc intDenom). unfold bank_coins in Hc. rewrite Hwi in Hc. case_decide; lia.
    - intros Hle d. unfold bank_coins. pose proof (Hother d). unfold whole_units, one_coin.
      pose proof (spendable_range (pb_bank s) from d). case_decide; (case_decide as Hd; [subst d|]); lia. }
  assert (Hfin : ∀ b2, AmountOf amt extDenom / CF ≤ spendable b1 from intDenom →
    moved b1 b2 (Some from) (Some to) (whole_units amt) → reserve_post s from to amt (set_bank b2 s) (Ok tt)).
  { intros b2 Hle Hm2. split; [by apply Hcov|]. exists b2. split; [done|]. intros a d. rewrite (Hm2 a d), (Hm a d), Hcs. unfold bank_coins.
    repeat case_decide; lia. }
  apply wp_if; intros Hp; zbool.
  - unfold sendExtendedCoins. assert (String.eqb from reserveAddr || String.eqb to reserveAddr = true) as ->.
    { destruct Hr as [-> | ->]; rewrite String.eqb_refl; [done|apply orb_true_r]. }
    apply wp_sendThroughReserve; [by apply wf_set_bank|lia| | |]; simpl.
    + intros Hle b2 Hm2. by apply Hfin.
    + intros Hlt s'. split; [done|]. rewrite Hcov. lia.
    + intros Hbig s'. split; [done|]. revert Hbig. unfold ext_bal. simpl. rewrite (Hm from intDenom), decide_True, Hcs by done. unfold frac_of. simpl.
      assert (0 ≤ other_coins amt intDenom) by (rewrite <- Hcs; by apply IsValid_amount).
      match goal with |- _ ≤ CF * ?x + _ → _ => assert (CF * x ≤ CF * bal (pb_bank s) from intDenom) end; [|lia].
      apply Z.mul_le_mono_nonneg_l; [lia|]. destruct (decide (Some to = Some from)); lia.
  - assert (AmountOf amt extDenom = 0) as Hz by lia. apply wp_ret.
    assert (Hz' : ∀ d, whole_units amt d = 0).
    { intros d. unfold whole_units, one_coin. rewrite Hz, Z.div_0_l by lia. by destruct (decide (intDenom = d)). }
    apply Hfin; [rewrite <- Hwi, Hz'; apply spendable_range|]. intros a d. rewrite Hz'. repeat case_decide; lia.
Qed.

(** *** Every transfer *)

(** What a transfer moves on the ledger, and when it succeeds. *)
Definition sent_coins (from to : AccAddress) (amt : Coins) : string → Z :=
  if decide (with_reserve from to) then fold_denoms (CF * bank_coins amt intDenom) (other_coins amt) else abs_coins amt.
Definition send_covers s (from to : AccAddress) (amt : Coins) : Prop :=
  if decide (with_reserve from to) then reserve_covers s from to amt else send_ok s from to amt.
Lemma reserve_ledger s b' from to amt :
  with_reserve from to → moved (pb_bank s) b' (Some from) (Some to) (bank_coins amt) →
  ∀ a d, abs (set_bank b' s) a d = ledger_move (Some from) (Some to) (sent_coins from to amt) (abs s) a d.
Proof.
  intros Hr Hm a d. unfold abs, ledger_move, sent_coins, fold_denoms, ext_bal, frac_of. rewrite (decide_True _ _ Hr). simpl.
  rewrite (Hm a intDenom), (Hm a d). unfold bank_coins, whole_units, one_coin.
  destruct (decide (d = extDenom)); [repeat case_decide; lia|]. destruct (decide (d = intDenom)); [repeat case_decide; lia|].
  rewrite !(decide_False (P := intDenom = d)) by done. repeat case_decide; lia.
Qed.
Lemma wp_SendCoins_any s from to amt :
  wf s → 0 ≤ slack s → from ≠ "" → to ≠ "" → IsValid amt = true →
  wp (SendCoins info from to amt) (λ s' r, match r with
    | Ok _ => send_covers s from to amt ∧ wf s' ∧ ∀ a d, a ≠ reserveAddr →
        abs s' a d = ledger_move (Some from) (Some to) (sent_coins from to amt) (abs s) a d
    | Err e => e = ErrInsufficientFunds ∧ ¬ send_covers s from to amt
    | Panic site => site = "math.Int overflow" ∧ 2 ^ MaxBitLen ≤ ext_bal s from
    end) s.
Proof.
  intros Hwf Hsl Hf Ht Hv. unfold send_covers, sent_coins. destruct (decide (with_reserve from to)) as [Hr|Hr].
  - eapply wp_mono; [by apply wp_SendCoins_reserve|]. intros s' [[]|e|p]; simpl; [|done..].
    intros (Hc & b' & -> & Hm). split_and!; [done|by apply wf_set_bank|]. intros a d _.
    pose proof (reserve_ledger s b' from to amt Hr Hm a d) as H. unfold sent_coins in H. by rewrite decide_True in H.
  - eapply wp_mono; [apply wp_SendCoins; try done; intros ->; apply Hr; [by left|by right]|]. intros s' [[]|e|p]; simpl.
    + intros (Hc & ? & _ & ?). done.
    + done.
    + intros (-> & a & [= <-] & ?). done.
Qed.

(** ** Minting and burning *)

Lemma changed_refines s s1 s2 src dst amt cs a e :
  (∀ d, AmountOf cs d = if decide (extDenom = d) then 0 else AmountOf amt d) →
  refines s s1 src dst cs → changed info s1 s2 a e →
  (∀ x, x ≠ reserveAddr →
     (if decide (a = x) then e else 0) =
     (if decide (dst = Some x) then AmountOf amt extDenom else 0)
     - (if decide (src = Some x) then AmountOf amt extDenom else 0)) →
  refines s s2 src dst amt.
Proof.
  intros Hcs Hr (Hwf2 & Hsl2 & Hx & Ho) He. eapply refines_compose; try done.
  intros x Hx'. rewrite (Hx x Hx'), (He x Hx'). lia.
Qed.

Lemma not_empty_amounts cs : Empty cs = true → ∀ d, AmountOf cs d = 0.
Proof. unfold Empty. intros He d. zbool. subst. apply AmountOf_nil. Qed.

Lemma changed_same s a : wf s → changed info s s a 0.
Proof. intros Hwf. split_and!; try done. intros x _. case_decide; lia. Qed.

Lemma wp_MintCoins s m acc amt :
  wf s → 0 ≤ slack s → m ≠ ModuleName →
  GetModuleAccount m = Some acc → HasPermission acc Minter = true →
  ma_addr acc ≠ "" → ma_addr acc ≠ reserveAddr → IsValid amt = true →
  wp (MintCoins info m amt)
     (λ s' r, r = Ok tt ∧ refines s s' None (Some (ma_addr acc)) amt) s.
Proof.
  intros Hwf Hsl Hm Hacc Hp Ha0 Har Hv. unfold MintCoins.
  destruct (String.eqb_spec m ModuleName); [done|]. rewrite Hacc, Hp, Hv. simpl.
  apply wp_bind, wp_passthrough; [done|]. intros cs Hvc Hcs.
  pose proof (IsValid_amount amt extDenom Hv) as Hext.
  assert (Hce : AmountOf cs extDenom = 0) by (by rewrite Hcs, decide_True).
  assert (Hgo : ∀ b1, moved (pb_bank s) b1 None (Some (ma_addr acc)) (AmountOf cs) →
    wp (if 0 <? AmountOf amt extDenom then mintExtendedCoin info m (AmountOf amt extDenom)
        else mret tt)
      (λ s' r, r = Ok tt ∧ refines s s' None (Some (ma_addr acc)) amt) (set_bank b1 s)).
  { intros b1 Hb1.
    assert (Hr1 : refines s (set_bank b1 s) None (Some (ma_addr acc)) cs)
      by (apply bank_moved; congruence || done).
    destruct (Hr1) as (Hwf1 & Hsl1 & _). apply wp_if; intros Hpos; zbool.
    - eapply wp_mono; [eapply (wp_mintExtendedCoin info racc); done || lia|].
      intros s2 r [-> Hch]. split; [done|]. eapply changed_refines; try done.
      intros x Hx. repeat case_decide; congruence || lia.
    - apply wp_ret. split; [done|].
      eapply changed_refines; [done..|by apply (changed_same _ (ma_addr acc))|].
      intros x Hx. repeat case_decide; lia. }
  apply wp_bind, wp_if; intros Hem; zbool.
  - apply wp_zoom, wp_intro. intros b' r Hr.
    destruct (mint_permitted (pb_bank s) m acc cs Hacc Hp Hvc) as [b1 H1].
    rewrite H1 in Hr. simplify_eq. apply Hgo. by eapply mint_moves.
  - apply wp_ret. destruct s. apply Hgo, moved_zero. by apply not_empty_amounts.
Qed.

Lemma module_covers s m acc d :
  GetModuleAccount m = Some acc →
  abs_spendable s (ma_addr acc) d = abs s (ma_addr acc) d.
Proof.
  intros Hacc. unfold abs_spendable, abs, fold_denoms, ext_spendable, ext_bal.
  by rewrite !(module_spendable _ _ _ _ Hacc).
Qed.

Lemma wp_bank_burn s m acc cs (Q : PBState B → res SdkError unit → Prop) :
  GetModuleAccount m = Some acc → HasPermission acc Burner = true → IsValid cs = true →
  (∀ b', (∀ d, AmountOf cs d ≤ spendable (pb_bank s) (ma_addr acc) d) →
     moved (pb_bank s) b' (Some (ma_addr acc)) None (AmountOf cs) →
     Q (set_bank b' s) (Ok tt)) →
  (∀ d, spendable (pb_bank s) (ma_addr acc) d < AmountOf cs d →
     ∀ s', Q s' (Err ErrInsufficientFunds)) →
  wp (if negb (Empty cs) then with_bank (bk_BurnCoins m cs) else mret tt) Q s.
Proof.
  intros Hacc Hp Hv Hok Herr. apply wp_if; intros He; zbool.
  - apply wp_zoom, wp_intro. intros b' r Hr.
    destruct (burn_covered (pb_bank s) m acc cs Hacc Hp Hv) as [[b1 H1]|[d Hd]].
    + rewrite H1 in Hr. simplify_eq. apply Hok; [|by eapply burn_moves].
      intros d. rewrite (module_spendable _ _ _ _ Hacc). apply Z.nlt_ge. intros Hlt.
      destruct (burn_short _ m acc cs d Hacc Hp Hv Hlt) as (? & He1 & _). congruence.
    + destruct (burn_short _ m acc cs d Hacc Hp Hv Hd) as (b1 & H1 & _).
      rewrite H1 in Hr. simplify_eq. apply (Herr d).
      by rewrite (module_spendable _ _ _ _ Hacc).
  - pose proof (not_empty_amounts cs He) as Hz. apply wp_ret.
    destruct s as [b fr re ev]. apply (Hok b); simpl.
    + intros d. rewrite Hz. apply spendable_range.
    + by apply moved_zero.
Qed.

Lemma wp_BurnCoins s m acc amt :
  wf s → 0 ≤ slack s → m ≠ ModuleName →
  GetModuleAccount m = Some acc → HasPermission acc Burner = true →
  ma_addr acc ≠ "" → ma_addr acc ≠ reserveAddr → IsValid amt = true →
  wp (BurnCoins info m amt)
     (coins_post s (Some (ma_addr acc)) None amt (covers s (ma_addr acc) amt)) s.
Proof.
  intros Hwf Hsl Hm Hacc Hp Ha0 Har Hv. unfold BurnCoins.
  destruct (String.eqb_spec m ModuleName); [done|]. rewrite Hacc, Hp, Hv. simpl.
  apply wp_bind, wp_passthrough; [done|]. intros cs Hvc Hcs.
  pose proof (covers_split s (ma_addr acc) amt cs Hwf Hv Hvc Hcs) as Hcov.
  pose proof (IsValid_amount amt extDenom Hv) as Hext.
  pose proof (IsValid_amount cs intDenom Hvc) as Hint.
  apply wp_bind, (wp_bank_burn _ _ _ _ _ Hacc Hp Hvc).
  2:{ intros d Hd s'. split; [done|]. intros [Hc _]%Hcov. specialize (Hc d). lia. }
  intros b1 Hb Hmv.
  assert (Hr1 : refines s (set_bank b1 s) (Some (ma_addr acc)) None cs).
  { apply bank_moved; [done|congruence|congruence|done|]. by rewrite Hcs, decide_True. }
  destruct (Hr1) as (Hwf1 & Hsl1 & _).
  assert (Hes : ext_bal (set_bank b1 s) (ma_addr acc) =
                  ext_spendable s (ma_addr acc) - CF * AmountOf cs intDenom).
  { unfold ext_bal, ext_spendable. simpl. rewrite (Hmv _ intDenom), decide_True by done.
    rewrite decide_False by done. rewrite (module_spendable _ _ _ _ Hacc).
    unfold frac_of. simpl. lia. }
  apply wp_if; intros Hpos; zbool.
  - eapply wp_mono; [eapply (wp_burnExtendedCoin info racc); done || lia|].
    intros s2 [[]|e|p]; simpl; rewrite ?Hes.
    + intros [Hle Hch]. split; [by apply Hcov|]. eapply changed_refines; try done.
      intros x Hx. repeat case_decide; congruence || lia.
    + intros [-> Hlt]. split; [done|]. intros [_ Hc]%Hcov. lia.
    + intros [-> Hbig]. split; [done|]. exists (ma_addr acc). split; [done|].
      pose proof (CF_range info racc). revert Hbig. unfold ext_spendable, ext_bal.
      rewrite (module_spendable _ _ _ _ Hacc). nia.
  - apply wp_ret. split.
    + apply Hcov. split; [done|]. rewrite <- Hes. pose proof (CF_range info racc).
      pose proof (bal_nonneg b1 (ma_addr acc) intDenom).
      pose proof (frac_of_range info racc _ (ma_addr acc) Hwf1). unfold ext_bal. simpl. nia.
    + eapply changed_refines; [done..|by apply (changed_same _ (ma_addr acc))|].
      intros x Hx. repeat case_decide; lia.
Qed.

(** ** Every operation *)

(** The panics an operation may still raise: a caller that names a module
    that is not registered or lacks the permission, and the 256-bit limit. *)
Definition caller_panics : list string :=
  ["math.Int overflow"; "module account does not exist";
   "module account does not have permissions to mint tokens";
   "module account does not have permissions to burn tokens"].

Definition op_post s (o : pb_op) (s' : PBState B) (r : res SdkError unit) : Prop :=
  match r with
  | Ok _ => refines s s' (op_src o) (op_dst o) (op_coins o)
  | Err e => e ∈ [ErrInvalidCoins; ErrUnauthorized; ErrInsufficientFunds]
  | Panic site => site ∈ caller_panics
  end.

Lemma coins_op_post s (o : pb_op) covered :
  ∀ s' r, coins_post s (op_src o) (op_dst o) (op_coins o) covered s' r → op_post s o s' r.
Proof.
  intros s' [[]|e|p]; unfold coins_post, op_post, caller_panics.
  - by intros [_ ?].
  - intros [-> _]. set_solver.
  - intros [-> _]. set_solver.
Qed.

Lemma SendCoins_op_post s (o : pb_op) from to :
  wf s → 0 ≤ slack s → op_guard o → op_src o = Some from → op_dst o = Some to →
  wp (SendCoins info from to (op_coins o)) (op_post s o) s.
Proof.
  intros Hwf Hsl Hg Hsrc Hdst.
  destruct (Hg from) as [Hf0 Hfr]; [auto|]. destruct (Hg to) as [Ht0 Htr]; [auto|].
  destruct (IsValid (op_coins o)) eqn:Hv.
  - eapply wp_mono; [by apply wp_SendCoins|]. rewrite <- Hsrc, <- Hdst.
    apply coins_op_post.
  - unfold SendCoins. rewrite Hv. apply wp_throw. simpl. set_solver.
Qed.

Ltac caller_panic := apply wp_panic; simpl; unfold caller_panics; set_solver.
Ltac refused := apply wp_throw; simpl; set_solver.

Lemma guard_module o m acc :
  op_guard o → GetModuleAccount m = Some acc →
  (op_src o = Some (ma_addr acc) ∨ op_dst o = Some (ma_addr acc)) →
  ma_addr acc ≠ "" ∧ ma_addr acc ≠ reserveAddr ∧ m ≠ ModuleName.
Proof.
  intros Hg Hacc Ho. destruct (Hg _ Ho) as [H0 Hr]. split_and!; [done..|].
  intros ->. rewrite (reserveAddr_eq info racc) in Hr.
  rewrite cfg_reserve in Hacc. congruence.
Qed.

Lemma wp_run_op s o :
  wf s → 0 ≤ slack s → op_guard o → wp (run_op o) (op_post s o) s.
Proof.
  intros Hwf Hsl Hg. destruct o as [from to amt|from m amt|m to amt|m1 m2 amt|m amt|m amt]; simpl.
  - by apply (SendCoins_op_post s (OpSend from to amt)).
  - unfold SendCoinsFromAccountToModule. destruct (GetModuleAccount m) as [acc|] eqn:Hacc;
      [|caller_panic]. apply wp_if; intros _; [refused|].
    apply (SendCoins_op_post s (OpSendToModule from m amt)); try done.
    simpl. unfold GetModuleAddress. by rewrite Hacc.
  - unfold SendCoinsFromModuleToAccount. destruct (GetModuleAddress m) as [a|] eqn:Hacc;
      [|caller_panic]. do 2 (apply wp_if; intros _; [refused|]).
    by apply (SendCoins_op_post s (OpSendFromModule m to amt)).
  - unfold SendCoinsFromModuleToModule. destruct (GetModuleAddress m1) as [a|] eqn:Hacc1;
      [|caller_panic]. destruct (GetModuleAccount m2) as [acc|] eqn:Hacc; [|caller_panic].
    apply wp_if; intros _; [refused|].
    apply (SendCoins_op_post s (OpSendModules m1 m2 amt)); try done.
    simpl. unfold GetModuleAddress. by rewrite Hacc.
  - destruct (GetModuleAccount m) as [acc|] eqn:Hacc.
    2:{ unfold MintCoins. apply wp_if; intros Heq; [|rewrite Hacc; caller_panic].
        apply String.eqb_eq in Heq as ->. by rewrite cfg_reserve in Hacc. }
    assert (op_dst (OpMint m amt) = Some (ma_addr acc)) as Hdst
      by (simpl; unfold GetModuleAddress; by rewrite Hacc).
    destruct (guard_module _ _ _ Hg Hacc (or_intror Hdst)) as (H0 & Hr & Hm).
    destruct (HasPermission acc Minter) eqn:Hp; [destruct (IsValid amt) eqn:Hv|].
    + eapply wp_mono; [by apply (wp_MintCoins s m acc)|]. intros s' r [-> ?].
      unfold op_post. by rewrite Hdst.
    + unfold MintCoins. destruct (String.eqb_spec m ModuleName); [done|].
      rewrite Hacc, Hp, Hv. refused.
    + unfold MintCoins. destruct (String.eqb_spec m ModuleName); [done|].
      rewrite Hacc, Hp. caller_panic.
  - destruct (GetModuleAccount m) as [acc|] eqn:Hacc.
    2:{ unfold BurnCoins. apply wp_if; intros Heq; [|rewrite Hacc; caller_panic].
        apply String.eqb_eq in Heq as ->. by rewrite cfg_reserve in Hacc. }
    assert (op_src (OpBurn m amt) = Some (ma_addr acc)) as Hsrc
      by (simpl; unfold GetModuleAddress; by rewrite Hacc).
    destruct (guard_module _ _ _ Hg Hacc (or_introl Hsrc)) as (H0 & Hr & Hm).
    destruct (HasPermission acc Burner) eqn:Hp; [destruct (IsValid amt) eqn:Hv|].
    + eapply wp_mono; [by apply (wp_BurnCoins s m acc)|]. rewrite <- Hsrc.
      apply (coins_op_post s (OpBurn m amt)).
    + unfold BurnCoins. destruct (String.eqb_spec m ModuleName); [done|].
      rewrite Hacc, Hp, Hv. refused.
    + unfold BurnCoins. destruct (String.eqb_spec m ModuleName); [done|].
      rewrite Hacc, Hp. caller_panic.
Qed.

(** *** With the reserve among the participants *)

(** No participant is the nil address, and no other module has the address of the
    reserve. *)
Definition op_named (o : pb_op) : Prop :=
  (∀ a, op_src o = Some a ∨ op_dst o = Some a → a ≠ "") ∧
  match o with OpMint m _ | OpBurn m _ => GetModuleAddress m = Some reserveAddr → m = ModuleName | _ => True end.
(** What an operation moves on the ledger. *)
Definition op_moved (o : pb_op) : string → Z :=
  match op_src o, op_dst o with
  | Some from, Some to => sent_coins from to (op_coins o)
  | _, _ => abs_coins (op_coins o)
  end.
Definition follows_ledger s s' (o : pb_op) : Prop :=
  ∀ a d, a ≠ reserveAddr → abs s' a d = ledger_move (op_src o) (op_dst o) (op_moved o) (abs s) a d.

Lemma SendCoins_ledger s s' (o : pb_op) from to :
  wf s → 0 ≤ slack s → op_named o → op_src o = Some from → op_dst o = Some to →
  SendCoins info from to (op_coins o) s = (s', Ok tt) → follows_ledger s s' o.
Proof.
  intros Hwf Hsl [Hn _] Hsrc Hdst Hrun. assert (from ≠ "" ∧ to ≠ "") as [Hf Ht] by (split; apply Hn; auto).
  destruct (IsValid (op_coins o)) eqn:Hv; [|unfold SendCoins in Hrun; rewrite Hv in Hrun; by cbn in Hrun].
  pose proof (wp_run _ _ _ _ _ (wp_SendCoins_any s from to (op_coins o) Hwf Hsl Hf Ht Hv) Hrun) as (_ & _ & H).
  intros a d Ha. unfold op_moved. rewrite Hsrc, Hdst. by apply H.
Qed.
Lemma minted_ledger s s' o :
  wf s → 0 ≤ slack s → op_guard o → op_src o = None ∨ op_dst o = None → run_op o s = (s', Ok tt) → follows_ledger s s' o.
Proof.
  intros Hwf Hsl Hg Hnone Hrun. pose proof (wp_run _ _ _ _ _ (wp_run_op s o Hwf Hsl Hg) Hrun) as (_ & _ & H).
  intros a d Ha. rewrite (H a d Ha). unfold op_moved. by destruct Hnone as [-> | ->]; [|destruct (op_src o)].
Qed.
Lemma run_op_ledger s s' o :
  wf s → 0 ≤ slack s → op_named o → run_op o s = (s', Ok tt) → follows_ledger s s' o.
Proof.
  intros Hwf Hsl Hn Hrun. pose proof Hn as [Hn0 Hn1].
  assert (Hguard : ∀ m, op_src o = None ∧ op_dst o = GetModuleAddress m ∨ op_src o = GetModuleAddress m ∧ op_dst o = None →
    (GetModuleAddress m = Some reserveAddr → m = ModuleName) → m ≠ ModuleName → op_guard o).
  { intros m Ho Hm Hne a Ha. split; [by apply Hn0|]. intros ->. apply Hne, Hm. destruct Ho as [[H1 H2]|[H1 H2]]; rewrite H1, H2 in Ha; naive_solver. }
  destruct o as [from to amt|from m amt|m to amt|m1 m2 amt|m amt|m amt]; cbn [run_op] in Hrun.
  - by apply (SendCoins_ledger s s' (OpSend from to amt) from to).
  - unfold SendCoinsFromAccountToModule in Hrun. destruct (GetModuleAccount m) as [acc|] eqn:Hacc; [|done].
    destruct (String.eqb m ModuleName); [done|]. apply (SendCoins_ledger s s' (OpSendToModule from m amt) from (ma_addr acc)); try done.
    cbn. unfold GetModuleAddress. by rewrite Hacc.
  - unfold SendCoinsFromModuleToAccount in Hrun. destruct (GetModuleAddress m) as [a|] eqn:Hacc; [|done].
    destruct (String.eqb m ModuleName); [done|]. destruct (bk_BlockedAddr to); [done|].
    by apply (SendCoins_ledger s s' (OpSendFromModule m to amt) a to).
  - unfold SendCoinsFromModuleToModule in Hrun. destruct (GetModuleAddress m1) as [a|] eqn:Hacc1; [|done].
    destruct (GetModuleAccount m2) as [acc|] eqn:Hacc; [|done]. destruct (String.eqb m2 ModuleName); [done|].
    apply (SendCoins_ledger s s' (OpSendModules m1 m2 amt) a (ma_addr acc)); try done. cbn. unfold GetModuleAddress. by rewrite Hacc.
  - apply minted_ledger; try done; [|by left]. apply (Hguard m); [by left|done|]. intros ->. by unfold MintCoins in Hrun.
  - apply minted_ledger; try done; [|by right]. apply (Hguard m); [by right|done|]. intros ->. by unfold BurnCoins in Hrun.
Qed.

(** The states reachable by successful operations keep the invariant. *)
Lemma reachable_inv s s' :
  wf s → 0 ≤ slack s → rtc pb_step s s' → wf s' ∧ slack s' = slack s.
Proof.
  intros Hwf Hsl Hsteps.
  induction Hsteps as [s|s s1 s2 Hst _ IH]; [done|].
  destruct Hst as [s s1 o Hg Hrun].
  pose proof (wp_run _ _ _ _ _ (wp_run_op s o Hwf Hsl Hg) Hrun) as (Hwf1 & Hsl1 & _).
  rewrite <- Hsl1. apply IH; [done|lia].
Qed.
End Ops.
