(* ===== verification/PreciseBankGenesis.v ===== *)
(** Genesis of the precise bank ([contrib/x/precisebank/genesis.go],
    [types/genesis.go], [types/fractional_balances.go]) and the gRPC queries
    ([keeper/grpc_query.go]).

    An accepted genesis state establishes the invariant of [PreciseBankInv];
    exporting a state that satisfies it and importing the export on the same
    bank gives the state back. *)
From S2P Require Import Prelude Sdk EvmCoin PreciseBank PreciseBankInv.

(** The bech32 codec of the SDK; [AccAddressFromBech32] is [None] on an error. *)
Class Bech32 := {
  AccAddressFromBech32 : string → option AccAddress;
  AccAddress_String : AccAddress → string;
}.

(** [strings.ToLower], on the ASCII strings that pass the address check. *)
Definition ToLower_ascii (c : Ascii.ascii) : Ascii.ascii :=
  let n := Ascii.N_of_ascii c in
  if ((65 <=? n) && (n <=? 90))%N then Ascii.ascii_of_N (n + 32) else c.
Fixpoint ToLower (s : string) : string :=
  match s with
  | EmptyString => EmptyString
  | String c s' => String (ToLower_ascii c) (ToLower s')
  end.

(** Bech32 is one-to-one up to the case of the text (which the decoder lowers
    first), decodes what it encodes and
    never decodes to the empty address. *)
Class Bech32Laws `{Bech32} : Prop := {
  bech32_nonempty t a : AccAddressFromBech32 t = Some a → a ≠ "";
  bech32_canonical t t' a :
    AccAddressFromBech32 t = Some a → AccAddressFromBech32 t' = Some a →
    ToLower t = ToLower t';
  bech32_lower t t' a a' :
    AccAddressFromBech32 t = Some a → AccAddressFromBech32 t' = Some a' →
    ToLower t = ToLower t' → a = a';
  bech32_roundtrip a : a ≠ "" → AccAddressFromBech32 (AccAddress_String a) = Some a;
}.

(** One entry of the genesis file, the address in its text form; an amount that
    is absent is a nil [math.Int]. *)
Record FractionalBalance := mkFB { fb_Address : string; fb_Amount : option Z }.
#[global] Instance FractionalBalance_eq_dec : EqDecision FractionalBalance.
Proof. solve_decision. Defined.

Record GenesisState := mkGenesis {
  gs_Balances : list FractionalBalance;
  gs_Remainder : option Z;
}.

Definition NewGenesisState (balances : list FractionalBalance) (remainder : Z) : GenesisState :=
  mkGenesis balances (Some remainder).
Definition DefaultGenesisState : GenesisState := NewGenesisState [] 0.

Section Genesis.
Context {B : Type} `{HC : CoinsLib, HA : AccountKeeper, HB : !BankKeeper B}.
Context `{HX : Bech32} (info : EvmCoinInfo).

Abbreviation PM := (M (PBState B) SdkError).

Definition FractionalBalance_Validate (fb : FractionalBalance) : PM unit :=
  match AccAddressFromBech32 (fb_Address fb) with
  | None => throw ErrInvalidAddress
  | Some _ => λ s, (s, ValidateFractionalAmount info (fb_Amount fb))
  end.

Fixpoint validate_balances (seenAddresses : gset string) (fbs : list FractionalBalance) :
    PM unit :=
  match fbs with
  | [] => mret tt
  | fb :: fbs' =>
      FractionalBalance_Validate fb ;;
      let lowerAddr := ToLower (fb_Address fb) in
      if bool_decide (lowerAddr ∈ seenAddresses)
      then throw (ErrPlain "duplicate address")
      else validate_balances ({[lowerAddr]} ∪ seenAddresses) fbs'
  end.
Definition FractionalBalances_Validate (fbs : list FractionalBalance) : PM unit :=
  validate_balances ∅ fbs.

(** [sum.Add] dereferences a nil amount. *)
Fixpoint sum_amounts (sum : Z) (fbs : list FractionalBalance) : PM Z :=
  match fbs with
  | [] => mret sum
  | fb :: fbs' =>
      match fb_Amount fb with
      | None => panic "nil pointer dereference"
      | Some a => sum' ← sum +! a; sum_amounts sum' fbs'
      end
  end.
Definition SumAmount (fbs : list FractionalBalance) : PM Z := sum_amounts 0 fbs.

Definition GenesisState_Validate (gs : GenesisState) : PM unit :=
  FractionalBalances_Validate (gs_Balances gs) ;;
  match gs_Remainder gs with
  | None => throw (ErrPlain "nil remainder amount")
  | Some rem =>
      if rem <? 0 then throw (ErrPlain "negative remainder amount")
      else if rem >=? ConversionFactor info then throw (ErrPlain "remainder exceeds max")
      else
        sum ← SumAmount (gs_Balances gs);
        sumWithRemainder ← sum +! rem;
        offBy ← IntMod sumWithRemainder (ConversionFactor info);
        if negb (offBy =? 0)
        then throw (ErrPlain "sum of fractional balances + remainder is not a multiple")
        else mret tt
  end.

Definition TotalAmountWithRemainder (gs : GenesisState) : PM Z :=
  sum ← SumAmount (gs_Balances gs);
  match gs_Remainder gs with
  | None => panic "nil pointer dereference"
  | Some rem => sum +! rem
  end.

(** The loop that stores the balances. *)
Definition set_balance (bal : FractionalBalance) : PM unit :=
  match AccAddressFromBech32 (fb_Address bal), fb_Amount bal with
  | Some addr, Some amount => SetFractionalBalance info addr amount
  | None, _ => panic "MustAccAddressFromBech32"
  | Some _, None => panic "nil pointer dereference"
  end.

Definition InitGenesis (gs : GenesisState) : PM unit :=
  (GenesisState_Validate gs or_die "failed to validate genesis state") ;;
  match GetModuleAccount ModuleName with
  | None => panic "module account has not been set"
  | Some _ =>
      totalAmt ← TotalAmountWithRemainder gs;
      moduleBal ← gets (λ s, bk_GetBalance (pb_bank s) reserveAddr (IntegerCoinDenom info));
      moduleBalExtended ← Amount moduleBal *! ConversionFactor info;
      (if negb (totalAmt =? moduleBalExtended)
          && negb (bool_decide (gs_Balances gs = []) && bool_decide (gs_Remainder gs = Some 0))
       then panic "module account balance does not match"
       else mret tt) ;;
      for_each (gs_Balances gs) set_balance ;;
      match gs_Remainder gs with
      | None => panic "nil pointer dereference"
      | Some rem => SetRemainderAmount info rem
      end
  end.

Definition ExportGenesis : PM GenesisState :=
  balances ← IterateFractionalBalances []
    (λ addr amount balances,
       mret (balances ++ [mkFB (AccAddress_String addr) (Some amount)], false));
  remainder ← GetRemainderAmount;
  mret (NewGenesisState balances remainder).

(** ** [keeper/grpc_query.go] *)

Definition query_Remainder : PM Coin :=
  remainder ← GetRemainderAmount; NewCoin (ExtendedCoinDenom info) remainder.

Definition query_FractionalBalance (req_Address : string) : PM Coin :=
  match AccAddressFromBech32 req_Address with
  | None => throw ErrInvalidAddress
  | Some address =>
      amt ← GetFractionalBalance address;
      NewCoin (ExtendedCoinDenom info) amt
  end.
End Genesis.

Section GenesisLemmas.
Context {B : Type} `{HC : CoinsLib, HA : AccountKeeper, HB : !BankKeeper B}.
Context `{HCL : !CoinsLaws, HBL : !BankLaws B, HX : Bech32, HXL : !Bech32Laws}.
Context (info : EvmCoinInfo) (racc : ModuleAccount) `{HCfg : !PBConfig info racc}.

Abbreviation CF := (ConversionFactor info).
Implicit Types (s : PBState B) (fb : FractionalBalance) (fbs : list FractionalBalance).

Definition fb_addr fb : option AccAddress := AccAddressFromBech32 (fb_Address fb).
Definition fb_lower fb : string := ToLower (fb_Address fb).

Definition ok_entry fb : Prop :=
  ∃ a v, fb_addr fb = Some a ∧ fb_Amount fb = Some v ∧ 0 < v < CF.

Definition ok_balances fbs : Prop := Forall ok_entry fbs ∧ NoDup (fb_lower <$> fbs).

Definition amounts fbs : Z := foldr (λ fb acc, default 0 (fb_Amount fb) + acc) 0 fbs.

(** *** Validation *)

Lemma validate_entry_spec fb s :
  ∃ r, FractionalBalance_Validate info fb s = (s, r) ∧ (r = Ok tt ↔ ok_entry fb) ∧
       (∀ p, r ≠ Panic p).
Proof.
  unfold FractionalBalance_Validate, ok_entry, fb_addr.
  destruct (AccAddressFromBech32 _) as [a|].
  2:{ eexists. split; [done|]. split; [|done]. split; [done|]. by intros (? & ? & ? & _). }
  eexists. split; [done|]. unfold ValidateFractionalAmount.
  destruct (fb_Amount fb) as [v|].
  2:{ split; [|done]. split; [done|]. by intros (? & ? & _ & ? & _). }
  destruct (0 <? v) eqn:E1; zbool; simpl.
  2:{ split; [|done]. split; [done|]. intros (? & ? & _ & ? & ?). simplify_eq. lia. }
  destruct (v >=? CF) eqn:E2; zbool.
  - split; [|done]. split; [done|]. intros (? & ? & _ & ? & ?). simplify_eq. lia.
  - split; [|done]. split; [|done]. intros _. exists a, v. split_and!; done || lia.
Qed.

Lemma validate_balances_spec fbs (seen : gset string) s :
  ∃ r, validate_balances info seen fbs s = (s, r) ∧
    (r = Ok tt ↔ ok_balances fbs ∧ ∀ x, x ∈ fb_lower <$> fbs → x ∉ seen) ∧
    (∀ p, r ≠ Panic p).
Proof.
  revert seen. induction fbs as [|fb fbs IH]; intros seen; simpl.
  - eexists. split; [done|]. split; [|done]. split; [|done]. intros _.
    split; [split; constructor|]. by intros x Hx%elem_of_nil.
  - unfold mbind at 1, M_bind. destruct (validate_entry_spec fb s) as (r & -> & Hr & Hp).
    destruct r as [[]|e|p]; [|eexists; split; [done|]; split; [|done]; split; [done|]|by destruct (Hp p)].
    2:{ intros [[Hok _] _]. apply Forall_cons in Hok as [Hok _]. by apply Hr in Hok. }
    assert (Hok : ok_entry fb) by by apply Hr. fold (fb_lower fb).
    destruct (bool_decide (fb_lower fb ∈ seen)) eqn:Eseen; zbool.
    + eexists. split; [done|]. split; [|done]. split; [done|]. intros [_ Hs].
      exfalso. apply (Hs (fb_lower fb)); [left|done].
    + destruct (IH ({[fb_lower fb]} ∪ seen)) as (r & Hrun & Hr' & Hp').
      exists r. split; [done|]. split; [|done]. rewrite Hr'. unfold ok_balances.
      rewrite Forall_cons. setoid_rewrite fmap_cons. rewrite NoDup_cons. set_solver.
Qed.

Lemma wp_SumAmount fbs (Q : PBState B → res SdkError Z → Prop) s :
  Forall ok_entry fbs → Q s (Ok (amounts fbs)) →
  (2 ^ MaxBitLen ≤ amounts fbs → Q s (Panic "math.Int overflow")) →
  wp (SumAmount fbs) Q s.
Proof.
  unfold SumAmount. intros Hok.
  assert (Hnn : ∀ l, Forall ok_entry l → 0 ≤ amounts l).
  { induction 1 as [|fb l (a & v & _ & Hv & ?) _ IH]; simpl; [done|]. rewrite Hv. simpl. lia. }
  replace (amounts fbs) with (0 + amounts fbs) by lia.
  generalize (Z.le_refl 0). generalize 0 at 2 3 4 5. induction Hok as [|fb l Hfb Hl IH]; intros z Hz HQ HP; simpl in *.
  - apply wp_ret. by rewrite Z.add_0_r in HQ.
  - destruct Hfb as (a & v & _ & Hv & Hr). rewrite Hv in *. simpl in *. specialize (Hnn l Hl).
    apply wp_bind, wp_int_checked_or.
    + apply IH; [lia| |]; rewrite <- Z.add_assoc; done.
    + intros Hbig. apply HP. lia.
Qed.

(** *** The stored balances *)

(** What the loop of [InitGenesis] does to the store. *)
Definition store_entry (m : gmap AccAddress Z) fb : gmap AccAddress Z :=
  match fb_addr fb, fb_Amount fb with
  | Some a, Some v => <[a:=v]> m
  | _, _ => m
  end.
Definition stored (m : gmap AccAddress Z) fbs : gmap AccAddress Z := foldl store_entry m fbs.

Definition set_frac (m : gmap AccAddress Z) s : PBState B :=
  mkPB (pb_bank s) m (pb_rem s) (pb_events s).

Lemma wp_set_balances fbs (Q : PBState B → res SdkError unit → Prop) s :
  Forall ok_entry fbs → Q (set_frac (stored (pb_frac s) fbs) s) (Ok tt) →
  wp (for_each fbs (set_balance info)) Q s.
Proof.
  intros Hok. revert s. induction Hok as [|fb fbs (a & v & Ha & Hv & Hr) Hok IH];
    intros s HQ; simpl in *.
  - apply wp_ret. by destruct s.
  - assert (set_balance (B := B) info fb = SetFractionalBalance info a v) as ->.
    { unfold set_balance. unfold fb_addr in Ha. by rewrite Ha, Hv. }
    apply wp_bind, wp_SetFractionalBalance; [by eapply bech32_nonempty|lia|simpl].
    apply IH. simpl. unfold upd_frac. rewrite (proj2 (Z.eqb_neq v 0)) by lia.
    unfold store_entry in HQ. by rewrite Ha, Hv in HQ.
Qed.

(** Different texts, up to case, are different accounts. *)
Lemma addr_fresh fb fbs a :
  fb_addr fb = Some a → fb_lower fb ∉ fb_lower <$> fbs →
  ∀ fb', fb' ∈ fbs → fb_addr fb' ≠ Some a.
Proof.
  intros Ha Hnin fb' Hin Ha'. apply Hnin. apply list_elem_of_fmap. exists fb'.
  split; [|done]. by eapply bech32_canonical.
Qed.

Lemma stored_lookup fbs m a :
  (∀ fb, fb ∈ fbs → fb_addr fb ≠ Some a) → stored m fbs !! a = m !! a.
Proof.
  revert m. induction fbs as [|fb fbs IH]; intros m Hn; simpl; [done|].
  rewrite IH by set_solver. unfold store_entry.
  destruct (fb_addr fb) as [a'|] eqn:Ha; [|done]. destruct (fb_Amount fb); [|done].
  rewrite lookup_insert_ne; [done|]. intros ->. apply (Hn fb); [left|done].
Qed.

Lemma stored_spec fbs m :
  ok_balances fbs → (∀ fb a, fb ∈ fbs → fb_addr fb = Some a → m !! a = None) →
  map_sum (stored m fbs) = map_sum m + amounts fbs ∧
  ∀ a v, stored m fbs !! a = Some v ↔
    m !! a = Some v ∨ ∃ fb, fb ∈ fbs ∧ fb_addr fb = Some a ∧ fb_Amount fb = Some v.
Proof.
  intros [Hok Hnd]. revert m. induction Hok as [|fb fbs (a & v & Ha & Hv & Hr) Hok IH];
    intros m Hm; simpl.
  - split; [lia|]. intros a v. split; [auto|]. by intros [?|(? & ?%elem_of_nil & _)].
  - rewrite fmap_cons in Hnd. apply NoDup_cons in Hnd as [Hnin Hnd].
    pose proof (addr_fresh fb fbs a Ha Hnin) as Hfresh.
    assert (m !! a = None) as Hnone by (apply (Hm fb); [left|done]).
    unfold store_entry. rewrite Ha, Hv. simpl.
    destruct (IH Hnd (<[a:=v]> m)) as [Hsum Hlk].
    { intros fb' a' Hin Ha'. rewrite lookup_insert_ne; [apply (Hm fb'); [by right|done]|].
      intros ->. by apply (Hfresh fb'). }
    split; [rewrite Hsum, map_sum_insert_new by done; lia|].
    intros a' v'. rewrite Hlk, lookup_insert_Some. split.
    + intros [[[-> ->]|[Hne Hm']]|(fb' & Hin & ? & ?)]; [right|by left|right].
      * exists fb. split_and!; [left|done..].
      * exists fb'. split_and!; [by right|done..].
    + intros [Hm'|(fb' & [->|Hin]%elem_of_cons & Ha' & Hv')].
      * left. right. split; [|done]. intros ->. congruence.
      * simplify_eq. by left; left.
      * right. by exists fb'.
Qed.

(** *** Import *)

Definition no_reserve (gs : GenesisState) : Prop :=
  ∀ fb, fb ∈ gs_Balances gs → fb_addr fb ≠ Some reserveAddr.

Definition ok_genesis (gs : GenesisState) (rem : Z) : Prop :=
  ok_balances (gs_Balances gs) ∧ gs_Remainder gs = Some rem ∧ 0 ≤ rem < CF ∧
  (amounts (gs_Balances gs) + rem) mod CF = 0.

Lemma amounts_nonneg fbs : Forall ok_entry fbs → 0 ≤ amounts fbs.
Proof.
  induction 1 as [|fb l (a & v & _ & Hv & ?) _ IH]; simpl; [done|]. rewrite Hv. simpl. lia.
Qed.

Lemma wp_Validate gs (Q : PBState B → res SdkError unit → Prop) s :
  (∀ rem, ok_genesis gs rem → Q s (Ok tt)) →
  ((∀ rem, ¬ ok_genesis gs rem) → ∀ e, Q s (Err e)) →
  (∀ rem, gs_Remainder gs = Some rem → 2 ^ MaxBitLen ≤ amounts (gs_Balances gs) + rem →
     Q s (Panic "math.Int overflow")) →
  wp (GenesisState_Validate info gs) Q s.
Proof.
  intros Hok Herr Hovf. pose proof (CF_range info racc) as HCF.
  unfold GenesisState_Validate. apply wp_bind, wp_intro.
  intros s' r Hrun. unfold FractionalBalances_Validate in Hrun.
  destruct (validate_balances_spec (gs_Balances gs) ∅ s) as (r' & Hrun' & Hr & Hp).
  rewrite Hrun' in Hrun. simplify_eq. destruct r as [[]|e|p]; [| |by destruct (Hp p)].
  2:{ apply Herr. intros rem (Hb & _). assert (Err e = Ok tt) as Hbad; [|done].
      apply Hr. split; [done|set_solver]. }
  destruct Hr as [Hr _]. destruct (Hr eq_refl) as [Hb _]. clear Hr.
  destruct (gs_Remainder gs) as [rem|] eqn:Hrem.
  2:{ apply wp_throw, Herr. intros rem (_ & ? & _). congruence. }
  apply wp_if; intros E1; zbool.
  { apply wp_throw, Herr. intros rem' (_ & ? & ? & _). simplify_eq. lia. }
  apply wp_if; intros E2; zbool.
  { apply wp_throw, Herr. intros rem' (_ & ? & ? & _). simplify_eq. lia. }
  pose proof (amounts_nonneg _ (proj1 Hb)) as Hnn.
  apply wp_bind, wp_SumAmount; [apply Hb| |].
  2:{ intros Hbig. apply (Hovf rem); [done|lia]. }
  simpl. apply wp_bind, wp_int_checked_or.
  2:{ intros Hbig. apply (Hovf rem); [done|lia]. }
  apply wp_bind, wp_IntMod; [lia|]. apply wp_if; intros E3; zbool.
  - apply wp_throw, Herr. intros rem' (_ & ? & _ & ?). by simplify_eq.
  - apply wp_ret, (Hok rem). unfold ok_genesis. split_and!; done || lia.
Qed.

Abbreviation reserve_ext s :=
  (CF * bal (pb_bank s) reserveAddr (IntegerCoinDenom info)).

(** The state an accepted genesis leaves behind. *)
Definition imported s (gs : GenesisState) (rem : Z) : PBState B :=
  mkPB (pb_bank s) (stored (pb_frac s) (gs_Balances gs)) (upd_rem rem) (pb_events s).

Lemma wp_InitGenesis gs s (Q : PBState B → res SdkError unit → Prop) :
  (∀ rem, ok_genesis gs rem →
     amounts (gs_Balances gs) + rem = reserve_ext s ∨ gs_Balances gs = [] ∧ rem = 0 →
     Q (imported s gs rem) (Ok tt)) →
  (∀ rem, ok_genesis gs rem → amounts (gs_Balances gs) + rem ≠ reserve_ext s →
     ¬ (gs_Balances gs = [] ∧ rem = 0) →
     Q s (Panic "module account balance does not match")) →
  ((∀ rem, ¬ ok_genesis gs rem) → Q s (Panic "failed to validate genesis state")) →
  (∀ rem, gs_Remainder gs = Some rem →
     2 ^ MaxBitLen ≤ amounts (gs_Balances gs) + rem ∨ 2 ^ MaxBitLen ≤ reserve_ext s →
     Q s (Panic "math.Int overflow")) →
  wp (InitGenesis info gs) Q s.
Proof.
  intros Hok Hmis Hinv Hovf. unfold InitGenesis.
  apply wp_bind, wp_or_panic, wp_Validate.
  2:{ intros Hno _. auto. }
  2:{ intros rem Hrem Hbig. by apply (Hovf rem); [|left]. }
  intros rem Hg. destruct (Hg) as (Hb & Hrem & Hr & Hmod). rewrite cfg_reserve.
  pose proof (amounts_nonneg _ (proj1 Hb)) as Hnn. pose proof (CF_range info racc) as HCF.
  pose proof (bal_nonneg (pb_bank s) reserveAddr (IntegerCoinDenom info)) as Hbal.
  unfold TotalAmountWithRemainder. rewrite Hrem.
  apply wp_bind, wp_bind, wp_SumAmount; [apply Hb| |].
  2:{ intros Hbig. apply (Hovf rem); [done|left; lia]. }
  apply wp_int_checked_or.
  2:{ intros Hbig. apply (Hovf rem); [done|left; lia]. }
  wp_step. wp_step. fold (bal (pb_bank s) reserveAddr (IntegerCoinDenom info)).
  apply wp_bind. unfold IntMul. rewrite (Z.mul_comm _ CF). apply wp_int_checked_or.
  2:{ intros Hbig. apply (Hovf rem); [done|right; nia]. }
  apply wp_bind, wp_if; intros Hc.
  { apply wp_panic, (Hmis rem); [done|..].
    - intros Heq. rewrite Heq, Z.eqb_refl in Hc. done.
    - intros [He ->]. rewrite He in Hc. by rewrite andb_false_r in Hc. }
  apply wp_ret, wp_bind, wp_set_balances; [apply Hb|]. apply wp_SetRemainderAmount; [done|].
  apply (Hok rem Hg). apply andb_false_iff in Hc as [Hc|Hc]; zbool; [by left|right].
  by simplify_eq.
Qed.

Lemma imported_inv gs rem s :
  ok_genesis gs rem → no_reserve gs → pb_frac s = ∅ →
  amounts (gs_Balances gs) + rem = reserve_ext s ∨ gs_Balances gs = [] ∧ rem = 0 →
  wf info (imported s gs rem) ∧ 0 ≤ slack info (imported s gs rem) ∧
  (amounts (gs_Balances gs) + rem = reserve_ext s → slack info (imported s gs rem) = 0).
Proof.
  intros (Hb & Hrem & Hr & _) Hno Hempty Hbal.
  destruct (stored_spec (gs_Balances gs) ∅ Hb) as [Hsum Hlk]; [done|].
  rewrite map_sum_empty in Hsum.
  assert (slack info (imported s gs rem) = reserve_ext s - (amounts (gs_Balances gs) + rem)) as Hsl.
  { unfold slack, rem_of, imported. simpl. rewrite Hempty, Hsum, upd_rem_default. lia. }
  split_and!.
  - split; unfold imported; simpl; rewrite ?Hempty.
    + intros a v [Hbad|(fb & Hin & Ha & Hv)]%Hlk; [by rewrite lookup_empty in Hbad|].
      destruct Hb as [Hok _]. rewrite Forall_forall in Hok.
      destruct (Hok fb Hin) as (? & ? & ? & ? & ?). by simplify_eq.
    + by apply upd_rem_range.
    + destruct (stored ∅ (gs_Balances gs) !! reserveAddr) as [v|] eqn:Hv; [|done].
      apply Hlk in Hv as [Hbad|(fb & Hin & Ha & _)]; [by rewrite lookup_empty in Hbad|].
      by apply Hno in Ha.
  - rewrite Hsl. destruct Hbal as [->|[-> ->]]; [lia|]. simpl.
    pose proof (bal_nonneg (pb_bank s) reserveAddr (IntegerCoinDenom info)).
    pose proof (CF_range info racc). nia.
  - intros Heq. rewrite Hsl, Heq. lia.
Qed.

(** *** Export *)

Definition exported_entry (e : AccAddress * Z) : FractionalBalance :=
  mkFB (AccAddress_String e.1) (Some e.2).
Definition exported s : GenesisState :=
  NewGenesisState (exported_entry <$> store_entries s) (rem_of s).

Lemma wp_iterate_append l acc (Q : PBState B → res SdkError (list FractionalBalance) → Prop) s :
  Q s (Ok (acc ++ (exported_entry <$> l))) →
  wp (iterate_entries l acc (λ addr amount balances,
        mret (balances ++ [mkFB (AccAddress_String addr) (Some amount)], false))) Q s.
Proof.
  revert acc. induction l as [|[a v] l IH]; intros acc HQ; simpl in *.
  - apply wp_ret. by rewrite app_nil_r in HQ.
  - apply wp_bind, wp_ret. apply IH. by rewrite <- app_assoc.
Qed.

Lemma wp_ExportGenesis (Q : PBState B → res SdkError GenesisState → Prop) s :
  Q s (Ok (exported s)) → wp ExportGenesis Q s.
Proof.
  intros HQ. unfold ExportGenesis, IterateFractionalBalances.
  apply wp_bind, wp_bind, wp_gets, wp_iterate_append. simpl.
  apply wp_bind, wp_gets, wp_ret, HQ.
Qed.

Lemma store_entries_perm s : store_entries s ≡ₚ map_to_list (pb_frac s).
Proof. apply merge_sort_Permutation. Qed.

Lemma store_entries_elem s a v : (a, v) ∈ store_entries s ↔ pb_frac s !! a = Some v.
Proof. by rewrite store_entries_perm, elem_of_map_to_list. Qed.

Definition entry_sum (l : list (AccAddress * Z)) : Z := foldr (λ e acc, e.2 + acc) 0 l.

Lemma entry_sum_perm l l' : l ≡ₚ l' → entry_sum l = entry_sum l'.
Proof. induction 1; simpl; lia. Qed.

Lemma store_entries_sum s : entry_sum (store_entries s) = map_sum (pb_frac s).
Proof.
  rewrite (entry_sum_perm _ _ (store_entries_perm s)). unfold map_sum.
  rewrite map_fold_foldr. unfold entry_sum.
  induction (map_to_list (pb_frac s)) as [|[a v] l IH]; simpl; [done|]. by rewrite IH.
Qed.

Lemma exported_amounts l : amounts (exported_entry <$> l) = entry_sum l.
Proof. induction l as [|[a v] l IH]; simpl; [done|]. by rewrite <- IH. Qed.

Lemma exported_ok s :
  wf info s → pb_frac s !! "" = None → slack info s = 0 → ok_genesis (exported s) (rem_of s).
Proof.
  intros Hwf Hne Hsl. pose proof (CF_range info racc) as HCF.
  assert (Hdec : ∀ a v, (a, v) ∈ store_entries s →
            AccAddressFromBech32 (AccAddress_String a) = Some a).
  { intros a v Hin%store_entries_elem. apply bech32_roundtrip. congruence. }
  unfold ok_genesis, exported, NewGenesisState. simpl. split_and!; [|done|by apply (rem_of_range info racc s Hwf)..|].
  - split.
    + apply Forall_fmap, Forall_forall. intros [a v] Hin. exists a, v. simpl.
      split_and!; [by eapply Hdec|done|..]; apply store_entries_elem in Hin;
        apply (wf_frac info s Hwf) in Hin; simpl in Hin; lia.
    + assert (NoDup (store_entries s).*1) as Hnd.
      { rewrite store_entries_perm. apply NoDup_fst_map_to_list. }
      revert Hnd Hdec. induction (store_entries s) as [|[a v] l IH]; simpl; intros Hnd Hdec;
        [constructor|].
      apply NoDup_cons in Hnd as [Hnin Hnd]. constructor; [|apply IH; [done|set_solver]].
      intros (fb & Hlow & ([a' v'] & -> & Hin)%list_elem_of_fmap)%list_elem_of_fmap.
      apply Hnin. apply list_elem_of_fmap. exists (a', v'). split; [|done]. simpl.
      eapply bech32_lower; [eapply Hdec; left|eapply Hdec; by right|exact Hlow].
  - rewrite exported_amounts, store_entries_sum. unfold slack in Hsl.
    replace (map_sum (pb_frac s) + rem_of s) with (reserve_ext s) by lia.
    rewrite Z.mul_comm. apply Z.mod_mul. lia.
Qed.

Lemma imported_exported s ev :
  wf info s → pb_frac s !! "" = None → slack info s = 0 →
  imported (mkPB (pb_bank s) ∅ None ev) (exported s) (rem_of s) =
    mkPB (pb_bank s) (pb_frac s) (pb_rem s) ev.
Proof.
  intros Hwf Hne Hsl. destruct (exported_ok s Hwf Hne Hsl) as (Hb & _).
  unfold imported. simpl. f_equal.
  - apply map_eq. intros a. apply option_eq. intros v.
    destruct (stored_spec (gs_Balances (exported s)) ∅ Hb) as [_ Hlk]; [done|].
    simpl in Hlk. rewrite Hlk, lookup_empty. split.
    + intros [?|(fb & ([a' v'] & -> & Hin)%list_elem_of_fmap & Ha & Hv)]; [done|].
      unfold fb_addr in Ha. simpl in *. apply store_entries_elem in Hin.
      rewrite bech32_roundtrip in Ha by congruence. by simplify_eq.
    + intros Hv. right. exists (exported_entry (a, v)). split_and!; [|..|done].
      * apply list_elem_of_fmap. exists (a, v). split; [done|]. by apply store_entries_elem.
      * apply bech32_roundtrip. congruence.
  - unfold rem_of, upd_rem. destruct (pb_rem s) as [v|] eqn:Hv; simpl; [|done].
    apply (wf_rem info s Hwf) in Hv. by rewrite (proj2 (Z.eqb_neq v 0)) by lia.
Qed.

(** *** The sum of the store *)

Lemma wp_GetTotalSum (Q : PBState B → res SdkError Z → Prop) s :
  wf info s → Q s (Ok (map_sum (pb_frac s))) →
  (2 ^ MaxBitLen ≤ map_sum (pb_frac s) → Q s (Panic "math.Int overflow")) →
  wp GetTotalSumFractionalBalances Q s.
Proof.
  intros Hwf. rewrite <- store_entries_sum. unfold GetTotalSumFractionalBalances,
    IterateFractionalBalances. intros HQ HP. apply wp_bind, wp_gets.
  assert (Hpos : ∀ a v, (a, v) ∈ store_entries s → 0 < v).
  { intros a v Hin%store_entries_elem. apply (wf_frac info s Hwf) in Hin. lia. }
  revert Hpos HQ HP. rewrite <- (Z.add_0_l (entry_sum _)). generalize (Z.le_refl 0).
  generalize 0 at 2 4 5 6. induction (store_entries s) as [|[a v] l IH];
    intros z Hz Hpos HQ HP; simpl in *.
  - apply wp_ret. by rewrite Z.add_0_r in HQ.
  - assert (0 < v) by (eapply Hpos; left).
    assert (0 ≤ entry_sum l) as Hl.
    { clear -Hpos. induction l as [|[a' v'] l IH]; simpl; [done|].
      assert (0 < v') by (eapply Hpos; right; left).
      assert (0 ≤ entry_sum l); [|lia]. apply IH. intros b w Hin.
      apply (Hpos b). apply elem_of_cons in Hin as [->|?]; [left|by right; right]. }
    apply wp_bind, wp_bind, wp_int_checked_or.
    + apply wp_ret. apply IH; [lia| | |]; rewrite <- ?Z.add_assoc; try done.
      intros b w Hin. apply (Hpos b). by right.
    + intros Hbig. apply HP. lia.
Qed.
End GenesisLemmas.
