(* ===== verification/SdkLedger.v ===== *)
(** An executable instance of the SDK classes: coin sets as lists, a bank as a
    function from accounts and denominations to balances, three module accounts
    and an address codec.  It satisfies all the laws of [Sdk], so that they are
    consistent, and the witnesses of the properties compute with it. *)
From S2P Require Import Prelude Sdk.

(** ** Coins *)

Definition coin_ok (c : Coin) : Prop := Denom c ≠ "" ∧ 0 < Amount c < 2 ^ MaxBitLen.
#[global] Instance coin_ok_dec c : Decision (coin_ok c).
Proof. unfold coin_ok. apply _. Defined.

Definition coins_ok (cs : Coins) : Prop := Forall coin_ok cs ∧ NoDup (Denom <$> cs).
#[global] Instance coins_ok_dec cs : Decision (coins_ok cs).
Proof. unfold coins_ok. apply _. Defined.

Fixpoint amount_of (cs : Coins) (d : string) : Z :=
  match cs with
  | [] => 0
  | c :: cs' => if decide (Denom c = d) then Amount c else amount_of cs' d
  end.

Fixpoint sub_coin (cs : Coins) (c : Coin) : option Coins :=
  match cs with
  | [] => if Amount c =? 0 then Some [] else None
  | c' :: cs' =>
      if decide (Denom c' = Denom c) then
        if Amount c' =? Amount c then Some cs'
        else if Amount c <? Amount c' then Some (mkCoin (Denom c) (Amount c' - Amount c) :: cs')
        else None
      else cons c' <$> sub_coin cs' c
  end.

#[global] Instance ledger_CoinsLib : CoinsLib := {
  ValidateDenom d := negb (String.eqb d "");
  IsValid cs := bool_decide (coins_ok cs);
  AmountOf := amount_of;
  SubCoin := sub_coin;
  IsAllPositive cs := negb (bool_decide (cs = [])) && forallb (λ c, 0 <? Amount c) cs;
  NewCoins cs := filter (λ c, Amount c ≠ 0) cs;
}.

Lemma amount_of_absent cs d : d ∉ Denom <$> cs → amount_of cs d = 0.
Proof.
  induction cs as [|c cs IH]; simpl; [done|]. intros Hn. case_decide; [set_solver|].
  apply IH. set_solver.
Qed.

Lemma amount_of_range cs d : coins_ok cs → 0 ≤ amount_of cs d < 2 ^ MaxBitLen.
Proof.
  intros [Hok _]. induction Hok as [|c cs [_ Hc] _ IH]; simpl; [done|]. case_decide; lia.
Qed.

Lemma amount_of_present cs d :
  coins_ok cs → 0 < amount_of cs d → d ≠ "" ∧ d ∈ Denom <$> cs.
Proof.
  intros [Hok _]. induction Hok as [|c cs [Hd _] _ IH]; simpl; [lia|].
  case_decide; subst; [set_solver|]. intros [? ?]%IH. set_solver.
Qed.

Lemma sub_coin_all cs d :
  coins_ok cs → 0 < amount_of cs d →
  ∃ cs', sub_coin cs (mkCoin d (amount_of cs d)) = Some cs' ∧ coins_ok cs' ∧
    (∀ d', amount_of cs' d' = if decide (d = d') then 0 else amount_of cs d') ∧
    (∀ d', d' ∈ Denom <$> cs' → d' ∈ Denom <$> cs).
Proof.
  intros [Hok Hnd]. induction Hok as [|c cs Hc Hok IH]; simpl; [lia|].
  rewrite fmap_cons in Hnd. apply NoDup_cons in Hnd as [Hnin Hnd].
  case_decide as Hd; intros Hpos.
  - rewrite Z.eqb_refl. exists cs. split_and!; [done|by split|..]; [|set_solver].
    intros d'. case_decide; subst; [by apply amount_of_absent|]. by rewrite decide_False.
  - destruct (IH Hnd Hpos) as (cs' & -> & [Hok' Hnd'] & Ham & Hsub). simpl.
    exists (c :: cs'). split_and!; [done| | |set_solver].
    + split; [by constructor|]. rewrite fmap_cons. apply NoDup_cons. auto.
    + intros d'. simpl. rewrite Ham. repeat case_decide; congruence || done.
Qed.

#[global] Instance ledger_CoinsLaws : CoinsLaws.
Proof.
  split; simpl.
  - intros cs d Hv. zbool. by apply amount_of_range.
  - intros cs d Hv Hp. zbool. apply negb_true_iff, String.eqb_neq. by eapply amount_of_present.
  - intros cs d Hv Hp. zbool. destruct (sub_coin_all cs d Hv Hp) as (cs' & ? & ? & ? & _).
    exists cs'. rewrite bool_decide_eq_true. done.
  - intros cs Hv Hp d. zbool. destruct Hv as [Hok _].
    apply andb_false_iff in Hp as [Hp|Hp]; zbool; [by subst|]. exfalso.
    rewrite (proj2 (forallb_forall _ cs)) in Hp; [done|]. intros c Hc.
    rewrite Forall_forall in Hok. destruct (Hok c) as [_ ?]; [by apply list_elem_of_In|]. lia.
  - done.
  - intros d a Hd Ha. apply negb_true_iff, String.eqb_neq in Hd.
    rewrite filter_cons_True by (simpl; lia). rewrite filter_nil. split.
    + apply bool_decide_eq_true. split; [by constructor|]. apply NoDup_singleton.
    + done.
Qed.

(** ** Module accounts *)

Definition reserve_account : ModuleAccount :=
  {| ma_addr := "reserve"; ma_perms := [Minter; Burner] |}.
Definition evm_account : ModuleAccount :=
  {| ma_addr := "evm-module"; ma_perms := [Minter; Burner] |}.
Definition fee_account : ModuleAccount := {| ma_addr := "fees"; ma_perms := [] |}.

#[global] Instance ledger_AccountKeeper : AccountKeeper := {
  GetModuleAccount m :=
    if String.eqb m "precisebank" then Some reserve_account
    else if String.eqb m "evm" then Some evm_account
    else if String.eqb m "fee_collector" then Some fee_account
    else None;
}.

(** ** The bank *)

Definition bank : Type := AccAddress → string → N.

Definition credit (src dst : option AccAddress) (cs : Coins) (b : bank) : bank :=
  λ a d, Z.to_N (Z.of_N (b a d) - (if decide (src = Some a) then amount_of cs d else 0)
                                + (if decide (dst = Some a) then amount_of cs d else 0)).

Definition has_coins (b : bank) (a : AccAddress) (cs : Coins) : bool :=
  forallb (λ c, amount_of cs (Denom c) <=? Z.of_N (b a (Denom c))) cs.

Definition bank_send (f t : AccAddress) (cs : Coins) : M bank SdkError unit := λ b,
  if has_coins b f cs then (credit (Some f) (Some t) cs b, Ok tt)
  else (b, Err ErrInsufficientFunds).

Definition with_account (m : string) (k : ModuleAccount → M bank SdkError unit) :
    M bank SdkError unit :=
  match GetModuleAccount m with
  | Some acc => k acc
  | None => panic "module account does not exist"
  end.

#[global] Instance ledger_BankKeeper : BankKeeper bank := {
  bk_GetBalance b a d := mkCoin d (Z.of_N (b a d));
  bk_SpendableCoin b a d := mkCoin d (Z.of_N (b a d));
  bk_IsSendEnabledCoin _ _ := true;
  bk_BlockedAddr a := String.eqb a "reserve";
  bk_SendCoins := bank_send;
  bk_SendCoinsFromAccountToModule f m cs := with_account m (λ acc, bank_send f (ma_addr acc) cs);
  bk_SendCoinsFromModuleToModule m1 m2 cs :=
    with_account m1 (λ a1, with_account m2 (λ a2, bank_send (ma_addr a1) (ma_addr a2) cs));
  bk_MintCoins m cs := with_account m (λ acc b,
    if HasPermission acc Minter then (credit None (Some (ma_addr acc)) cs b, Ok tt)
    else (b, Panic "no minting permission"));
  bk_BurnCoins m cs := with_account m (λ acc b,
    if HasPermission acc Burner then
      if has_coins b (ma_addr acc) cs then (credit (Some (ma_addr acc)) None cs b, Ok tt)
      else (b, Err ErrInsufficientFunds)
    else (b, Panic "no burning permission"));
}.

Lemma has_coins_true b a cs :
  coins_ok cs → has_coins b a cs = true → ∀ d, amount_of cs d ≤ Z.of_N (b a d).
Proof.
  intros Hok Hh d. unfold has_coins in Hh. rewrite forallb_forall in Hh.
  pose proof (amount_of_range cs d Hok).
  destruct (decide (0 < amount_of cs d)) as [Hp|]; [|lia].
  destruct (amount_of_present cs d Hok Hp) as [_ ([c1 c2] & -> & Hin)%list_elem_of_fmap].
  apply list_elem_of_In in Hin. apply Hh in Hin. zbool. done.
Qed.

Lemma has_coins_false b a cs :
  has_coins b a cs = false → ∃ d, Z.of_N (b a d) < amount_of cs d.
Proof.
  intros Hh. apply not_true_iff_false in Hh.
  destruct (decide (Forall (λ c, amount_of cs (Denom c) ≤ Z.of_N (b a (Denom c))) cs)) as [Hf|Hf].
  - destruct Hh. unfold has_coins. apply forallb_forall. intros c Hc%list_elem_of_In.
    rewrite Forall_forall in Hf. apply Z.leb_le. auto.
  - apply not_Forall_Exists in Hf; [|apply _]. apply Exists_exists in Hf as (c & _ & Hc).
    exists (Denom c). simpl in Hc. lia.
Qed.

Lemma credit_moved b src dst cs :
  coins_ok cs → (∀ a d, src = Some a → amount_of cs d ≤ Z.of_N (b a d)) →
  moved b (credit src dst cs b) src dst (amount_of cs).
Proof.
  intros Hok Hc a d. unfold bal, credit. simpl. pose proof (amount_of_range cs d Hok).
  specialize (Hc a d). rewrite Z2N.id; [done|].
  repeat case_decide; try specialize (Hc ltac:(done)); lia.
Qed.

Lemma has_coins_short b a cs d :
  coins_ok cs → Z.of_N (b a d) < amount_of cs d → has_coins b a cs = false.
Proof.
  intros Hok Hd. apply not_true_iff_false. intros Hh. pose proof (has_coins_true b a cs Hok Hh d).
  lia.
Qed.

Ltac ledger := unfold bal, spendable in *; simpl in *; unfold with_account, bank_send in *; simpl in *.

#[global] Instance ledger_BankLaws : BankLaws bank.
Proof.
  split.
  - intros. ledger. lia.
  - intros. ledger. lia.
  - done.
  - intros b f t cs b' Hv%bool_decide_eq_true Hs. revert Hs. ledger.
    destruct (has_coins b f cs) eqn:Hh; intros Hs; simplify_eq.
    apply credit_moved; [done|]. intros a d [= <-]. by apply has_coins_true.
  - intros b f t cs b' d Hv%bool_decide_eq_true Hft Hs. revert Hs. ledger.
    destruct (has_coins b f cs) eqn:Hh; intros Hs; simplify_eq.
    assert (moved b (credit (Some f) (Some t) cs b) (Some f) (Some t) (amount_of cs)) as Hm.
    { apply credit_moved; [done|]. intros a d' [= <-]. by apply has_coins_true. }
    rewrite (Hm f d : Z.of_N _ = _). rewrite decide_True, decide_False by congruence. ledger. lia.
  - intros b f t cs Hv. ledger. destruct (has_coins b f cs) eqn:Hh; [by left; eexists|].
    right. by apply has_coins_false.
  - intros b f t cs d Hv%bool_decide_eq_true Hd. ledger. rewrite (has_coins_short _ _ _ d) by done.
    by eexists.
  - intros f m acc cs Hm. ledger. by rewrite Hm.
  - intros m1 m2 acc1 acc2 cs H1 H2. ledger. by rewrite H1, H2.
  - intros b m acc cs b' Hm Hv%bool_decide_eq_true Hs. revert Hs. ledger. rewrite Hm.
    destruct (HasPermission acc Minter); intros Hs; simplify_eq. by apply credit_moved.
  - intros b m acc cs Hm Hp Hv. ledger. rewrite Hm, Hp. by eexists.
  - intros b m acc cs b' Hm Hv%bool_decide_eq_true Hs. revert Hs. ledger. rewrite Hm.
    destruct (HasPermission acc Burner); [|intros; simplify_eq].
    destruct (has_coins b (ma_addr acc) cs) eqn:Hh; intros Hs; simplify_eq.
    apply credit_moved; [done|]. intros a d [= <-]. by apply has_coins_true.
  - intros b m acc cs Hm Hp Hv. ledger. rewrite Hm, Hp.
    destruct (has_coins b (ma_addr acc) cs) eqn:Hh; [by left; eexists|].
    right. by apply has_coins_false.
  - intros b m acc cs d Hm Hp Hv%bool_decide_eq_true Hd. ledger. rewrite Hm, Hp.
    rewrite (has_coins_short _ _ _ d) by done. by eexists.
Qed.
