(* ===== verification/PreciseBankProps.v ===== *)
(** The correctness properties of the precise bank, with their witnesses on the
    executable ledger of [SdkLedger]. *)
From Stdlib Require Import Ascii.
From S2P Require Import Prelude Sdk EvmCoin PreciseBank PreciseBankInv PreciseBankSend PreciseBankMintBurn PreciseBankOps PreciseBankGenesis SdkLedger.

(** ** A concrete chain: a coin with six decimals, two accounts *)

Definition example_info : EvmCoinInfo := mkEvmCoinInfo "uatom" "aatom" "atom" 6.

Lemma example_config : PBConfig example_info reserve_account.
Proof. by split. Qed.
#[global] Existing Instance example_config.

(** Alice owns 5.4 coins, Bob 2.6, the reserve backs the fractions. *)
Definition example_bank : bank := λ a d,
  if String.eqb d "uatom" then
    if String.eqb a "alice" then 5%N else if String.eqb a "bob" then 2%N
    else if String.eqb a "evm-module" then 3%N
    else if String.eqb a "reserve" then 1%N else 0%N
  else 0%N.
Definition example_state : PBState bank :=
  mkPB example_bank {[ "alice" := 400000000000; "bob" := 600000000000 ]} None [].

Lemma example_wf : wf example_info example_state.
Proof.
  split; [|done|reflexivity].
  assert (Hf : map_Forall (λ _ v, 0 < v < 1000000000000) (pb_frac example_state)).
  { apply (bool_decide_unpack _). by vm_compute. }
  exact Hf.
Qed.

Lemma example_slack : slack example_info example_state = 0.
Proof. by vm_compute. Qed.

(** An address codec that writes the bits of every byte as letters. *)
Module BitCodec.
Definition enc_bit (b : bool) : Ascii.ascii := if b then "b"%char else "a"%char.
Definition dec_bit (c : Ascii.ascii) : option bool :=
  if decide (c = "a"%char) then Some false
  else if decide (c = "b"%char) then Some true else None.

Fixpoint enc (a : AccAddress) : string :=
  match a with
  | EmptyString => ""
  | String (Ascii.Ascii b0 b1 b2 b3 b4 b5 b6 b7) a' =>
      String (enc_bit b0) (String (enc_bit b1) (String (enc_bit b2) (String (enc_bit b3)
      (String (enc_bit b4) (String (enc_bit b5) (String (enc_bit b6) (String (enc_bit b7)
      (enc a'))))))))
  end.

Fixpoint dec (t : string) : option AccAddress :=
  match t with
  | EmptyString => Some ""
  | String c0 (String c1 (String c2 (String c3 (String c4 (String c5 (String c6 (String c7 t'))))))) =>
      b0 ← dec_bit c0; b1 ← dec_bit c1; b2 ← dec_bit c2; b3 ← dec_bit c3;
      b4 ← dec_bit c4; b5 ← dec_bit c5; b6 ← dec_bit c6; b7 ← dec_bit c7;
      a' ← dec t'; Some (String (Ascii.Ascii b0 b1 b2 b3 b4 b5 b6 b7) a')
  | _ => None
  end.

Lemma dec_bit_enc c b : dec_bit c = Some b → c = enc_bit b.
Proof. unfold dec_bit. repeat case_decide; intros; by simplify_eq. Qed.

Lemma enc_bit_dec b : dec_bit (enc_bit b) = Some b.
Proof. by destruct b. Qed.

Lemma lower_bit b : ToLower_ascii (enc_bit b) = enc_bit b.
Proof. by destruct b. Qed.

Lemma dec_enc a : dec (enc a) = Some a.
Proof. induction a as [|[] a IH]; [done|]. simpl. by rewrite !enc_bit_dec, IH. Qed.

Lemma lower_enc a : ToLower (enc a) = enc a.
Proof. induction a as [|[] a IH]; [done|]. simpl. by rewrite !lower_bit, IH. Qed.

Lemma dec_sound a : ∀ t, dec t = Some a → t = enc a.
Proof.
  induction a as [|c a IH]; intros t Ht.
  - do 8 (destruct t as [|? t]; [done|]). simpl in Ht.
    repeat (apply bind_Some in Ht as (? & ? & Ht)). done.
  - do 8 (destruct t as [|? t]; [done|]). simpl in Ht.
    repeat (apply bind_Some in Ht as (? & ?%dec_bit_enc & Ht)).
    apply bind_Some in Ht as (a' & Ha' & Ht). simplify_eq. simpl. by rewrite (IH t Ha').
Qed.

#[export] Instance codec : Bech32 := {
  AccAddressFromBech32 t := if String.eqb t "" then None else dec (ToLower t);
  AccAddress_String := enc;
}.

#[export] Instance laws : Bech32Laws.
Proof.
  split; simpl.
  - intros t a Ht ->. destruct (String.eqb_spec t ""); [done|].
    apply dec_sound in Ht. by destruct t.
  - intros t t' a Ht Ht'. destruct (String.eqb t ""), (String.eqb t' ""); try done.
    apply dec_sound in Ht, Ht'. congruence.
  - intros t t' a a' Ht Ht' Hl. destruct (String.eqb t ""), (String.eqb t' ""); try done.
    congruence.
  - intros a Ha. destruct (String.eqb_spec (enc a) "") as [He|_].
    + destruct a as [|[] a]; done.
    + by rewrite lower_enc, dec_enc.
Qed.
End BitCodec.
Import BitCodec.

Section Properties.
Context {B : Type} `{HC : CoinsLib, HA : AccountKeeper, HB : !BankKeeper B}.
Context `{HCL : !CoinsLaws, HBL : !BankLaws B, HX : Bech32, HXL : !Bech32Laws}.
Context (info : EvmCoinInfo) (racc : ModuleAccount) `{HCfg : !PBConfig info racc}.

Abbreviation CF := (ConversionFactor info).
Implicit Types s : PBState B.

(** C1: The reserve backs every fractional balance.  After a genesis state was
    accepted, in every state that any sequence of successful transfers, mints
    and burns between other accounts reaches, stored fractions are proper and
    the integer coins of the reserve, in extended units, are worth at least
    the fractional balances and the remainder together; exactly as much when
    the genesis state was exact. *)
Theorem reserve_backs_fractions gs s0 s1 s :
  pb_frac s0 = ∅ → no_reserve gs →
  InitGenesis info gs s0 = (s1, Ok tt) → rtc (pb_step info) s1 s →
  wf info s ∧
  map_sum (pb_frac s) + rem_of s ≤ CF * bal (pb_bank s) reserveAddr (IntegerCoinDenom info) ∧
  (gs ≠ DefaultGenesisState →
   map_sum (pb_frac s) + rem_of s = CF * bal (pb_bank s) reserveAddr (IntegerCoinDenom info)).
Proof.
  intros Hempty Hno Hinit Hsteps.
  assert (wf info s1 ∧ 0 ≤ slack info s1 ∧ (gs ≠ DefaultGenesisState → slack info s1 = 0))
    as (Hwf & Hsl & Hex).
  { apply (wp_run (InitGenesis info gs) (λ s' r, r = Ok tt → wf info s' ∧ 0 ≤ slack info s' ∧
      (gs ≠ DefaultGenesisState → slack info s' = 0)) s0 s1 (Ok tt)); [|done|done].
    apply (wp_InitGenesis info racc); try done.
    intros rem Hok Hbal _.
    destruct (imported_inv info racc gs rem s0 Hok Hno Hempty Hbal) as (? & ? & Hx).
    split_and!; [done..|]. intros Hgs. apply Hx. destruct Hbal as [?|[Hb ->]]; [done|].
    destruct Hgs, gs as [bs r]. destruct Hok as (_ & Hr & _). simpl in *. by subst. }
  destruct (reachable_inv info racc s1 s Hwf Hsl Hsteps) as [Hwf' Hsl'].
  split; [done|]. unfold slack in *. split; [lia|]. intros Hgs. specialize (Hex Hgs). lia.
Qed.

(** C2: The keeper implements the abstract ledger.  A successful transfer, mint
    or burn moves exactly the requested coins, where integer and extended
    coins count as one currency: every account but the reserve has the
    balance the ledger's movement gives it.  A transfer from or to the reserve
    moves only the whole integer coins in the extended amount ([sent_coins]),
    although it succeeds. *)
Theorem operations_refine_ledger s s' o :
  wf info s → 0 ≤ slack info s → op_named o → run_op info o s = (s', Ok tt) →
  ∀ a d, a ≠ reserveAddr →
    abs info s' a d =
    ledger_move (op_src o) (op_dst o) (op_moved info o) (abs info s) a d.
Proof. intros Hwf Hsl Hn Hrun. by apply (run_op_ledger info racc). Qed.

(** C3: When a transfer of valid coins succeeds, for any two accounts.  Between
    different accounts it succeeds when the sender's spendable balances cover it,
    integer and extended coins taken together; to oneself, when they cover the
    other coins, since the extended coin is not checked; from or to the reserve,
    when they cover the other coins and the whole integer coins in the extended
    amount.  Otherwise it returns the insufficient-funds error. *)
Theorem SendCoins_succeeds_iff_covered s from to amt :
  wf info s → 0 ≤ slack info s → IsValid amt = true → from ≠ "" → to ≠ "" →
  ext_bal info s from < 2 ^ MaxBitLen →
  (send_covers info s from to amt ∧ ∃ s', SendCoins info from to amt s = (s', Ok tt)) ∨
  (¬ send_covers info s from to amt ∧
     ∃ s', SendCoins info from to amt s = (s', Err ErrInsufficientFunds)).
Proof.
  intros Hwf Hsl Hv Hf0 Ht0 Hbig.
  pose proof (wp_SendCoins_any info racc s from to amt Hwf Hsl Hf0 Ht0 Hv) as Hwp.
  destruct (SendCoins info from to amt s) as [s' r] eqn:Hrun.
  apply (wp_run _ _ _ _ _ Hwp) in Hrun. destruct r as [[]|e|p].
  - left. split; [apply Hrun|by eexists].
  - right. destruct Hrun as [-> Hc]. split; [done|by eexists].
  - destruct Hrun as [_ Hle]. lia.
Qed.

(** C4: No internal panic is reachable.  In particular the reserve always has
    the coin a carry needs, and no fractional balance or remainder that is
    stored is rejected: the only panics left are the 256-bit limit and a
    caller that names an unregistered or unprivileged module. *)
Theorem operations_panic_only_on_caller_error s s' o site :
  wf info s → 0 ≤ slack info s → op_guard o → run_op info o s = (s', Panic site) →
  site ∈ caller_panics.
Proof.
  intros Hwf Hsl Hg Hrun. exact (wp_run _ _ _ _ _ (wp_run_op info racc s o Hwf Hsl Hg) Hrun).
Qed.

(** A module that may mint always can: the mint succeeds, adds exactly the
    coins to the module's balances and leaves the backing unchanged. *)
Theorem MintCoins_exact s m acc amt :
  wf info s → 0 ≤ slack info s → m ≠ ModuleName →
  GetModuleAccount m = Some acc → HasPermission acc Minter = true →
  ma_addr acc ≠ "" → ma_addr acc ≠ reserveAddr → IsValid amt = true →
  ∃ s', MintCoins info m amt s = (s', Ok tt) ∧
        refines info s s' None (Some (ma_addr acc)) amt.
Proof.
  intros Hwf Hsl Hm Hacc Hp H0 Hr Hv.
  pose proof (wp_MintCoins info racc s m acc amt Hwf Hsl Hm Hacc Hp H0 Hr Hv) as Hwp.
  destruct (MintCoins info m amt s) as [s' r] eqn:Hrun. exists s'.
  by destruct (wp_run _ _ _ _ _ Hwp Hrun) as [-> ?].
Qed.

(** A burn succeeds when the module's balances cover it and then removes
    exactly the coins, leaving the backing unchanged; otherwise it returns the
    insufficient-funds error. *)
Theorem BurnCoins_exact s m acc amt :
  wf info s → 0 ≤ slack info s → m ≠ ModuleName →
  GetModuleAccount m = Some acc → HasPermission acc Burner = true →
  ma_addr acc ≠ "" → ma_addr acc ≠ reserveAddr → IsValid amt = true →
  ext_bal info s (ma_addr acc) < 2 ^ MaxBitLen →
  (covers info s (ma_addr acc) amt ∧
     ∃ s', BurnCoins info m amt s = (s', Ok tt) ∧
           refines info s s' (Some (ma_addr acc)) None amt) ∨
  (¬ covers info s (ma_addr acc) amt ∧
     ∃ s', BurnCoins info m amt s = (s', Err ErrInsufficientFunds)).
Proof.
  intros Hwf Hsl Hm Hacc Hp H0 Hr Hv Hbig.
  pose proof (wp_BurnCoins info racc s m acc amt Hwf Hsl Hm Hacc Hp H0 Hr Hv) as Hwp.
  destruct (BurnCoins info m amt s) as [s' r] eqn:Hrun.
  apply (wp_run _ _ _ _ _ Hwp) in Hrun. destruct r as [[]|e|p]; simpl in Hrun.
  - left. destruct Hrun as [? ?]. split; [done|by eexists].
  - right. destruct Hrun as [-> ?]. split; [done|by eexists].
  - destruct Hrun as (_ & a & [= <-] & ?). lia.
Qed.


(** The balance queries for the extended coin return the integer balance
    (the spendable one, for [SpendableCoin]) in extended units plus the
    fractional balance, and zero for the reserve. *)
Theorem balance_queries s a :
  wf info s → ext_bal info s a < 2 ^ MaxBitLen →
  GetBalance info a (ExtendedCoinDenom info) s =
    (s, Ok (mkCoin (ExtendedCoinDenom info)
              (if decide (a = reserveAddr) then 0 else ext_bal info s a))) ∧
  SpendableCoin info a (ExtendedCoinDenom info) s =
    (s, Ok (mkCoin (ExtendedCoinDenom info)
              (if decide (a = reserveAddr) then 0 else ext_spendable info s a))).
Proof.
  intros Hwf Hbig. pose proof (frac_of_range info racc s a Hwf) as HF.
  pose proof (CF_range info racc) as HCF.
  pose proof (spendable_range (pb_bank s) a (IntegerCoinDenom info)) as Hsp.
  unfold ext_bal in Hbig. assert (Hle := Z.mul_le_mono_nonneg_l _ _ CF ltac:(lia) (proj2 Hsp)).
  assert (H0 := Z.mul_nonneg_nonneg CF _ ltac:(lia) (proj1 Hsp)).
  split; apply wp_run_eq; unfold GetBalance, SpendableCoin; rewrite String.eqb_refl; simpl;
    (destruct (String.eqb_spec a reserveAddr) as [->|Hne]; simpl;
     [rewrite decide_True by done; apply wp_NewCoin; [apply cfg_extended|lia|done]
     |rewrite decide_False by done; unfold GetFractionalBalance;
      apply wp_bind, wp_gets, wp_bind, wp_gets, wp_bind; fold (frac_of s a);
      fold (bal (pb_bank s) a (IntegerCoinDenom info));
      fold (spendable (pb_bank s) a (IntegerCoinDenom info));
      unfold IntMul; rewrite (Z.mul_comm _ CF)]).
  all: apply wp_int_checked; [lia|]; apply wp_bind, wp_int_checked; [lia|];
    apply wp_NewCoin; [apply cfg_extended|lia|done].
Qed.
End Properties.

(** ** Witnesses *)

Definition example_genesis : GenesisState :=
  mkGenesis [mkFB (enc "alice") (Some 400000000000); mkFB (enc "bob") (Some 600000000000)]
            (Some 0).
Definition empty_store : PBState bank := mkPB example_bank ∅ None [].
Definition example_start : PBState bank := fst (InitGenesis example_info example_genesis empty_store).
(** Alice sends Bob 0.5 coins: a borrow and a carry. *)
Definition half_coin : Coins := [mkCoin "aatom" 500000000000].
Definition example_send : pb_op := OpSend "alice" "bob" half_coin.
Definition example_next : PBState bank := fst (run_op example_info example_send example_start).

Lemma example_guard : op_guard example_send.
Proof. by intros a [[= <-]|[= <-]]. Qed.

Lemma reserve_backs_fractions_witness :
  wf example_info example_next ∧
  map_sum (pb_frac example_next) + rem_of example_next ≤
    ConversionFactor example_info * bal (pb_bank example_next) reserveAddr "uatom" ∧
  (example_genesis ≠ DefaultGenesisState →
   map_sum (pb_frac example_next) + rem_of example_next =
    ConversionFactor example_info * bal (pb_bank example_next) reserveAddr "uatom").
Proof.
  apply (reserve_backs_fractions example_info reserve_account example_genesis empty_store
           example_start example_next).
  - reflexivity.
  - intros fb [->|[->|[]%elem_of_nil]%elem_of_cons]%elem_of_cons; vm_compute; discriminate.
  - apply run_outcome. vm_compute. reflexivity.
  - apply rtc_once. apply (pb_step_op _ _ _ example_send example_guard).
    apply run_outcome. vm_compute. reflexivity.
Defined.

(** Alice sends the reserve 1.5 coins: one arrives. *)
Definition example_reserve : pb_op := OpSend "alice" reserveAddr [mkCoin "aatom" 1500000000000].
Lemma operations_refine_ledger_witness :
  abs example_info (fst (run_op example_info example_send example_state)) "bob" "aatom" = 3100000000000 ∧
  abs example_info (fst (run_op example_info example_reserve example_state)) "alice" "aatom" = 4400000000000.
Proof.
  split.
  - rewrite (operations_refine_ledger example_info reserve_account example_state
             (fst (run_op example_info example_send example_state)) example_send example_wf).
    + vm_compute. reflexivity.
    + rewrite example_slack. lia.
    + split; [intros a Ha; by apply example_guard in Ha as []|done].
    + apply run_outcome. vm_compute. reflexivity.
    + vm_compute. discriminate.
  - rewrite (operations_refine_ledger example_info reserve_account example_state
             (fst (run_op example_info example_reserve example_state)) example_reserve example_wf).
    + vm_compute. reflexivity.
    + rewrite example_slack. lia.
    + split; [|done]. intros a [[= <-]|[= <-]]; vm_compute; discriminate.
    + apply run_outcome. vm_compute. reflexivity.
    + vm_compute. discriminate.
Defined.

Lemma SendCoins_succeeds_iff_covered_witness :
  (send_covers example_info example_state "alice" "bob" half_coin ∧
     ∃ s', SendCoins example_info "alice" "bob" half_coin example_state = (s', Ok tt)) ∨
  (¬ send_covers example_info example_state "alice" "bob" half_coin ∧
     ∃ s', SendCoins example_info "alice" "bob" half_coin example_state =
             (s', Err ErrInsufficientFunds)).
Proof.
  apply (SendCoins_succeeds_iff_covered example_info reserve_account example_state
           "alice" "bob" half_coin example_wf).
  - rewrite example_slack. lia.
  - vm_compute. reflexivity.
  - discriminate.
  - discriminate.
  - vm_compute. reflexivity.
Defined.

(** A mint by a module without the permission, which panics. *)
Lemma operations_panic_only_on_caller_error_witness :
  ("module account does not have permissions to mint tokens" : string) ∈ caller_panics.
Proof.
  apply (operations_panic_only_on_caller_error example_info reserve_account example_state
           (fst (run_op example_info (OpMint "fee_collector" half_coin) example_state))
           (OpMint "fee_collector" half_coin) _ example_wf).
  - rewrite example_slack. lia.
  - intros a [[=]|[= <-]]. split; vm_compute; discriminate.
  - apply run_outcome. vm_compute. reflexivity.
Defined.

Lemma MintCoins_exact_witness :
  ∃ s', MintCoins example_info "evm" half_coin example_state = (s', Ok tt) ∧
        refines example_info example_state s' None (Some "evm-module") half_coin.
Proof.
  apply (MintCoins_exact example_info reserve_account example_state "evm" evm_account half_coin
           example_wf).
  - rewrite example_slack. lia.
  - discriminate.
  - reflexivity.
  - vm_compute. reflexivity.
  - discriminate.
  - vm_compute. discriminate.
  - vm_compute. reflexivity.
Defined.

Lemma BurnCoins_exact_witness :
  (covers example_info example_state "evm-module" half_coin ∧
     ∃ s', BurnCoins example_info "evm" half_coin example_state = (s', Ok tt) ∧
           refines example_info example_state s' (Some "evm-module") None half_coin) ∨
  (¬ covers example_info example_state "evm-module" half_coin ∧
     ∃ s', BurnCoins example_info "evm" half_coin example_state =
             (s', Err ErrInsufficientFunds)).
Proof.
  apply (BurnCoins_exact example_info reserve_account example_state "evm" evm_account half_coin
           example_wf).
  - rewrite example_slack. lia.
  - discriminate.
  - reflexivity.
  - vm_compute. reflexivity.
  - discriminate.
  - vm_compute. discriminate.
  - vm_compute. reflexivity.
  - vm_compute. reflexivity.
Defined.


Lemma balance_queries_witness :
  snd (GetBalance example_info "alice" (ExtendedCoinDenom example_info) example_state) =
    Ok (mkCoin "aatom" 5400000000000).
Proof.
  assert (Hbig : ext_bal example_info example_state "alice" < 2 ^ MaxBitLen)
    by (vm_compute; reflexivity).
  destruct (balance_queries example_info reserve_account example_state "alice" example_wf Hbig)
    as [Hget _].
  etransitivity; [exact (f_equal snd Hget)|]. vm_compute. reflexivity.
Defined.
