(* ===== verification/StateDB.v ===== *)
(** The EVM state database ([x/vm/statedb]): state objects with their dirty
    storage, the journal of reversible changes, revisions, the access list, the
    transient storage and the cache context of precompile calls.

    [StateDB K C Ev] is the structure of [statedb.go]: [K] is the store behind
    [ctx], [C] the store of the cache context that precompiles write to, [Ev] the
    type of emitted events.  The keeper interface of [interfaces.go] is the class
    [Keeper], used on both stores; the snapshot store of the cache context is the
    class [Snapshotter], which [SnapshotStore] implements. *)
From S2P Require Import Prelude GoStd AccessList Sdk.

(** [Account]; nil fields only occur in the zero value that [createObject]
    passes to [newObject], which is [None] there. *)
Record Account := mkAccount {
  acc_Nonce : Z;
  acc_Balance : Z;
  acc_CodeHash : Hash;
}.

(** Byte slices are strings; [None] is the nil slice. *)
Abbreviation code_t := (option string).

(** [crypto.Keccak256]. *)
Class Crypto := { Keccak256Hash : string → Hash }.

Section CodeHash.
Context `{Crypto}.
Definition EmptyCodeHash : Hash := Keccak256Hash "".
Definition IsEmptyCodeHash (h : Hash) : bool := h =? EmptyCodeHash.
Definition HasCodeHash (acct : Account) : bool := negb (IsEmptyCodeHash (acc_CodeHash acct)).
End CodeHash.

(** An SDK context: its multi-store and the events of its event manager. *)
Record sdkContext (S Ev : Type) := mkCtx { cx_store : S; cx_events : list Ev }.
Arguments mkCtx {S Ev}.
Arguments cx_store {S Ev}.
Arguments cx_events {S Ev}.

(** The keeper interface; [ForEachStorage] is the sequence it iterates.  Writing
    an account moves coins, which emits events. *)
Class Keeper (S Ev : Type) := {
  kp_GetAccount : S → Address → option Account;
  kp_GetState : S → Address → Hash → Hash;
  kp_GetCode : S → Hash → code_t;
  kp_ForEachStorage : S → Address → list (Hash * Hash);
  kp_SetAccount : Address → Account → M (sdkContext S Ev) SdkError unit;
  kp_DeleteState : Address → Hash → S → S;
  kp_SetState : Address → Hash → Hash → S → S;
  kp_DeleteCode : Hash → S → S;
  kp_SetCode : Hash → string → S → S;
  kp_DeleteAccount : Address → M (sdkContext S Ev) SdkError unit;
}.

(** [vmstoretypes.Snapshotter]; [None] is the panic on a bad index. *)
Class Snapshotter (C : Type) := {
  sn_Snapshot : C → Z * C;
  sn_RevertToSnapshot : Z → C → option C;
}.

(** [ctx.CacheContext] over the snapshot store, and writing it back. *)
Class CacheContext (K C : Type) := {
  cc_new : K → C;
  cc_write : C → K → K;
}.

(** ** State objects *)

Record stateObject := mkObject {
  so_account : Account;
  so_code : code_t;
  so_originStorage : Storage;
  so_dirtyStorage : Storage;
  so_overrideStorage : option Storage;
  so_address : Address;
  so_dirtyCode : bool;
  so_selfDestructed : bool;
  so_newContract : bool;
}.

Section ObjectFields.
Implicit Types o : stateObject.
Definition obj_setAccount (a : Account) o : stateObject :=
  mkObject a (so_code o) (so_originStorage o) (so_dirtyStorage o) (so_overrideStorage o)
    (so_address o) (so_dirtyCode o) (so_selfDestructed o) (so_newContract o).
Definition obj_setBalance (amount : Z) o : stateObject :=
  obj_setAccount (mkAccount (acc_Nonce (so_account o)) amount (acc_CodeHash (so_account o))) o.
Definition obj_setNonce (nonce : Z) o : stateObject :=
  obj_setAccount (mkAccount nonce (acc_Balance (so_account o)) (acc_CodeHash (so_account o))) o.
Definition obj_setCode (codeHash : Hash) (code : code_t) o : stateObject :=
  mkObject (mkAccount (acc_Nonce (so_account o)) (acc_Balance (so_account o)) codeHash)
    code (so_originStorage o) (so_dirtyStorage o) (so_overrideStorage o)
    (so_address o) true (so_selfDestructed o) (so_newContract o).
Definition obj_setState (key value : Hash) o : stateObject :=
  mkObject (so_account o) (so_code o) (so_originStorage o) (<[key:=value]> (so_dirtyStorage o))
    (so_overrideStorage o) (so_address o) (so_dirtyCode o) (so_selfDestructed o) (so_newContract o).
Definition obj_SetStorage (storage : Storage) o : stateObject :=
  mkObject (so_account o) (so_code o) ∅ ∅ (Some storage)
    (so_address o) (so_dirtyCode o) (so_selfDestructed o) (so_newContract o).
Definition obj_setFlags (selfDestructed newContract : bool) o : stateObject :=
  mkObject (so_account o) (so_code o) (so_originStorage o) (so_dirtyStorage o)
    (so_overrideStorage o) (so_address o) (so_dirtyCode o) selfDestructed newContract.
Definition markSelfDestructed o : stateObject := obj_setFlags true (so_newContract o) o.
(** The two caches that reading fills. *)
Definition obj_cacheCode (code : code_t) o : stateObject :=
  mkObject (so_account o) code (so_originStorage o) (so_dirtyStorage o)
    (so_overrideStorage o) (so_address o) (so_dirtyCode o) (so_selfDestructed o) (so_newContract o).
Definition obj_cacheOrigin (key value : Hash) o : stateObject :=
  mkObject (so_account o) (so_code o) (<[key:=value]> (so_originStorage o)) (so_dirtyStorage o)
    (so_overrideStorage o) (so_address o) (so_dirtyCode o) (so_selfDestructed o) (so_newContract o).
Definition obj_Balance o : Z := acc_Balance (so_account o).
Definition obj_Nonce o : Z := acc_Nonce (so_account o).
Definition obj_CodeHash o : Hash := acc_CodeHash (so_account o).
End ObjectFields.

Section NewObject.
Context `{Crypto}.
Definition newObject (address : Address) (account : option Account) : stateObject :=
  mkObject (default (mkAccount 0 0 EmptyCodeHash) account) None ∅ ∅ None address
    false false false.
Definition obj_empty (o : stateObject) : bool :=
  (obj_Nonce o =? 0) && (obj_Balance o =? 0) && IsEmptyCodeHash (obj_CodeHash o).
End NewObject.

(** ** The journal *)

Record Log := mkLog { log_content : string; log_TxIndex : Z; log_Index : Z }.

Inductive JournalEntry (Ev : Type) :=
| createObjectChange (account : Address)
| resetObjectChange (prev : stateObject)
| selfDestructChange (account : Address) (prev : bool) (prevbalance : Z)
| balanceChange (account : Address) (prev : Z)
| nonceChange (account : Address) (prev : Z)
| storageChange (account : Address) (key prevalue : Hash)
| transientStorageChange (account : Address) (key prevalue : Hash)
| codeChange (account : Address) (prevcode : code_t) (prevhash : Hash)
| refundChange (prev : Z)
| addLogChange
| accessListAddAccountChange (address : Address)
| accessListAddSlotChange (address : Address) (slot : Hash)
| precompileCallChange (snapshot : Z) (prevEvents : list Ev) (prevProcessedEventCount : Z)
| createContractChange (account : Address).
Arguments createObjectChange {Ev}.
Arguments resetObjectChange {Ev}.
Arguments selfDestructChange {Ev}.
Arguments balanceChange {Ev}.
Arguments nonceChange {Ev}.
Arguments storageChange {Ev}.
Arguments transientStorageChange {Ev}.
Arguments codeChange {Ev}.
Arguments refundChange {Ev}.
Arguments addLogChange {Ev}.
Arguments accessListAddAccountChange {Ev}.
Arguments accessListAddSlotChange {Ev}.
Arguments precompileCallChange {Ev}.
Arguments createContractChange {Ev}.

(** [Dirtied]. *)
Definition Dirtied {Ev} (e : JournalEntry Ev) : option Address :=
  match e with
  | createObjectChange a | selfDestructChange a _ _ | balanceChange a _ | nonceChange a _
  | storageChange a _ _ | codeChange a _ _ => Some a
  | resetObjectChange _ | transientStorageChange _ _ _ | refundChange _ | addLogChange
  | accessListAddAccountChange _ | accessListAddSlotChange _ _
  | precompileCallChange _ _ _ | createContractChange _ => None
  end.

Record journal (Ev : Type) := mkJournal {
  j_entries : list (JournalEntry Ev);
  j_dirties : gmap Address Z;
}.
Arguments mkJournal {Ev}.
Arguments j_entries {Ev}.
Arguments j_dirties {Ev}.

Definition newJournal {Ev} : journal Ev := mkJournal [] ∅.
Definition sortedDirties {Ev} (j : journal Ev) : list Address := sorted_keys (j_dirties j).
Definition journal_append {Ev} (e : JournalEntry Ev) (j : journal Ev) : journal Ev :=
  mkJournal (j_entries j ++ [e])
    match Dirtied e with
    | Some a => <[a := default 0 (j_dirties j !! a) + 1]> (j_dirties j)
    | None => j_dirties j
    end.
(** The dirty tracking of one reverted entry. *)
Definition undirty {Ev} (e : JournalEntry Ev) (d : gmap Address Z) : gmap Address Z :=
  match Dirtied e with
  | Some a => let n := default 0 (d !! a) - 1 in if n =? 0 then delete a d else <[a:=n]> d
  | None => d
  end.

Record revision := mkRevision { rev_id : Z; rev_journalIndex : nat }.

(** [writeCache] is nil exactly when [sdb_cache] is [None]. *)
Record StateDB (K C Ev : Type) := mkStateDB {
  sdb_ctx : sdkContext K Ev;
  sdb_cache : option (sdkContext C Ev);
  sdb_transientStorage : transientStorage;
  sdb_journal : journal Ev;
  sdb_validRevisions : list revision;
  sdb_nextRevisionID : Z;
  sdb_stateObjects : gmap Address stateObject;
  sdb_txIndex : Z;
  sdb_refund : Z;
  sdb_logs : list Log;
  sdb_accessList : accessList;
  sdb_precompileCallsCounter : Z;
  sdb_processedEventsCount : Z;
}.
Arguments mkStateDB {K C Ev}.
Arguments sdb_ctx {K C Ev}.
Arguments sdb_cache {K C Ev}.
Arguments sdb_transientStorage {K C Ev}.
Arguments sdb_journal {K C Ev}.
Arguments sdb_validRevisions {K C Ev}.
Arguments sdb_nextRevisionID {K C Ev}.
Arguments sdb_stateObjects {K C Ev}.
Arguments sdb_txIndex {K C Ev}.
Arguments sdb_refund {K C Ev}.
Arguments sdb_logs {K C Ev}.
Arguments sdb_accessList {K C Ev}.
Arguments sdb_precompileCallsCounter {K C Ev}.
Arguments sdb_processedEventsCount {K C Ev}.

(** Field updates. *)
Section Fields.
Context {K C Ev : Type}.
Implicit Types s : StateDB K C Ev.
Definition set_ctx (v : sdkContext K Ev) s : StateDB K C Ev :=
  mkStateDB v (sdb_cache s) (sdb_transientStorage s) (sdb_journal s) (sdb_validRevisions s)
    (sdb_nextRevisionID s) (sdb_stateObjects s) (sdb_txIndex s) (sdb_refund s) (sdb_logs s)
    (sdb_accessList s) (sdb_precompileCallsCounter s) (sdb_processedEventsCount s).
Definition set_cache (v : option (sdkContext C Ev)) s : StateDB K C Ev :=
  mkStateDB (sdb_ctx s) v (sdb_transientStorage s) (sdb_journal s) (sdb_validRevisions s)
    (sdb_nextRevisionID s) (sdb_stateObjects s) (sdb_txIndex s) (sdb_refund s) (sdb_logs s)
    (sdb_accessList s) (sdb_precompileCallsCounter s) (sdb_processedEventsCount s).
Definition set_transientStorage (v : transientStorage) s : StateDB K C Ev :=
  mkStateDB (sdb_ctx s) (sdb_cache s) v (sdb_journal s) (sdb_validRevisions s)
    (sdb_nextRevisionID s) (sdb_stateObjects s) (sdb_txIndex s) (sdb_refund s) (sdb_logs s)
    (sdb_accessList s) (sdb_precompileCallsCounter s) (sdb_processedEventsCount s).
Definition set_journal (v : journal Ev) s : StateDB K C Ev :=
  mkStateDB (sdb_ctx s) (sdb_cache s) (sdb_transientStorage s) v (sdb_validRevisions s)
    (sdb_nextRevisionID s) (sdb_stateObjects s) (sdb_txIndex s) (sdb_refund s) (sdb_logs s)
    (sdb_accessList s) (sdb_precompileCallsCounter s) (sdb_processedEventsCount s).
Definition set_validRevisions (v : list revision) s : StateDB K C Ev :=
  mkStateDB (sdb_ctx s) (sdb_cache s) (sdb_transientStorage s) (sdb_journal s) v
    (sdb_nextRevisionID s) (sdb_stateObjects s) (sdb_txIndex s) (sdb_refund s) (sdb_logs s)
    (sdb_accessList s) (sdb_precompileCallsCounter s) (sdb_processedEventsCount s).
Definition set_nextRevisionID (v : Z) s : StateDB K C Ev :=
  mkStateDB (sdb_ctx s) (sdb_cache s) (sdb_transientStorage s) (sdb_journal s)
    (sdb_validRevisions s) v (sdb_stateObjects s) (sdb_txIndex s) (sdb_refund s) (sdb_logs s)
    (sdb_accessList s) (sdb_precompileCallsCounter s) (sdb_processedEventsCount s).
Definition set_stateObjects (v : gmap Address stateObject) s : StateDB K C Ev :=
  mkStateDB (sdb_ctx s) (sdb_cache s) (sdb_transientStorage s) (sdb_journal s)
    (sdb_validRevisions s) (sdb_nextRevisionID s) v (sdb_txIndex s) (sdb_refund s) (sdb_logs s)
    (sdb_accessList s) (sdb_precompileCallsCounter s) (sdb_processedEventsCount s).
Definition set_refund (v : Z) s : StateDB K C Ev :=
  mkStateDB (sdb_ctx s) (sdb_cache s) (sdb_transientStorage s) (sdb_journal s)
    (sdb_validRevisions s) (sdb_nextRevisionID s) (sdb_stateObjects s) (sdb_txIndex s) v
    (sdb_logs s) (sdb_accessList s) (sdb_precompileCallsCounter s) (sdb_processedEventsCount s).
Definition set_logs (v : list Log) s : StateDB K C Ev :=
  mkStateDB (sdb_ctx s) (sdb_cache s) (sdb_transientStorage s) (sdb_journal s)
    (sdb_validRevisions s) (sdb_nextRevisionID s) (sdb_stateObjects s) (sdb_txIndex s)
    (sdb_refund s) v (sdb_accessList s) (sdb_precompileCallsCounter s)
    (sdb_processedEventsCount s).
Definition set_accessList (v : accessList) s : StateDB K C Ev :=
  mkStateDB (sdb_ctx s) (sdb_cache s) (sdb_transientStorage s) (sdb_journal s)
    (sdb_validRevisions s) (sdb_nextRevisionID s) (sdb_stateObjects s) (sdb_txIndex s)
    (sdb_refund s) (sdb_logs s) v (sdb_precompileCallsCounter s) (sdb_processedEventsCount s).
Definition set_precompileCallsCounter (v : Z) s : StateDB K C Ev :=
  mkStateDB (sdb_ctx s) (sdb_cache s) (sdb_transientStorage s) (sdb_journal s)
    (sdb_validRevisions s) (sdb_nextRevisionID s) (sdb_stateObjects s) (sdb_txIndex s)
    (sdb_refund s) (sdb_logs s) (sdb_accessList s) v (sdb_processedEventsCount s).
Definition set_processedEventsCount (v : Z) s : StateDB K C Ev :=
  mkStateDB (sdb_ctx s) (sdb_cache s) (sdb_transientStorage s) (sdb_journal s)
    (sdb_validRevisions s) (sdb_nextRevisionID s) (sdb_stateObjects s) (sdb_txIndex s)
    (sdb_refund s) (sdb_logs s) (sdb_accessList s) (sdb_precompileCallsCounter s) v.
End Fields.

(** ** Operations *)

Section Ops.
Context {K C Ev : Type}.
Context `{HCr : Crypto, HK : !Keeper K Ev, HKC : !Keeper C Ev, HS : !Snapshotter C,
          HCC : !CacheContext K C}.

Abbreviation SM := (M (StateDB K C Ev) SdkError).
Implicit Types s : StateDB K C Ev.

Definition New (ctx : sdkContext K Ev) (txIndex : Z) : StateDB K C Ev :=
  mkStateDB ctx None ∅ newJournal [] 0 ∅ txIndex 0 [] newAccessList 0
    (Z.of_nat (length (cx_events ctx))).

Definition append (e : JournalEntry Ev) : SM unit :=
  modify (λ s, set_journal (journal_append e (sdb_journal s)) s).

(** *** Objects *)

Definition setStateObject (object : stateObject) : SM unit :=
  modify (λ s, set_stateObjects (<[so_address object := object]> (sdb_stateObjects s)) s).

(** Mutation of an object through its pointer. *)
Definition update_object (addr : Address) (f : stateObject → stateObject) : SM unit :=
  modify (λ s, set_stateObjects (alter f addr (sdb_stateObjects s)) s).

Definition getStateObject (addr : Address) : SM (option stateObject) :=
  live ← gets (λ s, sdb_stateObjects s !! addr);
  match live with
  | Some obj => mret (Some obj)
  | None =>
      account ← gets (λ s, kp_GetAccount (cx_store (sdb_ctx s)) addr);
      match account with
      | None => mret None
      | Some account =>
          let obj := newObject addr (Some account) in
          setStateObject obj ;; mret (Some obj)
      end
  end.

(** A method call on the object of [addr], which dereferences nil if absent. *)
Definition on_object (addr : Address) (f : stateObject → stateObject) : SM unit :=
  obj ← getStateObject addr;
  match obj with
  | Some _ => update_object addr f
  | None => panic "nil pointer dereference"
  end.

Definition createObject (addr : Address) : SM (stateObject * option stateObject) :=
  prev ← getStateObject addr;
  let newobj := newObject addr None in
  append (match prev with
          | None => createObjectChange addr
          | Some prev => resetObjectChange prev
          end) ;;
  setStateObject newobj ;;
  mret (newobj, prev).

Definition getOrNewStateObject (addr : Address) : SM stateObject :=
  obj ← getStateObject addr;
  match obj with
  | Some obj => mret obj
  | None => '(newobj, _) ← createObject addr; mret newobj
  end.

Definition CreateAccount (addr : Address) : SM unit :=
  '(_, prev) ← createObject addr;
  match prev with
  | Some prev => update_object addr (obj_setBalance (obj_Balance prev))
  | None => mret tt
  end.

Definition CreateContract (address : Address) : SM unit :=
  obj ← getStateObject address;
  match obj with
  | None => panic "nil pointer dereference"
  | Some obj =>
      if negb (so_newContract obj) then
        update_object address (obj_setFlags (so_selfDestructed obj) true) ;;
        append (createContractChange address)
      else mret tt
  end.

(** *** Reading *)

(** [stateObject.Code] for the object of [addr], with its cache. *)
Definition obj_Code (addr : Address) (obj : stateObject) : SM code_t :=
  match so_code obj with
  | Some c => mret (Some c)
  | None =>
      if IsEmptyCodeHash (obj_CodeHash obj) then mret None
      else
        code ← gets (λ s, kp_GetCode (cx_store (sdb_ctx s)) (obj_CodeHash obj));
        update_object addr (obj_cacheCode code) ;; mret code
  end.

Definition obj_GetCommittedState (addr : Address) (obj : stateObject) (key : Hash) : SM Hash :=
  match so_overrideStorage obj with
  | Some st => mret (default 0 (st !! key))
  | None =>
      match so_originStorage obj !! key with
      | Some value => mret value
      | None =>
          value ← gets (λ s, kp_GetState (cx_store (sdb_ctx s)) (so_address obj) key);
          update_object addr (obj_cacheOrigin key value) ;; mret value
      end
  end.

Definition obj_GetState (addr : Address) (obj : stateObject) (key : Hash) : SM Hash :=
  match so_dirtyStorage obj !! key with
  | Some value => mret value
  | None => obj_GetCommittedState addr obj key
  end.

(** The getters share their nil check. *)
Definition read {A} (addr : Address) (absent : A) (f : stateObject → SM A) : SM A :=
  obj ← getStateObject addr;
  match obj with
  | Some obj => f obj
  | None => mret absent
  end.
Definition Exist (addr : Address) : SM bool := read addr false (λ _, mret true).
Definition Empty (addr : Address) : SM bool := read addr true (λ o, mret (obj_empty o)).
Definition GetBalance (addr : Address) : SM Z := read addr 0 (λ o, mret (obj_Balance o)).
Definition GetNonce (addr : Address) : SM Z := read addr 0 (λ o, mret (obj_Nonce o)).
Definition GetCode (addr : Address) : SM code_t := read addr None (obj_Code addr).
Definition GetCodeSize (addr : Address) : SM Z :=
  read addr 0 (λ o, code ← obj_Code addr o;
                    mret (Z.of_nat (String.length (default "" code)))).
Definition GetCodeHash (addr : Address) : SM Hash := read addr 0 (λ o, mret (obj_CodeHash o)).
Definition GetState (addr : Address) (hash : Hash) : SM Hash :=
  read addr 0 (λ o, obj_GetState addr o hash).
Definition GetCommittedState (addr : Address) (hash : Hash) : SM Hash :=
  read addr 0 (λ o, obj_GetCommittedState addr o hash).
Definition GetStateAndCommittedState (addr : Address) (hash : Hash) : SM (Hash * Hash) :=
  read addr (0, 0) (λ o, v ← obj_GetState addr o hash;
                         c ← obj_GetCommittedState addr o hash; mret (v, c)).
Definition HasSelfDestructed (addr : Address) : SM bool :=
  read addr false (λ o, mret (so_selfDestructed o)).
Definition GetRefund : SM Z := gets sdb_refund.
Definition IsStorageEmpty (addr : Address) : SM bool :=
  gets (λ s, bool_decide (kp_ForEachStorage (cx_store (sdb_ctx s)) addr = [])).

(** *** Writing, with the change journaled first *)

Definition obj_SetBalance (addr : Address) (obj : stateObject) (amount : Z) : SM Z :=
  let prev := obj_Balance obj in
  append (balanceChange addr prev) ;;
  update_object addr (obj_setBalance amount) ;; mret prev.
Definition obj_AddBalance (addr : Address) (obj : stateObject) (amount : Z) : SM Z :=
  if amount =? 0 then mret (obj_Balance obj)
  else obj_SetBalance addr obj (u256_add (obj_Balance obj) amount).
Definition obj_SubBalance (addr : Address) (obj : stateObject) (amount : Z) : SM Z :=
  if amount =? 0 then mret (obj_Balance obj)
  else obj_SetBalance addr obj (u256_sub (obj_Balance obj) amount).

Definition AddBalance (addr : Address) (amount : Z) : SM Z :=
  obj ← getOrNewStateObject addr; obj_AddBalance addr obj amount.
Definition SubBalance (addr : Address) (amount : Z) : SM Z :=
  obj ← getOrNewStateObject addr;
  if amount =? 0 then mret (obj_Balance obj) else obj_SubBalance addr obj amount.
Definition SetBalance (addr : Address) (amount : Z) : SM unit :=
  obj ← getOrNewStateObject addr; obj_SetBalance addr obj amount ;; mret tt.

Definition SetNonce (addr : Address) (nonce : Z) : SM unit :=
  obj ← getOrNewStateObject addr;
  append (nonceChange addr (obj_Nonce obj)) ;;
  update_object addr (obj_setNonce nonce).

Definition SetCode (addr : Address) (code : code_t) : SM code_t :=
  obj ← getOrNewStateObject addr;
  let prev := so_code obj in
  prevcode ← obj_Code addr obj;
  append (codeChange addr prevcode (obj_CodeHash obj)) ;;
  update_object addr (obj_setCode (Keccak256Hash (default "" code)) code) ;; mret prev.

Definition obj_SetState (addr : Address) (obj : stateObject) (key value : Hash) : SM Hash :=
  prev ← obj_GetState addr obj key;
  if prev =? value then mret prev
  else append (storageChange addr key prev) ;;
       update_object addr (obj_setState key value) ;; mret prev.
Definition SetState (addr : Address) (key value : Hash) : SM Hash :=
  obj ← getOrNewStateObject addr; obj_SetState addr obj key value.

Definition SetStorage (addr : Address) (storage : Storage) : SM unit :=
  obj ← getOrNewStateObject addr; update_object addr (obj_SetStorage storage).

Definition SelfDestruct (addr : Address) : SM Z :=
  obj ← getStateObject addr;
  match obj with
  | None => mret 0
  | Some obj =>
      let prevBalance := obj_Balance obj in
      append (selfDestructChange addr (so_selfDestructed obj) prevBalance) ;;
      update_object addr (λ o, obj_setBalance 0 (markSelfDestructed o)) ;; mret prevBalance
  end.

Definition SelfDestruct6780 (addr : Address) : SM (Z * bool) :=
  obj ← getStateObject addr;
  match obj with
  | None => mret (0, false)
  | Some obj =>
      if so_newContract obj then b ← SelfDestruct addr; mret (b, true)
      else mret (obj_Balance obj, false)
  end.

Definition AddLog (content : string) : SM unit :=
  append addLogChange ;;
  modify (λ s, set_logs (sdb_logs s ++
    [mkLog content (sdb_txIndex s) (Z.of_nat (length (sdb_logs s)))]) s).

Definition AddRefund (gas : Z) : SM unit :=
  prev ← gets sdb_refund; append (refundChange prev) ;;
  modify (λ s, set_refund (u64_add (sdb_refund s) gas) s).

Definition SubRefund (gas : Z) : SM unit :=
  prev ← gets sdb_refund; append (refundChange prev) ;;
  if gas >? prev then panic "Refund counter below zero"
  else modify (λ s, set_refund (sdb_refund s - gas) s).

Definition setTransientState (addr : Address) (key value : Hash) : SM unit :=
  modify (λ s, set_transientStorage (ts_Set (sdb_transientStorage s) addr key value) s).
Definition GetTransientState (addr : Address) (key : Hash) : SM Hash :=
  gets (λ s, ts_Get (sdb_transientStorage s) addr key).
Definition SetTransientState (addr : Address) (key value : Hash) : SM unit :=
  prev ← GetTransientState addr key;
  if prev =? value then mret tt
  else append (transientStorageChange addr key prev) ;; setTransientState addr key value.

(** *** Access list *)

Definition set_al (al : accessList) : SM unit := modify (set_accessList al).
Definition AddAddressToAccessList (addr : Address) : SM unit :=
  al ← gets sdb_accessList;
  let '(al', added) := AddAddress al addr in
  set_al al' ;;
  (if added : bool then append (accessListAddAccountChange addr) else mret tt).

Definition AddSlotToAccessList (addr : Address) (slot : Hash) : SM unit :=
  al ← gets sdb_accessList;
  match AddSlot al addr slot with
  | None => panic "index out of range"
  | Some (al', (addrMod, slotMod)) =>
      set_al al' ;;
      (if addrMod : bool then append (accessListAddAccountChange addr) else mret tt) ;;
      (if slotMod : bool then append (accessListAddSlotChange addr slot) else mret tt)
  end.

Definition AddressInAccessList (addr : Address) : SM bool :=
  gets (λ s, ContainsAddress (sdb_accessList s) addr).
Definition SlotInAccessList (addr : Address) (slot : Hash) : SM (bool * bool) :=
  al ← gets sdb_accessList;
  match Contains al addr slot with
  | Some r => mret r
  | None => panic "index out of range"
  end.

(** The fork rules [Prepare] looks at. *)
Record Rules := mkRules { IsEIP2929 : bool; IsEIP4762 : bool; IsShanghai : bool }.

(** One tuple of the transaction's access list. *)
Definition add_tuple (al : accessList) (el : Address * list Hash) : option accessList :=
  foldl (λ acc key, al ← acc; r ← AddSlot al el.1 key; Some r.1)
    (Some (AddAddress al el.1).1) el.2.

(** The access list that [Prepare] installs. *)
Definition prepared_list (rules : Rules) (sender coinbase : Address) (dst : option Address)
    (precompiles : list Address) (list : list (Address * list Hash)) : option accessList :=
  let al := (AddAddress newAccessList sender).1 in
  let al := match dst with Some d => (AddAddress al d).1 | None => al end in
  let al := foldl (λ al a, (AddAddress al a).1) al precompiles in
  al ← foldl (λ acc el, al ← acc; add_tuple al el) (Some al) list;
  Some (if IsShanghai rules then (AddAddress al coinbase).1 else al).

Definition Prepare (rules : Rules) (sender coinbase : Address) (dst : option Address)
    (precompiles : list Address) (list : list (Address * list Hash)) : SM unit :=
  if IsEIP2929 rules && IsEIP4762 rules then panic "eip2929 and eip4762 are both activated"
  else
    (if IsEIP2929 rules then
       match prepared_list rules sender coinbase dst precompiles list with
       | Some al => set_al al
       | None => panic "index out of range"
       end
     else mret tt) ;;
    modify (set_transientStorage ∅).

(** *** The cache context of precompile calls *)

Definition cache : SM unit :=
  modify (λ s, set_cache (Some (mkCtx (cc_new (cx_store (sdb_ctx s))) [])) s).
Definition GetCacheContext : SM (sdkContext C Ev) :=
  cur ← gets sdb_cache;
  (match cur with None => cache | Some _ => mret tt end) ;;
  cur' ← gets sdb_cache;
  match cur' with
  | Some c => mret c
  | None => panic "nil pointer dereference"
  end.

(** A method call on the cache context, which does not exist before [cache]. *)
Definition on_cache {A} (m : M (sdkContext C Ev) SdkError A) : SM A := λ s,
  match sdb_cache s with
  | None => (s, Panic "nil pointer dereference")
  | Some c => let '(c', r) := m c in (set_cache (Some c') s, r)
  end.

Definition MultiStoreSnapshot : SM Z :=
  on_cache (λ c, let '(id, st) := sn_Snapshot (cx_store c) in (mkCtx st (cx_events c), Ok id)).
Definition RevertMultiStore (snapshot : Z) : SM unit :=
  on_cache (λ c, match sn_RevertToSnapshot snapshot (cx_store c) with
                 | Some st => (mkCtx st (cx_events c), Ok tt)
                 | None => (c, Panic "snapshot index out of bound")
                 end).

(** [types.MaxPrecompileCalls]. *)
Definition MaxPrecompileCalls : Z := 20.
Definition AddPrecompileFn (snapshot : Z) : SM unit :=
  prevEvents ← on_cache (gets cx_events);
  count ← gets sdb_processedEventsCount;
  append (precompileCallChange snapshot prevEvents count) ;;
  modify (λ s, set_precompileCallsCounter (u8_add (sdb_precompileCallsCounter s) 1) s) ;;
  n ← gets sdb_precompileCallsCounter;
  if n >? MaxPrecompileCalls then throw (ErrPlain "max calls to precompiles reached")
  else mret tt.

Definition MarkEventProcessed (idx : Z) : SM unit :=
  n ← gets sdb_processedEventsCount;
  if negb (idx =? n) then panic "balance events must be processed sequentially"
  else modify (λ s, set_processedEventsCount (sdb_processedEventsCount s + 1) s).
Definition IsEventProcessed (idx : Z) : SM bool :=
  gets (λ s, idx <? sdb_processedEventsCount s).

(** *** Revert *)

(** [JournalEntry.Revert], by entry. *)
Definition entry_Revert (e : JournalEntry Ev) : SM unit :=
  match e with
  | createContractChange a => on_object a (λ o, obj_setFlags (so_selfDestructed o) false o)
  | precompileCallChange snapshot prevEvents count =>
      RevertMultiStore snapshot ;;
      on_cache (modify (λ c, mkCtx (cx_store c) prevEvents)) ;;
      modify (set_processedEventsCount count)
  | createObjectChange a =>
      modify (λ s, set_stateObjects (delete a (sdb_stateObjects s)) s)
  | resetObjectChange prev => setStateObject prev
  | selfDestructChange a prev prevbalance =>
      obj ← getStateObject a;
      match obj with
      | Some _ => update_object a (λ o, obj_setBalance prevbalance
                                          (obj_setFlags prev (so_newContract o) o))
      | None => mret tt
      end
  | balanceChange a prev => on_object a (obj_setBalance prev)
  | nonceChange a prev => on_object a (obj_setNonce prev)
  | codeChange a prevcode prevhash => on_object a (obj_setCode prevhash prevcode)
  | storageChange a key prevalue => on_object a (obj_setState key prevalue)
  | transientStorageChange a key prevalue => setTransientState a key prevalue
  | refundChange prev => modify (set_refund prev)
  | addLogChange =>
      logs ← gets sdb_logs;
      match logs with
      | [] => panic "slice bounds out of range"
      | _ => modify (set_logs (take (length logs - 1) logs))
      end
  | accessListAddAccountChange a => modify (λ s, set_accessList (DeleteAddress (sdb_accessList s) a) s)
  | accessListAddSlotChange a slot =>
      al ← gets sdb_accessList;
      match DeleteSlot al a slot with
      | Some al' => set_al al'
      | None => panic "reverting slot change, address not present in list"
      end
  end.

(** One round of the loop of [journal.Revert]. *)
Definition revert_entry (e : JournalEntry Ev) : SM unit :=
  entry_Revert e ;;
  modify (λ s, set_journal (mkJournal (j_entries (sdb_journal s))
                              (undirty e (j_dirties (sdb_journal s)))) s).

Definition journal_Revert (snapshot : nat) : SM unit :=
  entries ← gets (λ s, j_entries (sdb_journal s));
  for_each (reverse (drop snapshot entries)) revert_entry ;;
  modify (λ s, set_journal (mkJournal (take snapshot entries) (j_dirties (sdb_journal s))) s).

Definition Snapshot : SM Z :=
  id ← gets sdb_nextRevisionID;
  modify (λ s, set_nextRevisionID (id + 1) s) ;;
  modify (λ s, set_validRevisions
                 (sdb_validRevisions s ++ [mkRevision id (length (j_entries (sdb_journal s)))]) s) ;;
  mret id.

Definition RevertToSnapshot (revid : Z) : SM unit :=
  revs ← gets sdb_validRevisions;
  let idx := Search (length revs) (λ i, match revs !! i with
                                        | Some r => rev_id r >=? revid
                                        | None => false
                                        end) in
  match revs !! idx with
  | None => panic "revision id cannot be reverted"
  | Some r =>
      if negb (rev_id r =? revid) then panic "revision id cannot be reverted"
      else
        journal_Revert (rev_journalIndex r) ;;
        modify (λ s, set_validRevisions (take idx revs) s)
  end.

(** *** Commit *)

Section CommitTo.
Context {S : Type} `{HKS : !Keeper S Ev}.
Abbreviation CM := (M (sdkContext S Ev) SdkError).
Definition on_store (f : S → S) : CM unit := modify (λ c, mkCtx (f (cx_store c)) (cx_events c)).

(** A storage word is always 32 bytes, so the [len(valueBytes) == 0] branch that
    deletes the entry is never taken. *)
Definition valueBytes_len (value : Hash) : Z := 32.
Definition commit_slot (obj : stateObject) (key : Hash) : CM unit :=
  let value := default 0 (so_dirtyStorage obj !! key) in
  if valueBytes_len value =? 0 then on_store (kp_DeleteState (so_address obj) key)
  else on_store (kp_SetState (so_address obj) key value).

Definition code_len (c : code_t) : Z := Z.of_nat (String.length (default "" c)).

Definition commit_object (obj : stateObject) : CM unit :=
  let addr := so_address obj in
  if so_selfDestructed obj then
    (match so_code obj with
     | Some code =>
         if so_dirtyCode obj && (0 <? code_len (Some code)) then
           on_store (kp_SetCode (obj_CodeHash obj) code) ;;
           kp_SetAccount addr (so_account obj)
         else mret tt
     | None => mret tt
     end) ;;
    kp_DeleteAccount addr
  else
    (match so_code obj with
     | Some code =>
         if so_dirtyCode obj then
           if code_len (Some code) =? 0 then on_store (kp_DeleteCode (obj_CodeHash obj))
           else on_store (kp_SetCode (obj_CodeHash obj) code)
         else mret tt
     | None => mret tt
     end) ;;
    kp_SetAccount addr (so_account obj) ;;
    for_each (sorted_keys (so_dirtyStorage obj)) (commit_slot obj).

(** [commitWithCtx] for the objects and dirty addresses of a state database. *)
Definition commit_all (objects : gmap Address stateObject) (dirties : list Address) : CM unit :=
  for_each dirties (λ addr,
    match objects !! addr with
    | None => panic "nil pointer dereference"
    | Some obj => commit_object obj
    end).
End CommitTo.

Definition commit_to_ctx : SM unit := λ s,
  let '(c', r) := commit_all (sdb_stateObjects s) (sortedDirties (sdb_journal s)) (sdb_ctx s) in
  (set_ctx c' s, r).
Definition commit_to_cache : SM unit := λ s,
  on_cache (commit_all (sdb_stateObjects s) (sortedDirties (sdb_journal s))) s.

Definition FlushToCacheCtx : SM unit :=
  commit_to_cache ;;
  n ← on_cache (gets (λ c, Z.of_nat (length (cx_events c))));
  modify (set_processedEventsCount n).

Definition writeCache (c : sdkContext C Ev) : SM unit :=
  modify (λ s, set_ctx (mkCtx (cc_write (cx_store c) (cx_store (sdb_ctx s)))
                              (cx_events (sdb_ctx s) ++ cx_events c)) s).
Definition Commit : SM unit :=
  c ← gets sdb_cache;
  (match c with Some c => writeCache c | None => mret tt end) ;;
  commit_to_ctx.

Definition finalised (s : StateDB K C Ev) (deleteEmptyObjects : bool) (addr : Address)
    (obj : stateObject) : bool :=
  bool_decide (is_Some (j_dirties (sdb_journal s) !! addr))
  && (so_selfDestructed obj || (deleteEmptyObjects && obj_empty obj)).
Definition Finalise (deleteEmptyObjects : bool) : SM unit :=
  modify (λ s, set_stateObjects
    (filter (λ kv, finalised s deleteEmptyObjects kv.1 kv.2 = false) (sdb_stateObjects s)) s).

(** The pairs [ForEachStorage] passes to its callback, in order, before the
    callback stops it. *)
Definition ForEachStorage (addr : Address) : SM (list (Hash * Hash)) :=
  read addr [] (λ o,
    gets (λ s, (λ kv, match so_dirtyStorage o !! kv.1 with
                      | Some v => (kv.1, v)
                      | None => kv
                      end) <$> kp_ForEachStorage (cx_store (sdb_ctx s)) addr)).

(** *** Precompile calls *)

(** How every native action starts: snapshot of the multi store, journal entry,
    flush of the dirty state to the cache context. *)
Definition begin_call : SM unit :=
  GetCacheContext ;;
  snapshot ← MultiStoreSnapshot;
  AddPrecompileFn snapshot ;;
  FlushToCacheCtx.
(** Then the action runs on the cache context. *)
Definition native_call (action : M (sdkContext C Ev) SdkError unit) : SM unit :=
  begin_call ;; on_cache action.
End Ops.

#[global] Arguments StateDB : clear implicits.
