(* ===== verification/StateDBRevert.v ===== *)
(** Reverting to a snapshot restores the state.

    [restored] compares what the getters, the journal's dirty set and the cache
    context can observe: it ignores the caches that reading fills
    ([originStorage], the loaded code, objects loaded from the keeper), the
    [dirtyCode] flag, and whether the cache context was created already.  Every
    operation is [reversible]: the entries it appends to the journal, reverted in
    reverse order, lead back to an equivalent state. *)
From S2P Require Import Prelude GoStd AccessList Sdk StateDB.

(** The invariant of the store of the cache context. *)
Class CacheInv (C : Type) := cache_inv : C → Prop.

(** What the state database needs of the store of the cache context: a snapshot
    is undone whatever was written ([W]) to the current store in between. *)
Class SnapshotterLaws (C : Type) `{Snapshotter C, CacheInv C} (W : C → C → Prop) : Prop := {
  sn_writes_preorder : PreOrder W;
  sn_inv_snapshot c : cache_inv c → cache_inv (sn_Snapshot c).2;
  sn_inv_writes c c' : W c c' → cache_inv c → cache_inv c';
  sn_restore c id c1 c2 : cache_inv c →
    sn_Snapshot c = (id, c1) → W c1 c2 → sn_RevertToSnapshot id c2 = Some c;
}.
#[global] Existing Instance sn_writes_preorder.

(** The keeper writes to a store through its current layer only. *)
Class KeeperWrites (C Ev : Type) `{Keeper C Ev} (W : C → C → Prop) : Prop := {
  kw_SetAccount a acc c c' r :
    kp_SetAccount a acc c = (c', r) → W (cx_store c) (cx_store c');
  kw_DeleteAccount a c c' r :
    kp_DeleteAccount a c = (c', r) → W (cx_store c) (cx_store c');
  kw_DeleteState a k c : W c (kp_DeleteState a k c);
  kw_SetState a k v c : W c (kp_SetState a k v c);
  kw_DeleteCode h c : W c (kp_DeleteCode h c);
  kw_SetCode h code c : W c (kp_SetCode h code c);
}.

Section Views.
Context {K C Ev : Type}.
Context `{HCr : Crypto, HK : !Keeper K Ev, HKC : !Keeper C Ev, HS : !Snapshotter C,
          HCC : !CacheContext K C, HI : !CacheInv C}.
Implicit Types (s : StateDB K C Ev) (o : stateObject).

(** ** What can be observed *)

Definition code_view (k : K) o : code_t :=
  match so_code o with
  | Some c => Some c
  | None => if IsEmptyCodeHash (obj_CodeHash o) then None else kp_GetCode k (obj_CodeHash o)
  end.
Definition committed_view (k : K) o (key : Hash) : Hash :=
  match so_overrideStorage o with
  | Some st => default 0 (st !! key)
  | None => match so_originStorage o !! key with
            | Some v => v
            | None => kp_GetState k (so_address o) key
            end
  end.
Definition state_view (k : K) o (key : Hash) : Hash :=
  match so_dirtyStorage o !! key with
  | Some v => v
  | None => committed_view k o key
  end.

Record obj_eq (k : K) o1 o2 : Prop := {
  oe_account : so_account o1 = so_account o2;
  oe_address : so_address o1 = so_address o2;
  oe_selfDestructed : so_selfDestructed o1 = so_selfDestructed o2;
  oe_newContract : so_newContract o1 = so_newContract o2;
  oe_code : code_view k o1 = code_view k o2;
  oe_committed key : committed_view k o1 key = committed_view k o2 key;
  oe_state key : state_view k o1 key = state_view k o2 key;
}.

#[global] Instance obj_eq_equivalence k : Equivalence (obj_eq k).
Proof.
  split.
  - by intros o.
  - intros o1 o2 []. by split.
  - intros o1 o2 o3 [] []. split; try congruence; intros key; etransitivity; eauto.
Qed.

(** The store behind the context. *)
Definition kstore s : K := cx_store (sdb_ctx s).

(** The object of an address: the live one, or what the keeper would load. *)
Definition obj_of s (a : Address) : option stateObject :=
  match sdb_stateObjects s !! a with
  | Some o => Some o
  | None => (λ acc, newObject a (Some acc)) <$> kp_GetAccount (kstore s) a
  end.

Definition cache_view s : sdkContext C Ev :=
  default (mkCtx (cc_new (kstore s)) []) (sdb_cache s).

(** [s2] is observed as [s1] is. *)
Record restored s1 s2 : Prop := {
  rs_ctx : sdb_ctx s2 = sdb_ctx s1;
  rs_cache : cache_view s2 = cache_view s1;
  rs_has_cache : is_Some (sdb_cache s1) → is_Some (sdb_cache s2);
  rs_transient a key :
    ts_Get (sdb_transientStorage s2) a key = ts_Get (sdb_transientStorage s1) a key;
  rs_dirties : j_dirties (sdb_journal s2) = j_dirties (sdb_journal s1);
  rs_objects a : option_Forall2 (obj_eq (kstore s1)) (obj_of s1 a) (obj_of s2 a);
  rs_refund : sdb_refund s2 = sdb_refund s1;
  rs_logs : sdb_logs s2 = sdb_logs s1;
  rs_accessList : sdb_accessList s2 = sdb_accessList s1;
  rs_processed : sdb_processedEventsCount s2 = sdb_processedEventsCount s1;
  rs_txIndex : sdb_txIndex s2 = sdb_txIndex s1;
}.

#[global] Instance restored_preorder : PreOrder restored.
Proof.
  split.
  - intros s. by split.
  - intros s1 s2 s3 [] []. split; try congruence; [auto|].
    intros a. etransitivity; [apply rs_objects0|].
    unfold kstore. rewrite <- rs_ctx0. apply rs_objects1.
Qed.

(** ** Invariant *)

(** Live objects are stored under their own address. *)
Definition keyed s : Prop := ∀ a o, sdb_stateObjects s !! a = Some o → so_address o = a.

Record sdb_wf s : Prop := {
  wf_keyed : keyed s;
  wf_accessList : al_ok (sdb_accessList s);
  wf_dirties a n : j_dirties (sdb_journal s) !! a = Some n → 0 < n;
  wf_cache : cache_inv (cx_store (cache_view s));
}.

(** Storing an object under its address. *)
Definition put (a : Address) o s : StateDB K C Ev :=
  set_stateObjects (<[a:=o]> (sdb_stateObjects s)) s.
Definition add_entry (e : JournalEntry Ev) s : StateDB K C Ev :=
  set_journal (journal_append e (sdb_journal s)) s.

Lemma obj_of_put a o s b : obj_of (put a o s) b = if decide (a = b) then Some o else obj_of s b.
Proof.
  unfold obj_of, put. simpl. rewrite lookup_insert. by case_decide.
Qed.

Lemma put_put a o1 o2 s : put a o1 (put a o2 s) = put a o1 s.
Proof. unfold put. destruct s. simpl. unfold set_stateObjects. simpl. by rewrite insert_insert_eq. Qed.

Lemma obj_of_address s a o : sdb_wf s → obj_of s a = Some o → so_address o = a.
Proof.
  intros Hwf. unfold obj_of. destruct (sdb_stateObjects s !! a) eqn:Ha.
  - intros [= <-]. by eapply wf_keyed.
  - destruct (kp_GetAccount _ _); [|done]. by intros [= <-].
Qed.

Lemma put_wf a o s : sdb_wf s → so_address o = a → sdb_wf (put a o s).
Proof.
  intros [Hk Ha Hd] Ho. split; [|done..]. intros b o' Hb. simpl in Hb.
  apply lookup_insert_Some in Hb as [[<- <-]|[_ Hb]]; [done|by apply Hk].
Qed.

(** ** Running the primitives *)

Lemma getStateObject_some s a o :
  obj_of s a = Some o → getStateObject a s = (put a o s, Ok (Some o)).
Proof.
  unfold obj_of, getStateObject, put. run_M.
  destruct (sdb_stateObjects s !! a) as [o'|] eqn:Ha.
  - intros [= <-]. rewrite insert_id by done. by destruct s.
  - unfold kstore. destruct (kp_GetAccount _ _); [|done]. by intros [= <-].
Qed.

Lemma getStateObject_none s a : obj_of s a = None → getStateObject a s = (s, Ok None).
Proof.
  unfold obj_of, getStateObject. run_M.
  destruct (sdb_stateObjects s !! a) as [o'|] eqn:Ha; [done|].
  unfold kstore. by destruct (kp_GetAccount _ _).
Qed.

Lemma update_object_put s a o f : update_object a f (put a o s) = (put a (f o) s, Ok tt).
Proof.
  unfold update_object, put, modify. simpl. rewrite alter_insert_eq.
  by destruct s.
Qed.

Lemma update_object_entry e s a o f :
  update_object a f (add_entry e (put a o s)) = (add_entry e (put a (f o) s), Ok tt).
Proof.
  unfold update_object, put, add_entry, modify. simpl. rewrite alter_insert_eq.
  by destruct s.
Qed.

Lemma on_object_some s a o f :
  obj_of s a = Some o → on_object a f s = (put a (f o) s, Ok tt).
Proof.
  intros Ho. unfold on_object, mbind, M_bind. rewrite (getStateObject_some _ _ _ Ho).
  apply update_object_put.
Qed.

Lemma append_eq e s : append e s = (add_entry e s, Ok tt).
Proof. done. Qed.

(** ** Reverting respects what can be observed *)

Definition respects (f : stateObject → stateObject) : Prop :=
  ∀ k o1 o2, obj_eq k o1 o2 → obj_eq k (f o1) (f o2).

Ltac view := unfold code_view, state_view, committed_view in *; simpl in *.

Lemma respects_setBalance v : respects (obj_setBalance v).
Proof. intros k o1 o2 []. split; view; try done. by rewrite oe_account0. Qed.
Lemma respects_setNonce v : respects (obj_setNonce v).
Proof. intros k o1 o2 []. split; view; try done. by rewrite oe_account0. Qed.
Lemma respects_setCode h c : respects (obj_setCode h c).
Proof. intros k o1 o2 []. split; view; try done. by rewrite oe_account0. Qed.
Lemma respects_setState key v : respects (obj_setState key v).
Proof.
  intros k o1 o2 []. split; view; try done.
  intros key'. rewrite !lookup_insert. case_decide; [done|]. apply oe_state0.
Qed.
Lemma respects_notNew : respects (λ o, obj_setFlags (so_selfDestructed o) false o).
Proof. intros k o1 o2 []. split; view; try done. Qed.
Lemma respects_undestroy b v :
  respects (λ o, obj_setBalance v (obj_setFlags b (so_newContract o) o)).
Proof. intros k o1 o2 []. split; view; try done. by rewrite oe_account0. Qed.

Lemma restored_put s1 s2 a o1 o2 :
  restored s1 s2 → obj_eq (kstore s1) o1 o2 → restored (put a o1 s1) (put a o2 s2).
Proof.
  intros [] Ho. split; try done.
  intros b. rewrite !obj_of_put. case_decide; [by constructor|done].
Qed.

Lemma restored_obj s1 s2 a o1 :
  restored s1 s2 → obj_of s1 a = Some o1 → ∃ o2, obj_of s2 a = Some o2 ∧ obj_eq (kstore s1) o1 o2.
Proof.
  intros Hr Ho. destruct (rs_objects _ _ Hr a) as [x y Hxy|]; simplify_eq. eauto.
Qed.

Lemma restored_no_obj s1 s2 a : restored s1 s2 → obj_of s1 a = None → obj_of s2 a = None.
Proof. intros Hr Ho. by destruct (rs_objects _ _ Hr a). Qed.

Lemma on_object_restored s1 s2 s1' a f :
  respects f → restored s1 s2 → on_object a f s1 = (s1', Ok tt) →
  ∃ s2', on_object a f s2 = (s2', Ok tt) ∧ restored s1' s2'.
Proof.
  intros Hf Hr Hrun. destruct (obj_of s1 a) as [o1|] eqn:Ho.
  - rewrite (on_object_some _ _ _ _ Ho) in Hrun. simplify_eq.
    destruct (restored_obj _ _ _ _ Hr Ho) as (o2 & Ho2 & Heq).
    eexists. split; [by apply on_object_some|]. apply restored_put; auto.
  - unfold on_object, mbind, M_bind in Hrun.
    rewrite (getStateObject_none _ _ Ho) in Hrun. done.
Qed.

(** Restoring a field in both states. *)
Ltac same_field Hr := eexists; split; [done|]; destruct Hr; split; done.

Lemma cache_restored s1 s2 c1 :
  restored s1 s2 → sdb_cache s1 = Some c1 → sdb_cache s2 = Some c1.
Proof.
  intros Hr Hc. pose proof (rs_has_cache _ _ Hr ltac:(by eexists)) as [c2 Hc2].
  pose proof (rs_cache _ _ Hr) as Hv. unfold cache_view in Hv. rewrite Hc, Hc2 in Hv.
  simpl in Hv. congruence.
Qed.

Lemma entry_Revert_restored e s1 s2 s1' :
  restored s1 s2 → entry_Revert e s1 = (s1', Ok tt) →
  ∃ s2', entry_Revert e s2 = (s2', Ok tt) ∧ restored s1' s2'.
Proof.
  intros Hr. destruct e; simpl.
  - (* createObject *) intros [= <-]. eexists. split; [done|]. destruct Hr. split; try done.
    intros b. specialize (rs_objects0 b). unfold obj_of in *. simpl.
    destruct (decide (account = b)) as [->|]; [|by rewrite !lookup_delete_ne].
    rewrite !lookup_delete_eq. unfold kstore. simpl. rewrite rs_ctx0.
    destruct (kp_GetAccount _ _); by constructor.
  - (* resetObject *) intros [= <-]. eexists. split; [done|].
    by apply (restored_put s1 s2 (so_address prev) prev prev).
  - (* selfDestruct *) unfold mbind, M_bind. destruct (obj_of s1 account) as [o1|] eqn:Ho.
    + destruct (restored_obj _ _ _ _ Hr Ho) as (o2 & Ho2 & Heq).
      rewrite (getStateObject_some _ _ _ Ho), (getStateObject_some _ _ _ Ho2).
      rewrite !update_object_put. intros [= <-]. eexists. split; [done|].
      apply restored_put; [done|]. by apply respects_undestroy.
    + rewrite (getStateObject_none _ _ Ho), (getStateObject_none s2 account)
        by by eapply restored_no_obj. intros [= <-]. by eexists.
  - apply on_object_restored; [apply respects_setBalance|done].
  - apply on_object_restored; [apply respects_setNonce|done].
  - apply on_object_restored; [apply respects_setState|done].
  - (* transient *) intros [= <-]. eexists. split; [done|]. destruct Hr. split; try done.
    intros b j. simpl. rewrite !ts_Get_Set. by case_decide.
  - apply on_object_restored; [apply respects_setCode|done].
  - intros [= <-]. same_field Hr.
  - run_M. rewrite <- (rs_logs _ _ Hr). destruct (sdb_logs s2); [done|]. intros [= <-]. same_field Hr.
  - intros [= <-]. eexists. split; [done|]. destruct Hr. split; try done. simpl. by rewrite rs_accessList0.
  - run_M. rewrite <- (rs_accessList _ _ Hr). destruct (DeleteSlot _ _ _); [|done].
    intros [= <-]. same_field Hr.
  - unfold RevertMultiStore, on_cache. run_M. destruct (sdb_cache s1) as [c|] eqn:Hc; [|done].
    rewrite (cache_restored _ _ _ Hr Hc).
    destruct (sn_RevertToSnapshot snapshot (cx_store c)) as [st|]; [|done]. simpl.
    intros [= <-]. same_field Hr.
  - apply on_object_restored; [apply respects_notNew|done].
Qed.

(** ** Reverting the journal *)

(** What reverting an entry leaves alone. *)
Definition frame s s' : Prop :=
  j_entries (sdb_journal s') = j_entries (sdb_journal s) ∧
  sdb_validRevisions s' = sdb_validRevisions s ∧
  sdb_nextRevisionID s' = sdb_nextRevisionID s.

#[global] Instance frame_preorder : PreOrder frame.
Proof. split; [done|]. intros s1 s2 s3 (? & ? & ?) (? & ? & ?). unfold frame. split_and!; congruence. Qed.

Lemma keyed_put s a o : keyed s → so_address o = a → keyed (put a o s).
Proof.
  intros Hk Ho b o' Hb. simpl in Hb.
  apply lookup_insert_Some in Hb as [[<- <-]|[_ Hb]]; [done|by apply Hk].
Qed.

Lemma obj_of_keyed s a o : keyed s → obj_of s a = Some o → so_address o = a.
Proof.
  intros Hk. unfold obj_of. destruct (sdb_stateObjects s !! a) eqn:Ha.
  - intros [= <-]. by eapply Hk.
  - destruct (kp_GetAccount _ _); [|done]. by intros [= <-].
Qed.

Lemma getStateObject_frame s a s' r :
  keyed s → getStateObject a s = (s', r) → keyed s' ∧ frame s s'.
Proof.
  intros Hk. destruct (obj_of s a) as [o|] eqn:Ho.
  - rewrite (getStateObject_some _ _ _ Ho). intros [= <- _]. split; [|done].
    apply keyed_put; [done|]. by eapply obj_of_keyed.
  - rewrite (getStateObject_none _ _ Ho). by intros [= <- _].
Qed.

Lemma on_object_frame s a f s' r :
  (∀ o, so_address (f o) = so_address o) → keyed s → on_object a f s = (s', r) →
  keyed s' ∧ frame s s'.
Proof.
  intros Hf Hk. destruct (obj_of s a) as [o|] eqn:Ho.
  - rewrite (on_object_some _ _ _ _ Ho). intros [= <- _]. split; [|done].
    apply keyed_put; [done|]. rewrite Hf. by eapply obj_of_keyed.
  - unfold on_object, mbind, M_bind. rewrite (getStateObject_none _ _ Ho). by intros [= <- _].
Qed.

Lemma entry_Revert_frame e s s' r :
  keyed s → entry_Revert e s = (s', r) → keyed s' ∧ frame s s'.
Proof.
  intros Hk. destruct e; simpl; try (by apply on_object_frame); try (by intros [= <- _]).
  - intros [= <- _]. split; [|done]. intros b o Hb. simpl in Hb.
    apply lookup_delete_Some in Hb as [_ Hb]. by apply Hk.
  - intros [= <- _]. split; [|done]. by apply (keyed_put s).
  - unfold mbind, M_bind. destruct (obj_of s account) as [o|] eqn:Ho.
    + rewrite (getStateObject_some _ _ _ Ho), update_object_put. intros [= <- _]. split; [|done].
      apply keyed_put; [done|]. simpl. by eapply obj_of_keyed.
    + rewrite (getStateObject_none _ _ Ho). by intros [= <- _].
  - run_M. destruct (sdb_logs s); by intros [= <- _].
  - run_M. destruct (DeleteSlot _ _ _); by intros [= <- _].
  - unfold RevertMultiStore, on_cache. run_M. destruct (sdb_cache s) as [c|] eqn:Hc;
      [|by intros [= <- _]].
    destruct (sn_RevertToSnapshot snapshot (cx_store c)) as [st|]; simpl; by intros [= <- _].
Qed.

Lemma revert_entry_frame e s s' :
  keyed s → revert_entry e s = (s', Ok tt) → keyed s' ∧ frame s s'.
Proof.
  intros Hk. unfold revert_entry, mbind, M_bind.
  destruct (entry_Revert e s) as [s1 [[]|?|?]] eqn:He; try done.
  apply entry_Revert_frame in He as [Hk1 Hf1]; [|done]. intros [= <-]. split; [done|].
  etransitivity; [done|]. done.
Qed.

Lemma revert_entry_restored e s1 s2 s1' :
  restored s1 s2 → revert_entry e s1 = (s1', Ok tt) →
  ∃ s2', revert_entry e s2 = (s2', Ok tt) ∧ restored s1' s2'.
Proof.
  intros Hr. unfold revert_entry, mbind, M_bind.
  destruct (entry_Revert e s1) as [t1 [[]|?|?]] eqn:He; try done. intros [= <-].
  destruct (entry_Revert_restored _ _ _ _ Hr He) as (t2 & -> & Ht).
  eexists. split; [done|]. destruct Ht. split; try done. simpl. by rewrite rs_dirties0.
Qed.

Lemma revert_all_restored l s1 s2 s1' :
  restored s1 s2 → for_each l revert_entry s1 = (s1', Ok tt) →
  ∃ s2', for_each l revert_entry s2 = (s2', Ok tt) ∧ restored s1' s2'.
Proof.
  revert s1 s2. induction l as [|e l IH]; intros s1 s2 Hr; simpl.
  - intros [= <-]. by exists s2.
  - unfold mbind, M_bind. destruct (revert_entry e s1) as [t1 [[]|?|?]] eqn:He; try done.
    destruct (revert_entry_restored _ _ _ _ Hr He) as (t2 & -> & Ht). by apply IH.
Qed.

Lemma revert_all_frame l s s' :
  keyed s → for_each l revert_entry s = (s', Ok tt) → keyed s' ∧ frame s s'.
Proof.
  revert s. induction l as [|e l IH]; intros s Hk; simpl; [by intros [= <-]|].
  unfold mbind, M_bind. destruct (revert_entry e s) as [t [[]|?|?]] eqn:He; try done.
  apply revert_entry_frame in He as [Hk' Hf]; [|done]. intros Hrun.
  destruct (IH t Hk' Hrun) as [? ?]. split; [done|]. by etransitivity.
Qed.

Lemma revert_all_app l1 l2 s s' :
  for_each (l1 ++ l2) revert_entry s = (s', Ok tt) ↔
  ∃ s1, for_each l1 revert_entry s = (s1, Ok tt) ∧ for_each l2 revert_entry s1 = (s', Ok tt).
Proof.
  revert s. induction l1 as [|e l1 IH]; intros s; simpl.
  - split; [by exists s|]. by intros (? & [= <-] & ?).
  - unfold mbind, M_bind. destruct (revert_entry e s) as [t [[]|?|?]] eqn:He; [apply IH|..];
      (split; [done|]; by intros (? & ? & _)).
Qed.

(** ** Reversible steps *)

(** The entries [es] that [s'] has more than [s] lead back to [s]. *)
Definition undoes s (es : list (JournalEntry Ev)) s' : Prop :=
  j_entries (sdb_journal s') = j_entries (sdb_journal s) ++ es ∧
  ∃ s'', for_each (reverse es) revert_entry s' = (s'', Ok tt) ∧ restored s s''.

Definition same_revisions s s' : Prop :=
  sdb_validRevisions s' = sdb_validRevisions s ∧ sdb_nextRevisionID s' = sdb_nextRevisionID s.

Definition reversible s (es : list (JournalEntry Ev)) s' : Prop :=
  undoes s es s' ∧ sdb_wf s' ∧ same_revisions s s'.

Lemma undoes_trans s es1 s1 es2 s2 :
  undoes s es1 s1 → undoes s1 es2 s2 → undoes s (es1 ++ es2) s2.
Proof.
  intros [He1 (t1 & Hrun1 & Hr1)] [He2 (t2 & Hrun2 & Hr2)]. split.
  - rewrite He2, He1. by rewrite <- app_assoc.
  - destruct (revert_all_restored _ _ _ _ Hr2 Hrun1) as (t & Hrun & Hr).
    exists t. split; [|by etransitivity]. rewrite reverse_app.
    apply revert_all_app. eauto.
Qed.

Lemma reversible_trans s es1 s1 es2 s2 :
  reversible s es1 s1 → reversible s1 es2 s2 → reversible s (es1 ++ es2) s2.
Proof.
  intros (Hu1 & _ & [? ?]) (Hu2 & ? & [? ?]). split_and!; [by eapply undoes_trans|done|].
  split; congruence.
Qed.

(** A step that cannot be observed. *)
Lemma reversible_quiet s s' :
  j_entries (sdb_journal s') = j_entries (sdb_journal s) → sdb_wf s' → same_revisions s s' →
  restored s s' → reversible s [] s'.
Proof.
  intros He Hwf Hrev Hr. split_and!; [|done|done]. split; [by rewrite app_nil_r|]. by exists s'.
Qed.

Lemma undirty_append e (j : journal Ev) :
  (∀ a n, j_dirties j !! a = Some n → 0 < n) →
  undirty e (j_dirties (journal_append e j)) = j_dirties j.
Proof.
  intros Hpos. unfold undirty, journal_append. simpl. destruct (Dirtied e) as [a|]; [|done].
  rewrite lookup_insert_eq. simpl. destruct (j_dirties j !! a) as [n|] eqn:Ha; simpl.
  - apply Hpos in Ha as Hn. rewrite (proj2 (Z.eqb_neq _ _)) by lia.
    rewrite insert_insert_eq. replace (n + 1 - 1) with n by lia. by rewrite insert_id.
  - rewrite delete_insert_eq. by rewrite delete_id.
Qed.

Lemma append_dirties_pos e (j : journal Ev) :
  (∀ a n, j_dirties j !! a = Some n → 0 < n) →
  ∀ a n, j_dirties (journal_append e j) !! a = Some n → 0 < n.
Proof.
  intros Hpos a n. unfold journal_append. simpl. destruct (Dirtied e) as [b|]; [|apply Hpos].
  rewrite lookup_insert_Some. intros [[<- <-]|[_ ?]]; [|by eapply Hpos].
  destruct (j_dirties j !! b) as [m|] eqn:Hb; simpl; [|lia]. apply Hpos in Hb. lia.
Qed.

(** One journaled change. *)
Lemma reversible_entry s s' e s2 :
  sdb_wf s → sdb_journal s' = journal_append e (sdb_journal s) → keyed s' →
  al_ok (sdb_accessList s') → same_revisions s s' →
  entry_Revert e s' = (s2, Ok tt) → sdb_journal s2 = sdb_journal s' →
  restored s (set_journal (sdb_journal s) s2) → cache_inv (cx_store (cache_view s')) →
  reversible s [e] s'.
Proof.
  intros [Hk Hal Hpos _] Hj Hk' Hal' Hrev Hrun Hj2 Hr Hinv. split_and!; [|split|done].
  - split; [by rewrite Hj|]. eexists. split.
    + simpl. unfold revert_entry, mbind, M_bind. rewrite Hrun. done.
    + destruct Hr. split; try done. simpl. rewrite Hj2, Hj. by apply undirty_append.
  - done.
  - done.
  - rewrite Hj. by apply append_dirties_pos.
  - done.
Qed.

(** A journaled change of one object. *)
Lemma reversible_mutate s a o o' e f :
  sdb_wf s → obj_of s a = Some o → so_address o' = a →
  (∀ t : StateDB K C Ev, entry_Revert e t = on_object a f t) →
  obj_eq (kstore s) o (f o') → reversible s [e] (add_entry e (put a o' s)).
Proof.
  intros Hwf Ho Ha He Heq. eapply reversible_entry; [done|done|..].
  - by apply keyed_put; [apply Hwf|].
  - apply Hwf.
  - done.
  - rewrite He. apply on_object_some. unfold obj_of. simpl. by rewrite lookup_insert_eq.
  - done.
  - split; try done. intros b. unfold obj_of. simpl.
    rewrite insert_insert_eq, lookup_insert. case_decide as Hb; [subst b|].
    + fold (obj_of s a). rewrite Ho. by constructor.
    + fold (obj_of s b). reflexivity.
  - apply Hwf.
Qed.

(** Reading may load the object or fill its caches. *)
Lemma reversible_load s a o o' :
  sdb_wf s → obj_of s a = Some o → obj_eq (kstore s) o o' → reversible s [] (put a o' s).
Proof.
  intros Hwf Ho Heq. apply reversible_quiet; [done| |done|].
  - apply put_wf; [done|]. rewrite <- (oe_address _ _ _ Heq). by eapply obj_of_address.
  - split; try done. intros b. rewrite obj_of_put. case_decide; [|done]. subst b.
    rewrite Ho. by constructor.
Qed.

(** An operation is reversible when each of its runs that does not panic is. *)
Definition op_reversible {A} (m : M (StateDB K C Ev) SdkError A) : Prop :=
  ∀ s s' r, sdb_wf s → m s = (s', r) → (∀ p, r ≠ Panic p) → ∃ es, reversible s es s'.

Lemma reversible_refl s : sdb_wf s → reversible s [] s.
Proof. intros. by apply reversible_quiet. Qed.

Lemma op_reversible_ret {A} (x : A) : op_reversible (mret x).
Proof. intros s s' r Hwf [= <- <-] _. exists []. by apply reversible_refl. Qed.

Lemma op_reversible_gets {A} (f : _ → A) : op_reversible (gets f).
Proof. intros s s' r Hwf [= <- <-] _. exists []. by apply reversible_refl. Qed.

Lemma op_reversible_throw {A} e : op_reversible (throw e : M _ _ A).
Proof. intros s s' r Hwf [= <- <-] _. exists []. by apply reversible_refl. Qed.

Lemma op_reversible_panic {A} p : op_reversible (panic p : M _ _ A).
Proof. intros s s' r Hwf [= <- <-] Hp. by destruct (Hp p). Qed.

Lemma op_reversible_bind {A B} (m : M _ SdkError A) (k : A → M _ SdkError B) :
  op_reversible m → (∀ x, op_reversible (k x)) → op_reversible (m ≫= k).
Proof.
  intros Hm Hk s s' r Hwf Hrun Hp. unfold mbind, M_bind in Hrun.
  destruct (m s) as [s1 [x|e|p]] eqn:Hms.
  - destruct (Hm s s1 (Ok x) Hwf Hms) as [es1 H1]; [done|].
    destruct (Hk x s1 s' r) as [es2 H2]; [apply H1|done|done|].
    exists (es1 ++ es2). by eapply reversible_trans.
  - simplify_eq. by eapply Hm.
  - simplify_eq. by destruct (Hp p).
Qed.

Lemma op_reversible_if {A} (b : bool) (m1 m2 : M _ SdkError A) :
  op_reversible m1 → op_reversible m2 → op_reversible (if b then m1 else m2).
Proof. by destruct b. Qed.

(** *** Loading and creating objects *)

Lemma getStateObject_reversible a s s' r :
  sdb_wf s → getStateObject a s = (s', r) →
  ∃ found, r = Ok found ∧ obj_of s' a = found ∧ obj_of s a = found ∧ reversible s [] s'.
Proof.
  intros Hwf. destruct (obj_of s a) as [o|] eqn:Ho.
  - rewrite (getStateObject_some _ _ _ Ho). intros [= <- <-]. exists (Some o).
    split_and!; [done| |done|by eapply reversible_load]. rewrite obj_of_put. by rewrite decide_True.
  - rewrite (getStateObject_none _ _ Ho). intros [= <- <-]. exists None.
    split_and!; [done..|by apply reversible_refl].
Qed.

Lemma createObject_run a s :
  sdb_wf s →
  let e := match obj_of s a with
           | None => createObjectChange a
           | Some prev => resetObjectChange prev
           end in
  createObject a s = (add_entry e (put a (newObject a None) s), Ok (newObject a None, obj_of s a)) ∧
  reversible s [e] (add_entry e (put a (newObject a None) s)).
Proof.
  intros Hwf e. unfold createObject, mbind, M_bind. destruct (obj_of s a) as [prev|] eqn:Ho.
  - rewrite (getStateObject_some _ _ _ Ho). split.
    { unfold append, setStateObject, modify, mret, M_ret, add_entry, put. simpl.
      unfold set_journal, set_stateObjects. simpl. by rewrite insert_insert_eq. }
    pose proof (obj_of_address _ _ _ Hwf Ho) as Ha.
    eapply reversible_entry; [done|done|by apply keyed_put; [apply Hwf|]|apply Hwf|done|done|done| |apply Hwf].
    split; try done. intros b. unfold obj_of. simpl. rewrite Ha, insert_insert_eq, lookup_insert.
    case_decide as Hb; [subst b|]; [fold (obj_of s a); rewrite Ho; by constructor|].
    fold (obj_of s b). reflexivity.
  - rewrite (getStateObject_none _ _ Ho). split; [done|].
    eapply reversible_entry; [done|done|by apply keyed_put; [apply Hwf|]|apply Hwf|done|done|done| |apply Hwf].
    split; try done. intros b. unfold obj_of. simpl. rewrite delete_insert_eq, lookup_delete.
    case_decide as Hb; [subst b|fold (obj_of s b); reflexivity].
    fold (obj_of s a). unfold obj_of in Ho |- *. destruct (sdb_stateObjects s !! a); [done|].
    unfold kstore in *. simpl. destruct (kp_GetAccount _ _); [done|]. constructor.
Qed.

(** *** Operations on one object *)

Definition live s (a : Address) o : Prop := sdb_stateObjects s !! a = Some o.

(** A run from [s] that does not panic is reversible. *)
Definition run_reversible {A} (m : M (StateDB K C Ev) SdkError A) s : Prop :=
  ∀ s' r, m s = (s', r) → (∀ p, r ≠ Panic p) → ∃ es, reversible s es s'.

Lemma live_obj_of s a o : live s a o → obj_of s a = Some o.
Proof. unfold live, obj_of. by intros ->. Qed.

Lemma put_live s a o : live (put a o s) a o.
Proof. unfold live. simpl. apply lookup_insert_eq. Qed.

Lemma update_live s a o f : live s a o → update_object a f s = (put a (f o) s, Ok tt).
Proof.
  unfold live, update_object, put, modify. intros Ho.
  f_equal. f_equal. apply map_eq. intros b. rewrite lookup_insert.
  destruct (decide (a = b)) as [<-|]; [|by rewrite lookup_alter_ne].
  rewrite lookup_alter_eq, Ho. done.
Qed.

Lemma run_reversible_bind {A B} (m : M _ SdkError A) (k : A → M _ SdkError B) s :
  run_reversible m s → (∀ x s1, m s = (s1, Ok x) → sdb_wf s1 → run_reversible (k x) s1) →
  run_reversible (m ≫= k) s.
Proof.
  intros Hm Hk s' r Hrun Hp. unfold mbind, M_bind in Hrun.
  destruct (m s) as [s1 [x|e|p]] eqn:Hms.
  - destruct (Hm s1 (Ok x) Hms) as [es1 H1]; [done|].
    destruct (Hk x s1 eq_refl (proj1 (proj2 H1)) s' r Hrun Hp) as [es2 H2].
    exists (es1 ++ es2). by eapply reversible_trans.
  - simplify_eq. by eapply Hm.
  - simplify_eq. by destruct (Hp p).
Qed.

Lemma run_reversible_ret {A} (x : A) s : sdb_wf s → run_reversible (mret x) s.
Proof. intros Hwf s' r [= <- <-] _. exists []. by apply reversible_refl. Qed.

(** A reversible run with a known result, then the continuation. *)
Lemma run_then {A B} (m : M _ SdkError A) (k : A → M _ SdkError B) s s1 x es :
  m s = (s1, Ok x) → reversible s es s1 → run_reversible (k x) s1 → run_reversible (m ≫= k) s.
Proof.
  intros Hm Hr Hk s' r Hrun Hp. unfold mbind, M_bind in Hrun. rewrite Hm in Hrun.
  destruct (Hk s' r Hrun Hp) as [es2 H2]. exists (es ++ es2). by eapply reversible_trans.
Qed.

Lemma op_on_object {B} a (k : option stateObject → M _ SdkError B) :
  (∀ s o, sdb_wf s → live s a o → run_reversible (k (Some o)) s) →
  (∀ s, sdb_wf s → obj_of s a = None → run_reversible (k None) s) →
  op_reversible (getStateObject a ≫= k).
Proof.
  intros Hsome Hnone s s' r Hwf Hrun Hp. destruct (obj_of s a) as [o|] eqn:Ho.
  - eapply run_then; [by apply getStateObject_some|by eapply reversible_load| |done|done].
    apply Hsome; [|apply put_live]. apply put_wf; [done|]. by eapply obj_of_address.
  - eapply run_then; [by apply getStateObject_none|by apply reversible_refl| |done|done].
    by apply Hnone.
Qed.

Lemma op_on_new_object {B} a (k : stateObject → M _ SdkError B) :
  (∀ s o, sdb_wf s → live s a o → run_reversible (k o) s) →
  op_reversible (getOrNewStateObject a ≫= k).
Proof.
  intros Hk s s' r Hwf Hrun Hp.
  assert (∃ s1 o es, getOrNewStateObject a s = (s1, Ok o) ∧ reversible s es s1 ∧ live s1 a o)
    as (s1 & o & es & Hget & Hr & Hl).
  { unfold getOrNewStateObject, mbind, M_bind. destruct (obj_of s a) as [o|] eqn:Ho.
    - rewrite (getStateObject_some _ _ _ Ho). eexists _, o, []. split_and!; [done| |apply put_live].
      by eapply reversible_load.
    - rewrite (getStateObject_none _ _ Ho).
      destruct (createObject_run a s Hwf) as [-> Hr]. rewrite Ho in *.
      eexists _, _, _. split_and!; [done|exact Hr|]. apply lookup_insert_eq. }
  by eapply run_then; [exact Hget|exact Hr|apply Hk; [apply Hr|]|..].
Qed.

(** The journal entry and the change it records, then the result. *)
Lemma run_mutate {B} s a o e f g (k : M _ SdkError B) :
  sdb_wf s → live s a o → so_address (f o) = a →
  (∀ t : StateDB K C Ev, entry_Revert e t = on_object a g t) →
  obj_eq (kstore s) o (g (f o)) → (∀ s1, sdb_wf s1 → run_reversible k s1) →
  run_reversible (append e ;; update_object a f ;; k) s.
Proof.
  intros Hwf Hl Ha He Heq Hk.
  pose proof (reversible_mutate s a o (f o) e g Hwf (live_obj_of _ _ _ Hl) Ha He Heq) as Hr.
  assert (Hrun : (append e ;; update_object a f) s = (add_entry e (put a (f o) s), Ok tt)).
  { unfold mbind, M_bind. rewrite append_eq. rewrite (update_live _ _ o); [|exact Hl].
    done. }
  intros s' r Hs Hp. eapply (run_then _ (λ _, k)); [exact Hrun|exact Hr|apply Hk, Hr| |exact Hp].
  rewrite <- Hs. unfold mbind, M_bind. rewrite append_eq. by destruct (update_object a f _) as [? []].
Qed.
End Views.
