(* ===== verification/StateDBJournal.v ===== *)
(** Every operation of the state database is reversible, and so any sequence of
    them, snapshots and reverts included, can be reverted to any snapshot that is
    still valid. *)
From S2P Require Import Prelude GoStd AccessList Sdk StateDB StateDBRevert.

Section Journal.
Context {K C Ev : Type}.
Context `{HCr : Crypto, HK : !Keeper K Ev, HKC : !Keeper C Ev, HS : !Snapshotter C,
          HCC : !CacheContext K C, HI : !CacheInv C}.
Context {W : C → C → Prop} `{HSL : !SnapshotterLaws C W, HKW : !KeeperWrites C Ev W}.
Implicit Types (s : StateDB K C Ev) (o : stateObject).

(** ** Reading through the caches *)

Lemma obj_Code_run s a o :
  sdb_wf s → live s a o →
  ∃ s1 o1, obj_Code a o s = (s1, Ok (code_view (kstore s) o)) ∧ reversible s [] s1 ∧
           live s1 a o1 ∧ obj_eq (kstore s) o o1.
Proof.
  intros Hwf Hl. unfold obj_Code, code_view. destruct (so_code o) as [c|] eqn:Hc.
  { eexists s, o. split_and!; [done|by apply reversible_refl|done|reflexivity]. }
  destruct (IsEmptyCodeHash (obj_CodeHash o)) eqn:He.
  { eexists s, o. split_and!; [done|by apply reversible_refl|done|reflexivity]. }
  unfold mbind, M_bind, gets. rewrite (update_live _ _ o) by done. fold (kstore s).
  set (o1 := obj_cacheCode _ o).
  assert (obj_eq (kstore s) o o1).
  { split; try done. unfold code_view, o1. simpl. rewrite Hc, He. unfold obj_CodeHash in *. simpl.
    rewrite He. by destruct (kp_GetCode _ _). }
  eexists _, o1. split_and!; [done| |apply put_live|done].
  eapply reversible_load; [done|by apply live_obj_of|done].
Qed.

Lemma obj_GetCommittedState_run s a o key :
  sdb_wf s → live s a o →
  ∃ s1 o1, obj_GetCommittedState a o key s = (s1, Ok (committed_view (kstore s) o key)) ∧
           reversible s [] s1 ∧ live s1 a o1 ∧ obj_eq (kstore s) o o1.
Proof.
  intros Hwf Hl. unfold obj_GetCommittedState, committed_view.
  destruct (so_overrideStorage o) as [st|] eqn:Hov.
  { eexists s, o. split_and!; [done|by apply reversible_refl|done|reflexivity]. }
  destruct (so_originStorage o !! key) as [v|] eqn:Hor.
  { eexists s, o. split_and!; [done|by apply reversible_refl|done|reflexivity]. }
  unfold mbind, M_bind, gets. rewrite (update_live _ _ o) by done. fold (kstore s).
  set (o1 := obj_cacheOrigin key _ o).
  assert (Hcv : ∀ j, committed_view (kstore s) o j = committed_view (kstore s) o1 j).
  { intros j. unfold committed_view, o1. simpl. rewrite Hov, lookup_insert.
    case_decide; [|done]. subst j. by rewrite Hor. }
  assert (obj_eq (kstore s) o o1).
  { split; try done. intros j. unfold state_view. simpl. destruct (so_dirtyStorage o !! j); auto. }
  eexists _, o1. split_and!; [done| |apply put_live|done].
  eapply reversible_load; [done|by apply live_obj_of|done].
Qed.

Lemma obj_GetState_run s a o key :
  sdb_wf s → live s a o →
  ∃ s1 o1, obj_GetState a o key s = (s1, Ok (state_view (kstore s) o key)) ∧
           reversible s [] s1 ∧ live s1 a o1 ∧ obj_eq (kstore s) o o1.
Proof.
  intros Hwf Hl. unfold obj_GetState, state_view. destruct (so_dirtyStorage o !! key) eqn:Hd.
  { eexists s, o. split_and!; [done|by apply reversible_refl|done|reflexivity]. }
  by apply obj_GetCommittedState_run.
Qed.

Lemma live_address s a o : sdb_wf s → live s a o → so_address o = a.
Proof. intros Hwf Hl. by eapply (wf_keyed s Hwf). Qed.

(** ** The operations *)

Lemma CreateAccount_reversible a : op_reversible (K := K) (C := C) (Ev := Ev) (CreateAccount a).
Proof.
  intros s s' r Hwf Hrun Hp. destruct (createObject_run a s Hwf) as [Hc Hr].
  unfold CreateAccount, mbind, M_bind in Hrun. rewrite Hc in Hrun.
  destruct (obj_of s a) as [prev|] eqn:Ho; [|injection Hrun as <- <-; eexists; exact Hr].
  rewrite update_object_entry in Hrun. injection Hrun as <- <-. eexists.
  pose proof (obj_of_address _ _ _ Hwf Ho) as Ha.
  eapply reversible_entry; [done|done|by apply keyed_put; [apply Hwf|]|apply Hwf|done|done|done| |apply Hwf].
  split; try done. intros b. unfold obj_of. simpl. rewrite Ha, insert_insert_eq, lookup_insert.
  case_decide as Hb; [subst b|]; [fold (obj_of s a); rewrite Ho; by constructor|].
  fold (obj_of s b). reflexivity.
Qed.

Ltac by_view := split; try done; intros; unfold code_view, state_view, committed_view; simpl.

Lemma CreateContract_reversible a : op_reversible (K := K) (C := C) (Ev := Ev) (CreateContract a).
Proof.
  apply op_on_object.
  - intros s o Hwf Hl. destruct (so_newContract o) eqn:Hn; simpl; [by apply run_reversible_ret|].
    intros s' r Hrun Hp. unfold mbind, M_bind in Hrun. rewrite (update_live _ _ o) in Hrun by done.
    rewrite append_eq in Hrun. injection Hrun as <- <-. eexists.
    eapply (reversible_mutate s a o _ (createContractChange a)); [done|by apply live_obj_of|..].
    + by apply (live_address s a o).
    + done.
    + by split.
  - intros s Hwf _ s' r [= <- <-] Hp. by destruct (Hp "nil pointer dereference").
Qed.

Lemma obj_SetBalance_run s a o v :
  sdb_wf s → live s a o → run_reversible (obj_SetBalance a o v) s.
Proof.
  intros Hwf Hl. unfold obj_SetBalance. eapply run_mutate; [done|done| | | |].
  - by apply (live_address s a o).
  - intros t. done.
  - split; try done. simpl. by destruct o as [[] ? ? ? ? ? ? ? ?].
  - intros. by apply run_reversible_ret.
Qed.

Lemma SetBalance_reversible a v : op_reversible (K := K) (C := C) (Ev := Ev) (SetBalance a v).
Proof.
  apply op_on_new_object. intros s o Hwf Hl. apply run_reversible_bind.
  - by apply obj_SetBalance_run.
  - intros. by apply run_reversible_ret.
Qed.

Lemma AddBalance_reversible a v : op_reversible (K := K) (C := C) (Ev := Ev) (AddBalance a v).
Proof.
  apply op_on_new_object. intros s o Hwf Hl. unfold obj_AddBalance.
  destruct (v =? 0); [by apply run_reversible_ret|by apply obj_SetBalance_run].
Qed.

Lemma SubBalance_reversible a v : op_reversible (K := K) (C := C) (Ev := Ev) (SubBalance a v).
Proof.
  apply op_on_new_object. intros s o Hwf Hl. unfold obj_SubBalance.
  destruct (v =? 0); [by apply run_reversible_ret|by apply obj_SetBalance_run].
Qed.

(** A change of one object that ends the operation. *)
Lemma run_mutate_end s a o e f g :
  sdb_wf s → live s a o → so_address (f o) = a →
  (∀ t : StateDB K C Ev, entry_Revert e t = on_object a g t) →
  obj_eq (kstore s) o (g (f o)) → run_reversible (append e ;; update_object a f) s.
Proof.
  intros Hwf Hl Ha He Heq s' r Hrun _. unfold mbind, M_bind in Hrun.
  rewrite append_eq, (update_live _ _ o) in Hrun by done. injection Hrun as <- <-. eexists.
  change (put a (f o) (add_entry e s)) with (add_entry e (put a (f o) s)).
  by eapply reversible_mutate; [done|by apply live_obj_of|..].
Qed.

Lemma SetNonce_reversible a n : op_reversible (K := K) (C := C) (Ev := Ev) (SetNonce a n).
Proof.
  apply op_on_new_object. intros s o Hwf Hl. eapply run_mutate_end; [done|done| | |].
  - by apply (live_address s a o).
  - intros t. done.
  - split; try done. simpl. by destruct o as [[] ? ? ? ? ? ? ? ?].
Qed.

(** The store is the same in the states a reversible step connects. *)
Lemma reversible_kstore s s1 : reversible s [] s1 → kstore s1 = kstore s.
Proof.
  intros ([_ (s2 & [= <-] & Hr)] & _). unfold kstore. by rewrite (rs_ctx _ _ Hr).
Qed.

Lemma SetCode_reversible a code : op_reversible (K := K) (C := C) (Ev := Ev) (SetCode a code).
Proof.
  apply op_on_new_object. intros s o Hwf Hl.
  destruct (obj_Code_run s a o Hwf Hl) as (s1 & o1 & Hrun & Hr & Hl1 & Heq).
  eapply run_then; [exact Hrun|exact Hr|]. pose proof (reversible_kstore _ _ Hr) as Hks.
  assert (sdb_wf s1) as Hwf1 by apply Hr.
  eapply run_mutate; [done|exact Hl1| | | |].
  - by apply (live_address s1 a o1).
  - intros t. done.
  - rewrite Hks. destruct Heq. split; try done.
    + unfold obj_setCode, obj_CodeHash. simpl. rewrite oe_account. by destruct (so_account o1).
    + rewrite <- oe_code. unfold code_view at 2. simpl. unfold code_view at 2, obj_CodeHash. simpl.
      unfold code_view. destruct (so_code o) eqn:Hc; [done|].
      unfold obj_CodeHash. destruct (IsEmptyCodeHash _) eqn:He; [done|].
      by destruct (kp_GetCode _ _).
  - intros. by apply run_reversible_ret.
Qed.

Lemma SetState_reversible a key v : op_reversible (K := K) (C := C) (Ev := Ev) (SetState a key v).
Proof.
  apply op_on_new_object. intros s o Hwf Hl. unfold obj_SetState.
  destruct (obj_GetState_run s a o key Hwf Hl) as (s1 & o1 & Hrun & Hr & Hl1 & Heq).
  eapply run_then; [exact Hrun|exact Hr|]. pose proof (reversible_kstore _ _ Hr) as Hks.
  assert (sdb_wf s1) as Hwf1 by apply Hr.
  destruct (_ =? v); [by apply run_reversible_ret|].
  eapply run_mutate; [done|exact Hl1| | | |].
  - by apply (live_address s1 a o1).
  - intros t. done.
  - rewrite Hks. split; try done. intros j. unfold state_view at 2. simpl.
    rewrite insert_insert_eq, lookup_insert. case_decide; [subst j|].
    + by rewrite (oe_state _ _ _ Heq key).
    + done.
  - intros. by apply run_reversible_ret.
Qed.

Lemma SelfDestruct_run s a o :
  sdb_wf s → live s a o →
  run_reversible (append (selfDestructChange a (so_selfDestructed o) (obj_Balance o)) ;;
                  update_object a (λ o, obj_setBalance 0 (markSelfDestructed o)) ;;
                  mret (obj_Balance o)) s.
Proof.
  intros Hwf Hl s' r Hrun _. unfold mbind, M_bind in Hrun.
  rewrite append_eq, (update_live _ _ o) in Hrun by done. injection Hrun as <- <-. eexists.
  pose proof (live_address s a o Hwf Hl) as Ha.
  assert (Hput : ∀ (t : StateDB K C Ev) o', live t a o' → getStateObject a t = (put a o' t, Ok (Some o'))).
  { intros t o' Ht. apply getStateObject_some. by apply live_obj_of. }
  eapply reversible_entry; [done|done|by apply keyed_put; [apply Hwf|]|apply Hwf|done|..].
  - simpl. unfold mbind, M_bind. erewrite Hput by apply lookup_insert_eq.
    rewrite update_object_put. done.
  - done.
  - split; try done. intros b. unfold obj_of. simpl. rewrite !insert_insert_eq, lookup_insert.
    case_decide as Hb; [subst b|]; [rewrite Hl|]; [constructor|fold (obj_of s b); reflexivity].
    split; try done. simpl. by destruct o as [[] ? ? ? ? ? ? ? ?].
  - apply Hwf.
Qed.

Lemma SelfDestruct_reversible a : op_reversible (K := K) (C := C) (Ev := Ev) (SelfDestruct a).
Proof.
  apply op_on_object.
  - intros s o Hwf Hl. by apply SelfDestruct_run.
  - intros s Hwf _. by apply run_reversible_ret.
Qed.

Lemma SelfDestruct6780_reversible a :
  op_reversible (K := K) (C := C) (Ev := Ev) (SelfDestruct6780 a).
Proof.
  apply op_on_object.
  - intros s o Hwf Hl. destruct (so_newContract o); [|by apply run_reversible_ret].
    apply run_reversible_bind.
    + intros s' r Hrun Hp. by eapply SelfDestruct_reversible.
    + intros. by apply run_reversible_ret.
  - intros s Hwf _. by apply run_reversible_ret.
Qed.

(** *** Operations on the other fields *)

(** A journaled change outside the objects. *)
Lemma reversible_field s s' e s2 :
  sdb_wf s → sdb_journal s' = journal_append e (sdb_journal s) →
  sdb_stateObjects s' = sdb_stateObjects s → al_ok (sdb_accessList s') → same_revisions s s' →
  entry_Revert e s' = (s2, Ok tt) → sdb_journal s2 = sdb_journal s' →
  restored s (set_journal (sdb_journal s) s2) → cache_inv (cx_store (cache_view s')) →
  ∃ es, reversible s es s'.
Proof.
  intros Hwf Hj Ho Hal Hrev Hrun Hj2 Hr Hinv. exists [e]. eapply reversible_entry; try done.
  intros a o. rewrite Ho. apply Hwf.
Qed.

Lemma SetTransientState_reversible a key v :
  op_reversible (K := K) (C := C) (Ev := Ev) (SetTransientState a key v).
Proof.
  intros s s' r Hwf Hrun _. revert Hrun. unfold SetTransientState, GetTransientState. run_M.
  destruct (Z.eqb_spec (ts_Get (sdb_transientStorage s) a key) v) as [_|Hne]; intros [= <- <-].
  { exists []. by apply reversible_refl. }
  eapply reversible_field; [done|done|done|apply Hwf|done|done|done| |apply Hwf].
  split; try done. intros b j. simpl. rewrite !ts_Get_Set.
  repeat case_decide; try done. by destruct_and!; subst.
Qed.

Lemma AddLog_reversible content : op_reversible (K := K) (C := C) (Ev := Ev) (AddLog content).
Proof.
  intros s s' r Hwf [= <- <-] _.
  eapply reversible_field; [done|done|done|apply Hwf|done|..].
  - simpl. run_M. destruct (sdb_logs s ++ _) eqn:Hl; [by destruct (sdb_logs s)|]. rewrite <- Hl. done.
  - done.
  - split; try done. simpl. rewrite length_app. simpl.
    replace (length (sdb_logs s) + 1 - 1)%nat with (length (sdb_logs s)) by lia.
    apply take_app_length.
  - apply Hwf.
Qed.

Lemma AddRefund_reversible gas : op_reversible (K := K) (C := C) (Ev := Ev) (AddRefund gas).
Proof.
  intros s s' r Hwf [= <- <-] _.
  eapply reversible_field; [done|done|done|apply Hwf|done|done|done| |apply Hwf]. by split.
Qed.

Lemma SubRefund_reversible gas : op_reversible (K := K) (C := C) (Ev := Ev) (SubRefund gas).
Proof.
  intros s s' r Hwf Hrun Hp. revert Hrun. unfold SubRefund. run_M.
  destruct (gas >? sdb_refund s); intros [= <- <-]; [by destruct (Hp "Refund counter below zero")|].
  eapply reversible_field; [done|done|done|apply Hwf|done|done|done| |apply Hwf]. by split.
Qed.

Lemma AddAddressToAccessList_reversible a :
  op_reversible (K := K) (C := C) (Ev := Ev) (AddAddressToAccessList a).
Proof.
  intros s s' r Hwf Hrun _. revert Hrun. unfold AddAddressToAccessList, set_al. run_M.
  pose proof (AddAddress_ok (sdb_accessList s) a (wf_accessList s Hwf)) as Hal.
  destruct (AddAddress (sdb_accessList s) a) as [al' []] eqn:Hadd; simpl; intros [= <- <-].
  - eapply reversible_field; [done|done|done|exact Hal|done|done|done| |apply Hwf]. split; try done. simpl.
    by apply AddAddress_undo.
  - exists []. unfold AddAddress in Hadd. destruct (al_addresses _ !! a); simplify_eq.
    replace (set_accessList (sdb_accessList s) s) with s by by destruct s.
    by apply reversible_refl.
Qed.

Lemma AddSlotToAccessList_reversible a slot :
  op_reversible (K := K) (C := C) (Ev := Ev) (AddSlotToAccessList a slot).
Proof.
  intros s s' r Hwf Hrun _. revert Hrun. unfold AddSlotToAccessList, set_al. run_M.
  pose proof (wf_accessList s Hwf) as Hal.
  destruct (AddSlot_total (sdb_accessList s) a slot Hal) as (al' & [am sm] & Hadd & Hal').
  pose proof (AddSlot_undo _ _ _ _ _ _ Hal Hadd) as Hundo. rewrite Hadd.
  destruct sm.
  - destruct Hundo as (al1 & Hdel & Hok1 & Hback). destruct am; intros [= <- <-].
    + (* the address, then the slot *)
      set (s0 := set_accessList al1 (add_entry (accessListAddAccountChange a) s)).
      assert (H1 : reversible s [accessListAddAccountChange a] s0).
      { eapply reversible_entry; [done|done|apply Hwf|done|done|done|done| |apply Hwf].
        split; try done. }
      destruct (reversible_field s0 (set_journal (journal_append (accessListAddSlotChange a slot)
                  (sdb_journal s0)) (set_accessList al' s0)) (accessListAddSlotChange a slot)
                  (set_journal (journal_append (accessListAddSlotChange a slot)
                  (sdb_journal s0)) s0)) as [es H2]; try done.
      * apply H1.
      * simpl. run_M. by rewrite Hdel.
      * apply Hwf.
      * eexists. eapply reversible_trans; [exact H1|exact H2].
    + subst al1. eapply reversible_field; [done|done|done|exact Hal'|done|..].
      * simpl. run_M. rewrite Hdel. done.
      * done.
      * split; try done.
      * apply Hwf.
  - destruct Hundo as [-> ->]. intros [= <- <-]. exists [].
    replace (set_accessList (sdb_accessList s) s) with s by by destruct s.
    by apply reversible_refl.
Qed.

(** *** Precompile calls *)

(** A computation on the cache context that writes through its current store. *)
Definition writes {A} (m : M (sdkContext C Ev) SdkError A) : Prop :=
  ∀ c c' r, m c = (c', r) → W (cx_store c) (cx_store c').

Lemma writes_ret {A} (x : A) : writes (mret x).
Proof. intros c c' r [= <- _]. reflexivity. Qed.
Lemma writes_panic {A} p : writes (panic p : M _ _ A).
Proof. intros c c' r [= <- _]. reflexivity. Qed.
Lemma writes_bind {A B} (m : M _ SdkError A) (k : A → M _ SdkError B) :
  writes m → (∀ x, writes (k x)) → writes (m ≫= k).
Proof.
  intros Hm Hk c c' r. unfold mbind, M_bind. destruct (m c) as [c1 [x|e|p]] eqn:Hc.
  - intros Hx. etransitivity; [by eapply Hm|by eapply Hk].
  - intros [= <- _]. by eapply Hm.
  - intros [= <- _]. by eapply Hm.
Qed.
Lemma writes_for_each {X} (l : list X) (body : X → M _ SdkError unit) :
  (∀ x, writes (body x)) → writes (for_each l body).
Proof. intros Hb. induction l; simpl; [apply writes_ret|by apply writes_bind]. Qed.
Lemma writes_store f : (∀ c, W c (f c)) → writes (on_store f).
Proof. intros Hf c c' r [= <- _]. apply Hf. Qed.

Lemma commit_object_writes obj : writes (commit_object obj).
Proof.
  assert (Hset : writes (kp_SetAccount (so_address obj) (so_account obj)))
    by (intros c c' r; apply kw_SetAccount).
  assert (Hdel : writes (kp_DeleteAccount (so_address obj)))
    by (intros c c' r; apply kw_DeleteAccount).
  assert (Hcode : ∀ h code, writes (on_store (kp_SetCode h code)))
    by (intros; apply writes_store; intros; apply kw_SetCode).
  unfold commit_object. destruct (so_selfDestructed obj).
  - apply writes_bind; [|done]. destruct (so_code obj); [|apply writes_ret].
    destruct (_ && _); [|apply writes_ret]. apply writes_bind; [apply Hcode|done].
  - apply writes_bind; [|intros _; apply writes_bind; [done|intros _]].
    + destruct (so_code obj); [|apply writes_ret]. destruct (so_dirtyCode obj); [|apply writes_ret].
      destruct (_ =? 0); [|apply Hcode]. apply writes_store. intros. apply kw_DeleteCode.
    + apply writes_for_each. intros key. unfold commit_slot.
      destruct (_ =? 0); apply writes_store; intros; [apply kw_DeleteState|apply kw_SetState].
Qed.

Lemma commit_all_writes objects l : writes (commit_all objects l).
Proof.
  apply writes_for_each. intros a. destruct (objects !! a); [apply commit_object_writes|].
  apply writes_panic.
Qed.

(** The state during a precompile call that began in [s] with the cache store
    [c0]: only the cache context, the journal and the counters differ. *)
Record in_call s (id : Z) (st1 : C) s' : Prop := {
  ic_journal : sdb_journal s' = journal_append
    (precompileCallChange id (cx_events (cache_view s)) (sdb_processedEventsCount s))
    (sdb_journal s);
  ic_cache : ∃ c, sdb_cache s' = Some c ∧ W st1 (cx_store c);
  ic_ctx : sdb_ctx s' = sdb_ctx s;
  ic_objects : sdb_stateObjects s' = sdb_stateObjects s;
  ic_transient : sdb_transientStorage s' = sdb_transientStorage s;
  ic_refund : sdb_refund s' = sdb_refund s;
  ic_logs : sdb_logs s' = sdb_logs s;
  ic_accessList : sdb_accessList s' = sdb_accessList s;
  ic_txIndex : sdb_txIndex s' = sdb_txIndex s;
  ic_revisions : same_revisions s s';
}.

Lemma in_call_cache {A} s id st1 s1 (m : M _ SdkError A) s' r :
  writes m → in_call s id st1 s1 → on_cache m s1 = (s', r) → in_call s id st1 s'.
Proof.
  intros Hm Hin. unfold on_cache. destruct (ic_cache _ _ _ _ Hin) as (c & Hc & HW). rewrite Hc.
  destruct (m c) as [c' r'] eqn:Hmc. intros [= <- <-]. destruct Hin. split; try done.
  exists c'. split; [done|]. etransitivity; [done|]. by eapply Hm.
Qed.

Lemma in_call_reversible s id st1 s' :
  sdb_wf s → sn_Snapshot (cx_store (cache_view s)) = (id, st1) → in_call s id st1 s' →
  ∃ es, reversible s es s'.
Proof.
  intros Hwf Hsn Hin. destruct (ic_cache _ _ _ _ Hin) as (c & Hc & HW). destruct Hin.
  eapply reversible_field; [done|done|done|rewrite ic_accessList0; apply Hwf|done|..].
  - simpl. unfold RevertMultiStore, on_cache. run_M. rewrite Hc.
    rewrite (sn_restore (cx_store (cache_view s)) id st1 (cx_store c) (wf_cache s Hwf) Hsn HW).
    run_M. done.
  - done.
  - split; try done; simpl; try congruence.
    + unfold cache_view at 1. simpl. by destruct (cache_view s).
    + intros b. unfold obj_of, kstore. simpl. rewrite ic_ctx0, ic_objects0. reflexivity.
  - unfold cache_view at 1. rewrite Hc. simpl. eapply sn_inv_writes; [exact HW|].
    pose proof (sn_inv_snapshot _ (wf_cache s Hwf)) as Hst. by rewrite Hsn in Hst.
Qed.

Lemma FlushToCacheCtx_in_call s id st1 s1 s' r :
  in_call s id st1 s1 → FlushToCacheCtx s1 = (s', r) → (∀ p, r ≠ Panic p) → in_call s id st1 s'.
Proof.
  intros Hin. unfold FlushToCacheCtx, mbind, M_bind, commit_to_cache.
  destruct (on_cache _ s1) as [s2 [[]|e|p]] eqn:Hc; intros Hrun Hp.
  - apply (in_call_cache s id st1) in Hc; [|apply commit_all_writes|done].
    destruct (on_cache (gets _) s2) as [s3 [n|e|p]] eqn:Hg.
    + apply (in_call_cache s id st1) in Hg; [|intros c c' x [= <- _]; reflexivity|done].
      injection Hrun as <- <-. destruct Hg. by split.
    + unfold on_cache in Hg. by destruct (sdb_cache s2).
    + simplify_eq. by destruct (Hp p).
  - simplify_eq. eapply in_call_cache; [apply commit_all_writes|done|done].
  - simplify_eq. by destruct (Hp p).
Qed.

Lemma native_call_reversible action :
  writes action → op_reversible (K := K) (native_call action).
Proof.
  intros Hact s s' r Hwf Hrun Hp.
  destruct (sn_Snapshot (cx_store (cache_view s))) as [id st1] eqn:Hsn.
  eapply in_call_reversible; [done|exact Hsn|].
  assert (Hget : GetCacheContext s = (set_cache (Some (cache_view s)) s, Ok (cache_view s))).
  { unfold GetCacheContext, cache, cache_view. run_M.
    destruct (sdb_cache s) as [c|] eqn:Hc; simpl; rewrite ?Hc; [by destruct s; simpl in *; subst|done]. }
  unfold native_call, begin_call, mbind, M_bind in Hrun. rewrite Hget in Hrun.
  assert (Hin : in_call s id st1
    (set_precompileCallsCounter (u8_add (sdb_precompileCallsCounter s) 1)
      (add_entry (precompileCallChange id (cx_events (cache_view s)) (sdb_processedEventsCount s))
        (set_cache (Some (mkCtx st1 (cx_events (cache_view s)))) s)))).
  { split; try done. eexists. split; [done|]. reflexivity. }
  revert Hrun. unfold MultiStoreSnapshot, on_cache at 1. simpl. rewrite Hsn.
  unfold AddPrecompileFn, mbind, M_bind, on_cache at 1. run_M.
  match goal with |- context [?b >? MaxPrecompileCalls] => destruct (b >? MaxPrecompileCalls) end.
  { intros [= <- <-]. done. }
  destruct (FlushToCacheCtx _) as [s2 [[]|e|p]] eqn:Hf; intros Hrun.
  - eapply in_call_cache; [exact Hact| |exact Hrun]. eapply FlushToCacheCtx_in_call; [exact Hin|exact Hf|done].
  - simplify_eq. eapply FlushToCacheCtx_in_call; [exact Hin|exact Hf|done].
  - simplify_eq. by destruct (Hp p).
Qed.

(** ** Sequences of operations *)

(** The operations the EVM and the precompiles perform within a transaction. *)
Inductive sdb_op :=
| OCreateAccount (a : Address)
| OCreateContract (a : Address)
| OSetBalance (a : Address) (amount : Z)
| OAddBalance (a : Address) (amount : Z)
| OSubBalance (a : Address) (amount : Z)
| OSetNonce (a : Address) (nonce : Z)
| OSetCode (a : Address) (code : code_t)
| OSetState (a : Address) (key value : Hash)
| OSetTransientState (a : Address) (key value : Hash)
| OSelfDestruct (a : Address)
| OSelfDestruct6780 (a : Address)
| OAddLog (content : string)
| OAddRefund (gas : Z)
| OSubRefund (gas : Z)
| OAddAddress (a : Address)
| OAddSlot (a : Address) (slot : Hash)
| OGetBalance (a : Address)
| OGetCode (a : Address)
| OGetState (a : Address) (key : Hash)
| OGetCommittedState (a : Address) (key : Hash)
| OPrecompile (action : M (sdkContext C Ev) SdkError unit) (Hw : writes action).

Definition exec (op : sdb_op) : M (StateDB K C Ev) SdkError unit :=
  match op with
  | OCreateAccount a => CreateAccount a
  | OCreateContract a => CreateContract a
  | OSetBalance a v => SetBalance a v
  | OAddBalance a v => AddBalance a v ;; mret tt
  | OSubBalance a v => SubBalance a v ;; mret tt
  | OSetNonce a n => SetNonce a n
  | OSetCode a c => SetCode a c ;; mret tt
  | OSetState a k v => SetState a k v ;; mret tt
  | OSetTransientState a k v => SetTransientState a k v
  | OSelfDestruct a => SelfDestruct a ;; mret tt
  | OSelfDestruct6780 a => SelfDestruct6780 a ;; mret tt
  | OAddLog c => AddLog c
  | OAddRefund g => AddRefund g
  | OSubRefund g => SubRefund g
  | OAddAddress a => AddAddressToAccessList a
  | OAddSlot a k => AddSlotToAccessList a k
  | OGetBalance a => GetBalance a ;; mret tt
  | OGetCode a => GetCode a ;; mret tt
  | OGetState a k => GetState a k ;; mret tt
  | OGetCommittedState a k => GetCommittedState a k ;; mret tt
  | OPrecompile action _ => native_call action
  end.

Lemma read_reversible {A} a (d : A) f :
  (∀ s o, sdb_wf s → live s a o → run_reversible (f o) s) →
  op_reversible (K := K) (C := C) (Ev := Ev) (read a d f).
Proof.
  intros Hf. apply op_on_object; [done|]. intros s Hwf _. by apply run_reversible_ret.
Qed.

Lemma run_quiet {A} (m : M (StateDB K C Ev) SdkError A) s s1 x :
  m s = (s1, Ok x) → reversible s [] s1 → run_reversible m s.
Proof. intros Hm Hr s' r Hrun _. rewrite Hm in Hrun. injection Hrun as <- <-. eauto. Qed.

Lemma exec_reversible op : op_reversible (exec op).
Proof.
  destruct op; simpl;
    try (apply op_reversible_bind; [|intros; apply op_reversible_ret]).
  - apply CreateAccount_reversible.
  - apply CreateContract_reversible.
  - apply SetBalance_reversible.
  - apply AddBalance_reversible.
  - apply SubBalance_reversible.
  - apply SetNonce_reversible.
  - apply SetCode_reversible.
  - apply SetState_reversible.
  - apply SetTransientState_reversible.
  - apply SelfDestruct_reversible.
  - apply SelfDestruct6780_reversible.
  - apply AddLog_reversible.
  - apply AddRefund_reversible.
  - apply SubRefund_reversible.
  - apply AddAddressToAccessList_reversible.
  - apply AddSlotToAccessList_reversible.
  - apply read_reversible. intros. by apply run_reversible_ret.
  - apply read_reversible. intros s o Hwf Hl.
    destruct (obj_Code_run s a o Hwf Hl) as (? & ? & ? & ? & _). by eapply run_quiet.
  - apply read_reversible. intros s o Hwf Hl.
    destruct (obj_GetState_run s a o key Hwf Hl) as (? & ? & ? & ? & _). by eapply run_quiet.
  - apply read_reversible. intros s o Hwf Hl.
    destruct (obj_GetCommittedState_run s a o key Hwf Hl) as (? & ? & ? & ? & _).
    by eapply run_quiet.
  - by apply native_call_reversible.
Qed.

(** The steps of a transaction in which revision [id] stays valid: operations
    (whose errors the caller may handle), snapshots, and reverts to revisions
    newer than [id]. *)
Inductive sdb_step (id : Z) : StateDB K C Ev → StateDB K C Ev → Prop :=
| step_op s s' op r : exec op s = (s', r) → (∀ p, r ≠ Panic p) → sdb_step id s s'
| step_snapshot s s' id' : Snapshot s = (s', Ok id') → sdb_step id s s'
| step_revert s s' id' : id < id' → RevertToSnapshot id' s = (s', Ok tt) → sdb_step id s s'.

(** The states the valid revisions stand for. *)
Record tracked s (gs : list (StateDB K C Ev)) : Prop := {
  tr_wf : sdb_wf s;
  tr_sorted : ∀ i j ri rj, sdb_validRevisions s !! i = Some ri →
    sdb_validRevisions s !! j = Some rj → (i < j)%nat → rev_id ri < rev_id rj;
  tr_mono : ∀ i j ri rj, sdb_validRevisions s !! i = Some ri →
    sdb_validRevisions s !! j = Some rj → (i < j)%nat →
    (rev_journalIndex ri ≤ rev_journalIndex rj)%nat;
  tr_next : ∀ i r, sdb_validRevisions s !! i = Some r → rev_id r < sdb_nextRevisionID s;
  tr_len : length gs = length (sdb_validRevisions s);
  tr_undo : ∀ i r g, sdb_validRevisions s !! i = Some r → gs !! i = Some g →
    rev_journalIndex r = length (j_entries (sdb_journal g)) ∧ ∃ es, undoes g es s;
  tr_ghost : ∀ i g, gs !! i = Some g →
    sdb_wf g ∧ sdb_validRevisions g = take i (sdb_validRevisions s);
}.

Lemma tracked_reversible s gs es s' : tracked s gs → reversible s es s' → tracked s' gs.
Proof.
  intros [] (Hu & Hwf & [Hv Hn]). split; rewrite ?Hv, ?Hn; try done.
  intros i r g Hi Hg. destruct (tr_undo0 i r g Hi Hg) as [? [es0 Hu0]]. split; [done|].
  exists (es0 ++ es). by eapply undoes_trans.
Qed.

Lemma undoes_refl s : undoes s [] s.
Proof. split; [by rewrite app_nil_r|]. by exists s. Qed.

(** The revisions play no role in undoing. *)
Lemma undoes_rebase g es s s' :
  j_entries (sdb_journal s') = j_entries (sdb_journal s) → restored s s' →
  undoes g es s → undoes g es s'.
Proof.
  intros He Hr Hu. rewrite <- (app_nil_r es). eapply undoes_trans; [done|].
  split; [by rewrite app_nil_r|]. by exists s'.
Qed.

Lemma tracked_snapshot s gs s' id :
  tracked s gs → Snapshot s = (s', Ok id) →
  id = sdb_nextRevisionID s ∧ tracked s' (gs ++ [s]) ∧
  sdb_validRevisions s' = sdb_validRevisions s ++ [mkRevision id (length (j_entries (sdb_journal s)))].
Proof.
  intros Ht [= <- <-]. split; [done|]. split; [|done]. destruct Ht.
  assert (Hlast : ∀ i r, (sdb_validRevisions s ++
            [mkRevision (sdb_nextRevisionID s) (length (j_entries (sdb_journal s)))]) !! i = Some r →
            sdb_validRevisions s !! i = Some r ∨
            i = length gs ∧ r = mkRevision (sdb_nextRevisionID s) (length (j_entries (sdb_journal s)))).
  { intros i r [?|[? Hr]]%lookup_app_Some; [by left|right].
    apply list_lookup_singleton_Some in Hr as [? <-]. split; [lia|done]. }
  split; simpl.
  - by destruct tr_wf0.
  - intros i j ri rj [Hi|[-> ->]]%Hlast [Hj|[-> ->]]%Hlast Hij.
    + by eapply tr_sorted0.
    + simpl. by eapply tr_next0.
    + apply lookup_lt_Some in Hj. lia.
    + lia.
  - intros i j ri rj [Hi|[-> ->]]%Hlast [Hj|[-> ->]]%Hlast Hij.
    + by eapply tr_mono0.
    + apply lookup_lt_Some in Hi as Hlt. rewrite <- tr_len0 in Hlt.
      destruct (lookup_lt_is_Some_2 gs i Hlt) as [g Hg].
      destruct (tr_undo0 i ri g Hi Hg) as [-> [es [He _]]]. simpl. rewrite He, length_app. lia.
    + apply lookup_lt_Some in Hj. lia.
    + lia.
  - intros i r [Hi|[-> ->]]%Hlast; [apply tr_next0 in Hi; lia|simpl; lia].
  - rewrite !length_app. simpl. lia.
  - intros i r g Hi Hg. apply Hlast in Hi as [Hi|[-> ->]].
    + apply lookup_lt_Some in Hi as Hlt. rewrite lookup_app_l in Hg by lia.
      destruct (tr_undo0 i r g Hi Hg) as [? [es Hu]]. split; [done|]. exists es.
      by eapply undoes_rebase; [| |exact Hu].
    + rewrite lookup_app_r, Nat.sub_diag in Hg by lia. injection Hg as <-.
      split; [done|]. exists []. by eapply undoes_rebase; [| |apply undoes_refl].
  - intros i g [Hg|[? Hg]]%lookup_app_Some.
    + apply lookup_lt_Some in Hg as Hlt. rewrite take_app_le by lia. by apply tr_ghost0.
    + apply list_lookup_singleton_Some in Hg as [Hi <-]. split; [done|].
      replace i with (length (sdb_validRevisions s)) by lia. by rewrite take_app_length.
Qed.

(** The binary search finds the revision. *)
Lemma search_revision s gs i r :
  tracked s gs → sdb_validRevisions s !! i = Some r →
  Search (length (sdb_validRevisions s)) (λ x, match sdb_validRevisions s !! x with
                                               | Some r' => rev_id r' >=? rev_id r
                                               | None => false
                                               end) = i.
Proof.
  intros Ht Hi. set (f := λ x : nat, _).
  assert (Hmono : ∀ x y, (x ≤ y < length (sdb_validRevisions s))%nat → f x = true → f y = true).
  { intros x y Hxy Hx. unfold f in *. destruct (sdb_validRevisions s !! x) as [rx|] eqn:Ex; [|done].
    destruct (lookup_lt_is_Some_2 (sdb_validRevisions s) y) as [ry Ey]; [lia|]. rewrite Ey. zbool.
    destruct (decide (x = y)) as [->|]; [simplify_eq; lia|].
    pose proof (tr_sorted _ _ Ht x y rx ry Ex Ey ltac:(lia)). lia. }
  destruct (Search_spec _ f Hmono) as (Hle & Hlow & Hhigh).
  set (k := Search _ f) in *. apply lookup_lt_Some in Hi as Hlt.
  assert (Hfi : f i = true) by (unfold f; rewrite Hi; zbool; lia).
  destruct (decide (k < i)%nat) as [Hki|].
  - exfalso. assert (Hfk : f k = true) by (apply Hhigh; lia). unfold f in Hfk.
    destruct (sdb_validRevisions s !! k) as [rk|] eqn:Ek; [|done]. zbool.
    pose proof (tr_sorted _ _ Ht k i rk r Ek Hi Hki). lia.
  - destruct (decide (i < k)%nat) as [Hik|]; [|lia]. by rewrite (Hlow i Hik) in Hfi.
Qed.

Lemma journal_Revert_run s g es :
  sdb_wf s → sdb_wf g → undoes g es s →
  ∃ s'' s', for_each (reverse es) revert_entry s = (s'', Ok tt) ∧
    journal_Revert (length (j_entries (sdb_journal g))) s = (s', Ok tt) ∧
    restored g s' ∧ j_entries (sdb_journal s') = j_entries (sdb_journal g) ∧
    sdb_wf s' ∧ same_revisions s s' ∧ restored s'' s'.
Proof.
  intros Hwf Hwfg [He (s'' & Hrun & Hr)].
  destruct (revert_all_frame _ _ _ (wf_keyed s Hwf) Hrun) as [Hk (Hf1 & Hf2 & Hf3)].
  eexists s'', _. split; [done|]. split.
  - unfold journal_Revert, mbind, M_bind, gets, modify. rewrite He.
    rewrite drop_app_length, Hrun, take_app_length. done.
  - split_and!.
    + destruct Hr. by split.
    + done.
    + destruct Hr, Hwfg. split; simpl; [done|by rewrite rs_accessList|by rewrite rs_dirties|].
      rewrite <- rs_cache in wf_cache. exact wf_cache.
    + done.
    + by split.
Qed.

(** Reverting to a valid revision. *)
Lemma revert_tracked s gs i r g :
  tracked s gs → sdb_validRevisions s !! i = Some r → gs !! i = Some g →
  ∃ s', RevertToSnapshot (rev_id r) s = (s', Ok tt) ∧ restored g s' ∧
    j_entries (sdb_journal s') = j_entries (sdb_journal g) ∧
    sdb_validRevisions s' = take i (sdb_validRevisions s) ∧ tracked s' (take i gs).
Proof.
  intros Ht Hi Hg. destruct (tr_undo _ _ Ht i r g Hi Hg) as [Hidx [es Hu]].
  destruct (tr_ghost _ _ Ht i g Hg) as [Hwfg Hvg].
  destruct (journal_Revert_run s g es (tr_wf _ _ Ht) Hwfg Hu)
    as (s'' & s1 & Hback & Hrun & Hr & He & Hwf1 & [Hv1 Hn1] & Hr1).
  exists (set_validRevisions (take i (sdb_validRevisions s)) s1). split_and!.
  - unfold RevertToSnapshot, mbind, M_bind, gets at 1. rewrite (search_revision s gs i r Ht Hi), Hi.
    rewrite Z.eqb_refl. simpl. rewrite Hidx, Hrun. done.
  - destruct Hr. by split.
  - done.
  - done.
  - apply lookup_lt_Some in Hi as Hlt. pose proof (tr_len _ _ Ht) as Hlen. split; simpl.
    + by destruct Hwf1.
    + intros x y rx ry [Hx _]%lookup_take_Some [Hy _]%lookup_take_Some. by eapply tr_sorted.
    + intros x y rx ry [Hx _]%lookup_take_Some [Hy _]%lookup_take_Some. by eapply tr_mono.
    + intros x rx [Hx _]%lookup_take_Some. rewrite Hn1. by eapply tr_next.
    + rewrite !length_take. lia.
    + intros x rx gx [Hx Hxi]%lookup_take_Some [Hgx _]%lookup_take_Some.
      destruct (tr_undo _ _ Ht x rx gx Hx Hgx) as [Hidx' [es' Hu']]. split; [done|].
      (* the entries of [s] after [gx]: first those of [g], then [es] *)
      destruct Hu as [Hes _], Hu' as [Hes' (t & Hback' & Hrt)].
      assert (∃ mid, es' = mid ++ es ∧ j_entries (sdb_journal g) = j_entries (sdb_journal gx) ++ mid)
        as (mid & -> & Hmid).
      { rewrite Hes in Hes'. symmetry in Hes'.
        destruct (app_split_earlier _ _ _ _ Hes') as (mid & ? & ?); [|by exists mid].
        rewrite <- Hidx, <- Hidx'. eapply (tr_mono _ _ Ht x i); [done|done|lia]. }
      exists mid. rewrite reverse_app in Hback'. apply revert_all_app in Hback' as (t1 & Hb1 & Hb2).
      rewrite Hback in Hb1. injection Hb1 as <-.
      split; [simpl; by rewrite He|].
      assert (Hr2 : restored s'' (set_validRevisions (take i (sdb_validRevisions s)) s1))
        by (destruct Hr1; by split).
      destruct (revert_all_restored _ _ _ _ Hr2 Hb2) as (t2 & Ht2 & Hr3).
      exists t2. split; [done|]. by etransitivity.
    + intros x gx [Hgx Hxi]%lookup_take_Some. rewrite take_take, Nat.min_l by lia.
      by eapply tr_ghost.
Qed.

Lemma revert_found s s' id :
  RevertToSnapshot id s = (s', Ok tt) → ∃ i r, sdb_validRevisions s !! i = Some r ∧ rev_id r = id.
Proof.
  unfold RevertToSnapshot, mbind, M_bind, gets at 1. set (k := Search _ _). intros Hrun.
  destruct (sdb_validRevisions s !! k) as [r|] eqn:Hk; [|done].
  destruct (Z.eqb_spec (rev_id r) id); [eauto|done].
Qed.

(** A step keeps the tracked states of the revisions up to [id]. *)
Lemma step_tracked id s s' gs :
  sdb_step id s s' → tracked s gs →
  ∃ gs', tracked s' gs' ∧
    ∀ i r g, sdb_validRevisions s !! i = Some r → rev_id r ≤ id → gs !! i = Some g →
      sdb_validRevisions s' !! i = Some r ∧ gs' !! i = Some g.
Proof.
  intros [t t' op res Hrun Hp|t t' id' Hrun|t t' id' Hlt Hrun] Ht.
  - destruct (exec_reversible op t t' res (tr_wf _ _ Ht) Hrun Hp) as [es Hr].
    exists gs. split; [by eapply tracked_reversible|]. destruct Hr as (_ & _ & [-> _]). done.
  - destruct (tracked_snapshot t gs t' id' Ht Hrun) as (_ & Ht' & Hv).
    exists (gs ++ [t]). split; [done|]. intros i r g Hi _ Hg. rewrite Hv.
    split; by apply lookup_app_l_Some.
  - destruct (revert_found _ _ _ Hrun) as (k & rk & Hk & Hid).
    destruct (lookup_lt_is_Some_2 gs k) as [gk Hgk].
    { rewrite (tr_len _ _ Ht). by eapply lookup_lt_Some. }
    destruct (revert_tracked t gs k rk gk Ht Hk Hgk) as (t1 & Hrun1 & _ & _ & Hv & Ht').
    rewrite Hid, Hrun in Hrun1. injection Hrun1 as <-.
    exists (take k gs). split; [done|]. intros i r g Hi Hle Hg. rewrite Hv.
    assert (i < k)%nat.
    { destruct (decide (i < k)%nat); [done|]. exfalso.
      destruct (decide (i = k)) as [->|]; [simplify_eq; lia|].
      pose proof (tr_sorted _ _ Ht k i rk r Hk Hi ltac:(lia)). lia. }
    split; apply lookup_take_Some; done.
Qed.

Lemma steps_tracked id s s' gs :
  rtc (sdb_step id) s s' → tracked s gs →
  ∃ gs', tracked s' gs' ∧
    ∀ i r g, sdb_validRevisions s !! i = Some r → rev_id r ≤ id → gs !! i = Some g →
      sdb_validRevisions s' !! i = Some r ∧ gs' !! i = Some g.
Proof.
  intros Hsteps. revert gs. induction Hsteps as [s|s s1 s2 Hstep _ IH]; intros gs Ht.
  - by exists gs.
  - destruct (step_tracked id s s1 gs Hstep Ht) as (gs1 & Ht1 & H1).
    destruct (IH gs1 Ht1) as (gs2 & Ht2 & H2). exists gs2. split; [done|].
    intros i r g Hi Hle Hg. destruct (H1 i r g Hi Hle Hg) as [??]. by apply H2.
Qed.

Lemma New_tracked ctx tx :
  cache_inv (cc_new (cx_store ctx)) → tracked (New ctx tx) [].
Proof. intros Hinv. by split. Qed.
(** Reverting to a snapshot restores the state it was taken in. *)
Lemma snapshot_restored ctx tx (s0 s1 s2 : StateDB K C Ev) id :
  cache_inv (cc_new (cx_store ctx)) →
  rtc (sdb_step (-1)) (New ctx tx) s0 → Snapshot s0 = (s1, Ok id) →
  rtc (sdb_step id) s1 s2 →
  ∃ s3, RevertToSnapshot id s2 = (s3, Ok tt) ∧ restored s0 s3 ∧
    j_entries (sdb_journal s3) = j_entries (sdb_journal s0) ∧
    sdb_validRevisions s3 = sdb_validRevisions s0.
Proof.
  intros Hinv H0 Hsnap H2.
  destruct (steps_tracked _ _ _ _ H0 (New_tracked ctx tx Hinv)) as (gs0 & Ht0 & _).
  destruct (tracked_snapshot s0 gs0 s1 id Ht0 Hsnap) as (Hid & Ht1 & Hv1).
  destruct (steps_tracked _ _ _ _ H2 Ht1) as (gs2 & Ht2 & Hkeep).
  destruct (Hkeep (length gs0) (mkRevision id (length (j_entries (sdb_journal s0)))) s0) as [Hr Hg].
  { rewrite Hv1, lookup_app_r, (tr_len _ _ Ht0), Nat.sub_diag by (rewrite (tr_len _ _ Ht0); lia). done. }
  { simpl. lia. }
  { rewrite lookup_app_r, Nat.sub_diag by lia. done. }
  destruct (revert_tracked s2 gs2 _ _ _ Ht2 Hr Hg) as (s3 & Hrun & Hres & He & Hv & _).
  exists s3. split_and!; [done..|]. rewrite Hv.
  by destruct (tr_ghost _ _ Ht2 _ _ Hg) as [_ ->].
Qed.
End Journal.
