(* ===== verification/SnapshotStore.v ===== *)
(** The snapshot stores behind the cache context of precompile calls
    ([x/vm/store/snapshotkv], [x/vm/store/snapshotmulti]).

    A [CacheWrap] of the SDK is a layer of pending writes over a parent.  [L] is
    the type of layers, [cw_new] an empty layer, [cw_merge child parent] what
    [child.Write()] makes of its parent and [cw_apply] what a layer makes of the
    underlying store [B].  The multi store implements the [Snapshotter] interface
    of the state database. *)
From S2P Require Import Prelude GoStd AccessList Sdk StateDB StateDBRevert.

Class CacheWrap (L B : Type) := {
  cw_new : L;
  cw_merge : L → L → L;
  cw_apply : L → B → B;
}.

(** Writing a layer into its parent and then the parent has the effect of both;
    an empty layer has none. *)
Class CacheWrapLaws (L B : Type) `{CacheWrap L B} : Prop := {
  cw_apply_new b : cw_apply cw_new b = b;
  cw_apply_merge child parent b :
    cw_apply (cw_merge child parent) b = cw_apply child (cw_apply parent b);
}.

(** [types.InitialHead]. *)
Definition InitialHead : Z := 0.

(** ** [snapshotkv.Store] *)

Record kvStore (L : Type) := mkKV { kv_initialStore : L; kv_cacheStores : list L }.
Arguments mkKV {L}.
Arguments kv_initialStore {L}.
Arguments kv_cacheStores {L}.

Section KV.
Context {L B : Type} `{HCW : CacheWrap L B}.
Implicit Types cs : kvStore L.

Definition kv_NewStore (store : L) : kvStore L := mkKV store [].

Definition kv_CurrentStore cs : L := default (kv_initialStore cs) (last (kv_cacheStores cs)).

(** Writing through the current store. *)
Definition kv_update (f : L → L) cs : kvStore L :=
  match length (kv_cacheStores cs) with
  | O => mkKV (f (kv_initialStore cs)) []
  | S n => mkKV (kv_initialStore cs) (alter f n (kv_cacheStores cs))
  end.

(** The loop of [Commit]: the layers are written from the top to the bottom,
    then the initial store is written to the store it wraps. *)
Definition kv_flatten cs : L :=
  match reverse (kv_cacheStores cs) with
  | [] => kv_initialStore cs
  | top :: rest => cw_merge (foldl cw_merge top rest) (kv_initialStore cs)
  end.
Definition kv_Commit cs (b : B) : kvStore L * B :=
  (mkKV cw_new [], cw_apply (kv_flatten cs) b).

Definition kv_Snapshot cs : Z * kvStore L :=
  let stores := kv_cacheStores cs ++ [cw_new] in
  (Z.of_nat (length stores) - 1, mkKV (kv_initialStore cs) stores).

Definition kv_RevertToSnapshot (target : Z) cs : option (kvStore L) :=
  if (target <? 0) || (target >=? Z.of_nat (length (kv_cacheStores cs))) then None
  else Some (mkKV (kv_initialStore cs) (take (Z.to_nat target) (kv_cacheStores cs))).

(** What is read through the store: all layers over the wrapped store. *)
Definition kv_view cs (b : B) : B :=
  foldl (λ b l, cw_apply l b) (cw_apply (kv_initialStore cs) b) (kv_cacheStores cs).

Lemma kv_view_snapshot `{!CacheWrapLaws L B} cs b : kv_view (kv_Snapshot cs).2 b = kv_view cs b.
Proof. unfold kv_view, kv_Snapshot. simpl. rewrite foldl_app. simpl. apply cw_apply_new. Qed.

Lemma merge_layers `{!CacheWrapLaws L B} (rest : list L) top b :
  cw_apply (foldl cw_merge top rest) b =
  cw_apply top (foldl (λ b l, cw_apply l b) b (reverse rest)).
Proof.
  revert top. induction rest as [|l rest IH]; intros top; simpl; [done|].
  rewrite IH, reverse_cons, foldl_app, cw_apply_merge. done.
Qed.

(** Committing does not change what is read: the layers end up in the wrapped
    store. *)
Lemma kv_Commit_view `{!CacheWrapLaws L B} cs b :
  let '(cs', b') := kv_Commit cs b in
  b' = kv_view cs b ∧ kv_view cs' b' = kv_view cs b ∧ kv_cacheStores cs' = [].
Proof.
  assert (Hb : cw_apply (kv_flatten cs) b = kv_view cs b).
  { unfold kv_flatten, kv_view. destruct (reverse (kv_cacheStores cs)) as [|top rest] eqn:Hr.
    - apply (f_equal reverse) in Hr. rewrite reverse_involutive in Hr. by rewrite Hr.
    - apply (f_equal reverse) in Hr. rewrite reverse_involutive, reverse_cons in Hr. rewrite Hr.
      rewrite cw_apply_merge, merge_layers, foldl_app. done. }
  unfold kv_Commit. split_and!; [done| |done]. unfold kv_view at 1. simpl.
  by rewrite cw_apply_new.
Qed.

(** [kv_writes cs cs']: [cs'] came from [cs] by writing through the current store
    and by taking further snapshots: the layers below the top are untouched. *)
Definition kv_writes cs cs' : Prop :=
  (length (kv_cacheStores cs) ≤ length (kv_cacheStores cs'))%nat ∧
  (kv_cacheStores cs ≠ [] → kv_initialStore cs' = kv_initialStore cs) ∧
  ∀ i, (S i < length (kv_cacheStores cs))%nat → kv_cacheStores cs' !! i = kv_cacheStores cs !! i.

#[global] Instance kv_writes_preorder : PreOrder kv_writes.
Proof.
  split; [done|]. intros c1 c2 c3 (Hl1 & Hi1 & Hx1) (Hl2 & Hi2 & Hx2). split_and!; [lia|..].
  - intros Hne. rewrite Hi2, Hi1; [done|done|].
    destruct (kv_cacheStores c1), (kv_cacheStores c2); simpl in *; try done; lia.
  - intros i Hi. rewrite Hx2 by lia. by apply Hx1.
Qed.

Lemma kv_update_writes f cs : kv_writes cs (kv_update f cs).
Proof.
  unfold kv_update. destruct (length (kv_cacheStores cs)) as [|n] eqn:Hn.
  - apply nil_length_inv in Hn. unfold kv_writes. simpl. rewrite Hn. simpl. split_and!; [lia|done|].
    intros; lia.
  - unfold kv_writes. simpl. rewrite length_alter, Hn. split_and!; [lia|done|].
    intros i Hi. apply list_lookup_alter_ne. lia.
Qed.

Lemma kv_Snapshot_writes cs : kv_writes cs (kv_Snapshot cs).2.
Proof.
  unfold kv_writes, kv_Snapshot. simpl. rewrite length_app. split_and!; [lia|done|].
  intros i Hi. rewrite lookup_app_l by lia. done.
Qed.

(** Reverting undoes everything since the snapshot. *)
Lemma kv_restore cs id cs1 cs2 :
  kv_Snapshot cs = (id, cs1) → kv_writes cs1 cs2 → kv_RevertToSnapshot id cs2 = Some cs.
Proof.
  unfold kv_Snapshot. intros [= <- <-] (Hl & Hi & Hx). simpl in *. rewrite length_app in *. simpl in *.
  unfold kv_RevertToSnapshot.
  destruct (Z.ltb_spec (Z.of_nat (length (kv_cacheStores cs) + 1) - 1) 0); [lia|].
  rewrite Z.geb_leb.
  destruct (Z.leb_spec (Z.of_nat (length (kv_cacheStores cs2)))
              (Z.of_nat (length (kv_cacheStores cs) + 1) - 1)); [lia|]. simpl.
  rewrite Hi by by destruct (kv_cacheStores cs).
  replace (Z.to_nat (Z.of_nat (length (kv_cacheStores cs) + 1) - 1))
    with (length (kv_cacheStores cs)) by lia.
  destruct cs as [ini stores]. simpl in *. f_equal. f_equal. apply list_eq. intros i.
  destruct (decide (i < length stores)%nat).
  - rewrite lookup_take_lt by done. rewrite Hx by lia. by rewrite lookup_app_l.
  - rewrite lookup_take_ge by lia. symmetry. apply lookup_ge_None. lia.
Qed.
End KV.

(** ** [snapshotmulti.Store] *)

(** Store keys are compared by identity and have unique names. *)
Record multiStore (L : Type) := mkMulti {
  ms_stores : gmap string (kvStore L);
  ms_storeKeys : list string;
  ms_head : Z;
}.
Arguments mkMulti {L}.
Arguments ms_stores {L}.
Arguments ms_storeKeys {L}.
Arguments ms_head {L}.

(** [vmtypes.SortedKVStoreKeys], [sort.Strings]. *)
Definition string_le (x y : string) : Prop := String.leb x y = true.
#[global] Instance string_le_dec x y : Decision (string_le x y).
Proof. unfold string_le. apply _. Defined.
Definition SortedKVStoreKeys {A} (keys : gmap string A) : list string :=
  merge_sort string_le (map_to_list keys).*1.

Section Multi.
Context {L B : Type} `{HCW : CacheWrap L B}.
Implicit Types s : multiStore L.

(** [cms.GetKVStore] gives the layer that every key's store starts from. *)
Definition ms_NewStore (cms : gmap string L) : multiStore L :=
  mkMulti (kv_NewStore <$> cms) (SortedKVStoreKeys cms) InitialHead.

(** A loop over [storeKeys] that replaces the store of each key. *)
Definition ms_each (f : kvStore L → kvStore L) s : gmap string (kvStore L) :=
  foldl (λ m k, alter f k m) (ms_stores s) (ms_storeKeys s).

Definition ms_Snapshot s : Z * multiStore L :=
  let head := ms_head s + 1 in
  (head - 1, mkMulti (ms_each (λ cs, (kv_Snapshot cs).2) s) (ms_storeKeys s) head).

Definition revert_store (target : Z) (acc : option (gmap string (kvStore L))) (k : string) :
    option (gmap string (kvStore L)) :=
  m ← acc;
  match m !! k with
  | Some cs => cs' ← kv_RevertToSnapshot target cs; Some (<[k:=cs']> m)
  | None => None
  end.
Definition ms_RevertToSnapshot (target : Z) s : option (multiStore L) :=
  m ← foldl (revert_store target) (Some (ms_stores s)) (ms_storeKeys s);
  Some (mkMulti m (ms_storeKeys s) target).

(** [GetStore], [GetKVStore]: [None] is the panic on an unregistered key. *)
Definition ms_GetKVStore s (key : string) : option L := kv_CurrentStore <$> ms_stores s !! key.
Definition ms_LatestVersion s : Z := ms_head s.

(** [CacheMultiStore] takes a snapshot and returns the store itself. *)
Definition ms_CacheMultiStore s : multiStore L := (ms_Snapshot s).2.

(** [Write] commits every store to the store of its key in [base]. *)
Definition ms_Write s (base : gmap string B) : multiStore L * gmap string B :=
  (mkMulti (ms_each (λ _, mkKV cw_new []) s) (ms_storeKeys s) InitialHead,
   foldl (λ b k, match ms_stores s !! k, b !! k with
                 | Some cs, Some st => <[k := (kv_Commit cs st).2]> b
                 | _, _ => b
                 end) base (ms_storeKeys s)).

(** *** Invariant: the keys are exactly the stores, and all stacks are as high
    as [head] says. *)
Record ms_ok s : Prop := {
  ok_nodup : NoDup (ms_storeKeys s);
  ok_keys k : k ∈ ms_storeKeys s ↔ is_Some (ms_stores s !! k);
  ok_head k cs : ms_stores s !! k = Some cs → Z.of_nat (length (kv_cacheStores cs)) = ms_head s;
}.

Lemma each_lookup (f : kvStore L → kvStore L) (keys : list string)
    (m : gmap string (kvStore L)) k :
  NoDup keys → foldl (λ m k, alter f k m) m keys !! k = if decide (k ∈ keys) then f <$> m !! k else m !! k.
Proof.
  revert m. induction keys as [|k' keys IH]; intros m Hnd; simpl; [done|].
  apply NoDup_cons in Hnd as [Hnin Hnd]. rewrite IH by done.
  destruct (decide (k' = k)) as [->|Hne].
  - rewrite decide_False, decide_True by set_solver. by rewrite lookup_alter_eq.
  - rewrite lookup_alter_ne by done. repeat case_decide; set_solver.
Qed.

Lemma ms_each_lookup f s k : ms_ok s → ms_each f s !! k = f <$> ms_stores s !! k.
Proof.
  intros Hok. unfold ms_each. rewrite each_lookup by apply Hok. case_decide as Hk; [done|].
  destruct (ms_stores s !! k) eqn:Hs; [|done]. destruct Hk. apply Hok. by eexists.
Qed.

Lemma ms_NewStore_ok cms : ms_ok (ms_NewStore cms).
Proof.
  split; simpl.
  - unfold SortedKVStoreKeys. rewrite merge_sort_Permutation. apply NoDup_fst_map_to_list.
  - intros k. unfold SortedKVStoreKeys. rewrite merge_sort_Permutation, lookup_fmap, fmap_is_Some.
    rewrite list_elem_of_fmap. split.
    + intros ([k' v] & -> & Hin). apply elem_of_map_to_list in Hin. simpl. eauto.
    + intros [v Hv]. exists (k, v). split; [done|]. by apply elem_of_map_to_list.
  - intros k cs Hk. rewrite lookup_fmap in Hk. destruct (cms !! k); simpl in Hk; simplify_eq. done.
Qed.

Lemma ms_Snapshot_ok s : ms_ok s → ms_ok (ms_Snapshot s).2.
Proof.
  intros Hok. split; simpl.
  - apply Hok.
  - intros k. rewrite ms_each_lookup, fmap_is_Some by done. apply Hok.
  - intros k cs Hk. rewrite ms_each_lookup in Hk by done.
    destruct (ms_stores s !! k) as [cs0|] eqn:Hs; simpl in Hk; simplify_eq.
    apply (ok_head s Hok) in Hs. simpl. rewrite length_app. simpl. lia.
Qed.

(** [ms_writes]: writing through the current stores and taking snapshots. *)
Record ms_writes s s' : Prop := {
  mw_ok : ms_ok s → ms_ok s';
  mw_keys : ms_storeKeys s' = ms_storeKeys s;
  mw_stores k cs : ms_stores s !! k = Some cs →
    ∃ cs', ms_stores s' !! k = Some cs' ∧ kv_writes cs cs';
  mw_dom k : ms_stores s !! k = None → ms_stores s' !! k = None;
}.

#[global] Instance ms_writes_preorder : PreOrder ms_writes.
Proof.
  split.
  - intros s. split; try done. intros k cs Hk. exists cs. by split.
  - intros s1 s2 s3 [] []. split; try congruence; auto.
    intros k cs Hk. destruct (mw_stores0 k cs Hk) as (cs2 & Hk2 & H12).
    destruct (mw_stores1 k cs2 Hk2) as (cs3 & Hk3 & H23). exists cs3. split; [done|]. by etransitivity.
Qed.

Lemma revert_each_lookup target (keys : list string) (m m' : gmap string (kvStore L)) :
  NoDup keys → foldl (revert_store target) (Some m) keys = Some m' →
  ∀ k, m' !! k = if decide (k ∈ keys) then m !! k ≫= kv_RevertToSnapshot target else m !! k.
Proof.
  revert m. induction keys as [|k' keys IH]; intros m Hnd Hf k; simpl in *; [by simplify_eq|].
  apply NoDup_cons in Hnd as [Hnin Hnd].
  assert (Hnone : ∀ l, foldl (revert_store target) None l = None) by (by induction l).
  destruct (m !! k') as [cs|] eqn:Hk'; [|by rewrite Hnone in Hf].
  destruct (kv_RevertToSnapshot target cs) as [cs'|] eqn:Hr; simpl in Hf; [|by rewrite Hnone in Hf].
  rewrite (IH _ Hnd Hf k). destruct (decide (k' = k)) as [<-|Hne].
  - rewrite (decide_False (P := k' ∈ keys)), decide_True by set_solver.
    by rewrite lookup_insert_eq, Hk'.
  - rewrite lookup_insert_ne by done. repeat case_decide; set_solver.
Qed.

Lemma revert_each_total target (keys : list string) (m : gmap string (kvStore L)) :
  NoDup keys →
  (∀ k, k ∈ keys → ∃ cs cs', m !! k = Some cs ∧ kv_RevertToSnapshot target cs = Some cs') →
  ∃ m', foldl (revert_store target) (Some m) keys = Some m'.
Proof.
  revert m. induction keys as [|k keys IH]; intros m Hnd Hk; simpl; [by eexists|].
  apply NoDup_cons in Hnd as [Hnin Hnd].
  destruct (Hk k) as (cs & cs' & Hm & Hr); [set_solver|]. rewrite Hm. simpl. rewrite Hr. simpl.
  apply IH; [done|]. intros k2 Hk2. destruct (Hk k2) as (cs2 & cs2' & ? & ?); [set_solver|].
  exists cs2, cs2'. rewrite lookup_insert_ne by set_solver. done.
Qed.

(** Snapshot, writes, revert: the store is back. *)
Lemma ms_restore s id s1 s2 :
  ms_ok s → ms_Snapshot s = (id, s1) → ms_writes s1 s2 → ms_RevertToSnapshot id s2 = Some s.
Proof.
  intros Hok Hsn Hw. unfold ms_Snapshot in Hsn. injection Hsn as <- <-.
  assert (Hstore : ∀ k cs, ms_stores s !! k = Some cs →
            ∃ cs2, ms_stores s2 !! k = Some cs2 ∧ kv_RevertToSnapshot (ms_head s) cs2 = Some cs).
  { intros k cs Hk. destruct (mw_stores _ _ Hw k (kv_Snapshot cs).2) as (cs2 & Hk2 & Hw2).
    { simpl. by rewrite ms_each_lookup, Hk. }
    exists cs2. split; [done|]. rewrite <- (ok_head s Hok k cs Hk).
    apply (kv_restore cs _ (kv_Snapshot cs).2); [|done]. unfold kv_Snapshot. simpl.
    rewrite length_app. simpl. f_equal. lia. }
  replace (ms_head s + 1 - 1) with (ms_head s) by lia.
  pose proof (mw_keys _ _ Hw) as Hkeys. simpl in Hkeys.
  unfold ms_RevertToSnapshot. rewrite Hkeys.
  destruct (revert_each_total (ms_head s) (ms_storeKeys s) (ms_stores s2)) as [m' Hm'].
  - apply Hok.
  - intros k Hk. apply (ok_keys s Hok) in Hk as [cs Hk].
    destruct (Hstore k cs Hk) as (cs2 & ? & ?). by exists cs2, cs.
  - rewrite Hm'. simpl. destruct s as [stores keys head]. f_equal. f_equal. simpl in *.
    apply map_eq. intros k. rewrite (revert_each_lookup _ _ _ _ (ok_nodup _ Hok) Hm' k).
    destruct (stores !! k) as [cs|] eqn:Hk.
    + rewrite decide_True by (apply (ok_keys _ Hok); simpl; by eexists).
      destruct (Hstore k cs Hk) as (cs2 & -> & Hr). done.
    + rewrite decide_False.
      2:{ intros Hin. apply (ok_keys _ Hok) in Hin as [? ?]. simpl in *. congruence. }
      apply (mw_dom _ _ Hw). simpl. rewrite ms_each_lookup by done. simpl. by rewrite Hk.
Qed.
End Multi.

(** ** The interface of the state database *)

Section Interface.
Context {L B : Type} `{HCW : CacheWrap L B, HCWL : !CacheWrapLaws L B}.

#[global] Instance ms_CacheInv : CacheInv (multiStore L) := ms_ok.

#[global] Instance ms_Snapshotter : Snapshotter (multiStore L) := {
  sn_Snapshot := ms_Snapshot;
  sn_RevertToSnapshot := ms_RevertToSnapshot;
}.

#[global] Instance ms_SnapshotterLaws : SnapshotterLaws (multiStore L) ms_writes.
Proof.
  split.
  - apply _.
  - intros c. apply ms_Snapshot_ok.
  - intros c c' Hw Hok. by eapply mw_ok.
  - intros c id c1 c2. apply ms_restore.
Qed.

(** [ctx.CacheContext] wraps every store in an empty layer. *)
#[global] Instance ms_CacheContext : CacheContext (gmap string B) (multiStore L) := {
  cc_new base := ms_NewStore ((λ _, cw_new) <$> base);
  cc_write s base := (ms_Write s base).2;
}.

Lemma cc_new_inv (base : gmap string B) : cache_inv (cc_new base : multiStore L).
Proof. apply ms_NewStore_ok. Qed.

(** Writing through the current store of one key. *)
Definition ms_update (key : string) (f : L → L) (s : multiStore L) : multiStore L :=
  mkMulti (alter (kv_update f) key (ms_stores s)) (ms_storeKeys s) (ms_head s).

Lemma kv_update_length f (cs : kvStore L) :
  length (kv_cacheStores (kv_update f cs)) = length (kv_cacheStores cs).
Proof.
  unfold kv_update. destruct (length (kv_cacheStores cs)) eqn:Hn; simpl; [done|].
  by rewrite length_alter.
Qed.

Lemma ms_update_writes key f s : ms_writes s (ms_update key f s).
Proof.
  split; simpl.
  - intros Hok. split; simpl.
    + apply Hok.
    + intros k. rewrite (ok_keys s Hok). destruct (decide (key = k)) as [<-|].
      * rewrite lookup_alter_eq. by rewrite fmap_is_Some.
      * by rewrite lookup_alter_ne.
    + intros k cs Hk. destruct (decide (key = k)) as [<-|].
      * rewrite lookup_alter_eq in Hk. destruct (ms_stores s !! key) as [cs0|] eqn:H0; simpl in Hk; simplify_eq.
        rewrite kv_update_length. by eapply ok_head.
      * rewrite lookup_alter_ne in Hk by done. by eapply ok_head.
  - done.
  - intros k cs Hk. destruct (decide (key = k)) as [<-|].
    + rewrite lookup_alter_eq, Hk. eexists. split; [done|]. apply kv_update_writes.
    + rewrite lookup_alter_ne by done. exists cs. by split.
  - intros k Hk. destruct (decide (key = k)) as [<-|]; [by rewrite lookup_alter_eq, Hk|].
    by rewrite lookup_alter_ne.
Qed.

(** After [Write] no earlier snapshot can be reverted to. *)
Lemma ms_Write_invalidates s base target key :
  ms_ok s → key ∈ ms_storeKeys s → ms_RevertToSnapshot target (ms_Write s base).1 = None.
Proof.
  intros Hok Hkey. unfold ms_RevertToSnapshot, ms_Write. simpl.
  destruct (foldl _ _ _) as [m'|] eqn:Hf; [|done]. exfalso.
  assert (Hnone : ∀ l, foldl (revert_store target) (None : option (gmap string (kvStore L))) l = None)
    by (by induction l).
  destruct (ms_storeKeys s) as [|k keys] eqn:Hk; [set_solver|].
  assert (is_Some (ms_stores s !! k)) as [cs Hcs] by (apply (ok_keys s Hok); rewrite Hk; left).
  assert (revert_store target (Some (ms_each (λ _ : kvStore L, mkKV cw_new []) s)) k = None) as Hr.
  { unfold revert_store. simpl. rewrite ms_each_lookup, Hcs by done. simpl.
    unfold kv_RevertToSnapshot. simpl. rewrite Z.geb_leb.
    destruct (Z.ltb_spec target 0), (Z.leb_spec (Z.of_nat 0) target); simpl; done || lia. }
  cbn [foldl] in Hf. rewrite Hr, Hnone in Hf. done.
Qed.
End Interface.
