(* ===== verification/MapKeeper.v ===== *)
(** A keeper over in-memory maps behind snapshot stores: an executable instance
    of the interfaces of the state database, on which its properties are
    evaluated.  A layer of the cache is a function on the store. *)
From S2P Require Import Prelude AccessList Sdk StateDB StateDBRevert SnapshotStore.

Record store := mkStore {
  st_accounts : gmap Address Account;
  st_states : gmap Address Storage;
  st_codes : gmap Hash string;
}.
Definition layer : Type := store → store.
Abbreviation base := (gmap string store).
Abbreviation cache := (multiStore layer).

#[export] Instance layer_CacheWrap : CacheWrap layer store := {
  cw_new := λ s, s;
  cw_merge child parent := λ s, child (parent s);
  cw_apply l s := l s;
}.
#[export] Instance layer_laws : CacheWrapLaws layer store.
Proof. by split. Qed.

#[export] Instance length_hash : Crypto := {
  Keccak256Hash code := Z.of_nat (String.length code);
}.

Definition put_account (a : Address) (acc : Account) (s : store) : store :=
  mkStore (<[a:=acc]> (st_accounts s)) (st_states s) (st_codes s).
Definition del_account (a : Address) (s : store) : store :=
  mkStore (delete a (st_accounts s)) (delete a (st_states s)) (st_codes s).
Definition put_state (a : Address) (k v : Hash) (s : store) : store :=
  mkStore (st_accounts s) (<[a := <[k:=v]> (default ∅ (st_states s !! a))]> (st_states s))
          (st_codes s).
Definition del_state (a : Address) (k : Hash) (s : store) : store :=
  mkStore (st_accounts s) (<[a := delete k (default ∅ (st_states s !! a))]> (st_states s))
          (st_codes s).
Definition put_code (h : Hash) (c : string) (s : store) : store :=
  mkStore (st_accounts s) (st_states s) (<[h:=c]> (st_codes s)).
Definition del_code (h : Hash) (s : store) : store :=
  mkStore (st_accounts s) (st_states s) (delete h (st_codes s)).

Definition evm (b : base) : store := default (mkStore ∅ ∅ ∅) (b !! "evm").
Definition on_base (f : store → store) : base → base := alter f "evm".
Definition on_layer (f : store → store) : cache → cache := ms_update "evm" (λ l s, f (l s)).
Definition unit_op {S Ev} (f : S → S) : M (sdkContext S Ev) SdkError unit :=
  λ c, (mkCtx (f (cx_store c)) (cx_events c), Ok tt).

#[export] Instance base_Keeper {Ev} : Keeper base Ev := {
  kp_GetAccount b a := st_accounts (evm b) !! a;
  kp_GetState b a k := default 0 (default ∅ (st_states (evm b) !! a) !! k);
  kp_GetCode b h := st_codes (evm b) !! h;
  kp_ForEachStorage b a := map_to_list (default ∅ (st_states (evm b) !! a));
  kp_SetAccount a acc := unit_op (on_base (put_account a acc));
  kp_DeleteState a k := on_base (del_state a k);
  kp_SetState a k v := on_base (put_state a k v);
  kp_DeleteCode h := on_base (del_code h);
  kp_SetCode h c := on_base (put_code h c);
  kp_DeleteAccount a := unit_op (on_base (del_account a));
}.
(** The state database only writes to the cache context. *)
#[export] Instance cache_Keeper {Ev} : Keeper cache Ev := {
  kp_GetAccount _ _ := None;
  kp_GetState _ _ _ := 0;
  kp_GetCode _ _ := None;
  kp_ForEachStorage _ _ := [];
  kp_SetAccount a acc := unit_op (on_layer (put_account a acc));
  kp_DeleteState a k := on_layer (del_state a k);
  kp_SetState a k v := on_layer (put_state a k v);
  kp_DeleteCode h := on_layer (del_code h);
  kp_SetCode h c := on_layer (put_code h c);
  kp_DeleteAccount a := unit_op (on_layer (del_account a));
}.
#[export] Instance cache_KeeperWrites {Ev} : KeeperWrites cache Ev ms_writes.
Proof.
  split; simpl; intros; try apply ms_update_writes;
    match goal with H : unit_op _ _ = _ |- _ => injection H as <- <- end; apply ms_update_writes.
Qed.
