(* ===== verification/StateDBProps.v ===== *)
(** The properties of the state database and of the snapshot stores, with
    witnesses on a small keeper over in-memory maps. *)
From S2P Require Import Prelude GoStd AccessList Sdk StateDB StateDBRevert StateDBJournal SnapshotStore MapKeeper.

Section Properties.
Context {K C Ev : Type}.
Context `{HCr : Crypto, HK : !Keeper K Ev, HKC : !Keeper C Ev, HS : !Snapshotter C,
          HCC : !CacheContext K C, HI : !CacheInv C}.
Context {W : C → C → Prop} `{HSL : !SnapshotterLaws C W, HKW : !KeeperWrites C Ev W}.

(** C9: Reverting to a snapshot restores the state.  From a fresh state database,
    take any steps, then a snapshot, then any sequence of operations, nested
    snapshots, reverts to newer snapshots and precompile calls: reverting to the
    snapshot succeeds and restores every balance, nonce, code, storage word, flag,
    log, refund, transient storage word, the access list, the dirty set, the
    cache context with its events, the journal and the older revisions. *)
Theorem revert_restores_snapshot ctx tx (s0 s1 s2 : StateDB K C Ev) id :
  cache_inv (cc_new (cx_store ctx)) →
  rtc (sdb_step (W := W) (-1)) (New ctx tx) s0 → Snapshot s0 = (s1, Ok id) →
  rtc (sdb_step (W := W) id) s1 s2 →
  ∃ s3, RevertToSnapshot id s2 = (s3, Ok tt) ∧ restored s0 s3 ∧
    j_entries (sdb_journal s3) = j_entries (sdb_journal s0) ∧
    sdb_validRevisions s3 = sdb_validRevisions s0.
Proof. apply snapshot_restored. Qed.

(** The limit on precompile calls does not hold for long: the counter is one
    byte wide and keeps counting after the limit is exceeded, so that it wraps
    around and calls are accepted again. *)
Theorem precompile_limit_wraps (s : StateDB K C Ev) snapshot c :
  sdb_cache s = Some c → 0 ≤ sdb_precompileCallsCounter s < 256 →
  (snd (AddPrecompileFn snapshot s) = Ok tt ↔
     sdb_precompileCallsCounter s < MaxPrecompileCalls ∨ sdb_precompileCallsCounter s = 255) ∧
  sdb_precompileCallsCounter (fst (AddPrecompileFn snapshot s)) =
    (sdb_precompileCallsCounter s + 1) mod 256.
Proof.
  intros Hc Hr. unfold AddPrecompileFn, on_cache, mbind, M_bind. rewrite Hc. run_M.
  set (n := sdb_precompileCallsCounter s) in *. unfold u8_add, wrap. change (2 ^ 8) with 256.
  assert (Hcases : (n + 1) mod 256 = n + 1 ∧ n ≠ 255 ∨ (n + 1) mod 256 = 0 ∧ n = 255).
  { destruct (decide (n = 255)) as [->|]; [by right|left].
    split; [apply Z.mod_small; lia|done]. }
  rewrite Z.gtb_ltb. unfold MaxPrecompileCalls.
  destruct (Z.ltb_spec 20 ((n + 1) mod 256)); simpl; (split; [split; [intros; lia || done|]|done]);
    intros; done || lia.
Qed.
End Properties.

Section StoreProperties.
Context {L B : Type} `{HCW : CacheWrap L B, HCWL : !CacheWrapLaws L B}.

(** A snapshot of the multi store is undone exactly: after any writes through
    its current stores and any nested snapshots, reverting to the snapshot gives
    the store back, for every key. *)
Theorem multistore_revert_restores (s s1 s2 : multiStore L) id :
  ms_ok s → ms_Snapshot s = (id, s1) → ms_writes s1 s2 → ms_RevertToSnapshot id s2 = Some s.
Proof. apply ms_restore. Qed.

(** Committing a snapshot store flushes all its layers, top to bottom, into
    the store it wraps: the wrapped store then holds what was read through the
    layers, the stack is empty, and no earlier snapshot can be reverted to. *)
Theorem multistore_write_flushes (s : multiStore L) (base : gmap string B) key cs st :
  ms_ok s → ms_stores s !! key = Some cs → base !! key = Some st →
  let '(s', base') := ms_Write s base in
  base' !! key = Some (kv_view cs st) ∧
  ms_head s' = InitialHead ∧ ms_stores s' !! key = Some (mkKV cw_new []) ∧
  ∀ target, ms_RevertToSnapshot target s' = None.
Proof.
  intros Hok Hcs Hst. unfold ms_Write. split_and!; [|done|..].
  - pose proof (ok_nodup s Hok) as Hnd.
    assert (Hin : key ∈ ms_storeKeys s) by (apply Hok; by eexists).
    revert base Hst Hnd Hin. induction (ms_storeKeys s) as [|k keys IH]; intros base Hst Hnd Hin;
      [set_solver|]. apply NoDup_cons in Hnd as [Hnin Hnd]. simpl.
    destruct (decide (k = key)) as [->|Hne].
    + rewrite Hcs, Hst. clear IH Hin.
      assert (Hkeep : ∀ l (b : gmap string B), key ∉ l →
        foldl (λ b k, match ms_stores s !! k, b !! k with
                      | Some cs, Some st => <[k := (kv_Commit cs st).2]> b
                      | _, _ => b
                      end) b l !! key = b !! key).
      { induction l as [|k l IH]; intros b Hl; simpl; [done|]. rewrite IH by set_solver.
        destruct (ms_stores s !! k), (b !! k); try done. apply lookup_insert_ne. set_solver. }
      rewrite Hkeep, lookup_insert_eq by done. pose proof (kv_Commit_view cs st) as Hv.
      unfold kv_Commit in Hv. destruct Hv as [Hv _]. simpl. by rewrite Hv.
    + apply IH; [|done|set_solver]. destruct (ms_stores s !! k), (base !! k); try done.
      by rewrite lookup_insert_ne.
  - simpl. by rewrite ms_each_lookup, Hcs.
  - intros target. apply (ms_Write_invalidates s base target key Hok). apply Hok. by eexists.
Qed.
End StoreProperties.

(** ** Witnesses *)

Definition example_store : store := mkStore {[1 := mkAccount 7 100 0]} {[1 := {[5 := 6]}]} ∅.
Definition example_ctx : sdkContext base string := mkCtx {["evm" := example_store]} [].
Definition example_db : StateDB base cache string := New example_ctx 0.

(** A native action that credits an account and emits an event. *)
Definition example_action : M (sdkContext cache string) SdkError unit := λ c,
  (mkCtx (on_layer (put_account 3 (mkAccount 0 50 0)) (cx_store c)) (cx_events c ++ ["transfer"]), Ok tt).
Lemma example_action_writes : writes (W := ms_writes) example_action.
Proof. intros c c' r [= <- _]. apply ms_update_writes. Qed.

Definition example_ops : list (sdb_op (W := ms_writes)) :=
  [OSetBalance 1 40; OAddBalance 2 60; OSetState 1 5 9; OSetCode 2 (Some "code");
   OPrecompile example_action example_action_writes; OAddSlot 1 5; OSelfDestruct 1; OAddLog "log"].
(** Run operations in order; [None] when one panics. *)
Fixpoint run_ops (ops : list (sdb_op (W := ms_writes))) (s : StateDB base cache string) :
    option (StateDB base cache string) :=
  match ops with
  | [] => Some s
  | op :: ops => match exec op s with (_, Panic _) => None | (s', _) => run_ops ops s' end
  end.
Lemma run_ops_steps id ops s s' : run_ops ops s = Some s' → rtc (sdb_step (W := ms_writes) id) s s'.
Proof.
  revert s. induction ops as [|op ops IH]; intros s; simpl; [intros [= ->]; apply rtc_refl|].
  destruct (exec op s) as [s1 r] eqn:He. intros Hrun.
  assert (∀ p, r ≠ Panic p) by (intros p ->; discriminate).
  eapply rtc_l; [by eapply step_op|]. apply IH. by destruct r.
Qed.
Definition example_snap : StateDB base cache string := fst (Snapshot example_db).

Definition example_end : StateDB base cache string :=
  default example_snap (run_ops example_ops example_snap).

Lemma revert_restores_snapshot_witness :
  run_ops example_ops example_snap = Some example_end ∧
  ∃ s3, RevertToSnapshot 0 example_end = (s3, Ok tt) ∧ restored example_db s3 ∧
    j_entries (sdb_journal s3) = j_entries (sdb_journal example_db) ∧
    sdb_validRevisions s3 = sdb_validRevisions example_db.
Proof.
  assert (Hrun : run_ops example_ops example_snap = Some example_end).
  { assert (Hs : match run_ops example_ops example_snap with Some _ => true | None => false end = true)
      by (vm_compute; reflexivity).
    unfold example_end. destruct (run_ops example_ops example_snap); [reflexivity|discriminate]. }
  assert (Hsnap : snd (Snapshot example_db) = Ok 0) by (vm_compute; reflexivity).
  split; [exact Hrun|].
  apply (revert_restores_snapshot (W := ms_writes) example_ctx 0 example_db example_snap
           example_end 0).
  - apply cc_new_inv.
  - apply rtc_refl.
  - exact (run_outcome _ _ _ Hsnap).
  - exact (run_ops_steps 0 _ _ _ Hrun).
Defined.

(** The counter stands at 255 after as many calls. *)
Definition example_worn : StateDB base cache string :=
  set_precompileCallsCounter 255 (fst (GetCacheContext example_db)).
Lemma precompile_limit_wraps_witness :
  snd (AddPrecompileFn 0 example_worn) = Ok tt ∧
  sdb_precompileCallsCounter (fst (AddPrecompileFn 0 example_worn)) = 0.
Proof.
  destruct (precompile_limit_wraps example_worn 0 (cache_view example_db)) as [Hok Hn].
  - reflexivity.
  - simpl. lia.
  - split; [apply Hok; right; reflexivity|]. rewrite Hn. reflexivity.
Defined.

Definition example_multi : cache := cc_new (cx_store example_ctx).
Lemma multistore_revert_restores_witness :
  ms_RevertToSnapshot 0 (on_layer (put_account 3 (mkAccount 0 50 0)) (ms_Snapshot example_multi).2) =
    Some example_multi.
Proof.
  apply (multistore_revert_restores example_multi (ms_Snapshot example_multi).2 _ 0).
  - apply ms_NewStore_ok.
  - reflexivity.
  - apply ms_update_writes.
Defined.

Definition example_layered : cache :=
  on_layer (put_account 3 (mkAccount 0 50 0)) (ms_Snapshot example_multi).2.
Definition example_kv : kvStore layer := default (mkKV cw_new []) (ms_stores example_layered !! "evm").
Lemma multistore_write_flushes_witness :
  st_accounts (kv_view example_kv example_store) = {[1 := mkAccount 7 100 0; 3 := mkAccount 0 50 0]} ∧
  (ms_Write example_layered (cx_store example_ctx)).2 !! "evm" =
    Some (kv_view example_kv example_store).
Proof.
  split; [vm_compute; reflexivity|].
  assert (Hcs : ms_stores example_layered !! "evm" = Some example_kv).
  { assert (Hs : is_Some (ms_stores example_layered !! "evm")) by (vm_compute; eauto).
    unfold example_kv. destruct Hs as [x ->]. reflexivity. }
  assert (Hb : cx_store example_ctx !! "evm" = Some example_store) by (vm_compute; reflexivity).
  assert (Hok : ms_ok example_layered)
    by apply (mw_ok _ _ (ms_update_writes _ _ _)), ms_Snapshot_ok, ms_NewStore_ok.
  exact (proj1 (multistore_write_flushes example_layered (cx_store example_ctx) "evm" example_kv
                  example_store Hok Hcs Hb)).
Defined.
