(* ===== verification/StateDBCommit.v ===== *)
(** Committing the state database: what the keeper holds afterwards.

    [KeeperLaws] is the contract the state database needs from the keeper of
    [interfaces.go] to make its writes durable; [EvmKeeper] shows that the
    keeper of [x/vm/keeper] fulfils it. *)
From S2P Require Import Prelude GoStd AccessList Sdk StateDB StateDBRevert.

Section Contract.
Context {S Ev : Type} `{HK : !Keeper S Ev}.
Implicit Types st : S.

(** Only the account of [a] may differ. *)
Definition only_account (a : Address) st st' : Prop :=
  (∀ b, b ≠ a → kp_GetAccount st' b = kp_GetAccount st b) ∧
  (∀ b k, b ≠ a → kp_GetState st' b k = kp_GetState st b k) ∧
  (∀ h, kp_GetCode st' h = kp_GetCode st h).

Class KeeperLaws : Prop := {
  kl_SetAccount a acc (c c' : sdkContext S Ev) :
    0 ≤ acc_Balance acc < 2 ^ 256 → kp_SetAccount a acc c = (c', Ok tt) →
    kp_GetAccount (cx_store c') a = Some acc ∧
    (∀ k, kp_GetState (cx_store c') a k = kp_GetState (cx_store c) a k) ∧
    only_account a (cx_store c) (cx_store c');
  kl_DeleteAccount a (c c' : sdkContext S Ev) :
    kp_DeleteAccount a c = (c', Ok tt) →
    kp_GetAccount (cx_store c') a = None ∧
    (is_Some (kp_GetAccount (cx_store c) a) → ∀ k, kp_GetState (cx_store c') a k = 0) ∧
    only_account a (cx_store c) (cx_store c');
  kl_SetState_same a k v st j :
    kp_GetState (kp_SetState a k v st) a j = if decide (j = k) then v else kp_GetState st a j;
  kl_SetState_account a k v st b : kp_GetAccount (kp_SetState a k v st) b = kp_GetAccount st b;
  kl_SetState_only a k v st : only_account a st (kp_SetState a k v st);
  kl_SetCode h code st h' :
    kp_GetCode (kp_SetCode h code st) h' = if decide (h' = h) then Some code else kp_GetCode st h';
  kl_SetCode_account h code st b : kp_GetAccount (kp_SetCode h code st) b = kp_GetAccount st b;
  kl_SetCode_state h code st b k : kp_GetState (kp_SetCode h code st) b k = kp_GetState st b k;
  kl_DeleteCode h st h' :
    kp_GetCode (kp_DeleteCode h st) h' = if decide (h' = h) then None else kp_GetCode st h';
  kl_DeleteCode_account h st b : kp_GetAccount (kp_DeleteCode h st) b = kp_GetAccount st b;
  kl_DeleteCode_state h st b k : kp_GetState (kp_DeleteCode h st) b k = kp_GetState st b k;
}.

#[global] Instance only_account_preorder a : PreOrder (only_account a).
Proof.
  split; [done|]. intros s1 s2 s3 (A1 & B1 & C1) (A2 & B2 & C2). split_and!.
  - intros b Hb. by rewrite A2, A1.
  - intros b k Hb. by rewrite B2, B1.
  - intros h. by rewrite C2, C1.
Qed.
End Contract.
Arguments KeeperLaws S Ev {HK}.

Section Commit.
Context {S Ev : Type} `{HCr : Crypto, HK : !Keeper S Ev, HKL : !KeeperLaws S Ev}.
Implicit Types st : S.
Implicit Types c : sdkContext S Ev.

(** ** The storage of one object *)

Lemma commit_slot_eq obj k c :
  commit_slot obj k c =
    (mkCtx (kp_SetState (so_address obj) k (default 0 (so_dirtyStorage obj !! k)) (cx_store c))
       (cx_events c), Ok tt).
Proof. done. Qed.

Lemma commit_slots_run obj ks c :
  ∃ c', for_each ks (commit_slot obj) c = (c', Ok tt) ∧
    only_account (so_address obj) (cx_store c) (cx_store c') ∧
    (∀ b, kp_GetAccount (cx_store c') b = kp_GetAccount (cx_store c) b) ∧
    ∀ j, kp_GetState (cx_store c') (so_address obj) j =
      if decide (j ∈ ks) then default 0 (so_dirtyStorage obj !! j)
      else kp_GetState (cx_store c) (so_address obj) j.
Proof.
  revert c. induction ks as [|k ks IH]; intros c; simpl; [by exists c; set_solver|].
  unfold mbind, M_bind. rewrite commit_slot_eq.
  destruct (IH (mkCtx (kp_SetState (so_address obj) k (default 0 (so_dirtyStorage obj !! k)) (cx_store c))
                  (cx_events c))) as (c' & -> & Ho & Ha & Hs).
  exists c'. split; [done|]. simpl in *. split_and!.
  - etrans; [apply kl_SetState_only|done].
  - intros b. by rewrite Ha, kl_SetState_account.
  - intros j. rewrite Hs, kl_SetState_same.
    repeat case_decide; subst; set_solver.
Qed.

(** ** One object *)

(** Whether committing [o] writes its code. *)
Definition new_code (o : stateObject) : option string :=
  match so_code o with Some code => if so_dirtyCode o then Some code else None | None => None end.

(** What the keeper holds at the address of [o] once [o] is committed on [st]. *)
Definition object_persisted (o : stateObject) st st' : Prop :=
  let a := so_address o in
  if so_selfDestructed o
  then kp_GetAccount st' a = None ∧
       (is_Some (kp_GetAccount st a) ∨ is_Some (new_code o) ∧ new_code o ≠ Some "" →
        ∀ k, kp_GetState st' a k = 0)
  else kp_GetAccount st' a = Some (so_account o) ∧
       ∀ k, kp_GetState st' a k = default (kp_GetState st a k) (so_dirtyStorage o !! k).

(** The code written by [o], by hash. *)
Definition code_written (o : stateObject) (h : Hash) (before after : option string) : Prop :=
  match new_code o with
  | Some code =>
      if decide (h = obj_CodeHash o) then
        if code_len (Some code) =? 0
        then after = if so_selfDestructed o then before else None
        else after = Some code
      else after = before
  | None => after = before
  end.

Definition elsewhere (a : Address) st st' : Prop :=
  (∀ b, b ≠ a → kp_GetAccount st' b = kp_GetAccount st b) ∧
  (∀ b k, b ≠ a → kp_GetState st' b k = kp_GetState st b k).
(** The code part of a commit. *)
Lemma write_code_run o c :
  ∃ c', (match so_code o with
         | Some code =>
             if so_dirtyCode o then
               if code_len (Some code) =? 0 then on_store (kp_DeleteCode (obj_CodeHash o))
               else on_store (kp_SetCode (obj_CodeHash o) code)
             else mret tt
         | None => mret tt
         end) c = (c', Ok tt) ∧
    (so_selfDestructed o = false → ∀ h, code_written o h (kp_GetCode (cx_store c) h) (kp_GetCode (cx_store c') h)) ∧
    (∀ b, kp_GetAccount (cx_store c') b = kp_GetAccount (cx_store c) b) ∧
    (∀ b k, kp_GetState (cx_store c') b k = kp_GetState (cx_store c) b k).
Proof.
  unfold code_written, new_code.
  destruct (so_code o) as [code|]; [|by exists c]. destruct (so_dirtyCode o); [|by exists c].
  destruct (code_len (Some code) =? 0) eqn:Hl; eexists; (split; [reflexivity|]); simpl; split_and!.
  - intros -> h. rewrite kl_DeleteCode. by case_decide.
  - apply kl_DeleteCode_account.
  - apply kl_DeleteCode_state.
  - intros _ h. rewrite kl_SetCode. by case_decide.
  - apply kl_SetCode_account.
  - apply kl_SetCode_state.
Qed.

Lemma commit_object_live o c c' :
  so_selfDestructed o = false → 0 ≤ obj_Balance o < 2 ^ 256 → commit_object o c = (c', Ok tt) →
  object_persisted o (cx_store c) (cx_store c') ∧ elsewhere (so_address o) (cx_store c) (cx_store c') ∧
  ∀ h, code_written o h (kp_GetCode (cx_store c) h) (kp_GetCode (cx_store c') h).
Proof.
  intros Hsd Hb Hrun. unfold commit_object in Hrun. rewrite Hsd in Hrun. unfold mbind, M_bind in Hrun.
  destruct (write_code_run o c) as (c1 & H1 & Hcode & Hacc1 & Hst1). rewrite H1 in Hrun.
  destruct (kp_SetAccount _ _ c1) as [c2 [[]|e|p]] eqn:H2; [|done..].
  destruct (kl_SetAccount _ _ _ _ Hb H2) as (Ha2 & Hs2 & (Hoa & Hos & Hoc)).
  destruct (commit_slots_run o (sorted_keys (so_dirtyStorage o)) c2) as (c3 & H3 & (Hoa3 & Hos3 & Hoc3) & Ha3 & Hs3).
  rewrite H3 in Hrun. injection Hrun as <-. unfold object_persisted, elsewhere. rewrite Hsd. split_and!.
  - by rewrite Ha3.
  - intros k. rewrite Hs3. case_decide as Hk; rewrite sorted_keys_elem in Hk.
    + by destruct Hk as [v ->].
    + apply eq_None_not_Some in Hk. rewrite Hk, Hs2. simpl. apply Hst1.
  - intros b Hne. by rewrite Hoa3, Hoa, Hacc1.
  - intros b k Hne. by rewrite Hos3, Hos, Hst1.
  - intros h. rewrite Hoc3, Hoc. by apply Hcode.
Qed.

Lemma commit_object_dead o c c' :
  so_selfDestructed o = true → 0 ≤ obj_Balance o < 2 ^ 256 → commit_object o c = (c', Ok tt) →
  object_persisted o (cx_store c) (cx_store c') ∧ elsewhere (so_address o) (cx_store c) (cx_store c') ∧
  ∀ h, code_written o h (kp_GetCode (cx_store c) h) (kp_GetCode (cx_store c') h).
Proof.
  intros Hsd Hb Hrun. unfold commit_object in Hrun. rewrite Hsd in Hrun. unfold mbind, M_bind in Hrun.
  unfold object_persisted, elsewhere, code_written, new_code. rewrite Hsd.
  destruct (match so_code o with Some code => so_dirtyCode o && (0 <? code_len (Some code)) | None => false end) eqn:Hw.
  - destruct (so_code o) as [code|]; [|done]. rewrite Hw in Hrun. apply andb_true_iff in Hw as [-> Hl].
    apply Z.ltb_lt in Hl. unfold on_store, modify in Hrun.
    destruct (kp_SetAccount _ _ _) as [c2 [[]|e|p]] eqn:H2; [|done..].
    destruct (kl_SetAccount _ _ _ _ Hb H2) as (Ha2 & Hs2 & (Hoa & Hos & Hoc)).
    destruct (kl_DeleteAccount _ _ _ Hrun) as (Ha3 & Hs3 & (Hoa3 & Hos3 & Hoc3)). split_and!; [done|..].
    + intros _. apply Hs3. by rewrite Ha2.
    + intros b Hne. rewrite Hoa3, Hoa by done. apply kl_SetCode_account.
    + intros b k Hne. rewrite Hos3, Hos by done. apply kl_SetCode_state.
    + intros h. rewrite Hoc3, Hoc. simpl. rewrite kl_SetCode.
      replace (code_len (Some code) =? 0) with false by (symmetry; apply Z.eqb_neq; lia).
      by case_decide.
  - assert (Hrun' : kp_DeleteAccount (so_address o) c = (c', Ok tt)).
    { destruct (so_code o) as [code|]; [|done]. by rewrite Hw in Hrun. }
    destruct (kl_DeleteAccount _ _ _ Hrun') as (Ha3 & Hs3 & (Hoa3 & Hos3 & Hoc3)). split_and!; [done|..].
    + intros [Hi|[Hi Hne]]; [by apply Hs3|]. exfalso.
      destruct (so_code o) as [code|]; [|by destruct Hi]. destruct (so_dirtyCode o); [|by destruct Hi].
      simpl in Hw. apply Z.ltb_ge in Hw. apply Hne. unfold code_len in Hw. simpl in Hw.
      destruct code; [done|simpl in Hw; lia].
    + by apply Hoa3.
    + by apply Hos3.
    + intros h. rewrite Hoc3. destruct (so_code o) as [code|]; [|done]. destruct (so_dirtyCode o); [|done].
      simpl in Hw. apply Z.ltb_ge in Hw. case_decide; [|done].
      by replace (code_len (Some code) =? 0) with true by (symmetry; apply Z.eqb_eq; unfold code_len in *; lia).
Qed.

Lemma commit_object_persisted o c c' :
  0 ≤ obj_Balance o < 2 ^ 256 → commit_object o c = (c', Ok tt) →
  object_persisted o (cx_store c) (cx_store c') ∧ elsewhere (so_address o) (cx_store c) (cx_store c') ∧
  ∀ h, code_written o h (kp_GetCode (cx_store c) h) (kp_GetCode (cx_store c') h).
Proof.
  destruct (so_selfDestructed o) eqn:Hsd; [by apply commit_object_dead|by apply commit_object_live].
Qed.

(** ** All dirty objects *)

Section All.
Context (objects : gmap Address stateObject).
Hypothesis Hkeyed : ∀ a o, objects !! a = Some o → so_address o = a.
Hypothesis Hrange : ∀ a o, objects !! a = Some o → 0 ≤ obj_Balance o < 2 ^ 256.

Lemma commit_all_persisted dirties c c' :
  NoDup dirties → commit_all objects dirties c = (c', Ok tt) → ∀ a,
  if decide (a ∈ dirties)
  then ∃ o, objects !! a = Some o ∧ object_persisted o (cx_store c) (cx_store c')
  else kp_GetAccount (cx_store c') a = kp_GetAccount (cx_store c) a ∧
       ∀ k, kp_GetState (cx_store c') a k = kp_GetState (cx_store c) a k.
Proof.
  intros Hnd. revert c. induction Hnd as [|d ds Hnin Hnd IH]; intros c Hrun a.
  { injection Hrun as <-. rewrite decide_False by set_solver. done. }
  unfold commit_all in Hrun. simpl in Hrun. unfold mbind, M_bind in Hrun. destruct (objects !! d) as [o|] eqn:Ho; [|discriminate].
  destruct (commit_object o c) as [c1 [[]|e|p]] eqn:H1; [|done..].
  destruct (commit_object_persisted o c c1 (Hrange _ _ Ho) H1) as (Hp & (Hea & Hes) & _).
  rewrite (Hkeyed _ _ Ho) in Hea, Hes. specialize (IH c1 Hrun a).
  destruct (decide (a = d)) as [->|Hne].
  - rewrite decide_True by set_solver. rewrite decide_False in IH by done. destruct IH as [IHa IHs].
    exists o. split; [done|]. unfold object_persisted in *. rewrite (Hkeyed _ _ Ho) in *.
    destruct (so_selfDestructed o); destruct Hp as [Hp1 Hp2]; (split; [by rewrite IHa|]).
    + intros Hc k. rewrite IHs. by apply Hp2.
    + intros k. by rewrite IHs.
  - case_decide as Hin.
    + rewrite decide_True by set_solver. destruct IH as (o' & Ho' & Hp').
      exists o'. split; [done|]. unfold object_persisted in *. rewrite (Hkeyed _ _ Ho') in *.
      rewrite Hea in Hp' by done.
      destruct (so_selfDestructed o'); [done|]. destruct Hp' as [Hp1 Hp2]. split; [done|].
      intros k. by rewrite Hp2, Hes.
    + rewrite decide_False by set_solver. destruct IH as [IHa IHs]. split.
      * by rewrite IHa, Hea.
      * intros k. by rewrite IHs, Hes.
Qed.

(** Dirty objects with equal code hashes carry equal code. *)
Definition coherent_codes (dirties : list Address) : Prop :=
  ∀ a b oa ob ca cb, a ∈ dirties → b ∈ dirties → objects !! a = Some oa → objects !! b = Some ob →
    new_code oa = Some ca → new_code ob = Some cb → obj_CodeHash oa = obj_CodeHash ob → ca = cb.

Lemma commit_all_code dirties c c' a o code :
  coherent_codes dirties → a ∈ dirties → objects !! a = Some o →
  new_code o = Some code → code_len (Some code) ≠ 0 → commit_all objects dirties c = (c', Ok tt) →
  kp_GetCode (cx_store c') (obj_CodeHash o) = Some code.
Proof.
  intros Hcoh Hin Ho Hnew Hlen Hrun.
  assert (Hgen : ∀ ds c, (∀ d, d ∈ ds → d ∈ dirties) → commit_all objects ds c = (c', Ok tt) →
    a ∈ ds ∨ kp_GetCode (cx_store c) (obj_CodeHash o) = Some code →
    kp_GetCode (cx_store c') (obj_CodeHash o) = Some code).
  { clear c Hrun. induction ds as [|d ds IH]; intros c Hsub Hrun Hor.
    { injection Hrun as <-. destruct Hor as [Hor|]; [set_solver|done]. }
    unfold commit_all in Hrun. simpl in Hrun. unfold mbind, M_bind in Hrun. destruct (objects !! d) as [od|] eqn:Hd; [|discriminate].
    destruct (commit_object od c) as [c1 [[]|e|p]] eqn:H1; [|done..].
    destruct (commit_object_persisted od c c1 (Hrange _ _ Hd) H1) as (_ & _ & Hcode).
    specialize (Hcode (obj_CodeHash o)). eapply IH; [set_solver|done|]. unfold code_written in Hcode.
    destruct (new_code od) as [cd|] eqn:Hnd.
    - case_decide as Hh.
      + assert (cd = code) as -> by (eapply (Hcoh d a); eauto; set_solver).
        rewrite (proj2 (Z.eqb_neq _ _) Hlen) in Hcode. by right.
      + rewrite Hcode. destruct Hor as [Hor|]; [|by right]. left.
        apply elem_of_cons in Hor as [->|]; [|done]. congruence.
    - rewrite Hcode. destruct Hor as [Hor|]; [|by right]. left.
      apply elem_of_cons in Hor as [->|]; [|done]. congruence. }
  apply (Hgen dirties c); [done|done|by left].
Qed.
End All.

End Commit.
