(* ===== verification/EvmKeeper.v ===== *)
(** The keeper of the EVM module as the state database uses it
    ([x/vm/keeper/statedb.go], parts of [keeper.go] and [utils.go]) and the bank
    wrapper it moves the gas coin with ([x/vm/wrappers/bank.go]).

    The module's own store holds code hashes by address, code by hash and
    storage words by address and key, under distinct key prefixes; the auth and
    bank modules of the SDK are parameters. *)
From S2P Require Import Prelude GoStd AccessList Sdk EvmCoin StateDB StateDBRevert StateDBCommit.

(** ** The SDK's auth and bank modules *)

(** [AccountKeeper]: accounts by EVM address, [sdk.AccAddress(addr.Bytes())]. *)
Class AuthKeeper (A Acct : Type) := {
  ak_GetAccount : A → Address → option Acct;
  ak_NewAccountWithAddress : Address → A → A * Acct;
  ak_SetAccount : Acct → A → A;
  ak_RemoveAccount : Acct → A → A;
  GetAddress : Acct → Address;
  GetSequence : Acct → Z;
  SetSequence : Z → Acct → res SdkError Acct;
  (** [authtypes.NewBaseAccount] with the address, key, number and sequence of
      the given account. *)
  NewBaseAccount : Acct → Acct;
}.

(** The bank keeper the wrapper embeds; what is locked depends on the account. *)
Class EvmBank (A B Ev : Type) := {
  eb_GetBalance : B → Address → string → Z;
  eb_SpendableCoin : A → B → Address → string → Z;
  eb_LockedCoins : A → B → Address → Coins;
  eb_BlockedAddr : Address → bool;
  eb_UncheckedSetBalance : Address → Coin → M (sdkContext B Ev) SdkError unit;
}.

(** [ethtypes.ParseDelegation]: whether the code is a delegation (EIP-7702). *)
Class DelegationLib := { ParseDelegation : string → bool }.

Record evmStore (A B : Type) := mkEvmStore {
  es_auth : A;
  es_bank : B;
  es_codeHash : gmap Address Hash;
  es_code : gmap Hash string;
  es_storage : gmap Address Storage;
}.
Arguments mkEvmStore {A B}.
Arguments es_auth {A B}.
Arguments es_bank {A B}.
Arguments es_codeHash {A B}.
Arguments es_code {A B}.
Arguments es_storage {A B}.

Module EvmKeeper.
Section EvmKeeper.
Context {A B Acct Ev : Type}.
Context `{HCr : Crypto, HA : !AuthKeeper A Acct, HB : !EvmBank A B Ev, HD : DelegationLib, HCL : CoinsLib}.
Context (info : EvmCoinInfo).

Abbreviation store := (evmStore A B).
Abbreviation KM := (M (sdkContext store Ev) SdkError).
Implicit Types st : store.

Definition set_auth (v : A) st : store :=
  mkEvmStore v (es_bank st) (es_codeHash st) (es_code st) (es_storage st).
Definition set_bank (v : B) st : store :=
  mkEvmStore (es_auth st) v (es_codeHash st) (es_code st) (es_storage st).
Definition set_codeHash (v : gmap Address Hash) st : store :=
  mkEvmStore (es_auth st) (es_bank st) v (es_code st) (es_storage st).
Definition set_code (v : gmap Hash string) st : store :=
  mkEvmStore (es_auth st) (es_bank st) (es_codeHash st) v (es_storage st).
Definition set_storage (v : gmap Address Storage) st : store :=
  mkEvmStore (es_auth st) (es_bank st) (es_codeHash st) (es_code st) v.

(** ** The bank wrapper *)

Definition wrapper_GetBalance st (addr : Address) (denom : string) : res SdkError Z :=
  if negb (String.eqb denom (eci_Denom info)) then Panic "expected evm denom"
  else Ok (eb_GetBalance (es_bank st) addr (eci_ExtendedDenom info)).
Definition wrapper_SpendableCoin st (addr : Address) (denom : string) : res SdkError Z :=
  if negb (String.eqb denom (eci_Denom info)) then Panic "expected evm denom"
  else Ok (eb_SpendableCoin (es_auth st) (es_bank st) addr (eci_ExtendedDenom info)).

Definition bank_op {X} (m : M (sdkContext B Ev) SdkError X) : KM X :=
  zoom (λ c, mkCtx (es_bank (cx_store c)) (cx_events c))
       (λ b c, mkCtx (set_bank (cx_store b) (cx_store c)) (cx_events b)) m.
Definition lift_res {X} (r : res SdkError X) : KM X := λ c, (c, r).

Definition wrapper_SetBalance (account : Address) (amt : Z) : KM unit :=
  amount ← int_checked amt;
  convertedCoin ← lift_res (ConvertEvmCoinDenomToExtendedDenom info (mkCoin (eci_Denom info) amount));
  bank_op (eb_UncheckedSetBalance account convertedCoin).

(** ** Reading *)

Definition GetCodeHash st (addr : Address) : Hash := default EmptyCodeHash (es_codeHash st !! addr).
Definition GetCode st (codeHash : Hash) : code_t := es_code st !! codeHash.
Definition storage_of st (addr : Address) : Storage := default ∅ (es_storage st !! addr).
Definition GetState st (addr : Address) (key : Hash) : Hash := default 0 (storage_of st addr !! key).
(** The raw bytes; [None] is the nil slice of an absent entry. *)
Definition GetFastState st (addr : Address) (key : Hash) : option Hash := storage_of st addr !! key.
(** The entries in the order of the iterator. *)
Definition ForEachStorage st (addr : Address) : list (Hash * Hash) :=
  (λ key, (key, GetState st addr key)) <$> sorted_keys (storage_of st addr).

(** [statedb.Account] with a balance that may be nil. *)
Record account := mkKAccount { ka_Nonce : Z; ka_Balance : option Z; ka_CodeHash : Hash }.

Definition GetAccountWithoutBalance st (addr : Address) : option account :=
  (λ acct, mkKAccount (GetSequence acct) None (GetCodeHash st addr)) <$> ak_GetAccount (es_auth st) addr.
Definition to_uint256 (r : res SdkError Z) : res SdkError (option Z) :=
  match r with Ok v => Ok (Uint256FromBigInt v) | Err e => Err e | Panic p => Panic p end.
Definition SpendableCoin st (addr : Address) : res SdkError (option Z) :=
  to_uint256 (wrapper_SpendableCoin st addr (eci_Denom info)).
Definition GetBalance st (addr : Address) : res SdkError (option Z) :=
  to_uint256 (wrapper_GetBalance st addr (eci_Denom info)).
Definition GetAccount st (addr : Address) : res SdkError (option account) :=
  match GetAccountWithoutBalance st addr with
  | None => Ok None
  | Some acct =>
      match SpendableCoin st addr with
      | Ok b => Ok (Some (mkKAccount (ka_Nonce acct) b (ka_CodeHash acct)))
      | Err e => Err e
      | Panic p => Panic p
      end
  end.
Definition GetAccountOrEmpty st (addr : Address) : res SdkError account :=
  match GetAccount st addr with
  | Ok (Some acct) => Ok acct
  | Ok None => Ok (mkKAccount 0 (Some 0) EmptyCodeHash)
  | Err e => Err e
  | Panic p => Panic p
  end.
Definition GetNonce st (addr : Address) : Z :=
  from_option GetSequence 0 (ak_GetAccount (es_auth st) addr).
Definition IsContract st (addr : Address) : bool :=
  let code := default "" (GetCode st (GetCodeHash st addr)) in
  (0 <? Z.of_nat (String.length code)) && negb (ParseDelegation code).

(** ** Writing *)

Definition SetCodeHash (addr : Address) (hash : Hash) st : store :=
  set_codeHash (<[addr := hash]> (es_codeHash st)) st.
Definition DeleteCodeHash (addr : Address) st : store :=
  set_codeHash (delete addr (es_codeHash st)) st.
Definition SetCode (codeHash : Hash) (code : string) st : store :=
  set_code (<[codeHash := code]> (es_code st)) st.
Definition DeleteCode (codeHash : Hash) st : store := set_code (delete codeHash (es_code st)) st.
Definition SetState (addr : Address) (key value : Hash) st : store :=
  set_storage (<[addr := <[key := value]> (storage_of st addr)]> (es_storage st)) st.
Definition DeleteState (addr : Address) (key : Hash) st : store :=
  set_storage (<[addr := delete key (storage_of st addr)]> (es_storage st)) st.

Definition on_kstore (f : store → store) : KM unit :=
  modify (λ c, mkCtx (f (cx_store c)) (cx_events c)).

Definition SetBalance (addr : Address) (amount : option Z) : KM unit :=
  match amount with
  | None => mret tt
  | Some amount =>
      st ← gets cx_store;
      coin ← lift_res (wrapper_SpendableCoin st addr (eci_Denom info));
      if (coin <? amount) && eb_BlockedAddr (Ev := Ev) addr then throw ErrUnauthorized
      else
        let locked := eb_LockedCoins (Ev := Ev) (es_auth st) (es_bank st) addr in
        wrapper_SetBalance addr (amount + AmountOf locked (eci_Denom info))
  end.

(** The account the keeper finds or creates. *)
Definition load_account (addr : Address) : KM Acct := λ c,
  match ak_GetAccount (es_auth (cx_store c)) addr with
  | Some acct => (c, Ok acct)
  | None =>
      let '(auth, acct) := ak_NewAccountWithAddress addr (es_auth (cx_store c)) in
      (mkCtx (set_auth auth (cx_store c)) (cx_events c), Ok acct)
  end.

Definition SetAccount (addr : Address) (acc : account) : KM unit :=
  acct ← load_account addr;
  acct' ← lift_res (SetSequence (ka_Nonce acc) acct);
  (if IsEmptyCodeHash (ka_CodeHash acc) then on_kstore (DeleteCodeHash addr)
   else on_kstore (SetCodeHash addr (ka_CodeHash acc))) ;;
  on_kstore (λ st, set_auth (ak_SetAccount acct' (es_auth st)) st) ;;
  SetBalance addr (ka_Balance acc).

Definition DeleteAccount (addr : Address) : KM unit :=
  st ← gets cx_store;
  match ak_GetAccount (es_auth st) addr with
  | None => mret tt
  | Some acct =>
      if negb (IsContract st addr) then throw (ErrPlain "only smart contracts can be self-destructed")
      else
        on_kstore (λ st, set_auth (ak_SetAccount (NewBaseAccount acct) (es_auth st)) st) ;;
        SetBalance addr (Some 0) ;;
        keys ← gets (λ c, (ForEachStorage (cx_store c) addr).*1);
        for_each keys (λ key, on_kstore (DeleteState addr key)) ;;
        on_kstore (DeleteCodeHash addr) ;;
        on_kstore (λ st, set_auth (ak_RemoveAccount acct (es_auth st)) st)
  end.

(** ** The interface of the state database *)

(** A nil balance is not representable in the state database; it does not occur
    when the bank's amounts fit 256 bits. *)
Definition to_Account (acc : account) : Account :=
  mkAccount (ka_Nonce acc) (default 0 (ka_Balance acc)) (ka_CodeHash acc).
Definition of_Account (acc : Account) : account :=
  mkKAccount (acc_Nonce acc) (Some (acc_Balance acc)) (acc_CodeHash acc).

#[export] Instance evm_Keeper : Keeper store Ev := {
  kp_GetAccount st a := match GetAccount st a with Ok acc => to_Account <$> acc | _ => None end;
  kp_GetState := GetState;
  kp_GetCode := GetCode;
  kp_ForEachStorage := ForEachStorage;
  kp_SetAccount a acc := SetAccount a (of_Account acc);
  kp_DeleteState := DeleteState;
  kp_SetState := SetState;
  kp_DeleteCode := DeleteCode;
  kp_SetCode := SetCode;
  kp_DeleteAccount := DeleteAccount;
}.
End EvmKeeper.

(** ** What the keeper relies on *)

Section Laws.
Context {A B Acct Ev : Type}.
Context `{HA : !AuthKeeper A Acct, HB : !EvmBank A B Ev, HCL : CoinsLib}.

(** The auth module stores accounts by their address. *)
Class AuthLaws : Prop := {
  al_get_set acct s a :
    ak_GetAccount (ak_SetAccount acct s) a = if decide (a = GetAddress acct) then Some acct else ak_GetAccount s a;
  al_get_remove acct s a :
    ak_GetAccount (ak_RemoveAccount acct s) a = if decide (a = GetAddress acct) then None else ak_GetAccount s a;
  al_address s a acct : ak_GetAccount s a = Some acct → GetAddress acct = a;
  al_new a s s' acct :
    ak_NewAccountWithAddress a s = (s', acct) →
    GetAddress acct = a ∧ ∀ b, ak_GetAccount s' b = ak_GetAccount s b;
  al_sequence n acct acct' :
    SetSequence n acct = Ok acct' → GetSequence acct' = n ∧ GetAddress acct' = GetAddress acct;
  al_base acct : GetAddress (NewBaseAccount acct) = GetAddress acct;
}.

(** The bank: setting a balance sets that balance only, what is spendable is the
    balance less what is locked, and what is locked depends on the account. *)
Class EvmBankLaws : Prop := {
  bl_set a coin c c' :
    eb_UncheckedSetBalance a coin c = (c', Ok tt) → ∀ b d,
    eb_GetBalance (cx_store c') b d =
      if decide (b = a ∧ d = Denom coin) then Amount coin else eb_GetBalance (cx_store c) b d;
  bl_spendable s bk a d :
    eb_SpendableCoin s bk a d = Z.max 0 (eb_GetBalance bk a d - AmountOf (eb_LockedCoins s bk a) d);
  bl_locked s s' bk bk' a :
    ak_GetAccount s a = ak_GetAccount s' a → eb_LockedCoins s bk a = eb_LockedCoins s' bk' a;
}.
End Laws.
Arguments AuthLaws A Acct {HA}.
Arguments EvmBankLaws A B Acct Ev {HA HB HCL}.

Section KeeperLaws.
Context {A B Acct Ev : Type}.
Context `{HCr : Crypto, HA : !AuthKeeper A Acct, HB : !EvmBank A B Ev, HD : DelegationLib, HCL : CoinsLib}.
Context `{HAL : !AuthLaws A Acct, HBL : !EvmBankLaws A B Acct Ev}.
Context (info : EvmCoinInfo).
Abbreviation store := (evmStore A B).
Implicit Types st : store.
Implicit Types c : sdkContext store Ev.

(** What [GetAccount] returns depends on the auth account, the code hash and the
    spendable balance only. *)
Lemma GetAccount_eq st a :
  GetAccount (Ev := Ev) info st a =
    Ok ((λ acct, mkKAccount (GetSequence acct)
                   (Uint256FromBigInt (eb_SpendableCoin (es_auth st) (es_bank st) a (eci_ExtendedDenom info)))
                   (GetCodeHash st a)) <$> ak_GetAccount (es_auth st) a).
Proof.
  unfold GetAccount, GetAccountWithoutBalance, SpendableCoin, wrapper_SpendableCoin.
  rewrite String.eqb_refl. by destruct (ak_GetAccount (es_auth st) a).
Qed.

(** The effect of [SetBalance]: the balance in the extended denomination becomes
    the amount plus what is locked in the integer denomination. *)
Lemma SetBalance_run a v c c' :
  SetBalance info a (Some v) c = (c', Ok tt) →
  let st := cx_store c in let st' := cx_store c' in
  es_auth st' = es_auth st ∧ es_codeHash st' = es_codeHash st ∧ es_code st' = es_code st ∧
  es_storage st' = es_storage st ∧
  ∀ b d, eb_GetBalance (es_bank st') b d =
    if decide (b = a ∧ d = eci_ExtendedDenom info)
    then v + AmountOf (eb_LockedCoins (es_auth st) (es_bank st) a) (eci_Denom info)
    else eb_GetBalance (es_bank st) b d.
Proof.
  unfold SetBalance, wrapper_SpendableCoin, wrapper_SetBalance, lift_res, int_checked. rewrite String.eqb_refl.
  unfold mbind, M_bind, gets. simpl. case_match; [done|].
  destruct (int_fits _); [|done]. simpl. unfold ConvertEvmCoinDenomToExtendedDenom. simpl.
  rewrite String.eqb_refl. unfold bank_op, zoom.
  destruct (eb_UncheckedSetBalance _ _ _) as [b' [[]|e|p]] eqn:Hb; [|done..].
  intros [= <-]. simpl. split_and!; [done..|]. intros b d. by rewrite (bl_set _ _ _ _ Hb).
Qed.

(** [SetBalance] makes the amount spendable, up to the difference between what is
    locked in the two denominations. *)
Lemma SetBalance_spendable a v c c' :
  SetBalance info a (Some v) c = (c', Ok tt) →
  eb_SpendableCoin (es_auth (cx_store c')) (es_bank (cx_store c')) a (eci_ExtendedDenom info) =
    Z.max 0 (v + AmountOf (eb_LockedCoins (es_auth (cx_store c)) (es_bank (cx_store c)) a) (eci_Denom info)
               - AmountOf (eb_LockedCoins (es_auth (cx_store c)) (es_bank (cx_store c)) a) (eci_ExtendedDenom info)).
Proof.
  intros Hrun. destruct (SetBalance_run _ _ _ _ Hrun) as (Ha & _ & _ & _ & Hbal).
  rewrite bl_spendable, Hbal, decide_True, Ha by done.
  by rewrite (bl_locked (es_auth (cx_store c)) (es_auth (cx_store c)) (es_bank (cx_store c'))
    (es_bank (cx_store c)) a eq_refl).
Qed.

Lemma SetBalance_elsewhere a v c c' b d :
  SetBalance info a (Some v) c = (c', Ok tt) → b ≠ a →
  eb_SpendableCoin (es_auth (cx_store c')) (es_bank (cx_store c')) b d =
  eb_SpendableCoin (es_auth (cx_store c)) (es_bank (cx_store c)) b d.
Proof.
  intros Hrun Hne. destruct (SetBalance_run _ _ _ _ Hrun) as (Ha & _ & _ & _ & Hbal).
  rewrite !bl_spendable, Hbal, decide_False, Ha by naive_solver.
  by rewrite (bl_locked (es_auth (cx_store c)) (es_auth (cx_store c)) (es_bank (cx_store c'))
    (es_bank (cx_store c)) b eq_refl).
Qed.

Lemma spendable_auth s s' bk b d :
  ak_GetAccount s b = ak_GetAccount s' b → eb_SpendableCoin s bk b d = eb_SpendableCoin s' bk b d.
Proof. intros H. by rewrite !bl_spendable, (bl_locked s s' bk bk b H). Qed.

Lemma load_account_run a c c' acct :
  load_account (B := B) (Ev := Ev) a c = (c', Ok acct) →
  GetAddress acct = a ∧ cx_events c' = cx_events c ∧
  ∃ auth, cx_store c' = set_auth auth (cx_store c) ∧
    ∀ b, ak_GetAccount auth b = ak_GetAccount (es_auth (cx_store c)) b.
Proof.
  unfold load_account. destruct (ak_GetAccount _ a) as [x|] eqn:Hx.
  - intros [= <- <-]. split_and!; [by eapply al_address|done|]. exists (es_auth (cx_store c)).
    split; [|done]. by destruct c as [[] ?].
  - destruct (ak_NewAccountWithAddress _ _) as [auth x'] eqn:Hn. intros [= <- <-].
    destruct (al_new _ _ _ _ Hn) as [Had Hg]. split_and!; [done..|]. by exists auth.
Qed.

(** ** The keeper fulfils the contract of the state database *)

Lemma GetState_SetState a k v st b j :
  GetState (SetState a k v st) b j = if decide (b = a ∧ j = k) then v else GetState st b j.
Proof.
  unfold GetState, SetState, storage_of. simpl.
  destruct (decide (b = a)) as [->|Hb].
  - rewrite lookup_insert_eq. simpl. destruct (decide (j = k)) as [->|Hj].
    + by rewrite lookup_insert_eq, decide_True.
    + by rewrite lookup_insert_ne, decide_False by naive_solver.
  - by rewrite lookup_insert_ne, decide_False by naive_solver.
Qed.

Lemma GetState_DeleteState a k st b j :
  GetState (DeleteState a k st) b j = if decide (b = a ∧ j = k) then 0 else GetState st b j.
Proof.
  unfold GetState, DeleteState, storage_of. simpl.
  destruct (decide (b = a)) as [->|Hb].
  - rewrite lookup_insert_eq. simpl. destruct (decide (j = k)) as [->|Hj].
    + by rewrite lookup_delete_eq, decide_True.
    + by rewrite lookup_delete_ne, decide_False by naive_solver.
  - by rewrite lookup_insert_ne, decide_False by naive_solver.
Qed.

(** Deleting keys one by one. *)
Lemma delete_states_run a ks c :
  ∃ c', for_each ks (λ k, on_kstore (DeleteState a k)) c = (c', Ok tt) ∧
    let st := cx_store c in let st' := cx_store c' in
    es_auth st' = es_auth st ∧ es_bank st' = es_bank st ∧ es_codeHash st' = es_codeHash st ∧
    es_code st' = es_code st ∧
    ∀ b j, GetState st' b j = if decide (b = a ∧ j ∈ ks) then 0 else GetState st b j.
Proof.
  revert c. induction ks as [|k ks IH]; intros c; simpl.
  { exists c. split_and!; [done..|]. intros b j. by rewrite decide_False by set_solver. }
  unfold mbind, M_bind, on_kstore, modify.
  destruct (IH (mkCtx (DeleteState a k (cx_store c)) (cx_events c))) as (c' & Hrun & H1 & H2 & H3 & H4 & H5).
  unfold on_kstore, modify in Hrun. rewrite Hrun. exists c'. split_and!; [done..|].
  intros b j. rewrite H5. simpl. rewrite GetState_DeleteState. repeat case_decide; set_solver.
Qed.

Context (Hden : eci_Denom info = eci_ExtendedDenom info).
#[local] Existing Instance evm_Keeper.

Definition account_view st (a : Address) : option Account :=
  (λ acct, mkAccount (GetSequence acct)
     (default 0 (Uint256FromBigInt (eb_SpendableCoin (es_auth st) (es_bank st) a (eci_ExtendedDenom info))))
     (GetCodeHash st a)) <$> ak_GetAccount (es_auth st) a.
Lemma GetAccount_view st a :
  kp_GetAccount (Keeper := evm_Keeper (Ev := Ev) info) st a = account_view st a.
Proof. unfold account_view. simpl. rewrite GetAccount_eq. by destruct (ak_GetAccount (es_auth st) a). Qed.

Lemma account_view_eq st a acc :
  GetAccount (Ev := Ev) info st a = Ok (Some (of_Account acc)) → account_view st a = Some acc.
Proof.
  rewrite GetAccount_eq. unfold account_view. destruct (ak_GetAccount _ a) as [acct|]; [|done].
  intros [= H1 H2 H3]. simpl. rewrite H1, H2, H3. by destruct acc.
Qed.

Lemma SetAccount_run a acc c c' :
  0 ≤ acc_Balance acc < 2 ^ 256 → SetAccount info a (of_Account acc) c = (c', Ok tt) →
  GetAccount (Ev := Ev) info (cx_store c') a = Ok (Some (of_Account acc)) ∧
  (∀ b, b ≠ a → account_view (cx_store c') b = account_view (cx_store c) b) ∧
  es_storage (cx_store c') = es_storage (cx_store c) ∧ es_code (cx_store c') = es_code (cx_store c).
Proof.
  intros Hr. unfold SetAccount, mbind, M_bind.
  destruct (load_account a c) as [c1 [acct|e|p]] eqn:Hl; [|done..].
  destruct (load_account_run _ _ _ _ Hl) as (Had & Hev & auth & Hst1 & Hauth).
  unfold lift_res. simpl. destruct (SetSequence (acc_Nonce acc) acct) as [acct'|e|p] eqn:Hs; [|done..].
  destruct (al_sequence _ _ _ Hs) as [Hseq Had'].
  set (c2 := mkCtx (if IsEmptyCodeHash (acc_CodeHash acc) then DeleteCodeHash a (cx_store c1)
                    else SetCodeHash a (acc_CodeHash acc) (cx_store c1)) (cx_events c1)).
  set (c3 := mkCtx (set_auth (ak_SetAccount acct' (es_auth (cx_store c2))) (cx_store c2)) (cx_events c2)).
  intros Hrun. assert (Hrun3 : SetBalance info a (Some (acc_Balance acc)) c3 = (c', Ok tt)).
  { subst c3 c2. by destruct (IsEmptyCodeHash (acc_CodeHash acc)). }
  clear Hrun. destruct (SetBalance_run _ _ _ _ Hrun3) as (Ha & Hh & Hc & Hs' & _).
  assert (Hauth3 : ∀ b, ak_GetAccount (es_auth (cx_store c')) b =
            if decide (b = a) then Some acct' else ak_GetAccount (es_auth (cx_store c)) b).
  { intros b. rewrite Ha. simpl. rewrite al_get_set, Had', Had. case_decide; [done|].
    subst c2. simpl. rewrite <- Hauth.
    by destruct (IsEmptyCodeHash (acc_CodeHash acc)); simpl; rewrite Hst1. }
  assert (Hhash : ∀ b, GetCodeHash (cx_store c') b =
            if decide (b = a) then acc_CodeHash acc else GetCodeHash (cx_store c) b).
  { intros b. unfold GetCodeHash. rewrite Hh. subst c3 c2. simpl.
    destruct (IsEmptyCodeHash (acc_CodeHash acc)) eqn:He; simpl; rewrite Hst1; simpl; case_decide as Hb.
    - subst b. rewrite lookup_delete_eq. simpl. symmetry. by apply Z.eqb_eq.
    - by rewrite lookup_delete_ne.
    - subst b. by rewrite lookup_insert_eq.
    - by rewrite lookup_insert_ne. }
  split_and!.
  - rewrite GetAccount_eq, Hauth3, Hhash, !decide_True by done. simpl.
    rewrite (SetBalance_spendable _ _ _ _ Hrun3), Hden, Z.add_simpl_r, Z.max_r by lia.
    unfold Uint256FromBigInt. rewrite (proj2 (Z.ltb_ge _ _)), (proj2 (Z.leb_gt _ _)) by lia.
    by rewrite Hseq.
  - intros b Hb. unfold account_view. rewrite Hauth3, Hhash, !decide_False by done.
    rewrite (SetBalance_elsewhere _ _ _ _ _ _ Hrun3 Hb).
    rewrite (spendable_auth _ (es_auth (cx_store c))).
    { subst c3 c2. simpl. by destruct (IsEmptyCodeHash _); simpl; rewrite Hst1. }
    rewrite <- Ha, Hauth3. by rewrite decide_False.
  - rewrite Hs'. subst c3 c2. simpl. by destruct (IsEmptyCodeHash _); simpl; rewrite Hst1.
  - rewrite Hc. subst c3 c2. simpl. by destruct (IsEmptyCodeHash _); simpl; rewrite Hst1.
Qed.

(** Every stored key is iterated over. *)
Lemma ForEachStorage_keys st a k : k ∉ (ForEachStorage st a).*1 → GetState st a k = 0.
Proof.
  intros Hk. unfold GetState. destruct (storage_of st a !! k) as [v|] eqn:Hv; [|done].
  destruct Hk. unfold ForEachStorage. rewrite <- list_fmap_compose. apply list_elem_of_fmap.
  exists k. split; [done|]. apply sorted_keys_elem. by rewrite Hv.
Qed.

Lemma DeleteAccount_run a c c' :
  DeleteAccount info a c = (c', Ok tt) →
  account_view (cx_store c') a = None ∧
  (is_Some (account_view (cx_store c) a) → ∀ k, GetState (cx_store c') a k = 0) ∧
  (∀ b, b ≠ a → account_view (cx_store c') b = account_view (cx_store c) b) ∧
  (∀ b k, b ≠ a → GetState (cx_store c') b k = GetState (cx_store c) b k) ∧
  es_code (cx_store c') = es_code (cx_store c).
Proof.
  unfold DeleteAccount, mbind, M_bind, gets. unfold account_view at 2.
  destruct (ak_GetAccount (es_auth (cx_store c)) a) as [acct|] eqn:Hacct.
  2: { intros [= <-]. unfold account_view. rewrite Hacct. split_and!; try done. by intros [? [=]]. }
  destruct (IsContract (cx_store c) a); cbn [negb]; [|done].
  set (c1 := mkCtx (set_auth (ak_SetAccount (NewBaseAccount acct) (es_auth (cx_store c))) (cx_store c)) (cx_events c)).
  change (on_kstore (λ st, set_auth (ak_SetAccount (NewBaseAccount acct) (es_auth st)) st) c)
    with ((c1, Ok tt) : sdkContext store Ev * res SdkError unit). cbn iota.
  destruct (SetBalance info a (Some 0) c1) as [c2 [[]|e|p]] eqn:Hb; [|done..].
  destruct (SetBalance_run _ _ _ _ Hb) as (Ha & Hh & Hc & Hs & _).
  destruct (delete_states_run a (ForEachStorage (cx_store c2) a).*1 c2) as (c3 & -> & Ha3 & Hb3 & Hh3 & Hc3 & Hs3).
  intros [= <-]. simpl. pose proof (al_address _ _ _ Hacct) as Had.
  assert (Hauth : ∀ b, ak_GetAccount (ak_RemoveAccount acct (es_auth (cx_store c3))) b =
            if decide (b = a) then None else ak_GetAccount (es_auth (cx_store c)) b).
  { intros b. rewrite al_get_remove, Had, Ha3, Ha. case_decide; [done|]. simpl.
    by rewrite al_get_set, al_base, Had, decide_False. }
  split_and!.
  - unfold account_view. simpl. by rewrite Hauth, decide_True.
  - intros _ k. change (GetState (cx_store c3) a k = 0). rewrite Hs3. case_decide as Hd; [done|].
    apply ForEachStorage_keys. naive_solver.
  - intros b Hne. unfold account_view. simpl. rewrite Hauth, decide_False by done.
    unfold GetCodeHash. simpl. rewrite lookup_delete_ne, Hh3, Hh, Hb3 by done. simpl.
    rewrite (spendable_auth _ (es_auth (cx_store c2))).
    2: { rewrite Hauth, decide_False, Ha by done. simpl. by rewrite al_get_set, al_base, Had, decide_False. }
    rewrite (SetBalance_elsewhere _ _ _ _ _ _ Hb Hne). simpl.
    rewrite (spendable_auth (ak_SetAccount _ _) (es_auth (cx_store c))); [done|].
    by rewrite al_get_set, al_base, Had, decide_False.
  - intros b k Hne. change (GetState (cx_store c3) b k = GetState (cx_store c) b k).
    rewrite Hs3, decide_False by naive_solver. unfold GetState, storage_of. by rewrite Hs.
  - by rewrite Hc3, Hc.
Qed.

#[export] Instance evm_KeeperLaws : KeeperLaws store Ev (HK := evm_Keeper (Ev := Ev) info).
Proof.
  split; unfold only_account; repeat setoid_rewrite GetAccount_view; simpl.
  - intros a acc c c' Hr Hrun. destruct (SetAccount_run a acc c c' Hr Hrun) as (H1%account_view_eq & H2 & H3 & H4).
    unfold GetState, storage_of, GetCode. rewrite H3, H4. by split_and!.
  - intros a c c' Hrun. destruct (DeleteAccount_run a c c' Hrun) as (H1 & H2 & H3 & H4 & H5).
    unfold GetCode. rewrite H5. by split_and!.
  - intros a k v st j. rewrite GetState_SetState. repeat case_decide; naive_solver.
  - done.
  - intros a k v st. split_and!; [done| |done]. intros b j Hb.
    rewrite GetState_SetState. by rewrite decide_False by naive_solver.
  - intros h code st h'. unfold GetCode, SetCode. simpl. case_decide as Hh.
    + subst. apply lookup_insert_eq.
    + by apply lookup_insert_ne.
  - done.
  - done.
  - intros h st h'. unfold GetCode, DeleteCode. simpl. case_decide as Hh.
    + subst. apply lookup_delete_eq.
    + by apply lookup_delete_ne.
  - done.
  - done.
Qed.
End KeeperLaws.
End EvmKeeper.
