(* ===== verification/EvmKeeperProps.v ===== *)
(** The properties of the EVM keeper and of committing the state database to it,
    with witnesses on in-memory auth and bank modules. *)
From S2P Require Import Prelude GoStd AccessList Sdk EvmCoin SdkLedger StateDB StateDBRevert StateDBCommit EvmKeeper.
Import EvmKeeper.

Section Properties.
Context {A B Acct Ev C : Type}.
Context `{HCr : Crypto, HA : !AuthKeeper A Acct, HB : !EvmBank A B Ev, HD : DelegationLib, HCL : CoinsLib}.
Context `{HAL : !AuthLaws A Acct, HBL : !EvmBankLaws A B Acct Ev}.
Context (info : EvmCoinInfo).
Context `{HKC : !Keeper C Ev, HS : !Snapshotter C, HCC : !CacheContext (evmStore A B) C}.
#[local] Instance the_keeper : Keeper (evmStore A B) Ev := evm_Keeper info.

(** The store the dirty objects are written to: what precompiles wrote first. *)
Definition commit_base (s : StateDB (evmStore A B) C Ev) : evmStore A B :=
  match sdb_cache s with
  | Some c => cc_write (cx_store c) (cx_store (sdb_ctx s))
  | None => cx_store (sdb_ctx s)
  end.

(** C16: Commit makes the state durable.  On a chain whose coin has 18 decimals,
    after a successful commit the keeper returns, for every dirty address, the
    account of the state database and its dirty storage over what was stored
    before, or no account and, if there was one, no storage when it was
    self-destructed; new code is found under its hash; all other accounts and
    their storage are as before. *)
Theorem commit_persists (s s' : StateDB (evmStore A B) C Ev) :
  eci_Denom info = eci_ExtendedDenom info → keyed s →
  (∀ a o, sdb_stateObjects s !! a = Some o → 0 ≤ obj_Balance o < 2 ^ 256) →
  Commit s = (s', Ok tt) →
  let st := commit_base s in
  let st' := cx_store (sdb_ctx s') in
  let dirties := sortedDirties (sdb_journal s) in
  (∀ a, if decide (is_Some (j_dirties (sdb_journal s) !! a))
        then ∃ o, sdb_stateObjects s !! a = Some o ∧ object_persisted o st st'
        else kp_GetAccount st' a = kp_GetAccount st a ∧
             ∀ k, GetState st' a k = GetState st a k) ∧
  (coherent_codes (sdb_stateObjects s) dirties → ∀ a o code,
     is_Some (j_dirties (sdb_journal s) !! a) → sdb_stateObjects s !! a = Some o →
     new_code o = Some code → code ≠ "" → GetCode st' (obj_CodeHash o) = Some code).
Proof.
  intros Hden Hkeyed Hrange Hrun.
  assert (Hc : ∃ ev c', commit_all (sdb_stateObjects s) (sortedDirties (sdb_journal s))
                       (mkCtx (commit_base s) ev) = (c', Ok tt) ∧ sdb_ctx s' = c').
  { unfold Commit, commit_base, commit_to_ctx, mbind, M_bind, gets in *.
    destruct (sdb_cache s) as [c|]; simpl in Hrun.
    - destruct (commit_all _ _ _) as [c' r] eqn:Hc in Hrun. injection Hrun as <- ->. eauto.
    - destruct (sdb_ctx s) as [st ev] eqn:Hctx. simpl.
      destruct (commit_all _ _ _) as [c' r] eqn:Hc in Hrun. injection Hrun as <- ->. eauto. }
  destruct Hc as (ev & c' & Hc & ->). pose proof (evm_KeeperLaws (Ev := Ev) info Hden) as HKL. split.
  - intros a. pose proof (commit_all_persisted _ Hkeyed Hrange _ _ _ (sorted_keys_NoDup _) Hc a) as Ha.
    assert (Hdec : a ∈ sortedDirties (sdb_journal s) ↔ is_Some (j_dirties (sdb_journal s) !! a))
      by apply sorted_keys_elem.
    destruct (decide (is_Some _)); [rewrite decide_True in Ha by by apply Hdec|
      rewrite decide_False in Ha by by rewrite Hdec]; exact Ha.
  - intros Hcoh a o code Hd Ho Hnew Hne.
    change (kp_GetCode (Keeper := the_keeper) (cx_store c') (obj_CodeHash o) = Some code).
    eapply (commit_all_code _ Hkeyed Hrange _ _ c' a o code Hcoh); [by apply sorted_keys_elem|done..| |exact Hc].
    intros Hz. unfold code_len in Hz. simpl in Hz. apply Hne. destruct code; [done|simpl in Hz; lia].
Qed.

(** C17: What [SetBalance] makes spendable, in 18 decimals: the amount asked for
    plus what the account has locked in the integer denomination, less what it
    has locked in the extended one.  The two cancel when the denominations
    agree; on a chain with fewer decimals the locked amount is added in the
    wrong unit and an account with locked coins gains it. *)
Theorem SetBalance_makes_spendable (a : Address) v (c c' : sdkContext (evmStore A B) Ev) :
  SetBalance info a (Some v) c = (c', Ok tt) →
  let locked d := AmountOf (eb_LockedCoins (es_auth (cx_store c)) (es_bank (cx_store c)) a) d in
  let spendable := eb_SpendableCoin (es_auth (cx_store c')) (es_bank (cx_store c')) a (eci_ExtendedDenom info) in
  spendable = Z.max 0 (v + locked (eci_Denom info) - locked (eci_ExtendedDenom info)) ∧
  (eci_Denom info = eci_ExtendedDenom info → 0 ≤ v → spendable = v).
Proof.
  intros Hrun. simpl. rewrite (SetBalance_spendable info a v c c' Hrun). split; [done|].
  intros -> Hv. lia.
Qed.

(** Accounts round trip through the keeper: an account set with [SetAccount]
    is the one [GetAccount] returns, and a self-destructed one is gone together
    with its storage, while other accounts and their storage are untouched. *)
Theorem account_roundtrip (a : Address) (acc : Account) (c c1 c2 : sdkContext (evmStore A B) Ev) :
  eci_Denom info = eci_ExtendedDenom info → 0 ≤ acc_Balance acc < 2 ^ 256 →
  SetAccount info a (of_Account acc) c = (c1, Ok tt) →
  GetAccount (Ev := Ev) info (cx_store c1) a = Ok (Some (of_Account acc)) ∧
  (DeleteAccount info a c1 = (c2, Ok tt) →
   GetAccount (Ev := Ev) info (cx_store c2) a = Ok None ∧ (∀ k, GetState (cx_store c2) a k = 0) ∧
   ∀ b k, b ≠ a → GetState (cx_store c2) b k = GetState (cx_store c) b k).
Proof.
  intros Hden Hr Hset. destruct (SetAccount_run info Hden a acc c c1 Hr Hset) as (Hv & _ & Hs & _).
  split; [done|].
  intros Hdel. destruct (DeleteAccount_run info a c1 c2 Hdel) as (H1 & H2 & _ & H4 & _). split_and!.
  - rewrite GetAccount_eq. unfold account_view in H1. by destruct (ak_GetAccount _ a).
  - apply H2. by rewrite (account_view_eq _ _ _ _ Hv).
  - intros b k Hb. rewrite H4 by done. unfold GetState, storage_of. by rewrite Hs.
Qed.
End Properties.

(** ** Witnesses *)

(** Accounts with a sequence and locked coins; balances by address and denom. *)
Module MemoryChain.
Record acct := mkAcct { ac_address : Address; ac_sequence : Z; ac_locked : Coins }.
Abbreviation auth := (gmap Address (Z * Coins)).
Abbreviation bank := (gmap (Address * string) Z).
#[export] Instance memory_auth : AuthKeeper auth acct := {
  ak_GetAccount s a := (λ x, mkAcct a x.1 x.2) <$> s !! a;
  ak_NewAccountWithAddress a s := (s, mkAcct a 0 []);
  ak_SetAccount acct s := <[ac_address acct := (ac_sequence acct, ac_locked acct)]> s;
  ak_RemoveAccount acct s := delete (ac_address acct) s;
  GetAddress := ac_address;
  GetSequence := ac_sequence;
  SetSequence n acct := Ok (mkAcct (ac_address acct) n (ac_locked acct));
  NewBaseAccount acct := mkAcct (ac_address acct) (ac_sequence acct) [];
}.
#[export] Instance memory_auth_laws : AuthLaws auth acct.
Proof.
  split; simpl.
  - intros acc s a. case_decide as Ha; [|by rewrite lookup_insert_ne].
    subst. rewrite lookup_insert_eq. by destruct acc.
  - intros acc s a. case_decide as Ha; [|by rewrite lookup_delete_ne].
    subst. by rewrite lookup_delete_eq.
  - intros s a acc. destruct (s !! a); [|done]. by intros [= <-].
  - by intros a s s' acc [= <- <-].
  - by intros n acc acc' [= <-].
  - done.
Qed.

Definition mem_balance (b : bank) (a : Address) (d : string) : Z := default 0 (b !! (a, d)).
Definition mem_locked (s : auth) (a : Address) : Coins := from_option snd [] (s !! a).
#[export] Instance memory_bank : EvmBank auth bank string := {
  eb_GetBalance := mem_balance;
  eb_SpendableCoin s b a d := Z.max 0 (mem_balance b a d - AmountOf (mem_locked s a) d);
  eb_LockedCoins s _ a := mem_locked s a;
  eb_BlockedAddr _ := false;
  eb_UncheckedSetBalance a coin := λ c,
    (mkCtx (<[(a, Denom coin) := Amount coin]> (cx_store c)) (cx_events c), Ok tt);
}.
#[export] Instance memory_bank_laws : EvmBankLaws auth bank acct string.
Proof.
  split; simpl.
  - intros a coin c c' [= <-] b d. simpl. unfold mem_balance. case_decide as Hd.
    + destruct Hd as [-> ->]. by rewrite lookup_insert_eq.
    + by rewrite lookup_insert_ne by naive_solver.
  - done.
  - intros s s' _ _ a. unfold mem_locked. destruct (s !! a) as [[]|], (s' !! a) as [[]|]; naive_solver.
Qed.

#[export] Instance memory_hash : Crypto := { Keccak256Hash code := Z.of_nat (String.length code) }.
#[export] Instance no_delegation : DelegationLib := { ParseDelegation _ := false }.
Abbreviation chain := (evmStore auth bank).
(** No precompile runs here: a cache is a copy of the store. *)
#[export] Instance copy_snapshotter : Snapshotter chain := {
  sn_Snapshot c := (0, c);
  sn_RevertToSnapshot _ c := Some c;
}.
#[export] Instance copy_cache : CacheContext chain chain := { cc_new c := c; cc_write c _ := c }.
End MemoryChain.
Import MemoryChain.

Definition info18 : EvmCoinInfo := mkEvmCoinInfo "aevm" "aevm" "evm" 18.
Definition info6 : EvmCoinInfo := mkEvmCoinInfo "uevm" "aevm" "evm" 6.
#[local] Instance chain_keeper : Keeper chain string := evm_Keeper info18.

Definition genesis : sdkContext chain string :=
  mkCtx (mkEvmStore {[1 := (7, [])]} {[(1, "aevm") := 100]} ∅ ∅ {[1 := {[5 := 6]}]}) [].
(** Address 1 pays 40 to a new contract at address 2 and changes its storage. *)
Definition edited : StateDB chain chain string :=
  fst ((SubBalance 1 40 ;; AddBalance 2 40 ;; StateDB.SetState 1 5 9 ;; StateDB.SetCode 2 (Some "code") ;; mret tt)
         (New genesis 0)).
Definition committed : StateDB chain chain string := fst (Commit edited).

Definition object_ok (a : Address) (o : stateObject) : Prop :=
  so_address o = a ∧ 0 ≤ obj_Balance o < 2 ^ 256.
Lemma edited_ok : map_Forall object_ok (sdb_stateObjects edited).
Proof. apply (bool_decide_unpack (map_Forall object_ok (sdb_stateObjects edited))). vm_compute. exact I. Qed.

Lemma commit_persists_witness :
  let st' := cx_store (sdb_ctx committed) in
  account_view (Ev := string) info18 st' 1 = Some (mkAccount 7 60 0) ∧ GetState st' 1 5 = 9 ∧
  ∀ a, if decide (is_Some (j_dirties (sdb_journal edited) !! a))
       then ∃ o, sdb_stateObjects edited !! a = Some o ∧
              object_persisted o (cx_store genesis) st'
       else kp_GetAccount st' a = kp_GetAccount (cx_store genesis) a ∧
            ∀ k, GetState st' a k = GetState (cx_store genesis) a k.
Proof.
  assert (Hok : snd (Commit edited) = Ok tt) by (vm_compute; reflexivity).
  split; [vm_compute; reflexivity|]. split; [vm_compute; reflexivity|].
  exact (proj1 (commit_persists info18 edited committed eq_refl
    (λ a o Ho, proj1 (edited_ok a o Ho)) (λ a o Ho, proj2 (edited_ok a o Ho)) (run_outcome _ _ _ Hok))).
Defined.

(** 3 uevm are locked; the account is given 50 aevm and can spend 53. *)
Definition vesting : sdkContext chain string :=
  mkCtx (mkEvmStore {[1 := (7, [mkCoin "uevm" 3])]} ∅ ∅ ∅ ∅) [].
Definition credited : sdkContext chain string := fst (SetBalance info6 1 (Some 50) vesting).
Lemma SetBalance_makes_spendable_witness :
  eb_SpendableCoin (Ev := string) (es_auth (cx_store credited)) (es_bank (cx_store credited)) 1 "aevm" =
    Z.max 0 (50 + 3 - 0).
Proof.
  assert (Hok : snd (SetBalance info6 1 (Some 50) vesting) = Ok tt) by (vm_compute; reflexivity).
  exact (proj1 (SetBalance_makes_spendable info6 1 50 vesting credited (run_outcome _ _ _ Hok))).
Defined.

Definition contract_code : sdkContext chain string :=
  mkCtx (EvmKeeper.SetCode 4 "code" (cx_store genesis)) [].
Definition stored : sdkContext chain string :=
  fst (SetAccount info18 1 (of_Account (mkAccount 8 60 4)) contract_code).
Definition destroyed : sdkContext chain string := fst (DeleteAccount info18 1 stored).
Lemma account_roundtrip_witness :
  GetAccount (Ev := string) info18 (cx_store stored) 1 = Ok (Some (of_Account (mkAccount 8 60 4))) ∧
  GetAccount (Ev := string) info18 (cx_store destroyed) 1 = Ok None ∧
  GetState (cx_store destroyed) 1 5 = 0.
Proof.
  assert (Hset : snd (SetAccount info18 1 (of_Account (mkAccount 8 60 4)) contract_code) = Ok tt)
    by (vm_compute; reflexivity).
  assert (Hdel : snd (DeleteAccount info18 1 stored) = Ok tt) by (vm_compute; reflexivity).
  assert (Hr : 0 ≤ acc_Balance (mkAccount 8 60 4) < 2 ^ 256) by (simpl; lia).
  destruct (account_roundtrip info18 1 (mkAccount 8 60 4) contract_code stored destroyed eq_refl Hr
              (run_outcome _ _ _ Hset)) as [H1 H2].
  split; [exact H1|]. destruct (H2 (run_outcome _ _ _ Hdel)) as (H3 & H4 & _).
  split; [exact H3|exact (H4 5)].
Defined.
