(* ===== verification/Precompile.v ===== *)
(** The base of the stateful precompiles ([precompiles/common]):
    [runNativeAction] with its gas accounting and panic recovery
    ([precompile.go]), the balance handler that replays the bank events of a
    native action on the state database ([balance_handler.go]) and the parsing
    of those events ([utils.go]). *)
From S2P Require Import Prelude GoStd AccessList Sdk EvmCoin StateDB StateDBRevert StateDBJournal.

(** ** What the SDK and go-ethereum provide *)

(** [sdk.Event]: its type and [GetAttribute]. *)
Class EventLib (Ev : Type) := {
  ev_Type : Ev → string;
  GetAttribute : Ev → string → option string;
}.

Class ParseLib := {
  AccAddressFromBech32 : string → option AccAddress;
  ParseCoinsNormalized : string → option Coins;
  BytesToAddress : AccAddress → Address;
}.

(** [storetypes.GasMeter]; [ConsumeGas] panics when the meter is exhausted. *)
Class GasMeterLib (G : Type) := {
  NewGasMeter : Z → G;
  GasConsumed : G → Z;
  ConsumeGas : Z → M G SdkError unit;
}.

(** The panic value [storetypes.ErrorOutOfGas] and the error [vm.ErrOutOfGas]. *)
Definition ErrorOutOfGas : string := "ErrorOutOfGas".
Definition ErrOutOfGas : SdkError := ErrPlain "out of gas".

(** ** Parsing bank events *)

Definition EventTypeCoinSpent : string := "coin_spent".
Definition EventTypeCoinReceived : string := "coin_received".
Definition AttributeKeySpender : string := "spender".
Definition AttributeKeyReceiver : string := "receiver".
Definition AttributeKeyAmount : string := "amount".

Section Parse.
Context {Ev : Type} `{HEv : EventLib Ev, HPL : ParseLib, HCL : CoinsLib} {S : Type}.

Definition ParseAddress (event : Ev) (key : string) : M S SdkError AccAddress :=
  match GetAttribute event key with
  | None => throw (ErrPlain "event missing attribute")
  | Some value =>
      match AccAddressFromBech32 value with
      | None => throw (ErrPlain "invalid address")
      | Some accAddr => mret accAddr
      end
  end.

(** [info] is the configured coin; a nil conversion factor panics. *)
Definition ParseAmount (info : EvmCoinInfo) (event : Ev) : M S SdkError Z :=
  match GetAttribute event AttributeKeyAmount with
  | None => throw (ErrPlain "event missing attribute")
  | Some value =>
      match ParseCoinsNormalized value with
      | None => throw (ErrPlain "failed to parse coins")
      | Some amountCoins =>
          match ConvertAmountTo18DecimalsBigInt info (AmountOf amountCoins (eci_Denom info)) with
          | None => panic "nil pointer dereference"
          | Some amountBigInt =>
              match Uint256FromBigInt amountBigInt with
              | None => throw (ErrPlain "failed to convert coin amount to Uint256")
              | Some amount => mret amount
              end
          end
      end
  end.
End Parse.

Section Precompile.
Context {K C Ev G : Type}.
Context `{HCr : Crypto, HK : !Keeper K Ev, HKC : !Keeper C Ev, HS : !Snapshotter C,
          HCC : !CacheContext K C}.
Context `{HEv : !EventLib Ev, HPL : ParseLib, HCL : CoinsLib, HG : !GasMeterLib G}.
(** [bankKeeper.BlockedAddr] and the configured EVM coin. *)
Context (BlockedAddr : AccAddress → bool) (info : EvmCoinInfo).

Abbreviation SM := (M (StateDB K C Ev) SdkError).

(** ** The balance handler *)

Definition BeforeBalanceChange : SM Z :=
  on_cache (gets (λ c, Z.of_nat (length (cx_events c)))).

(** The body of the loop over the new events. *)
Definition handle_event (eventIdx : Z) (event : Ev) : SM unit :=
  processed ← IsEventProcessed eventIdx;
  if processed : bool then mret tt
  else if String.eqb (ev_Type event) EventTypeCoinSpent then
    spenderAddr ← ParseAddress event AttributeKeySpender;
    if BlockedAddr spenderAddr then mret tt
    else
      amount ← ParseAmount info event;
      SubBalance (BytesToAddress spenderAddr) amount ;; mret tt
  else if String.eqb (ev_Type event) EventTypeCoinReceived then
    receiverAddr ← ParseAddress event AttributeKeyReceiver;
    if BlockedAddr receiverAddr then mret tt
    else
      amount ← ParseAmount info event;
      AddBalance (BytesToAddress receiverAddr) amount ;; mret tt
  else mret tt.

Fixpoint handle_events (eventIdx : Z) (events : list Ev) : SM unit :=
  match events with
  | [] => mret tt
  | event :: events' => handle_event eventIdx event ;; handle_events (eventIdx + 1) events'
  end.

Definition AfterBalanceChange (prevEventsLen : Z) : SM unit :=
  events ← on_cache (gets cx_events);
  if Z.of_nat (length events) <? prevEventsLen then panic "slice bounds out of range"
  else handle_events prevEventsLen (drop (Z.to_nat prevEventsLen) events).

(** ** Running a native action *)

(** The state a call changes: the state database and [contract.Gas]. *)
Record call := mkCall { cl_db : StateDB K C Ev; cl_gas : Z }.
Abbreviation CallM := (M call SdkError).
Definition on_db {A} : SM A → CallM A := zoom cl_db (λ db cl, mkCall db (cl_gas cl)).

(** [Contract.UseGas]. *)
Definition UseGas (gas : Z) : CallM bool := λ cl,
  if cl_gas cl <? gas then (cl, Ok false) else (mkCall (cl_db cl) (cl_gas cl - gas), Ok true).

(** [HandleGasError], deferred around [m].  Its context, with the meter
    [ctxMeter], is the one of the [defer] statement. *)
Definition HandleGasError {A} (ctxMeter : G) (initialGas : Z) (m : CallM A) : CallM A := λ cl,
  match m cl with
  | (cl', Panic p) =>
      if String.eqb p ErrorOutOfGas then
        (UseGas (u64_sub (GasConsumed ctxMeter) initialGas) ;; throw ErrOutOfGas) cl'
      else (cl', Panic p)
  | r => r
  end.

(** A native action runs on the cache context with a gas meter of its own, and
    returns its output and that meter. *)
Abbreviation NativeAction := (G → M (sdkContext C Ev) SdkError (string * G)).

Definition run_meter (gas : Z) (m : G) : CallM G := λ cl,
  match ConsumeGas gas m with
  | (m', Ok _) => (cl, Ok m')
  | (_, Err e) => (cl, Err e)
  | (_, Panic p) => (cl, Panic p)
  end.

(** What runs under the deferred [HandleGasError]. *)
Definition metered (hasHandler : bool) (initialGas : Z) (action : NativeAction) : CallM string :=
  gas ← gets cl_gas;
  meter ← run_meter initialGas (NewGasMeter gas);
  prevEventsLen ← (if hasHandler then on_db BeforeBalanceChange else mret 0);
  out ← on_db (on_cache (action meter));
  let cost := u64_sub (GasConsumed (snd out)) initialGas in
  enough ← UseGas cost;
  if negb enough then throw ErrOutOfGas
  else
    (if hasHandler then on_db (AfterBalanceChange prevEventsLen) else mret tt) ;;
    mret (fst out).

(** [ctxMeter] is the gas meter of the cache context, and [hasHandler] whether
    the precompile has a balance handler factory; [begin_call] is its first part,
    up to and including [FlushToCacheCtx]. *)
Definition runNativeAction (hasHandler : bool) (ctxMeter : G) (action : NativeAction) :
    CallM string :=
  on_db begin_call ;;
  let initialGas := GasConsumed ctxMeter in
  HandleGasError ctxMeter initialGas (metered hasHandler initialGas action).

(** ** Calls as steps of the state database *)

Context `{HI : !CacheInv C} {W : C → C → Prop} `{HSL : !SnapshotterLaws C W, HKW : !KeeperWrites C Ev W}.
Implicit Types db : StateDB K C Ev.

Abbreviation steps id := (rtc (sdb_step (W := W) id)).
Definition no_panic {A} (r : res SdkError A) : Prop := ∀ p, r ≠ Panic p.

Lemma steps_op {id db db' r} (op : sdb_op (W := W)) : exec op db = (db', r) → no_panic r → steps id db db'.
Proof. intros. apply rtc_once. by eapply step_op. Qed.

Lemma ParseAddress_pure {S} (ev : Ev) key (s s' : S) r : ParseAddress ev key s = (s', r) → s' = s.
Proof. unfold ParseAddress. repeat case_match; by intros [= <- _]. Qed.
Lemma ParseAmount_pure {S} (ev : Ev) (s s' : S) r : ParseAmount info ev s = (s', r) → s' = s.
Proof. unfold ParseAmount. repeat case_match; by intros [= <- _]. Qed.

Lemma handle_event_steps id idx ev db db' r :
  handle_event idx ev db = (db', r) → no_panic r → steps id db db'.
Proof.
  unfold handle_event. unfold IsEventProcessed, mbind at 1, M_bind at 1, gets.
  case_match; [by intros [= <- _]|].
  assert (Hpay : ∀ key (pay : Address → Z → SM Z) (op : Address → Z → sdb_op (W := W)),
    (∀ a v, exec (op a v) = (pay a v ;; mret tt)) →
    (a ← ParseAddress ev key;
     if BlockedAddr a then mret tt
     else v ← ParseAmount info ev; pay (BytesToAddress a) v ;; mret tt) db = (db', r) →
    no_panic r → steps id db db').
  { intros key pay op Hop Hrun Hp. unfold mbind, M_bind in Hrun.
    destruct (ParseAddress ev key db) as [db1 [a|e|p]] eqn:Ha; apply ParseAddress_pure in Ha; simplify_eq;
      try done.
    case_match; [by injection Hrun as <- <-|].
    destruct (ParseAmount info ev db) as [db1 [v|e|p]] eqn:Hv; apply ParseAmount_pure in Hv; simplify_eq;
      try done.
    apply (steps_op (op (BytesToAddress a) v) (r := r)); [by rewrite Hop|done]. }
  destruct (String.eqb (ev_Type ev) EventTypeCoinSpent); intros Hrun Hp;
    [|destruct (String.eqb (ev_Type ev) EventTypeCoinReceived); [|by injection Hrun as <- _]].
  - by apply (Hpay _ SubBalance OSubBalance) in Hrun.
  - by apply (Hpay _ AddBalance OAddBalance) in Hrun.
Qed.

Lemma handle_events_steps id evs idx db db' r :
  handle_events idx evs db = (db', r) → no_panic r → steps id db db'.
Proof.
  revert idx db. induction evs as [|ev evs IH]; intros idx db; simpl; [by intros [= <- _]|].
  unfold mbind, M_bind. destruct (handle_event idx ev db) as [db1 r1] eqn:He. intros Hrun Hp.
  destruct r1; simplify_eq; [|by eapply handle_event_steps..].
  etrans; [by eapply handle_event_steps|by eapply IH].
Qed.

(** Reading the cache context changes nothing. *)
Lemma on_cache_gets {A} (f : sdkContext C Ev → A) db db' r :
  on_cache (gets f) db = (db', r) → db' = db ∧
  match sdb_cache db with Some c => r = Ok (f c) | None => ∃ p, r = Panic p end.
Proof.
  unfold on_cache. destruct (sdb_cache db) as [c|] eqn:Hc; intros [= <- <-]; [|eauto].
  split; [by destruct db; simpl in *; subst|done].
Qed.

Lemma AfterBalanceChange_steps id n db db' r :
  AfterBalanceChange n db = (db', r) → no_panic r → steps id db db'.
Proof.
  unfold AfterBalanceChange, mbind, M_bind.
  destruct (on_cache _ db) as [db1 r1] eqn:Hc. destruct (on_cache_gets _ _ _ _ Hc) as [-> Hr].
  destruct (sdb_cache db); [|destruct Hr as [p ->]; intros [= <- <-] Hp; by destruct (Hp p)].
  subst r1. case_match; [intros [= <- <-] Hp; by destruct (Hp "slice bounds out of range")|].
  apply handle_events_steps.
Qed.

(** ** Balances *)

(** The balance the state database reports for an address. *)
Definition balance_of db (a : Address) : Z :=
  match sdb_stateObjects db !! a with
  | Some o => obj_Balance o
  | None => from_option acc_Balance 0 (kp_GetAccount (cx_store (sdb_ctx db)) a)
  end.

(** What the event loop reads of the state database, apart from balances. *)
Definition same_frame db db' : Prop :=
  sdb_ctx db' = sdb_ctx db ∧ sdb_cache db' = sdb_cache db ∧
  sdb_processedEventsCount db' = sdb_processedEventsCount db.
#[local] Instance same_frame_preorder : PreOrder same_frame.
Proof. split; [done|]. intros ??? (? & ? & ?) (? & ? & ?). unfold same_frame. split_and!; congruence. Qed.

Lemma getOrNewStateObject_balance a db :
  ∃ o db1, getOrNewStateObject a db = (db1, Ok o) ∧ obj_Balance o = balance_of db a ∧
    same_frame db db1 ∧ sdb_stateObjects db1 !! a = Some o ∧
    ∀ x, balance_of db1 x = balance_of db x.
Proof.
  unfold getOrNewStateObject, createObject, getStateObject, balance_of. run_M.
  destruct (sdb_stateObjects db !! a) as [o|] eqn:Ho; simpl; [by eexists _, _; split_and!|].
  destruct (kp_GetAccount _ a) as [acc|] eqn:Hacc; simpl; rewrite ?Ho, ?Hacc; simpl.
  - eexists _, _. split_and!; [done..|apply lookup_insert_eq|]. intros x. simpl.
    destruct (decide (x = a)) as [->|Hne]; [by rewrite lookup_insert_eq, Ho, Hacc|].
    by rewrite lookup_insert_ne.
  - eexists _, _. split_and!; [done..|apply lookup_insert_eq|]. intros x. simpl.
    destruct (decide (x = a)) as [->|Hne]; [by rewrite lookup_insert_eq, Ho, Hacc|].
    by rewrite lookup_insert_ne.
Qed.

(** A balance change by [d] modulo 2^256. *)
Definition moves (d : Address → Z) db db' : Prop :=
  same_frame db db' ∧ ∀ x, balance_of db' x mod 2 ^ 256 = (balance_of db x + d x) mod 2 ^ 256.

Lemma moves_refl db : moves (λ _, 0) db db.
Proof. split; [done|]. intros x. by rewrite Z.add_0_r. Qed.

Lemma moves_trans d1 d2 db1 db2 db3 :
  moves d1 db1 db2 → moves d2 db2 db3 → moves (λ x, d1 x + d2 x) db1 db3.
Proof.
  intros [F1 H1] [F2 H2]. split; [by etrans|]. intros x.
  rewrite H2, <- Zplus_mod_idemp_l, H1, Zplus_mod_idemp_l. f_equal. lia.
Qed.

Lemma obj_SetBalance_moves a o v d db :
  sdb_stateObjects db !! a = Some o →
  v mod 2 ^ 256 = (balance_of db a + d) mod 2 ^ 256 →
  ∃ db', obj_SetBalance a o v db = (db', Ok (obj_Balance o)) ∧
    moves (λ x, if x =? a then d else 0) db db'.
Proof.
  intros Ho Hv. eexists. split; [done|]. split; [done|]. intros x.
  unfold balance_of. simpl. rewrite lookup_alter.
  destruct (Z.eqb_spec x a) as [->|Hne].
  - rewrite decide_True by done. unfold balance_of in Hv. by rewrite Ho in *.
  - rewrite decide_False by done. by rewrite Z.add_0_r.
Qed.

Lemma AddBalance_moves a v db :
  ∃ db', AddBalance a v db = (db', Ok (balance_of db a)) ∧ moves (λ x, if x =? a then v else 0) db db'.
Proof.
  destruct (getOrNewStateObject_balance a db) as (o & db1 & Hget & Hb & Hf & Ho & Hbal).
  unfold AddBalance, mbind, M_bind. rewrite Hget. unfold obj_AddBalance.
  assert (Hm1 : moves (λ _, 0) db db1) by (split; [done|]; intros x; by rewrite Hbal, Z.add_0_r).
  destruct (Z.eqb_spec v 0) as [->|Hv].
  - rewrite Hb. eexists. split; [done|]. destruct Hm1 as [? Hm1]. split; [done|]. intros x.
    rewrite Hm1. by destruct (x =? a).
  - destruct (obj_SetBalance_moves a o (u256_add (obj_Balance o) v) v db1 Ho) as (db2 & Hs & Hm2).
    { unfold u256_add, wrap. by rewrite Zmod_mod, Hb, Hbal. }
    rewrite Hs, Hb. eexists. split; [done|]. exact (moves_trans _ _ _ _ _ Hm1 Hm2).
Qed.

Lemma SubBalance_moves a v db :
  ∃ db', SubBalance a v db = (db', Ok (balance_of db a)) ∧ moves (λ x, if x =? a then - v else 0) db db'.
Proof.
  destruct (getOrNewStateObject_balance a db) as (o & db1 & Hget & Hb & Hf & Ho & Hbal).
  unfold SubBalance, mbind, M_bind. rewrite Hget. unfold obj_SubBalance.
  assert (Hm1 : moves (λ _, 0) db db1) by (split; [done|]; intros x; by rewrite Hbal, Z.add_0_r).
  destruct (Z.eqb_spec v 0) as [->|Hv].
  - rewrite Hb. eexists. split; [done|]. destruct Hm1 as [? Hm1]. split; [done|]. intros x.
    rewrite Hm1. by destruct (x =? a).
  - destruct (obj_SetBalance_moves a o (u256_sub (obj_Balance o) v) (- v) db1 Ho) as (db2 & Hs & Hm2).
    { unfold u256_sub, wrap. by rewrite Zmod_mod, Hb, Hbal. }
    rewrite Hs, Hb. eexists. split; [done|]. exact (moves_trans _ _ _ _ _ Hm1 Hm2).
Qed.

(** ** The net effect of a list of events *)

(** The transfer a bank event stands for: [Some None] when it moves nothing the
    state database tracks, [None] when it does not parse. *)
Definition parsed_transfer (key : string) (sign : Z) (ev : Ev) : option (option (Address * Z)) :=
  match snd (ParseAddress ev key tt) with
  | Ok a =>
      if BlockedAddr a then Some None
      else match snd (ParseAmount info ev tt) with
           | Ok v => Some (Some (BytesToAddress a, sign * v))
           | _ => None
           end
  | _ => None
  end.
Definition transfer_of (ev : Ev) : option (option (Address * Z)) :=
  if String.eqb (ev_Type ev) EventTypeCoinSpent then parsed_transfer AttributeKeySpender (-1) ev
  else if String.eqb (ev_Type ev) EventTypeCoinReceived then parsed_transfer AttributeKeyReceiver 1 ev
  else Some None.

Definition delta (ev : Ev) (x : Address) : Z :=
  match transfer_of ev with
  | Some (Some (a, v)) => if x =? a then v else 0
  | _ => 0
  end.
Fixpoint net (evs : list Ev) (x : Address) : Z :=
  match evs with [] => 0 | ev :: evs' => delta ev x + net evs' x end.

Lemma ParseAddress_any {S} (ev : Ev) key (s : S) :
  ParseAddress ev key s = (s, snd (ParseAddress ev key tt)).
Proof. unfold ParseAddress. by repeat case_match. Qed.
Lemma ParseAmount_any {S} (ev : Ev) (s : S) :
  ParseAmount info ev s = (s, snd (ParseAmount info ev tt)).
Proof. unfold ParseAmount. by repeat case_match. Qed.

Lemma pay_moves key sign (pay : Address → Z → SM Z) ev db t :
  (∀ a v db, ∃ db', pay a v db = (db', Ok (balance_of db a)) ∧
    moves (λ x, if x =? a then sign * v else 0) db db') →
  parsed_transfer key sign ev = Some t →
  ∃ db', (a ← ParseAddress ev key;
          if BlockedAddr a then mret tt
          else v ← ParseAmount info ev; pay (BytesToAddress a) v ;; mret tt) db = (db', Ok tt) ∧
    moves (λ x, match t with Some (a, v) => if x =? a then v else 0 | None => 0 end) db db'.
Proof.
  intros Hpay. unfold parsed_transfer, mbind, M_bind. rewrite (ParseAddress_any ev key db).
  destruct (snd (ParseAddress ev key tt)) as [a|e|p]; [|done..].
  destruct (BlockedAddr a); [intros [= <-]; eexists; split; [done|apply moves_refl]|].
  rewrite (ParseAmount_any ev db). destruct (snd (ParseAmount info ev tt)) as [v|e|p]; [|done..].
  intros [= <-]. destruct (Hpay (BytesToAddress a) v db) as (db' & -> & Hm). by eexists.
Qed.

Lemma handle_event_moves idx ev db :
  sdb_processedEventsCount db ≤ idx → is_Some (transfer_of ev) →
  ∃ db', handle_event idx ev db = (db', Ok tt) ∧ moves (delta ev) db db'.
Proof.
  intros Hidx [t Ht]. unfold handle_event. unfold IsEventProcessed, mbind at 1, M_bind at 1, gets.
  rewrite (proj2 (Z.ltb_ge _ _) Hidx). unfold delta. rewrite Ht. unfold transfer_of in Ht.
  destruct (String.eqb (ev_Type ev) EventTypeCoinSpent).
  { eapply pay_moves in Ht as (db' & Hrun & Hm); [by exists db'|]. intros a v db2.
    destruct (SubBalance_moves a v db2) as (db3 & -> & Hm3). exists db3. split; [done|].
    by replace (-1 * v) with (- v) by lia. }
  destruct (String.eqb (ev_Type ev) EventTypeCoinReceived).
  { eapply pay_moves in Ht as (db' & Hrun & Hm); [by exists db'|]. intros a v db2.
    rewrite Z.mul_1_l. apply AddBalance_moves. }
  injection Ht as <-. eexists. split; [done|apply moves_refl].
Qed.

Lemma handle_events_moves evs idx db :
  sdb_processedEventsCount db ≤ idx → Forall (λ ev, is_Some (transfer_of ev)) evs →
  ∃ db', handle_events idx evs db = (db', Ok tt) ∧ moves (net evs) db db'.
Proof.
  intros Hidx Hevs. revert idx db Hidx. induction Hevs as [|ev evs Hev _ IH]; intros idx db Hidx.
  { eexists. split; [done|apply moves_refl]. }
  destruct (handle_event_moves idx ev db Hidx Hev) as (db1 & He & Hm1). simpl.
  unfold mbind, M_bind. rewrite He. destruct (IH (idx + 1) db1) as (db2 & -> & Hm2).
  { destruct Hm1 as [(_ & _ & ->) _]. lia. }
  eexists. split; [done|exact (moves_trans _ _ _ _ _ Hm1 Hm2)].
Qed.

Lemma AfterBalanceChange_moves n c db :
  sdb_cache db = Some c → sdb_processedEventsCount db ≤ n ≤ Z.of_nat (length (cx_events c)) →
  Forall (λ ev, is_Some (transfer_of ev)) (drop (Z.to_nat n) (cx_events c)) →
  ∃ db', AfterBalanceChange n db = (db', Ok tt) ∧
    moves (net (drop (Z.to_nat n) (cx_events c))) db db'.
Proof.
  intros Hc Hn Hevs. unfold AfterBalanceChange, mbind, M_bind.
  destruct (on_cache _ db) as [db1 r1] eqn:Hr. destruct (on_cache_gets _ _ _ _ Hr) as [-> Hr1].
  rewrite Hc in Hr1. subst r1. rewrite (proj2 (Z.ltb_ge _ _) (proj2 Hn)).
  apply handle_events_moves; [lia|done].
Qed.

(** Conversely an event that does not parse makes the handler fail, unless it is
    of a blocked address. *)
Lemma handle_event_parse idx ev db db' :
  sdb_processedEventsCount db ≤ idx → handle_event idx ev db = (db', Ok tt) → is_Some (transfer_of ev).
Proof.
  intros Hidx. unfold handle_event. unfold IsEventProcessed, mbind at 1, M_bind at 1, gets.
  rewrite (proj2 (Z.ltb_ge _ _) Hidx). unfold transfer_of, parsed_transfer, mbind, M_bind.
  destruct (String.eqb _ EventTypeCoinSpent); [|destruct (String.eqb _ EventTypeCoinReceived); [|done]];
    rewrite (ParseAddress_any ev _ db); destruct (snd (ParseAddress ev _ tt)) as [a|e|p]; try done;
    (destruct (BlockedAddr a); [done|]); rewrite (ParseAmount_any ev db);
    by destruct (snd (ParseAmount info ev tt)).
Qed.

(** ** The whole call *)

Lemma begin_call_cache db db1 : begin_call db = (db1, Ok tt) → ∃ c, sdb_cache db1 = Some c ∧
  sdb_processedEventsCount db1 = Z.of_nat (length (cx_events c)).
Proof.
  unfold begin_call, FlushToCacheCtx, mbind, M_bind. intros Hrun.
  destruct (GetCacheContext db) as [? [?|?|?]]; [|done..].
  destruct (MultiStoreSnapshot _) as [? [?|?|?]]; [|done..].
  destruct (AddPrecompileFn _ _) as [? [?|?|?]]; [|done..].
  destruct (commit_to_cache _) as [? [?|?|?]]; [|done..].
  destruct (on_cache _ _) as [db2 r2] eqn:Hr. destruct (on_cache_gets _ _ _ _ Hr) as [-> Hr2].
  destruct (sdb_cache _) as [c|] eqn:Hc; [|by destruct Hr2 as [p ->]].
  subst r2. injection Hrun as <-. by exists c.
Qed.

(** Running [m] after the start of a call is one step, whatever [m] returns. *)
Lemma begin_then_steps {A} id db db1 db2 (m : M (sdkContext C Ev) SdkError A) r :
  begin_call db = (db1, Ok tt) → writes (W := W) m → on_cache m db1 = (db2, r) → steps id db db2.
Proof.
  intros Hb Hm Hrun. destruct (begin_call_cache db db1 Hb) as (c & Hc & _).
  assert (Hw : writes (W := W) (λ c, (fst (m c), Ok tt) : _ * res SdkError unit)).
  { intros c1 c1' r1 [= <- _]. by destruct (m c1) eqn:Hm1; eapply Hm. }
  apply (steps_op (r := Ok tt) (OPrecompile _ Hw)); [|done]. simpl.
  unfold native_call, mbind, M_bind. rewrite Hb. unfold on_cache in *. rewrite Hc in *.
  by destruct (m c) as [c' rm]; injection Hrun as <- <-.
Qed.

Lemma begin_steps id db db1 : begin_call db = (db1, Ok tt) → steps id db db1.
Proof.
  intros Hb. destruct (begin_call_cache db db1 Hb) as (c & Hc & _).
  eapply (begin_then_steps id db db1 db1 (mret tt)); [done|apply writes_ret|].
  unfold on_cache. rewrite Hc. simpl. f_equal. by destruct db1; simpl in *; subst.
Qed.

Lemma begin_call_fails_steps id db db1 r :
  begin_call db = (db1, r) → r ≠ Ok tt → no_panic r → steps id db db1.
Proof.
  intros Hb Hr Hp. apply (steps_op (r := r) (OPrecompile (mret tt) (writes_ret tt))); [|done].
  simpl. unfold native_call, mbind, M_bind. rewrite Hb. by destruct r as [[]|e|p].
Qed.

(** The only panic of the balance handler is a coin without conversion factor;
    it never raises the out-of-gas panic. *)
Lemma pay_panics key (pay : Address → Z → SM Z) ev db db' p :
  (∀ a v db, ∃ db' x, pay a v db = (db', Ok x)) →
  (a ← ParseAddress ev key;
   if BlockedAddr a then mret tt
   else v ← ParseAmount info ev; pay (BytesToAddress a) v ;; mret tt) db = (db', Panic p) →
  p = "nil pointer dereference".
Proof.
  intros Hpay. unfold mbind, M_bind. rewrite (ParseAddress_any ev key db). unfold ParseAddress.
  destruct (GetAttribute ev key) as [w|]; simpl; [|done].
  destruct (AccAddressFromBech32 w) as [a|]; simpl; [|done]. destruct (BlockedAddr a); [done|].
  rewrite (ParseAmount_any ev db). unfold ParseAmount.
  destruct (GetAttribute _ _) as [x|]; simpl; [|done].
  destruct (ParseCoinsNormalized x) as [cs|]; simpl; [|done].
  destruct (ConvertAmountTo18DecimalsBigInt _ _) as [i|]; simpl; [|by intros [= _ <-]].
  destruct (Uint256FromBigInt i) as [v|]; simpl; [|done].
  by destruct (Hpay (BytesToAddress a) v db) as (? & ? & ->).
Qed.

Lemma handle_event_panics idx ev db db' p :
  handle_event idx ev db = (db', Panic p) → p = "nil pointer dereference".
Proof.
  unfold handle_event. unfold IsEventProcessed, mbind at 1, M_bind at 1, gets.
  case_match; [done|].
  destruct (String.eqb _ EventTypeCoinSpent); [|destruct (String.eqb _ EventTypeCoinReceived); [|done]];
    apply pay_panics; intros a v db1.
  - destruct (SubBalance_moves a v db1) as (? & ? & _). eauto.
  - destruct (AddBalance_moves a v db1) as (? & ? & _). eauto.
Qed.

Lemma handle_events_panics evs idx db db' p :
  handle_events idx evs db = (db', Panic p) → p = "nil pointer dereference".
Proof.
  revert idx db. induction evs as [|ev evs IH]; intros idx db; simpl; [done|]. unfold mbind, M_bind.
  destruct (handle_event idx ev db) as [db1 [[]|e|q]] eqn:He; [apply IH|done|].
  intros [= -> ->]. by eapply handle_event_panics.
Qed.

Lemma AfterBalanceChange_not_oog n db db' : AfterBalanceChange n db ≠ (db', Panic ErrorOutOfGas).
Proof.
  unfold AfterBalanceChange, mbind, M_bind, on_cache.
  destruct (sdb_cache db) as [c|]; simpl; [|done]. case_match; [done|].
  by intros Hrun%handle_events_panics.
Qed.

Lemma before_pre (h : bool) cl c : sdb_cache (cl_db cl) = Some c →
  (if h then on_db BeforeBalanceChange else mret 0) cl =
    (cl, Ok (if h then Z.of_nat (length (cx_events c)) else 0)).
Proof.
  intros Hc. destruct h; [|done]. unfold on_db, zoom, BeforeBalanceChange.
  destruct (on_cache _ _) as [db1 r1] eqn:Hr. destruct (on_cache_gets _ _ _ _ Hr) as [-> Hr1].
  rewrite Hc in Hr1. subst r1. by destruct cl.
Qed.

(** Every call that does not panic is a sequence of steps. *)
Lemma metered_steps id h g action cl cl' r db :
  (∀ m, writes (W := W) (action m)) → begin_call db = (cl_db cl, Ok tt) →
  metered h g action cl = (cl', r) →
  (∀ p, r = Panic p → p = ErrorOutOfGas) → steps id db (cl_db cl').
Proof.
  intros Hw Hb Hrun Hp. unfold metered in Hrun. unfold mbind, M_bind, gets in Hrun. unfold run_meter at 1 in Hrun.
  destruct (ConsumeGas _ _) as [m1 [[]|e|p]]; [|by injection Hrun as <- <-; apply begin_steps..].
  destruct (begin_call_cache _ _ Hb) as (c & Hc & _). rewrite (before_pre h cl c Hc) in Hrun.
  unfold on_db at 1, zoom at 1 in Hrun.
  destruct (on_cache (action m1) (cl_db cl)) as [db2 r2] eqn:Ha.
  assert (Hst : steps id db db2) by (by eapply begin_then_steps).
  destruct r2 as [out|e|p]; [|by injection Hrun as <- <-..].
  unfold UseGas in Hrun. simpl in Hrun.
  destruct (cl_gas cl <? _); simpl in Hrun; [by injection Hrun as <- <-|].
  destruct h; [|by injection Hrun as <- <-].
  unfold on_db, zoom in Hrun. simpl in Hrun.
  destruct (AfterBalanceChange _ db2) as [db3 r3] eqn:Hab.
  assert (no_panic r3).
  { intros p ->. injection Hrun as <- <-. rewrite (Hp p eq_refl) in Hab. by eapply AfterBalanceChange_not_oog. }
  assert (steps id db db3) by (etrans; [done|by eapply AfterBalanceChange_steps]).
  by destruct r3; injection Hrun as <- <-.
Qed.

Lemma runNativeAction_steps id h ctxMeter action cl cl' r :
  (∀ m, writes (W := W) (action m)) →
  runNativeAction h ctxMeter action cl = (cl', r) → no_panic r → steps id (cl_db cl) (cl_db cl').
Proof.
  intros Hw Hrun Hp. unfold runNativeAction, mbind, M_bind in Hrun. unfold on_db, zoom in Hrun.
  destruct (begin_call (cl_db cl)) as [db1 [[]|e|p]] eqn:Hb.
  - unfold HandleGasError in Hrun.
    destruct (metered _ _ _ _) as [cl2 r2] eqn:Hm.
    assert (Hst : (∀ p, r2 = Panic p → p = ErrorOutOfGas) → steps id (cl_db cl) (cl_db cl2)).
    { intros. by eapply (metered_steps id h _ action (mkCall db1 (cl_gas cl))). }
    destruct r2 as [x|e|p]; [by injection Hrun as <- <-; apply Hst..|].
    destruct (String.eqb_spec p ErrorOutOfGas) as [->|]; [|injection Hrun as <- <-; by destruct (Hp p)].
    replace (cl_db cl') with (cl_db cl2); [by apply Hst; intros ? [= <-]|].
    unfold UseGas, mbind, M_bind in Hrun. by destruct (cl_gas cl2 <? _); injection Hrun as <- <-.
  - injection Hrun as <- <-. by eapply begin_call_fails_steps.
  - injection Hrun as <- <-. by destruct (Hp p).
Qed.

(** An action that runs out of gas is not charged: the deferred handler measures
    the meter of the outer context, on which the action spent nothing. *)
Lemma runNativeAction_oog h ctxMeter action cl db1 c c' m1 :
  begin_call (cl_db cl) = (db1, Ok tt) → sdb_cache db1 = Some c → 0 ≤ cl_gas cl →
  ConsumeGas (GasConsumed ctxMeter) (NewGasMeter (cl_gas cl)) = (m1, Ok tt) →
  action m1 c = (c', Panic ErrorOutOfGas) →
  runNativeAction h ctxMeter action cl =
    (mkCall (set_cache (Some c') db1) (cl_gas cl), Err ErrOutOfGas).
Proof.
  intros Hb Hc Hg Hm Ha. unfold runNativeAction, mbind, M_bind. unfold on_db at 1, zoom at 1.
  rewrite Hb. unfold HandleGasError, metered, mbind, M_bind, gets, run_meter. cbn [cl_gas].
  rewrite Hm, (before_pre h (mkCall db1 (cl_gas cl)) c Hc). unfold on_db, zoom, on_cache.
  simpl. rewrite Hc, Ha. simpl. unfold UseGas. simpl.
  replace (u64_sub _ _) with 0 by (unfold u64_sub; by rewrite Z.sub_diag).
  rewrite (proj2 (Z.ltb_ge _ _) Hg). simpl. by rewrite Z.sub_0_r.
Qed.

(** A successful run of the handler moved exactly the net amounts. *)
Lemma handle_events_ok evs idx db db' :
  sdb_processedEventsCount db ≤ idx → handle_events idx evs db = (db', Ok tt) →
  Forall (λ ev, is_Some (transfer_of ev)) evs.
Proof.
  revert idx db. induction evs as [|ev evs IH]; intros idx db Hidx; simpl; [done|].
  unfold mbind, M_bind. destruct (handle_event idx ev db) as [db1 [[]|e|p]] eqn:He; [|done..].
  intros Hrun. pose proof (handle_event_parse _ _ _ _ Hidx He) as Hev. constructor; [done|].
  destruct (handle_event_moves idx ev db Hidx Hev) as (db2 & He2 & [(_ & _ & Hn) _]).
  rewrite He in He2. injection He2 as ->. eapply (IH (idx + 1)); [|exact Hrun]. lia.
Qed.

Lemma AfterBalanceChange_ok n c db db' :
  sdb_cache db = Some c → sdb_processedEventsCount db ≤ n → AfterBalanceChange n db = (db', Ok tt) →
  let evs := drop (Z.to_nat n) (cx_events c) in
  Forall (λ ev, is_Some (transfer_of ev)) evs ∧ moves (net evs) db db'.
Proof.
  intros Hc Hn Hab. simpl. pose proof Hab as Hpre. unfold AfterBalanceChange, mbind, M_bind in Hpre.
  destruct (on_cache _ db) as [d r] eqn:Hr in Hpre. destruct (on_cache_gets _ _ _ _ Hr) as [-> Hr2].
  rewrite Hc in Hr2. subst r. destruct (Z.ltb_spec (Z.of_nat (length (cx_events c))) n); [done|].
  apply handle_events_ok in Hpre as Hall; [|lia]. split; [done|].
  destruct (AfterBalanceChange_moves n c db Hc) as (db2 & Hab2 & Hmv); [lia|done|].
  rewrite Hab in Hab2. by injection Hab2 as <-.
Qed.

Definition same_accounts db db' : Prop :=
  sdb_ctx db' = sdb_ctx db ∧ sdb_stateObjects db' = sdb_stateObjects db.
Lemma same_accounts_balance db db' x : same_accounts db db' → balance_of db' x = balance_of db x.
Proof. intros [H1 H2]. unfold balance_of. by rewrite H1, H2. Qed.

Lemma on_cache_accounts {A} (m : M (sdkContext C Ev) SdkError A) db db' r :
  on_cache m db = (db', r) → same_accounts db db'.
Proof.
  unfold on_cache. destruct (sdb_cache db); [|by intros [= <- _]].
  by destruct (m _); intros [= <- _].
Qed.

Lemma begin_call_accounts db db1 : begin_call db = (db1, Ok tt) → same_accounts db db1.
Proof.
  unfold begin_call, FlushToCacheCtx, mbind, M_bind. intros Hrun.
  destruct (GetCacheContext db) as [d1 [c|?|?]] eqn:H1; [|done..].
  destruct (MultiStoreSnapshot d1) as [d2 [i|?|?]] eqn:H2; [|done..].
  destruct (AddPrecompileFn i d2) as [d3 [[]|?|?]] eqn:H3; [|done..].
  destruct (commit_to_cache d3) as [d4 [[]|?|?]] eqn:H4; [|done..].
  destruct (on_cache _ d4) as [d5 [n|?|?]] eqn:H5; [|done..]. injection Hrun as <-.
  apply on_cache_accounts in H2 as [H2c H2o], H4 as [H4c H4o], H5 as [H5c H5o].
  assert (H1' : same_accounts db d1).
  { revert H1. unfold GetCacheContext, cache. run_M. destruct (sdb_cache db) eqn:Hc; simpl; rewrite ?Hc;
      by intros [= <- _]. }
  assert (H3' : same_accounts d2 d3).
  { revert H3. unfold AddPrecompileFn, mbind, M_bind. destruct (on_cache _ d2) as [d2' [es|?|?]] eqn:Hc; [|done..].
    apply on_cache_accounts in Hc. run_M. case_match; [done|]. by intros [= <-]. }
  destruct H1' as [H1c H1o], H3' as [H3c H3o]. split; simpl; congruence.
Qed.

Lemma runNativeAction_balances ctxMeter action cl cl' bz db1 c1 :
  begin_call (cl_db cl) = (db1, Ok tt) → sdb_cache db1 = Some c1 →
  runNativeAction true ctxMeter action cl = (cl', Ok bz) →
  ∃ c2, sdb_cache (cl_db cl') = Some c2 ∧
    let evs := drop (length (cx_events c1)) (cx_events c2) in
    Forall (λ ev, is_Some (transfer_of ev)) evs ∧
    ∀ x, balance_of (cl_db cl') x mod 2 ^ 256 = (balance_of (cl_db cl) x + net evs x) mod 2 ^ 256.
Proof.
  intros Hb Hc Hrun. destruct (begin_call_cache _ _ Hb) as (c & Hc' & Hn).
  rewrite Hc in Hc'. injection Hc' as <-.
  unfold runNativeAction, mbind, M_bind in Hrun. unfold on_db at 1, zoom at 1 in Hrun. rewrite Hb in Hrun.
  unfold HandleGasError in Hrun. destruct (metered _ _ _ _) as [cl2 [x|e|p]] eqn:Hm; [|done|].
  2: { destruct (String.eqb p ErrorOutOfGas); [|done]. revert Hrun. unfold UseGas, mbind, M_bind.
       by destruct (_ <? _). }
  injection Hrun as -> ->. unfold metered, mbind, M_bind, gets in Hm. unfold run_meter at 1 in Hm.
  destruct (ConsumeGas _ _) as [m1 [[]|e|p]]; [|done..].
  rewrite (before_pre true (mkCall db1 _) c1 Hc) in Hm. unfold on_db at 1, zoom at 1 in Hm. simpl in Hm.
  destruct (on_cache (action m1) db1) as [db2 [out|e|p]] eqn:Ha; [|done..].
  unfold UseGas in Hm. simpl in Hm. destruct (_ <? _); simpl in Hm; [done|].
  unfold on_db, zoom in Hm. simpl in Hm.
  destruct (AfterBalanceChange _ db2) as [db3 [[]|e|p]] eqn:Hab; [|done..]. injection Hm as <- _. simpl.
  pose proof (on_cache_accounts _ _ _ _ Ha) as Hacc.
  unfold on_cache in Ha. rewrite Hc in Ha. destruct (action m1 c1) as [c2 r2]. injection Ha as Hd _.
  assert (Hc2 : sdb_cache db2 = Some c2) by (by rewrite <- Hd).
  assert (Hn2 : sdb_processedEventsCount db2 = Z.of_nat (length (cx_events c1))) by (by rewrite <- Hd).
  destruct (AfterBalanceChange_ok _ c2 db2 db3 Hc2 (Z.eq_le_incl _ _ Hn2) Hab) as [Hall [(_ & Hcc & _) Hmv]].
  rewrite Nat2Z.id in Hall, Hmv. exists c2. split; [by rewrite Hcc|]. simpl. split; [done|]. intros x.
  by rewrite Hmv, (same_accounts_balance db1 db2 x Hacc),
    (same_accounts_balance _ db1 x (begin_call_accounts _ _ Hb)).
Qed.

End Precompile.
