(* ===== verification/PrecompileProps.v ===== *)
(** The properties of precompile calls, with witnesses on a keeper over
    in-memory maps and the ledger's coins. *)
From S2P Require Import Prelude GoStd AccessList Sdk EvmCoin SdkLedger StateDB StateDBRevert StateDBJournal SnapshotStore MapKeeper Precompile.

Section Properties.
Context {K C Ev G : Type}.
Context `{HCr : Crypto, HK : !Keeper K Ev, HKC : !Keeper C Ev, HS : !Snapshotter C,
          HCC : !CacheContext K C, HI : !CacheInv C}.
Context {W : C → C → Prop} `{HSL : !SnapshotterLaws C W, HKW : !KeeperWrites C Ev W}.
Context `{HEv : !EventLib Ev, HPL : ParseLib, HCL : CoinsLib, HG : !GasMeterLib G}.
Context (BlockedAddr : AccAddress → bool) (info : EvmCoinInfo).

(** C13: A precompile call is undone as a whole: whether it succeeds, fails or
    runs out of gas, reverting to a snapshot taken before it restores the state
    database, together with the multi store of the cache context and its events. *)
Theorem precompile_call_reverts ctx tx (s0 s1 : StateDB K C Ev) id h (meter : G) action gas cl' r :
  cache_inv (cc_new (cx_store ctx)) → (∀ m, writes (W := W) (action m)) →
  rtc (sdb_step (W := W) (-1)) (New ctx tx) s0 → Snapshot s0 = (s1, Ok id) →
  runNativeAction BlockedAddr info h meter action (mkCall s1 gas) = (cl', r) → (∀ p, r ≠ Panic p) →
  ∃ s3, RevertToSnapshot id (cl_db cl') = (s3, Ok tt) ∧ restored s0 s3 ∧
    j_entries (sdb_journal s3) = j_entries (sdb_journal s0) ∧
    sdb_validRevisions s3 = sdb_validRevisions s0.
Proof.
  intros Hinv Hw H0 Hsnap Hrun Hp. apply (snapshot_restored (W := W) ctx tx s0 s1); [done..|].
  exact (runNativeAction_steps BlockedAddr info id h meter action (mkCall s1 gas) cl' r Hw Hrun Hp).
Qed.

(** C14: The state database follows the bank.  After a successful call of a
    precompile with a balance handler, every balance has changed, modulo 2^256,
    by the net of the bank events the native action emitted (received minus
    spent, except for blocked addresses), and by nothing else; in particular the
    events of the flush that precedes the action are not counted again. *)
Theorem precompile_balances_follow_events (meter : G) action (cl cl' : call (K := K)) bz db1 c1 :
  begin_call (cl_db cl) = (db1, Ok tt) → sdb_cache db1 = Some c1 →
  runNativeAction BlockedAddr info true meter action cl = (cl', Ok bz) →
  ∃ c2, sdb_cache (cl_db cl') = Some c2 ∧
    let evs := drop (length (cx_events c1)) (cx_events c2) in
    Forall (λ ev, is_Some (transfer_of BlockedAddr info ev)) evs ∧
    ∀ x, balance_of (cl_db cl') x mod 2 ^ 256 =
           (balance_of (cl_db cl) x + net BlockedAddr info evs x) mod 2 ^ 256.
Proof. apply runNativeAction_balances. Qed.

(** C15: An action that runs out of gas returns an error, and costs nothing: the
    deferred handler computes the used gas from the meter of the outer context,
    on which the action has not spent any. *)
Theorem out_of_gas_is_not_charged h (meter : G) action (cl : call (K := K)) db1 c c' m1 :
  begin_call (cl_db cl) = (db1, Ok tt) → sdb_cache db1 = Some c → 0 ≤ cl_gas cl →
  ConsumeGas (GasConsumed meter) (NewGasMeter (cl_gas cl)) = (m1, Ok tt) →
  action m1 c = (c', Panic ErrorOutOfGas) →
  runNativeAction BlockedAddr info h meter action cl =
    (mkCall (set_cache (Some c') db1) (cl_gas cl), Err ErrOutOfGas).
Proof. apply runNativeAction_oog. Qed.
End Properties.

(** ** Witnesses *)

(** Events with attributes, a meter of a limit and what is consumed. *)
Record event := mkEvent { e_type : string; e_attributes : list (string * string) }.
#[export] Instance event_EventLib : EventLib event := {
  ev_Type := e_type;
  GetAttribute e key := snd <$> list_find (λ kv, kv.1 = key) (e_attributes e) ≫= λ x, Some (snd x);
}.
#[export] Instance plain_ParseLib : ParseLib := {
  AccAddressFromBech32 := Some;
  ParseCoinsNormalized v := if String.eqb v "5aevm" then Some [mkCoin "aevm" 5] else None;
  BytesToAddress a := Z.of_nat (String.length a);
}.
Record meter := mkMeter { m_limit : Z; m_consumed : Z }.
#[export] Instance meter_GasMeterLib : GasMeterLib meter := {
  NewGasMeter limit := mkMeter limit 0;
  GasConsumed := m_consumed;
  ConsumeGas gas m :=
    let m' := mkMeter (m_limit m) (m_consumed m + gas) in
    (m', if m_limit m' <? m_consumed m' then Panic ErrorOutOfGas else Ok tt);
}.
Definition evm_info : EvmCoinInfo := mkEvmCoinInfo "aevm" "aevm" "evm" 18.
Definition nobody_blocked (_ : AccAddress) : bool := false.

Definition pre_store : store := mkStore {[1 := mkAccount 7 100 0]} ∅ ∅.
Definition pre_ctx : sdkContext base event := mkCtx {["evm" := pre_store]} [].
Definition pre_db : StateDB base cache event := New pre_ctx 0.
Definition pre_snap : StateDB base cache event := fst (Snapshot pre_db).

(** The holder "a" (address 1) sends 5 coins to "bb" (address 2), for 30 gas. *)
Definition transfer_action (m : meter) : M (sdkContext cache event) SdkError (string * meter) := λ c,
  (mkCtx (on_layer (put_account 2 (mkAccount 0 5 0)) (cx_store c))
     (cx_events c ++ [mkEvent "coin_spent" [("spender", "a"); ("amount", "5aevm")];
                      mkEvent "coin_received" [("receiver", "bb"); ("amount", "5aevm")]]),
   match ConsumeGas 30 m with
   | (m', Ok _) => Ok ("done", m')
   | (_, Err e) => Err e
   | (_, Panic p) => Panic p
   end).
Lemma transfer_action_writes m : writes (W := ms_writes) (transfer_action m).
Proof. intros c c' r [= <- _]. apply ms_update_writes. Qed.

Abbreviation run_transfer gas db :=
  (runNativeAction nobody_blocked evm_info true (mkMeter 1000 10) transfer_action (mkCall db gas)).

Lemma precompile_call_reverts_witness :
  snd (run_transfer 100 pre_snap) = Ok "done" ∧
  ∃ s3, RevertToSnapshot 0 (cl_db (fst (run_transfer 100 pre_snap))) = (s3, Ok tt) ∧
    restored pre_db s3 ∧
    j_entries (sdb_journal s3) = j_entries (sdb_journal pre_db) ∧
    sdb_validRevisions s3 = sdb_validRevisions pre_db.
Proof.
  assert (Hok : snd (run_transfer 100 pre_snap) = Ok "done") by (vm_compute; reflexivity).
  assert (Hsnap : snd (Snapshot pre_db) = Ok 0) by (vm_compute; reflexivity).
  split; [exact Hok|].
  apply (precompile_call_reverts (W := ms_writes) nobody_blocked evm_info pre_ctx 0 pre_db pre_snap 0
           true (mkMeter 1000 10) transfer_action 100 _ (Ok "done")).
  - apply cc_new_inv.
  - exact transfer_action_writes.
  - apply rtc_refl.
  - exact (run_outcome _ _ _ Hsnap).
  - exact (run_outcome _ _ _ Hok).
  - intros p. discriminate.
Defined.

Definition begun : StateDB base cache event := fst (begin_call pre_snap).
Definition begun_cache : sdkContext cache event := default (mkCtx (cc_new (cx_store pre_ctx)) []) (sdb_cache begun).
Lemma begun_call : begin_call pre_snap = (begun, Ok tt) ∧ sdb_cache begun = Some begun_cache.
Proof.
  assert (Hok : snd (begin_call pre_snap) = Ok tt) by (vm_compute; reflexivity).
  split; [exact (run_outcome _ _ _ Hok)|].
  assert (Hs : is_Some (sdb_cache begun)) by (vm_compute; eauto).
  unfold begun_cache. by destruct Hs as [x ->].
Qed.

Lemma precompile_balances_follow_events_witness :
  balance_of (cl_db (fst (run_transfer 100 pre_snap))) 2 = 5 ∧
  ∃ c2, sdb_cache (cl_db (fst (run_transfer 100 pre_snap))) = Some c2 ∧
    let evs := drop (length (cx_events begun_cache)) (cx_events c2) in
    Forall (λ ev, is_Some (transfer_of nobody_blocked evm_info ev)) evs ∧
    ∀ x, balance_of (cl_db (fst (run_transfer 100 pre_snap))) x mod 2 ^ 256 =
           (balance_of pre_snap x + net nobody_blocked evm_info evs x) mod 2 ^ 256.
Proof.
  split; [vm_compute; reflexivity|].
  assert (Hok : snd (run_transfer 100 pre_snap) = Ok "done") by (vm_compute; reflexivity).
  exact (precompile_balances_follow_events nobody_blocked evm_info (mkMeter 1000 10) transfer_action
           (mkCall pre_snap 100) _ "done" begun begun_cache (proj1 begun_call) (proj2 begun_call)
           (run_outcome _ _ _ Hok)).
Defined.

Lemma out_of_gas_is_not_charged_witness :
  run_transfer 20 pre_snap =
    (mkCall (set_cache (Some (fst (transfer_action (mkMeter 20 10) begun_cache))) begun) 20,
     Err ErrOutOfGas).
Proof.
  apply (out_of_gas_is_not_charged nobody_blocked evm_info true (mkMeter 1000 10) transfer_action
           (mkCall pre_snap 20) begun begun_cache _ (mkMeter 20 10)).
  - exact (proj1 begun_call).
  - exact (proj2 begun_call).
  - simpl. lia.
  - reflexivity.
  - reflexivity.
Defined.
