(* ===== verification/LegacyDec.v ===== *)
(** The decimal type [cosmossdk.io/math.LegacyDec], which the fee market computes
    with.

    The library is not part of the repository: its operations are the methods
    of [DecLib], [None] being their panics, and its documented behaviour (18
    decimal places, rounding products to the nearest decimal, truncating
    quotients) is stated in [DecLaws] about the value [raw] of a decimal in
    units of 10^-18. *)
From S2P Require Import Prelude.

Class DecLib (D : Type) := {
  NewDecFromInt : Z → D;
  dec_Add : D → D → option D;
  dec_Sub : D → D → option D;
  dec_Mul : D → D → option D;
  dec_MulInt : D → Z → option D;
  dec_QuoInt : D → Z → option D;
  dec_TruncateInt : D → Z;
  dec_LT : D → D → bool;
  dec_IsNegative : D → bool;
}.

Definition Precision : Z := 10 ^ 18.

Class DecLaws (D : Type) `{DecLib D} := {
  raw : D → Z;
  raw_inj d e : raw d = raw e → d = e;
  raw_NewDecFromInt n : raw (NewDecFromInt n) = n * Precision;
  raw_Add d e f : dec_Add d e = Some f → raw f = raw d + raw e;
  raw_Sub d e f : dec_Sub d e = Some f → raw f = raw d - raw e;
  (** The exact product is rounded to a nearest decimal. *)
  raw_Mul d e f : dec_Mul d e = Some f → 2 * Z.abs (raw f * Precision - raw d * raw e) ≤ Precision;
  raw_MulInt d n f : dec_MulInt d n = Some f → raw f = raw d * n;
  raw_QuoInt d n f : dec_QuoInt d n = Some f → raw f = Z.quot (raw d) n;
  raw_TruncateInt d : dec_TruncateInt d = Z.quot (raw d) Precision;
  raw_LT d e : dec_LT d e = (raw d <? raw e);
  raw_IsNegative d : dec_IsNegative d = (raw d <? 0);
  (** No panic as long as the result fits 256 bits. *)
  Add_total d e : Z.abs (raw d + raw e) < 2 ^ 256 → is_Some (dec_Add d e);
  Sub_total d e : Z.abs (raw d - raw e) < 2 ^ 256 → is_Some (dec_Sub d e);
  Mul_total d e : Z.abs (raw d * raw e) < 2 ^ 256 * Precision → is_Some (dec_Mul d e);
  MulInt_total d n : Z.abs (raw d * n) < 2 ^ 256 → is_Some (dec_MulInt d n);
  QuoInt_total d n : n ≠ 0 → is_Some (dec_QuoInt d n);
}.

Section Ops.
Context {D S E : Type} `{HD : DecLib D}.

(** A call that panics when the library does. *)
Definition dec_op {A} (r : option A) : M S E A :=
  match r with Some a => mret a | None => panic "LegacyDec" end.
(** A decimal whose [big.Int] may be nil. *)
Definition non_nil {A} (d : option A) : M S E A :=
  match d with Some d => mret d | None => panic "nil pointer dereference" end.

(** [LegacyMaxDec], [LegacyOneDec], [LegacyZeroDec]. *)
Definition MaxDec (d e : D) : D := if dec_LT d e then e else d.
Definition OneDec : D := NewDecFromInt 1.
Definition ZeroDec : D := NewDecFromInt 0.
End Ops.

Section Lemmas.
Context {D : Type} `{HD : DecLib D, HL : !DecLaws D}.

Lemma Precision_pos : 0 < Precision.
Proof. done. Qed.

Lemma raw_MaxDec d e : raw (MaxDec d e) = Z.max (raw d) (raw e).
Proof. unfold MaxDec. rewrite raw_LT. destruct (Z.ltb_spec (raw d) (raw e)); lia. Qed.

(** A whole number times a decimal is exact. *)
Lemma raw_Mul_whole n d f : dec_Mul (NewDecFromInt n) d = Some f → raw f = n * raw d.
Proof.
  intros Hm%raw_Mul. rewrite raw_NewDecFromInt in Hm. pose proof Precision_pos.
  assert (Hz : raw f * Precision - n * Precision * raw d = (raw f - n * raw d) * Precision) by ring.
  rewrite Hz, Z.abs_mul, (Z.abs_eq Precision) in Hm by lia.
  assert (Z.abs (raw f - n * raw d) < 1); [|lia]. nia.
Qed.

Lemma raw_QuoInt_pos d n f : 0 ≤ raw d → 0 < n → dec_QuoInt d n = Some f → raw f = raw d / n.
Proof. intros Hd Hn Hq%raw_QuoInt. by rewrite Hq, Z.quot_div_nonneg. Qed.
End Lemmas.
