(* ===== verification/FeeMarket.v ===== *)
(** The fee market ([x/feemarket]): the EIP-1559 base fee computed at the
    beginning of every block from the gas wanted recorded at the end of the
    previous one, its parameters, genesis and queries, and the wrapper through
    which the EVM sees it ([x/vm/wrappers/feemarket.go]). *)
From S2P Require Import Prelude GoStd Sdk EvmCoin LegacyDec.

(** ** Parameters *)

(** [None] is a nil decimal. *)
Record Params (D : Type) := mkParams {
  p_NoBaseFee : bool;
  p_BaseFeeChangeDenominator : Z;
  p_ElasticityMultiplier : Z;
  p_BaseFee : option D;
  p_EnableHeight : Z;
  p_MinGasPrice : option D;
  p_MinGasMultiplier : option D;
}.
Arguments mkParams {D}.
Arguments p_NoBaseFee {D}.
Arguments p_BaseFeeChangeDenominator {D}.
Arguments p_ElasticityMultiplier {D}.
Arguments p_BaseFee {D}.
Arguments p_EnableHeight {D}.
Arguments p_MinGasPrice {D}.
Arguments p_MinGasMultiplier {D}.

(** The codec of the generated protobuf code: what is read back after
    marshalling; [None] is a marshalling error. *)
Class ParamsCodec (D : Type) := { codec_store : Params D → option (Params D) }.

(** The module's store; absent entries are [None]. *)
Record fmStore (D : Type) := mkFm {
  fm_params : option (Params D);
  fm_blockGasWanted : option Z;
}.
Arguments mkFm {D}.
Arguments fm_params {D}.
Arguments fm_blockGasWanted {D}.

Inductive fmEvent (D : Type) :=
| EventFeeMarket (baseFee : D)
| EventBlockGas (height amount : Z).
Arguments EventFeeMarket {D}.
Arguments EventBlockGas {D}.

(** What the module reads of the block's context: its height, the consensus
    parameter [MaxGas] ([None] when there are no block parameters), whether there
    is a block gas meter, and the gas wanted and used by the block. *)
Record blockCtx := mkBlock {
  bc_height : Z;
  bc_maxGas : option Z;
  bc_hasGasMeter : bool;
  bc_gasWanted : Z;
  bc_gasUsed : Z;
}.

Definition MaxInt64 : Z := 2 ^ 63 - 1.
Definition MaxUint64 : Z := 2 ^ 64 - 1.

Section FeeMarket.
Context {D : Type} `{HD : DecLib D, HC : !ParamsCodec D}.

(** The store and the events of the block. *)
Record fmState := mkFmState { fs_store : fmStore D; fs_events : list (fmEvent D) }.
Abbreviation FM := (M fmState SdkError).
Implicit Types p : Params D.

(** [NewDecWithPrec(50, 2)] is a decimal that denotes one half. *)
Context (half : D).

Definition DefaultBaseFee : D := NewDecFromInt 1000000000.
Definition DefaultParams : Params D :=
  mkParams false 8 2 (Some DefaultBaseFee) 0 (Some ZeroDec) (Some half).

Definition validateMinGasPrice (gasPrice : option D) : option string :=
  match gasPrice with
  | None => Some "invalid parameter: nil"
  | Some d => if dec_IsNegative d then Some "value cannot be negative" else None
  end.
Definition validateMinGasMultiplier (multiplier : option D) : option string :=
  match multiplier with
  | None => Some "invalid parameter: nil"
  | Some d =>
      if dec_IsNegative d then Some "value cannot be negative"
      else if dec_LT OneDec d then Some "value cannot be greater than 1" else None
  end.
Definition check {S} (err : option string) : M S SdkError unit :=
  match err with Some msg => throw (ErrPlain msg) | None => mret tt end.

(** A nil base fee is dereferenced. *)
Definition Params_Validate {S} p : M S SdkError unit :=
  if p_BaseFeeChangeDenominator p =? 0 then throw (ErrPlain "base fee change denominator cannot be 0")
  else
    baseFee ← non_nil (p_BaseFee p);
    if dec_IsNegative baseFee then throw (ErrPlain "initial base fee cannot be negative")
    else if p_EnableHeight p <? 0 then throw (ErrPlain "enable height cannot be negative")
    else if p_ElasticityMultiplier p =? 0 then throw (ErrPlain "elasticity multiplier cannot be zero")
    else
      check (validateMinGasMultiplier (p_MinGasMultiplier p)) ;;
      check (validateMinGasPrice (p_MinGasPrice p)).

Definition IsBaseFeeEnabled p (height : Z) : bool :=
  negb (p_NoBaseFee p) && (p_EnableHeight p <=? height).

(** ** The store *)

Definition set_store (f : fmStore D → fmStore D) : FM unit :=
  modify (λ s, mkFmState (f (fs_store s)) (fs_events s)).
Definition emit (e : fmEvent D) : FM unit :=
  modify (λ s, mkFmState (fs_store s) (fs_events s ++ [e])).

Definition GetParams : FM (Params D) := gets (λ s, default DefaultParams (fm_params (fs_store s))).
Definition SetParams p : FM unit :=
  match codec_store p with
  | None => throw (ErrPlain "marshal")
  | Some p' => set_store (λ st, mkFm (Some p') (fm_blockGasWanted st))
  end.
Definition GetBaseFee : FM (option D) :=
  p ← GetParams; mret (if p_NoBaseFee p then None else p_BaseFee p).
Definition with_BaseFee p (baseFee : option D) : Params D :=
  mkParams (p_NoBaseFee p) (p_BaseFeeChangeDenominator p) (p_ElasticityMultiplier p) baseFee
    (p_EnableHeight p) (p_MinGasPrice p) (p_MinGasMultiplier p).
(** The error of [SetParams] is dropped. *)
Definition SetBaseFee (baseFee : D) : FM unit := λ s,
  (fst ((p ← GetParams; SetParams (with_BaseFee p (Some baseFee))) s), Ok tt).
Definition SetBlockGasWanted (gas : Z) : FM unit :=
  set_store (λ st, mkFm (fm_params st) (Some gas)).
Definition GetBlockGasWanted : FM Z := gets (λ s, default 0 (fm_blockGasWanted (fs_store s))).

(** ** The base fee *)

Section Calc.
Context {S : Type}.
Definition CalcGasBaseFee (gasUsed gasTarget baseFeeChangeDenom : Z) (baseFee minUnitGas : D)
    (minGasPrice : option D) : M S SdkError D :=
  if gasUsed =? gasTarget then mret baseFee
  else if gasTarget =? 0 then mret ZeroDec
  else
    num ← dec_op (dec_Mul (NewDecFromInt (Z.abs (gasUsed - gasTarget))) baseFee);
    num ← dec_op (dec_QuoInt num gasTarget);
    num ← dec_op (dec_QuoInt num baseFeeChangeDenom);
    if gasTarget <? gasUsed then
      let baseFeeDelta := MaxDec num minUnitGas in
      dec_op (dec_Add baseFee baseFeeDelta)
    else
      lower ← dec_op (dec_Sub baseFee num);
      minGasPrice ← non_nil minGasPrice;
      mret (MaxDec lower minGasPrice).
End Calc.

(** The gas limit of a block: unlimited when [MaxGas] is absent or negative. *)
Definition block_gas_limit (ctx : blockCtx) : Z :=
  match bc_maxGas ctx with
  | Some maxGas => if -1 <? maxGas then maxGas else MaxUint64
  | None => MaxUint64
  end.

(** [decimals] are those of the configured EVM coin; [None] is the nil decimal. *)
Definition CalculateBaseFee (decimals : Decimals) (ctx : blockCtx) : FM (option D) :=
  params ← GetParams;
  if negb (IsBaseFeeEnabled params (bc_height ctx)) then mret None
  else if bc_height ctx =? p_EnableHeight params then mret (p_BaseFee params)
  else
    match p_BaseFee params with
    | None => mret None
    | Some parentBaseFee =>
        parentGasUsed ← GetBlockGasWanted;
        let gasLimit := block_gas_limit ctx in
        parentGasTargetInt ← IntQuo gasLimit (p_ElasticityMultiplier params);
        if negb ((0 <=? parentGasTargetInt) && (parentGasTargetInt <=? MaxUint64)) then mret None
        else
          factor ← non_nil (Decimals_ConversionFactor decimals);
          minUnitGas ← dec_op (dec_QuoInt OneDec factor);
          Some <$> CalcGasBaseFee parentGasUsed parentGasTargetInt
                     (p_BaseFeeChangeDenominator params) parentBaseFee minUnitGas
                     (p_MinGasPrice params)
    end.

(** ** The block *)

Definition BeginBlock (decimals : Decimals) (ctx : blockCtx) : FM unit :=
  baseFee ← CalculateBaseFee decimals ctx;
  match baseFee with
  | None => mret tt
  | Some baseFee => SetBaseFee baseFee ;; emit (EventFeeMarket baseFee)
  end.

(** [Int.Uint64], which panics out of range. *)
Definition to_Uint64 (z : Z) : FM Z :=
  if (0 <=? z) && (z <=? MaxUint64) then mret z else panic "Uint64() out of bound".

Definition EndBlock (ctx : blockCtx) : FM unit :=
  if negb (bc_hasGasMeter ctx) then throw (ErrPlain "block gas meter is nil when setting block gas wanted")
  else
    let gasWanted := bc_gasWanted ctx in
    let gasUsed := bc_gasUsed ctx in
    if MaxInt64 <? gasWanted then throw (ErrPlain "integer overflow: gas wanted")
    else if MaxInt64 <? gasUsed then throw (ErrPlain "integer overflow: gas used")
    else
      params ← GetParams;
      minGasMultiplier ← non_nil (p_MinGasMultiplier params);
      limitedGasWanted ← dec_op (dec_Mul (NewDecFromInt gasWanted) minGasMultiplier);
      updatedGasWanted ← to_Uint64 (dec_TruncateInt (MaxDec limitedGasWanted (NewDecFromInt gasUsed)));
      SetBlockGasWanted updatedGasWanted ;;
      emit (EventBlockGas (bc_height ctx) updatedGasWanted).

(** ** Messages, queries and genesis *)

Definition UpdateParams (authority requested : string) p : FM unit :=
  if negb (String.eqb authority requested) then throw ErrInvalidSigner else SetParams p.

Definition query_BlockGas : FM Z :=
  gas ← GetBlockGasWanted;
  if MaxInt64 <? gas then throw (ErrPlain "block gas is higher than MaxInt64") else mret gas.

Record GenesisState := mkGenesis { gs_Params : Params D; gs_BlockGas : Z }.
Definition DefaultGenesisState : GenesisState := mkGenesis DefaultParams 0.
Definition GenesisState_Validate {S} (gs : GenesisState) : M S SdkError unit :=
  Params_Validate (gs_Params gs).
Definition InitGenesis (data : GenesisState) : FM unit :=
  or_panic (SetParams (gs_Params data)) "could not set parameters at genesis" ;;
  SetBlockGasWanted (gs_BlockGas data).
Definition ExportGenesis : FM GenesisState :=
  p ← GetParams; g ← GetBlockGasWanted; mret (mkGenesis p g).

(** ** The wrapper the EVM uses: fees in 18 decimals *)

Definition ConvertAmountTo18DecimalsLegacy {S} (decimals : Decimals) (amt : D) : M S SdkError D :=
  factor ← non_nil (Decimals_ConversionFactor decimals); dec_op (dec_MulInt amt factor).
Definition wrapper_GetBaseFee (decimals : Decimals) : FM Z :=
  baseFee ← GetBaseFee;
  match baseFee with
  | None => mret 0
  | Some baseFee =>
      if negb (Decimals_Validate decimals) then mret 0
      else
        match Decimals_ConversionFactor decimals with
        | None => mret 0
        | Some conv => converted ← dec_op (dec_MulInt baseFee conv); mret (dec_TruncateInt converted)
        end
  end.
Definition wrapper_CalculateBaseFee (decimals : Decimals) (ctx : blockCtx) : FM (option Z) :=
  baseFee ← CalculateBaseFee decimals ctx;
  match baseFee with
  | None => mret None
  | Some baseFee =>
      converted ← ConvertAmountTo18DecimalsLegacy decimals baseFee;
      mret (Some (dec_TruncateInt converted))
  end.
Definition wrapper_GetParams (decimals : Decimals) : FM (Params D) :=
  params ← GetParams;
  baseFee ← match p_BaseFee params with
            | None => mret None
            | Some b => Some <$> ConvertAmountTo18DecimalsLegacy decimals b
            end;
  minGasPrice ← non_nil (p_MinGasPrice params);
  minGasPrice' ← ConvertAmountTo18DecimalsLegacy decimals minGasPrice;
  mret (mkParams (p_NoBaseFee params) (p_BaseFeeChangeDenominator params)
          (p_ElasticityMultiplier params) baseFee (p_EnableHeight params) (Some minGasPrice')
          (p_MinGasMultiplier params)).
End FeeMarket.

(** ** The base fee in units of 10^-18 *)

(** EIP-1559: [g] gas was wanted, [t] was the target, [d] is the change
    denominator, [b] the base fee, [u] the least increase, [m] the floor. *)
Definition next_base_fee (g t d b u m : Z) : Z :=
  if g =? t then b
  else if t =? 0 then 0
  else if t <? g then b + Z.max ((g - t) * b / (t * d)) u
  else Z.max (b - (t - g) * b / (t * d)) m.

Section Lemmas.
Context {D : Type} `{HD : DecLib D, HL : !DecLaws D, HC : !ParamsCodec D}.

Lemma dec_op_some {S E A} (r : option A) (s : S) a : r = Some a → dec_op (E := E) r s = (s, Ok a).
Proof. by intros ->. Qed.

(** Every result is the one of EIP-1559. *)
Lemma CalcGasBaseFee_ok {S} g t d (b u f : D) m (s s' : S) :
  0 ≤ t → 0 < d → 0 ≤ raw b → CalcGasBaseFee g t d b u (Some m) s = (s', Ok f) →
  s' = s ∧ raw f = next_base_fee g t d (raw b) (raw u) (raw m).
Proof.
  intros Ht Hd Hb. unfold CalcGasBaseFee, next_base_fee.
  destruct (Z.eqb_spec g t) as [->|Hne]; [by intros [= <- <-]|].
  destruct (Z.eqb_spec t 0) as [->|Hnz]; [intros [= <- <-]; split; [done|apply raw_NewDecFromInt]|].
  unfold mbind, M_bind.
  destruct (dec_Mul _ b) as [x|] eqn:Hx; [|done]. apply raw_Mul_whole in Hx. simpl.
  assert (Hx0 : 0 ≤ raw x) by (rewrite Hx; apply Z.mul_nonneg_nonneg; lia).
  destruct (dec_QuoInt x t) as [y|] eqn:Hy; [|done]. apply raw_QuoInt_pos in Hy; [|lia..]. simpl.
  assert (Hy0 : 0 ≤ raw y) by (rewrite Hy; apply Z.div_pos; lia).
  destruct (dec_QuoInt y d) as [z|] eqn:Hz; [|done]. apply raw_QuoInt_pos in Hz; [|lia..]. simpl.
  assert (Rz : raw z = Z.abs (g - t) * raw b / (t * d)) by (rewrite Hz, Hy, Hx; apply Z.div_div; lia).
  destruct (Z.ltb_spec t g).
  - destruct (dec_Add b _) as [w|] eqn:Hw; [|done]. intros [= <- <-]. split; [done|].
    rewrite (raw_Add _ _ _ Hw), raw_MaxDec, Rz, Z.abs_eq by lia. done.
  - destruct (dec_Sub b z) as [w|] eqn:Hw; [|done]. intros [= <- <-]. split; [done|].
    rewrite raw_MaxDec, (raw_Sub _ _ _ Hw), Rz, Z.abs_neq by lia. do 3 f_equal. lia.
Qed.

(** There is a result whenever the base fee is below 2^190. *)
Lemma CalcGasBaseFee_total {S} g t d (b u m : D) (s : S) :
  0 ≤ g ≤ MaxUint64 → 0 ≤ t ≤ MaxUint64 → 0 < d → 0 ≤ raw b < 2 ^ 190 → 0 ≤ raw u ≤ Precision →
  ∃ f, CalcGasBaseFee g t d b u (Some m) s = (s, Ok f).
Proof.
  intros Hg Ht Hd Hb Hu. unfold CalcGasBaseFee, MaxUint64 in *.
  destruct (Z.eqb_spec g t) as [->|Hne]; [by eexists|].
  destruct (Z.eqb_spec t 0) as [->|Hnz]; [by eexists|]. unfold mbind, M_bind.
  assert (Hn : 0 ≤ Z.abs (g - t) < 2 ^ 64) by lia. set (n := Z.abs (g - t)) in *.
  assert (Hnb : 0 ≤ n * raw b < 2 ^ 254).
  { split; [apply Z.mul_nonneg_nonneg; lia|].
    apply Z.lt_le_trans with (2 ^ 64 * 2 ^ 190); [apply Z.mul_lt_mono_nonneg; lia|done]. }
  destruct (Mul_total (NewDecFromInt n) b) as [x Hx].
  { rewrite raw_NewDecFromInt. replace (n * Precision * raw b) with (n * raw b * Precision) by ring.
    rewrite Z.abs_eq by (unfold Precision; lia). apply Z.mul_lt_mono_pos_r; [done|lia]. }
  rewrite (dec_op_some _ _ _ Hx). apply raw_Mul_whole in Hx.
  destruct (QuoInt_total x t Hnz) as [y Hy]. rewrite (dec_op_some _ _ _ Hy).
  apply raw_QuoInt_pos in Hy; [|lia..].
  assert (Hy0 : 0 ≤ raw y ≤ raw x).
  { rewrite Hy. split; [apply Z.div_pos; lia|]. apply Z.div_le_upper_bound; nia. }
  destruct (QuoInt_total y d) as [z Hz]; [lia|]. rewrite (dec_op_some _ _ _ Hz).
  apply raw_QuoInt_pos in Hz; [|lia..].
  assert (Hz0 : 0 ≤ raw z ≤ raw y).
  { rewrite Hz. split; [apply Z.div_pos; lia|]. apply Z.div_le_upper_bound; nia. }
  destruct (t <? g).
  - destruct (Add_total b (MaxDec z u)) as [f Hf]; [rewrite raw_MaxDec; unfold Precision in *; lia|].
    exists f. by rewrite (dec_op_some _ _ _ Hf).
  - destruct (Sub_total b z) as [f Hf]; [lia|]. eexists. by rewrite (dec_op_some _ _ _ Hf).
Qed.

(** *** What EIP-1559 guarantees *)

Lemma next_base_fee_monotone g1 g2 t d b u m :
  0 ≤ g1 ≤ g2 → 0 ≤ t → 0 < d → 0 ≤ b → 0 ≤ u → m ≤ b →
  (t = 0 → b = 0) → next_base_fee g1 t d b u m ≤ next_base_fee g2 t d b u m.
Proof.
  intros Hg Ht Hd Hb Hu Hm H0. unfold next_base_fee.
  assert (Hmono : ∀ x y, 0 ≤ x ≤ y → t ≠ 0 → x * b / (t * d) ≤ y * b / (t * d)).
  { intros x y Hxy Hnz. apply Z.div_le_mono; [apply Z.mul_pos_pos; lia|].
    apply Z.mul_le_mono_nonneg_r; lia. }
  assert (Hpos : ∀ x, 0 ≤ x → t ≠ 0 → 0 ≤ x * b / (t * d)).
  { intros. apply Z.div_pos; [apply Z.mul_nonneg_nonneg|apply Z.mul_pos_pos]; lia. }
  pose proof (Hmono (g1 - t) (g2 - t)). pose proof (Hmono (t - g2) (t - g1)).
  pose proof (Hpos (t - g1)). pose proof (Hpos (g2 - t)).
  destruct (Z.eqb_spec g1 t), (Z.eqb_spec g2 t), (Z.eqb_spec t 0), (Z.ltb_spec t g1), (Z.ltb_spec t g2); lia.
Qed.

Lemma next_base_fee_floor g t d b u m :
  t ≠ 0 → 0 ≤ g → 0 ≤ t → 0 < d → 0 ≤ b → 0 ≤ u → m ≤ b → m ≤ next_base_fee g t d b u m.
Proof.
  intros Hnz Hg Ht Hd Hb Hu Hm. unfold next_base_fee.
  destruct (Z.eqb_spec g t), (Z.eqb_spec t 0), (Z.ltb_spec t g); lia.
Qed.

(** Within the block gas limit the base fee changes by at most one part in the
    change denominator, times the elasticity when it rises, or to the minimum. *)
Lemma next_base_fee_step g t d e b u m :
  0 < t → 0 ≤ g → 1 ≤ e → 0 < d → 0 ≤ b → 0 ≤ u →
  Z.min m b ≤ next_base_fee g t d b u m ∧ b - b / d ≤ next_base_fee g t d b u m ∧
  (g ≤ e * t → next_base_fee g t d b u m ≤ Z.max m (b + Z.max ((e - 1) * b / d) u)).
Proof.
  intros Ht Hg He Hd Hb Hu. unfold next_base_fee.
  assert (Hq : 0 ≤ b / d) by (apply Z.div_pos; lia).
  assert (Hle : ∀ x k, 0 ≤ x ≤ k * t → x * b / (t * d) ≤ k * b / d).
  { intros x k Hx. rewrite <- (Z.div_mul_cancel_l (k * b) d t) by lia.
    apply Z.div_le_mono; [apply Z.mul_pos_pos; lia|].
    replace (t * (k * b)) with (k * t * b) by ring. apply Z.mul_le_mono_nonneg_r; lia. }
  destruct (Z.eqb_spec g t), (Z.eqb_spec t 0), (Z.ltb_spec t g); try lia.
  - specialize (Hle (g - t) (e - 1)). lia.
  - specialize (Hle (t - g) 1). assert (0 ≤ (t - g) * b / (t * d))
      by (apply Z.div_pos; [apply Z.mul_nonneg_nonneg|apply Z.mul_pos_pos]; lia).
    rewrite !Z.mul_1_l in Hle. lia.
Qed.

(** ** Blocks *)

(** Parameters that pass validation; the two 32-bit fields are unsigned. *)
Record valid_params (p : Params D) (b m k : D) : Prop := {
  vp_denominator : 0 < p_BaseFeeChangeDenominator p;
  vp_elasticity : 0 < p_ElasticityMultiplier p;
  vp_height : 0 ≤ p_EnableHeight p;
  vp_baseFee : p_BaseFee p = Some b ∧ 0 ≤ raw b;
  vp_minGasPrice : p_MinGasPrice p = Some m ∧ 0 ≤ raw m;
  vp_multiplier : p_MinGasMultiplier p = Some k ∧ 0 ≤ raw k ≤ Precision;
}.

Lemma Params_Validate_iff {S} (p : Params D) (s s' : S) :
  0 ≤ p_BaseFeeChangeDenominator p → 0 ≤ p_ElasticityMultiplier p →
  Params_Validate p s = (s', Ok tt) ↔ s' = s ∧ ∃ b m k, valid_params p b m k.
Proof.
  intros Hd He. unfold Params_Validate, mbind, M_bind. split.
  - destruct (Z.eqb_spec (p_BaseFeeChangeDenominator p) 0); [done|].
    destruct (p_BaseFee p) as [b|] eqn:Hb; [|done]. simpl. rewrite raw_IsNegative.
    destruct (Z.ltb_spec (raw b) 0); [done|]. destruct (Z.ltb_spec (p_EnableHeight p) 0); [done|].
    destruct (Z.eqb_spec (p_ElasticityMultiplier p) 0); [done|].
    destruct (p_MinGasMultiplier p) as [k|] eqn:Hk; [|done]. simpl. rewrite raw_IsNegative, raw_LT.
    destruct (Z.ltb_spec (raw k) 0); [done|]. unfold OneDec. rewrite raw_NewDecFromInt, Z.mul_1_l.
    destruct (Z.ltb_spec Precision (raw k)); [done|]. simpl.
    destruct (p_MinGasPrice p) as [m|] eqn:Hm; [|done]. simpl. rewrite raw_IsNegative.
    destruct (Z.ltb_spec (raw m) 0); [done|]. intros [= <-]. split; [done|].
    exists b, m, k. split; try done; lia.
  - intros (-> & b & m & k & [Vd Ve Vh [Vb Vb0] [Vm Vm0] [Vk Vk0]]). rewrite Vb, Vm, Vk. simpl.
    rewrite !raw_IsNegative, raw_LT. unfold OneDec. rewrite raw_NewDecFromInt, Z.mul_1_l.
    rewrite (proj2 (Z.eqb_neq _ _)), (proj2 (Z.ltb_ge _ 0)), (proj2 (Z.ltb_ge _ 0)) by lia.
    rewrite (proj2 (Z.eqb_neq _ _)), (proj2 (Z.ltb_ge (raw k) 0)) by lia.
    rewrite (proj2 (Z.ltb_ge _ _)) by lia. simpl. by rewrite (proj2 (Z.ltb_ge _ _)) by lia.
Qed.

(** The least increase of the base fee: one unit of the bank's coin. *)
Definition least_increase (decimals : Decimals) : Z := Precision / 10 ^ (18 - decimals).

Lemma minUnitGas_run {S} decimals (s : S) :
  Decimals_Validate decimals = true →
  ∃ u, (factor ← non_nil (Decimals_ConversionFactor decimals); dec_op (dec_QuoInt (D := D) OneDec factor)) s =
         ((s, Ok u) : S * res SdkError D) ∧ raw u = least_increase decimals.
Proof.
  intros Hv. rewrite (Decimals_ConversionFactor_supported _ Hv). unfold mbind, M_bind. simpl.
  assert (0 < 10 ^ (18 - decimals)).
  { apply Z.pow_pos_nonneg; [lia|]. unfold Decimals_Validate, EighteenDecimals in Hv. zbool. lia. }
  destruct (QuoInt_total OneDec (10 ^ (18 - decimals))) as [u Hu]; [lia|]. rewrite Hu. exists u.
  assert (H1 : raw (OneDec (D := D)) = Precision) by (unfold OneDec; rewrite raw_NewDecFromInt; lia).
  split; [done|]. apply raw_QuoInt_pos in Hu; [|rewrite H1; unfold Precision; lia|done].
  by rewrite Hu, H1.
Qed.

Context (half : D).
Abbreviation run_params s := (default (DefaultParams half) (fm_params (fs_store s))).

(** The base fee of a block after the first EIP-1559 block. *)
Definition fee_formula (decimals : Decimals) (ctx : blockCtx) (p : Params D) (b m : D) (gas : Z) : Z :=
  next_base_fee gas (block_gas_limit ctx / p_ElasticityMultiplier p) (p_BaseFeeChangeDenominator p)
    (raw b) (least_increase decimals) (raw m).

Lemma block_gas_limit_range ctx :
  from_option (λ g, g ≤ MaxInt64) True (bc_maxGas ctx) → 0 ≤ block_gas_limit ctx ≤ MaxUint64.
Proof.
  unfold block_gas_limit, MaxUint64, MaxInt64. destruct (bc_maxGas ctx); simpl; [|lia].
  destruct (Z.ltb_spec (-1) z); lia.
Qed.

Lemma CalculateBaseFee_active decimals ctx (s : fmState (D := D)) b m k :
  valid_params (run_params s) b m k → Decimals_Validate decimals = true →
  from_option (λ g, g ≤ MaxInt64) True (bc_maxGas ctx) →
  p_NoBaseFee (run_params s) = false → p_EnableHeight (run_params s) < bc_height ctx →
  let gas := default 0 (fm_blockGasWanted (fs_store s)) in
  (∀ s' r, CalculateBaseFee half decimals ctx s = (s', Ok r) →
     s' = s ∧ ∃ f, r = Some f ∧ raw f = fee_formula decimals ctx (run_params s) b m gas) ∧
  (0 ≤ gas ≤ MaxUint64 → raw b < 2 ^ 190 → ∃ f, CalculateBaseFee half decimals ctx s = (s, Ok (Some f))).
Proof.
  intros [Vd Ve Vh [Vb Vb0] [Vm Vm0] _] Hdec Hmax Hno Hh. simpl.
  pose proof (block_gas_limit_range ctx Hmax) as Hlim.
  set (t := block_gas_limit ctx / p_ElasticityMultiplier (run_params s)).
  assert (Ht : 0 ≤ t ≤ MaxUint64).
  { split; [apply Z.div_pos; lia|]. apply Z.div_le_upper_bound; [lia|]. unfold MaxUint64 in *. nia. }
  destruct (minUnitGas_run decimals s Hdec) as (u & Hu & Ru).
  assert (Hu0 : 0 ≤ raw u ≤ Precision).
  { rewrite Ru. unfold least_increase. unfold Decimals_Validate, EighteenDecimals in Hdec. zbool.
    assert (0 < 10 ^ (18 - decimals)) by (apply Z.pow_pos_nonneg; lia).
    split; [by apply Z.div_pos|]. apply Z.div_le_upper_bound; unfold Precision; lia. }
  assert (Heq : CalculateBaseFee half decimals ctx s =
    (Some <$> CalcGasBaseFee (default 0 (fm_blockGasWanted (fs_store s))) t
       (p_BaseFeeChangeDenominator (run_params s)) b u (Some m)) s).
  { unfold CalculateBaseFee, GetParams, mbind, M_bind, gets. unfold IsBaseFeeEnabled.
    rewrite Hno, (proj2 (Z.leb_le _ _)), (proj2 (Z.eqb_neq _ _)) by lia. simpl. rewrite Vb, Vm. simpl.
    unfold IntQuo, GetBlockGasWanted, gets. rewrite (proj2 (Z.eqb_neq _ _)) by lia. simpl.
    rewrite Z.quot_div_nonneg by lia. fold t.
    rewrite (proj2 (Z.leb_le _ _)), (proj2 (Z.leb_le _ _)) by lia. simpl.
    revert Hu. unfold mbind, M_bind. destruct (non_nil _ s) as [s1 [fac|e|pn]]; [|done..].
    by intros ->. }
  split.
  - intros s' r. rewrite Heq. unfold fmap, M_fmap.
    destruct (CalcGasBaseFee _ _ _ _ _ _ s) as [s1 [f|e|pn]] eqn:Hc; [|done..]. intros [= <- <-].
    destruct (CalcGasBaseFee_ok _ _ _ _ _ _ _ _ _ (proj1 Ht) Vd Vb0 Hc) as [-> Hf].
    split; [done|]. exists f. split; [done|]. rewrite Hf. unfold fee_formula. by rewrite Ru.
  - intros Hgas Hb. rewrite Heq.
    destruct (CalcGasBaseFee_total (default 0 (fm_blockGasWanted (fs_store s))) t
      (p_BaseFeeChangeDenominator (run_params s)) b u m s Hgas Ht Vd (conj Vb0 Hb) Hu0) as [f Hf].
    exists f. unfold fmap, M_fmap. by rewrite Hf.
Qed.

(** ** What the codec promises: complete parameters are stored as they are *)

Definition complete (p : Params D) : Prop :=
  is_Some (p_BaseFee p) ∧ is_Some (p_MinGasPrice p) ∧ is_Some (p_MinGasMultiplier p).
Class ParamsCodecLaws : Prop := { codec_complete p : complete p → codec_store p = Some p }.
Context `{HCL : !ParamsCodecLaws}.

Lemma valid_complete p b m k : valid_params p b m k → complete p.
Proof. unfold complete. intros [_ _ _ [-> _] [-> _] [-> _]]. eauto. Qed.

Lemma SetBaseFee_run (s : fmState (D := D)) b m k f :
  valid_params (run_params s) b m k →
  SetBaseFee half f s =
    (mkFmState (mkFm (Some (with_BaseFee (run_params s) (Some f))) (fm_blockGasWanted (fs_store s))) (fs_events s),
     Ok tt).
Proof.
  intros V%valid_complete. unfold SetBaseFee, GetParams, SetParams, mbind, M_bind, gets.
  rewrite codec_complete; [done|]. destruct V as (_ & ? & ?). by split_and!.
Qed.

Lemma with_BaseFee_valid p b m k f : valid_params p b m k → 0 ≤ raw f → valid_params (with_BaseFee p (Some f)) f m k.
Proof. intros []. by split. Qed.

(** *** The end of a block *)

(** The gas wanted that is recorded, in units of 10^-18 before truncation. *)
Definition recorded_gas (ctx : blockCtx) (k : D) : Z :=
  Z.max (bc_gasWanted ctx * raw k) (bc_gasUsed ctx * Precision) / Precision.

Lemma EndBlock_run ctx (s : fmState (D := D)) b m k :
  valid_params (run_params s) b m k → bc_hasGasMeter ctx = true →
  0 ≤ bc_gasWanted ctx ≤ MaxInt64 → 0 ≤ bc_gasUsed ctx ≤ MaxInt64 →
  EndBlock half ctx s =
    (mkFmState (mkFm (fm_params (fs_store s)) (Some (recorded_gas ctx k)))
       (fs_events s ++ [EventBlockGas (bc_height ctx) (recorded_gas ctx k)]), Ok tt) ∧
  bc_gasUsed ctx ≤ recorded_gas ctx k ≤ Z.max (bc_gasWanted ctx) (bc_gasUsed ctx).
Proof.
  intros V Hm Hw Hu. destruct V as [_ _ _ _ _ [Vk Vk0]]. pose proof Precision_pos as HP.
  assert (Hb : bc_gasUsed ctx ≤ recorded_gas ctx k ≤ Z.max (bc_gasWanted ctx) (bc_gasUsed ctx)).
  { unfold recorded_gas. split.
    - apply Z.div_le_lower_bound; lia.
    - apply Z.div_le_upper_bound; [done|]. rewrite (Z.mul_comm Precision), <- Z.mul_max_distr_nonneg_r by lia.
      apply Z.max_le_compat_r. apply Z.mul_le_mono_nonneg_l; lia. }
  split; [|done]. unfold EndBlock. rewrite Hm. simpl.
  rewrite (proj2 (Z.ltb_ge _ _)), (proj2 (Z.ltb_ge _ _)) by lia.
  unfold mbind, M_bind, GetParams, gets. rewrite Vk. simpl.
  destruct (Mul_total (NewDecFromInt (bc_gasWanted ctx)) k) as [x Hx].
  { rewrite raw_NewDecFromInt, Z.abs_eq by (apply Z.mul_nonneg_nonneg; lia).
    replace (bc_gasWanted ctx * Precision * raw k) with (bc_gasWanted ctx * raw k * Precision) by ring.
    apply Z.mul_lt_mono_pos_r; [done|]. apply Z.le_lt_trans with (2 ^ 63 * 10 ^ 18); [|lia].
    unfold MaxInt64, Precision in *. apply Z.mul_le_mono_nonneg; lia. }
  rewrite (dec_op_some _ _ _ Hx). apply raw_Mul_whole in Hx.
  assert (Hr : dec_TruncateInt (MaxDec x (NewDecFromInt (bc_gasUsed ctx))) = recorded_gas ctx k).
  { rewrite raw_TruncateInt, raw_MaxDec, raw_NewDecFromInt, Hx. apply Z.quot_div_nonneg; [|done].
    apply Z.max_le_iff. right. lia. }
  rewrite Hr. unfold to_Uint64, MaxUint64, MaxInt64 in *.
  rewrite (proj2 (Z.leb_le _ _)), (proj2 (Z.leb_le _ _)) by lia. done.
Qed.

(** *** Sequences of blocks *)

(** The parameters are valid and the base fee is not below the floor. *)
Definition fee_inv (s : fmState (D := D)) : Prop :=
  ∃ b m k, valid_params (run_params s) b m k ∧ raw m ≤ raw b ∧
    0 ≤ default 0 (fm_blockGasWanted (fs_store s)).

(** One step of the chain: a block, whose context is well formed and whose gas
    target is not zero, or a change of the parameters by governance. *)
Inductive fee_step (decimals : Decimals) : fmState (D := D) → fmState (D := D) → Prop :=
| step_block ctx s s1 s2 :
    from_option (λ g, g ≤ MaxInt64) True (bc_maxGas ctx) →
    p_ElasticityMultiplier (run_params s) ≤ block_gas_limit ctx →
    bc_hasGasMeter ctx = true → 0 ≤ bc_gasWanted ctx ≤ MaxInt64 → 0 ≤ bc_gasUsed ctx ≤ MaxInt64 →
    BeginBlock half decimals ctx s = (s1, Ok tt) → EndBlock half ctx s1 = (s2, Ok tt) →
    fee_step decimals s s2
| step_params authority p s s1 b m k :
    valid_params p b m k → raw m ≤ raw b →
    UpdateParams authority authority p s = (s1, Ok tt) → fee_step decimals s s1.

Lemma BeginBlock_inv decimals ctx s s1 :
  Decimals_Validate decimals = true → fee_inv s →
  from_option (λ g, g ≤ MaxInt64) True (bc_maxGas ctx) →
  p_ElasticityMultiplier (run_params s) ≤ block_gas_limit ctx →
  BeginBlock half decimals ctx s = (s1, Ok tt) → fee_inv s1.
Proof.
  intros Hdec (b & m & k & V & Hmb & Hgas) Hmax Htgt Hrun.
  assert (Hset : ∀ f, raw m ≤ raw f → fee_inv (fst (SetBaseFee half f s))).
  { intros f Hf. rewrite (SetBaseFee_run s b m k f V). exists f, m, k. simpl. split_and!; [|done|done].
    apply (with_BaseFee_valid _ b); [done|]. destruct V as [_ _ _ _ [_ ?] _]. lia. }
  unfold BeginBlock, mbind, M_bind in Hrun.
  destruct (CalculateBaseFee half decimals ctx s) as [s0 [r|e|pn]] eqn:Hc; [|done..].
  assert (Hr : s0 = s ∧ from_option (λ f, raw m ≤ raw f) True r).
  { destruct (p_NoBaseFee (run_params s)) eqn:Hno.
    { revert Hc. unfold CalculateBaseFee, GetParams, IsBaseFeeEnabled, mbind, M_bind, gets. rewrite Hno. simpl.
      by intros [= <- <-]. }
    destruct (Z.lt_trichotomy (p_EnableHeight (run_params s)) (bc_height ctx)) as [Hlt|[Heq|Hgt]].
    - destruct (proj1 (CalculateBaseFee_active decimals ctx s b m k V Hdec Hmax Hno Hlt) _ _ Hc)
        as (-> & f & -> & Hf). split; [done|]. simpl. rewrite Hf.
      destruct V as [Vd Ve _ [_ Vb0] _ _]. apply next_base_fee_floor; try done.
      + assert (0 < block_gas_limit ctx / p_ElasticityMultiplier (run_params s)); [|lia].
        apply Z.div_str_pos. lia.
      + apply Z.div_pos; lia.
      + unfold least_increase. unfold Decimals_Validate, EighteenDecimals in Hdec. zbool.
        apply Z.div_pos; [done|]. apply Z.pow_pos_nonneg; lia.
    - revert Hc. unfold CalculateBaseFee, GetParams, IsBaseFeeEnabled, mbind, M_bind, gets.
      rewrite Hno, Heq, Z.leb_refl, Z.eqb_refl. simpl. destruct V as [_ _ _ [-> _] _ _]. by intros [= <- <-].
    - revert Hc. unfold CalculateBaseFee, GetParams, IsBaseFeeEnabled, mbind, M_bind, gets.
      rewrite Hno, (proj2 (Z.leb_gt _ _)) by lia. simpl. by intros [= <- <-]. }
  destruct Hr as [-> Hr]. destruct r as [f|]; [|injection Hrun as <-; by exists b, m, k].
  destruct (SetBaseFee half f s) as [s2 [[]|e|pn]] eqn:Hs; [|done..].
  specialize (Hset f Hr). rewrite Hs in Hset. by injection Hrun as <-.
Qed.

Lemma fee_step_inv decimals s s' :
  Decimals_Validate decimals = true → fee_step decimals s s' → fee_inv s → fee_inv s'.
Proof.
  intros Hdec [ctx s0 s1 s2 Hmax Htgt Hgm Hw Hu Hb He|auth p s0 s1 b m k V Hmb Hup] Hinv.
  - destruct (BeginBlock_inv _ _ _ _ Hdec Hinv Hmax Htgt Hb) as (b & m & k & V & Hmb & Hgas).
    destruct (EndBlock_run ctx s1 b m k V Hgm Hw Hu) as [Hrun Hrec]. rewrite He in Hrun.
    injection Hrun as ->. exists b, m, k. simpl. split_and!; [done..|lia].
  - destruct Hinv as (_ & _ & _ & _ & _ & Hgas). revert Hup.
    unfold UpdateParams. rewrite String.eqb_refl. simpl. unfold SetParams.
    rewrite (codec_complete p (valid_complete _ _ _ _ V)). intros [= <-]. exists b, m, k. by split_and!.
Qed.
End Lemmas.
Arguments ParamsCodecLaws D {HC}.
