(* ===== verification/FeeMarketProps.v ===== *)
(** The properties of the fee market, with witnesses on decimals represented by
    integers. *)
From S2P Require Import Prelude GoStd Sdk EvmCoin LegacyDec FeeMarket.

Section Properties.
Context {D : Type} `{HD : DecLib D, HL : !DecLaws D, HC : !ParamsCodec D, HCL : !ParamsCodecLaws D}.
Context (half : D).
Implicit Types s : fmState (D := D).
Abbreviation params_of s := (default (DefaultParams half) (fm_params (fs_store s))).

(** C19: The beginning of a block refines EIP-1559.  With valid parameters, a
    supported number of decimals and a base fee below 2^190, after the height
    that enables it, [BeginBlock] succeeds, stores as base fee exactly what the
    integer formula of EIP-1559 yields for the gas recorded by the previous
    block, emits it, and changes nothing else. *)
Theorem BeginBlock_eip1559 decimals ctx s b m k :
  valid_params (params_of s) b m k → Decimals_Validate decimals = true →
  from_option (λ g, g ≤ MaxInt64) True (bc_maxGas ctx) →
  p_NoBaseFee (params_of s) = false → p_EnableHeight (params_of s) < bc_height ctx →
  0 ≤ default 0 (fm_blockGasWanted (fs_store s)) ≤ MaxUint64 → raw b < 2 ^ 190 →
  ∃ f, BeginBlock half decimals ctx s =
    (mkFmState (mkFm (Some (with_BaseFee (params_of s) (Some f))) (fm_blockGasWanted (fs_store s)))
       (fs_events s ++ [EventFeeMarket f]), Ok tt) ∧
    raw f = next_base_fee (default 0 (fm_blockGasWanted (fs_store s)))
              (block_gas_limit ctx / p_ElasticityMultiplier (params_of s))
              (p_BaseFeeChangeDenominator (params_of s)) (raw b) (least_increase decimals) (raw m).
Proof.
  intros V Hdec Hmax Hno Hh Hgas Hb.
  destruct (CalculateBaseFee_active half decimals ctx s b m k V Hdec Hmax Hno Hh) as [Hok Htot].
  destruct (Htot Hgas Hb) as [f Hf]. destruct (Hok _ _ Hf) as (_ & f' & [= <-] & Hraw).
  exists f. split; [|exact Hraw]. unfold BeginBlock, mbind, M_bind.
  by rewrite Hf, (SetBaseFee_run half s b m k f V).
Qed.

(** C20: The base fee reacts to demand within bounds.  For a target above zero it
    never falls below the lesser of the minimum gas price and the old base fee,
    falls by at most a part in the change denominator, and, within a gas limit of
    [e] times the target, rises by at most [e - 1] such parts or one least
    increase, or to the minimum gas price.  When the old base fee is not below the
    minimum gas price, more gas never gives a lower base fee and the base fee does
    not fall below the minimum; when it is below, a block at its target keeps it
    there while one with less gas lifts it to the minimum, so that less gas gives a
    higher fee.  A target of zero makes it zero as soon as gas is used. *)
Theorem base_fee_bounds {S} g1 g2 e t d (b u m f1 f2 : D) (st st1 st2 : S) :
  0 ≤ t → 0 ≤ g1 ≤ g2 → 1 ≤ e → 0 < d → 0 ≤ raw b → 0 ≤ raw u →
  CalcGasBaseFee g1 t d b u (Some m) st = (st1, Ok f1) →
  CalcGasBaseFee g2 t d b u (Some m) st = (st2, Ok f2) →
  (0 < t →
    Z.min (raw m) (raw b) ≤ raw f1 ∧ raw b - raw b / d ≤ raw f1 ∧
    (g2 ≤ e * t → raw f2 ≤ Z.max (raw m) (raw b + Z.max ((e - 1) * raw b / d) (raw u))) ∧
    (raw m ≤ raw b → raw f1 ≤ raw f2 ∧ raw m ≤ raw f1) ∧
    (raw b < raw m → g1 < t → g2 = t → raw f2 = raw b ∧ raw f2 < raw m ≤ raw f1)) ∧
  (t = 0 → raw f2 = if g2 =? 0 then raw b else 0).
Proof.
  intros Ht Hg He Hd Hb Hu H1 H2.
  destruct (CalcGasBaseFee_ok _ _ _ _ _ _ _ _ _ Ht Hd Hb H1) as [_ ->].
  destruct (CalcGasBaseFee_ok _ _ _ _ _ _ _ _ _ Ht Hd Hb H2) as [_ ->]. split.
  - intros Ht'. pose proof (next_base_fee_step g1 t d e (raw b) (raw u) (raw m)) as S1.
    pose proof (next_base_fee_step g2 t d e (raw b) (raw u) (raw m)) as S2. split_and!; [apply S1; lia|apply S1; lia|apply S2; lia|..].
    + intros Hm. split; [apply next_base_fee_monotone|apply next_base_fee_floor]; lia.
    + intros Hm Hlt ->. unfold next_base_fee. rewrite Z.eqb_refl, (proj2 (Z.eqb_neq g1 t)), (proj2 (Z.eqb_neq t 0)), (proj2 (Z.ltb_ge t g1)) by lia. lia.
  - intros ->. unfold next_base_fee. by destruct (g2 =? 0).
Qed.

(** The end of a block records the gas that drives the next base fee: the
    gas wanted scaled by the minimum multiplier or the gas used, whichever is
    greater, truncated; it lies between the gas used and the greater of gas used
    and gas wanted, and the conversions involved never panic. *)
Theorem EndBlock_records_gas ctx s b m k :
  valid_params (params_of s) b m k → bc_hasGasMeter ctx = true →
  0 ≤ bc_gasWanted ctx ≤ MaxInt64 → 0 ≤ bc_gasUsed ctx ≤ MaxInt64 →
  let gas := Z.max (bc_gasWanted ctx * raw k) (bc_gasUsed ctx * Precision) / Precision in
  EndBlock half ctx s =
    (mkFmState (mkFm (fm_params (fs_store s)) (Some gas))
       (fs_events s ++ [EventBlockGas (bc_height ctx) gas]), Ok tt) ∧
  bc_gasUsed ctx ≤ gas ≤ Z.max (bc_gasWanted ctx) (bc_gasUsed ctx).
Proof. apply EndBlock_run. Qed.

(** The floor holds for the life of the chain: from valid parameters whose
    base fee is not below the minimum gas price, every state reached by blocks
    and by governance updates that satisfy the same has valid parameters and a
    base fee not below the minimum gas price. *)
Theorem base_fee_floor_invariant decimals s s' :
  Decimals_Validate decimals = true → fee_inv half s → rtc (fee_step half decimals) s s' →
  fee_inv half s'.
Proof.
  intros Hdec Hinv Hst. revert Hinv.
  induction Hst as [s0|s1 s2 s3 Hstep _ IH]; intros Hinv; [done|]. apply IH.
  by eapply fee_step_inv.
Qed.

(** Validation accepts exactly the parameters with a nonzero denominator and
    elasticity, a non-negative height and base fee, a minimum gas price that is
    set and non-negative and a multiplier between zero and one. *)
Theorem Params_Validate_exact {S} (p : Params D) (st st' : S) :
  0 ≤ p_BaseFeeChangeDenominator p → 0 ≤ p_ElasticityMultiplier p →
  Params_Validate p st = (st', Ok tt) ↔ st' = st ∧ ∃ b m k, valid_params p b m k.
Proof. apply Params_Validate_iff. Qed.
End Properties.

(** ** Witnesses *)

(** Decimals as integers in units of 10^-18. *)
Definition fits (z : Z) : option Z := if Z.abs z <? 2 ^ 315 then Some z else None.
#[export] Instance int_DecLib : DecLib Z := {
  NewDecFromInt n := n * Precision;
  dec_Add d e := fits (d + e);
  dec_Sub d e := fits (d - e);
  dec_Mul d e := fits ((2 * d * e + Precision) / (2 * Precision));
  dec_MulInt d n := fits (d * n);
  dec_QuoInt d n := if n =? 0 then None else Some (Z.quot d n);
  dec_TruncateInt d := Z.quot d Precision;
  dec_LT d e := d <? e;
  dec_IsNegative d := d <? 0;
}.
Lemma fits_some z y : fits z = Some y → y = z.
Proof. unfold fits. case_match; [|done]. by intros [= ->]. Qed.
Lemma fits_total z : Z.abs z < 2 ^ 256 → is_Some (fits z).
Proof. intros Hz. unfold fits. destruct (Z.ltb_spec (Z.abs z) (2 ^ 315)); [eauto|lia]. Qed.

#[export] Instance int_DecLaws : DecLaws Z.
Proof.
  refine {| raw := λ d, d |}; simpl; try done; try (by intros ??? ->%fits_some).
  - intros d e f ->%fits_some.
    pose proof (Z.div_mod (2 * d * e + Precision) (2 * Precision)) as Hdm.
    pose proof (Z.mod_pos_bound (2 * d * e + Precision) (2 * Precision)) as Hb.
    unfold Precision in *. lia.
  - intros d n f. case_match; [done|]. by intros [= <-].
  - intros. by apply fits_total.
  - intros. by apply fits_total.
  - intros d e Hde. unfold fits. assert (HP : 0 < 2 * Precision) by done.
    pose proof (Z.div_mod (2 * d * e + Precision) (2 * Precision)) as Hdm.
    pose proof (Z.mod_pos_bound (2 * d * e + Precision) (2 * Precision)) as Hb.
    destruct (Z.ltb_spec (Z.abs ((2 * d * e + Precision) / (2 * Precision))) (2 ^ 315)); [eauto|].
    unfold Precision in *. lia.
  - intros. by apply fits_total.
  - intros d n Hn. by rewrite (proj2 (Z.eqb_neq _ _) Hn).
Defined.

#[export] Instance plain_codec : ParamsCodec Z := { codec_store := Some }.
#[export] Instance plain_codec_laws : ParamsCodecLaws Z.
Proof. by split. Qed.

Definition one_half : Z := Precision / 2.
(** The default parameters with a floor of half a unit; 8 million gas were
    recorded, twice the target of a block of 8 million. *)
Definition market : Params Z :=
  mkParams false 8 2 (Some (10 ^ 9 * Precision)) 0 (Some one_half) (Some one_half).
Definition market_state : fmState (D := Z) := mkFmState (mkFm (Some market) (Some 8000000)) [].
Definition block7 : blockCtx := mkBlock 7 (Some 8000000) true 6000000 2000000.

Lemma market_valid : valid_params market (10 ^ 9 * Precision) one_half one_half.
Proof.
  split; simpl; [lia|lia|lia|..]; (split; [reflexivity|]); vm_compute; try (split; congruence); congruence.
Qed.

Lemma BeginBlock_eip1559_witness :
  ∃ f, BeginBlock one_half 18 block7 market_state =
    (mkFmState (mkFm (Some (with_BaseFee market (Some f))) (Some 8000000)) [EventFeeMarket f], Ok tt) ∧
    f = next_base_fee 8000000 4000000 8 (10 ^ 9 * Precision) 1000000000000000000 one_half.
Proof.
  destruct (BeginBlock_eip1559 one_half 18 block7 market_state (10 ^ 9 * Precision) one_half one_half)
    as (f & Hrun & Hf).
  - exact market_valid.
  - reflexivity.
  - simpl. unfold MaxInt64. lia.
  - reflexivity.
  - simpl. lia.
  - simpl. unfold MaxUint64. lia.
  - reflexivity.
  - exists f. split; [exact Hrun|]. etransitivity; [exact Hf|]. vm_compute. reflexivity.
Defined.

Definition calc_fee (g : Z) : unit * res SdkError Z :=
  CalcGasBaseFee g 4000000 8 (10 ^ 9 * Precision) Precision (Some one_half) tt.
Definition fee_low : Z := 906250000 * Precision.
Definition fee_high : Z := 1125000000 * Precision.
Lemma base_fee_bounds_witness :
  fee_low ≤ fee_high ∧ one_half ≤ fee_low ∧ 10 ^ 9 * Precision - 10 ^ 9 * Precision / 8 ≤ fee_low ∧
  fee_high ≤ Z.max one_half (10 ^ 9 * Precision + Z.max ((2 - 1) * (10 ^ 9 * Precision) / 8) Precision).
Proof.
  assert (H1 : calc_fee 1000000 = (tt, Ok fee_low)) by (vm_compute; reflexivity).
  assert (H2 : calc_fee 8000000 = (tt, Ok fee_high)) by (vm_compute; reflexivity).
  assert (Hg : 0 ≤ 1000000 ≤ 8000000) by lia.
  assert (Hl : 8000000 ≤ 2 * 4000000) by lia.
  assert (Ht : 0 ≤ 4000000) by lia.
  assert (Ht' : 0 < 4000000) by lia.
  assert (Hb : 0 ≤ 10 ^ 9 * Precision) by (vm_compute; congruence).
  assert (Hu : 0 ≤ Precision) by (vm_compute; congruence).
  assert (Hm : one_half ≤ 10 ^ 9 * Precision) by (vm_compute; congruence).
  pose proof (base_fee_bounds (S := unit) 1000000 8000000 2 4000000 8 (10 ^ 9 * Precision) Precision one_half
           fee_low fee_high tt tt tt Ht Hg) as Hbounds.
  destruct (Hbounds ltac:(lia) eq_refl Hb Hu H1 H2) as [Hpos _].
  destruct (Hpos Ht') as (_ & Hfall & Hrise & Hmono & _). destruct (Hmono Hm) as [Hle Hmin].
  split; [exact Hle|]. split; [exact Hmin|]. split; [exact Hfall|exact (Hrise Hl)].
Defined.

Lemma EndBlock_records_gas_witness :
  EndBlock one_half block7 market_state =
    (mkFmState (mkFm (Some market) (Some 3000000)) [EventBlockGas 7 3000000], Ok tt) ∧
  2000000 ≤ 3000000 ≤ 6000000.
Proof.
  assert (Hw : 0 ≤ bc_gasWanted block7 ≤ MaxInt64) by (simpl; unfold MaxInt64; lia).
  assert (Hu : 0 ≤ bc_gasUsed block7 ≤ MaxInt64) by (simpl; unfold MaxInt64; lia).
  destruct (EndBlock_records_gas one_half block7 market_state (10 ^ 9 * Precision) one_half one_half
              market_valid eq_refl Hw Hu) as [Hrun _].
  split; [|lia]. etransitivity; [exact Hrun|]. vm_compute. reflexivity.
Defined.

Definition after_block7 : fmState (D := Z) :=
  fst (EndBlock one_half block7 (fst (BeginBlock one_half 18 block7 market_state))).
Lemma base_fee_floor_invariant_witness : fee_inv one_half after_block7.
Proof.
  apply (base_fee_floor_invariant one_half 18 market_state).
  - reflexivity.
  - exists (10 ^ 9 * Precision), one_half, one_half. split; [exact market_valid|].
    split; vm_compute; congruence.
  - assert (Hb : snd (BeginBlock one_half 18 block7 market_state) = Ok tt) by (vm_compute; reflexivity).
    assert (He : snd (EndBlock one_half block7 (fst (BeginBlock one_half 18 block7 market_state))) = Ok tt)
      by (vm_compute; reflexivity).
    apply rtc_once.
    apply (step_block one_half 18 block7 market_state _ _) with
      (6 := run_outcome _ _ _ Hb) (7 := run_outcome _ _ _ He); simpl; unfold MaxInt64; try lia; try reflexivity.
    vm_compute. congruence.
Defined.

Lemma Params_Validate_exact_witness :
  Params_Validate market tt = (tt, Ok tt) ↔ tt = tt ∧ ∃ b m k, valid_params market b m k.
Proof. apply (Params_Validate_exact market tt tt); simpl; lia. Defined.
