(* ===== verification/Heap.v ===== *)
(** [container/heap]: binary heaps stored in a slice.

    [up], [down], [Push], [Pop], [Remove] and [Init] are the functions of Go's
    package over a comparison [less]; the loops carry fuel, which the length of
    the slice bounds.  A heap is ordered when no element is [less] than its
    parent; every operation keeps the order and the elements, and the root is a
    least element. *)
From S2P Require Import Prelude.

(** [Less] of the heap interface, and that it is a strict weak order. *)
Class HeapLess (A : Type) := less : A → A → bool.
Class HeapLessLaws (A : Type) `{HeapLess A} : Prop := {
  less_asym x y : less x y = true → less y x = false;
  less_negtrans x y z : less y x = false → less z y = false → less z x = false;
}.

Section Heap.
Context {A : Type} `{HI : Inhabited A, HL : !HeapLess A}.
Implicit Types l : list A.

Definition swap (i j : nat) l : list A := <[i := l !!! j]> (<[j := l !!! i]> l).

Definition parent (c : nat) : nat := ((c - 1) / 2)%nat.
#[local] Arguments parent : simpl never.

Fixpoint up (fuel j : nat) l : list A :=
  match fuel with
  | O => l
  | S fuel' =>
      let i := parent j in
      if (i =? j)%nat || negb (less (l !!! j) (l !!! i)) then l
      else up fuel' i (swap i j l)
  end.

(** The slice and the final index. *)
Fixpoint down_loop (fuel i n : nat) l : list A * nat :=
  match fuel with
  | O => (l, i)
  | S fuel' =>
      let j1 := (2 * i + 1)%nat in
      if (n <=? j1)%nat then (l, i)
      else
        let j2 := S j1 in
        let j := if (j2 <? n)%nat && less (l !!! j2) (l !!! j1) then j2 else j1 in
        if negb (less (l !!! j) (l !!! i)) then (l, i)
        else down_loop fuel' j n (swap i j l)
  end.
Definition down (i0 n : nat) l : list A * bool :=
  let '(l', i) := down_loop n i0 n l in (l', (i0 <? i)%nat).

(** [heap.Interface]'s own [Push] and [Pop] append and drop the last element. *)
Definition pop_last l : list A * A := (take (length l - 1) l, l !!! (length l - 1)%nat).

Definition Push (x : A) l : list A := up (length l) (length l) (l ++ [x]).
Definition Pop l : list A * A :=
  let n := (length l - 1)%nat in pop_last (fst (down 0 n (swap 0 n l))).
Definition Remove (i : nat) l : list A * A :=
  let n := (length l - 1)%nat in
  pop_last
    (if (n =? i)%nat then l
     else let '(l', moved) := down i n (swap i n l) in if moved then l' else up i i l').

(** [heap.Fix]: restore the order after the element at [i] has changed. *)
Definition Fix_ (i : nat) l : list A :=
  let '(l', moved) := down i (length l) l in if moved then l' else up i i l'.

Fixpoint init_loop (k n : nat) l : list A :=
  match k with
  | O => l
  | S i => init_loop i n (fst (down i n l))
  end.
Definition Init l : list A := init_loop (length l / 2) (length l) l.

(** ** Swapping *)

Lemma swap_length i j l : length (swap i j l) = length l.
Proof. unfold swap. by rewrite !length_insert. Qed.

Lemma swap_perm i j l : (i < length l)%nat → (j < length l)%nat → swap i j l ≡ₚ l.
Proof.
  intros Hi Hj. unfold swap. apply Permutation_insert_swap; by apply list_lookup_lookup_total_lt.
Qed.

Lemma swap_at i j k l :
  (i < length l)%nat → (j < length l)%nat →
  swap i j l !!! k = if decide (k = i) then l !!! j else if decide (k = j) then l !!! i else l !!! k.
Proof.
  intros Hi Hj. unfold swap. rewrite !list_lookup_total_insert, length_insert.
  repeat case_decide; naive_solver.
Qed.

(** ** Order *)

Context `{HLL : !HeapLessLaws A}.

(** [le x y]: [y] is not less than [x]. *)
Definition le (x y : A) : Prop := less y x = false.

Lemma le_refl x : le x x.
Proof. unfold le. destruct (less x x) eqn:H; [|done]. by rewrite (less_asym _ _ H) in H. Qed.
Lemma le_trans x y z : le x y → le y z → le x z.
Proof. apply less_negtrans. Qed.
Lemma less_le x y : less x y = true → le x y.
Proof. apply less_asym. Qed.

Lemma parent_lt c : (0 < c)%nat → (parent c < c)%nat.
Proof. unfold parent. intros. apply Nat.Div0.div_lt_upper_bound. lia. Qed.
Lemma parent_child c i : (0 < c)%nat → parent c = i ↔ c = (2 * i + 1)%nat ∨ c = (2 * i + 2)%nat.
Proof.
  intros Hc. unfold parent. pose proof (Nat.div_mod_eq (c - 1) 2).
  pose proof (Nat.mod_upper_bound (c - 1) 2). lia.
Qed.

(** The order on the edges whose parent is at least [k]. *)
Definition heap_from (k n : nat) l : Prop :=
  ∀ c, (0 < c < n)%nat → (k ≤ parent c)%nat → le (l !!! parent c) (l !!! c).
Definition is_heap l : Prop := heap_from 0 (length l) l.

(** A heap but for the edge above [i], whose ends may be out of order. *)
Definition except (k n i : nat) l : Prop :=
  (∀ c, (0 < c < n)%nat → (k ≤ parent c)%nat → c ≠ i → parent c ≠ i → le (l !!! parent c) (l !!! c)) ∧
  (∀ c, (0 < c < n)%nat → parent c = i → (0 < i)%nat → (k ≤ parent i)%nat → le (l !!! parent i) (l !!! c)).

Lemma up_perm fuel j l : (j < length l)%nat → up fuel j l ≡ₚ l.
Proof.
  revert j l. induction fuel as [|fuel IH]; intros j l Hj; simpl; [done|].
  case_match; [done|]. assert (parent j ≤ j)%nat by (apply Nat.Div0.div_le_upper_bound; lia).
  rewrite IH by (rewrite swap_length; lia). apply swap_perm; lia.
Qed.

Lemma up_above fuel j c l : (j < c)%nat → up fuel j l !!! c = l !!! c.
Proof.
  revert j l. induction fuel as [|fuel IH]; intros j l Hj; simpl; [done|].
  case_match; [done|]. assert (parent j ≤ j)%nat by (apply Nat.Div0.div_le_upper_bound; lia).
  rewrite IH by lia. unfold swap. by rewrite !list_lookup_total_insert_ne by lia.
Qed.

(** [up] repairs the edge above [j]. *)
Lemma up_heap fuel j n l :
  (j ≤ fuel)%nat → (j < n)%nat → (n ≤ length l)%nat → except 0 n j l →
  (∀ c, (0 < c < n)%nat → parent c = j → le (l !!! j) (l !!! c)) →
  heap_from 0 n (up fuel j l).
Proof.
  revert j l. induction fuel as [|fuel IH]; intros j l Hf Hj Hn [He Hg] Hch; simpl.
  { assert (j = 0)%nat as -> by lia. intros c Hc _.
    destruct (decide (parent c = 0%nat)) as [Hp|Hp]; [rewrite Hp; by apply Hch|]. apply He; lia. }
  destruct (Nat.eqb_spec (parent j) j) as [Hpj|Hpj]; simpl.
  { assert (j = 0)%nat as -> by (destruct j; [done|]; pose proof (parent_lt (S j)); lia).
    intros c Hc _. destruct (decide (parent c = 0%nat)) as [Hp|Hp]; [rewrite Hp; by apply Hch|]. apply He; lia. }
  assert (Hj0 : (0 < j)%nat) by (destruct j; [done|lia]).
  pose proof (parent_lt j Hj0) as Hlt.
  destruct (less (l !!! j) (l !!! parent j)) eqn:Hless; simpl.
  2: { intros c Hc _. destruct (decide (c = j)) as [->|]; [done|].
       destruct (decide (parent c = j)) as [Hp|]; [rewrite Hp; by apply Hch|]. apply He; lia. }
  apply IH.
  - lia.
  - lia.
  - by rewrite swap_length.
  - split.
    + intros c Hc _ Hcp Hpc. rewrite !swap_at by lia.
      pose proof (parent_lt c ltac:(lia)).
      repeat case_decide; subst; try congruence; try lia.
      * apply Hg; [lia|done|lia|lia].
      * apply He; [lia|lia|congruence|congruence].
    + intros c Hc Hpc Hp0 _. rewrite !swap_at by lia.
      pose proof (parent_lt (parent j) Hp0). pose proof (parent_lt c ltac:(lia)).
      repeat case_decide; subst; try congruence; try lia.
      * apply He; [lia|lia|lia|lia].
      * eapply le_trans; [apply (He (parent j)); lia|]. rewrite <- Hpc at 1. apply He; [lia|lia|done|lia].
  - intros c Hc Hpc. rewrite !swap_at by lia.
    pose proof (parent_lt c ltac:(lia)). repeat case_decide; subst; try congruence; try lia.
    + by apply less_le.
    + eapply le_trans; [by apply less_le|]. rewrite <- Hpc at 1. apply He; [lia|lia|done|lia].
Qed.

(** The child [down] compares with: a least one. *)
Definition least_child (i n : nat) l : nat :=
  if (S (2 * i + 1) <? n)%nat && less (l !!! S (2 * i + 1)) (l !!! (2 * i + 1)%nat)
  then S (2 * i + 1) else (2 * i + 1)%nat.

Lemma least_child_spec i n l :
  (2 * i + 1 < n)%nat →
  (i < least_child i n l < n)%nat ∧ parent (least_child i n l) = i ∧
  ∀ c, (0 < c < n)%nat → parent c = i → le (l !!! least_child i n l) (l !!! c).
Proof.
  intros Hn. unfold least_child.
  destruct (Nat.ltb_spec (S (2 * i + 1)) n); cbn [andb];
    [destruct (less (l !!! S (2 * i + 1)) (l !!! (2 * i + 1)%nat)) eqn:Hl|]; (split; [lia|]);
    (split; [apply parent_child; lia|]); intros c Hc Hp%parent_child; try lia;
    destruct Hp as [-> | ->]; try lia; try apply le_refl.
  - by apply less_le.
  - by replace (S (2 * i + 1)) with (2 * i + 2)%nat by lia; apply le_refl.
  - by replace (2 * i + 2)%nat with (S (2 * i + 1)) by lia.
Qed.

Lemma down_step fuel i n l :
  down_loop (S fuel) i n l =
    if (n <=? 2 * i + 1)%nat then (l, i)
    else if negb (less (l !!! least_child i n l) (l !!! i)) then (l, i)
    else down_loop fuel (least_child i n l) n (swap i (least_child i n l) l).
Proof. done. Qed.

Lemma down_loop_keeps fuel i n l :
  (n ≤ length l)%nat →
  fst (down_loop fuel i n l) ≡ₚ l ∧ (i ≤ snd (down_loop fuel i n l))%nat ∧
  ∀ c, (n ≤ c)%nat → fst (down_loop fuel i n l) !!! c = l !!! c.
Proof.
  revert i l. induction fuel as [|fuel IH]; intros i l Hn; [done|]. rewrite down_step.
  destruct (Nat.leb_spec n (2 * i + 1)); [done|]. destruct (negb _); [done|].
  destruct (least_child_spec i n l) as (Hj & _ & _); [lia|].
  destruct (IH (least_child i n l) (swap i (least_child i n l) l)) as (Hp & Hi & Hk).
  { by rewrite swap_length. }
  split_and!; [|lia|].
  - rewrite Hp. apply swap_perm; lia.
  - intros c Hc. rewrite Hk, swap_at by lia. rewrite !decide_False by lia. done.
Qed.

Lemma except_swap k n i j l :
  (n ≤ length l)%nat → (k ≤ i < j)%nat → (j < n)%nat → parent j = i → except k n i l →
  (∀ c, (0 < c < n)%nat → parent c = i → le (l !!! j) (l !!! c)) →
  except k n j (swap i j l).
Proof.
  intros Hn Hki Hj Hpj [He Hg] Hmin. split.
  - intros c Hc Hkc Hcj Hpc. rewrite !swap_at by lia. pose proof (parent_lt c ltac:(lia)).
    repeat case_decide; subst; try congruence; try lia.
    + by apply Hmin.
    + apply Hg; [lia|done|lia|done].
    + apply He; [lia|done|done|done].
  - intros c Hc Hpc Hj0 Hki'. rewrite !swap_at by lia. pose proof (parent_lt c ltac:(lia)).
    repeat case_decide; subst; try congruence; try lia.
    apply He; [lia|lia|lia|lia].
Qed.

(** [down] repairs the edges below [i] when the one above is in order. *)
Lemma down_loop_heap k fuel i n l :
  (n ≤ length l)%nat → (n ≤ i + fuel)%nat → (k ≤ i)%nat → except k n i l →
  ((0 < i < n)%nat → (k ≤ parent i)%nat → le (l !!! parent i) (l !!! i)) →
  heap_from k n (fst (down_loop fuel i n l)).
Proof.
  revert i l. induction fuel as [|fuel IH]; intros i l Hn Hf Hk He Hup.
  - intros c Hc Hkc. simpl. destruct He as [He _]. pose proof (parent_lt c ltac:(lia)).
    destruct (decide (c = i)) as [->|]; [by apply Hup|]. apply He; [lia|lia|done|lia].
  - assert (Hstop : (∀ c, (0 < c < n)%nat → parent c = i → le (l !!! i) (l !!! c)) → heap_from k n l).
    { intros Hch c Hc Hkc. destruct (decide (c = i)) as [->|]; [by apply Hup|].
      destruct (decide (parent c = i)) as [Hp|]; [rewrite Hp; by apply Hch|]. apply (proj1 He); done. }
    rewrite down_step. destruct (Nat.leb_spec n (2 * i + 1)).
    { apply Hstop. intros c Hc Hp%parent_child; lia. }
    destruct (least_child_spec i n l) as (Hj & Hpj & Hmin); [lia|].
    destruct (less (l !!! least_child i n l) (l !!! i)) eqn:Hless; simpl.
    + apply IH; rewrite ?swap_length; try lia.
      * apply except_swap; [done|lia|lia|done|done|done].
      * intros _ _. rewrite Hpj, !swap_at, decide_True, decide_False, decide_True by lia. by apply less_le.
    + apply Hstop. intros c Hc Hp. eapply le_trans; [exact Hless|by apply Hmin].
Qed.

(** What [down] reports: nothing moved, or the heap is repaired. *)
Lemma down_spec k i n l :
  (n ≤ length l)%nat → (k ≤ i < n)%nat → except k n i l →
  if snd (down i n l) then heap_from k n (fst (down i n l))
  else fst (down i n l) = l ∧ ∀ c, (0 < c < n)%nat → parent c = i → le (l !!! i) (l !!! c).
Proof.
  intros Hn Hk He. unfold down. destruct n as [|n']; [lia|]. set (n := S n') in *.
  change (down_loop n i n l) with (down_loop (S n') i n l). rewrite down_step.
  destruct (Nat.leb_spec n (2 * i + 1)).
  { simpl. rewrite (proj2 (Nat.ltb_ge _ _)) by lia. split; [done|]. intros c Hc Hp%parent_child; lia. }
  destruct (least_child_spec i n l) as (Hj & Hpj & Hmin); [lia|].
  destruct (less (l !!! least_child i n l) (l !!! i)) eqn:Hless; simpl.
  - destruct (down_loop n' _ n _) as [l' i'] eqn:Hd. simpl.
    destruct (down_loop_keeps n' (least_child i n l) n (swap i (least_child i n l) l)) as (_ & Hi & _).
    { by rewrite swap_length. }
    rewrite Hd in Hi. simpl in Hi. rewrite (proj2 (Nat.ltb_lt _ _)) by lia.
    replace l' with (fst (down_loop n' (least_child i n l) n (swap i (least_child i n l) l))) by (by rewrite Hd).
    apply down_loop_heap; rewrite ?swap_length; try lia.
    + apply except_swap; [done|lia|lia|done|done|done].
    + intros _ _. rewrite Hpj, !swap_at, decide_True, decide_False, decide_True by lia. by apply less_le.
  - rewrite (proj2 (Nat.ltb_ge _ _)) by lia. split; [done|].
    intros c Hc Hp. eapply le_trans; [exact Hless|by apply Hmin].
Qed.

(** ** The operations *)

Lemma heap_root l i : is_heap l → (i < length l)%nat → le (l !!! 0%nat) (l !!! i).
Proof.
  intros Hh. induction (lt_wf i) as [i _ IH]. intros Hi.
  destruct i as [|i']; [apply le_refl|]. set (i := S i') in *.
  pose proof (parent_lt i ltac:(lia)). apply (le_trans _ (l !!! parent i)); [apply IH; lia|]. apply Hh; lia.
Qed.

Lemma pop_last_spec l : l ≠ [] → (pop_last l).2 :: (pop_last l).1 ≡ₚ l.
Proof.
  intros Hl. unfold pop_last. simpl. assert (Hn : (length l - 1 < length l)%nat) by (destruct l; simpl; [done|lia]).
  rewrite Permutation_cons_append, <- (take_S_r l _ _ (list_lookup_lookup_total_lt _ _ Hn)).
  by rewrite take_ge by lia.
Qed.

Lemma take_heap n l : (n ≤ length l)%nat → heap_from 0 n l → is_heap (take n l).
Proof.
  intros Hn Hh c Hc _. rewrite length_take_le in Hc by lia. pose proof (parent_lt c ltac:(lia)).
  rewrite !lookup_total_take, !decide_True by lia. apply Hh; lia.
Qed.

Lemma Push_spec x l : is_heap l → is_heap (Push x l) ∧ Push x l ≡ₚ x :: l.
Proof.
  intros Hh. unfold Push.
  assert (Hlen : length (l ++ [x]) = S (length l)) by (rewrite length_app; simpl; lia).
  assert (Hp : up (length l) (length l) (l ++ [x]) ≡ₚ l ++ [x]) by (apply up_perm; lia).
  split; [|rewrite Hp; symmetry; apply Permutation_cons_append]. unfold is_heap. rewrite (Permutation_length Hp), Hlen.
  apply up_heap; [lia|lia|lia|..].
  - split.
    + intros c Hc _ Hne _. pose proof (parent_lt c ltac:(lia)).
      rewrite !lookup_total_app_l by lia. apply Hh; lia.
    + intros c Hc Hpc. pose proof (parent_lt c ltac:(lia)). lia.
  - intros c Hc Hpc. pose proof (parent_lt c ltac:(lia)). lia.
Qed.

Lemma swap_last_except l i :
  is_heap l → (i < length l - 1)%nat → except 0 (length l - 1) i (swap i (length l - 1) l).
Proof.
  intros Hh Hi. split.
  - intros c Hc _ Hci Hpc. pose proof (parent_lt c ltac:(lia)). rewrite !swap_at by lia.
    rewrite !decide_False by lia. apply Hh; lia.
  - intros c Hc Hpc Hi0 _. pose proof (parent_lt c ltac:(lia)). pose proof (parent_lt i Hi0).
    rewrite !swap_at by lia. rewrite !decide_False by lia.
    eapply le_trans; [apply Hh; lia|]. rewrite <- Hpc at 1. apply Hh; lia.
Qed.

(** What is left when the last slot of [l'] is dropped. *)
Lemma drop_last_spec l l' i :
  (i < length l)%nat → l' ≡ₚ l → heap_from 0 (length l - 1) l' → l' !!! (length l - 1)%nat = l !!! i →
  (pop_last l').2 = l !!! i ∧ l !!! i :: (pop_last l').1 ≡ₚ l ∧ is_heap (pop_last l').1.
Proof.
  intros Hi Hp Hh Hx. pose proof (Permutation_length Hp) as Hlen.
  assert (Hne : l' ≠ []) by (intros ->; simpl in Hlen; lia).
  pose proof (pop_last_spec l' Hne) as Hpop. unfold pop_last in *. simpl in *. rewrite Hlen in *. rewrite Hx in *.
  split_and!; [done|by rewrite Hpop|]. apply take_heap; [lia|done].
Qed.

Lemma heap_remove_spec i l :
  is_heap l → (i < length l)%nat →
  (Remove i l).2 = l !!! i ∧ l !!! i :: (Remove i l).1 ≡ₚ l ∧ is_heap (Remove i l).1.
Proof.
  intros Hh Hi. unfold Remove. destruct (Nat.eqb_spec (length l - 1) i) as [He|Hne].
  { apply drop_last_spec; [done|done| |by rewrite He]. intros c Hc Hk. apply Hh; lia. }
  assert (Hi' : (i < length l - 1)%nat) by lia.
  pose proof (swap_last_except l i Hh Hi') as Hex.
  pose proof (swap_perm i (length l - 1) l ltac:(lia) ltac:(lia)) as Hsp.
  assert (Hlast : swap i (length l - 1) l !!! (length l - 1)%nat = l !!! i).
  { rewrite swap_at by lia. rewrite decide_False, decide_True by lia. done. }
  pose proof (down_spec 0 i (length l - 1) (swap i (length l - 1) l) ltac:(rewrite swap_length; lia) ltac:(lia) Hex) as Hd.
  destruct (down_loop_keeps (length l - 1) i (length l - 1) (swap i (length l - 1) l)) as (Hkp & _ & Hkc);
    [rewrite swap_length; lia|].
  assert (Hfst : fst (down i (length l - 1) (swap i (length l - 1) l)) =
    fst (down_loop (length l - 1) i (length l - 1) (swap i (length l - 1) l))).
  { unfold down. by destruct (down_loop _ _ _ _). }
  destruct (down i (length l - 1) (swap i (length l - 1) l)) as [l' moved]. simpl in *. subst l'.
  destruct moved.
  - apply drop_last_spec; [done|by rewrite Hkp|done|by rewrite Hkc by lia].
  - destruct Hd as [Hd Hch]. rewrite Hd. apply drop_last_spec; [done|..].
    + rewrite up_perm; [done|rewrite swap_length; lia].
    + apply up_heap; [lia|lia|rewrite swap_length; lia|done|done].
    + by rewrite up_above by lia.
Qed.

(** [Pop] takes a least element. *)
Lemma Pop_spec l :
  is_heap l → l ≠ [] →
  (Pop l).2 = l !!! 0%nat ∧ l !!! 0%nat :: (Pop l).1 ≡ₚ l ∧ is_heap (Pop l).1 ∧
  ∀ y, y ∈ l → le (l !!! 0%nat) y.
Proof.
  intros Hh Hl. assert (Hn : (0 < length l)%nat) by (destruct l; simpl; [done|lia]).
  assert (Hmin : ∀ y, y ∈ l → le (l !!! 0%nat) y).
  { intros y [i Hy]%list_elem_of_lookup_1. rewrite <- (list_lookup_total_correct _ _ _ Hy).
    apply heap_root; [done|]. by eapply lookup_lt_Some. }
  unfold Pop.
  assert (Hfst : fst (down 0 (length l - 1) (swap 0 (length l - 1) l)) =
    fst (down_loop (length l - 1) 0 (length l - 1) (swap 0 (length l - 1) l))).
  { unfold down. by destruct (down_loop _ _ _ _). }
  rewrite Hfst. destruct (down_loop_keeps (length l - 1) 0 (length l - 1) (swap 0 (length l - 1) l))
    as (Hkp & _ & Hkc); [rewrite swap_length; lia|].
  destruct (drop_last_spec l (fst (down_loop (length l - 1) 0 (length l - 1) (swap 0 (length l - 1) l))) 0) as (H1 & H2 & H3).
  - done.
  - rewrite Hkp. apply swap_perm; lia.
  - destruct (decide (length l = 1%nat)) as [H1|Hgt].
    { intros c Hc. lia. }
    apply down_loop_heap; [rewrite swap_length; lia|lia|lia|apply swap_last_except; [done|lia]|lia].
  - rewrite Hkc, swap_at by lia. destruct (decide (length l - 1 = 0)%nat) as [->|]; [done|].
    by rewrite decide_True.
  - done.
Qed.

Lemma init_loop_spec k n l :
  (n ≤ length l)%nat → heap_from k n l → (k ≤ n)%nat →
  heap_from 0 n (init_loop k n l) ∧ init_loop k n l ≡ₚ l.
Proof.
  revert l. induction k as [|i IH]; intros l Hn Hh Hk; simpl; [done|].
  assert (Hfst : fst (down i n l) = fst (down_loop n i n l)) by (unfold down; by destruct (down_loop _ _ _ _)).
  rewrite Hfst. destruct (down_loop_keeps n i n l Hn) as (Hp & _ & _).
  destruct (IH (fst (down_loop n i n l))) as [H1 H2]; [by rewrite (Permutation_length Hp)| |lia|].
  - apply down_loop_heap; [done|lia|lia| |].
    + split.
      * intros c Hc Hkc Hci Hpc. apply Hh; lia.
      * intros c Hc Hpc Hi0 Hle. pose proof (parent_lt i Hi0). lia.
    + intros Hi Hle. pose proof (parent_lt i ltac:(lia)). lia.
  - split; [done|]. by rewrite H2.
Qed.

Lemma Init_spec l : is_heap (Init l) ∧ Init l ≡ₚ l.
Proof.
  unfold Init. destruct (init_loop_spec (length l / 2) (length l) l) as [H1 H2]; [done| |..].
  - intros c Hc Hk. exfalso. pose proof (proj1 (parent_child c (parent c) ltac:(lia)) eq_refl).
    pose proof (Nat.div_mod_eq (length l) 2). pose proof (Nat.mod_upper_bound (length l) 2). lia.
  - apply Nat.Div0.div_le_upper_bound. lia.
  - split; [|done]. unfold is_heap. by rewrite (Permutation_length H2).
Qed.

(** Replacing the root and fixing the heap. *)
Lemma Fix_root x l : is_heap l → l ≠ [] → is_heap (Fix_ 0 (<[0%nat := x]> l)) ∧ Fix_ 0 (<[0%nat := x]> l) ≡ₚ x :: tail l.
Proof.
  intros Hh Hl. destruct l as [|y l]; [done|]. cbn [insert list_insert tail]. set (l1 := x :: l).
  assert (Hexc : except 0 (length l1) 0 l1).
  { split; [|intros c Hc Hp H0; lia]. intros c Hc _ Hc0 Hp0. unfold l1. pose proof (Hh c Hc ltac:(lia)) as Hle.
    destruct c as [|c]; [lia|]. destruct (parent (S c)) as [|p]; [done|]. exact Hle. }
  destruct (down_loop_keeps (length l1) 0 (length l1) l1) as (Hp & _); [done|].
  assert (Hfst : fst (down 0 (length l1) l1) = fst (down_loop (length l1) 0 (length l1) l1)).
  { unfold down. by destruct (down_loop _ _ _ _). }
  pose proof (down_spec 0 0 (length l1) l1 ltac:(lia) ltac:(unfold l1; cbn; lia) Hexc) as Hd. unfold Fix_.
  rewrite <- Hfst in Hp. destruct (down 0 (length l1) l1) as [l2 []]; cbn [fst snd] in *.
  - split; [|done]. unfold is_heap. by rewrite (Permutation_length Hp).
  - destruct Hd as [-> Hch]. split; [|done]. intros c Hc _. cbn [up] in *.
    destruct (decide (parent c = 0%nat)) as [Hp0|Hp0]; [rewrite Hp0; by apply Hch|]. apply Hexc; lia.
Qed.
End Heap.
#[global] Arguments Push : simpl never.
#[global] Arguments Pop : simpl never.
#[global] Arguments Remove : simpl never.
#[global] Arguments Init : simpl never.
#[global] Arguments Fix_ : simpl never.

(** ** Comparisons *)

(** Three-way comparisons of a total preorder, as [Cmp] and [strings.Compare]. *)
Record comparer {A} (f : A → A → comparison) : Prop := {
  cmp_sym x y : f y x = CompOpp (f x y);
  cmp_trans x y z c : f x y = c → f y z = c → f x z = c;
}.
(** Compare by [g] where [f] cannot tell. *)
Definition then_by (c d : comparison) : comparison := match c with Eq => d | _ => c end.

Lemma cmp_eq_l {A} (f : A → A → comparison) x y z : comparer f → f x y = Eq → f y z = f x z.
Proof.
  intros [Hs Ht] He. assert (Hr : f y x = Eq) by (by rewrite Hs, He).
  destruct (f y z) eqn:H1, (f x z) eqn:H2; try done; exfalso.
  - pose proof (Ht x y z Eq He H1). congruence.
  - pose proof (Ht x y z Eq He H1). congruence.
  - pose proof (Ht y x z Eq Hr H2). congruence.
  - assert (H3 : f z x = Lt) by (by rewrite Hs, H2). pose proof (Ht y z x Lt H1 H3). congruence.
  - pose proof (Ht y x z Eq Hr H2). congruence.
  - assert (H3 : f z y = Lt) by (by rewrite Hs, H1). pose proof (Ht x z y Lt H2 H3). congruence.
Qed.
Lemma comparer_then {A} (f g : A → A → comparison) :
  comparer f → comparer g → comparer (λ x y, then_by (f x y) (g x y)).
Proof.
  intros Hf Hg. split.
  - intros x y. rewrite (cmp_sym f Hf x y), (cmp_sym g Hg x y). by destruct (f x y).
  - intros x y z c. unfold then_by. destruct (f x y) eqn:H1.
    + rewrite (cmp_eq_l f x y z Hf H1). destruct (f x z); [|done..]. apply (cmp_trans g Hg).
    + intros <- H. destruct (f y z) eqn:H2; [| |done].
      * assert (f z y = Eq) as H3 by (by rewrite (cmp_sym f Hf), H2).
        assert (f z x = Gt) as H4 by (rewrite <- (cmp_eq_l f z y x Hf H3), (cmp_sym f Hf x y); by rewrite H1).
        rewrite (cmp_sym f Hf z x). by rewrite H4.
      * by rewrite (cmp_trans f Hf x y z Lt H1 H2).
    + intros <- H. destruct (f y z) eqn:H2; [|done|].
      * assert (f z y = Eq) as H3 by (by rewrite (cmp_sym f Hf), H2).
        assert (f z x = Lt) as H4 by (rewrite <- (cmp_eq_l f z y x Hf H3), (cmp_sym f Hf x y); by rewrite H1).
        rewrite (cmp_sym f Hf z x). by rewrite H4.
      * by rewrite (cmp_trans f Hf x y z Gt H1 H2).
Qed.
Lemma comparer_on {A B} (g : A → B) (f : B → B → comparison) : comparer f → comparer (λ x y, f (g x) (g y)).
Proof. intros [Hs Ht]. split; [intros x y; apply Hs|intros x y z; apply Ht]. Qed.
Lemma comparer_flip {A} (f : A → A → comparison) : comparer f → comparer (λ x y, f y x).
Proof. intros [Hs Ht]. split; [intros x y; apply Hs|intros x y z c H1 H2; by apply (Ht z y x)]. Qed.
Lemma comparer_Z : comparer Z.compare.
Proof.
  split; [intros; apply Z.compare_antisym|]. intros x y z [] H1 H2;
    rewrite ?Z.compare_eq_iff, ?Z.compare_lt_iff, ?Z.compare_gt_iff in *; lia.
Qed.
Lemma comparer_string : comparer String.compare.
Proof.
  split; [intros; apply String.compare_antisym|].
  assert (Hlt : ∀ x y z, String.compare x y = Lt → String.compare y z = Lt → String.compare x z = Lt).
  { induction x as [|a x IH]; intros [|b y] [|c z]; cbn; try done. unfold Ascii.compare.
    destruct (N.compare_spec (Ascii.N_of_ascii a) (Ascii.N_of_ascii b)) as [H1|H1|H1]; [| |done];
      destruct (N.compare_spec (Ascii.N_of_ascii b) (Ascii.N_of_ascii c)) as [H2|H2|H2]; try done; intros Hx Hy;
      [rewrite H1, H2, N.compare_refl; by eapply IH
      |rewrite (proj2 (N.compare_lt_iff _ _)) by lia; done..]. }
  intros x y z [] H1 H2; [|by eapply Hlt|].
  - apply String.compare_eq_iff in H1, H2. subst. pose proof (String.compare_antisym z z) as Hz.
    by destruct (String.compare z z).
  - rewrite String.compare_antisym. assert (String.compare z x = Lt) as ->; [|done]. apply (Hlt z y x).
    + by rewrite String.compare_antisym, H2.
    + by rewrite String.compare_antisym, H1.
Qed.
Create HintDb cmp.
#[export] Hint Resolve comparer_then comparer_on comparer_flip comparer_Z comparer_string : cmp.

(** A comparison orders a heap. *)
Definition cmp_less {A} (f : A → A → comparison) (x y : A) : bool := match f x y with Lt => true | _ => false end.
Lemma cmp_less_laws {A} (f : A → A → comparison) : comparer f → @HeapLessLaws A (cmp_less f).
Proof.
  intros Hf. split; unfold less, cmp_less.
  - intros x y. rewrite (cmp_sym f Hf x y). by destruct (f x y).
  - intros x y z. rewrite (cmp_sym f Hf x y), (cmp_sym f Hf y z), (cmp_sym f Hf x z).
    destruct (f x y) eqn:H1; cbn; [|intros _|done].
    1: { by rewrite (cmp_eq_l f x y z Hf H1). }
    destruct (f y z) eqn:H2; cbn; intros H; [| |done].
    + assert (f z y = Eq) as H3 by (by rewrite (cmp_sym f Hf), H2).
      rewrite (cmp_sym f Hf z x). rewrite <- (cmp_eq_l f z y x Hf H3), (cmp_sym f Hf x y). by rewrite H1.
    + by rewrite (cmp_trans f Hf x y z Lt H1 H2).
Qed.
