(* ===== verification/TxList.v ===== *)
(** The per-account transaction lists of the pool
    ([mempool/txpool/legacypool/list.go]): [SortedMap], a map from nonces to
    transactions with a heap of nonces and a cache of the sorted transactions,
    and [list], which adds replacement rules, cost accounting and the strict
    mode of pending transactions. *)
From S2P Require Import Prelude GoStd AccessList Sdk Heap.

(** What the pool reads of a transaction; [tx_Cost] is [tx.Cost()], [tx_Auths]
    is [tx.SetCodeAuthorities()]. *)
Record Transaction := mkTx {
  tx_Hash : Hash;
  tx_Nonce : Z;
  tx_Gas : Z;
  tx_GasFeeCap : Z;
  tx_GasTipCap : Z;
  tx_Cost : Z;
  tx_Size : Z;
  tx_Auths : list Address;
}.
(** The zero value a map of transactions returns for an absent key is nil. *)
#[global] Instance nil_tx : Inhabited Transaction := populate (mkTx 0 0 0 0 0 0 0 []).
#[global] Instance Transaction_eq_dec : EqDecision Transaction.
Proof. solve_decision. Defined.
Abbreviation Transactions := (list Transaction).

(** [nonceHeap.Less]. *)
#[global] Instance nonce_less : HeapLess Z := Z.ltb.
#[global] Instance nonce_less_laws : HeapLessLaws Z.
Proof.
  split; unfold less, nonce_less.
  - intros x y H%Z.ltb_lt. apply Z.ltb_ge. lia.
  - intros x y z Hx%Z.ltb_ge Hz%Z.ltb_ge. apply Z.ltb_ge. lia.
Qed.

(** Go iterates over a map in an unspecified order. *)
Class MapRange := map_range : gmap Z Transaction → list (Z * Transaction).
Class MapRangeLaws `{MapRange} : Prop :=
  map_range_perm : ∀ m : gmap Z Transaction, map_range m ≡ₚ map_to_list m.

(** ** [SortedMap] *)

Module SM.
Record SortedMap := mkSorted {
  sm_items : gmap Z Transaction;
  sm_index : list Z;
  sm_cache : option Transactions;
}.

(** [types.TxByNonce]. *)
Definition nonce_le (a b : Transaction) : Prop := tx_Nonce a ≤ tx_Nonce b.
#[global] Instance nonce_le_dec a b : Decision (nonce_le a b).
Proof. unfold nonce_le. apply _. Defined.

Section SortedMap.
Context `{HR : MapRange}.
Implicit Types m : SortedMap.

Definition NewSortedMap : SortedMap := mkSorted ∅ [] None.
Definition Get m (nonce : Z) : option Transaction := sm_items m !! nonce.

Definition Put (tx : Transaction) m : SortedMap :=
  let nonce := tx_Nonce tx in
  mkSorted (<[nonce := tx]> (sm_items m))
    (match sm_items m !! nonce with None => Push nonce (sm_index m) | Some _ => sm_index m end)
    None.

(** Pop while the lowest nonce is below the threshold. *)
Fixpoint forward_loop (fuel : nat) (threshold : Z) (items : gmap Z Transaction) (index : list Z)
    (removed : Transactions) : gmap Z Transaction * list Z * Transactions :=
  match fuel with
  | O => (items, index, removed)
  | S fuel' =>
      if (0 <? length index)%nat && ((index !!! 0%nat) <? threshold) then
        let '(index', nonce) := Pop index in
        forward_loop fuel' threshold (delete nonce items) index' (removed ++ [items !!! nonce])
      else (items, index, removed)
  end.
Definition Forward (threshold : Z) m : SortedMap * Transactions :=
  let '(items, index, removed) :=
    forward_loop (length (sm_index m)) threshold (sm_items m) (sm_index m) [] in
  (mkSorted items index (drop (length removed) <$> sm_cache m), removed).

Definition reheap m : SortedMap :=
  mkSorted (sm_items m) (Init (map_range (sm_items m)).*1) None.

(** Removing the transactions of a list, which leaves the heap stale. *)
Definition drop_txs (removed : Transactions) m : SortedMap :=
  mkSorted (foldr (λ tx items, delete (tx_Nonce tx) items) (sm_items m) removed) (sm_index m)
    (if (0 <? length removed)%nat then None else sm_cache m).
Definition filter_ (f : Transaction → bool) m : SortedMap * Transactions :=
  let removed := filter (λ kv, f kv.2 = true) (map_range (sm_items m)) in
  (mkSorted (foldr (λ kv items, delete kv.1 items) (sm_items m) removed) (sm_index m)
     (if (0 <? length removed)%nat then None else sm_cache m), removed.*2).
Definition Filter (f : Transaction → bool) m : SortedMap * Transactions :=
  let '(m', removed) := filter_ f m in
  (if (0 <? length removed)%nat then reheap m' else m', removed).

Definition flatten m : SortedMap * Transactions :=
  match sm_cache m with
  | Some c => (m, c)
  | None =>
      let c := merge_sort nonce_le (map_range (sm_items m)).*2 in
      (mkSorted (sm_items m) (sm_index m) (Some c), c)
  end.
Definition Flatten m : SortedMap * Transactions := flatten m.
(** [None] is the panic on an empty map. *)
Definition LastElement m : SortedMap * option Transaction :=
  let '(m', c) := flatten m in (m', last c).

Definition filterSorted (f : Transaction → bool) m : SortedMap * Transactions :=
  let '(m', sorted) := flatten m in
  let removed := filter (λ tx, f tx = true) sorted in
  (drop_txs removed m', removed).
Definition FilterSorted (f : Transaction → bool) m : SortedMap * Transactions :=
  let '(m', removed) := filterSorted f m in
  (if (0 <? length removed)%nat then reheap m' else m', removed).

(** Drop the highest nonces of the sorted index until [threshold] are left. *)
Fixpoint cap_loop (size threshold : nat) (items : gmap Z Transaction) (index : list Z)
    (drops : Transactions) : gmap Z Transaction * Transactions :=
  match size with
  | O => (items, drops)
  | S size' =>
      if (threshold <? size)%nat then
        let nonce := index !!! size' in
        cap_loop size' threshold (delete nonce items) index (drops ++ [items !!! nonce])
      else (items, drops)
  end.
Definition Cap (threshold : nat) m : SortedMap * Transactions :=
  if (size (sm_items m) <=? threshold)%nat then (m, [])
  else
    let index := merge_sort Z.le (sm_index m) in
    let '(items, drops) := cap_loop (size (sm_items m)) threshold (sm_items m) index [] in
    (mkSorted items (take threshold index)
       ((λ c, take (length c - length drops) c) <$> sm_cache m), drops).

(** The first position of a nonce in the index. *)
Definition index_of (nonce : Z) (index : list Z) : option nat :=
  fst <$> list_find (λ n, n = nonce) index.
Definition Remove (nonce : Z) m : SortedMap * bool :=
  match sm_items m !! nonce with
  | None => (m, false)
  | Some _ =>
      (mkSorted (delete nonce (sm_items m))
         (match index_of nonce (sm_index m) with
          | Some i => fst (Heap.Remove i (sm_index m))
          | None => sm_index m
          end) None, true)
  end.

Fixpoint ready_loop (fuel : nat) (next : Z) (items : gmap Z Transaction) (index : list Z)
    (ready : Transactions) : gmap Z Transaction * list Z * Transactions :=
  match fuel with
  | O => (items, index, ready)
  | S fuel' =>
      if (0 <? length index)%nat && ((index !!! 0%nat) =? next) then
        ready_loop fuel' (u64_add next 1) (delete next items) (fst (Pop index)) (ready ++ [items !!! next])
      else (items, index, ready)
  end.
Definition Ready (start : Z) m : SortedMap * Transactions :=
  if (length (sm_index m) =? 0)%nat || (start <? (sm_index m !!! 0%nat)) then (m, [])
  else
    let '(items, index, ready) :=
      ready_loop (length (sm_index m)) (sm_index m !!! 0%nat) (sm_items m) (sm_index m) [] in
    (mkSorted items index None, ready).

Definition Len m : nat := size (sm_items m).

(** *** Sorted keys *)

(** The transactions in the order of their nonces. *)
Definition sorted_txs (items : gmap Z Transaction) : Transactions :=
  (λ n, items !!! n) <$> sorted_keys items.

Lemma sorted_keys_perm {V} (m : gmap Z V) : sorted_keys m ≡ₚ (map_to_list m).*1.
Proof. apply merge_sort_Permutation. Qed.

Lemma sorted_keys_sorted {V} (m : gmap Z V) : StronglySorted Z.le (sorted_keys m).
Proof. apply StronglySorted_merge_sort; apply _. Qed.

Lemma sorted_keys_unique {V} (m : gmap Z V) l :
  StronglySorted Z.le l → l ≡ₚ (map_to_list m).*1 → sorted_keys m = l.
Proof.
  intros Hs Hp. apply (StronglySorted_unique Z.le); [apply sorted_keys_sorted|done|].
  by rewrite sorted_keys_perm, Hp.
Qed.

Lemma sorted_keys_charact {V} (m : gmap Z V) l :
  StronglySorted Z.le l → NoDup l → (∀ k, k ∈ l ↔ is_Some (m !! k)) → sorted_keys m = l.
Proof.
  intros Hs Hnd Hk. apply sorted_keys_unique; [done|].
  apply NoDup_Permutation; [done|apply NoDup_fst_map_to_list|]. intros k.
  by rewrite Hk, <- sorted_keys_elem, sorted_keys_perm.
Qed.

Lemma map_keys_elem {V} (m : gmap Z V) k : k ∈ (map_to_list m).*1 ↔ is_Some (m !! k).
Proof. rewrite <- sorted_keys_perm. apply sorted_keys_elem. Qed.

Lemma map_keys_delete {V} (m : gmap Z V) k :
  is_Some (m !! k) → k :: (map_to_list (delete k m)).*1 ≡ₚ (map_to_list m).*1.
Proof. intros [x Hx]. by rewrite <- (map_to_list_delete m k x Hx). Qed.

Lemma sorted_keys_min {V} (m : gmap Z V) n :
  is_Some (m !! n) → (∀ k, is_Some (m !! k) → n ≤ k) → sorted_keys m = n :: sorted_keys (delete n m).
Proof.
  intros Hn Hmin. apply sorted_keys_unique.
  - constructor; [apply sorted_keys_sorted|]. apply Forall_forall. intros k Hk%sorted_keys_elem.
    apply Hmin. destruct Hk as [x [_ Hx]%lookup_delete_Some]. by eexists.
  - rewrite sorted_keys_perm. by apply map_keys_delete.
Qed.

Lemma sorted_txs_agree (m1 m2 : gmap Z Transaction) :
  (∀ k, is_Some (m1 !! k) → m1 !!! k = m2 !!! k) → sorted_txs m1 = (λ n, m2 !!! n) <$> sorted_keys m1.
Proof. intros H. apply list_fmap_ext. intros i k Hk%list_elem_of_lookup_2. by apply H, sorted_keys_elem. Qed.

Lemma sorted_txs_min (m : gmap Z Transaction) n :
  is_Some (m !! n) → (∀ k, is_Some (m !! k) → n ≤ k) → sorted_txs m = m !!! n :: sorted_txs (delete n m).
Proof.
  intros Hn Hmin. unfold sorted_txs at 1. rewrite (sorted_keys_min m n Hn Hmin). simpl. f_equal.
  symmetry. apply sorted_txs_agree. intros k [x [Hne Hx]%lookup_delete_Some].
  rewrite !lookup_total_alt. by rewrite lookup_delete_ne.
Qed.

(** *** The invariant *)

Record sm_ok m : Prop := {
  so_heap : is_heap (sm_index m);
  so_index : sm_index m ≡ₚ (map_to_list (sm_items m)).*1;
  so_keyed : ∀ n tx, sm_items m !! n = Some tx → tx_Nonce tx = n;
  so_cache : ∀ c, sm_cache m = Some c → c = sorted_txs (sm_items m);
}.

Lemma NewSortedMap_ok : sm_ok NewSortedMap.
Proof. by split. Qed.

(** An index that agrees with the items. *)
Definition indexed (items : gmap Z Transaction) (index : list Z) : Prop :=
  is_heap index ∧ index ≡ₚ (map_to_list items).*1.

Lemma indexed_pop items index :
  indexed items index → index ≠ [] →
  let n := index !!! 0%nat in
  is_Some (items !! n) ∧ (∀ k, is_Some (items !! k) → n ≤ k) ∧ (Pop index).2 = n ∧
  indexed (delete n items) (Pop index).1.
Proof.
  intros [Hh Hp] Hne. destruct (Pop_spec index Hh Hne) as (H1 & H2 & H3 & H4).
  assert (Hn : is_Some (items !! (index !!! 0%nat))).
  { apply map_keys_elem. rewrite <- Hp. destruct index; [done|left]. }
  split_and!; [done| |done|split; [done|]].
  - intros k Hk%map_keys_elem. rewrite <- Hp in Hk. apply H4 in Hk. by apply Z.ltb_ge.
  - apply (Permutation_cons_inv (a := index !!! 0%nat)). by rewrite H2, map_keys_delete, Hp.
Qed.

Lemma indexed_empty items index : indexed items index → index = [] → items = ∅.
Proof. intros [_ Hp] ->. apply map_to_list_empty_iff, (fmap_nil_inv fst), Permutation_nil. by rewrite Hp. Qed.

(** *** [Forward] *)

Definition below (threshold : Z) (items : gmap Z Transaction) := filter (λ kv, kv.1 < threshold) items.
Definition from (threshold : Z) (items : gmap Z Transaction) := filter (λ kv, threshold ≤ kv.1) items.

Lemma from_all threshold items : (∀ k, is_Some (items !! k) → threshold ≤ k) → from threshold items = items.
Proof. intros H. apply map_filter_id. intros k tx Hk. apply H. by exists tx. Qed.
Lemma below_none threshold items : (∀ k, is_Some (items !! k) → threshold ≤ k) → below threshold items = ∅.
Proof.
  intros H. apply map_empty. intros k. apply map_lookup_filter_None. right. intros tx Hk. simpl.
  apply Zle_not_lt, H. by exists tx.
Qed.

(** Popping the lowest nonce, when it is below the threshold. *)
Lemma from_delete e n items : n < e → from e (delete n items) = from e items.
Proof.
  intros H. unfold from. rewrite map_filter_delete. apply delete_id.
  apply map_lookup_filter_None. right. intros tx _. simpl. lia.
Qed.
Lemma below_cons e n items :
  is_Some (items !! n) → (∀ k, is_Some (items !! k) → n ≤ k) → n < e →
  sorted_txs (below e items) = items !!! n :: sorted_txs (below e (delete n items)).
Proof.
  intros [tx Htx] Hmin He. unfold below. rewrite map_filter_delete.
  assert (Hb : filter (λ kv, kv.1 < e) items !! n = Some tx) by (by apply map_lookup_filter_Some).
  rewrite (sorted_txs_min _ n).
  - f_equal. by rewrite !lookup_total_alt, Htx, Hb.
  - by exists tx.
  - intros k [tx' [Hk _]%map_lookup_filter_Some]. apply Hmin. by rewrite Hk.
Qed.
Lemma indexed_pop_length items index index' n :
  indexed items index → indexed (delete n items) index' → is_Some (items !! n) → length index = S (length index').
Proof.
  intros [_ Hp1] [_ Hp2] Hn. apply Permutation_length in Hp1, Hp2.
  rewrite <- (map_keys_delete items n Hn) in Hp1. simpl in Hp1. lia.
Qed.

Lemma forward_loop_spec fuel threshold items index removed :
  indexed items index → (length index ≤ fuel)%nat →
  let '(items', index', removed') := forward_loop fuel threshold items index removed in
  items' = from threshold items ∧ indexed items' index' ∧
  removed' = removed ++ sorted_txs (below threshold items).
Proof.
  revert items index removed. induction fuel as [|fuel IH]; intros items index removed Hi Hf; cbn [forward_loop].
  { assert (items = ∅) as -> by (eapply indexed_empty; [done|by destruct index; simpl in *; [|lia]]).
    unfold from, below. rewrite !map_filter_empty. split_and!; [done..|]. by rewrite app_nil_r. }
  destruct (decide (index = [])) as [->|Hne].
  { assert (items = ∅) as -> by (by eapply indexed_empty). cbn.
    unfold from, below. rewrite !map_filter_empty. split_and!; [done..|]. by rewrite app_nil_r. }
  rewrite (proj2 (Nat.ltb_lt _ _)) by (destruct index; simpl; [done|lia]). cbn [andb].
  destruct (indexed_pop items index Hi Hne) as (Hn & Hmin & Hpop & Hi').
  set (n := index !!! 0%nat) in *. destruct (Z.ltb_spec n threshold) as [Hlt|Hge].
  - destruct (Pop index) as [index' nonce] eqn:Hp. simpl in Hpop, Hi'. subst nonce.
    specialize (IH (delete n items) index' (removed ++ [items !!! n]) Hi').
    pose proof (indexed_pop_length _ _ _ _ Hi Hi' Hn). specialize (IH ltac:(lia)).
    destruct (forward_loop _ _ _ _ _) as [[its idx] rem]. destruct IH as (-> & Hidx & ->).
    rewrite (from_delete _ _ _ Hlt) in *. split_and!; [done..|].
    rewrite (below_cons _ n items) by done. by rewrite <- app_assoc.
  - assert (∀ k, is_Some (items !! k) → threshold ≤ k) as Hall by (intros k Hk; apply Hmin in Hk; lia).
    rewrite from_all, below_none by done. split_and!; [done..|]. by rewrite app_nil_r.
Qed.

(** The sorted transactions split at a threshold. *)
Lemma sorted_txs_split threshold items :
  sorted_txs items = sorted_txs (below threshold items) ++ sorted_txs (from threshold items).
Proof.
  assert (Hk : sorted_keys items = sorted_keys (below threshold items) ++ sorted_keys (from threshold items)).
  { assert (Hb : ∀ k, k ∈ sorted_keys (below threshold items) ↔ is_Some (items !! k) ∧ k < threshold).
    { intros k. rewrite sorted_keys_elem. unfold is_Some. setoid_rewrite map_lookup_filter_Some. naive_solver. }
    assert (Hf : ∀ k, k ∈ sorted_keys (from threshold items) ↔ is_Some (items !! k) ∧ threshold ≤ k).
    { intros k. rewrite sorted_keys_elem. unfold is_Some. setoid_rewrite map_lookup_filter_Some. naive_solver. }
    apply sorted_keys_charact.
    - apply StronglySorted_app_2; [|apply sorted_keys_sorted..].
      intros x y [_ Hx]%Hb [_ Hy]%Hf. lia.
    - apply NoDup_app. split_and!; [apply sorted_keys_NoDup| |apply sorted_keys_NoDup].
      intros x [_ Hx]%Hb [_ Hy]%Hf. lia.
    - intros k. rewrite elem_of_app, Hb, Hf. destruct (Z.lt_ge_cases k threshold); naive_solver lia. }
  unfold sorted_txs at 1. rewrite Hk, fmap_app. f_equal; symmetry; apply sorted_txs_agree;
    intros k [tx Htx]; pose proof Htx as [Hi _]%map_lookup_filter_Some; by rewrite !lookup_total_alt, Htx, Hi.
Qed.

Lemma Forward_spec threshold m :
  sm_ok m →
  sm_ok (Forward threshold m).1 ∧ sm_items (Forward threshold m).1 = from threshold (sm_items m) ∧
  (Forward threshold m).2 = sorted_txs (below threshold (sm_items m)).
Proof.
  intros [Hh Hp Hk Hc]. unfold Forward.
  pose proof (forward_loop_spec (length (sm_index m)) threshold (sm_items m) (sm_index m) [] (conj Hh Hp) ltac:(lia)) as H.
  destruct (forward_loop _ _ _ _ _) as [[items index] removed]. destruct H as (-> & [Hh' Hp'] & ->). simpl.
  split_and!; [|done..]. split; simpl; [done|done|..].
  - intros n tx [Hn _]%map_lookup_filter_Some. by apply Hk.
  - intros c. destruct (sm_cache m) as [c0|]; [|done]. simpl. intros [= <-].
    rewrite (Hc c0 eq_refl), (sorted_txs_split threshold (sm_items m)). apply drop_app_length.
Qed.

(** *** [Put] and [Remove] *)

Lemma Put_spec tx m : sm_ok m → sm_ok (Put tx m) ∧ sm_items (Put tx m) = <[tx_Nonce tx := tx]> (sm_items m).
Proof.
  intros [Hh Hp Hk Hc]. split; [|done]. unfold Put. destruct (sm_items m !! tx_Nonce tx) as [old|] eqn:Hold.
  - split; simpl; [done| | |done].
    + rewrite Hp. rewrite <- (map_keys_delete (sm_items m) (tx_Nonce tx)) by (by rewrite Hold).
      rewrite <- (map_keys_delete (<[_:=_]> (sm_items m)) (tx_Nonce tx)) by (by rewrite lookup_insert_eq).
      by rewrite delete_insert_eq.
    + intros n tx' [[<- <-]|[_ Hn]]%lookup_insert_Some; [done|]. by apply Hk.
  - destruct (Push_spec (tx_Nonce tx) (sm_index m) Hh) as [Hh' Hp']. split; simpl; [done| | |done].
    + by rewrite Hp', Hp, map_to_list_insert.
    + intros n tx' [[<- <-]|[_ Hn]]%lookup_insert_Some; [done|]. by apply Hk.
Qed.

Lemma Remove_spec nonce m :
  sm_ok m →
  sm_ok (Remove nonce m).1 ∧ sm_items (Remove nonce m).1 = delete nonce (sm_items m) ∧
  (Remove nonce m).2 = bool_decide (is_Some (sm_items m !! nonce)).
Proof.
  intros Hok. pose proof Hok as [Hh Hp Hk Hc]. unfold Remove.
  destruct (sm_items m !! nonce) as [tx|] eqn:Htx.
  2: { simpl. rewrite delete_id by done. by split_and!. }
  assert (Hin : nonce ∈ sm_index m) by (rewrite Hp; apply map_keys_elem; by rewrite Htx).
  assert (Hi : ∃ i, index_of nonce (sm_index m) = Some i ∧ sm_index m !! i = Some nonce).
  { unfold index_of. destruct (list_find _ (sm_index m)) as [[i n]|] eqn:Hf.
    - apply list_find_Some in Hf as (Hi & -> & _). by exists i.
    - apply list_find_None in Hf. rewrite Forall_forall in Hf. by destruct (Hf nonce Hin). }
  destruct Hi as (i & -> & Hi). pose proof (lookup_lt_Some _ _ _ Hi) as Hlt.
  destruct (heap_remove_spec i (sm_index m) Hh Hlt) as (_ & H2 & H3). simpl.
  rewrite (list_lookup_total_correct _ _ _ Hi) in H2.
  split_and!; [|done|done]. split; simpl; [done| | |done].
  - apply (Permutation_cons_inv (a := nonce)). by rewrite H2, map_keys_delete, Hp.
  - intros n tx' [_ Hn]%lookup_delete_Some. by apply Hk.
Qed.

(** *** Rebuilding the heap; filters *)

Context `{HRL : !MapRangeLaws}.

Lemma reheap_ok m :
  (∀ n tx, sm_items m !! n = Some tx → tx_Nonce tx = n) → sm_ok (reheap m).
Proof.
  intros Hk. unfold reheap. destruct (Init_spec (map_range (sm_items m)).*1) as [H1 H2].
  split; simpl; [done| |done|done]. by rewrite H2, map_range_perm.
Qed.

(** Deleting a list of keys. *)
Lemma foldr_delete_lookup (items : gmap Z Transaction) ks n :
  foldr (λ k its, delete k its) items ks !! n = if decide (n ∈ ks) then None else items !! n.
Proof.
  induction ks as [|k ks IH]; simpl; [done|]. destruct (decide (n = k)) as [->|Hne].
  - rewrite lookup_delete_eq. by rewrite decide_True by left.
  - rewrite lookup_delete_ne by done. rewrite IH. repeat case_decide; set_solver.
Qed.

Definition kept (f : Transaction → bool) (items : gmap Z Transaction) := filter (λ kv, f kv.2 = false) items.
Definition dropped (f : Transaction → bool) (items : gmap Z Transaction) := filter (λ kv, f kv.2 = true) items.

Lemma kept_lookup f items n : kept f items !! n = tx ← items !! n; if f tx then None else Some tx.
Proof.
  unfold kept. rewrite map_lookup_filter. destruct (items !! n) as [tx|]; simpl; [|done].
  by destruct (f tx); case_guard.
Qed.

Lemma filter_spec f m :
  sm_items (filter_ f m).1 = kept f (sm_items m) ∧
  (filter_ f m).2 ≡ₚ (map_to_list (dropped f (sm_items m))).*2 ∧
  sm_index (filter_ f m).1 = sm_index m.
Proof.
  unfold filter_. simpl. split_and!; [|..|done].
  - apply map_eq. intros n. rewrite kept_lookup.
    replace (foldr (λ kv items, delete kv.1 items) (sm_items m) (filter (λ kv, f kv.2 = true) (map_range (sm_items m))))
      with (foldr (λ k its, delete k its) (sm_items m) (filter (λ kv, f kv.2 = true) (map_range (sm_items m))).*1)
      by (apply foldr_fmap).
    rewrite foldr_delete_lookup. case_decide as Hd.
    + apply list_elem_of_fmap in Hd as ([k tx] & -> & [Hf Hin]%list_elem_of_filter). simpl in *.
      rewrite map_range_perm, elem_of_map_to_list in Hin. by rewrite Hin; simpl; rewrite Hf.
    + destruct (sm_items m !! n) as [tx|] eqn:Htx; simpl; [|done]. destruct (f tx) eqn:Hf; [|done].
      destruct Hd. apply list_elem_of_fmap. exists (n, tx). split; [done|].
      apply list_elem_of_filter. split; [done|]. by rewrite map_range_perm, elem_of_map_to_list.
  - apply fmap_Permutation. rewrite map_range_perm. apply NoDup_Permutation.
    + apply NoDup_filter, NoDup_map_to_list.
    + apply NoDup_map_to_list.
    + intros [k tx]. unfold dropped.
      rewrite list_elem_of_filter, !elem_of_map_to_list, map_lookup_filter_Some. naive_solver.
Qed.

Lemma kept_keyed f items :
  (∀ n tx, items !! n = Some tx → tx_Nonce tx = n) →
  ∀ n tx, kept f items !! n = Some tx → tx_Nonce tx = n.
Proof. intros Hk n tx [Hn _]%map_lookup_filter_Some. by apply Hk. Qed.

Lemma dropped_empty f items : dropped f items = ∅ → kept f items = items.
Proof.
  intros H. apply map_filter_id. intros n tx Hn. simpl. destruct (f tx) eqn:Hf; [|done].
  by destruct (map_filter_empty_not_lookup _ _ n tx H Hf).
Qed.

Lemma Filter_spec f m :
  sm_ok m →
  sm_ok (Filter f m).1 ∧ sm_items (Filter f m).1 = kept f (sm_items m) ∧
  (Filter f m).2 ≡ₚ (map_to_list (dropped f (sm_items m))).*2.
Proof.
  intros Hok. pose proof (filter_spec f m) as (Hi & Hr & Hx). unfold Filter.
  destruct (filter_ f m) as [m' removed] eqn:Hf. simpl in *.
  destruct (Nat.ltb_spec 0 (length removed)).
  - split_and!; [|done|done]. apply reheap_ok. rewrite Hi. apply kept_keyed, Hok.
  - assert (removed = []) as -> by (by destruct removed; simpl in *; [|lia]).
    assert (Hd : dropped f (sm_items m) = ∅).
    { apply map_to_list_empty_iff, (fmap_nil_inv snd), Permutation_nil. by rewrite Hr. }
    rewrite (dropped_empty f _ Hd) in *. split_and!; [|done|done]. destruct Hok as [Hh Hp Hk Hc].
    split; rewrite ?Hi, ?Hx; try done.
    intros c. unfold filter_ in Hf. injection Hf as <- Hlen. simpl in *.
    apply (fmap_nil_inv snd) in Hlen. rewrite Hlen. simpl. apply Hc.
Qed.

(** *** [flatten] *)

Definition txs_of (items : gmap Z Transaction) : Transactions := (map_to_list items).*2.

Lemma keyed_txs items tx :
  (∀ n tx, items !! n = Some tx → tx_Nonce tx = n) →
  tx ∈ txs_of items → items !! tx_Nonce tx = Some tx.
Proof.
  intros Hk ([n tx'] & -> & Hin%elem_of_map_to_list)%list_elem_of_fmap. simpl. by rewrite (Hk n tx' Hin).
Qed.

Lemma keyed_nonces items :
  (∀ n tx, items !! n = Some tx → tx_Nonce tx = n) → tx_Nonce <$> txs_of items = (map_to_list items).*1.
Proof.
  intros Hk. unfold txs_of. rewrite <- list_fmap_compose. apply list_fmap_ext.
  intros i [n tx] Hin%list_elem_of_lookup_2%elem_of_map_to_list. by apply Hk.
Qed.

Lemma sorted_txs_unique items l :
  (∀ n tx, items !! n = Some tx → tx_Nonce tx = n) →
  StronglySorted nonce_le l → l ≡ₚ txs_of items → l = sorted_txs items.
Proof.
  intros Hk Hs Hp. unfold sorted_txs.
  rewrite (sorted_keys_unique items (tx_Nonce <$> l)).
  - rewrite <- list_fmap_compose. rewrite <- (list_fmap_id l) at 1. apply list_fmap_ext.
    intros i tx Hin%list_elem_of_lookup_2. rewrite Hp in Hin. simpl.
    by rewrite lookup_total_alt, (keyed_txs items tx Hk Hin).
  - clear Hp. induction Hs as [|tx l Hs IH Hall]; simpl; constructor; [done|].
    by apply Forall_fmap.
  - by rewrite Hp, keyed_nonces.
Qed.

Lemma sorted_txs_perm items : sorted_txs items ≡ₚ txs_of items.
Proof.
  unfold sorted_txs, txs_of. rewrite sorted_keys_perm, <- list_fmap_compose. apply Permutation_refl', list_fmap_ext.
  intros i [n tx] Hin%list_elem_of_lookup_2%elem_of_map_to_list. simpl. by rewrite lookup_total_alt, Hin.
Qed.

Lemma flatten_spec m :
  sm_ok m →
  sm_ok (flatten m).1 ∧ sm_items (flatten m).1 = sm_items m ∧ sm_index (flatten m).1 = sm_index m ∧
  (flatten m).2 = sorted_txs (sm_items m).
Proof.
  intros Hok. pose proof Hok as [Hh Hp Hk Hc]. unfold flatten. destruct (sm_cache m) as [c|] eqn:Hcache; simpl.
  { split_and!; [done..|]. by apply Hc. }
  assert (Hs : merge_sort nonce_le (map_range (sm_items m)).*2 = sorted_txs (sm_items m)).
  { apply sorted_txs_unique; [done|..].
    - apply StronglySorted_merge_sort; intros ?; unfold nonce_le; lia.
    - by rewrite merge_sort_Permutation, map_range_perm. }
  split_and!; [|done..]. split; simpl; [done..|]. by intros c [= <-].
Qed.

Lemma LastElement_spec m :
  sm_ok m →
  sm_ok (LastElement m).1 ∧ sm_items (LastElement m).1 = sm_items m ∧ (LastElement m).2 = last (sorted_txs (sm_items m)).
Proof.
  intros Hok. destruct (flatten_spec m Hok) as (H1 & H2 & _ & H3). unfold LastElement.
  destruct (flatten m). simpl in *. split_and!; [done..|]. by rewrite H3.
Qed.

(** *** Filtering in the order of the nonces *)

Lemma map_to_list_filter (P : Z * Transaction → Prop) `{!∀ kv, Decision (P kv)} (items : gmap Z Transaction) :
  map_to_list (filter P items) ≡ₚ filter P (map_to_list items).
Proof.
  apply NoDup_Permutation; [apply NoDup_map_to_list|apply NoDup_filter, NoDup_map_to_list|].
  intros [k tx]. rewrite list_elem_of_filter, !elem_of_map_to_list, map_lookup_filter_Some. naive_solver.
Qed.

(** What is kept and what is dropped make up what there was. *)
Lemma kept_dropped f items : txs_of items ≡ₚ txs_of (dropped f items) ++ txs_of (kept f items).
Proof.
  unfold txs_of, dropped, kept. rewrite !map_to_list_filter, <- fmap_app. apply fmap_Permutation.
  rewrite <- (filter_app_complement (λ kv, f kv.2 = true) (map_to_list items)) at 1.
  apply Permutation_app_head, Permutation_refl', list_filter_iff. intros [k tx]. simpl. by destruct (f tx).
Qed.
Lemma below_from e items : txs_of items ≡ₚ sorted_txs (below e items) ++ txs_of (from e items).
Proof. by rewrite <- sorted_txs_perm, (sorted_txs_split e), (sorted_txs_perm (from e items)). Qed.

Lemma sorted_txs_dropped f items : filter (λ tx, f tx = true) (sorted_txs items) ≡ₚ txs_of (dropped f items).
Proof.
  rewrite sorted_txs_perm. unfold txs_of, dropped. rewrite map_to_list_filter.
  induction (map_to_list items) as [|[k tx] l IH]; simpl; [done|]. rewrite !filter_cons. simpl.
  case_decide; simpl; by rewrite IH.
Qed.

Lemma drop_txs_items f m removed :
  (∀ n tx, sm_items m !! n = Some tx → tx_Nonce tx = n) →
  removed ≡ₚ txs_of (dropped f (sm_items m)) → sm_items (drop_txs removed m) = kept f (sm_items m).
Proof.
  intros Hk Hr. simpl. apply map_eq. intros n. rewrite kept_lookup.
  replace (foldr (λ tx items, delete (tx_Nonce tx) items) (sm_items m) removed)
    with (foldr (λ k its, delete k its) (sm_items m) (tx_Nonce <$> removed)) by (apply foldr_fmap).
  rewrite foldr_delete_lookup.
  assert (Hiff : n ∈ tx_Nonce <$> removed ↔ is_Some (dropped f (sm_items m) !! n)).
  { rewrite Hr, keyed_nonces; [apply map_keys_elem|].
    intros k tx [Hn _]%map_lookup_filter_Some. by apply Hk. }
  unfold dropped in Hiff. rewrite map_lookup_filter in Hiff.
  destruct (sm_items m !! n) as [tx|] eqn:Htx; simpl in *; [|by case_decide].
  destruct (decide (n ∈ tx_Nonce <$> removed)) as [Hd|Hd]; destruct (f tx) eqn:Hf; try done.
  - apply Hiff in Hd. by case_guard; destruct Hd.
  - destruct Hd. apply Hiff. by case_guard.
Qed.

Lemma filterSorted_spec f m :
  sm_ok m →
  sm_items (filterSorted f m).1 = kept f (sm_items m) ∧
  (filterSorted f m).2 = filter (λ tx, f tx = true) (sorted_txs (sm_items m)) ∧
  ((filterSorted f m).2 = [] → sm_ok (filterSorted f m).1).
Proof.
  intros Hok. destruct (flatten_spec m Hok) as (Hok' & Hi & Hx & Hs). unfold filterSorted.
  destruct (flatten m) as [m' sorted]. simpl in Hok', Hi, Hx, Hs. subst sorted. cbn [fst snd].
  split_and!; [|done|].
  - rewrite <- Hi. apply drop_txs_items; [apply Hok'|apply sorted_txs_dropped].
  - intros ->. by destruct m'.
Qed.

Lemma FilterSorted_spec f m :
  sm_ok m →
  sm_ok (FilterSorted f m).1 ∧ sm_items (FilterSorted f m).1 = kept f (sm_items m) ∧
  (FilterSorted f m).2 = filter (λ tx, f tx = true) (sorted_txs (sm_items m)).
Proof.
  intros Hok. pose proof (filterSorted_spec f m Hok) as (Hi & Hr & Hn). unfold FilterSorted.
  destruct (filterSorted f m) as [m' removed]. simpl in *.
  destruct removed as [|tx removed]; simpl; split_and!; try done; [by apply Hn|].
  apply reheap_ok. rewrite Hi. apply kept_keyed, Hok.
Qed.

(** *** [Cap] *)

Lemma cap_loop_spec n threshold items index drops :
  (n ≤ length index)%nat → NoDup index →
  cap_loop n threshold items index drops =
    (foldr (λ k its, delete k its) items (drop threshold (take n index)),
     drops ++ reverse ((λ k, items !!! k) <$> drop threshold (take n index))).
Proof.
  revert items drops. induction n as [|n IH]; intros items drops Hn Hnd; cbn [cap_loop].
  { rewrite take_0, drop_nil. simpl. by rewrite app_nil_r. }
  destruct (Nat.ltb_spec threshold (S n)) as [Hlt|Hge].
  2: { rewrite drop_ge by (rewrite length_take; lia). simpl. by rewrite app_nil_r. }
  destruct (lookup_lt_is_Some_2 index n ltac:(lia)) as [k Hk].
  rewrite (list_lookup_total_correct _ _ _ Hk), IH by (done || lia).
  rewrite (take_S_r _ _ _ Hk), drop_app_le by (rewrite length_take; lia).
  rewrite foldr_app, fmap_app, reverse_app. simpl. f_equal. rewrite <- app_assoc. do 3 f_equal.
  apply list_fmap_ext. intros i k' Hk'%list_elem_of_lookup_2. rewrite !lookup_total_alt.
  rewrite lookup_delete_ne; [done|]. intros <-. apply (subseteq_drop _ _ k) in Hk'.
  apply list_elem_of_lookup in Hk' as [j Hj]. apply lookup_take_Some in Hj as [Hj Hjn].
  pose proof (NoDup_lookup _ _ _ _ Hnd Hk Hj). lia.
Qed.

Lemma sorted_heap (l : list Z) : StronglySorted Z.le l → is_heap l.
Proof.
  intros Hs c [Hc Hlt] _. unfold Heap.le, less, nonce_less. apply Z.ltb_ge.
  assert (Hp : (parent c < c)%nat) by (by apply parent_lt).
  rewrite <- (take_drop c l) in Hs.
  apply (StronglySorted_app_1_elem_of _ _ _ _ _ Hs).
  - apply list_elem_of_lookup. exists (parent c). rewrite lookup_take_lt by done.
    apply list_lookup_lookup_total_lt. lia.
  - apply list_elem_of_lookup. exists 0%nat. rewrite lookup_drop, Nat.add_0_r.
    by apply list_lookup_lookup_total_lt.
Qed.

Lemma Cap_spec threshold m :
  sm_ok m →
  sm_ok (Cap threshold m).1 ∧ (Cap threshold m).2 = reverse (drop threshold (sorted_txs (sm_items m))) ∧
  sorted_txs (sm_items (Cap threshold m).1) = take threshold (sorted_txs (sm_items m)) ∧
  sm_items (Cap threshold m).1 ⊆ sm_items m.
Proof.
  intros Hok. pose proof Hok as [Hh Hp Hk Hc]. set (items := sm_items m) in *. unfold Cap. fold items.
  assert (Hix : merge_sort Z.le (sm_index m) = sorted_keys items).
  { symmetry. apply sorted_keys_unique; [apply StronglySorted_merge_sort; apply _|].
    by rewrite merge_sort_Permutation. }
  assert (Hlen : length (sorted_keys items) = size items).
  { rewrite sorted_keys_perm, length_fmap. apply length_map_to_list. }
  assert (Hlt : length (sorted_txs items) = size items) by (unfold sorted_txs; by rewrite length_fmap).
  destruct (Nat.leb_spec (size items) threshold) as [Hle|Hgt].
  { simpl. rewrite drop_ge, take_ge by lia. split_and!; [done..|]. by fold items. }
  rewrite Hix, cap_loop_spec, take_ge by (done || lia || apply sorted_keys_NoDup). simpl.
  set (its := foldr _ items _).
  assert (Hits : ∀ k, its !! k = if decide (k ∈ drop threshold (sorted_keys items)) then None else items !! k).
  { intros k. apply foldr_delete_lookup. }
  assert (Hsub : its ⊆ items).
  { apply map_subseteq_spec. intros k tx. rewrite Hits. by case_decide. }
  assert (Hks : sorted_keys its = take threshold (sorted_keys items)).
  { pose proof (sorted_keys_sorted items) as Hs. pose proof (sorted_keys_NoDup items) as Hnd.
    rewrite <- (take_drop threshold (sorted_keys items)) in Hs, Hnd.
    apply sorted_keys_charact.
    - by eapply StronglySorted_app_1_l.
    - by apply NoDup_app in Hnd as [? _].
    - intros k. rewrite Hits. apply NoDup_app in Hnd as (_ & Hdis & _).
      pose proof (sorted_keys_elem items k) as He. rewrite <- (take_drop threshold (sorted_keys items)), elem_of_app in He.
      case_decide; [|naive_solver]. split; [naive_solver|by intros [? ?]]. }
  assert (Hst : sorted_txs its = take threshold (sorted_txs items)).
  { rewrite (sorted_txs_agree its items).
    - rewrite Hks. unfold sorted_txs. by rewrite fmap_take.
    - intros k [tx Htx]. rewrite !lookup_total_alt, Htx. by rewrite (lookup_weaken _ _ _ _ Htx Hsub). }
  split_and!; [split; simpl|..]; try done.
  - rewrite <- Hks. apply sorted_heap, sorted_keys_sorted.
  - by rewrite <- Hks, sorted_keys_perm.
  - intros n tx Hn. apply Hk. by eapply lookup_weaken.
  - intros c. destruct (sm_cache m) as [c0|]; [|done]. simpl. intros [= <-].
    rewrite Hst, (Hc c0 eq_refl), length_reverse, length_fmap, length_drop. f_equal. lia.
  - unfold sorted_txs. by rewrite fmap_drop.
Qed.

(** *** [Ready] *)

(** Nonces are machine words. *)
Definition u64_keys (items : gmap Z Transaction) : Prop := ∀ n, is_Some (items !! n) → 0 ≤ n < 2 ^ 64.

Lemma u64_keys_sub items items' : u64_keys items → items' ⊆ items → u64_keys items'.
Proof. intros Hu Hs n [tx Htx]. apply Hu. exists tx. by eapply lookup_weaken. Qed.

(** The loop takes the transactions up to the first missing nonce. *)
Lemma ready_loop_spec fuel next items index ready :
  indexed items index → (length index ≤ fuel)%nat → u64_keys items → (∀ k, is_Some (items !! k) → next ≤ k) →
  0 ≤ next < 2 ^ 64 →
  let '(items', index', ready') := ready_loop fuel next items index ready in
  ∃ e, next ≤ e ∧ items' = from e items ∧ indexed items' index' ∧
    ready' = ready ++ sorted_txs (below e items) ∧ items !! e = None ∧ (∀ k, next ≤ k < e → is_Some (items !! k)).
Proof.
  revert next items index ready. induction fuel as [|fuel IH]; intros next items index ready Hi Hf Hu Hmin Hnext;
    cbn [ready_loop].
  { assert (items = ∅) as -> by (eapply indexed_empty; [done|by destruct index; simpl in *; [|lia]]).
    exists next. rewrite from_all, below_none by done. rewrite app_nil_r. split_and!; try done; lia. }
  destruct (decide (index = [])) as [->|Hne].
  { assert (items = ∅) as -> by (by eapply indexed_empty). cbn.
    exists next. rewrite from_all, below_none by done. rewrite app_nil_r. split_and!; try done; lia. }
  rewrite (proj2 (Nat.ltb_lt _ _)) by (destruct index; simpl; [done|lia]). cbn [andb].
  destruct (indexed_pop items index Hi Hne) as (Hn & Hmin' & Hpop & Hi').
  set (n := index !!! 0%nat) in *. destruct (Z.eqb_spec n next) as [->|Hneq].
  - pose proof (indexed_pop_length _ _ _ _ Hi Hi' Hn).
    assert (Hdel : ∀ k, is_Some (delete next items !! k) → next + 1 ≤ k).
    { intros k [tx [Hk Htx]%lookup_delete_Some]. pose proof (Hmin k ltac:(by eexists)). lia. }
    destruct (decide (next = 2 ^ 64 - 1)) as [Hmax|Hmax].
    + assert (Hemp : delete next items = ∅).
      { apply map_empty. intros k. destruct (delete next items !! k) as [tx|] eqn:Hk; [|done].
        pose proof (Hdel k ltac:(by eexists)). apply lookup_delete_Some in Hk as [_ Hk].
        pose proof (Hu k ltac:(by eexists)). lia. }
      assert (Hnil : (Pop index).1 = []).
      { destruct Hi' as [_ Hp]. rewrite Hemp, map_to_list_empty in Hp. by apply Permutation_nil_r in Hp. }
      rewrite Hnil, Hemp.
      assert (Hstop : ∀ its rdy, ready_loop fuel (u64_add next 1) its [] rdy = (its, [], rdy)) by (by destruct fuel).
      rewrite Hstop. exists (next + 1).
      rewrite (below_cons _ next items) by (done || lia). rewrite <- (from_delete _ next) by lia. rewrite Hemp.
      rewrite from_all, below_none by (by intros k [? ?]).
      split_and!; try done; [lia| |].
      * apply eq_None_not_Some. intros Hk%Hu. lia.
      * intros k Hk. by assert (k = next) as -> by lia.
    + replace (u64_add next 1) with (next + 1) by (unfold u64_add; rewrite wrap_small; lia).
      specialize (IH (next + 1) (delete next items) (Pop index).1 (ready ++ [items !!! next]) Hi' ltac:(lia)
        (u64_keys_sub _ _ Hu (delete_subseteq _ _)) Hdel ltac:(lia)).
      destruct (ready_loop _ _ _ _ _) as [[its idx] rdy]. destruct IH as (e & He & -> & Hidx & -> & Hgap & Hrun).
      exists e. rewrite (from_delete e next) in * by lia. rewrite (below_cons e next items) by (done || lia).
      rewrite lookup_delete_ne in Hgap by lia. rewrite <- app_assoc. split_and!; try done; [lia|].
      intros k Hk. destruct (decide (k = next)) as [->|]; [done|].
      destruct (Hrun k ltac:(lia)) as [tx [_ Htx]%lookup_delete_Some]. by exists tx.
  - exists next. rewrite from_all, below_none by done. rewrite app_nil_r. split_and!; try done; try lia.
    apply eq_None_not_Some. intros Hk. pose proof (Hmin' _ Hk). pose proof (Hmin n Hn). lia.
Qed.

(** [Ready] returns the run of consecutive nonces that begins at the lowest one,
    when that one is not above [start]. *)
Lemma Ready_spec start m :
  sm_ok m → u64_keys (sm_items m) →
  ((∀ k, is_Some (sm_items m !! k) → start < k) ∧ Ready start m = (m, [])) ∨
  ∃ n e, is_Some (sm_items m !! n) ∧ (∀ k, is_Some (sm_items m !! k) → n ≤ k) ∧ n ≤ start ∧ n < e ∧
    sm_ok (Ready start m).1 ∧ sm_items (Ready start m).1 = from e (sm_items m) ∧
    (Ready start m).2 = sorted_txs (below e (sm_items m)) ∧
    sm_items m !! e = None ∧ (∀ k, n ≤ k < e → is_Some (sm_items m !! k)).
Proof.
  intros Hok Hu. pose proof Hok as [Hh Hp Hk Hc]. unfold Ready.
  destruct (decide (sm_index m = [])) as [Hnil|Hne].
  { left. rewrite Hnil. simpl. split; [|done]. intros k Hin.
    rewrite (indexed_empty (sm_items m) (sm_index m)) in Hin by done. by destruct Hin. }
  rewrite (proj2 (Nat.eqb_neq _ _)) by (destruct (sm_index m); simpl; [done|lia]). cbn [orb].
  destruct (indexed_pop (sm_items m) (sm_index m) (conj Hh Hp) Hne) as (Hn & Hmin & _ & _).
  set (n := sm_index m !!! 0%nat) in *. destruct (Z.ltb_spec start n) as [Hlt|Hge].
  { left. split; [|done]. intros k Hin%Hmin. lia. }
  right. pose proof (ready_loop_spec (length (sm_index m)) n (sm_items m) (sm_index m) [] (conj Hh Hp)
    ltac:(lia) Hu Hmin (Hu n Hn)) as H.
  destruct (ready_loop _ _ _ _ _) as [[its idx] rdy]. destruct H as (e & He & -> & [Hh' Hp'] & -> & Hgap & Hrun).
  exists n, e. assert (n ≠ e) by (intros ->; by rewrite Hgap in Hn; destruct Hn).
  split_and!; try done; try lia. split; simpl; try done.
  intros k tx [Htx _]%map_lookup_filter_Some. by apply Hk.
Qed.
End SortedMap.
End SM.

(** One of the orders in which Go may iterate over a map. *)
Module ListRange.
#[export] Instance list_range : MapRange := map_to_list.
#[export] Instance list_range_laws : MapRangeLaws.
Proof. by intros m. Qed.
End ListRange.
