(* ===== verification/PoolList.v ===== *)
(** The transaction [list] of an account in the pool
    ([mempool/txpool/legacypool/list.go]): a [SortedMap] with the replacement
    rule, the caps on cost and gas, and the total cost of the transactions. *)
From S2P Require Import Prelude GoStd AccessList Sdk Heap TxList.

Module TL.
Import SM.

(** [list]; [l_costcap] and [l_totalcost] are 256-bit words. *)
Record txlist := mkList {
  l_strict : bool;
  l_txs : SortedMap;
  l_costcap : Z;
  l_gascap : Z;
  l_totalcost : Z;
}.
Definition set_txs (m : SortedMap) (l : txlist) : txlist :=
  mkList (l_strict l) m (l_costcap l) (l_gascap l) (l_totalcost l).
Definition set_caps (costcap gascap : Z) (l : txlist) : txlist :=
  mkList (l_strict l) (l_txs l) costcap gascap (l_totalcost l).
Definition set_total (total : Z) (l : txlist) : txlist :=
  mkList (l_strict l) (l_txs l) (l_costcap l) (l_gascap l) total.

(** The methods return no errors; [subTotalCost] panics. *)
Abbreviation L := (M txlist Empty_set).

(** [uint256.FromBig]: the low 256 bits in two's complement, and whether the
    magnitude did not fit. *)
Definition FromBig (b : Z) : Z * bool := (wrap 256 b, 2 ^ 256 <=? Z.abs b).

(** Run an operation of the sorted map. *)
Definition on_txs {A} (f : SortedMap → SortedMap * A) : L A := λ l,
  let '(m, a) := f (l_txs l) in (set_txs m l, Ok a).

Section List_.
Context `{HR : MapRange}.
Implicit Types l : txlist.

Definition newList (strict : bool) : txlist := mkList strict NewSortedMap 0 0 0.
Definition Contains (nonce : Z) l : bool := bool_decide (is_Some (Get (l_txs l) nonce)).

(** The body of the loop of [subTotalCost]. *)
Definition sub_cost (tx : Transaction) : L unit :=
  let '(cost, overflow) := FromBig (tx_Cost tx) in
  if overflow then panic "uint256: overflow" else
  total ← gets l_totalcost;
  modify (set_total (u256_sub total cost));;
  if total <? cost then panic "totalcost underflow" else mret tt.
Definition subTotalCost (txs : Transactions) : L unit := for_each txs sub_cost.

(** [100 + int64(priceBump)], at the width of [int64]. *)
Definition bump (priceBump : Z) : Z := (100 + priceBump + 2 ^ 63) mod 2 ^ 64 - 2 ^ 63.

(** The end of [Add], once an old transaction has been taken off the total. *)
Definition add_new (tx : Transaction) (old : option Transaction) : L (bool * option Transaction) :=
  let '(cost, overflow) := FromBig (tx_Cost tx) in
  if overflow then mret (false, None) else
  modify (λ l, set_total (u256_add (l_totalcost l) cost) l);;
  on_txs (λ m, (Put tx m, tt));;
  modify (λ l, set_caps (if l_costcap l <? cost then cost else l_costcap l)
                        (if l_gascap l <? tx_Gas tx then tx_Gas tx else l_gascap l) l);;
  mret (true, old).
Definition Add (tx : Transaction) (priceBump : Z) : L (bool * option Transaction) :=
  m ← gets l_txs;
  let old := Get m (tx_Nonce tx) in
  match old with
  | Some old_tx =>
      if (tx_GasFeeCap tx <=? tx_GasFeeCap old_tx) || (tx_GasTipCap tx <=? tx_GasTipCap old_tx)
      then mret (false, None)
      else
        let thresholdFeeCap := bump priceBump * tx_GasFeeCap old_tx / 100 in
        let thresholdTip := bump priceBump * tx_GasTipCap old_tx / 100 in
        if (tx_GasFeeCap tx <? thresholdFeeCap) || (tx_GasTipCap tx <? thresholdTip)
        then mret (false, None)
        else subTotalCost [old_tx];; add_new tx old
  | None => add_new tx old
  end.

Definition Forward (threshold : Z) : L Transactions :=
  txs ← on_txs (SM.Forward threshold);
  subTotalCost txs;;
  mret txs.

Definition filterInvalids (removed : Transactions) : L Transactions :=
  let lowest := foldl (λ lowest tx, if tx_Nonce tx <? lowest then tx_Nonce tx else lowest) (2 ^ 64 - 1) removed in
  on_txs (filter_ (λ tx, lowest <? tx_Nonce tx)).

(** The common end of the two filters. *)
Definition after_filter (removed : Transactions) : L (Transactions * Transactions) :=
  if (length removed =? 0)%nat then mret ([], [])
  else
    strict ← gets l_strict;
    invalids ← (if strict : bool then filterInvalids removed else mret []);
    subTotalCost removed;;
    subTotalCost invalids;;
    on_txs (λ m, (reheap m, tt));;
    mret (removed, invalids).
Definition FilterSorted (f : Transaction → bool) : L (Transactions * Transactions) :=
  removed ← on_txs (filterSorted f); after_filter removed.
Definition Filter (f : Transaction → bool) : L (Transactions * Transactions) :=
  removed ← on_txs (SM.Filter f); after_filter removed.

Definition over (costLimit gasLimit : Z) (tx : Transaction) : bool :=
  (gasLimit <? tx_Gas tx) || (costLimit <? tx_Cost tx).
Definition CostFilter (costLimit gasLimit : Z) : L (Transactions * Transactions) :=
  costcap ← gets l_costcap;
  gascap ← gets l_gascap;
  if (costcap <=? costLimit) && (gascap <=? gasLimit) then mret ([], [])
  else modify (set_caps costLimit gasLimit);; Filter (over costLimit gasLimit).

Definition Cap (threshold : nat) : L Transactions :=
  txs ← on_txs (SM.Cap threshold);
  subTotalCost txs;;
  mret txs.

Definition Remove (tx : Transaction) : L (bool * Transactions) :=
  removed ← on_txs (SM.Remove (tx_Nonce tx));
  if negb removed then mret (false, []) else
  subTotalCost [tx];;
  strict ← gets l_strict;
  if strict : bool then
    txs ← on_txs (SM.Filter (λ tx', tx_Nonce tx <? tx_Nonce tx'));
    subTotalCost txs;;
    mret (true, txs)
  else mret (true, []).

Definition Ready (start : Z) : L Transactions :=
  txs ← on_txs (SM.Ready start);
  subTotalCost txs;;
  mret txs.

Definition Len l : nat := SM.Len (l_txs l).
Definition Empty l : bool := (Len l =? 0)%nat.
Definition Flatten : L Transactions := on_txs SM.Flatten.
(** Indexing the last element of an empty slice panics. *)
Definition LastElement : L Transaction :=
  last ← on_txs SM.LastElement;
  match last with Some tx => mret tx | None => panic "index out of range" end.

(** ** Accounting *)

Lemma set_total_same total l : total = l_totalcost l → set_total total l = l.
Proof. intros ->. by destruct l. Qed.

Definition sum_cost (txs : Transactions) : Z := foldr (λ tx acc, tx_Cost tx + acc) 0 txs.

Lemma sum_cost_app a b : sum_cost (a ++ b) = sum_cost a + sum_cost b.
Proof. induction a as [|tx a IH]; simpl; lia. Qed.
#[global] Instance sum_cost_perm : Proper (Permutation ==> eq) sum_cost.
Proof. induction 1; simpl; lia. Qed.

(** A cost that is a 256-bit word. *)
Definition word_cost (tx : Transaction) : Prop := 0 ≤ tx_Cost tx < 2 ^ 256.

Lemma FromBig_word tx : word_cost tx → FromBig (tx_Cost tx) = (tx_Cost tx, false).
Proof.
  intros H. unfold FromBig. rewrite wrap_small by (done || lia). f_equal.
  apply Z.leb_gt. destruct H. lia.
Qed.

Lemma sum_cost_nonneg txs : Forall word_cost txs → 0 ≤ sum_cost txs.
Proof. induction 1 as [|tx txs [? ?] _ IH]; simpl; lia. Qed.

(** No underflow when the total covers the transactions. *)
Lemma sub_cost_ok tx l :
  word_cost tx → tx_Cost tx ≤ l_totalcost l < 2 ^ 256 →
  sub_cost tx l = (set_total (l_totalcost l - tx_Cost tx) l, Ok tt).
Proof.
  intros Hw Hle. unfold sub_cost. rewrite FromBig_word by done. unfold mbind, M_bind, gets, modify.
  rewrite (proj2 (Z.ltb_ge _ _)) by lia.
  by replace (u256_sub (l_totalcost l) (tx_Cost tx)) with (l_totalcost l - tx_Cost tx)
    by (unfold u256_sub; rewrite wrap_small; destruct Hw; lia).
Qed.

Lemma subTotalCost_ok txs l :
  Forall word_cost txs → sum_cost txs ≤ l_totalcost l < 2 ^ 256 →
  subTotalCost txs l = (set_total (l_totalcost l - sum_cost txs) l, Ok tt).
Proof.
  intros Hw. revert l. induction Hw as [|tx txs Htx Hw IH]; intros l Hsum; simpl in Hsum.
  { unfold subTotalCost; simpl. destruct l; cbn. by rewrite Z.sub_0_r. }
  pose proof (sum_cost_nonneg txs Hw). change (subTotalCost (tx :: txs)) with (sub_cost tx;; subTotalCost txs).
  unfold mbind, M_bind. rewrite sub_cost_ok by (done || lia). rewrite IH by (cbn; destruct Htx; lia).
  f_equal. destruct l; unfold set_total; simpl. f_equal. lia.
Qed.

Lemma subTotalCost_app a b l :
  subTotalCost (a ++ b) l = (subTotalCost a;; subTotalCost b) l.
Proof.
  revert l. induction a as [|tx a IH]; intros l; [done|].
  change (subTotalCost ((tx :: a) ++ b)) with (sub_cost tx;; subTotalCost (a ++ b)).
  change (subTotalCost (tx :: a)) with (sub_cost tx;; subTotalCost a).
  unfold mbind, M_bind in *. destruct (sub_cost tx l) as [l' [[]|[]|p]]; [|done]. apply IH.
Qed.

(** The invariant of a list: the map is well formed, the total is the sum of
    the costs, and the caps bound every transaction. *)
Record acct (l : txlist) : Prop := {
  ac_keyed : ∀ n tx, sm_items (l_txs l) !! n = Some tx → tx_Nonce tx = n;
  ac_cost : ∀ n tx, sm_items (l_txs l) !! n = Some tx → 0 ≤ tx_Cost tx ≤ l_costcap l;
  ac_gas : ∀ n tx, sm_items (l_txs l) !! n = Some tx → tx_Gas tx ≤ l_gascap l;
  ac_u64 : u64_keys (sm_items (l_txs l));
  ac_total : l_totalcost l = sum_cost (txs_of (sm_items (l_txs l)));
  ac_bound : l_totalcost l < 2 ^ 256;
  ac_capw : l_costcap l < 2 ^ 256;
}.
Definition list_ok (l : txlist) : Prop := sm_ok (l_txs l) ∧ acct l.

Lemma newList_ok strict : list_ok (newList strict).
Proof. split; [apply NewSortedMap_ok|]. split; cbn; try done. intros n [? ?]. done. Qed.

(** ** Removing transactions *)

Context `{HRL : !MapRangeLaws}.

Lemma acct_words l : acct l → Forall word_cost (txs_of (sm_items (l_txs l))).
Proof.
  intros H. apply Forall_forall. intros tx Hin%(keyed_txs _ _ (ac_keyed l H)).
  pose proof (ac_cost l H _ _ Hin). pose proof (ac_capw l H). unfold word_cost. lia.
Qed.

(** Taking transactions out of the map and their cost off the total, while the
    caps move to bounds of what is left. *)
Lemma acct_shrink l costcap gascap m removed :
  acct l → txs_of (sm_items (l_txs l)) ≡ₚ removed ++ txs_of (sm_items m) → sm_items m ⊆ sm_items (l_txs l) →
  (∀ n tx, sm_items m !! n = Some tx → tx_Cost tx ≤ costcap ∧ tx_Gas tx ≤ gascap) → costcap < 2 ^ 256 →
  let l1 := set_txs m (set_caps costcap gascap l) in
  let l' := set_total (l_totalcost l - sum_cost removed) l1 in
  subTotalCost removed l1 = (l', Ok tt) ∧ acct l'.
Proof.
  intros Ha Hp Hs Hcap Hcw l1 l'. pose proof (acct_words l Ha) as Hw. rewrite Hp in Hw.
  apply Forall_app in Hw as [Hw1 Hw2]. pose proof (sum_cost_nonneg _ Hw1). pose proof (sum_cost_nonneg _ Hw2).
  destruct Ha as [Hk Hc Hg Hu Ht Hb Hcc]. rewrite Hp, sum_cost_app in Ht. split.
  { apply subTotalCost_ok; [done|]. cbn. lia. }
  split; cbn.
  - intros n tx Hn. apply Hk. by eapply lookup_weaken.
  - intros n tx Hn. pose proof (Hc n tx (lookup_weaken _ _ _ _ Hn Hs)). pose proof (Hcap n tx Hn). lia.
  - intros n tx Hn. by apply (Hcap n tx).
  - by eapply u64_keys_sub.
  - lia.
  - lia.
  - done.
Qed.

(** The same with the caps as they are. *)
Lemma acct_remove l m removed :
  acct l → txs_of (sm_items (l_txs l)) ≡ₚ removed ++ txs_of (sm_items m) → sm_items m ⊆ sm_items (l_txs l) →
  let l' := set_total (l_totalcost l - sum_cost removed) (set_txs m l) in
  subTotalCost removed (set_txs m l) = (l', Ok tt) ∧ acct l'.
Proof.
  intros Ha Hp Hs. pose proof (acct_shrink l (l_costcap l) (l_gascap l) m removed Ha Hp Hs) as H.
  destruct l; cbn in *. apply H; [|apply Ha].
  intros n tx Hn. apply (lookup_weaken _ _ _ _ Hn) in Hs. split; [by eapply (ac_cost _ Ha)|by eapply (ac_gas _ Ha)].
Qed.

(** What an operation that only removes transactions promises: it does not
    panic, keeps the invariant, and splits the transactions. *)
Definition removes {A} (op : L A) (l : txlist) (r : A) (removed : Transactions) (l' : txlist) : Prop :=
  op l = (l', Ok r) ∧ list_ok l' ∧ l_strict l' = l_strict l ∧
  sm_items (l_txs l') ⊆ sm_items (l_txs l) ∧
  txs_of (sm_items (l_txs l)) ≡ₚ removed ++ txs_of (sm_items (l_txs l')).

(** An operation of the map that removes, followed by the accounting. *)
Lemma removes_op {A} (op : SortedMap → SortedMap * Transactions) (ret : Transactions → A) l :
  list_ok l → sm_ok (op (l_txs l)).1 → sm_items (op (l_txs l)).1 ⊆ sm_items (l_txs l) →
  txs_of (sm_items (l_txs l)) ≡ₚ (op (l_txs l)).2 ++ txs_of (sm_items (op (l_txs l)).1) →
  ∃ l', removes (txs ← on_txs op; subTotalCost txs;; mret (ret txs)) l (ret (op (l_txs l)).2) (op (l_txs l)).2 l' ∧
    l_txs l' = (op (l_txs l)).1.
Proof.
  intros [Hok Ha] Hok' Hsub Hp. destruct (acct_remove l _ _ Ha Hp Hsub) as [Hrun Ha'].
  eexists (set_total _ (set_txs (op (l_txs l)).1 l)). split; [|done]. split_and!; [|split; [|exact Ha']|..]; try done.
  unfold mbind, M_bind, on_txs. destruct (op (l_txs l)) as [m txs]. cbn [fst snd] in *. by rewrite Hrun.
Qed.

Lemma Forward_run threshold l :
  list_ok l →
  ∃ l', removes (Forward threshold) l (sorted_txs (below threshold (sm_items (l_txs l))))
          (sorted_txs (below threshold (sm_items (l_txs l)))) l' ∧
    sm_items (l_txs l') = from threshold (sm_items (l_txs l)).
Proof.
  intros Hl. destruct (Forward_spec threshold (l_txs l) (proj1 Hl)) as (H1 & H2 & H3).
  destruct (removes_op (SM.Forward threshold) id l Hl H1) as (l' & Hr & Ht).
  - rewrite H2. apply map_filter_subseteq.
  - rewrite H2, H3. apply below_from.
  - exists l'. rewrite <- H3, Ht. done.
Qed.

Lemma Cap_run threshold l :
  list_ok l →
  let sorted := sorted_txs (sm_items (l_txs l)) in
  ∃ l', removes (Cap threshold) l (reverse (drop threshold sorted)) (reverse (drop threshold sorted)) l' ∧
    sorted_txs (sm_items (l_txs l')) = take threshold sorted.
Proof.
  intros Hl sorted. destruct (Cap_spec threshold (l_txs l) (proj1 Hl)) as (H1 & H2 & H3 & H4).
  destruct (removes_op (SM.Cap threshold) id l Hl H1 H4) as (l' & Hr & Ht).
  - rewrite H2, <- (sorted_txs_perm (sm_items (SM.Cap threshold (l_txs l)).1)), H3, reverse_Permutation.
    by rewrite Permutation_app_comm, take_drop, sorted_txs_perm.
  - exists l'. unfold sorted. rewrite <- H2, Ht. done.
Qed.

Lemma Ready_run start l :
  list_ok l →
  let items := sm_items (l_txs l) in
  ∃ l', (∀ k, is_Some (items !! k) → start < k) ∧ removes (Ready start) l [] [] l' ∧ l' = l ∨
  ∃ n e, is_Some (items !! n) ∧ (∀ k, is_Some (items !! k) → n ≤ k) ∧ n ≤ start ∧ n < e ∧
    removes (Ready start) l (sorted_txs (below e items)) (sorted_txs (below e items)) l' ∧
    sm_items (l_txs l') = from e items ∧ items !! e = None ∧ (∀ k, n ≤ k < e → is_Some (items !! k)).
Proof.
  intros Hl items. destruct (Ready_spec start (l_txs l) (proj1 Hl) (ac_u64 _ (proj2 Hl)))
    as [[H1 H2]|(n & e & Hn & Hmin & Hle & Hlt & H1 & H2 & H3 & H4 & H5)].
  - exists l. left. split_and!; [done| |done]. split_and!; try done.
    unfold Ready, mbind, M_bind, on_txs. rewrite H2. by destruct l.
  - destruct (removes_op (SM.Ready start) id l Hl H1) as (l' & Hr & Ht).
    + rewrite H2. apply map_filter_subseteq.
    + rewrite H2, H3. apply below_from.
    + exists l'. right. exists n, e. unfold items. rewrite <- H3, Ht. by split_and!.
Qed.

(** ** The filters *)

(** The lowest nonce of a list of transactions, from an upper bound. *)
Lemma lowest_spec removed init n :
  n ≤ foldl (λ lowest tx, if tx_Nonce tx <? lowest then tx_Nonce tx else lowest) init removed ↔
  n ≤ init ∧ ∀ tx, tx ∈ removed → n ≤ tx_Nonce tx.
Proof.
  revert init. induction removed as [|tx removed IH]; intros init; simpl.
  { split; [|naive_solver]. intros H. split; [done|]. by intros tx ?%elem_of_nil. }
  rewrite IH. setoid_rewrite elem_of_cons. destruct (Z.ltb_spec (tx_Nonce tx) init); naive_solver lia.
Qed.

(** The transactions that a filter leaves: those it does not select and, in a
    strict list, only those below every selected one. *)
Definition survives (strict : bool) (f : Transaction → bool) (items : gmap Z Transaction) (n : Z) (tx : Transaction) : Prop :=
  items !! n = Some tx ∧ f tx = false ∧
  (strict = true → ∀ n' tx', items !! n' = Some tx' → f tx' = true → n < n').

Lemma survives_lax f items n tx : survives false f items n tx ↔ items !! n = Some tx ∧ f tx = false.
Proof. unfold survives. naive_solver. Qed.
Lemma survives_none strict f items n tx :
  (∀ n tx, items !! n = Some tx → f tx = false) →
  survives strict f items n tx ↔ items !! n = Some tx ∧ f tx = false.
Proof.
  intros H. unfold survives. split; [naive_solver|]. intros [Hn Hf]. split_and!; [done..|].
  intros _ n' tx' Hn' Hf'. by rewrite (H _ _ Hn') in Hf'.
Qed.

(** What a filter promises. *)
Definition filters (op : L (Transactions * Transactions)) (f : Transaction → bool) (l l' : txlist)
    (removed invalids : Transactions) : Prop :=
  removes op l (removed, invalids) (removed ++ invalids) l' ∧
  removed ≡ₚ txs_of (dropped f (sm_items (l_txs l))) ∧
  (∀ n tx, sm_items (l_txs l') !! n = Some tx ↔ survives (l_strict l) f (sm_items (l_txs l)) n tx).

Lemma dropped_elem f items tx :
  (∀ n tx, items !! n = Some tx → tx_Nonce tx = n) →
  tx ∈ txs_of (dropped f items) ↔ items !! tx_Nonce tx = Some tx ∧ f tx = true.
Proof.
  intros Hk. split.
  - intros Hin%keyed_txs; [by apply map_lookup_filter_Some in Hin|].
    intros n tx' [Hn _]%map_lookup_filter_Some. by apply Hk.
  - intros [Hin Hf]. apply list_elem_of_fmap. exists (tx_Nonce tx, tx). split; [done|].
    apply elem_of_map_to_list, map_lookup_filter_Some. done.
Qed.

Lemma filterInvalids_spec f l m1 removed :
  acct l → sm_items m1 = kept f (sm_items (l_txs l)) → removed ≡ₚ txs_of (dropped f (sm_items (l_txs l))) → removed ≠ [] →
  ∃ m2 invalids, (∀ l0, l_txs l0 = m1 → filterInvalids removed l0 = (set_txs m2 l0, Ok invalids)) ∧
    txs_of (sm_items m1) ≡ₚ invalids ++ txs_of (sm_items m2) ∧
    ∀ n tx, sm_items m2 !! n = Some tx ↔ survives true f (sm_items (l_txs l)) n tx.
Proof.
  intros Ha Hm1 Hr Hne. pose proof (ac_keyed l Ha) as Hk. unfold filterInvalids. set (lowest := foldl _ _ _).
  pose proof (lowest_spec removed (2 ^ 64 - 1)) as Hlow. fold lowest in Hlow.
  destruct (filter_spec (λ tx, lowest <? tx_Nonce tx) m1) as (H1 & H2 & _).
  destruct (filter_ (λ tx, lowest <? tx_Nonce tx) m1) as [m2 invalids] eqn:Hfe. cbn [fst snd] in H1, H2.
  exists m2, invalids. split_and!.
  { intros l0 Hl0. unfold on_txs. by rewrite Hl0, Hfe. }
  { rewrite H2, H1. apply kept_dropped. }
  intros n tx. rewrite H1, kept_lookup, Hm1. split.
  - rewrite kept_lookup. destruct (sm_items (l_txs l) !! n) as [tx'|] eqn:Hn; simpl; [|done].
    destruct (f tx') eqn:Hf; simpl; [done|]. destruct (Z.ltb_spec lowest (tx_Nonce tx')) as [|Hle]; [done|].
    intros [= ->]. split_and!; [done..|]. intros _ n' tx' Hn' Hf'.
    apply Hlow in Hle as [_ Hle]. rewrite (Hk n tx Hn) in Hle.
    assert (n ≤ n') by (rewrite <- (Hk n' tx' Hn'); apply Hle; rewrite Hr; apply dropped_elem; [done|]; by rewrite (Hk _ _ Hn')).
    assert (n ≠ n') by (intros ->; congruence). lia.
  - intros (Hn & Hf & Hlt). rewrite kept_lookup, Hn. simpl. rewrite Hf. simpl.
    rewrite (proj2 (Z.ltb_ge _ _)); [done|]. rewrite (Hk n tx Hn). apply Hlow. split.
    + pose proof (ac_u64 l Ha n ltac:(by eexists)). lia.
    + intros tx' Hin. rewrite Hr in Hin. apply dropped_elem in Hin as [Hn' Hf']; [|done].
      pose proof (Hlt eq_refl _ _ Hn' Hf'). lia.
Qed.

(** The common end of the filters, from the list [l] whose map has been
    filtered into [m1]; the caps may have been lowered. *)
Lemma after_filter_run f l costcap gascap m1 removed :
  acct l → sm_items m1 = kept f (sm_items (l_txs l)) → removed ≡ₚ txs_of (dropped f (sm_items (l_txs l))) →
  (removed = [] → sm_ok m1) →
  (∀ n tx, kept f (sm_items (l_txs l)) !! n = Some tx → tx_Cost tx ≤ costcap ∧ tx_Gas tx ≤ gascap) → costcap < 2 ^ 256 →
  ∃ l' invalids, after_filter removed (set_txs m1 (set_caps costcap gascap l)) = (l', Ok (removed, invalids)) ∧
    list_ok l' ∧ l_strict l' = l_strict l ∧ sm_items (l_txs l') ⊆ sm_items (l_txs l) ∧
    txs_of (sm_items (l_txs l)) ≡ₚ (removed ++ invalids) ++ txs_of (sm_items (l_txs l')) ∧
    (∀ n tx, sm_items (l_txs l') !! n = Some tx ↔ survives (l_strict l) f (sm_items (l_txs l)) n tx).
Proof.
  intros Ha Hm1 Hr Hnil Hcap Hcw. pose proof (ac_keyed l Ha) as Hk.
  set (l1 := set_txs m1 (set_caps costcap gascap l)).
  assert (Hkd : txs_of (sm_items (l_txs l)) ≡ₚ removed ++ txs_of (sm_items m1)) by (rewrite Hm1, Hr; apply kept_dropped).
  assert (Hnone : removed = [] → ∀ n tx, sm_items (l_txs l) !! n = Some tx → f tx = false).
  { intros -> n tx Hn. destruct (f tx) eqn:Hf; [|done]. apply Permutation_nil_l in Hr.
    assert (tx ∈ txs_of (dropped f (sm_items (l_txs l)))) as Hin.
    { apply dropped_elem; [done|]. by rewrite (Hk n tx Hn). }
    rewrite <- Hr in Hin. by apply elem_of_nil in Hin. }
  assert (Hkl : ∀ n tx, sm_items m1 !! n = Some tx ↔ sm_items (l_txs l) !! n = Some tx ∧ f tx = false).
  { intros n tx. rewrite Hm1. unfold kept. by rewrite map_lookup_filter_Some. }
  unfold after_filter. destruct (Nat.eqb_spec (length removed) 0) as [->%nil_length_inv|Hne].
  { specialize (Hnil eq_refl). specialize (Hnone eq_refl).
    destruct (acct_shrink l costcap gascap m1 [] Ha Hkd) as [_ Ha']; [|by rewrite Hm1|done|].
    { apply map_subseteq_spec. intros n tx [? _]%Hkl. done. }
    exists l1, []. split_and!; try done.
    - split; [done|]. rewrite set_total_same in Ha' by apply Z.sub_0_r. done.
    - apply map_subseteq_spec. intros n tx [? _]%Hkl. done.
    - intros n tx. rewrite survives_none by done. apply Hkl. }
  assert (Hr0 : removed ≠ []) by (by intros ->).
  assert (Hinv : ∃ m2 invalids,
    (if l_strict l then filterInvalids removed else mret []) l1 = (set_txs m2 l1, Ok invalids) ∧
    txs_of (sm_items m1) ≡ₚ invalids ++ txs_of (sm_items m2) ∧
    ∀ n tx, sm_items m2 !! n = Some tx ↔ survives (l_strict l) f (sm_items (l_txs l)) n tx).
  { destruct (l_strict l).
    - destruct (filterInvalids_spec f l m1 removed Ha Hm1 Hr Hr0) as (m2 & inv & Hrun & Hp & Hs).
      exists m2, inv. by rewrite (Hrun l1 eq_refl).
    - exists m1, []. split_and!; [done..|]. intros n tx. rewrite survives_lax. apply Hkl. }
  destruct Hinv as (m2 & inv & Hrun & Hp & Hs).
  assert (Hsub : sm_items m2 ⊆ sm_items (l_txs l)) by (apply map_subseteq_spec; intros n tx [? _]%Hs; done).
  assert (Hpp : txs_of (sm_items (l_txs l)) ≡ₚ (removed ++ inv) ++ txs_of (sm_items m2)) by (by rewrite Hkd, Hp, app_assoc).
  destruct (acct_shrink l costcap gascap m2 (removed ++ inv) Ha Hpp Hsub) as [Hsc Ha']; [|done|].
  { intros n tx (Hn & Hf & _)%Hs. apply Hcap with n. by apply map_lookup_filter_Some. }
  set (l2 := set_total _ _) in Hsc, Ha'. change (set_txs m2 (set_caps costcap gascap l)) with (set_txs m2 l1) in Hsc.
  exists (set_txs (reheap m2) l2), inv. split_and!; try done.
  - unfold mbind, M_bind, gets. change (l_strict l1) with (l_strict l). rewrite Hrun.
    rewrite subTotalCost_app in Hsc. unfold mbind, M_bind in Hsc.
    destruct (subTotalCost removed (set_txs m2 l1)) as [l3 [[]| |]]; [|done..]. by rewrite Hsc.
  - split; [apply reheap_ok; apply Ha'|]. by destruct Ha'.
Qed.

Lemma Filter_run f l : list_ok l → ∃ l' removed invalids, filters (Filter f) f l l' removed invalids.
Proof.
  intros [Hok Ha]. destruct (Filter_spec f (l_txs l) Hok) as (H1 & H2 & H3).
  destruct (after_filter_run f l (l_costcap l) (l_gascap l) _ _ Ha H2 H3) as (l' & inv & Hrun & Hrest); [done| |apply Ha|].
  { intros n tx [Hn _]%map_lookup_filter_Some. split; [by eapply (ac_cost _ Ha)|by eapply (ac_gas _ Ha)]. }
  exists l', (SM.Filter f (l_txs l)).2, inv. destruct Hrest as (? & ? & ? & ? & ?). split_and!; [split_and!|..]; try done.
Qed.

Lemma FilterSorted_run f l :
  list_ok l →
  ∃ l' invalids, filters (FilterSorted f) f l l' (filter (λ tx, f tx = true) (sorted_txs (sm_items (l_txs l)))) invalids.
Proof.
  intros [Hok Ha]. destruct (filterSorted_spec f (l_txs l) Hok) as (H1 & H2 & H3).
  destruct (after_filter_run f l (l_costcap l) (l_gascap l) _ (filterSorted f (l_txs l)).2 Ha H1)
    as (l' & inv & Hrun & Hrest); [|done| |apply Ha|].
  { rewrite H2. apply sorted_txs_dropped. }
  { intros n tx [Hn _]%map_lookup_filter_Some. split; [by eapply (ac_cost _ Ha)|by eapply (ac_gas _ Ha)]. }
  exists l', inv. rewrite <- H2. destruct Hrest as (? & ? & ? & ? & ?). split_and!; [split_and!|..]; try done.
  - unfold FilterSorted, mbind, M_bind, on_txs. destruct (filterSorted f (l_txs l)), l. apply Hrun.
  - rewrite H2. apply sorted_txs_dropped.
Qed.

(** The short circuit of [CostFilter] is sound, because the caps bound every
    transaction: it filters exactly what is over the limits. *)
Lemma CostFilter_run costLimit gasLimit l :
  list_ok l → costLimit < 2 ^ 256 →
  ∃ l' removed invalids, filters (CostFilter costLimit gasLimit) (over costLimit gasLimit) l l' removed invalids.
Proof.
  intros [Hok Ha] Hlim. unfold CostFilter.
  destruct ((l_costcap l <=? costLimit) && (l_gascap l <=? gasLimit)) eqn:Hshort.
  - apply andb_true_iff in Hshort as [Hc%Z.leb_le Hg%Z.leb_le].
    assert (Hf : ∀ n tx, sm_items (l_txs l) !! n = Some tx → over costLimit gasLimit tx = false).
    { intros n tx Hn. pose proof (ac_cost _ Ha n tx Hn). pose proof (ac_gas _ Ha n tx Hn).
      unfold over. apply orb_false_iff. rewrite !Z.ltb_ge. lia. }
    exists l, [], []. split_and!; [split_and!|..]; try done.
    + unfold mbind, M_bind, gets. by rewrite (proj2 (Z.leb_le _ _) Hc), (proj2 (Z.leb_le _ _) Hg).
    + unfold dropped. replace (filter _ _) with (∅ : gmap Z Transaction); [done|]. symmetry.
      apply map_empty. intros n. apply map_lookup_filter_None. right. intros tx Hn. simpl. by rewrite (Hf n tx Hn).
    + intros n tx. rewrite survives_none by done. split; [|by intros [? _]]. intros Hn. split; [done|by eapply Hf].
  - destruct (Filter_spec (over costLimit gasLimit) (l_txs l) Hok) as (H1 & H2 & H3).
    destruct (after_filter_run _ l costLimit gasLimit _ _ Ha H2 H3) as (l' & inv & Hrun & Hrest); [done| |done|].
    { intros n tx [_ Hn]%map_lookup_filter_Some. cbn [snd] in Hn. apply orb_false_iff in Hn. rewrite !Z.ltb_ge in Hn. lia. }
    exists l', (SM.Filter (over costLimit gasLimit) (l_txs l)).2, inv. destruct Hrest as (? & ? & ? & ? & ?). split_and!; [split_and!|..]; try done.
    unfold mbind, M_bind, gets, modify. rewrite Hshort. unfold Filter, mbind, M_bind, on_txs.
    change (l_txs (set_caps costLimit gasLimit l)) with (l_txs l).
    destruct (SM.Filter (over costLimit gasLimit) (l_txs l)). apply Hrun.
Qed.

(** ** [Remove] *)

Lemma txs_of_delete items n tx : items !! n = Some tx → txs_of items ≡ₚ tx :: txs_of (delete n items).
Proof. intros H. unfold txs_of. by rewrite <- (map_to_list_delete items n tx H). Qed.

Lemma Remove_absent tx l :
  sm_items (l_txs l) !! tx_Nonce tx = None → Remove tx l = (l, Ok (false, [])).
Proof.
  intros H. unfold Remove, mbind, M_bind, on_txs, SM.Remove. rewrite H. cbn [negb]. by destruct l.
Qed.

(** Removing a transaction of the list; in strict mode the transactions above it
    go with it. *)
Lemma Remove_run tx l :
  list_ok l → sm_items (l_txs l) !! tx_Nonce tx = Some tx →
  ∃ l' invalids, removes (Remove tx) l (true, invalids) (tx :: invalids) l' ∧
    ∀ n tx', sm_items (l_txs l') !! n = Some tx' ↔
      sm_items (l_txs l) !! n = Some tx' ∧ n ≠ tx_Nonce tx ∧ (l_strict l = true → n < tx_Nonce tx).
Proof.
  intros [Hok Ha] Htx. destruct (Remove_spec (tx_Nonce tx) (l_txs l) Hok) as (H1 & H2 & H3).
  destruct (acct_remove l (SM.Remove (tx_Nonce tx) (l_txs l)).1 [tx] Ha) as [Hrun Ha1].
  { rewrite H2. by apply txs_of_delete. }
  { rewrite H2. apply delete_subseteq. }
  set (l1 := set_total _ _) in Hrun, Ha1.
  assert (Hstep : Remove tx l = (strict ← gets l_strict;
    if strict : bool then
      txs ← on_txs (SM.Filter (λ tx', tx_Nonce tx <? tx_Nonce tx')); subTotalCost txs;; mret (true, txs)
    else mret (true, [])) l1).
  { unfold Remove, mbind, M_bind. unfold on_txs at 1. destruct (SM.Remove _ _) as [m b]. cbn [fst snd] in *.
    rewrite H3, Htx. cbn -[subTotalCost]. by rewrite Hrun. }
  assert (Hl1 : list_ok l1) by done. assert (Hi1 : sm_items (l_txs l1) = delete (tx_Nonce tx) (sm_items (l_txs l))) by done.
  assert (Hp1 : txs_of (sm_items (l_txs l)) ≡ₚ tx :: txs_of (sm_items (l_txs l1))) by (rewrite Hi1; by apply txs_of_delete).
  assert (Hd : ∀ n tx', sm_items (l_txs l1) !! n = Some tx' ↔ sm_items (l_txs l) !! n = Some tx' ∧ n ≠ tx_Nonce tx).
  { intros n tx'. rewrite Hi1, lookup_delete_Some. naive_solver. }
  assert (Hst : l_strict l1 = l_strict l) by done. clearbody l1. destruct (l_strict l) eqn:Hstrict.
  - set (g := λ tx', tx_Nonce tx <? tx_Nonce tx') in *.
    destruct (Filter_spec g (l_txs l1) (proj1 Hl1)) as (F1 & F2 & F3).
    destruct (removes_op (SM.Filter g) (pair true) l1 Hl1 F1) as (l' & (R1 & R2 & R3 & R4 & R5) & Ht).
    { rewrite F2. apply map_filter_subseteq. }
    { rewrite F2, F3. apply kept_dropped. }
    assert (Hi' : sm_items (l_txs l') = kept g (sm_items (l_txs l1))) by (by rewrite Ht).
    exists l', (SM.Filter g (l_txs l1)).2. split; [split_and!|].
    + rewrite Hstep. unfold mbind at 1, M_bind at 1, gets at 1. by rewrite Hst, <- R1.
    + done.
    + congruence.
    + transitivity (sm_items (l_txs l1)); [done|]. rewrite Hi1. apply delete_subseteq.
    + by rewrite Hp1, R5.
    + intros n tx'. rewrite Hi'. unfold kept. rewrite map_lookup_filter_Some, Hd. cbn [snd]. unfold g. rewrite Z.ltb_ge.
      split.
      * intros ([Hn Hne] & Hle). rewrite (ac_keyed _ Ha n tx' Hn) in Hle. split_and!; [done..|lia].
      * intros (Hn & Hne & Hlt). rewrite (ac_keyed _ Ha n tx' Hn). specialize (Hlt eq_refl). split_and!; [done..|lia].
  - exists l1, []. split; [split_and!|].
    + rewrite Hstep. unfold mbind at 1, M_bind at 1, gets at 1. by rewrite Hst.
    + done.
    + congruence.
    + rewrite Hi1. apply delete_subseteq.
    + done.
    + intros n tx'. rewrite Hd. naive_solver.
Qed.

(** ** [Add] *)

(** The replacement rule: the fee cap and the tip are higher, and by the bump. *)
Definition outbids (priceBump : Z) (old tx : Transaction) : Prop :=
  tx_GasFeeCap old < tx_GasFeeCap tx ∧ tx_GasTipCap old < tx_GasTipCap tx ∧
  bump priceBump * tx_GasFeeCap old / 100 ≤ tx_GasFeeCap tx ∧
  bump priceBump * tx_GasTipCap old / 100 ≤ tx_GasTipCap tx.
#[global] Instance outbids_dec priceBump old tx : Decision (outbids priceBump old tx).
Proof. unfold outbids. apply _. Defined.

Lemma Add_cases tx priceBump l :
  Add tx priceBump l =
  match sm_items (l_txs l) !! tx_Nonce tx with
  | Some old =>
      if decide (outbids priceBump old tx) then (subTotalCost [old];; add_new tx (Some old)) l
      else (l, Ok (false, None))
  | None => add_new tx None l
  end.
Proof.
  unfold Add, Get, mbind at 1, M_bind at 1, gets at 1.
  destruct (sm_items (l_txs l) !! tx_Nonce tx) as [old|]; [|done].
  destruct (_ || _) eqn:H1.
  { rewrite decide_False; [done|]. intros (A & B & _). apply orb_true_iff in H1. rewrite !Z.leb_le in H1. lia. }
  destruct ((_ <? _) || _) eqn:H2.
  { rewrite decide_False; [done|]. intros (_ & _ & A & B). apply orb_true_iff in H2. rewrite !Z.ltb_lt in H2. lia. }
  rewrite decide_True; [done|]. apply orb_false_iff in H1, H2. rewrite !Z.leb_gt in H1. rewrite !Z.ltb_ge in H2.
  unfold outbids. lia.
Qed.

Lemma txs_of_insert items n tx :
  sum_cost (txs_of (<[n := tx]> items)) = sum_cost (txs_of items) - default 0 (tx_Cost <$> items !! n) + tx_Cost tx.
Proof.
  rewrite (txs_of_delete (<[n := tx]> items) n tx) by apply lookup_insert_eq. rewrite delete_insert_eq. simpl.
  destruct (items !! n) as [old|] eqn:Hold; simpl.
  - rewrite (txs_of_delete items n old Hold). simpl. lia.
  - rewrite delete_id by done. lia.
Qed.

Definition old_cost (l : txlist) (n : Z) : Z := default 0 (tx_Cost <$> sm_items (l_txs l) !! n).

(** Inserting keeps the invariant: the caps grow to the new transaction. *)
Lemma add_new_run tx old l :
  list_ok l → word_cost tx → 0 ≤ tx_Nonce tx < 2 ^ 64 →
  l_totalcost l - old_cost l (tx_Nonce tx) + tx_Cost tx < 2 ^ 256 →
  ∃ l', add_new tx old (set_total (l_totalcost l - old_cost l (tx_Nonce tx)) l) = (l', Ok (true, old)) ∧ list_ok l' ∧
    l_strict l' = l_strict l ∧ sm_items (l_txs l') = <[tx_Nonce tx := tx]> (sm_items (l_txs l)).
Proof.
  intros [Hok Ha] Hw Hn Hsum. destruct (Put_spec tx (l_txs l) Hok) as [Hok' Hi].
  assert (Hpos : 0 ≤ l_totalcost l - old_cost l (tx_Nonce tx)).
  { rewrite (ac_total _ Ha). unfold old_cost. destruct (sm_items (l_txs l) !! tx_Nonce tx) as [o|] eqn:Ho; simpl.
    - rewrite (txs_of_delete _ _ _ Ho). simpl. pose proof (acct_words l Ha) as Hf.
      rewrite (txs_of_delete _ _ _ Ho) in Hf. apply Forall_cons in Hf as [_ Hf].
      pose proof (sum_cost_nonneg _ Hf). lia.
    - pose proof (sum_cost_nonneg _ (acct_words l Ha)). lia. }
  unfold add_new. rewrite FromBig_word by done. unfold mbind, M_bind, modify, on_txs, mret, M_ret.
  eexists. split; [reflexivity|]. destruct Ha as [Hk Hc Hg Hu Ht Hb Hcw], Hw as [Hw0 Hw1].
  split_and!; [|done|done]. split; [done|].
  set (t := l_totalcost l - old_cost l (tx_Nonce tx)) in *.
  assert (Hadd : u256_add t (tx_Cost tx) = t + tx_Cost tx) by (unfold u256_add; rewrite wrap_small; lia).
  unfold set_total, set_caps, set_txs. cbn [l_totalcost l_txs l_costcap l_gascap l_strict].
  split; cbn [l_totalcost l_txs l_costcap l_gascap l_strict]; rewrite ?Hi.
  - intros n tx' [[<- <-]|[_ Hn']]%lookup_insert_Some; [done|]. by apply Hk.
  - intros n tx' [[<- <-]|[_ Hn']]%lookup_insert_Some; [|apply Hc in Hn'];
      destruct (Z.ltb_spec (l_costcap l) (tx_Cost tx)); lia.
  - intros n tx' [[<- <-]|[_ Hn']]%lookup_insert_Some; [|apply Hg in Hn'];
      destruct (Z.ltb_spec (l_gascap l) (tx_Gas tx)); lia.
  - intros n [tx' [[<- <-]|[_ Hn']]%lookup_insert_Some]; [done|]. apply Hu. by exists tx'.
  - rewrite Hadd, txs_of_insert, <- Ht. done.
  - lia.
  - destruct (Z.ltb_spec (l_costcap l) (tx_Cost tx)); lia.
Qed.

Lemma old_cost_sub l n old :
  list_ok l → sm_items (l_txs l) !! n = Some old →
  subTotalCost [old] l = (set_total (l_totalcost l - old_cost l n) l, Ok tt).
Proof.
  intros [_ Ha] Hold. pose proof (acct_words l Ha) as Hw. rewrite (txs_of_delete _ _ _ Hold) in Hw.
  apply Forall_cons in Hw as [Ho Hf]. pose proof (sum_cost_nonneg _ Hf).
  rewrite subTotalCost_ok; [|by constructor|].
  - unfold old_cost. rewrite Hold. cbn [sum_cost foldr fmap option_fmap option_map default]. by rewrite Z.add_0_r.
  - pose proof (ac_bound _ Ha). rewrite (ac_total _ Ha) in *. rewrite (txs_of_delete _ _ _ Hold) in *.
    cbn [sum_cost foldr] in *. fold (sum_cost (txs_of (delete n (sm_items (l_txs l))))) in *. lia.
Qed.

(** An acceptable transaction is inserted, and the one it replaces returned. *)
Lemma Add_run tx priceBump l :
  list_ok l → word_cost tx → 0 ≤ tx_Nonce tx < 2 ^ 64 →
  l_totalcost l - old_cost l (tx_Nonce tx) + tx_Cost tx < 2 ^ 256 →
  (∀ old, sm_items (l_txs l) !! tx_Nonce tx = Some old → outbids priceBump old tx) →
  ∃ l', Add tx priceBump l = (l', Ok (true, sm_items (l_txs l) !! tx_Nonce tx)) ∧ list_ok l' ∧
    l_strict l' = l_strict l ∧ sm_items (l_txs l') = <[tx_Nonce tx := tx]> (sm_items (l_txs l)).
Proof.
  intros Hl Hw Hn Hsum Hout. destruct (add_new_run tx (sm_items (l_txs l) !! tx_Nonce tx) l Hl Hw Hn Hsum) as (l' & Hrun & Hrest).
  exists l'. split; [|done]. rewrite Add_cases. destruct (sm_items (l_txs l) !! tx_Nonce tx) as [old|] eqn:Hold.
  - rewrite decide_True by (by apply Hout). unfold mbind, M_bind.
    by rewrite (old_cost_sub l _ old Hl Hold).
  - rewrite set_total_same in Hrun; [done|]. unfold old_cost. rewrite Hold. apply Z.sub_0_r.
Qed.
End List_.
(** The first transactions of a list are a prefix of its nonces. *)
Lemma keyed_sorted_keys (its : gmap Z Transaction) :
  (∀ n tx, its !! n = Some tx → tx_Nonce tx = n) → tx_Nonce <$> sorted_txs its = sorted_keys its.
Proof.
  intros Hk. unfold sorted_txs. rewrite <- list_fmap_compose. rewrite <- (list_fmap_id (sorted_keys its)) at 2.
  apply list_fmap_ext. intros i n Hn%list_elem_of_lookup_2%sorted_keys_elem. destruct Hn as [tx Htx]. cbn.
  rewrite lookup_total_alt, Htx. by apply Hk.
Qed.

Lemma take_prefix (its its' : gmap Z Transaction) k a n :
  (∀ n tx, its !! n = Some tx → tx_Nonce tx = n) → its' ⊆ its → sorted_txs its' = take k (sorted_txs its) →
  is_Some (its' !! a) → is_Some (its !! n) → n ≤ a → is_Some (its' !! n).
Proof.
  intros Hk Hs Ht Ha Hn Hle.
  assert (Hkeys : sorted_keys its' = take k (sorted_keys its)).
  { rewrite <- (keyed_sorted_keys its Hk), <- (keyed_sorted_keys its'), Ht, fmap_take; [done|].
    intros m tx Hm. apply Hk. by eapply lookup_weaken. }
  rewrite <- sorted_keys_elem in Ha, Hn |- *. rewrite Hkeys in *.
  pose proof (sorted_keys_sorted its) as Hss.
  rewrite <- (take_drop k (sorted_keys its)) in Hn, Hss. apply elem_of_app in Hn as [|Hn]; [done|].
  pose proof (StronglySorted_app_1_elem_of _ _ _ _ _ Hss Ha Hn). assert (n = a) as -> by lia. done.
Qed.
End TL.
