(* ===== verification/PoolProps.v ===== *)
(** The correctness of the transaction lists of the pool: the invariant of
    every reachable list, the replacement rule, the cached cost filter against
    the plain one, runs of executable nonces, strict lists without gaps. *)
From S2P Require Import Prelude GoStd AccessList Sdk Heap TxList PoolList.
Import SM TL.

(** ** The operations as steps *)

Inductive op :=
| OAdd (tx : Transaction) (priceBump : Z)
| OForward (threshold : Z)
| OCostFilter (costLimit gasLimit : Z)
| OFilter (f : Transaction → bool)
| OFilterSorted (f : Transaction → bool)
| OCap (threshold : nat)
| ORemove (tx : Transaction)
| OReady (start : Z)
| OFlatten
| OLastElement.

Section Pool.
Context `{HR : MapRange, HRL : !MapRangeLaws}.
Implicit Types l : txlist.

Abbreviation items l := (sm_items (l_txs l)).

Definition exec (o : op) : L unit :=
  match o with
  | OAdd tx priceBump => Add tx priceBump;; mret tt
  | OForward threshold => Forward threshold;; mret tt
  | OCostFilter costLimit gasLimit => CostFilter costLimit gasLimit;; mret tt
  | OFilter f => Filter f;; mret tt
  | OFilterSorted f => FilterSorted f;; mret tt
  | OCap threshold => Cap threshold;; mret tt
  | ORemove tx => Remove tx;; mret tt
  | OReady start => Ready start;; mret tt
  | OFlatten => Flatten;; mret tt
  | OLastElement => LastElement;; mret tt
  end.

(** What a caller owes: costs are words and their sum fits, a removed
    transaction is the one of the list, the last element exists. *)
Definition admissible (o : op) l : Prop :=
  match o with
  | OAdd tx _ => word_cost tx ∧ 0 ≤ tx_Nonce tx < 2 ^ 64 ∧ l_totalcost l + tx_Cost tx < 2 ^ 256
  | OCostFilter costLimit _ => costLimit < 2 ^ 256
  | ORemove tx => items l !! tx_Nonce tx = Some tx ∨ items l !! tx_Nonce tx = None
  | OLastElement => items l ≠ ∅
  | _ => True
  end.

Inductive reachable (strict : bool) : txlist → Prop :=
| reach_new : reachable strict (newList strict)
| reach_step l l' o r : reachable strict l → admissible o l → exec o l = (l', r) → reachable strict l'.

(** Nothing between two transactions of [its'] is missing from it that [its] has. *)
Definition convex (its its' : gmap Z Transaction) : Prop :=
  its' ⊆ its ∧ ∀ a b k, is_Some (its' !! a) → is_Some (its' !! b) → a ≤ k ≤ b → is_Some (its !! k) → is_Some (its' !! k).
Definition gap_free (its : gmap Z Transaction) : Prop :=
  ∀ a b k, is_Some (its !! a) → is_Some (its !! b) → a ≤ k ≤ b → is_Some (its !! k).

Lemma gap_free_convex its its' : gap_free its → convex its its' → gap_free its'.
Proof.
  intros Hg [Hs Hc] a b k [x Ha] [y Hb] Hk. apply (Hc a b k); [by eexists..|done|].
  apply (Hg a b); [exists x|exists y|done]; by eapply lookup_weaken.
Qed.

(** A run, as a step forgets its result. *)
Lemma exec_forget {A} (m : L A) l l' a : m l = (l', Ok a) → (m;; mret tt) l = (l', Ok tt).
Proof. intros H. unfold mbind, M_bind. by rewrite H. Qed.

(** ** Convexity of what the operations leave *)

Lemma convex_refl its : convex its its.
Proof. split; [done|]. intros a b k _ _ _ H. done. Qed.

Lemma convex_from e its : convex its (from e its).
Proof.
  split; [apply map_filter_subseteq|]. intros a b k [x [Ha Hae]%map_lookup_filter_Some] _ Hk [y Hy].
  exists y. apply map_lookup_filter_Some. split; [done|]. cbn in *. lia.
Qed.

(** A prefix: whatever is below something that stays also stays. *)
Lemma convex_prefix its its' :
  its' ⊆ its → (∀ a k, is_Some (its' !! a) → is_Some (its !! k) → k ≤ a → is_Some (its' !! k)) → convex its its'.
Proof. intros Hs Hp. split; [done|]. intros a b k _ Hb Hk Hin. by apply (Hp b k); [..|lia]. Qed.

Lemma convex_take its its' k :
  (∀ n tx, its !! n = Some tx → tx_Nonce tx = n) → its' ⊆ its →
  sorted_txs its' = take k (sorted_txs its) → convex its its'.
Proof. intros Hk Hs Ht. apply convex_prefix; [done|]. intros a n Ha Hn. by eapply (take_prefix its its' k). Qed.

Lemma convex_survives f its its' :
  (∀ n tx, its' !! n = Some tx ↔ survives true f its n tx) → convex its its'.
Proof.
  intros H. apply convex_prefix.
  - apply map_subseteq_spec. intros n tx (Hn & _)%H. done.
  - intros a k [x (Ha & Hf & Hlt)%H] [y Hy] Hle. exists y. apply H. split_and!; [done|..].
    + destruct (f y) eqn:Hfy; [|done]. pose proof (Hlt eq_refl k y Hy Hfy). lia.
    + intros _ n' tx' Hn' Hf'. pose proof (Hlt eq_refl n' tx' Hn' Hf'). lia.
Qed.

(** ** Every operation from a well-formed list *)

(** What an operation leaves of the transactions. *)
Definition leaves (o : op) l l' : Prop :=
  match o with
  | OAdd tx _ => items l' = items l ∨ items l' = <[tx_Nonce tx := tx]> (items l)
  | _ => items l' ⊆ items l ∧ (l_strict l = true → convex (items l) (items l'))
  end.
Definition good_step (o : op) l : Prop :=
  ∃ l', exec o l = (l', Ok tt) ∧ list_ok l' ∧ l_strict l' = l_strict l ∧ leaves o l l'.

Lemma filters_step op' f l l' removed invalids :
  filters op' f l l' removed invalids →
  (op';; mret tt) l = (l', Ok tt) ∧ list_ok l' ∧ l_strict l' = l_strict l ∧
  items l' ⊆ items l ∧ (l_strict l = true → convex (items l) (items l')).
Proof.
  intros ((Hrun & Hok & Hst & Hsub & _) & _ & Hsv). split_and!; try done; [by eapply exec_forget|].
  intros Hs. rewrite Hs in Hsv. by eapply convex_survives.
Qed.

(** The nonce is free or the new transaction outbids the one that has it. *)
Definition accepts (priceBump : Z) l (tx : Transaction) : Prop :=
  ∀ old, items l !! tx_Nonce tx = Some old → outbids priceBump old tx.
Lemma accepts_or priceBump l tx :
  accepts priceBump l tx ∨ ∃ old, items l !! tx_Nonce tx = Some old ∧ ¬ outbids priceBump old tx.
Proof.
  unfold accepts. destruct (items l !! tx_Nonce tx) as [old|]; [|by left].
  destruct (decide (outbids priceBump old tx)); [left; by intros ? [= <-]|right; by exists old].
Qed.
Lemma old_cost_nonneg l n : list_ok l → 0 ≤ old_cost l n.
Proof.
  intros Hl. unfold old_cost. destruct (items l !! n) as [o|] eqn:Ho; cbn; [|lia].
  by apply (ac_cost _ (proj2 Hl) _ _ Ho).
Qed.

Lemma add_step tx priceBump l : list_ok l → admissible (OAdd tx priceBump) l → good_step (OAdd tx priceBump) l.
Proof.
  intros Hl (Hw & Hn & Hsum). unfold good_step, exec, leaves.
  destruct (accepts_or priceBump l tx) as [Hall|(old & Ho & Hno)].
  - pose proof (old_cost_nonneg l (tx_Nonce tx) Hl).
    destruct (Add_run tx priceBump l Hl Hw Hn ltac:(lia) Hall) as (l' & Hrun & Hok & Hst & Hi).
    exists l'. split_and!; try done; [by eapply exec_forget|by right].
  - exists l. split_and!; [|done|done|by left]. eapply exec_forget. by rewrite Add_cases, Ho, decide_False.
Qed.

Lemma remove_step tx l : list_ok l → admissible (ORemove tx) l → good_step (ORemove tx) l.
Proof.
  intros Hl [Htx|Hno]; unfold good_step, exec, leaves.
  - destruct (Remove_run tx l Hl Htx) as (l' & inv & (Hrun & Hok & Hst & Hsub & _) & Hi).
    exists l'. split_and!; try done; [by eapply exec_forget|]. intros Hs. apply convex_prefix; [done|].
    intros a k [x (Ha & Hne & Hlt)%Hi] [y Hy] Hle. specialize (Hlt Hs). exists y. apply Hi. split_and!; [done|lia|lia].
  - exists l. split_and!; [|done..|]. { eapply exec_forget. by apply Remove_absent. }
    intros _. apply convex_refl.
Qed.

Lemma list_ok_items l m : list_ok l → sm_ok m → sm_items m = items l → list_ok (set_txs m l).
Proof. intros [_ []] Hm Hi. split; [done|]. split; cbn; rewrite ?Hi; done. Qed.

Lemma flatten_step l : list_ok l → good_step OFlatten l ∧ (items l ≠ ∅ → good_step OLastElement l).
Proof.
  intros Hl. destruct (flatten_spec (l_txs l) (proj1 Hl)) as (H1 & H2 & _ & H3).
  assert (Hok : list_ok (set_txs (flatten (l_txs l)).1 l)) by (by apply list_ok_items).
  assert (Hl' : ∀ o, (match o with OAdd _ _ => False | _ => True end) → leaves o l (set_txs (flatten (l_txs l)).1 l)).
  { intros o Ho. destruct o; [done|..]; cbn; rewrite H2; (split; [done|intros _; apply convex_refl]). }
  split; [|intros Hne]; exists (set_txs (flatten (l_txs l)).1 l); (split_and!; [|done|done|by apply Hl']).
  - unfold exec, Flatten, SM.Flatten, on_txs, mbind, M_bind. by destruct (flatten (l_txs l)).
  - unfold exec, LastElement, SM.LastElement, on_txs, mbind, M_bind. destruct (flatten (l_txs l)) as [m c]. cbn in H3 |- *.
    destruct (last c) eqn:Hc; [done|]. apply last_None in Hc. destruct Hne.
    apply map_to_list_empty_iff, (fmap_nil_inv snd), Permutation_nil. rewrite <- Hc, H3. exact (sorted_txs_perm (items l)).
Qed.

Lemma step_ok o l : list_ok l → admissible o l → good_step o l.
Proof.
  intros Hl Hadm. destruct o; cbn [admissible] in Hadm.
  - by apply add_step.
  - destruct (Forward_run threshold l Hl) as (l' & (Hrun & Hok & Hst & Hsub & _) & Hi).
    exists l'. split_and!; [by eapply exec_forget|done|done|]. split; [done|]. intros _. rewrite Hi. apply convex_from.
  - destruct (CostFilter_run costLimit gasLimit l Hl Hadm) as (l' & r & i & Hf). exists l'. by eapply filters_step.
  - destruct (Filter_run f l Hl) as (l' & r & i & Hf). exists l'. by eapply filters_step.
  - destruct (FilterSorted_run f l Hl) as (l' & i & Hf). exists l'. by eapply filters_step.
  - destruct (Cap_run threshold l Hl) as (l' & (Hrun & Hok & Hst & Hsub & _) & Hi).
    exists l'. split_and!; [by eapply exec_forget|done|done|]. split; [done|]. intros _.
    eapply convex_take; [apply (ac_keyed _ (proj2 Hl))|done|exact Hi].
  - by apply remove_step.
  - destruct (Ready_run start l Hl) as (l' & [(_ & (Hrun & _) & ->)|(n & e & _ & _ & _ & _ & (Hrun & Hok & Hst & Hsub & _) & Hi & _)]).
    + exists l. split_and!; [by eapply exec_forget|done|done|]. split; [done|]. intros _. apply convex_refl.
    + exists l'. split_and!; [by eapply exec_forget|done|done|]. split; [done|]. intros _. rewrite Hi. apply convex_from.
  - by apply flatten_step.
  - by apply flatten_step.
Qed.

(** ** Loops *)

Lemma pop_length (index : list Z) : index ≠ [] → is_heap index → length index = S (length (Pop index).1).
Proof. intros Hne Hh. destruct (Pop_spec index Hh Hne) as (_ & Hp & _). by rewrite <- Hp at 1. Qed.

Lemma forward_loop_fuel fuel threshold its index removed :
  is_heap index → (length index ≤ fuel)%nat →
  forward_loop fuel threshold its index removed = forward_loop (length index) threshold its index removed.
Proof.
  remember (length index) as n eqn:Hn. revert fuel its index removed Hn.
  induction n as [|n IH]; intros fuel its index removed Hn Hh Hf.
  { destruct index; [|done]. by destruct fuel. }
  destruct fuel as [|fuel]; [lia|]. cbn [forward_loop].
  destruct (_ && _) eqn:Hg; [|done]. destruct (Pop index) as [index' nonce] eqn:Hp.
  assert (Hne : index ≠ []) by (by intros ->). pose proof (pop_length index Hne Hh) as Hl.
  destruct (Pop_spec index Hh Hne) as (_ & _ & Hh' & _). rewrite Hp in Hl, Hh'. cbn [fst] in Hl, Hh'.
  apply IH; [lia|done|lia].
Qed.

Lemma ready_loop_fuel fuel next its index ready :
  is_heap index → (length index ≤ fuel)%nat →
  ready_loop fuel next its index ready = ready_loop (length index) next its index ready.
Proof.
  remember (length index) as n eqn:Hn. revert fuel next its index ready Hn.
  induction n as [|n IH]; intros fuel next its index ready Hn Hh Hf.
  { destruct index; [|done]. by destruct fuel. }
  destruct fuel as [|fuel]; [lia|]. cbn [ready_loop]. destruct (_ && _) eqn:Hg; [|done].
  assert (Hne : index ≠ []) by (by intros ->). pose proof (pop_length index Hne Hh) as Hl.
  destruct (Pop_spec index Hh Hne) as (_ & _ & Hh' & _). apply IH; [lia|done|lia].
Qed.

(** ** Runs of nonces and gaps *)

Lemma below_elem e its k : is_Some (its !! k) ∧ k < e ↔ is_Some (below e its !! k).
Proof. unfold is_Some, below. setoid_rewrite map_lookup_filter_Some. naive_solver. Qed.

Lemma run_keys (its : gmap Z Transaction) n e :
  n ≤ e → (∀ k, is_Some (its !! k) ↔ n ≤ k < e) → sorted_keys its = seqZ n (e - n).
Proof.
  intros Hle H. apply sorted_keys_charact.
  - unfold seqZ. apply (StronglySorted_fmap _ lt); [intros; lia|]. clear. generalize 0%nat.
    induction (Z.to_nat (e - n)) as [|c IH]; intros s; cbn; constructor; [done|].
    apply Forall_forall. intros x [? _]%elem_of_seq. lia.
  - apply NoDup_seqZ.
  - intros k. rewrite elem_of_seqZ, H. lia.
Qed.

(** A transaction that replaces one of the list, follows one, or is the first. *)
Definition follows (o : op) l : Prop :=
  match o with
  | OAdd tx _ => items l = ∅ ∨ is_Some (items l !! tx_Nonce tx) ∨ is_Some (items l !! (tx_Nonce tx - 1))
  | _ => True
  end.

Lemma gap_free_insert its n (tx : Transaction) :
  gap_free its → its = ∅ ∨ is_Some (its !! n) ∨ is_Some (its !! (n - 1)) → gap_free (<[n := tx]> its).
Proof.
  intros Hg Hf a b k Ha Hb Hk. destruct (decide (k = n)) as [->|Hne]; [by rewrite lookup_insert_eq|].
  rewrite lookup_insert_ne by done. rewrite !lookup_insert_is_Some in Ha, Hb.
  destruct Hf as [->|Hf]; [destruct Ha as [->|[_ [? ?]]], Hb as [->|[_ [? ?]]]; done || lia|].
  destruct Ha as [->|[Han Ha]], Hb as [->|[Hbn Hb]]; [lia|..].
  - destruct Hf as [Hf|Hf]; [by apply (Hg a b)|by apply (Hg (a - 1) b); [..|lia]].
  - destruct Hf as [Hf|Hf]; [by apply (Hg a b)|by apply (Hg a (b - 1)); [..|lia]].
  - by apply (Hg a b).
Qed.

(** ** The properties *)

(** Every list built from an empty one by operations whose callers keep
    their side of the contract is well formed: the heap indexes exactly the
    transactions, a cached order is the order of the nonces, [totalcost] is the
    sum of the costs and the caps bound every transaction.  From such a list
    every admissible operation returns: [subTotalCost] never underflows. *)
Theorem list_invariant strict l :
  reachable strict l →
  list_ok l ∧ l_strict l = strict ∧ ∀ o, admissible o l → ∃ l', exec o l = (l', Ok tt) ∧ list_ok l'.
Proof.
  intros Hr. assert (Hinv : list_ok l ∧ l_strict l = strict).
  { induction Hr as [|l l' o r _ [IH1 IH2] Hadm Hrun]; [split; [apply newList_ok|done]|].
    destruct (step_ok o l IH1 Hadm) as (l'' & Hrun' & Hok & Hst & _). rewrite Hrun in Hrun'.
    injection Hrun' as <- _. split; congruence. }
  destruct Hinv as [Hl Hst]. split_and!; [done..|]. intros o Hadm.
  destruct (step_ok o l Hl Hadm) as (l' & ? & ? & _). by exists l'.
Qed.

(** The caps that [CostFilter] caches do not change its result: it leaves
    the transactions, removes the ones over the limits and invalidates the same
    others as filtering the whole list would. *)
Theorem CostFilter_equiv_Filter costLimit gasLimit l :
  list_ok l → costLimit < 2 ^ 256 →
  ∃ l1 l2 removed1 removed2 invalids1 invalids2,
    CostFilter costLimit gasLimit l = (l1, Ok (removed1, invalids1)) ∧
    Filter (over costLimit gasLimit) l = (l2, Ok (removed2, invalids2)) ∧
    items l1 = items l2 ∧ l_totalcost l1 = l_totalcost l2 ∧ removed1 ≡ₚ removed2 ∧ invalids1 ≡ₚ invalids2.
Proof.
  intros Hl Hlim. destruct (CostFilter_run costLimit gasLimit l Hl Hlim) as (l1 & r1 & i1 & (Hr1 & Ho1 & _ & _ & Hp1) & Hd1 & Hs1).
  destruct (Filter_run (over costLimit gasLimit) l Hl) as (l2 & r2 & i2 & (Hr2 & Ho2 & _ & _ & Hp2) & Hd2 & Hs2).
  assert (Hi : items l1 = items l2).
  { apply map_eq. intros n. apply option_eq. intros tx. by rewrite Hs1, Hs2. }
  exists l1, l2, r1, r2, i1, i2. split_and!; try done.
  - by rewrite (ac_total _ (proj2 Ho1)), (ac_total _ (proj2 Ho2)), Hi.
  - by rewrite Hd1, Hd2.
  - rewrite Hp1, Hi, Hd1, <- Hd2 in Hp2. by apply Permutation_app_inv_r, Permutation_app_inv_l in Hp2.
Qed.

(** [Ready] returns nothing when the lowest nonce is above [start];
    otherwise it returns the transactions of the lowest nonce and of every nonce
    after it, in order and up to the first one missing, and removes exactly
    those. *)
Theorem Ready_maximal_run start l :
  list_ok l →
  ∃ l' ready, Ready start l = (l', Ok ready) ∧ list_ok l' ∧
  ((ready = [] ∧ l' = l ∧ ∀ k, is_Some (items l !! k) → start < k) ∨
   ∃ n e, n ≤ start ∧ n < e ∧ (∀ k, is_Some (items l !! k) → n ≤ k) ∧ items l !! e = None ∧
     tx_Nonce <$> ready = seqZ n (e - n) ∧ (∀ tx, tx ∈ ready → items l !! tx_Nonce tx = Some tx) ∧
     items l' = from e (items l)).
Proof.
  intros Hl. pose proof (ac_keyed _ (proj2 Hl)) as Hk.
  destruct (Ready_run start l Hl) as (l' & [(H1 & (H2 & H3 & _) & ->)|(n & e & Hn & Hmin & Hle & Hlt & (H1 & H2 & _) & H3 & H4 & H5)]).
  { exists l, []. split_and!; [done..|by left]. }
  exists l', (sorted_txs (below e (items l))). split_and!; [done..|]. right. exists n, e. split_and!; try done.
  - rewrite keyed_sorted_keys by (intros m tx [Hm _]%map_lookup_filter_Some; by apply Hk).
    apply run_keys; [lia|]. intros k. rewrite <- (below_elem e (items l) k). split; [|intros Hin; split; [by apply H5|lia]].
    intros [Hin He]. split; [by apply Hmin|done].
  - intros tx Hin. rewrite sorted_txs_perm in Hin. apply keyed_txs in Hin.
    + by apply map_lookup_filter_Some in Hin as [? _].
    + intros m tx' [Hm _]%map_lookup_filter_Some. by apply Hk.
Qed.

(** A strict list without gaps stays so under every operation, when the
    transactions added to it replace one or follow one: the filters, [Remove]
    and [Cap] of a strict list take away everything above what they remove, and
    [Forward] and [Ready] take away a prefix. *)
Theorem strict_no_gaps o l l' r :
  list_ok l → l_strict l = true → gap_free (items l) → admissible o l → follows o l →
  exec o l = (l', r) → gap_free (items l').
Proof.
  intros Hl Hst Hg Hadm Hf Hrun. destruct (step_ok o l Hl Hadm) as (l'' & Hrun' & _ & _ & Hlv).
  rewrite Hrun in Hrun'. injection Hrun' as -> _. destruct o; cbn [leaves follows] in *;
    [|eapply gap_free_convex; [done|by apply Hlv]..].
  destruct Hlv as [->| ->]; [done|]. by apply gap_free_insert.
Qed.

(** [Add] accepts a transaction exactly when its nonce is free or it beats
    both prices of the transaction that has it, strictly and by the bump; it then
    replaces that one and returns it, and otherwise changes nothing. *)
Theorem Add_replacement_rule tx priceBump l :
  list_ok l → word_cost tx → 0 ≤ tx_Nonce tx < 2 ^ 64 → l_totalcost l + tx_Cost tx < 2 ^ 256 →
  ∃ l' inserted old, Add tx priceBump l = (l', Ok (inserted, old)) ∧ list_ok l' ∧
    (inserted = true ↔ accepts priceBump l tx) ∧
    (inserted = true → old = items l !! tx_Nonce tx ∧ items l' = <[tx_Nonce tx := tx]> (items l) ∧
       l_totalcost l' = l_totalcost l - old_cost l (tx_Nonce tx) + tx_Cost tx) ∧
    (inserted = false → old = None ∧ l' = l).
Proof.
  intros Hl Hw Hn Hsum. pose proof (old_cost_nonneg l (tx_Nonce tx) Hl).
  destruct (accepts_or priceBump l tx) as [Hall|(old & Ho & Hno)].
  - destruct (Add_run tx priceBump l Hl Hw Hn ltac:(lia) Hall) as (l' & Hrun & Hok & _ & Hi).
    exists l', true, (items l !! tx_Nonce tx). split_and!; try done. intros _. split_and!; [done..|].
    rewrite (ac_total _ (proj2 Hok)), (ac_total _ (proj2 Hl)), Hi. apply txs_of_insert.
  - exists l, false, None. split_and!; try done.
    + by rewrite Add_cases, Ho, decide_False.
    + split; [done|]. intros Hacc. by destruct Hno; apply Hacc.
Qed.

(** A replacement whose cost does not fit 256 bits is refused, but only
    after the cost of the transaction it would replace was taken off the total:
    the old transaction stays in the list and its cost is no longer counted. *)
Theorem Add_overflow_uncounts tx old priceBump l :
  list_ok l → items l !! tx_Nonce tx = Some old → outbids priceBump old tx → 2 ^ 256 ≤ tx_Cost tx →
  Add tx priceBump l = (set_total (l_totalcost l - tx_Cost old) l, Ok (false, None)) ∧
  (0 < tx_Cost old → ¬ list_ok (set_total (l_totalcost l - tx_Cost old) l)).
Proof.
  intros Hl Ho Hb Hc. split.
  - rewrite Add_cases, Ho, decide_True by done. unfold mbind, M_bind. rewrite (old_cost_sub l _ old Hl Ho).
    unfold old_cost. rewrite Ho. unfold add_new, FromBig. by rewrite (proj2 (Z.leb_le _ _)) by lia.
  - intros Hpos [_ Ha']. pose proof (ac_total _ Ha') as Ht. pose proof (ac_total _ (proj2 Hl)) as Ht'. cbn in Ht. lia.
Qed.

(** The loops of [Forward] and of [Ready] end within as many rounds as
    there are nonces in the heap: more rounds change nothing. *)
Theorem loops_terminate fuel threshold next its index acc :
  is_heap index → (length index ≤ fuel)%nat →
  forward_loop fuel threshold its index acc = forward_loop (length index) threshold its index acc ∧
  ready_loop fuel next its index acc = ready_loop (length index) next its index acc.
Proof. intros Hh Hf. split; [by apply forward_loop_fuel|by apply ready_loop_fuel]. Qed.

(** The sorted map implements a finite map from nonces to transactions
    with iteration in the order of the nonces: every operation keeps the index
    and the cache consistent, acts on the items as on a plain map, and returns
    what the plain map determines. *)
Theorem sorted_map_refines m tx nonce f threshold :
  sm_ok m →
  let its := sm_items m in
  (sm_ok (Put tx m) ∧ sm_items (Put tx m) = <[tx_Nonce tx := tx]> its) ∧
  (sm_ok (SM.Remove nonce m).1 ∧ sm_items (SM.Remove nonce m).1 = delete nonce its ∧
     (SM.Remove nonce m).2 = bool_decide (is_Some (its !! nonce))) ∧
  (sm_ok (SM.Forward nonce m).1 ∧ sm_items (SM.Forward nonce m).1 = filter (λ kv, nonce ≤ kv.1) its ∧
     (SM.Forward nonce m).2 = sorted_txs (filter (λ kv, kv.1 < nonce) its)) ∧
  (sm_ok (SM.Filter f m).1 ∧ sm_items (SM.Filter f m).1 = filter (λ kv, f kv.2 = false) its ∧
     (SM.Filter f m).2 ≡ₚ txs_of (filter (λ kv, f kv.2 = true) its)) ∧
  (sm_ok (SM.FilterSorted f m).1 ∧ sm_items (SM.FilterSorted f m).1 = filter (λ kv, f kv.2 = false) its ∧
     (SM.FilterSorted f m).2 = filter (λ tx, f tx = true) (sorted_txs its)) ∧
  (sm_ok (SM.Cap threshold m).1 ∧ sorted_txs (sm_items (SM.Cap threshold m).1) = take threshold (sorted_txs its) ∧
     (SM.Cap threshold m).2 = reverse (drop threshold (sorted_txs its))) ∧
  (sm_ok (SM.Flatten m).1 ∧ sm_items (SM.Flatten m).1 = its ∧ (SM.Flatten m).2 = sorted_txs its).
Proof.
  intros Hok its. split_and!; try (by apply Put_spec); try (by apply Remove_spec); try (by apply Forward_spec);
    try (by apply Filter_spec); try (by apply FilterSorted_spec); try (by apply Cap_spec); by apply flatten_spec.
Qed.
End Pool.

(** ** Concrete lists *)

Import ListRange.

Module PoolWitness.
Definition t0 : Transaction := mkTx 100 0 21000 10 2 500 120 [].
Definition t1 : Transaction := mkTx 101 1 21000 10 2 700 120 [].
Definition t1' : Transaction := mkTx 111 1 30000 11 3 900 120 [].
Definition big1 : Transaction := mkTx 121 1 30000 20 9 (2 ^ 256) 120 [].
Definition t3 : Transaction := mkTx 103 3 21000 10 2 100 120 [].
(** A pending list with nonces 0 and 1, and a queue with nonces 0, 1 and 3. *)
Definition pending : txlist := fst ((exec (OAdd t0 10);; exec (OAdd t1 10)) (newList true)).
Definition queue : txlist := fst ((exec (OAdd t3 10);; exec (OAdd t0 10);; exec (OAdd t1 10)) (newList false)).

Lemma add_reaches strict tx l :
  reachable strict l → admissible (OAdd tx 10) l → reachable strict (fst (exec (OAdd tx 10) l)).
Proof. intros Hr Ha. eapply reach_step; [done|exact Ha|]. apply surjective_pairing. Qed.
Lemma pending_reachable : reachable true pending.
Proof.
  replace pending with (fst (exec (OAdd t1 10) (fst (exec (OAdd t0 10) (newList true))))) by (by vm_compute).
  apply add_reaches; [apply add_reaches; [constructor|]|]; split_and!; by vm_compute.
Qed.
Lemma queue_reachable : reachable false queue.
Proof.
  replace queue with (fst (exec (OAdd t1 10) (fst (exec (OAdd t0 10) (fst (exec (OAdd t3 10) (newList false)))))))
    by (by vm_compute).
  do 3 (apply add_reaches; [|split_and!; by vm_compute]). constructor.
Qed.

Lemma reachable_ok strict l : reachable strict l → list_ok l.
Proof.
  induction 1 as [|l l' o r _ IH Hadm Hrun]; [apply newList_ok|].
  destruct (step_ok o l IH Hadm) as (l'' & Hrun' & Hok & _). rewrite Hrun in Hrun'. by injection Hrun' as <- _.
Qed.
End PoolWitness.
Import PoolWitness.

Lemma list_invariant_witness :
  ∃ l', exec (OForward 1) pending = (l', Ok tt) ∧ list_ok l'.
Proof. apply (list_invariant true pending); [apply pending_reachable|done]. Defined.

Lemma CostFilter_equiv_Filter_witness :
  ∃ l1 l2 removed1 removed2 invalids1 invalids2,
    CostFilter 600 50000 queue = (l1, Ok (removed1, invalids1)) ∧
    Filter (over 600 50000) queue = (l2, Ok (removed2, invalids2)) ∧
    sm_items (l_txs l1) = sm_items (l_txs l2) ∧ l_totalcost l1 = l_totalcost l2 ∧ removed1 ≡ₚ removed2 ∧ invalids1 ≡ₚ invalids2.
Proof. apply CostFilter_equiv_Filter; [eapply reachable_ok, queue_reachable|by vm_compute]. Defined.

Lemma Ready_maximal_run_witness : ∃ l' ready, Ready 0 queue = (l', Ok ready) ∧ list_ok l'.
Proof.
  destruct (Ready_maximal_run 0 queue) as (l' & ready & Hrun & Hok & _); [eapply reachable_ok, queue_reachable|].
  by exists l', ready.
Defined.

Lemma strict_no_gaps_witness : gap_free (sm_items (l_txs (fst (exec (ORemove t0) pending)))).
Proof.
  apply (strict_no_gaps (ORemove t0) pending _ (snd (exec (ORemove t0) pending)));
    [eapply reachable_ok, pending_reachable|done| |by left|done|by destruct (exec _ _)].
  intros a b k Ha Hb Hk. rewrite <- sorted_keys_elem in Ha, Hb |- *.
  assert (Hs : sorted_keys (sm_items (l_txs pending)) = [0; 1]) by (by vm_compute). rewrite Hs in *.
  rewrite !elem_of_cons, elem_of_nil in *. lia.
Defined.

Lemma Add_replacement_rule_witness :
  ∃ l' inserted old, Add t1' 10 pending = (l', Ok (inserted, old)) ∧ list_ok l'.
Proof.
  destruct (Add_replacement_rule t1' 10 pending) as (l' & i & o & Hrun & Hok & _); [..|by exists l', i, o];
    [eapply reachable_ok, pending_reachable|split; by vm_compute..|by vm_compute].
Defined.

Lemma Add_overflow_uncounts_witness :
  ¬ list_ok (set_total (l_totalcost pending - tx_Cost t1) pending).
Proof.
  apply (Add_overflow_uncounts big1 t1 10 pending); [eapply reachable_ok, pending_reachable|by vm_compute| |done|done].
  split_and!; by vm_compute.
Defined.

Lemma loops_terminate_witness :
  forward_loop 9 2 ∅ [0; 1; 3] [] = forward_loop 3 2 ∅ [0; 1; 3] [].
Proof.
  apply (loops_terminate 9 2 0 ∅ [0; 1; 3] []); [|cbn; lia].
  apply sorted_heap. repeat constructor; lia.
Defined.

Lemma sorted_map_refines_witness : sm_items (Put t3 (l_txs pending)) = <[3 := t3]> (sm_items (l_txs pending)).
Proof.
  apply (sorted_map_refines (l_txs pending) t3 0 (λ _, true) 1). apply (reachable_ok true), pending_reachable.
Defined.
