(* ===== verification/Reserver.v ===== *)
(** Two small state machines of the pool: the reservations that keep an account
    in one subpool ([mempool/reserver/reserver.go]) and the virtual nonces of
    the executable transactions ([mempool/txpool/legacypool/noncer.go]). *)
From S2P Require Import Prelude GoStd AccessList.

(** ** Reservations *)

Module RV.
(** [ReservationTracker.accounts]: the subpool that reserved an address. *)
Abbreviation ReservationTracker := (gmap Address Z).
Inductive ReserverError := ErrAlreadyReserved | ErrNotReserved | ErrNotOwned.
Abbreviation R := (M ReservationTracker ReserverError).

Definition NewReservationTracker : ReservationTracker := ∅.

(** The handle of the subpool [self].  The loop of [Hold] returns on the first
    address that is reserved already, without an error when [self] owns it. *)
Fixpoint Hold (self : Z) (addrs : list Address) : R unit :=
  match addrs with
  | [] => mret tt
  | addr :: rest =>
      owner ← gets (lookup addr);
      match owner with
      | Some owner => if owner =? self then mret tt else throw ErrAlreadyReserved
      | None => modify (insert addr self);; Hold self rest
      end
  end.

Fixpoint Release (self : Z) (addrs : list Address) : R unit :=
  match addrs with
  | [] => mret tt
  | addr :: rest =>
      owner ← gets (lookup addr);
      match owner with
      | None => throw ErrNotReserved
      | Some owner =>
          if negb (owner =? self) then throw ErrNotOwned
          else modify (delete addr);; Release self rest
      end
  end.

Definition Has (self : Z) (address : Address) (t : ReservationTracker) : bool :=
  match t !! address with Some owner => negb (owner =? self) | None => false end.

Lemma Hold_cons self addr rest t :
  Hold self (addr :: rest) t =
  match t !! addr with
  | Some owner => if owner =? self then (t, Ok tt) else (t, Err ErrAlreadyReserved)
  | None => Hold self rest (<[addr := self]> t)
  end.
Proof. unfold Hold, mbind, M_bind, gets. destruct (t !! addr) as [owner|]; [by destruct (owner =? self)|done]. Qed.

Lemma Release_cons self addr rest t :
  Release self (addr :: rest) t =
  match t !! addr with
  | None => (t, Err ErrNotReserved)
  | Some owner => if owner =? self then Release self rest (delete addr t) else (t, Err ErrNotOwned)
  end.
Proof. unfold Release, mbind, M_bind, gets. destruct (t !! addr) as [owner|]; [by destruct (owner =? self)|done]. Qed.

(** Reserving free addresses. *)
Lemma Hold_free self addrs t :
  NoDup addrs → (∀ a, a ∈ addrs → t !! a = None) →
  Hold self addrs t = (foldl (λ acc a, <[a := self]> acc) t addrs, Ok tt).
Proof.
  intros Hnd. revert t. induction Hnd as [|a addrs Ha Hnd IH]; intros t Hfree; [done|].
  rewrite Hold_cons, Hfree by left. cbn. apply IH. intros b Hb. rewrite lookup_insert_ne by set_solver.
  apply Hfree. by right.
Qed.

Lemma Release_held self addrs t :
  NoDup addrs → (∀ a, a ∈ addrs → t !! a = Some self) →
  Release self addrs t = (foldl (λ acc a, delete a acc) t addrs, Ok tt).
Proof.
  intros Hnd. revert t. induction Hnd as [|a addrs Ha Hnd IH]; intros t Hown; [done|].
  rewrite Release_cons, Hown, Z.eqb_refl by left. cbn. apply IH. intros b Hb. rewrite lookup_delete_ne by set_solver.
  apply Hown. by right.
Qed.

Lemma fold_insert_lookup self addrs (t : ReservationTracker) a :
  foldl (λ acc a, <[a := self]> acc) t addrs !! a = if decide (a ∈ addrs) then Some self else t !! a.
Proof.
  revert t. induction addrs as [|b addrs IH]; intros t; cbn; [done|]. rewrite IH.
  destruct (decide (a = b)) as [->|Hne].
  - rewrite lookup_insert_eq, (decide_True (P := b ∈ b :: addrs)) by left. by case_decide.
  - rewrite lookup_insert_ne by done. repeat case_decide; set_solver.
Qed.
Lemma fold_delete_lookup addrs (t : ReservationTracker) a :
  foldl (λ acc a, delete a acc) t addrs !! a = if decide (a ∈ addrs) then None else t !! a.
Proof.
  revert t. induction addrs as [|b addrs IH]; intros t; cbn; [done|]. rewrite IH.
  destruct (decide (a = b)) as [->|Hne].
  - rewrite lookup_delete_eq, (decide_True (P := b ∈ b :: addrs)) by left. by case_decide.
  - rewrite lookup_delete_ne by done. repeat case_decide; set_solver.
Qed.

(** Neither call touches what another subpool reserved, whatever its outcome. *)
Lemma Hold_others self addrs t a owner :
  t !! a = Some owner → fst (Hold self addrs t) !! a = Some owner.
Proof.
  revert t. induction addrs as [|b addrs IH]; intros t Ha; [done|]. rewrite Hold_cons.
  destruct (t !! b) as [o|] eqn:Hb; [by destruct (o =? self)|]. apply IH. rewrite lookup_insert_ne; congruence.
Qed.
Lemma Release_others self addrs t a owner :
  owner ≠ self → t !! a = Some owner ↔ fst (Release self addrs t) !! a = Some owner.
Proof.
  intros Hne. revert t. induction addrs as [|b addrs IH]; intros t; [done|]. rewrite Release_cons.
  destruct (t !! b) as [o|] eqn:Hb; [|done]. destruct (Z.eqb_spec o self) as [->|]; [|done]. rewrite <- IH.
  rewrite lookup_delete_Some. split; [|naive_solver]. intros Ha. split; [congruence|done].
Qed.
Lemma Hold_new self addrs t a owner :
  fst (Hold self addrs t) !! a = Some owner → owner ≠ self → t !! a = Some owner.
Proof.
  revert t. induction addrs as [|b addrs IH]; intros t Ha Hne; [done|]. rewrite Hold_cons in Ha.
  destruct (t !! b) as [o|] eqn:Hb; [by destruct (o =? self)|]. apply IH in Ha; [|done].
  by apply lookup_insert_Some in Ha as [[_ ?]|[_ ?]].
Qed.
End RV.

(** ** Virtual nonces *)

Module NC.
(** The nonces of the real state database are those [fallback.GetNonce] returns. *)
Section Noncer.
Context (GetNonce : Address → Z).
Abbreviation noncer := (gmap Address Z).
Implicit Types txn : noncer.

Definition newNoncer : noncer := ∅.
(** Cache the nonce of the state when it is not zero. *)
Definition fill (addr : Address) txn : noncer :=
  match txn !! addr with
  | Some _ => txn
  | None => if GetNonce addr =? 0 then txn else <[addr := GetNonce addr]> txn
  end.
Definition get (addr : Address) txn : noncer * Z :=
  let txn' := fill addr txn in (txn', default 0 (txn' !! addr)).
Definition set (addr : Address) (nonce : Z) txn : noncer := <[addr := nonce]> txn.
Definition setIfLower (addr : Address) (nonce : Z) txn : noncer :=
  let txn' := fill addr txn in
  if default 0 (txn' !! addr) <=? nonce then txn' else <[addr := nonce]> txn'.
Definition setAll (all : noncer) txn : noncer := all.

(** The nonce of an account: the virtual one, else the one of the state. *)
Definition virtual txn (addr : Address) : Z := default (GetNonce addr) (txn !! addr).

Lemma fill_virtual addr txn a : virtual (fill addr txn) a = virtual txn a.
Proof.
  unfold fill. destruct (txn !! addr) eqn:H; [done|]. destruct (GetNonce addr =? 0); [done|]. unfold virtual.
  destruct (decide (a = addr)) as [->|]; [by rewrite lookup_insert_eq, H|by rewrite lookup_insert_ne].
Qed.
Lemma fill_lookup addr txn : default 0 (fill addr txn !! addr) = virtual txn addr.
Proof.
  unfold fill, virtual. destruct (txn !! addr) as [n|] eqn:H; [by rewrite H|].
  destruct (Z.eqb_spec (GetNonce addr) 0) as [Hz|]; [by rewrite H|by rewrite lookup_insert_eq].
Qed.
Lemma set_virtual addr nonce txn a :
  virtual (set addr nonce txn) a = if decide (a = addr) then nonce else virtual txn a.
Proof.
  unfold set, virtual. case_decide as Hd; [by rewrite Hd, lookup_insert_eq|by rewrite lookup_insert_ne].
Qed.
End Noncer.
End NC.

(** ** The properties *)
Import RV NC.

(** A subpool that reserves addresses nobody holds owns them, other
    subpools see them as taken, and releasing them gives back the tracker as it
    was. *)
Theorem hold_release_roundtrip self other addrs t :
  NoDup addrs → (∀ a, a ∈ addrs → t !! a = None) → other ≠ self →
  ∃ t', Hold self addrs t = (t', Ok tt) ∧ (∀ a, a ∈ addrs → Has other a t' = true ∧ Has self a t' = false) ∧
    Release self addrs t' = (t, Ok tt).
Proof.
  intros Hnd Hfree Hne. exists (foldl (λ acc a, <[a := self]> acc) t addrs). split_and!; [by apply Hold_free|..].
  - intros a Ha. unfold Has. rewrite fold_insert_lookup, decide_True by done. rewrite Z.eqb_refl.
    by rewrite (proj2 (Z.eqb_neq _ _)) by done.
  - rewrite Release_held; [|done|intros a Ha; by rewrite fold_insert_lookup, decide_True].
    f_equal. apply map_eq. intros a. rewrite fold_delete_lookup, fold_insert_lookup.
    destruct (decide (a ∈ addrs)) as [Ha|]; [by rewrite Hfree|done].
Qed.
Lemma hold_release_roundtrip_witness :
  ∃ t', Hold 1 [7; 8] {[5 := 2]} = (t', Ok tt) ∧ (∀ a, a ∈ [7; 8] → Has 2 a t' = true ∧ Has 1 a t' = false) ∧
    Release 1 [7; 8] t' = ({[5 := 2]}, Ok tt).
Proof.
  apply hold_release_roundtrip; [|..|done].
  - by apply (bool_decide_unpack _).
  - intros a. rewrite !elem_of_cons, elem_of_nil. intros [->|[->|[]]]; by vm_compute.
Defined.

(** An address keeps its owner through every call by another subpool, also
    when the call fails half way, and no call reserves an address for a subpool
    other than the caller. *)
Theorem reservations_exclusive self addrs t a owner :
  owner ≠ self →
  (fst (Hold self addrs t) !! a = Some owner ↔ t !! a = Some owner) ∧
  (fst (Release self addrs t) !! a = Some owner ↔ t !! a = Some owner).
Proof.
  intros Hne. split.
  - split; [intros H; by eapply Hold_new|apply Hold_others].
  - symmetry. by apply Release_others.
Qed.
Lemma reservations_exclusive_witness :
  fst (Hold 1 [7; 5; 8] {[5 := 2]}) !! 5 = Some 2 ↔ ({[5 := 2]} : ReservationTracker) !! 5 = Some 2.
Proof. apply (reservations_exclusive 1 [7; 5; 8] {[5 := 2]} 5 2). done. Defined.

(** [Hold] reports success when it meets an address the subpool already
    owns, but leaves the loop there: the addresses after it are not reserved. *)
Theorem Hold_stops_at_owned self before owned after t :
  NoDup before → (∀ a, a ∈ before → t !! a = None) → t !! owned = Some self →
  ∃ t', Hold self (before ++ owned :: after) t = (t', Ok tt) ∧
    ∀ a, a ∈ after → a ∉ before → t' !! a = t !! a.
Proof.
  intros Hnd Hfree Hown. exists (foldl (λ acc a, <[a := self]> acc) t before). split.
  - revert t Hfree Hown. induction Hnd as [|b before Hb Hnd IH]; intros t Hfree Hown; cbn [app foldl]; rewrite Hold_cons.
    + by rewrite Hown, Z.eqb_refl.
    + rewrite Hfree by left. apply IH; [|rewrite lookup_insert_ne; [done|]].
      * intros a Ha. rewrite lookup_insert_ne by set_solver. apply Hfree. by right.
      * intros ->. by rewrite Hfree in Hown by left.
  - intros a _ Ha. by rewrite fold_insert_lookup, decide_False.
Qed.
Lemma Hold_stops_at_owned_witness :
  ∃ t', Hold 1 ([7] ++ 5 :: [8]) {[5 := 1]} = (t', Ok tt) ∧
    ∀ a, a ∈ [8] → a ∉ [7] → t' !! a = ({[5 := 1]} : ReservationTracker) !! a.
Proof.
  apply Hold_stops_at_owned; [by apply (bool_decide_unpack _)| |done].
  intros a. rewrite elem_of_cons, elem_of_nil. intros [->|[]]. by vm_compute.
Defined.

(** The virtual nonces implement a function from accounts to nonces that
    starts as the nonces of the state: [get] reads it and changes none, [set]
    updates one account, [setIfLower] lowers one account to at most the given
    nonce. *)
Theorem noncer_refines GetNonce addr nonce txn a :
  virtual GetNonce newNoncer a = GetNonce a ∧
  snd (get GetNonce addr txn) = virtual GetNonce txn addr ∧
  virtual GetNonce (fst (get GetNonce addr txn)) a = virtual GetNonce txn a ∧
  virtual GetNonce (set addr nonce txn) a = (if decide (a = addr) then nonce else virtual GetNonce txn a) ∧
  virtual GetNonce (setIfLower GetNonce addr nonce txn) a =
    (if decide (a = addr) then Z.min nonce (virtual GetNonce txn addr) else virtual GetNonce txn a).
Proof.
  split_and!; [done|apply fill_lookup|apply fill_virtual|apply set_virtual|].
  unfold setIfLower. rewrite fill_lookup. destruct (Z.leb_spec (virtual GetNonce txn addr) nonce).
  - rewrite fill_virtual. case_decide as Hd; [rewrite Hd; lia|done].
  - change (<[addr := nonce]> (fill GetNonce addr txn)) with (set addr nonce (fill GetNonce addr txn)).
    rewrite set_virtual. case_decide; [lia|apply fill_virtual].
Qed.
