(* ===== verification/TxLookup.v ===== *)
(** The table of all transactions of the pool ([lookup] of
    [mempool/txpool/legacypool/legacypool.go]): transactions by hash, the slots
    they take, and the accounts whose authorizations they carry. *)
From S2P Require Import Prelude GoStd AccessList Sdk Heap TxList.

Module LK.
Record lookup_ := mkLookup {
  lk_slots : Z;
  lk_txs : gmap Hash Transaction;
  lk_auths : gmap Address (list Hash);
}.
Implicit Types t : lookup_.

Definition txSlotSize : Z := 32 * 1024.
Definition numSlots (tx : Transaction) : Z := (tx_Size tx + txSlotSize - 1) / txSlotSize.

Definition newLookup : lookup_ := mkLookup 0 ∅ ∅.
Definition Get (hash : Hash) t : option Transaction := lk_txs t !! hash.
Definition Count t : nat := size (lk_txs t).
Definition Slots t : Z := lk_slots t.

(** One round of the loop of [addAuthorities]. *)
Definition add_auth (hash : Hash) (auths : gmap Address (list Hash)) (addr : Address) : gmap Address (list Hash) :=
  let l := default [] (auths !! addr) in
  if decide (hash ∈ l) then auths else <[addr := l ++ [hash]]> auths.
Definition addAuthorities (tx : Transaction) (auths : gmap Address (list Hash)) : gmap Address (list Hash) :=
  foldl (add_auth (tx_Hash tx)) auths (tx_Auths tx).

(** [slices.Index] and the removal of that element. *)
Definition remove_hash (hash : Hash) (l : list Hash) : list Hash :=
  match list_find (λ h, h = hash) l with
  | Some (i, _) => take i l ++ drop (S i) l
  | None => l
  end.
Definition remove_auth (hash : Hash) (auths : gmap Address (list Hash)) (addr : Address) : gmap Address (list Hash) :=
  let l := remove_hash hash (default [] (auths !! addr)) in
  if (length l =? 0)%nat then delete addr auths else <[addr := l]> auths.
Definition removeAuthorities (tx : Transaction) (auths : gmap Address (list Hash)) : gmap Address (list Hash) :=
  foldl (remove_auth (tx_Hash tx)) auths (tx_Auths tx).

Definition Add (tx : Transaction) t : lookup_ :=
  mkLookup (lk_slots t + numSlots tx) (<[tx_Hash tx := tx]> (lk_txs t)) (addAuthorities tx (lk_auths t)).
Definition Remove (hash : Hash) t : lookup_ :=
  match lk_txs t !! hash with
  | None => t
  | Some tx => mkLookup (lk_slots t - numSlots tx) (delete hash (lk_txs t)) (removeAuthorities tx (lk_auths t))
  end.
Definition Clear t : lookup_ := mkLookup 0 ∅ ∅.
Definition TxsBelowTip `{MapRange} (threshold : Z) t : Transactions :=
  filter (λ tx, tx_GasTipCap tx < threshold) (map_range (lk_txs t)).*2.
Definition hasAuth (addr : Address) t : bool := (0 <? length (default [] (lk_auths t !! addr)))%nat.

(** ** Authorities *)

(** The hashes listed for an account. *)
Definition hashes (auths : gmap Address (list Hash)) (addr : Address) : list Hash := default [] (auths !! addr).

(** No empty lists are kept. *)
Definition auths_ok (auths : gmap Address (list Hash)) : Prop :=
  ∀ addr l, auths !! addr = Some l → l ≠ [] ∧ NoDup l.

Lemma auths_lookup auths addr :
  auths_ok auths → auths !! addr = match hashes auths addr with [] => None | l => Some l end.
Proof.
  intros H. unfold hashes. destruct (auths !! addr) as [l|] eqn:Hl; cbn; [|done]. by destruct (H _ _ Hl), l.
Qed.

(** Tables with the same hashes are equal. *)
Lemma auths_ext a1 a2 : auths_ok a1 → auths_ok a2 → (∀ addr, hashes a1 addr = hashes a2 addr) → a1 = a2.
Proof. intros H1 H2 H. apply map_eq. intros addr. by rewrite !auths_lookup, H. Qed.

Lemma hashes_NoDup auths addr : auths_ok auths → NoDup (hashes auths addr).
Proof.
  intros H. unfold hashes. destruct (auths !! addr) as [l|] eqn:Hl; cbn; [by apply (H _ _ Hl)|constructor].
Qed.


Lemma remove_hash_filter hash l : NoDup l → remove_hash hash l = filter (λ h, h ≠ hash) l.
Proof.
  intros Hnd. unfold remove_hash. destruct (list_find _ l) as [[i h]|] eqn:Hf.
  - apply list_find_Some in Hf as (Hi & -> & Hlt).
    rewrite <- (take_drop_middle l i hash Hi) at 3. rewrite filter_app, filter_cons, decide_False by naive_solver.
    rewrite <- (take_drop_middle l i hash Hi) in Hnd. apply NoDup_app in Hnd as (_ & Hd1 & Hnd2%NoDup_cons).
    f_equal; symmetry; apply filter_all, Forall_forall; intros x Hx ->; [by apply (Hd1 hash); [|left]|naive_solver].
  - apply list_find_None in Hf. symmetry. by apply filter_all.
Qed.

Lemma add_auth_hashes hash auths addr a :
  hashes (add_auth hash auths addr) a =
  if decide (a = addr ∧ hash ∉ hashes auths a) then hashes auths a ++ [hash] else hashes auths a.
Proof.
  unfold add_auth. fold (hashes auths addr). destruct (decide (hash ∈ hashes auths addr)) as [Hin|Hin].
  - rewrite decide_False; [done|]. by intros [-> ?].
  - unfold hashes at 1. destruct (decide (a = addr)) as [->|Hne].
    + rewrite lookup_insert_eq. by rewrite decide_True.
    + rewrite lookup_insert_ne by done. rewrite decide_False by naive_solver. done.
Qed.

Lemma addAuthorities_hashes tx auths a :
  hashes (addAuthorities tx auths) a =
  if decide (a ∈ tx_Auths tx ∧ tx_Hash tx ∉ hashes auths a) then hashes auths a ++ [tx_Hash tx] else hashes auths a.
Proof.
  unfold addAuthorities. revert auths. induction (tx_Auths tx) as [|addr addrs IH]; intros auths; cbn [foldl].
  { rewrite decide_False; [done|]. intros [[]%elem_of_nil _]. }
  rewrite IH, !add_auth_hashes. destruct (decide (a = addr ∧ tx_Hash tx ∉ hashes auths a)) as [[-> Hn]|Hn].
  - rewrite decide_False by set_solver. rewrite decide_True by set_solver. done.
  - destruct (decide (a ∈ addrs ∧ _)) as [[H1 H2]|H].
    + rewrite decide_True by set_solver. done.
    + rewrite decide_False; [done|]. rewrite elem_of_cons. naive_solver.
Qed.

Lemma add_auth_ok hash auths addr : auths_ok auths → auths_ok (add_auth hash auths addr).
Proof.
  intros H. unfold add_auth. fold (hashes auths addr). case_decide as Hin; [done|].
  intros a l [[<- <-]|[_ Hl]]%lookup_insert_Some; [|by apply (H a)]. split; [by destruct (hashes auths addr)|].
  apply NoDup_app. split_and!; [by apply hashes_NoDup| |apply NoDup_singleton]. set_solver.
Qed.
Lemma remove_auth_ok hash auths addr : auths_ok auths → auths_ok (remove_auth hash auths addr).
Proof.
  intros H. unfold remove_auth. fold (hashes auths addr). rewrite remove_hash_filter by (by apply hashes_NoDup).
  destruct (Nat.eqb_spec (length (filter (λ h, h ≠ hash) (hashes auths addr))) 0) as [|Hne].
  - intros a l [_ Hl]%lookup_delete_Some. by apply (H a).
  - intros a l [[<- <-]|[_ Hl]]%lookup_insert_Some; [|by apply (H a)]. split.
    + by intros Hnil; rewrite Hnil in Hne.
    + by apply NoDup_filter, hashes_NoDup.
Qed.
Lemma addAuthorities_ok tx auths : auths_ok auths → auths_ok (addAuthorities tx auths).
Proof. unfold addAuthorities. revert auths. induction (tx_Auths tx); cbn; auto using add_auth_ok. Qed.
Lemma removeAuthorities_ok tx auths : auths_ok auths → auths_ok (removeAuthorities tx auths).
Proof. unfold removeAuthorities. revert auths. induction (tx_Auths tx); cbn; auto using remove_auth_ok. Qed.

Lemma remove_auth_hashes hash auths addr a :
  auths_ok auths →
  hashes (remove_auth hash auths addr) a =
  if decide (a = addr) then filter (λ h, h ≠ hash) (hashes auths a) else hashes auths a.
Proof.
  intros H. unfold remove_auth. fold (hashes auths addr). rewrite remove_hash_filter by (by apply hashes_NoDup).
  set (l := filter _ (hashes auths addr)). destruct (Nat.eqb_spec (length l) 0) as [Hl%nil_length_inv|Hne];
    unfold hashes at 1; (case_decide as Hd; [rewrite Hd|]).
  - by rewrite lookup_delete_eq, <- Hl.
  - by rewrite lookup_delete_ne.
  - by rewrite lookup_insert_eq.
  - by rewrite lookup_insert_ne.
Qed.

Lemma removeAuthorities_hashes tx auths a :
  auths_ok auths →
  hashes (removeAuthorities tx auths) a =
  if decide (a ∈ tx_Auths tx) then filter (λ h, h ≠ tx_Hash tx) (hashes auths a) else hashes auths a.
Proof.
  unfold removeAuthorities. revert auths. induction (tx_Auths tx) as [|addr addrs IH]; intros auths H; cbn [foldl].
  { by rewrite decide_False by apply not_elem_of_nil. }
  rewrite IH by (by apply remove_auth_ok). rewrite !remove_auth_hashes by done.
  destruct (decide (a = addr)) as [->|Hne].
  - rewrite (decide_True (P := addr ∈ addr :: addrs)) by left. case_decide; [|done].
    rewrite list_filter_filter. apply list_filter_iff. naive_solver.
  - destruct (decide (a ∈ addrs)); [rewrite decide_True|rewrite decide_False]; set_solver.
Qed.

(** ** The invariant *)

Record lookup_ok t : Prop := {
  lo_keyed : ∀ h tx, lk_txs t !! h = Some tx → tx_Hash tx = h;
  lo_slots : lk_slots t = map_sum (numSlots <$> lk_txs t);
  lo_lists : auths_ok (lk_auths t);
  lo_auths : ∀ addr h, h ∈ hashes (lk_auths t) addr ↔ ∃ tx, lk_txs t !! h = Some tx ∧ addr ∈ tx_Auths tx;
}.

Lemma newLookup_ok : lookup_ok newLookup.
Proof. split; cbn; [done|done|done|]. intros addr h. split; [by intros ?%elem_of_nil|by intros (? & ? & _)]. Qed.

Lemma Add_ok tx t : lookup_ok t → lk_txs t !! tx_Hash tx = None → lookup_ok (Add tx t).
Proof.
  intros [Hk Hs Hl Ha] Hnew. split; cbn.
  - intros h tx' [[<- <-]|[_ Hh]]%lookup_insert_Some; [done|]. by apply Hk.
  - rewrite fmap_insert, map_sum_insert, lookup_fmap, Hnew, Hs. cbn. lia.
  - by apply addAuthorities_ok.
  - intros addr h. rewrite addAuthorities_hashes.
    assert (Hno : tx_Hash tx ∉ hashes (lk_auths t) addr) by (rewrite Ha; rewrite Hnew; by intros (? & ? & _)).
    setoid_rewrite lookup_insert_Some. case_decide as Hd.
    + rewrite elem_of_app, list_elem_of_singleton, Ha. destruct Hd as [Hd _]. split.
      * intros [(tx' & Htx' & Hin)| ->]; [|exists tx; naive_solver]. exists tx'. split; [|done]. right. split; [|done].
        intros <-. congruence.
      * intros (tx' & [[<- <-]|[_ Htx']] & Hin); [by right|left; by exists tx'].
    + rewrite Ha. split.
      * intros (tx' & Htx' & Hin). exists tx'. split; [|done]. right. split; [|done]. intros <-. congruence.
      * intros (tx' & [[<- <-]|[_ Htx']] & Hin); [naive_solver|by exists tx'].
Qed.

Lemma Remove_ok hash t : lookup_ok t → lookup_ok (Remove hash t).
Proof.
  intros Hok. pose proof Hok as [Hk Hs Hl Ha]. unfold Remove. destruct (lk_txs t !! hash) as [tx|] eqn:Htx; [|done].
  pose proof (Hk _ _ Htx) as Hh. split; cbn.
  - intros h tx' [_ H]%lookup_delete_Some. by apply Hk.
  - rewrite fmap_delete, map_sum_delete, lookup_fmap, Htx, Hs. cbn. lia.
  - by apply removeAuthorities_ok.
  - intros addr h. rewrite removeAuthorities_hashes by done. setoid_rewrite lookup_delete_Some. rewrite Hh.
    case_decide as Hd; [rewrite list_elem_of_filter|]; rewrite Ha; split.
    + intros (Hne & tx' & Htx' & Hin). by exists tx'.
    + intros (tx' & (Hne & Htx') & Hin). split; [done|]. by exists tx'.
    + intros (tx' & Htx' & Hin). exists tx'. split_and!; [|done..]. intros <-. congruence.
    + intros (tx' & (Hne & Htx') & Hin). by exists tx'.
Qed.
End LK.

(** ** The properties *)
Import LK.

(** Adding a transaction that the table does not have and removing it by
    its hash gives back the table as it was: transactions, slots and the lists of
    authorizations.  In between the table is consistent: the slots are those of
    its transactions, and an account is reported to have an authorization exactly
    when one of them carries it. *)
Theorem lookup_add_remove tx t :
  lookup_ok t → lk_txs t !! tx_Hash tx = None →
  lookup_ok (Add tx t) ∧ Remove (tx_Hash tx) (Add tx t) = t ∧
  ∀ addr, hasAuth addr (Add tx t) = true ↔
    addr ∈ tx_Auths tx ∨ ∃ h tx', lk_txs t !! h = Some tx' ∧ addr ∈ tx_Auths tx'.
Proof.
  intros Hok Hnew. pose proof (Add_ok tx t Hok Hnew) as Hok'. split_and!; [done|..].
  - destruct Hok as [Hk Hs Hl Ha]. unfold Remove. cbn. rewrite lookup_insert_eq. destruct t as [slots txs auths]. cbn in *.
    f_equal; [lia|by rewrite delete_insert_id|].
    apply auths_ext; [by apply removeAuthorities_ok, addAuthorities_ok|done|]. intros a.
    assert (Hno : tx_Hash tx ∉ hashes auths a) by (rewrite Ha, Hnew; by intros (? & ? & _)).
    rewrite removeAuthorities_hashes, addAuthorities_hashes by (by apply addAuthorities_ok).
    destruct (decide (a ∈ tx_Auths tx)) as [Hin|Hin].
    + rewrite decide_True by done. rewrite filter_app, filter_cons_False, filter_nil, app_nil_r by naive_solver.
      apply filter_all, Forall_forall. intros x Hx ->. done.
    + rewrite decide_False by naive_solver. done.
  - intros addr. unfold hasAuth. fold (hashes (lk_auths (Add tx t)) addr). rewrite Nat.ltb_lt.
    assert (Hex : (0 < length (hashes (lk_auths (Add tx t)) addr))%nat ↔ ∃ h, h ∈ hashes (lk_auths (Add tx t)) addr).
    { destruct (hashes (lk_auths (Add tx t)) addr) as [|h l]; cbn; split; [lia|intros [? ?%elem_of_nil]; done| |lia].
      intros _. exists h. left. }
    rewrite Hex. setoid_rewrite (lo_auths _ Hok'). cbn. setoid_rewrite lookup_insert_Some. split.
    + intros (h & tx' & [[<- <-]|[_ H]] & Hin); [by left|right; by exists h, tx'].
    + intros [Hin|(h & tx' & H & Hin)].
      * exists (tx_Hash tx), tx. split; [by left|done].
      * exists h, tx'. split; [|done]. right. split; [|done]. intros <-. congruence.
Qed.
Lemma lookup_add_remove_witness :
  let tx := mkTx 7 0 21000 10 2 500 40000 [3; 4] in
  Remove (tx_Hash tx) (Add tx newLookup) = newLookup.
Proof. apply lookup_add_remove; [apply newLookup_ok|done]. Defined.
