(* ===== verification/PricedList.v ===== *)
(** The price-sorted view of the pool ([priceHeap] and [pricedList] of
    [mempool/txpool/legacypool/list.go]): two heaps over all transactions, by
    effective tip and by fee cap, from which the cheapest are evicted.  Entries
    whose transaction left the pool stay in the heaps until they are met. *)
From S2P Require Import Prelude GoStd AccessList Sdk Heap TxList TxLookup.

Module PR.
Section Priced.
Context `{HR : MapRange}.
(** [tx.EffectiveGasTipValue(baseFee)] of go-ethereum's transactions. *)
Context (EffectiveGasTip : Z → Transaction → Z).

(** [priceHeap.cmp] and [priceHeap.Less]. *)
Definition cmp (baseFee : option Z) (a b : Transaction) : comparison :=
  let by_caps :=
    match tx_GasFeeCap a ?= tx_GasFeeCap b with
    | Eq => tx_GasTipCap a ?= tx_GasTipCap b
    | c => c
    end in
  match baseFee with
  | Some fee =>
      match EffectiveGasTip fee a ?= EffectiveGasTip fee b with
      | Eq => by_caps
      | c => c
      end
  | None => by_caps
  end.
Definition price_less (baseFee : option Z) (a b : Transaction) : bool :=
  match cmp baseFee a b with
  | Lt => true
  | Gt => false
  | Eq => tx_Nonce b <? tx_Nonce a
  end.

(** The heap operations at a base fee. *)
Definition push (baseFee : option Z) : Transaction → Transactions → Transactions :=
  Push (HL := price_less baseFee).
Definition pop (baseFee : option Z) : Transactions → Transactions * Transaction :=
  Pop (HL := price_less baseFee).
Definition init (baseFee : option Z) : Transactions → Transactions :=
  Init (HL := price_less baseFee).

(** [pricedList]; the base fee of the floating heap is nil. *)
Record pricedList := mkPriced {
  pl_stales : Z;
  pl_urgent : Transactions;
  pl_floating : Transactions;
  pl_baseFee : option Z;
}.
Implicit Types (l : pricedList) (all : LK.lookup_).

Definition newPricedList : pricedList := mkPriced 0 [] [] None.
Definition Put (tx : Transaction) l : pricedList :=
  mkPriced (pl_stales l) (push (pl_baseFee l) tx (pl_urgent l)) (pl_floating l) (pl_baseFee l).

(** Removed or migrated. *)
Definition stale all (tx : Transaction) : Prop := LK.Get (tx_Hash tx) all = None.
#[global] Instance stale_dec all tx : Decision (stale all tx).
Proof. unfold stale. apply _. Defined.

(** The loop that fills the floating heap in [Reheap]. *)
Fixpoint pop_cheapest (baseFee : option Z) (count : nat) (urgent floating : Transactions) : Transactions * Transactions :=
  match count with
  | O => (urgent, floating)
  | S count' =>
      let '(urgent', tx) := pop baseFee urgent in
      pop_cheapest baseFee count' urgent' (floating ++ [tx])
  end.
Definition Reheap all l : pricedList :=
  let urgent := init (pl_baseFee l) (map_range (LK.lk_txs all)).*2 in
  let floatingCount := (length urgent * 1 / (4 + 1))%nat in
  let '(urgent, floating) := pop_cheapest (pl_baseFee l) floatingCount urgent [] in
  mkPriced 0 urgent (init None floating) (pl_baseFee l).

Definition Removed all (count : Z) l : pricedList :=
  let stales := pl_stales l + count in
  let l' := mkPriced stales (pl_urgent l) (pl_floating l) (pl_baseFee l) in
  if stales <=? Z.of_nat ((length (pl_urgent l) + length (pl_floating l)) / 4) then l'
  else Reheap all l'.

Definition SetBaseFee all (baseFee : Z) l : pricedList :=
  Reheap all (mkPriced (pl_stales l) (pl_urgent l) (pl_floating l) (Some baseFee)).

(** Pop the stale entries at the head of a heap. *)
Fixpoint pop_stale (fuel : nat) (baseFee : option Z) all (stales : Z) (h : Transactions) : Z * Transactions :=
  match fuel with
  | O => (stales, h)
  | S fuel' =>
      match h with
      | [] => (stales, h)
      | head :: _ =>
          if decide (stale all head) then pop_stale fuel' baseFee all (stales - 1) (fst (pop baseFee h))
          else (stales, h)
      end
  end.
(** The heap without its stale head, and whether it is underpriced for it. *)
Definition underpricedFor (baseFee : option Z) all (tx : Transaction) (stales : Z) (h : Transactions) :
    Z * Transactions * bool :=
  let '(stales', h') := pop_stale (length h) baseFee all stales h in
  (stales', h', match h' with
                | [] => false
                | head :: _ => match cmp baseFee head tx with Lt => false | _ => true end
                end).
Definition Underpriced all (tx : Transaction) l : pricedList * bool :=
  let '(stales, urgent, under) := underpricedFor (pl_baseFee l) all tx (pl_stales l) (pl_urgent l) in
  if negb (under || (length urgent =? 0)%nat) then
    (mkPriced stales urgent (pl_floating l) (pl_baseFee l), false)
  else
    let '(stales, floating, under) := underpricedFor None all tx stales (pl_floating l) in
    (mkPriced stales urgent floating (pl_baseFee l),
     (under || (length floating =? 0)%nat) &&
     (negb (length urgent =? 0)%nat || negb (length floating =? 0)%nat)).

(** The loop of [Discard]: every round takes an entry out of the heaps or moves
    one from the urgent heap to the floating one. *)
Fixpoint discard_loop (fuel : nat) all (slots : Z) l (drop : Transactions) : Z * pricedList * Transactions :=
  match fuel with
  | O => (slots, l, drop)
  | S fuel' =>
      if slots <=? 0 then (slots, l, drop)
      else if (length (pl_floating l) * 4 <? length (pl_urgent l) * 1)%nat then
        let '(urgent, tx) := pop (pl_baseFee l) (pl_urgent l) in
        if decide (stale all tx) then
          discard_loop fuel' all slots (mkPriced (pl_stales l - 1) urgent (pl_floating l) (pl_baseFee l)) drop
        else
          discard_loop fuel' all slots (mkPriced (pl_stales l) urgent (push None tx (pl_floating l)) (pl_baseFee l)) drop
      else if (length (pl_floating l) =? 0)%nat then (slots, l, drop)
      else
        let '(floating, tx) := pop None (pl_floating l) in
        if decide (stale all tx) then
          discard_loop fuel' all slots (mkPriced (pl_stales l - 1) (pl_urgent l) floating (pl_baseFee l)) drop
        else
          discard_loop fuel' all (slots - LK.numSlots tx)
            (mkPriced (pl_stales l) (pl_urgent l) floating (pl_baseFee l)) (drop ++ [tx])
  end.
Definition Discard all (slots : Z) l : pricedList * (Transactions * bool) :=
  let fuel := (2 * length (pl_urgent l) + length (pl_floating l))%nat in
  let '(slots', l', drop) := discard_loop fuel all slots l [] in
  if 0 <? slots' then (foldl (λ l tx, Put tx l) l' drop, ([], false))
  else (l', (drop, true)).

(** ** The order of the heaps *)

(** The lexicographic order of effective tip, fee cap and tip. *)
Lemma cmp_spec baseFee a b :
  let e tx := match baseFee with Some fee => EffectiveGasTip fee tx | None => 0 end in
  match cmp baseFee a b with
  | Lt => e a < e b ∨ e a = e b ∧ (tx_GasFeeCap a < tx_GasFeeCap b ∨ tx_GasFeeCap a = tx_GasFeeCap b ∧ tx_GasTipCap a < tx_GasTipCap b)
  | Eq => e a = e b ∧ tx_GasFeeCap a = tx_GasFeeCap b ∧ tx_GasTipCap a = tx_GasTipCap b
  | Gt => e b < e a ∨ e a = e b ∧ (tx_GasFeeCap b < tx_GasFeeCap a ∨ tx_GasFeeCap a = tx_GasFeeCap b ∧ tx_GasTipCap b < tx_GasTipCap a)
  end.
Proof.
  unfold cmp. destruct baseFee as [fee|]; cbn;
    [destruct (Z.compare_spec (EffectiveGasTip fee a) (EffectiveGasTip fee b))|];
    try destruct (Z.compare_spec (tx_GasFeeCap a) (tx_GasFeeCap b));
    try destruct (Z.compare_spec (tx_GasTipCap a) (tx_GasTipCap b)); lia.
Qed.

Lemma price_less_spec baseFee a b :
  let e tx := match baseFee with Some fee => EffectiveGasTip fee tx | None => 0 end in
  price_less baseFee a b = true ↔
  e a < e b ∨ e a = e b ∧ (tx_GasFeeCap a < tx_GasFeeCap b ∨ tx_GasFeeCap a = tx_GasFeeCap b ∧
    (tx_GasTipCap a < tx_GasTipCap b ∨ tx_GasTipCap a = tx_GasTipCap b ∧ tx_Nonce b < tx_Nonce a)).
Proof.
  cbv zeta. pose proof (cmp_spec baseFee a b) as H. cbv zeta in H. unfold price_less.
  destruct (cmp baseFee a b); [rewrite Z.ltb_lt; lia|split; [lia|done]|split; [done|lia]].
Qed.

Lemma price_less_laws baseFee : @HeapLessLaws Transaction (price_less baseFee).
Proof.
  split; unfold less.
  - intros x y H. apply not_true_iff_false. rewrite price_less_spec in H |- *. lia.
  - intros x y z H1%not_true_iff_false H2%not_true_iff_false. apply not_true_iff_false.
    rewrite price_less_spec in H1, H2 |- *. lia.
Qed.

Definition heap (baseFee : option Z) (h : Transactions) : Prop := is_heap (HL := price_less baseFee) h.

Lemma push_spec baseFee tx h : heap baseFee h → heap baseFee (push baseFee tx h) ∧ push baseFee tx h ≡ₚ tx :: h.
Proof. apply (Push_spec (HLL := price_less_laws baseFee)). Qed.
Lemma init_spec baseFee h : heap baseFee (init baseFee h) ∧ init baseFee h ≡ₚ h.
Proof. apply (Init_spec (HLL := price_less_laws baseFee)). Qed.
Lemma pop_spec baseFee h :
  heap baseFee h → h ≠ [] →
  (pop baseFee h).2 = h !!! 0%nat ∧ (pop baseFee h).2 :: (pop baseFee h).1 ≡ₚ h ∧ heap baseFee (pop baseFee h).1 ∧
  ∀ y, y ∈ h → price_less baseFee y (pop baseFee h).2 = false.
Proof.
  intros Hh Hne. destruct (Pop_spec (HLL := price_less_laws baseFee) h Hh Hne) as (H1 & H2 & H3 & H4).
  unfold pop. rewrite H1. by split_and!.
Qed.

(** ** Live and stale entries *)

Definition live all (h : Transactions) : Transactions := filter (λ tx, ¬ stale all tx) h.
Definition stale_count all (h : Transactions) : Z := Z.of_nat (length (filter (stale all) h)).

#[global] Instance live_perm all : Proper (Permutation ==> Permutation) (live all).
Proof. intros h1 h2 H. unfold live. by rewrite H. Qed.
#[global] Instance stale_count_perm all : Proper (Permutation ==> eq) (stale_count all).
Proof. intros h1 h2 H. unfold stale_count. by rewrite H. Qed.

Lemma live_app all h1 h2 : live all (h1 ++ h2) = live all h1 ++ live all h2.
Proof. apply filter_app. Qed.
Lemma live_cons all tx h : live all (tx :: h) = if decide (stale all tx) then live all h else tx :: live all h.
Proof. unfold live. rewrite filter_cons. destruct (decide (stale all tx)), (decide (¬ stale all tx)); done. Qed.
Lemma stale_count_app all h1 h2 : stale_count all (h1 ++ h2) = stale_count all h1 + stale_count all h2.
Proof. unfold stale_count. rewrite filter_app, length_app. lia. Qed.
Lemma stale_count_cons all tx h :
  stale_count all (tx :: h) = (if decide (stale all tx) then 1 else 0) + stale_count all h.
Proof. unfold stale_count. rewrite filter_cons. case_decide; cbn [length]; lia. Qed.

#[local] Arguments LK.numSlots : simpl never.
Lemma all_live all h : Forall (λ tx, ¬ stale all tx) h → live all h = h ∧ stale_count all h = 0.
Proof.
  induction 1 as [|tx h Htx _ [IH1 IH2]]; [done|].
  by rewrite live_cons, stale_count_cons, IH1, IH2, !decide_False by done.
Qed.

Definition slots_of (txs : Transactions) : Z := foldr (λ tx acc, LK.numSlots tx + acc) 0 txs.
Lemma slots_of_app a b : slots_of (a ++ b) = slots_of a + slots_of b.
Proof. induction a as [|tx a IH]; simpl; lia. Qed.
#[global] Instance slots_of_perm : Proper (Permutation ==> eq) slots_of.
Proof. induction 1; simpl; lia. Qed.

(** Both heaps are in order. *)
Definition pl_ok l : Prop := heap (pl_baseFee l) (pl_urgent l) ∧ heap None (pl_floating l).
Definition entries l : Transactions := pl_urgent l ++ pl_floating l.

Lemma priced_put_spec tx l :
  pl_ok l → pl_ok (Put tx l) ∧ entries (Put tx l) ≡ₚ tx :: entries l ∧ pl_stales (Put tx l) = pl_stales l ∧
  pl_baseFee (Put tx l) = pl_baseFee l.
Proof.
  intros [Hu Hf]. destruct (push_spec (pl_baseFee l) tx (pl_urgent l) Hu) as [H1 H2].
  split; [done|]. split_and!; [|done..]. unfold entries. cbn. by rewrite H2.
Qed.
Lemma Puts_spec txs l :
  pl_ok l → let l' := foldl (λ l tx, Put tx l) l txs in
  pl_ok l' ∧ entries l' ≡ₚ txs ++ entries l ∧ pl_stales l' = pl_stales l.
Proof.
  revert l. induction txs as [|tx txs IH]; intros l Hl; cbn; [done|].
  destruct (priced_put_spec tx l Hl) as (H1 & H2 & H3 & _). destruct (IH _ H1) as (I1 & I2 & I3).
  split_and!; [done| |congruence]. rewrite I2, H2. by rewrite Permutation_middle.
Qed.

(** ** [underpricedFor] and [Underpriced] *)

Lemma pop_stale_spec fuel baseFee all stales h :
  heap baseFee h → (length h ≤ fuel)%nat →
  let '(stales', h') := pop_stale fuel baseFee all stales h in
  heap baseFee h' ∧ live all h' ≡ₚ live all h ∧ stales - stales' = stale_count all h - stale_count all h' ∧
  (h' = [] ∨ ¬ stale all (h' !!! 0%nat)).
Proof.
  revert stales h. induction fuel as [|fuel IH]; intros stales h Hh Hf; cbn [pop_stale].
  { assert (h = []) as -> by (by destruct h; cbn in *; [|lia]). split_and!; [done..|lia|by left]. }
  destruct h as [|head rest] eqn:Hhe; [split_and!; [done..|lia|by left]|]. rewrite <- Hhe in *.
  case_decide as Hst.
  2: { split_and!; [done..|lia|right]. by rewrite Hhe. }
  destruct (pop_spec baseFee h Hh ltac:(by rewrite Hhe)) as (H1 & H2 & H3 & _).
  assert (Hhead : (pop baseFee h).2 = head) by (by rewrite H1, Hhe). rewrite Hhead in H2. clear H1 Hhead.
  destruct (pop baseFee h) as [q x]. cbn [fst snd] in *.
  specialize (IH (stales - 1) q H3). assert (Hlen : length h = S (length q)) by (by rewrite <- H2).
  specialize (IH ltac:(lia)). destruct (pop_stale fuel _ _ _ _) as [stales' h']. destruct IH as (I1 & I2 & I3 & I4).
  split_and!; [done|..|done].
  - rewrite I2, <- H2, live_cons. by rewrite decide_True.
  - rewrite <- H2, stale_count_cons, decide_True by done. lia.
Qed.

(** Not strictly above every live entry: underpriced. *)
Definition cheapest_of (baseFee : option Z) all (tx : Transaction) (h : Transactions) : Prop :=
  ∀ y, y ∈ live all h → cmp baseFee y tx ≠ Lt.

Lemma cmp_head baseFee head y tx :
  price_less baseFee y head = false → cmp baseFee head tx ≠ Lt → cmp baseFee y tx ≠ Lt.
Proof.
  rewrite <- not_true_iff_false, price_less_spec. cbv zeta. intros H1 H2 H3.
  pose proof (cmp_spec baseFee head tx) as C1. pose proof (cmp_spec baseFee y tx) as C2. cbv zeta in C1, C2.
  rewrite H3 in C2. destruct (cmp baseFee head tx); [lia|done|lia].
Qed.

Lemma underpricedFor_spec baseFee all tx stales h :
  heap baseFee h →
  let '(stales', h', under) := underpricedFor baseFee all tx stales h in
  heap baseFee h' ∧ live all h' ≡ₚ live all h ∧ stales - stales' = stale_count all h - stale_count all h' ∧
  (h' = [] ↔ live all h = []) ∧ (under = true ↔ live all h ≠ [] ∧ cheapest_of baseFee all tx h).
Proof.
  intros Hh. unfold underpricedFor. pose proof (pop_stale_spec (length h) baseFee all stales h Hh ltac:(lia)) as H.
  destruct (pop_stale _ _ _ _ _) as [stales' h']. destruct H as (H1 & H2 & H3 & H4).
  assert (Hnil : h' = [] ↔ live all h = []).
  { split; [intros ->; by apply Permutation_nil_l in H2|]. intros Hl. rewrite Hl in H2. apply Permutation_nil_r in H2.
    destruct h' as [|head rest]; [done|]. destruct H4 as [|H4]; [done|]. cbn in H4.
    rewrite live_cons, decide_False in H2 by done. done. }
  split_and!; [done..|]. destruct h' as [|head rest] eqn:Hhe.
  { split; [done|]. intros [Hne _]. destruct Hne. by apply Hnil. }
  destruct H4 as [|H4]; [done|]. cbn in H4. rewrite <- Hhe in *.
  assert (Hhead : head ∈ live all h).
  { rewrite <- H2, Hhe, live_cons, decide_False by done. left. }
  assert (Hmin : ∀ y, y ∈ h' → price_less baseFee y head = false).
  { destruct (pop_spec baseFee h' H1 ltac:(by rewrite Hhe)) as (P1 & _ & _ & P4). intros y Hy.
    replace head with (pop baseFee h').2 by (by rewrite P1, Hhe). by apply P4. }
  transitivity (cmp baseFee head tx ≠ Lt); [by destruct (cmp baseFee head tx)|]. split.
  - intros Hc. split; [intros Hl; by rewrite Hl in Hhead; apply elem_of_nil in Hhead|].
    intros y Hy. eapply cmp_head; [|done]. apply Hmin. rewrite <- H2 in Hy. by apply list_elem_of_filter in Hy as [_ ?].
  - intros [_ Hc]. by apply Hc.
Qed.

(** The test of [Underpriced] on one heap. *)
Lemma under_or_empty baseFee all tx (h h' : Transactions) under :
  (h' = [] ↔ live all h = []) → (under = true ↔ live all h ≠ [] ∧ cheapest_of baseFee all tx h) →
  (under || (length h' =? 0)%nat) = true ↔ cheapest_of baseFee all tx h.
Proof.
  intros Hn Hu. rewrite orb_true_iff, Nat.eqb_eq, Hu, length_zero_iff_nil, Hn. split.
  - intros [[_ ?]|Hl]; [done|]. intros y Hy. rewrite Hl in Hy. by apply elem_of_nil in Hy.
  - intros Hc. destruct (live all h); [by right|by left].
Qed.

(** ** [Discard] *)

(** Popping a heap of the list. *)
Lemma pop_cases baseFee h :
  heap baseFee h → h ≠ [] →
  ∃ q tx, pop baseFee h = (q, tx) ∧ h ≡ₚ tx :: q ∧ heap baseFee q ∧ length h = S (length q).
Proof.
  intros Hh Hne. destruct (pop_spec baseFee h Hh Hne) as (_ & H2 & H3 & _).
  destruct (pop baseFee h) as [q tx]. cbn [fst snd] in *. exists q, tx. split_and!; [done|done|done|by rewrite <- H2].
Qed.

(** What the loop has done: it dropped live entries, whose slots it counted,
    forgot stale ones, and kept the rest. *)
Definition discarded all (slots : Z) l (slots' : Z) l' (drop : Transactions) : Prop :=
  pl_ok l' ∧ pl_baseFee l' = pl_baseFee l ∧
  live all (entries l) ≡ₚ drop ++ live all (entries l') ∧
  pl_stales l - pl_stales l' = stale_count all (entries l) - stale_count all (entries l') ∧
  slots' = slots - slots_of drop ∧
  (0 < slots' → entries l' = []) ∧
  (∀ front tx, drop = front ++ [tx] → slots_of front < slots).

Lemma discarded_nothing all slots l :
  pl_ok l → (0 < slots → entries l = []) → discarded all slots l slots l [].
Proof.
  intros Hl Hs. split; [done|]. split_and!; [done|done|lia|simpl; lia|done|].
  intros front tx H. by destruct front.
Qed.

(** A round that only moves or forgets entries. *)
Lemma discarded_round all slots l l1 slots' l' drop :
  pl_baseFee l1 = pl_baseFee l → live all (entries l1) ≡ₚ live all (entries l) →
  pl_stales l - pl_stales l1 = stale_count all (entries l) - stale_count all (entries l1) →
  discarded all slots l1 slots' l' drop → discarded all slots l slots' l' drop.
Proof.
  intros Hb Hlv Hst (H1 & H2 & H3 & H4 & H5 & H6 & H7). split; [done|].
  split_and!; [congruence|by rewrite <- Hlv|lia|done|done|done].
Qed.

(** A round that drops a live entry. *)
Lemma discarded_drop all slots l l1 tx slots' l' drop :
  pl_baseFee l1 = pl_baseFee l → ¬ stale all tx → entries l ≡ₚ tx :: entries l1 → pl_stales l1 = pl_stales l → 0 < slots →
  discarded all (slots - LK.numSlots tx) l1 slots' l' drop → discarded all slots l slots' l' (tx :: drop).
Proof.
  intros Hb Hlive He Hst Hpos (H1 & H2 & H3 & H4 & H5 & H6 & H7). split; [done|]. split_and!; try done.
  - congruence.
  - rewrite He, live_cons, decide_False by done. by rewrite H3.
  - rewrite He, stale_count_cons, decide_False by done. lia.
  - simpl. lia.
  - intros front tx' Hd. destruct front as [|tx0 front]; simpl in *; [lia|]. injection Hd as -> Hd.
    pose proof (H7 front tx' Hd). lia.
Qed.

Lemma discard_loop_acc fuel all slots l drop :
  discard_loop fuel all slots l drop =
  let '(slots', l', drop') := discard_loop fuel all slots l [] in (slots', l', drop ++ drop').
Proof.
  revert slots l drop. induction fuel as [|fuel IH]; intros slots l drop; cbn [discard_loop]; [by rewrite app_nil_r|].
  destruct (slots <=? 0); [by rewrite app_nil_r|]. destruct (_ <? _)%nat.
  { destruct (pop _ _) as [urgent tx]. case_decide; apply IH. }
  destruct (_ =? _)%nat; [by rewrite app_nil_r|]. destruct (pop _ _) as [floating tx].
  case_decide; [apply IH|]. rewrite (IH _ _ (drop ++ [tx])), (IH _ _ ([] ++ [tx])).
  destruct (discard_loop _ _ _ _ _) as [[? ?] ?]. by rewrite <- app_assoc.
Qed.

Lemma discard_loop_spec fuel all slots l :
  pl_ok l → (2 * length (pl_urgent l) + length (pl_floating l) ≤ fuel)%nat →
  let '(slots', l', drop) := discard_loop fuel all slots l [] in discarded all slots l slots' l' drop.
Proof.
  revert slots l. induction fuel as [|fuel IH]; intros slots l Hl Hf; cbn [discard_loop].
  { apply discarded_nothing; [done|]. intros _. unfold entries.
    by destruct (pl_urgent l), (pl_floating l); simpl in *; [|lia..]. }
  destruct (Z.leb_spec slots 0) as [Hs|Hs]; [apply discarded_nothing; [done|lia]|].
  pose proof Hl as [Hu Hfl]. destruct (Nat.ltb_spec (length (pl_floating l) * 4) (length (pl_urgent l) * 1)) as [Hlt|Hge].
  - destruct (pop_cases (pl_baseFee l) (pl_urgent l) Hu) as (q & tx & -> & Hp & Hq & Hlen).
    { intros Hn. rewrite Hn in Hlt. simpl in Hlt. lia. }
    case_decide as Hst.
    + specialize (IH slots (mkPriced (pl_stales l - 1) q (pl_floating l) (pl_baseFee l)) (conj Hq Hfl) ltac:(simpl; lia)).
      destruct (discard_loop _ _ _ _ _) as [[s' l'] d]. eapply discarded_round; [| | |exact IH]; unfold entries; simpl; [done|..].
      * by rewrite Hp, <- app_comm_cons, live_cons, decide_True.
      * rewrite Hp, <- app_comm_cons, stale_count_cons, decide_True by done. lia.
    + destruct (push_spec None tx (pl_floating l) Hfl) as [Hh' Hp'].
      assert (He : q ++ push None tx (pl_floating l) ≡ₚ pl_urgent l ++ pl_floating l).
      { by rewrite Hp', Hp, <- Permutation_middle. }
      specialize (IH slots (mkPriced (pl_stales l) q (push None tx (pl_floating l)) (pl_baseFee l)) (conj Hq Hh')).
      assert (Hlen' : length (push None tx (pl_floating l)) = S (length (pl_floating l))) by (by rewrite Hp').
      specialize (IH ltac:(simpl; lia)).
      destruct (discard_loop _ _ _ _ _) as [[s' l'] d]. eapply discarded_round; [| | |exact IH]; unfold entries; simpl; [done|..].
      * by rewrite He.
      * rewrite He. lia.
  - destruct (Nat.eqb_spec (length (pl_floating l)) 0) as [H0|H0].
    { apply discarded_nothing; [done|]. intros _. unfold entries.
      by destruct (pl_urgent l), (pl_floating l); simpl in *; [|lia..]. }
    destruct (pop_cases None (pl_floating l) Hfl) as (q & tx & -> & Hp & Hq & Hlen); [by intros Hn; rewrite Hn in H0|].
    assert (He : entries l ≡ₚ tx :: (pl_urgent l ++ q)) by (unfold entries; by rewrite Hp, <- Permutation_middle).
    case_decide as Hst.
    + specialize (IH slots (mkPriced (pl_stales l - 1) (pl_urgent l) q (pl_baseFee l)) (conj Hu Hq) ltac:(simpl; lia)).
      destruct (discard_loop _ _ _ _ _) as [[s' l'] d]. eapply discarded_round; [| | |exact IH]; [done|..].
      * rewrite He, live_cons, decide_True by done. done.
      * rewrite He, stale_count_cons, decide_True by done. unfold entries. simpl. lia.
    + rewrite discard_loop_acc.
      specialize (IH (slots - LK.numSlots tx) (mkPriced (pl_stales l) (pl_urgent l) q (pl_baseFee l)) (conj Hu Hq) ltac:(simpl; lia)).
      destruct (discard_loop _ _ _ _ _) as [[s' l'] d]. cbn [app].
      eapply discarded_drop; [| | | | |exact IH]; done.
Qed.

(** ** [Reheap] *)

Lemma pop_cheapest_spec baseFee count urgent floating :
  heap baseFee urgent → (count ≤ length urgent)%nat →
  (∀ x y, x ∈ floating → y ∈ urgent → price_less baseFee y x = false) →
  let '(urgent', floating') := pop_cheapest baseFee count urgent floating in
  heap baseFee urgent' ∧ urgent' ++ floating' ≡ₚ urgent ++ floating ∧
  length floating' = (length floating + count)%nat ∧
  (∀ x y, x ∈ floating' → y ∈ urgent' → price_less baseFee y x = false).
Proof.
  revert urgent floating. induction count as [|count IH]; intros urgent floating Hh Hc Ho; cbn [pop_cheapest].
  { split_and!; [done|done|lia|done]. }
  assert (Hne : urgent ≠ []) by (by intros ->; simpl in Hc; lia).
  destruct (pop_spec baseFee urgent Hh Hne) as (_ & Hp & Hq & Hmin). destruct (pop baseFee urgent) as [q tx]. cbn [fst snd] in *.
  assert (Hlen : length urgent = S (length q)) by (by rewrite <- Hp).
  specialize (IH q (floating ++ [tx]) Hq ltac:(lia)). destruct (pop_cheapest _ _ _ _) as [u' f'].
  destruct IH as (I1 & I2 & I3 & I4).
  { intros x y [Hx|Hx]%elem_of_app Hy.
    - apply Ho; [done|]. rewrite <- Hp. by right.
    - apply list_elem_of_singleton in Hx as ->. apply Hmin. rewrite <- Hp. by right. }
  split_and!; [done| |rewrite I3, length_app; simpl; lia|done].
  rewrite I2, <- Hp. by rewrite app_assoc, (Permutation_app_comm (q ++ floating)), <- app_comm_cons.
Qed.

Context `{HRL : !MapRangeLaws}.

Lemma Reheap_spec all l :
  let l' := Reheap all l in
  pl_ok l' ∧ entries l' ≡ₚ SM.txs_of (LK.lk_txs all) ∧ pl_stales l' = 0 ∧ pl_baseFee l' = pl_baseFee l ∧
  length (pl_floating l') = (size (LK.lk_txs all) / 5)%nat ∧
  (∀ x y, x ∈ pl_floating l' → y ∈ pl_urgent l' → price_less (pl_baseFee l) y x = false).
Proof.
  unfold Reheap. destruct (init_spec (pl_baseFee l) (map_range (LK.lk_txs all)).*2) as [Hh Hp].
  set (u := init _ _) in *.
  assert (Hn : length u = size (LK.lk_txs all)).
  { by rewrite Hp, map_range_perm, length_fmap, length_map_to_list. }
  pose proof (pop_cheapest_spec (pl_baseFee l) (length u * 1 / 5) u [] Hh) as H.
  change (4 + 1)%nat with 5%nat. destruct (pop_cheapest _ _ _ _) as [u' f'].
  destruct H as (H1 & H2 & H3 & H4); [|by intros x y ?%elem_of_nil|].
  { rewrite Nat.mul_1_r. apply Nat.Div0.div_le_upper_bound. lia. }
  destruct (init_spec None f') as [Hf Hfp]. cbn. unfold entries. cbn. split; [done|]. split_and!; try done.
  - rewrite Hfp, H2, app_nil_r, Hp. by rewrite map_range_perm.
  - by rewrite Hfp, H3, Nat.mul_1_r, Hn.
  - intros x y Hx. rewrite Hfp in Hx. by apply H4.
Qed.

(** Every entry of a table keyed by hash is live. *)
Lemma txs_live all tx : LK.lookup_ok all → tx ∈ SM.txs_of (LK.lk_txs all) → ¬ stale all tx.
Proof.
  intros Hok ([h tx'] & -> & Hin%elem_of_map_to_list)%list_elem_of_fmap. cbn. unfold stale, LK.Get.
  by rewrite (LK.lo_keyed _ Hok _ _ Hin), Hin.
Qed.

(** ** Entries only leave *)

Lemma pop_stale_sub fuel baseFee all stales h e :
  heap baseFee h → e ∈ (pop_stale fuel baseFee all stales h).2 → e ∈ h.
Proof.
  revert stales h. induction fuel as [|fuel IH]; intros stales h Hh; cbn [pop_stale]; [done|].
  destruct h as [|head rest] eqn:Hhe; [done|]. rewrite <- Hhe in *. case_decide; [|done].
  destruct (pop_cases baseFee h Hh) as (q & tx & -> & Hp & Hq & _); [by rewrite Hhe|]. cbn [fst].
  intros He%IH; [|done]. rewrite Hp. by right.
Qed.
Lemma Underpriced_sub all tx l e : pl_ok l → e ∈ entries (Underpriced all tx l).1 → e ∈ entries l.
Proof.
  intros [Hu Hf]. unfold Underpriced, underpricedFor, entries.
  pose proof (pop_stale_sub (length (pl_urgent l)) (pl_baseFee l) all (pl_stales l) (pl_urgent l) e Hu) as H1.
  destruct (pop_stale _ _ _ _ (pl_urgent l)) as [s1 u]. cbn [snd] in H1. case_match; cbn.
  { rewrite !elem_of_app. tauto. }
  pose proof (pop_stale_sub (length (pl_floating l)) None all s1 (pl_floating l) e Hf) as H2.
  destruct (pop_stale _ _ _ _ (pl_floating l)) as [s2 f]. cbn [snd] in H2. cbn. rewrite !elem_of_app. tauto.
Qed.
Lemma discard_loop_sub fuel all slots l e :
  pl_ok l → let '(_, l', drop) := discard_loop fuel all slots l [] in e ∈ drop ++ entries l' → e ∈ entries l.
Proof.
  revert slots l. induction fuel as [|fuel IH]; intros slots l Hl; cbn [discard_loop]; [done|].
  destruct (slots <=? 0); [done|]. pose proof Hl as [Hu Hf].
  destruct (Nat.ltb_spec (length (pl_floating l) * 4) (length (pl_urgent l) * 1)) as [Hlt|Hge].
  - destruct (pop_cases (pl_baseFee l) (pl_urgent l) Hu) as (q & tx & -> & Hp & Hq & _).
    { intros Hn. rewrite Hn in Hlt. simpl in Hlt. lia. }
    destruct (push_spec None tx (pl_floating l) Hf) as [Hh' Hp'].
    case_decide; [specialize (IH slots (mkPriced (pl_stales l - 1) q (pl_floating l) (pl_baseFee l)) (conj Hq Hf))|
      specialize (IH slots (mkPriced (pl_stales l) q (push None tx (pl_floating l)) (pl_baseFee l)) (conj Hq Hh'))];
      destruct (discard_loop _ _ _ _ _) as [[? ?] ?]; intros He%IH; revert He; unfold entries; cbn;
      rewrite ?Hp', Hp, !elem_of_app, ?elem_of_cons; tauto.
  - destruct (Nat.eqb_spec (length (pl_floating l)) 0) as [|H0]; [done|].
    destruct (pop_cases None (pl_floating l) Hf) as (q & tx & -> & Hp & Hq & _); [by intros Hn; rewrite Hn in H0|].
    case_decide.
    + specialize (IH slots (mkPriced (pl_stales l - 1) (pl_urgent l) q (pl_baseFee l)) (conj Hu Hq)).
      destruct (discard_loop _ _ _ _ _) as [[? ?] ?]. intros He%IH. revert He. unfold entries. cbn.
      rewrite Hp, !elem_of_app, elem_of_cons. tauto.
    + rewrite discard_loop_acc. specialize (IH (slots - LK.numSlots tx) (mkPriced (pl_stales l) (pl_urgent l) q (pl_baseFee l)) (conj Hu Hq)).
      destruct (discard_loop _ _ _ _ _) as [[? ?] ?]. cbn [app]. rewrite elem_of_cons. intros [->|He%IH].
      * unfold entries. rewrite Hp. set_solver.
      * revert He. unfold entries. cbn. rewrite Hp, !elem_of_app, elem_of_cons. tauto.
Qed.
Lemma Discard_sub all slots l e :
  pl_ok l → let '(l', (drop, _)) := Discard all slots l in e ∈ drop ∨ e ∈ entries l' → e ∈ entries l.
Proof.
  intros Hl. unfold Discard. set (fuel := (_ + _)%nat).
  pose proof (discard_loop_sub fuel all slots l e Hl) as H.
  pose proof (discard_loop_spec fuel all slots l Hl (le_n _)) as Hs.
  destruct (discard_loop _ _ _ _ _) as [[slots' l'] drop]. rewrite elem_of_app in H. destruct Hs as (Hl' & _).
  destruct (0 <? slots'); [|done]. intros [?%elem_of_nil|He]; [done|].
  destruct (Puts_spec drop l' Hl') as (_ & Hp & _). rewrite Hp, elem_of_app in He. tauto.
Qed.

(** ** The whole of [Discard] *)

Lemma Discard_spec all slots l :
  pl_ok l →
  let '(l', (drop, ok)) := Discard all slots l in
  pl_ok l' ∧ live all (entries l) ≡ₚ drop ++ live all (entries l') ∧
  pl_stales l - pl_stales l' = stale_count all (entries l) - stale_count all (entries l') ∧
  (ok = true → slots ≤ slots_of drop ∧ ∀ front tx, drop = front ++ [tx] → slots_of front < slots) ∧
  (ok = false → drop = [] ∧ slots_of (live all (entries l)) < slots).
Proof.
  intros Hl. unfold Discard. pose proof (discard_loop_spec _ all slots l Hl (le_n _)) as H.
  destruct (discard_loop _ _ _ _ _) as [[slots' l'] drop]. destruct H as (H1 & H2 & H3 & H4 & H5 & H6 & H7).
  destruct (Z.ltb_spec 0 slots') as [Hs|Hs].
  2: { split; [done|]. split_and!; [done..| |done]. intros _. split; [lia|done]. }
  destruct (Puts_spec drop l' H1) as (P1 & P2 & P3). specialize (H6 Hs).
  assert (Hd : Forall (λ tx, ¬ stale all tx) drop).
  { apply Forall_forall. intros tx Hin. assert (tx ∈ live all (entries l)) as Ht by (rewrite H3; set_solver).
    by apply list_elem_of_filter in Ht as [? _]. }
  destruct (all_live all drop Hd) as [Hno Hsd]. rewrite H6 in H3, H4, P2. rewrite app_nil_r in H3, P2.
  split; [done|]. split_and!; try done.
  - cbn [app]. by rewrite H3, P2, Hno.
  - assert (stale_count all [] = 0) by done. rewrite P2, P3, Hsd. lia.
  - intros _. split; [done|]. rewrite H3. lia.
Qed.

(** ** The properties *)

(** C37: [Discard] ends, and either drops live transactions that free enough
    slots, the last of which was needed, or, when all live transactions together
    do not have enough, drops none.  Every other live entry stays in the heaps,
    and the counter of stale entries goes down by the stale entries that left. *)
Theorem Discard_conserves all slots l :
  pl_ok l →
  let '(l', (drop, ok)) := Discard all slots l in
  pl_ok l' ∧ live all (entries l) ≡ₚ drop ++ live all (entries l') ∧
  pl_stales l - pl_stales l' = stale_count all (entries l) - stale_count all (entries l') ∧
  (ok = true → slots ≤ slots_of drop ∧ ∀ front tx, drop = front ++ [tx] → slots_of front < slots) ∧
  (ok = false → drop = [] ∧ slots_of (live all (entries l)) < slots).
Proof. apply Discard_spec. Qed.

(** A transaction is underpriced exactly when some live entry is left and
    none of them is cheaper than it, by effective tip in the urgent heap and by
    fee cap in the floating one.  The check only forgets stale entries. *)
Theorem Underpriced_exact all tx l :
  pl_ok l →
  let '(l', under) := Underpriced all tx l in
  (under = true ↔ live all (entries l) ≠ [] ∧ cheapest_of (pl_baseFee l) all tx (pl_urgent l) ∧
     cheapest_of None all tx (pl_floating l)) ∧
  pl_ok l' ∧ live all (entries l') ≡ₚ live all (entries l) ∧
  pl_stales l - pl_stales l' = stale_count all (entries l) - stale_count all (entries l').
Proof.
  intros [Hu Hf]. unfold Underpriced.
  pose proof (underpricedFor_spec (pl_baseFee l) all tx (pl_stales l) (pl_urgent l) Hu) as H.
  destruct (underpricedFor _ _ _ _ (pl_urgent l)) as [[s1 u] b1]. destruct H as (U1 & U2 & U3 & U4 & U5).
  pose proof (under_or_empty (pl_baseFee l) all tx (pl_urgent l) u b1 U4 U5) as Hc1.
  destruct (b1 || (length u =? 0)%nat); cbn [negb].
  2: { split; [split; [done|]; by intros (_ & ?%Hc1 & _)|]. unfold entries. cbn [pl_urgent pl_floating pl_stales].
    split_and!; [done..| |rewrite !stale_count_app; lia]. by rewrite !live_app, U2. }
  pose proof (underpricedFor_spec None all tx s1 (pl_floating l) Hf) as H.
  destruct (underpricedFor _ _ _ _ (pl_floating l)) as [[s2 f] b2]. destruct H as (F1 & F2 & F3 & F4 & F5).
  pose proof (under_or_empty None all tx (pl_floating l) f b2 F4 F5) as Hc2. unfold entries. cbn [pl_urgent pl_floating pl_stales].
  split; [|split_and!; [done..| |rewrite !stale_count_app; lia]].
  - rewrite andb_true_iff, Hc2, orb_true_iff, !negb_true_iff, !Nat.eqb_neq, !length_zero_iff_nil, live_app.
    rewrite <- Hc1, U4, F4. destruct (live all (pl_urgent l)), (live all (pl_floating l)); naive_solver.
  - by rewrite !live_app, U2, F2.
Qed.

(** Rebuilding puts every transaction of the pool in exactly one of the two
    heaps, the cheapest fifth by effective tip in the floating one, and leaves no
    stale entry; [Removed] rebuilds whenever the counter of stale entries passes a
    quarter of the entries, so that after it the counter is within that bound. *)
Theorem Removed_bounds_stales all count l :
  LK.lookup_ok all → pl_ok l →
  let l' := Removed all count l in
  pl_ok l' ∧ 4 * pl_stales l' ≤ Z.of_nat (length (entries l')) ∧
  (Z.of_nat (length (entries l) / 4) < pl_stales l + count →
     entries l' ≡ₚ SM.txs_of (LK.lk_txs all) ∧ stale_count all (entries l') = 0 ∧ pl_stales l' = 0 ∧
     length (pl_floating l') = (LK.Count all / 5)%nat ∧
     ∀ x y, x ∈ pl_floating l' → y ∈ pl_urgent l' → price_less (pl_baseFee l) y x = false).
Proof.
  intros Hall Hl. cbv zeta. unfold Removed. rewrite <- length_app. fold (entries l).
  destruct (Z.leb_spec (pl_stales l + count) (Z.of_nat (length (entries l) / 4))) as [Hle|Hgt].
  - split; [done|]. split; [|lia]. unfold entries. cbn [pl_stales pl_urgent pl_floating]. fold (entries l).
    pose proof (Nat.Div0.mul_div_le (length (entries l)) 4). lia.
  - destruct (Reheap_spec all (mkPriced (pl_stales l + count) (pl_urgent l) (pl_floating l) (pl_baseFee l)))
      as (H1 & H2 & H3 & H4 & H5 & H6).
    split; [done|]. split; [rewrite H3; lia|]. intros _. split_and!; try done.
    rewrite H2. apply all_live, Forall_forall. intros tx. by apply txs_live.
Qed.
End Priced.
End PR.

(** ** Concrete heaps *)
Import PR.

Import ListRange.

Module PricedWitness.
Definition EffectiveGasTip (fee : Z) (tx : Transaction) : Z := Z.min (tx_GasTipCap tx) (tx_GasFeeCap tx - fee).
Definition t1 : Transaction := mkTx 1 0 21000 10 2 500 40000 [].
Definition t2 : Transaction := mkTx 2 1 21000 30 3 500 200 [].
Definition gone : Transaction := mkTx 3 2 21000 5 1 500 200 [].
Definition all : LK.lookup_ := LK.Add t2 (LK.Add t1 LK.newLookup).
Definition prices : pricedList := foldl (λ l tx, Put EffectiveGasTip tx l) (mkPriced 1 [] [] (Some 4)) [t1; gone; t2].

Lemma all_ok : LK.lookup_ok all.
Proof. apply LK.Add_ok; [apply LK.Add_ok; [apply LK.newLookup_ok|done]|done]. Qed.
Lemma prices_ok : pl_ok EffectiveGasTip prices.
Proof.
  apply (Puts_spec EffectiveGasTip [t1; gone; t2] (mkPriced 1 [] [] (Some 4))).
  split; intros c; cbn; lia.
Qed.
End PricedWitness.
Import PricedWitness.

Lemma Discard_conserves_witness :
  let '(l', (drop, ok)) := Discard EffectiveGasTip all 2 prices in
  pl_ok EffectiveGasTip l' ∧ live all (entries prices) ≡ₚ drop ++ live all (entries l').
Proof.
  pose proof (Discard_conserves EffectiveGasTip all 2 prices prices_ok) as H.
  destruct (Discard EffectiveGasTip all 2 prices) as [l' [drop ok]]. by destruct H as (? & ? & _).
Defined.

Lemma Underpriced_exact_witness : pl_ok EffectiveGasTip (Underpriced EffectiveGasTip all t1 prices).1.
Proof.
  pose proof (Underpriced_exact EffectiveGasTip all t1 prices prices_ok) as H.
  destruct (Underpriced EffectiveGasTip all t1 prices) as [l' under]. by destruct H as (_ & ? & _).
Defined.

Lemma Removed_bounds_stales_witness : pl_ok EffectiveGasTip (Removed EffectiveGasTip all 1 prices).
Proof. apply (Removed_bounds_stales EffectiveGasTip all 1 prices all_ok prices_ok). Defined.
