(* ===== verification/TxStore.v ===== *)
(** The store of transactions that passed the recheck of the current height
    ([mempool/txpool/legacypool/tx_store.go]), the filter that turns pooled
    transactions into what a block builder asks for ([filterAndWrapTxs] of
    [legacypool.go]), and the synchronisation of such a store with block heights
    ([mempool/internal/heightsync/heightsync.go]). *)
From S2P Require Import Prelude GoStd AccessList Sdk Heap TxList PoolList.

(** ** Filtering for the block builder *)

(** [txpool.LazyTransaction]: the transaction and what is copied out of it. *)
Record LazyTransaction := mkLazy {
  lz_Hash : Hash;
  lz_Tx : Transaction;
  lz_GasFeeCap : Z;
  lz_GasTipCap : Z;
  lz_Gas : Z;
}.
(** [txpool.PendingFilter]. *)
Record PendingFilter := mkFilter {
  pf_MinTip : option Z;
  pf_BaseFee : option Z;
  pf_OnlyBlobTxs : bool;
}.

Section Filtering.
(** [tx.EffectiveGasTipIntCmp(other, baseFee)] of go-ethereum's transactions. *)
Context (EffectiveGasTipIntCmp : Transaction → Z → option Z → comparison).

(** [txs[:i]] for the first [i] whose tip is below the minimum. *)
Fixpoint cut_below (minTip : Z) (baseFee : option Z) (txs : Transactions) : Transactions :=
  match txs with
  | [] => []
  | tx :: rest =>
      match EffectiveGasTipIntCmp tx minTip baseFee with
      | Lt => []
      | _ => tx :: cut_below minTip baseFee rest
      end
  end.
(** [uint256.MustFromBig]. *)
Definition MustFromBig {S} (b : Z) : M S Empty_set Z :=
  let '(v, overflow) := TL.FromBig b in
  if overflow : bool then panic "uint256: overflow" else mret v.
Definition wrapTx {S} (tx : Transaction) : M S Empty_set LazyTransaction :=
  feeCap ← MustFromBig (tx_GasFeeCap tx);
  tipCap ← MustFromBig (tx_GasTipCap tx);
  mret (mkLazy (tx_Hash tx) tx feeCap tipCap (tx_Gas tx)).
Definition filterAndWrapTxs {S} (txs : Transactions) (minTip baseFee : option Z) : M S Empty_set (list LazyTransaction) :=
  let txs := match minTip with Some tip => cut_below tip baseFee txs | None => txs end in
  mapM wrapTx txs.

(** What is kept is a prefix in the given order: a transaction that pays too
    little hides the later nonces of its account, which could not run without it. *)
Lemma cut_below_prefix minTip baseFee txs :
  ∃ rest, txs = cut_below minTip baseFee txs ++ rest ∧
    Forall (λ tx, EffectiveGasTipIntCmp tx minTip baseFee ≠ Lt) (cut_below minTip baseFee txs) ∧
    (∀ tx rest', rest = tx :: rest' → EffectiveGasTipIntCmp tx minTip baseFee = Lt).
Proof.
  induction txs as [|tx txs (rest & Heq & Hall & Hcut)]; cbn [cut_below]; [by exists []; split_and!|].
  destruct (EffectiveGasTipIntCmp tx minTip baseFee) eqn:He;
    [exists rest|exists (tx :: txs)|exists rest]; cbn; split_and!; try done; try (by constructor; [congruence|]);
    try (by f_equal).
  by intros ? ? [= -> ->].
Qed.

Lemma wrapTx_run {S} (s : S) tx :
  0 ≤ tx_GasFeeCap tx < 2 ^ 256 ∧ 0 ≤ tx_GasTipCap tx < 2 ^ 256 →
  wrapTx tx s = (s, Ok (mkLazy (tx_Hash tx) tx (tx_GasFeeCap tx) (tx_GasTipCap tx) (tx_Gas tx))).
Proof.
  intros [Hf Ht]. unfold wrapTx, MustFromBig, TL.FromBig. rewrite !wrap_small by (done || lia).
  by rewrite !(proj2 (Z.leb_gt _ _)) by lia.
Qed.

Lemma filterAndWrapTxs_run {S} (s : S) txs minTip baseFee :
  Forall (λ tx, 0 ≤ tx_GasFeeCap tx < 2 ^ 256 ∧ 0 ≤ tx_GasTipCap tx < 2 ^ 256) txs →
  ∃ kept rest, txs = kept ++ rest ∧ (minTip = None → rest = []) ∧
    filterAndWrapTxs txs minTip baseFee s =
      (s, Ok ((λ tx, mkLazy (tx_Hash tx) tx (tx_GasFeeCap tx) (tx_GasTipCap tx) (tx_Gas tx)) <$> kept)).
Proof.
  intros Hw. unfold filterAndWrapTxs. set (kept := match minTip with Some _ => _ | None => _ end).
  assert (∃ rest, txs = kept ++ rest ∧ (minTip = None → rest = [])) as (rest & Heq & Hr).
  { unfold kept. destruct minTip as [tip|]; [|exists []; by rewrite app_nil_r].
    destruct (cut_below_prefix tip baseFee txs) as (rest & ? & _). by exists rest. }
  exists kept, rest. split_and!; [done..|]. clearbody kept. rewrite Heq in Hw. apply Forall_app in Hw as [Hw _].
  clear Heq Hr rest txs. induction Hw as [|tx txs Htx _ IH]; [done|]. cbn [mapM]. unfold mbind at 1, M_bind at 1.
  rewrite wrapTx_run by done. unfold mbind, M_bind, mret, M_ret in *. by rewrite IH.
Qed.
End Filtering.

(** ** [TxStore] *)

Module TS.
Record TxStore := mkStore {
  ts_txs : gmap Address Transactions;
  ts_lookup : gset Hash;
  ts_total : Z;
}.
Implicit Types t : TxStore.

Definition NewTxStore : TxStore := mkStore ∅ ∅ 0.

(** The loop that keeps the transactions not in the lookup yet and marks them. *)
Fixpoint to_add (txs : Transactions) (lookup : gset Hash) : Transactions * gset Hash :=
  match txs with
  | [] => ([], lookup)
  | tx :: rest =>
      if decide (tx_Hash tx ∈ lookup) then to_add rest lookup
      else
        let '(more, lookup') := to_add rest ({[tx_Hash tx]} ∪ lookup) in
        (tx :: more, lookup')
  end.
Definition AddTxs (addr : Address) (txs : Transactions) t : TxStore :=
  let '(toAdd, lookup) := to_add txs (ts_lookup t) in
  let stored := match ts_txs t !! addr with Some existing => existing ++ toAdd | None => toAdd end in
  mkStore (<[addr := stored]> (ts_txs t))
    (foldl (λ acc tx, {[tx_Hash tx]} ∪ acc) lookup toAdd)
    (u64_add (ts_total t) (Z.of_nat (length toAdd))).
Definition AddTx (addr : Address) (tx : Transaction) t : TxStore := AddTxs addr [tx] t.

Definition RemoveTxsFromNonce (addr : Address) (minNonce : Z) t : TxStore :=
  match ts_txs t !! addr with
  | None => t
  | Some txs =>
      let gone := filter (λ tx, minNonce ≤ tx_Nonce tx) txs in
      let next := filter (λ tx, ¬ minNonce ≤ tx_Nonce tx) txs in
      let lookup := foldl (λ acc tx, acc ∖ {[tx_Hash tx]}) (ts_lookup t) gone in
      let total := u64_sub (ts_total t) (Z.of_nat (length gone)) in
      mkStore (if (length next =? 0)%nat then delete addr (ts_txs t) else <[addr := next]> (ts_txs t)) lookup total
  end.
Definition RemoveTx (addr : Address) (tx : Transaction) t : TxStore := RemoveTxsFromNonce addr (tx_Nonce tx) t.

(** [Txs]: the lists are sorted in place, the filtered ones returned. *)
Section Txs.
Context (EffectiveGasTipIntCmp : Transaction → Z → option Z → comparison).
Definition sort_txs t : TxStore :=
  mkStore (merge_sort SM.nonce_le <$> ts_txs t) (ts_lookup t) (ts_total t).
(** Collect the non-empty filtered lists of the accounts, in some order. *)
Fixpoint collect {S} (accounts : list (Address * Transactions)) (minTip baseFee : option Z)
    (pending : gmap Address (list LazyTransaction)) : M S Empty_set (gmap Address (list LazyTransaction)) :=
  match accounts with
  | [] => mret pending
  | (addr, txs) :: rest =>
      lazies ← filterAndWrapTxs EffectiveGasTipIntCmp txs minTip baseFee;
      collect rest minTip baseFee (if (0 <? length lazies)%nat then <[addr := lazies]> pending else pending)
  end.
(** [None] is the nil map returned for blob transactions. *)
Definition Txs (flt : PendingFilter) : M TxStore Empty_set (option (gmap Address (list LazyTransaction))) :=
  if pf_OnlyBlobTxs flt then mret None else
  modify sort_txs;;
  txs ← gets ts_txs;
  pending ← collect (map_to_list txs) (pf_MinTip flt) (pf_BaseFee flt) ∅;
  mret (Some pending).
End Txs.

(** *** The invariant *)

(** The transactions of all accounts. *)
Definition stored (m : gmap Address Transactions) : Transactions := concat (map_to_list m).*2.

Record store_ok t : Prop := {
  so_nodup : NoDup (tx_Hash <$> stored (ts_txs t));
  so_lookup : ∀ h, h ∈ ts_lookup t ↔ h ∈ tx_Hash <$> stored (ts_txs t);
  so_total : ts_total t = Z.of_nat (length (stored (ts_txs t)));
}.

Lemma stored_put m addr txs :
  stored (<[addr := txs]> m) ≡ₚ txs ++ stored (delete addr m).
Proof.
  unfold stored. rewrite <- insert_delete_eq, map_to_list_insert by apply lookup_delete_eq. done.
Qed.
Lemma stored_at m addr txs : m !! addr = Some txs → stored m ≡ₚ txs ++ stored (delete addr m).
Proof. intros H. rewrite <- (insert_id m addr txs H) at 1. apply stored_put. Qed.
Lemma stored_default m addr : stored m ≡ₚ default [] (m !! addr) ++ stored (delete addr m).
Proof.
  destruct (m !! addr) as [txs|] eqn:H; [by apply stored_at|]. by rewrite delete_id.
Qed.

(** What is added is new, and has no duplicates. *)
Lemma to_add_spec txs lookup toAdd lookup' :
  to_add txs lookup = (toAdd, lookup') →
  NoDup (tx_Hash <$> toAdd) ∧ (∀ h, h ∈ tx_Hash <$> toAdd → h ∉ lookup) ∧
  (∀ h, h ∈ lookup' ↔ h ∈ lookup ∨ h ∈ tx_Hash <$> toAdd) ∧ toAdd `sublist_of` txs ∧
  (∀ tx, tx ∈ txs → tx_Hash tx ∈ lookup').
Proof.
  revert lookup toAdd lookup'. induction txs as [|tx txs IH]; intros lookup toAdd lookup'; cbn [to_add].
  { intros [= <- <-]. split_and!; [constructor|by intros h ?%elem_of_nil| |done|by intros tx ?%elem_of_nil].
    intros h. rewrite elem_of_nil. tauto. }
  case_decide as Hin.
  - intros (Hnd & Hnew & Hl & Hsub & Hall)%IH. split_and!; [done..|by apply sublist_cons|].
    intros tx' [->|H]%elem_of_cons; [apply Hl; by left|by apply Hall].
  - destruct (to_add txs ({[tx_Hash tx]} ∪ lookup)) as [more l'] eqn:Heq. intros [= <- <-].
    apply IH in Heq as (Hnd & Hnew & Hl & Hsub & Hall). cbn [fmap list_fmap]. split_and!.
    + constructor; [|done]. intros H%Hnew. set_solver.
    + intros h [->|H%Hnew]%elem_of_cons; [done|set_solver].
    + intros h. rewrite Hl, elem_of_cons. set_solver.
    + by apply sublist_skip.
    + intros tx' [->|H]%elem_of_cons; [apply Hl; set_solver|by apply Hall].
Qed.

Lemma mark_again (toAdd : Transactions) (lookup : gset Hash) h :
  h ∈ foldl (λ acc tx, {[tx_Hash tx]} ∪ acc) lookup toAdd ↔ h ∈ lookup ∨ h ∈ tx_Hash <$> toAdd.
Proof.
  revert lookup. induction toAdd as [|tx toAdd IH]; intros lookup; cbn [foldl fmap list_fmap].
  { rewrite elem_of_nil. tauto. }
  rewrite IH, elem_of_cons. set_solver.
Qed.

Lemma unmark (gone : Transactions) (lookup : gset Hash) h :
  h ∈ foldl (λ acc tx, acc ∖ {[tx_Hash tx]}) lookup gone ↔ h ∈ lookup ∧ h ∉ tx_Hash <$> gone.
Proof.
  revert lookup. induction gone as [|tx gone IH]; intros lookup; cbn [foldl fmap list_fmap].
  { split; [intros H; split; [done|apply not_elem_of_nil]|by intros []]. }
  rewrite IH, not_elem_of_cons. set_solver.
Qed.

Lemma NewTxStore_ok : store_ok NewTxStore.
Proof. split; cbn; [constructor|intros h; set_solver|done]. Qed.

(** The counter is 64 bits wide. *)
Definition fits (n : nat) : Prop := Z.of_nat n < 2 ^ 64.

Lemma AddTxs_stored addr txs t :
  ∃ toAdd, stored (ts_txs (AddTxs addr txs t)) ≡ₚ toAdd ++ stored (ts_txs t) ∧
    toAdd = (to_add txs (ts_lookup t)).1 ∧
    ts_lookup (AddTxs addr txs t) = foldl (λ acc tx, {[tx_Hash tx]} ∪ acc) (to_add txs (ts_lookup t)).2 toAdd ∧
    ts_total (AddTxs addr txs t) = u64_add (ts_total t) (Z.of_nat (length toAdd)).
Proof.
  unfold AddTxs. destruct (to_add txs (ts_lookup t)) as [toAdd lookup]. exists toAdd. cbn. split_and!; [|done..].
  rewrite stored_put, (stored_default (ts_txs t) addr), app_assoc.
  destruct (ts_txs t !! addr) as [existing|]; cbn; [|by rewrite app_nil_r]. by rewrite (Permutation_app_comm existing).
Qed.

(** Adding transactions: those known already are skipped. *)
Lemma AddTxs_ok addr txs t :
  store_ok t → fits (length (stored (ts_txs t)) + length txs) → store_ok (AddTxs addr txs t).
Proof.
  intros [Hnd Hl Ht] Hfit. destruct (AddTxs_stored addr txs t) as (toAdd & Hp & Hto & Hlk & Htot).
  destruct (to_add txs (ts_lookup t)) as [toAdd' lookup] eqn:Heq. cbn in Hto. subst toAdd'.
  apply to_add_spec in Heq as (Hnd' & Hnew & Hl' & Hsub & _). apply sublist_length in Hsub. split.
  - rewrite Hp, fmap_app. apply NoDup_app. split_and!; [done| |done]. intros h Hh Hs. by apply (Hnew h), Hl.
  - intros h. rewrite Hlk, mark_again, Hp, fmap_app, elem_of_app, Hl', Hl. tauto.
  - rewrite Htot, Hp, length_app, Ht. unfold u64_add, fits in *. rewrite wrap_small by lia. lia.
Qed.

Lemma filter_nonce_split minNonce (txs : Transactions) :
  txs ≡ₚ filter (λ tx, minNonce ≤ tx_Nonce tx) txs ++ filter (λ tx, ¬ minNonce ≤ tx_Nonce tx) txs.
Proof.
  induction txs as [|tx txs IH]; [done|]. rewrite !filter_cons. destruct (decide (minNonce ≤ tx_Nonce tx)).
  - rewrite decide_False by tauto. cbn. by constructor.
  - rewrite decide_True by done. by rewrite <- Permutation_middle, <- IH.
Qed.

(** Removing an account's transactions from a nonce on. *)
Lemma RemoveTxsFromNonce_ok addr minNonce t :
  store_ok t → fits (length (stored (ts_txs t))) →
  let gone := filter (λ tx, minNonce ≤ tx_Nonce tx) (default [] (ts_txs t !! addr)) in
  store_ok (RemoveTxsFromNonce addr minNonce t) ∧
  stored (ts_txs t) ≡ₚ gone ++ stored (ts_txs (RemoveTxsFromNonce addr minNonce t)).
Proof.
  intros Hok Hfit. pose proof Hok as [Hnd Hl Ht]. unfold RemoveTxsFromNonce.
  destruct (ts_txs t !! addr) as [txs|] eqn:Ha; cbn; [|done].
  set (gone := filter (λ tx, minNonce ≤ tx_Nonce tx) txs). set (next := filter (λ tx, ¬ _ ≤ _) txs).
  set (m := if (_ =? _)%nat then _ else _).
  assert (Hm : stored m ≡ₚ next ++ stored (delete addr (ts_txs t))).
  { unfold m. destruct (Nat.eqb_spec (length next) 0) as [Hz%nil_length_inv|_]; [by rewrite Hz|]. apply stored_put. }
  assert (Hp : stored (ts_txs t) ≡ₚ gone ++ stored m).
  { rewrite Hm, (stored_at _ _ _ Ha), (filter_nonce_split minNonce txs) at 1. by rewrite app_assoc. }
  split; [|done]. rewrite Hp, fmap_app in Hnd. apply NoDup_app in Hnd as (Hnd1 & Hd & Hnd2). split; cbn.
  - done.
  - intros h. rewrite unmark, Hl, Hp, fmap_app, elem_of_app. specialize (Hd h). naive_solver.
  - rewrite Ht, Hp, length_app in *. unfold u64_sub, fits in *. rewrite wrap_small by lia. lia.
Qed.

(** *** What a block builder gets *)

Section TxsSpec.
Context (EffectiveGasTipIntCmp : Transaction → Z → option Z → comparison).
Definition priced_word (tx : Transaction) : Prop := 0 ≤ tx_GasFeeCap tx < 2 ^ 256 ∧ 0 ≤ tx_GasTipCap tx < 2 ^ 256.
Definition lazy_of (tx : Transaction) : LazyTransaction :=
  mkLazy (tx_Hash tx) tx (tx_GasFeeCap tx) (tx_GasTipCap tx) (tx_Gas tx).
(** What is returned for an account: its transactions up to the first one that
    pays too little, or nothing when that is the first of all. *)
Definition served (flt : PendingFilter) (txs : Transactions) (got : option (list LazyTransaction)) : Prop :=
  ∃ kept rest, txs = kept ++ rest ∧ (pf_MinTip flt = None → rest = []) ∧
    got = if (0 <? length kept)%nat then Some (lazy_of <$> kept) else None.

Lemma collect_run {S} (s : S) flt accounts pending :
  NoDup accounts.*1 → Forall (λ at_, Forall priced_word at_.2) accounts →
  ∃ m, collect EffectiveGasTipIntCmp accounts (pf_MinTip flt) (pf_BaseFee flt) pending s = (s, Ok m) ∧
    (∀ addr, addr ∉ accounts.*1 → m !! addr = pending !! addr) ∧
    (∀ addr txs, (addr, txs) ∈ accounts → pending !! addr = None → served flt txs (m !! addr)).
Proof.
  intros Hnd Hw. revert pending. induction Hw as [|[a txs] accounts Htxs _ IH]; intros pending; cbn [collect].
  { exists pending. split_and!; [done..|by intros ? ? ?%elem_of_nil]. }
  cbn in Hnd. apply NoDup_cons in Hnd as [Ha Hnd].
  destruct (filterAndWrapTxs_run EffectiveGasTipIntCmp s txs (pf_MinTip flt) (pf_BaseFee flt) Htxs)
    as (kept & rest & Heq & Hr & Hrun).
  unfold mbind at 1, M_bind at 1. rewrite Hrun. rewrite length_fmap.
  set (pending' := if (0 <? length kept)%nat then _ else _).
  assert (Hp' : ∀ addr, addr ≠ a → pending' !! addr = pending !! addr).
  { intros addr Hne. unfold pending'. case_match; [by rewrite lookup_insert_ne|done]. }
  destruct (IH Hnd pending') as (m & Hm & Hout & Hin). exists m. split_and!; [done| |].
  - intros addr [Hne Hni]%not_elem_of_cons. rewrite Hout by done. by apply Hp'.
  - intros addr txs' [[= -> ->]|Hi]%elem_of_cons Hnone.
    + exists kept, rest. split_and!; [done..|]. rewrite Hout by done. unfold pending'.
      case_match; [by rewrite lookup_insert_eq|done].
    + apply Hin; [done|]. rewrite Hp'; [done|]. intros ->. apply Ha, list_elem_of_fmap. by exists (a, txs').
Qed.

Lemma Txs_run flt t :
  pf_OnlyBlobTxs flt = false → map_Forall (λ _, Forall priced_word) (ts_txs t) →
  ∃ m, Txs EffectiveGasTipIntCmp flt t = (sort_txs t, Ok (Some m)) ∧
    ∀ addr txs, ts_txs t !! addr = Some txs → served flt (merge_sort SM.nonce_le txs) (m !! addr).
Proof.
  intros Hb Hw. unfold Txs. rewrite Hb. run_M.
  destruct (collect_run (sort_txs t) flt (map_to_list (ts_txs (sort_txs t))) ∅) as (m & Hm & _ & Hin).
  { apply NoDup_fst_map_to_list. }
  { apply Forall_forall. intros [a txs] (txs0 & <- & H)%elem_of_map_to_list%lookup_fmap_Some. cbn.
    rewrite merge_sort_Permutation. by apply (Hw a). }
  exists m. split; [cbn in Hm; by rewrite Hm|]. intros addr txs Ha. apply Hin; [|done].
  apply elem_of_map_to_list. unfold sort_txs. cbn. by rewrite lookup_fmap, Ha.
Qed.
End TxsSpec.
End TS.

(** ** [HeightSync] *)

Module HS.
Section HeightSync.
Context {Store : Type} (reset : Store).

(** The store of the current height; [hs_ended] is whether [done] is closed. *)
Record HeightSync := mkSync {
  hs_height : Z;
  hs_store : Store;
  hs_ended : bool;
}.
Implicit Types hs : HeightSync.
Abbreviation H := (M HeightSync Empty_set).

Definition EndCurrentHeight : H unit :=
  ended ← gets hs_ended;
  if ended : bool then panic "height already ended"
  else modify (λ hs, mkSync (hs_height hs) (hs_store hs) true).
Definition StartNewHeight (height : Z) : H unit :=
  ended ← gets hs_ended;
  if negb ended then panic "height not ended before starting new height"
  else modify (λ _, mkSync height reset false).
(** [New] ends its first height at once. *)
Definition New (startHeight : Z) : HeightSync := fst (EndCurrentHeight (mkSync startHeight reset false)).
Definition Do (fn : Store → Store) hs : HeightSync := mkSync (hs_height hs) (fn (hs_store hs)) (hs_ended hs).

(** What a caller of [GetStore] gets; a store is returned with whether its
    height had ended. *)
Inductive Got := GotNil | GotStore (height : Z) (s : Store) (complete : bool) | GotPanic.

(** A caller waiting for the end of a height sees the states the object goes
    through, until its context expires. *)
Fixpoint wait_done (cur : HeightSync) (later : list HeightSync) : Got :=
  if hs_ended cur then GotStore (hs_height cur) (hs_store cur) true
  else match later with
       | [] => GotStore (hs_height cur) (hs_store cur) false
       | hs :: later' => wait_done hs later'
       end.
Fixpoint GetStore (height : Z) (states : list HeightSync) : Got :=
  match states with
  | [] => GotNil
  | hs :: later =>
      match hs_height hs ?= height with
      | Gt => GotPanic
      | Eq => if hs_height hs =? 0 then GotStore (hs_height hs) (hs_store hs) (hs_ended hs) else wait_done hs later
      | Lt => GetStore height later
      end
  end.

(** One operation on the object. *)
Inductive step : HeightSync → HeightSync → Prop :=
| step_do fn hs : step hs (Do fn hs)
| step_start h hs hs' : StartNewHeight h hs = (hs', Ok tt) → step hs hs'
| step_end hs hs' : EndCurrentHeight hs = (hs', Ok tt) → step hs hs'.
(** The states a waiting caller may see. *)
Inductive run : list HeightSync → Prop :=
| run_one hs : run [hs]
| run_cons hs hs' rest : step hs hs' → run (hs' :: rest) → run (hs :: hs' :: rest).

Lemma StartNewHeight_run h hs hs' : StartNewHeight h hs = (hs', Ok tt) → hs_ended hs = true ∧ hs' = mkSync h reset false.
Proof. unfold StartNewHeight. run_M. destruct (hs_ended hs); cbn; naive_solver. Qed.
Lemma EndCurrentHeight_run hs hs' :
  EndCurrentHeight hs = (hs', Ok tt) → hs_ended hs = false ∧ hs' = mkSync (hs_height hs) (hs_store hs) true.
Proof. unfold EndCurrentHeight. run_M. destruct (hs_ended hs); cbn; naive_solver. Qed.

(** While a height has not ended, it stays the current one. *)
Lemma step_same_height hs hs' : step hs hs' → hs_ended hs = false → hs_height hs' = hs_height hs.
Proof.
  intros [fn hs1|h hs1 hs2 [? ?]%StartNewHeight_run|hs1 hs2 [? ->]%EndCurrentHeight_run] He; [done|congruence|done].
Qed.

Lemma wait_done_height later cur height s complete :
  run (cur :: later) → wait_done cur later = GotStore height s complete → height = hs_height cur.
Proof.
  revert cur. induction later as [|hs later IH]; intros cur Hr; cbn [wait_done];
    destruct (hs_ended cur) eqn:He; try by intros [= <- _ _].
  inversion Hr as [|? ? ? Hs Hr']; subst. intros Hg%IH; [|done]. rewrite Hg. by apply step_same_height.
Qed.

(** A caller is never given the store of another height. *)
Lemma GetStore_height states height h s complete :
  run states → GetStore height states = GotStore h s complete → h = height.
Proof.
  induction 1 as [hs|hs hs' rest Hs Hr IH]; cbn [GetStore];
    destruct (Z.compare_spec (hs_height hs) height) as [Heq| |]; try done.
  - destruct (hs_height hs =? 0); [by intros [= <- _ _]|]. intros Hg%wait_done_height; [congruence|constructor].
  - destruct (hs_height hs =? 0); [by intros [= <- _ _]|]. intros Hg%wait_done_height; [congruence|by constructor].
Qed.

(** The store returned is the one of a state the caller saw. *)
Lemma wait_done_member later cur h s complete :
  wait_done cur later = GotStore h s complete → ∃ hs, hs ∈ cur :: later ∧ hs_height hs = h ∧ hs_store hs = s.
Proof.
  revert cur. induction later as [|hs later IH]; intros cur; cbn [wait_done]; destruct (hs_ended cur);
    try (intros [= <- <- _]; exists cur; split_and!; [by left|done..]).
  intros (hs' & Hin & ?)%IH. exists hs'. split; [by right|done].
Qed.
Lemma GetStore_member states height h s complete :
  GetStore height states = GotStore h s complete → ∃ hs, hs ∈ states ∧ hs_height hs = h ∧ hs_store hs = s.
Proof.
  induction states as [|hs states IH]; [done|]. cbn [GetStore]. destruct (hs_height hs ?= height); [|intros (hs' & Hin & ?)%IH|done].
  - destruct (hs_height hs =? 0); [intros [= <- <- _]; exists hs; split_and!; [by left|done..]|]. apply wait_done_member.
  - exists hs'. split; [by right|done].
Qed.
(** Asking for a height that is not past never panics. *)
Lemma wait_done_no_panic later cur : wait_done cur later ≠ GotPanic.
Proof. revert cur. induction later; intros cur; cbn [wait_done]; by destruct (hs_ended cur). Qed.
Lemma GetStore_future height states : Forall (λ hs, hs_height hs ≤ height) states → GetStore height states ≠ GotPanic.
Proof.
  induction 1 as [|hs states Hh _ IH]; [done|]. cbn [GetStore]. destruct (Z.compare_spec (hs_height hs) height); [|done|lia].
  destruct (hs_height hs =? 0); [done|]. apply wait_done_no_panic.
Qed.
End HeightSync.
Arguments HeightSync : clear implicits.
End HS.

(** ** [Rechecked] *)

Section Rechecked.
Context (EffectiveGasTipIntCmp : Transaction → Z → option Z → comparison).
(** The transactions of the store a caller gets, which leaves its lists sorted;
    [None] is the nil map. *)
Definition Rechecked (height : Z) (flt : PendingFilter) (states : list (HS.HeightSync TS.TxStore)) :
    option TS.TxStore * res Empty_set (option (gmap Address (list LazyTransaction))) :=
  match HS.GetStore height states with
  | HS.GotNil => (None, Ok None)
  | HS.GotPanic => (None, Panic "cannot serve requests in the past")
  | HS.GotStore _ store _ => let '(store, r) := TS.Txs EffectiveGasTipIntCmp flt store in (Some store, r)
  end.

(** A builder that asks for a height the object does not pass while it waits is
    served from the store of that very height, every account in nonce order. *)
Lemma Rechecked_of_height height flt states :
  HS.run TS.NewTxStore states → Forall (λ hs, HS.hs_height hs ≤ height) states → pf_OnlyBlobTxs flt = false →
  Forall (λ hs, map_Forall (λ _, Forall TS.priced_word) (TS.ts_txs (HS.hs_store hs))) states →
  Rechecked height flt states = (None, Ok None) ∨
  ∃ hs m, hs ∈ states ∧ HS.hs_height hs = height ∧
    Rechecked height flt states = (Some (TS.sort_txs (HS.hs_store hs)), Ok (Some m)) ∧
    ∀ addr txs, TS.ts_txs (HS.hs_store hs) !! addr = Some txs → TS.served flt (merge_sort SM.nonce_le txs) (m !! addr).
Proof.
  intros Hrun Hpast Hb Hw. unfold Rechecked.
  destruct (HS.GetStore height states) as [|h t complete|] eqn:Hg; [by left| |].
  - pose proof (HS.GetStore_height _ _ _ _ _ _ Hrun Hg) as ->. right.
    destruct (HS.GetStore_member _ _ _ _ _ Hg) as (hs & Hin & Hh & <-).
    rewrite Forall_forall in Hw. destruct (TS.Txs_run EffectiveGasTipIntCmp flt (HS.hs_store hs) Hb (Hw hs Hin)) as (m & Hm & Hs).
    exists hs, m. by rewrite Hm.
  - exfalso. by apply (HS.GetStore_future height states).
Qed.
End Rechecked.
