(* ===== verification/CosmosStore.v ===== *)
(** The snapshot of Cosmos transactions valid at a height
    ([mempool/tx_store.go]): buckets of transactions by their set of signers, each
    in the order of nonces. *)
From stdpp Require Import pretty.
From S2P Require Import Prelude GoStd Heap.

Module CS.
Record signerSequence := mkSeq {
  sq_account : string;
  sq_seq : Z;
}.

Section Store.
(** The SDK: the signatures of a transaction (the string of the address of the
    key, and the sequence) unless it has none that can be read, and the choice of
    the nonce of an unordered transaction. *)
Context {Tx : Type} (GetSignaturesV2 : Tx → option (list (string * Z))) (ChooseNonce : Z → Tx → option Z).

Record cosmosTxWithMetadata := mkMeta {
  m_tx : Tx;
  m_nonceMap : gmap string Z;
  m_nonceSum : Z;
  m_signerKey : string;
  m_txKey : string;
}.
(** [b_signers] is [None] for the nil map of a missing bucket. *)
Record cosmosTxBucket := mkBucket {
  b_txs : list cosmosTxWithMetadata;
  b_signers : option (gset string);
}.
Record CosmosTxStore := mkStore {
  cs_txs : gmap string cosmosTxBucket;
  cs_nextUnkeyed : Z;
}.
Implicit Types s : CosmosTxStore.

Definition NewCosmosTxStore : CosmosTxStore := mkStore ∅ 0.

(** ** Keys *)

Definition extractSignerSequences (tx : Tx) : option (list signerSequence) :=
  match GetSignaturesV2 tx with
  | Some sigs => Some ((λ sig, mkSeq sig.1 sig.2) <$> sigs)
  | None => None
  end.
Fixpoint nonce_map (tx : Tx) (sigs : list signerSequence) (m : gmap string Z) : option (gmap string Z) :=
  match sigs with
  | [] => Some m
  | sig :: rest => nonce ← ChooseNonce (sq_seq sig) tx; nonce_map tx rest (<[sq_account sig := nonce]> m)
  end.
Definition cosmosTxNonceMap (tx : Tx) : option (gmap string Z) :=
  match extractSignerSequences tx with
  | None | Some [] => None
  | Some sigs => nonce_map tx sigs ∅
  end.
Definition account_le (x y : signerSequence) : Prop := String.compare (sq_account x) (sq_account y) ≠ Gt.
#[global] Instance account_le_dec x y : Decision (account_le x y).
Proof. unfold account_le. apply _. Defined.
Definition sortedSignerNonces (m : gmap string Z) : list signerSequence :=
  merge_sort account_le ((λ an, mkSeq an.1 an.2) <$> map_to_list m).
(** [strings.Builder] with a bar between the parts. *)
Definition cosmosTxSignerSetKey (m : gmap string Z) : string :=
  String.concat "|" (sq_account <$> sortedSignerNonces m).
(** ["%020d"]. *)
Fixpoint zeros (n : nat) : string := match n with O => "" | S n' => "0" +:+ zeros n' end.
Definition pad20 (n : Z) : string := let d := pretty (Z.to_N n) in zeros (20 - String.length d) +:+ d.
Definition cosmosTxKey (m : gmap string Z) : string :=
  String.concat "|" ((λ sig, sq_account sig +:+ "/" +:+ pad20 (sq_seq sig)) <$> sortedSignerNonces m).
Definition cosmosTxNonceSum (m : gmap string Z) : Z := foldl (λ total an, u64_add total an.2) 0 (map_to_list m).

Definition newCosmosTxWithMetadata (tx : Tx) : cosmosTxWithMetadata :=
  match cosmosTxNonceMap tx with
  | None => mkMeta tx ∅ 0 "" ""
  | Some m => mkMeta tx m (cosmosTxNonceSum m) (cosmosTxSignerSetKey m) (cosmosTxKey m)
  end.
Definition compareCosmosTxWithMetadata (a b : cosmosTxWithMetadata) : comparison :=
  if m_nonceSum a <? m_nonceSum b then Lt
  else if m_nonceSum b <? m_nonceSum a then Gt
  else String.compare (m_txKey a) (m_txKey b).
Definition meta_le (a b : cosmosTxWithMetadata) : Prop := compareCosmosTxWithMetadata a b ≠ Gt.
#[global] Instance meta_le_dec a b : Decision (meta_le a b).
Proof. unfold meta_le. apply _. Defined.

(** ** Operations *)

Definition unkeyedSignerKey : string := "unkeyed".
Definition newUnkeyedStoreKey s : string * CosmosTxStore :=
  ("unkeyed/" +:+ pretty (Z.to_N (cs_nextUnkeyed s)), mkStore (cs_txs s) (u64_add (cs_nextUnkeyed s) 1)).
Definition containsCosmosTx (bucket : list cosmosTxWithMetadata) (txKey : string) : bool :=
  existsb (λ tx, bool_decide (m_txKey tx = txKey)) bucket.
Definition signerSetFromNonceMap (m : gmap string Z) : gset string := dom m.

(** The transaction with the keys it is stored under. *)
Definition keyed (tx : Tx) s : cosmosTxWithMetadata * CosmosTxStore :=
  let t := newCosmosTxWithMetadata tx in
  let signerKey := if bool_decide (m_signerKey t = "") then unkeyedSignerKey else m_signerKey t in
  let '(txKey, s) := if bool_decide (m_txKey t = "") then newUnkeyedStoreKey s else (m_txKey t, s) in
  (mkMeta (m_tx t) (m_nonceMap t) (m_nonceSum t) signerKey txKey, s).
Definition AddTx (tx : Tx) s : CosmosTxStore :=
  let '(storedTx, s) := keyed tx s in
  let bucket := default (mkBucket [] None) (cs_txs s !! m_signerKey storedTx) in
  if containsCosmosTx (b_txs bucket) (m_txKey storedTx) then s
  else
    let signers := default (signerSetFromNonceMap (m_nonceMap storedTx)) (b_signers bucket) in
    mkStore (<[m_signerKey storedTx := mkBucket (merge_sort meta_le (b_txs bucket ++ [storedTx])) (Some signers)]> (cs_txs s))
      (cs_nextUnkeyed s).

Definition bucketContainsAnySigner (bucket : cosmosTxBucket) (thresholds : gmap string Z) : bool :=
  bool_decide (default ∅ (b_signers bucket) ∩ dom thresholds ≠ ∅).
Definition invalidatesCosmosTx (tx : cosmosTxWithMetadata) (thresholds : gmap string Z) : bool :=
  existsb (λ at_, match m_nonceMap tx !! at_.1 with Some nonce => at_.2 <=? nonce | None => false end) (map_to_list thresholds).
(** A bucket after the transactions that depend on the thresholds are gone;
    [None] when none is left. *)
Definition prune (thresholds : gmap string Z) (bucket : cosmosTxBucket) : option cosmosTxBucket :=
  if bucketContainsAnySigner bucket thresholds then
    let next := filter (λ tx, invalidatesCosmosTx tx thresholds = false) (b_txs bucket) in
    if (length next =? 0)%nat then None else Some (mkBucket next (b_signers bucket))
  else Some bucket.
Definition pruned (thresholds : gmap string Z) (bucket : cosmosTxBucket) : nat :=
  if bucketContainsAnySigner bucket thresholds then
    length (filter (λ tx, invalidatesCosmosTx tx thresholds = true) (b_txs bucket))
  else O.
(** The store and the number of transactions removed. *)
Definition InvalidateFrom (tx : Tx) s : CosmosTxStore * nat :=
  let t := newCosmosTxWithMetadata tx in
  if bool_decide (m_nonceMap t = ∅) || bool_decide (m_signerKey t = "") || bool_decide (m_txKey t = "") then (s, O)
  else
    match cs_txs s !! m_signerKey t with
    | None => (s, O)
    | Some bucket =>
        if containsCosmosTx (b_txs bucket) (m_txKey t) then
          (mkStore (omap (prune (m_nonceMap t)) (cs_txs s)) (cs_nextUnkeyed s),
           list_sum (pruned (m_nonceMap t) <$> (map_to_list (cs_txs s)).*2))
        else (s, O)
    end.

Definition string_cmp_le (x y : string) : Prop := String.compare x y ≠ Gt.
#[global] Instance string_cmp_le_dec x y : Decision (string_cmp_le x y).
Proof. unfold string_cmp_le. apply _. Defined.
Definition snapshotTxs s : list Tx :=
  concat ((λ key, m_tx <$> b_txs (default (mkBucket [] None) (cs_txs s !! key))) <$> merge_sort string_cmp_le (map_to_list (cs_txs s)).*1).
Definition Txs s : list Tx := snapshotTxs s.
(** What [Iterator] goes through; the nil iterator for an empty store. *)
Definition Iterator s : list Tx := if bool_decide (cs_txs s = ∅) then [] else snapshotTxs s.
Definition Len s : nat := list_sum ((λ b, length (b_txs b)) <$> (map_to_list (cs_txs s)).*2).

(** ** The keys tell sets of signers apart *)

(** Addresses of keys print as upper-case hexadecimal. *)
Definition hex_digit (c : Ascii.ascii) : bool := existsb (Ascii.eqb c) (String.list_ascii_of_string "0123456789ABCDEF").
Fixpoint all_hex (a : string) : bool := match a with EmptyString => true | String c a' => hex_digit c && all_hex a' end.
Definition address_string (a : string) : Prop := all_hex a = true ∧ a ≠ EmptyString.
(** What follows a part of a key: nothing, or a bar. *)
Definition after_part (r : string) : Prop := r = EmptyString ∨ ∃ r', r = "|" +:+ r'.

Lemma part_inj a b r1 r2 :
  all_hex a = true → all_hex b = true → after_part r1 → after_part r2 → a +:+ r1 = b +:+ r2 → a = b ∧ r1 = r2.
Proof.
  revert b. induction a as [|c a IH]; intros [|d b] Ha Hb H1 H2 Heq; cbn in *.
  - done.
  - exfalso. apply andb_prop in Hb as [Hd _]. destruct H1 as [->|[r' ->]]; [done|]. injection Heq as <- _. done.
  - exfalso. apply andb_prop in Ha as [Hc _]. destruct H2 as [->|[r' ->]]; [done|]. injection Heq as -> _. done.
  - apply andb_prop in Ha as [_ Ha], Hb as [_ Hb]. injection Heq as -> Heq. by destruct (IH b Ha Hb H1 H2 Heq) as [-> ->].
Qed.
Definition tail_parts (l : list string) : string := match l with [] => EmptyString | _ => "|" +:+ String.concat "|" l end.
Lemma concat_cons a l : String.concat "|" (a :: l) = a +:+ tail_parts l.
Proof. destruct l; [|done]. cbn. induction a as [|c a IH]; [done|]. change (String c a = String c (a +:+ EmptyString)). by rewrite <- IH. Qed.
Lemma after_tail l : after_part (tail_parts l).
Proof. destruct l; [by left|right]. by eexists. Qed.
Lemma concat_inj l1 l2 :
  Forall address_string l1 → Forall address_string l2 → String.concat "|" l1 = String.concat "|" l2 → l1 = l2.
Proof.
  intros H1. revert l2. induction H1 as [|a l1 [Ha Hne] Hl1 IH]; intros l2 H2 Heq; destruct H2 as [|b l2 [Hb Hbe] Hl2].
  - done.
  - rewrite concat_cons in Heq. by destruct b.
  - rewrite concat_cons in Heq. by destruct a.
  - rewrite !concat_cons in Heq. destruct (part_inj a b _ _ Ha Hb (after_tail _) (after_tail _) Heq) as [-> Ht].
    f_equal. apply IH; [done|]. destruct l1, l2; cbn in Ht |- *; try done. by injection Ht.
Qed.
Definition accounts_ok (m : gmap string Z) : Prop := ∀ a, a ∈ dom m → address_string a.

Lemma sorted_accounts m : sq_account <$> sortedSignerNonces m ≡ₚ (map_to_list m).*1.
Proof.
  unfold sortedSignerNonces. rewrite merge_sort_Permutation, <- list_fmap_compose. done.
Qed.
Lemma elem_of_accounts m a : a ∈ sq_account <$> sortedSignerNonces m ↔ a ∈ dom m.
Proof.
  rewrite sorted_accounts, elem_of_dom, list_elem_of_fmap. split.
  - intros ([b n] & -> & H%elem_of_map_to_list). by exists n.
  - intros [n H]. exists (a, n). by rewrite elem_of_map_to_list.
Qed.
Lemma sorted_accounts_ok m : accounts_ok m → Forall address_string (sq_account <$> sortedSignerNonces m).
Proof. intros H. apply Forall_forall. intros a Ha%elem_of_accounts. by apply H. Qed.
Lemma signerKey_inj m1 m2 :
  accounts_ok m1 → accounts_ok m2 → cosmosTxSignerSetKey m1 = cosmosTxSignerSetKey m2 → dom m1 = dom m2.
Proof.
  intros H1 H2 Heq. apply concat_inj in Heq; [|by apply sorted_accounts_ok..].
  apply set_eq. intros a. by rewrite <- !elem_of_accounts, Heq.
Qed.
Lemma signerKey_hex m : accounts_ok m → m ≠ ∅ → ∃ c r, cosmosTxSignerSetKey m = String c r ∧ hex_digit c = true.
Proof.
  intros Hok Hne. pose proof (sorted_accounts_ok m Hok) as Hf. unfold cosmosTxSignerSetKey.
  destruct (sq_account <$> sortedSignerNonces m) as [|a l] eqn:Hl.
  - exfalso. apply Hne, map_empty. intros a. apply eq_None_not_Some. intros Ha%elem_of_dom%elem_of_accounts.
    rewrite Hl in Ha. by apply elem_of_nil in Ha.
  - apply Forall_cons in Hf as [[Ha He] _]. destruct a as [|c a]; [done|]. rewrite concat_cons. cbn. cbn in Ha.
    apply andb_prop in Ha as [Hc _]. by eexists _, _.
Qed.

(** ** The invariant of the store *)

Definition printable : Prop := ∀ tx sigs a n, GetSignaturesV2 tx = Some sigs → (a, n) ∈ sigs → address_string a.

Lemma nonce_map_dom tx sigs m m' :
  nonce_map tx sigs m = Some m' → dom m' = dom m ∪ list_to_set (sq_account <$> sigs).
Proof.
  revert m. induction sigs as [|sig sigs IH]; intros m; cbn; [intros [= ->]; set_solver|].
  destruct (ChooseNonce (sq_seq sig) tx) as [nonce|]; [|done]. intros H%IH. rewrite H, dom_insert_L. set_solver.
Qed.
Lemma nonceMap_ok tx m : printable → cosmosTxNonceMap tx = Some m → accounts_ok m ∧ m ≠ ∅.
Proof.
  intros Hp. unfold cosmosTxNonceMap, extractSignerSequences. destruct (GetSignaturesV2 tx) as [sigs|] eqn:Hs; [|done].
  destruct sigs as [|sig sigs]; [done|]. intros H. pose proof H as H'%nonce_map_dom. split.
  - intros a. rewrite H'. set_unfold. intros [[]|(sq & -> & [b n] & -> & Hin)]. cbn.
    apply (Hp tx (sig :: sigs) b n); [done|]. by apply elem_of_cons.
  - intros ->. cbn in H'. set_solver.
Qed.

Lemma comparer_meta : comparer compareCosmosTxWithMetadata.
Proof.
  assert (Heq : ∀ a b, compareCosmosTxWithMetadata a b =
    then_by (m_nonceSum a ?= m_nonceSum b) (String.compare (m_txKey a) (m_txKey b))).
  { intros a b. unfold compareCosmosTxWithMetadata, Z.ltb. rewrite (Z.compare_antisym (m_nonceSum a) (m_nonceSum b)).
    by destruct (m_nonceSum a ?= m_nonceSum b). }
  destruct (comparer_then _ _ (comparer_on m_nonceSum _ comparer_Z) (comparer_on m_txKey _ comparer_string)) as [Hs Ht].
  split; intros *; rewrite !Heq; [apply Hs|apply Ht].
Qed.
#[global] Instance meta_le_total : Total meta_le.
Proof.
  intros a b. unfold meta_le. rewrite (cmp_sym _ comparer_meta a b). destruct (compareCosmosTxWithMetadata a b); cbn; auto.
Qed.
#[global] Instance meta_le_trans : Transitive meta_le.
Proof.
  intros a b c. unfold meta_le. pose proof (less_negtrans (HeapLessLaws := cmp_less_laws _ comparer_meta) a b c) as H.
  unfold less, cmp_less in H. rewrite (cmp_sym _ comparer_meta a b), (cmp_sym _ comparer_meta b c), (cmp_sym _ comparer_meta a c) in H.
  destruct (compareCosmosTxWithMetadata a b), (compareCosmosTxWithMetadata b c), (compareCosmosTxWithMetadata a c); cbn in H;
    try done; intros; discriminate (H eq_refl eq_refl).
Qed.

Record store_ok s : Prop := {
  so_filled key b : cs_txs s !! key = Some b → b_txs b ≠ [];
  so_nodup key b : cs_txs s !! key = Some b → NoDup (m_txKey <$> b_txs b);
  so_sorted key b : cs_txs s !! key = Some b → StronglySorted meta_le (b_txs b);
  so_meta key b t : cs_txs s !! key = Some b → t ∈ b_txs b →
    m_signerKey t = key ∧ b_signers b = Some (dom (m_nonceMap t)) ∧
    ((m_nonceMap t = ∅ ∧ key = unkeyedSignerKey) ∨
     (accounts_ok (m_nonceMap t) ∧ m_nonceMap t ≠ ∅ ∧ key = cosmosTxSignerSetKey (m_nonceMap t)));
}.
Lemma NewCosmosTxStore_ok : store_ok NewCosmosTxStore.
Proof. split; cbn; intros *; rewrite lookup_empty; done. Qed.

Lemma keyed_spec tx s t s' :
  printable → keyed tx s = (t, s') →
  cs_txs s' = cs_txs s ∧ m_tx t = tx ∧
  ((m_nonceMap t = ∅ ∧ m_signerKey t = unkeyedSignerKey) ∨
   (accounts_ok (m_nonceMap t) ∧ m_nonceMap t ≠ ∅ ∧ m_signerKey t = cosmosTxSignerSetKey (m_nonceMap t))).
Proof.
  intros Hp. unfold keyed, newCosmosTxWithMetadata. destruct (cosmosTxNonceMap tx) as [m|] eqn:Hm.
  2: { intros [= <- <-]. cbn. split_and!; auto. }
  cbn [m_signerKey m_txKey m_tx m_nonceMap m_nonceSum].
  destruct (nonceMap_ok tx m Hp Hm) as [Hok Hne]. destruct (signerKey_hex m Hok Hne) as (c & r & Hk & _).
  rewrite (bool_decide_false (cosmosTxSignerSetKey m = "")) by (by rewrite Hk).
  case_bool_decide; intros [= <- <-]; cbn [cs_txs m_signerKey m_txKey m_tx m_nonceMap]; split_and!; auto.
Qed.
(** Transactions stored under one key have the same signers. *)
Lemma same_signers key m1 m2 :
  (m1 = ∅ ∧ key = unkeyedSignerKey) ∨ (accounts_ok m1 ∧ m1 ≠ ∅ ∧ key = cosmosTxSignerSetKey m1) →
  (m2 = ∅ ∧ key = unkeyedSignerKey) ∨ (accounts_ok m2 ∧ m2 ≠ ∅ ∧ key = cosmosTxSignerSetKey m2) → dom m1 = dom m2.
Proof.
  assert (Hu : ∀ m, accounts_ok m → m ≠ ∅ → cosmosTxSignerSetKey m ≠ unkeyedSignerKey).
  { intros m Hok Hne Heq. destruct (signerKey_hex m Hok Hne) as (c & r & Hk & Hc). rewrite Heq in Hk.
    injection Hk as <- _. done. }
  intros [[-> ->]|(H1 & Hn1 & ->)] [[-> Hk]|(H2 & Hn2 & Hk)].
  - done.
  - by destruct (Hu m2).
  - by destruct (Hu m1).
  - by apply signerKey_inj.
Qed.

Lemma AddTx_ok tx s : printable → store_ok s → store_ok (AddTx tx s).
Proof.
  intros Hp Hs. unfold AddTx. destruct (keyed tx s) as [t s'] eqn:Hk. apply keyed_spec in Hk as (Htxs & Hmt & Hkey); [|done].
  assert (Hs' : store_ok s') by (destruct Hs; split; rewrite Htxs; done).
  destruct (containsCosmosTx _ _) eqn:Hdup; [done|]. set (key := m_signerKey t) in *.
  set (bucket := default (mkBucket [] None) (cs_txs s' !! key)) in *.
  assert (Hold : ∀ u, u ∈ b_txs bucket → m_signerKey u = key ∧ b_signers bucket = Some (dom (m_nonceMap u)) ∧
    ((m_nonceMap u = ∅ ∧ key = unkeyedSignerKey) ∨
     (accounts_ok (m_nonceMap u) ∧ m_nonceMap u ≠ ∅ ∧ key = cosmosTxSignerSetKey (m_nonceMap u)))).
  { intros u Hu. unfold bucket in *. destruct (cs_txs s' !! key) as [b|] eqn:Hb; [|by apply elem_of_nil in Hu]. by apply (so_meta _ Hs'). }
  assert (Hnd : NoDup (m_txKey <$> b_txs bucket)).
  { unfold bucket. destruct (cs_txs s' !! key) as [b|] eqn:Hb; [by apply (so_nodup _ Hs' key)|constructor]. }
  assert (Hsig : default (signerSetFromNonceMap (m_nonceMap t)) (b_signers bucket) = dom (m_nonceMap t)).
  { destruct (b_signers bucket) as [S|] eqn:HS; [|done]. cbn. unfold bucket in *.
    destruct (cs_txs s' !! key) as [b|] eqn:Hb; [|done]. pose proof (so_filled _ Hs' _ _ Hb) as Hne. cbn in *.
    destruct (b_txs b) as [|u l] eqn:Hl; [done|]. destruct (Hold u ltac:(by left)) as (_ & HSu & Hu).
    assert (S = dom (m_nonceMap u)) as -> by congruence. by apply (same_signers key). }
  assert (Hdisj : m_txKey t ∉ m_txKey <$> b_txs bucket).
  { intros (u & Hu & Hin)%list_elem_of_fmap. apply not_true_iff_false in Hdup. apply Hdup. unfold containsCosmosTx.
    apply existsb_exists. exists u. split; [by apply list_elem_of_In|]. by apply bool_decide_true. }
  set (new := mkBucket (merge_sort meta_le (b_txs bucket ++ [t])) (Some (default (signerSetFromNonceMap (m_nonceMap t)) (b_signers bucket)))).
  assert (Hin : ∀ u, u ∈ b_txs new → u ∈ b_txs bucket ∨ u = t).
  { intros u. unfold new. cbn. rewrite merge_sort_Permutation, elem_of_app, list_elem_of_singleton. done. }
  split; cbn [cs_txs]; intros k b; (destruct (decide (k = key)) as [->|Hne];
    [rewrite lookup_insert_eq|rewrite lookup_insert_ne by done]); try (by apply Hs'); try intros [= <-].
  - intros Hnil. assert (t ∈ b_txs new) as Ht; [|by fold new in Hnil; rewrite Hnil in Ht; apply elem_of_nil in Ht].
    cbn. rewrite merge_sort_Permutation. apply elem_of_app. right. by apply list_elem_of_singleton.
  - cbn. rewrite merge_sort_Permutation, fmap_app. apply NoDup_app. split_and!; [done| |apply NoDup_singleton].
    intros x Hx ->%list_elem_of_singleton. done.
  - apply (StronglySorted_merge_sort meta_le).
  - intros u [= <-] Hu. fold new in Hu. apply Hin in Hu as [Hu| ->].
    + destruct (Hold u Hu) as (H1 & H2 & H3). split_and!; [done| |done]. cbn. by rewrite H2.
    + split_and!; [done| |done]. cbn. by rewrite Hsig.
Qed.

(** ** Invalidation *)

(** What depends on a transaction with these nonces. *)
Definition depends (thresholds : gmap string Z) (t : cosmosTxWithMetadata) : Prop :=
  ∃ a threshold nonce, thresholds !! a = Some threshold ∧ m_nonceMap t !! a = Some nonce ∧ threshold ≤ nonce.
Lemma invalidates_spec t thresholds : invalidatesCosmosTx t thresholds = true ↔ depends thresholds t.
Proof.
  unfold invalidatesCosmosTx, depends. rewrite existsb_exists. split.
  - intros ([a threshold] & Hin%list_elem_of_In%elem_of_map_to_list & H). cbn in H.
    destruct (m_nonceMap t !! a) as [nonce|] eqn:Hn; [|done]. exists a, threshold, nonce. zbool. split_and!; [done..|lia].
  - intros (a & threshold & nonce & Ht & Hn & Hle). exists (a, threshold). split.
    + by apply list_elem_of_In, elem_of_map_to_list.
    + cbn. rewrite Hn. by apply Z.leb_le.
Qed.
Lemma not_depends t thresholds : invalidatesCosmosTx t thresholds = false ↔ ¬ depends thresholds t.
Proof. by rewrite <- invalidates_spec, not_true_iff_false. Qed.
(** The signers recorded with a bucket tell whether one of its transactions can
    depend on the thresholds. *)
Lemma skipped_bucket s key b t thresholds :
  store_ok s → cs_txs s !! key = Some b → t ∈ b_txs b → bucketContainsAnySigner b thresholds = false → ¬ depends thresholds t.
Proof.
  intros Hs Hb Ht Hno (a & threshold & nonce & Ha & Hn & _). destruct (so_meta _ Hs _ _ _ Hb Ht) as (_ & Hsig & _).
  unfold bucketContainsAnySigner in Hno. apply bool_decide_eq_false, dec_stable in Hno. rewrite Hsig in Hno. cbn in Hno.
  assert (a ∈ dom (m_nonceMap t) ∩ dom thresholds); [|set_solver].
  apply elem_of_intersection. split; by apply elem_of_dom_2 in Ha, Hn.
Qed.
Lemma strongly_filter {A} (R : A → A → Prop) (P : A → Prop) `{!∀ x, Decision (P x)} l :
  StronglySorted R l → StronglySorted R (filter P l).
Proof.
  induction 1 as [|x l Hl IH Hx]; [constructor|]. rewrite filter_cons. case_decide; [|done]. constructor; [done|].
  apply Forall_forall. intros y [_ Hy]%list_elem_of_filter. by eapply Forall_forall in Hx.
Qed.
(** What a bucket keeps: the transactions that depend on nothing below, in
    order. *)
Lemma prune_kept s key b b' thresholds :
  store_ok s → cs_txs s !! key = Some b → prune thresholds b = Some b' →
  b_signers b' = b_signers b ∧ b_txs b' ≠ [] ∧
  b_txs b' = filter (λ t, invalidatesCosmosTx t thresholds = false) (b_txs b).
Proof.
  intros Hs Hb. unfold prune. destruct (bucketContainsAnySigner b thresholds) eqn:Hany.
  - destruct (Nat.eqb_spec (length (filter (λ t, invalidatesCosmosTx t thresholds = false) (b_txs b))) 0) as [|Hne]; [done|].
    intros [= <-]. cbn. split_and!; [done| |done]. intros Hnil. by rewrite Hnil in Hne.
  - intros [= <-]. split_and!; [done|by apply (so_filled _ Hs key)|]. symmetry. apply filter_all, Forall_forall.
    intros t Ht. apply not_depends. by eapply skipped_bucket.
Qed.
Lemma prune_none s key b thresholds t :
  store_ok s → cs_txs s !! key = Some b → prune thresholds b = None → t ∈ b_txs b → depends thresholds t.
Proof.
  intros Hs Hb. unfold prune. destruct (bucketContainsAnySigner b thresholds); [|done].
  destruct (Nat.eqb_spec (length (filter (λ t, invalidatesCosmosTx t thresholds = false) (b_txs b))) 0) as [He|]; [|done].
  intros _ Ht. apply invalidates_spec, not_false_iff_true. intros Hf. apply nil_length_inv in He.
  assert (t ∈ filter (λ t, invalidatesCosmosTx t thresholds = false) (b_txs b)) as H by (by apply list_elem_of_filter).
  rewrite He in H. by apply elem_of_nil in H.
Qed.

(** Replacing a stored transaction drops exactly the stored transactions that
    share a signer with it at the same or a later nonce; otherwise nothing is
    dropped. *)
Lemma InvalidateFrom_spec tx s :
  store_ok s →
  let t := newCosmosTxWithMetadata tx in
  let '(s', n) := InvalidateFrom tx s in
  store_ok s' ∧
  (s' = s ∧ n = O ∨
   (∃ b, cs_txs s !! m_signerKey t = Some b ∧ m_txKey t ∈ m_txKey <$> b_txs b) ∧
   ∀ key u, (∃ b, cs_txs s' !! key = Some b ∧ u ∈ b_txs b) ↔
     (∃ b, cs_txs s !! key = Some b ∧ u ∈ b_txs b) ∧ ¬ depends (m_nonceMap t) u).
Proof.
  intros Hs. cbv zeta. unfold InvalidateFrom. set (t := newCosmosTxWithMetadata tx). set (th := m_nonceMap t).
  destruct (_ || _ || _); [by split; [|left]|]. destruct (cs_txs s !! m_signerKey t) as [b|] eqn:Hb; [|by split; [|left]].
  destruct (containsCosmosTx (b_txs b) (m_txKey t)) eqn:Hc; [|by split; [|left]].
  split.
  - split; cbn [cs_txs]; intros k b' *; rewrite lookup_omap_Some; intros (b0 & Hp & Hk);
      destruct (prune_kept _ _ _ _ _ Hs Hk Hp) as (H1 & H2 & H3).
    + done.
    + rewrite H3. eapply sublist_NoDup; [by apply (so_nodup _ Hs k)|]. apply fmap_sublist, sublist_filter.
    + rewrite H3. by apply strongly_filter, (so_sorted _ Hs k).
    + rewrite H1, H3. intros [_ Hu]%list_elem_of_filter. by apply (so_meta _ Hs).
  - right. split.
    + exists b. split; [done|]. unfold containsCosmosTx in Hc. apply existsb_exists in Hc as (u & Hu%list_elem_of_In & He).
      apply bool_decide_eq_true in He. rewrite <- He. by apply list_elem_of_fmap_2.
    + intros key u. cbn [cs_txs]. setoid_rewrite lookup_omap_Some. split.
      * intros (b' & (b0 & Hp & Hk) & Hu). destruct (prune_kept _ _ _ _ _ Hs Hk Hp) as (_ & _ & H3).
        rewrite H3 in Hu. apply list_elem_of_filter in Hu as [Hn Hu]. split; [by exists b0|by apply not_depends].
      * intros [(b0 & Hk & Hu) Hn]. destruct (prune th b0) as [b'|] eqn:Hp; [|by destruct Hn; eapply prune_none].
        exists b'. split; [by exists b0|]. destruct (prune_kept _ _ _ _ _ Hs Hk Hp) as (_ & _ & ->).
        apply list_elem_of_filter. split; [by apply not_depends|done].
Qed.
End Store.
End CS.
