(* ===== verification/BlockOrder.v ===== *)
(** The order in which a block builder takes transactions: the EVM transactions
    by price and nonce ([mempool/miner/ordering.go]), the Cosmos ones by fee and
    nonce ([mempool/cosmos_ordering.go]), and the iterator over both
    ([mempool/iterator.go]).

    Both orders keep the next transaction of every account in a heap and refill it
    from the account's list; the refinement to a greedy merge is proved once. *)
From S2P Require Import Prelude GoStd AccessList Sdk Heap TxList PoolList TxStore CosmosStore.

(** ** Merging lists through a heap of their heads *)

Section Merge.
Context {K T W : Type} `{EqDecision K, Countable K} `{HI : Inhabited W, HL : !HeapLess W}.
(** The entry of the heap for an item of a list, unless the item is unusable. *)
Context (entry : K → T → option W) (key : W → K).

Record Heads := mkHeads {
  h_txs : gmap K (list T);
  h_heads : list W;
}.
Implicit Types h : Heads.

(** Drop the root and its account. *)
Definition pop_account h : Heads := mkHeads (h_txs h) (fst (Pop (h_heads h))).
(** Replace the root by the next item of its account. *)
Definition shift h : Heads :=
  let k := key (h_heads h !!! 0%nat) in
  match h_txs h !! k with
  | Some (t :: later) =>
      match entry k t with
      | Some w => mkHeads (<[k := later]> (h_txs h)) (Fix_ 0 (<[0%nat := w]> (h_heads h)))
      | None => pop_account h
      end
  | _ => pop_account h
  end.

(** The items an account can still give: up to the first unusable one. *)
Fixpoint usable (k : K) (ts : list T) : list W :=
  match ts with
  | [] => []
  | t :: rest => match entry k t with Some w => w :: usable k rest | None => [] end
  end.

Context `{HLL : !HeapLessLaws W}.
Context (entry_key : ∀ k t w, entry k t = Some w → key w = k).

(** [h] holds the queues [Q]. *)
Record holds h (Q : K → list W) : Prop := {
  ho_heap : is_heap (h_heads h);
  ho_keys : NoDup (key <$> h_heads h);
  ho_head w : w ∈ h_heads h → Q (key w) = w :: usable (key w) (default [] (h_txs h !! key w));
  ho_none k : k ∉ key <$> h_heads h → Q k = [];
}.
(** [Q'] is [Q] with the queue of [k] replaced. *)
Definition becomes (Q Q' : K → list W) (k : K) (rest : list W) : Prop :=
  Q' k = rest ∧ ∀ k', k' ≠ k → Q' k' = Q k'.
(** [w] is at the front of the queue of [k] and no front is better. *)
Definition best (Q : K → list W) (k : K) (w : W) (rest : list W) : Prop :=
  Q k = w :: rest ∧ key w = k ∧ ∀ k' w' rest', Q k' = w' :: rest' → le w w'.

Lemma root_in h : h_heads h ≠ [] → h_heads h !!! 0%nat ∈ h_heads h.
Proof. destruct (h_heads h); [done|]. intros _. by left. Qed.

Lemma holds_best h Q :
  holds h Q → h_heads h ≠ [] →
  let w := h_heads h !!! 0%nat in best Q (key w) w (usable (key w) (default [] (h_txs h !! key w))).
Proof.
  intros [Hh Hk Hhd Hn] Hne w. destruct (Pop_spec _ Hh Hne) as (_ & _ & _ & Hmin).
  split_and!; [by apply Hhd, root_in|done|]. intros k' w' rest' Hq.
  destruct (decide (k' ∈ key <$> h_heads h)) as [(w'' & -> & Hin)%list_elem_of_fmap|Hni]; [|by rewrite Hn in Hq].
  rewrite (Hhd _ Hin) in Hq. injection Hq as <- _. by apply Hmin.
Qed.
Lemma holds_empty h Q : holds h Q → h_heads h = [] → ∀ k, Q k = [].
Proof. intros Hh He k. apply (ho_none _ _ Hh). rewrite He. apply not_elem_of_nil. Qed.

(** The root leaves the heap. *)
Lemma pop_holds h Q :
  holds h Q → h_heads h ≠ [] →
  let k := key (h_heads h !!! 0%nat) in
  holds (pop_account h) (λ k', if decide (k' = k) then [] else Q k').
Proof.
  intros [Hh Hk Hhd Hn] Hne k. destruct (Pop_spec _ Hh Hne) as (_ & Hp & Hh' & _).
  unfold pop_account. set (l' := (Pop (h_heads h)).1) in *.
  rewrite <- Hp in Hk. apply NoDup_cons in Hk as [Hni Hnd]. split; cbn [h_heads h_txs]; [done|done| |].
  - intros w Hw. rewrite decide_False.
    + apply Hhd. rewrite <- Hp. by right.
    + intros Hkw. apply Hni. fold k. rewrite <- Hkw. by apply list_elem_of_fmap_2.
  - intros k' Hk'. case_decide as Heq; [done|]. apply Hn. rewrite <- Hp. cbn. by apply not_elem_of_cons.
Qed.

Lemma shift_holds h Q :
  holds h Q → h_heads h ≠ [] →
  let w := h_heads h !!! 0%nat in
  ∃ Q', holds (shift h) Q' ∧ becomes Q Q' (key w) (usable (key w) (default [] (h_txs h !! key w))).
Proof.
  intros Hho Hne w. pose proof Hho as [Hh Hk Hhd Hn].
  assert (Hpop : usable (key w) (default [] (h_txs h !! key w)) = [] →
    ∃ Q', holds (pop_account h) Q' ∧ becomes Q Q' (key w) (usable (key w) (default [] (h_txs h !! key w)))).
  { intros ->. eexists. split; [by apply pop_holds|]. split; [by rewrite decide_True|].
    intros k' Hk'. by rewrite decide_False. }
  unfold shift. fold w. destruct (h_txs h !! key w) as [[|t later]|] eqn:Htx; [by apply Hpop| |by apply Hpop].
  destruct (entry (key w) t) as [w'|] eqn:He; [|apply Hpop; cbn; by rewrite He].
  clear Hpop. cbn [default]. exists (λ k, if decide (k = key w) then usable (key w) (t :: later) else Q k).
  split; [|split; [by rewrite decide_True|intros k' ?; by rewrite decide_False]].
  destruct (Fix_root w' _ Hh Hne) as [Hh' Hp]. pose proof (entry_key _ _ _ He) as Hkw.
  assert (Hhw : h_heads h = w :: tail (h_heads h)) by (unfold w; by destruct (h_heads h)).
  rewrite Hhw in Hk. apply NoDup_cons in Hk as [Hni Hnd]. split; cbn [h_heads h_txs]; [done| | |].
  - rewrite Hp. cbn. rewrite Hkw. by apply NoDup_cons.
  - intros v. rewrite Hp. intros [->|Hv]%elem_of_cons.
    + rewrite Hkw, decide_True, lookup_insert_eq by done. cbn. by rewrite He.
    + assert (key v ≠ key w) by (intros Heq; apply Hni; rewrite <- Heq; by apply list_elem_of_fmap_2).
      rewrite decide_False, lookup_insert_ne by done. apply Hhd. rewrite Hhw. by right.
  - intros k Hk. rewrite Hp in Hk. cbn in Hk. rewrite Hkw in Hk. apply not_elem_of_cons in Hk as [Hk1 Hk2].
    rewrite decide_False by done. apply Hn. rewrite Hhw. cbn. by apply not_elem_of_cons.
Qed.

(** What is left, as a bound on the number of steps. *)
Definition left_in h : nat := (length (h_heads h) + list_sum (length <$> (map_to_list (h_txs h)).*2))%nat.

Lemma sum_at (m : gmap K (list T)) k t later :
  m !! k = Some (t :: later) →
  list_sum (length <$> (map_to_list m).*2) = S (list_sum (length <$> (map_to_list (<[k := later]> m)).*2)).
Proof.
  intros Hk. rewrite <- (insert_delete_id m k (t :: later) Hk) at 1. rewrite <- (insert_delete_eq m k later).
  rewrite !map_to_list_insert by apply lookup_delete_eq. cbn. lia.
Qed.
Lemma pop_left h : is_heap (h_heads h) → h_heads h ≠ [] → left_in h = S (left_in (pop_account h)).
Proof.
  intros Hh Hne. destruct (Pop_spec _ Hh Hne) as (_ & Hp & _). unfold left_in, pop_account. cbn [h_heads h_txs].
  apply Permutation_length in Hp. cbn in Hp. lia.
Qed.
Lemma shift_left h : is_heap (h_heads h) → h_heads h ≠ [] → left_in h = S (left_in (shift h)).
Proof.
  intros Hh Hne. unfold shift. destruct (h_txs h !! _) as [[|t later]|] eqn:Htx; [by apply pop_left| |by apply pop_left].
  destruct (entry _ t) as [w'|]; [|by apply pop_left]. destruct (Fix_root w' _ Hh Hne) as [_ Hp].
  unfold left_in. cbn [h_heads h_txs]. rewrite (sum_at _ _ _ _ Htx). apply Permutation_length in Hp. cbn in Hp. rewrite Hp.
  destruct (h_heads h); [done|]. cbn. lia.
Qed.

(** *** Filling the heap *)

(** The loop over the accounts of a constructor; [empty] says whether an account
    without items is dropped or panics. *)
Fixpoint fill (empty : bool) (accounts : list K) h : res Empty_set Heads :=
  match accounts with
  | [] => Ok h
  | k :: rest =>
      match h_txs h !! k with
      | Some (t :: later) =>
          match entry k t with
          | Some w => fill empty rest (mkHeads (<[k := later]> (h_txs h)) (h_heads h ++ [w]))
          | None => fill empty rest (mkHeads (delete k (h_txs h)) (h_heads h))
          end
      | _ => if empty then fill empty rest (mkHeads (delete k (h_txs h)) (h_heads h)) else Panic "index out of range"
      end
  end.
Definition init_heads h : Heads := mkHeads (h_txs h) (Init (h_heads h)).

Definition queues (txs : gmap K (list T)) (k : K) : list W := usable k (default [] (txs !! k)).

(** The heap being filled: accounts seen have their head in it. *)
Record filling (Q : K → list W) (todo : list K) h : Prop := {
  fi_keys : NoDup (key <$> h_heads h);
  fi_head w : w ∈ h_heads h → Q (key w) = w :: usable (key w) (default [] (h_txs h !! key w));
  fi_todo k : k ∈ todo → k ∉ key <$> h_heads h ∧ Q k = usable k (default [] (h_txs h !! k));
  fi_none k : k ∉ todo → k ∉ key <$> h_heads h → Q k = [];
}.

Lemma filling_skip Q k todo h :
  NoDup (k :: todo) → filling Q (k :: todo) h → Q k = [] → filling Q todo (mkHeads (delete k (h_txs h)) (h_heads h)).
Proof.
  intros [Hni _]%NoDup_cons [H1 H2 H3 H4] Hq. destruct (H3 k (list_elem_of_here _ _)) as [Hk _]. split; cbn [h_heads h_txs].
  - done.
  - intros w Hw. rewrite lookup_delete_ne; [by apply H2|]. intros Heq. apply Hk. rewrite Heq. by apply list_elem_of_fmap_2.
  - intros k' Hk'. rewrite lookup_delete_ne by (intros ->; done). apply H3. by right.
  - intros k' Ht Hh. destruct (decide (k' = k)) as [->|]; [done|]. apply H4; [by apply not_elem_of_cons|done].
Qed.
Lemma filling_push Q k t later w todo h :
  NoDup (k :: todo) → filling Q (k :: todo) h → h_txs h !! k = Some (t :: later) → entry k t = Some w →
  filling Q todo (mkHeads (<[k := later]> (h_txs h)) (h_heads h ++ [w])).
Proof.
  intros [Hni _]%NoDup_cons [H1 H2 H3 H4] Ht He. destruct (H3 k (list_elem_of_here _ _)) as [Hk Hq].
  rewrite Ht in Hq. cbn in Hq. rewrite He in Hq. pose proof (entry_key _ _ _ He) as Hkw. split; cbn [h_heads h_txs].
  - rewrite fmap_app. apply NoDup_app. split_and!; [done| |by apply NoDup_singleton].
    intros k' Hk' ->%list_elem_of_singleton. by rewrite Hkw in Hk'.
  - intros v [Hv| ->%list_elem_of_singleton]%elem_of_app; [|by rewrite Hkw, lookup_insert_eq].
    rewrite lookup_insert_ne; [by apply H2|]. intros Heq. apply Hk. rewrite Heq. by apply list_elem_of_fmap_2.
  - intros k' Hk'. destruct (H3 k' ltac:(by right)) as [Hn Hq']. assert (k' ≠ k) by (by intros ->).
    rewrite lookup_insert_ne by done. split; [|done]. rewrite fmap_app, not_elem_of_app. split; [done|]. cbn. rewrite Hkw.
    by apply not_elem_of_cons; split; [|apply not_elem_of_nil].
  - intros k' Ht' Hh. rewrite fmap_app, not_elem_of_app in Hh. destruct Hh as [Hh Hw]. cbn in Hw. rewrite Hkw in Hw.
    apply not_elem_of_cons in Hw as [Hw _]. apply H4; [by apply not_elem_of_cons|done].
Qed.
Lemma fill_filling empty Q todo h :
  NoDup todo → filling Q todo h → (empty = false → ∀ k, k ∈ todo → ∃ t later, h_txs h !! k = Some (t :: later)) →
  ∃ h', fill empty todo h = Ok h' ∧ filling Q [] h'.
Proof.
  revert h. induction todo as [|k todo IH]; intros h Hnd Hf He; cbn [fill]; [by exists h|].
  pose proof Hnd as [Hni Hnd']%NoDup_cons. pose proof (proj2 (fi_todo _ _ _ Hf k (list_elem_of_here _ _))) as Hq.
  assert (Hother : ∀ x, empty = false → ∀ k', k' ∈ todo → ∃ t later, <[k := x]> (h_txs h) !! k' = Some (t :: later)).
  { intros x Hem k' Hk'. rewrite lookup_insert_ne by (by intros ->). apply He; [done|by right]. }
  assert (Hother' : empty = false → ∀ k', k' ∈ todo → ∃ t later, delete k (h_txs h) !! k' = Some (t :: later)).
  { intros Hem k' Hk'. rewrite lookup_delete_ne by (by intros ->). apply He; [done|by right]. }
  destruct (h_txs h !! k) as [[|t later]|] eqn:Ht.
  1,3: destruct empty;
    [apply IH; [done|by apply filling_skip|done]
    |exfalso; destruct (He eq_refl k (list_elem_of_here _ _)) as (? & ? & Hsome); congruence].
  cbn in Hq. destruct (entry k t) as [w|] eqn:Hen.
  - apply IH; [done|by eapply filling_push|by apply Hother].
  - apply IH; [done|by apply filling_skip|done].
Qed.
Lemma sum_delete (m : gmap K (list T)) k :
  (list_sum (length <$> (map_to_list (delete k m)).*2) ≤ list_sum (length <$> (map_to_list m).*2))%nat.
Proof.
  destruct (m !! k) as [ts|] eqn:Hk; [|by rewrite delete_id]. rewrite <- (insert_delete_id m k ts Hk) at 2.
  rewrite map_to_list_insert by apply lookup_delete_eq. unfold list_sum. cbn. lia.
Qed.
Lemma fill_left empty accounts h h' : fill empty accounts h = Ok h' → (left_in h' ≤ left_in h)%nat.
Proof.
  assert (Hdel : ∀ k h, (left_in (mkHeads (delete k (h_txs h)) (h_heads h)) ≤ left_in h)%nat).
  { intros k h1. unfold left_in. cbn. pose proof (sum_delete (h_txs h1) k). lia. }
  revert h. induction accounts as [|k rest IH]; intros h; cbn [fill]; [by intros [= ->]|].
  destruct (h_txs h !! k) as [[|t later]|] eqn:Hk.
  1,3: destruct empty; [|done]; intros Hf%IH; etransitivity; [exact Hf|apply Hdel].
  destruct (entry k t) as [w|]; intros Hf%IH; (etransitivity; [exact Hf|]); [|apply Hdel].
  unfold left_in. cbn. rewrite length_app, (sum_at _ _ _ _ Hk). cbn. lia.
Qed.
(** A constructor holds the usable parts of the lists it is given. *)
Lemma fill_holds empty accounts txs :
  accounts ≡ₚ (map_to_list txs).*1 → (empty = false → ∀ k ts, txs !! k = Some ts → ts ≠ []) →
  ∃ h, fill empty accounts (mkHeads txs []) = Ok h ∧ holds (init_heads h) (queues txs) ∧
    (left_in (init_heads h) ≤ list_sum (length <$> (map_to_list txs).*2))%nat.
Proof.
  intros Hacc Hne. assert (Hin : ∀ k, k ∈ accounts ↔ is_Some (txs !! k)).
  { intros k. rewrite Hacc, list_elem_of_fmap. split.
    - intros ([k' ts] & -> & Hk%elem_of_map_to_list). by exists ts.
    - intros [ts Hk]. exists (k, ts). split; [done|by apply elem_of_map_to_list]. }
  destruct (fill_filling empty (queues txs) accounts (mkHeads txs [])) as (h & Hfill & [H1 H2 _ H4]).
  - rewrite Hacc. apply NoDup_fst_map_to_list.
  - split; cbn; [constructor|by intros w ?%elem_of_nil| |].
    + intros k _. split; [apply not_elem_of_nil|done].
    + intros k Hk _. unfold queues. destruct (txs !! k) eqn:Ht; [|done]. exfalso. apply Hk, Hin. by eexists.
  - intros Hem k [[|t later] Hk]%Hin; [by destruct (Hne Hem k [] Hk)|]. by exists t, later.
  - exists h. destruct (Init_spec (h_heads h)) as [Hh Hp]. split_and!; [done| |].
    + split; cbn [init_heads h_heads h_txs]; [done|by rewrite Hp|intros w; rewrite Hp; apply H2|].
      intros k. rewrite Hp. apply H4, not_elem_of_nil.
    + apply fill_left in Hfill. unfold left_in in *. cbn in *. apply Permutation_length in Hp. lia.
Qed.

(** *** The greedy merge *)

(** Taking the best front until all queues are empty. *)
Inductive merged : (K → list W) → list W → Prop :=
| merged_nil Q : (∀ k, Q k = []) → merged Q []
| merged_cons Q Q' k w rest out : best Q k w rest → becomes Q Q' k rest → merged Q' out → merged Q (w :: out).

(** Every queue comes out whole and in its order. *)
Lemma merged_queue Q out k : merged Q out → filter (λ w, key w = k) out = Q k.
Proof.
  induction 1 as [Q Hnil|Q Q' k' w rest out (Hq & Hk & _) [Hb Ho] _ IH]; [by rewrite Hnil|].
  rewrite filter_cons. case_decide as Hw.
  - assert (k' = k) as -> by congruence. by rewrite IH, Hb, Hq.
  - rewrite IH. apply Ho. congruence.
Qed.
End Merge.
Arguments Heads K T W {_ _}.

(** ** EVM transactions by price and nonce *)

Module MO.
Record txWithMinerFee := mkMinerFee {
  wf_tx : LazyTransaction;
  wf_from : Address;
  wf_fees : Z;
}.
#[global] Instance txWithMinerFee_inhabited : Inhabited txWithMinerFee :=
  populate (mkMinerFee (mkLazy 0 inhabitant 0 0 0) 0 0).

(** [None] when the fee cap is below the base fee. *)
Definition newTxWithMinerFee (baseFee : option Z) (from : Address) (tx : LazyTransaction) : option txWithMinerFee :=
  match baseFee with
  | None => Some (mkMinerFee tx from (lz_GasTipCap tx))
  | Some fee =>
      if lz_GasFeeCap tx <? fee then None
      else
        let tip := u256_sub (lz_GasFeeCap tx) fee in
        Some (mkMinerFee tx from (if lz_GasTipCap tx <? tip then lz_GasTipCap tx else tip))
  end.

Section Order.
(** [tx.Time]: when a transaction was first seen. *)
Context (tx_Time : Transaction → Z).
(** [Less] of [txByPriceAndTime]. *)
#[export] Instance txByPriceAndTime_Less : HeapLess txWithMinerFee := λ x y,
  match wf_fees x ?= wf_fees y with
  | Eq => tx_Time (lz_Tx (wf_tx x)) <? tx_Time (lz_Tx (wf_tx y))
  | Gt => true
  | Lt => false
  end.
#[export] Instance txByPriceAndTime_laws : HeapLessLaws txWithMinerFee.
Proof.
  assert (Heq : ∀ x y, less x y = cmp_less (λ x y, then_by (wf_fees y ?= wf_fees x)
    (tx_Time (lz_Tx (wf_tx x)) ?= tx_Time (lz_Tx (wf_tx y)))) x y).
  { intros x y. unfold less, txByPriceAndTime_Less, cmp_less, then_by, Z.ltb.
    rewrite (Z.compare_antisym (wf_fees x)). by destruct (wf_fees x ?= wf_fees y). }
  assert (Hc : comparer (λ x y, then_by (wf_fees y ?= wf_fees x)
    (tx_Time (lz_Tx (wf_tx x)) ?= tx_Time (lz_Tx (wf_tx y))))).
  { apply comparer_then; [apply (comparer_on wf_fees (λ a b, b ?= a))|
      apply (comparer_on (λ w, tx_Time (lz_Tx (wf_tx w))) Z.compare)]; auto with cmp. }
  destruct (cmp_less_laws _ Hc) as [H1 H2]. split; intros *; rewrite !Heq; [apply H1|apply H2].
Qed.

Record TransactionsByPriceAndNonce := mkByPrice {
  t_heads : Heads Address LazyTransaction txWithMinerFee;
  t_baseFee : option Z;
}.
Implicit Types t : TransactionsByPriceAndNonce.

(** The constructor visits the accounts in the order of Go's map. *)
Definition NewTransactionsByPriceAndNonce (accounts : list Address) (txs : gmap Address (list LazyTransaction))
    (baseFee : option Z) : res Empty_set TransactionsByPriceAndNonce :=
  let assemble (fee : option Z) :=
    match fill (newTxWithMinerFee fee) false accounts (mkHeads txs []) with
    | Ok h => Ok (mkByPrice (init_heads h) fee)
    | Err e => Err e
    | Panic s => Panic s
    end in
  match baseFee with
  | None => assemble None
  | Some fee => let '(v, overflow) := TL.FromBig fee in if overflow : bool then Panic "uint256: overflow" else assemble (Some v)
  end.
Definition Peek t : option txWithMinerFee := h_heads (t_heads t) !! 0%nat.
Definition Empty t : bool := (length (h_heads (t_heads t)) =? 0)%nat.
(** Both take the root, which panics on an empty heap. *)
Definition Shift t : res Empty_set TransactionsByPriceAndNonce :=
  if Empty t then Panic "index out of range"
  else Ok (mkByPrice (shift (newTxWithMinerFee (t_baseFee t)) wf_from (t_heads t)) (t_baseFee t)).
Definition Pop t : res Empty_set TransactionsByPriceAndNonce :=
  if Empty t then Panic "index out of range" else Ok (mkByPrice (pop_account (t_heads t)) (t_baseFee t)).
Definition Clear t : TransactionsByPriceAndNonce := mkByPrice (mkHeads ∅ []) (t_baseFee t).

Lemma newTxWithMinerFee_from baseFee from tx w : newTxWithMinerFee baseFee from tx = Some w → wf_from w = from ∧ wf_tx w = tx.
Proof. unfold newTxWithMinerFee. repeat case_match; by intros [= <-]. Qed.

(** The queues of the accounts: their transactions up to the first whose fee cap
    is below the base fee, each with the tip it pays. *)
Definition payable (baseFee : option Z) (txs : gmap Address (list LazyTransaction)) : Address → list txWithMinerFee :=
  queues (newTxWithMinerFee baseFee) txs.
Definition has t (Q : Address → list txWithMinerFee) : Prop :=
  holds (newTxWithMinerFee (t_baseFee t)) wf_from (t_heads t) Q.

Lemma New_has accounts txs baseFee :
  accounts ≡ₚ (map_to_list txs).*1 → (∀ a ts, txs !! a = Some ts → ts ≠ []) →
  match baseFee with Some fee => 0 ≤ fee < 2 ^ 256 | None => True end →
  ∃ t, NewTransactionsByPriceAndNonce accounts txs baseFee = Ok t ∧ has t (payable baseFee txs) ∧
    (left_in (t_heads t) ≤ list_sum (length <$> (map_to_list txs).*2))%nat.
Proof.
  intros Hacc Hne Hfee.
  destruct (fill_holds (newTxWithMinerFee baseFee) wf_from (λ k tx w Hw, proj1 (newTxWithMinerFee_from _ _ _ _ Hw))
    false accounts txs Hacc (λ _, Hne)) as (h & Hfill & Hh & Hleft).
  exists (mkByPrice (init_heads h) baseFee). split; [|done]. unfold NewTransactionsByPriceAndNonce.
  destruct baseFee as [fee|]; [|by rewrite Hfill]. unfold TL.FromBig. rewrite wrap_small, (proj2 (Z.leb_gt _ _)) by lia.
  by rewrite Hfill.
Qed.
(** The best transaction, and taking it or its whole account. *)
Lemma Peek_some t Q :
  has t Q → match Peek t with
  | None => Empty t = true ∧ ∀ a, Q a = []
  | Some w => ∃ rest, best wf_from Q (wf_from w) w rest ∧
      (∃ t' Q', Shift t = Ok t' ∧ has t' Q' ∧ becomes Q Q' (wf_from w) rest ∧ left_in (t_heads t) = S (left_in (t_heads t'))) ∧
      (∃ t' Q', Pop t = Ok t' ∧ has t' Q' ∧ becomes Q Q' (wf_from w) [] ∧ left_in (t_heads t) = S (left_in (t_heads t')))
  end.
Proof.
  intros Hh. unfold Peek. destruct (h_heads (t_heads t)) as [|w l] eqn:Hl; cbn.
  { split; [unfold Empty; by rewrite Hl|]. by eapply holds_empty. }
  assert (Hne : h_heads (t_heads t) ≠ []) by (by rewrite Hl). assert (Hw : h_heads (t_heads t) !!! 0%nat = w) by (by rewrite Hl).
  assert (He : Empty t = false) by (unfold Empty; by rewrite Hl).
  assert (Hk : ∀ k tx v, newTxWithMinerFee (t_baseFee t) k tx = Some v → wf_from v = k).
  { intros k tx v Hv. by destruct (newTxWithMinerFee_from _ _ _ _ Hv). }
  pose proof (holds_best _ _ _ _ Hh Hne) as Hbest. cbv zeta in Hbest. rewrite Hw in Hbest.
  eexists. split; [exact Hbest|]. unfold Shift, Pop. rewrite He. split.
  - destruct (shift_holds _ _ Hk _ _ Hh Hne) as (Q' & Hh' & Hb). rewrite Hw in Hb. eexists _, Q'. split_and!; [done|done|done|].
    cbn. apply shift_left; [apply _|exact (ho_heap _ _ _ _ Hh)|done].
  - eexists _, _. split; [done|]. split; [apply (pop_holds _ _ _ _ Hh Hne)|]. rewrite Hw. split.
    + split; [by rewrite decide_True|]. intros k' ?. by rewrite decide_False.
    + cbn. apply pop_left; [exact (ho_heap _ _ _ _ Hh)|done].
Qed.
End Order.
End MO.

(** ** Cosmos transactions by fee and nonce *)

(** [sdkmempool.Iterator]: the current transaction, and the rest. *)
Section Iterators.
Context {Tx I : Type} (it_Tx : I → option Tx) (it_Next : I → option I).
(** The transactions an iterator goes through. *)
Inductive yields : option I → list Tx → Prop :=
| yields_nil : yields None []
| yields_end i : it_Tx i = None → yields (Some i) []
| yields_tx i tx txs : it_Tx i = Some tx → yields (it_Next i) txs → yields (Some i) (tx :: txs).
End Iterators.

Module CO.
Import CS.
Section Order.
(** [sdk.FeeTx]: the fee by denomination and the gas, for transactions with fees. *)
Context {Tx : Type} `{HI : Inhabited Tx} (FeeTx : Tx → option (list (string * Z) * Z)).

Definition extractCosmosEffectiveTip (tx : Tx) (bondDenom : string) (baseFee : option Z) : Z :=
  match FeeTx tx with
  | None => 0
  | Some (fees, gas) =>
      let bondDenomFeeAmount := foldl (λ amount coin, if bool_decide (coin.1 = bondDenom) then coin.2 else amount) 0 fees in
      if gas =? 0 then 0
      else
        let '(gasPrice, overflow) := TL.FromBig (Z.quot bondDenomFeeAmount gas) in
        if overflow : bool then 0
        else
          match baseFee with
          | None => gasPrice
          | Some fee => if gasPrice <? fee then 0 else u256_sub gasPrice fee
          end
  end.

Record cosmosTxWithPriority := mkPriority {
  cp_tx : cosmosTxWithMetadata (Tx := Tx);
  cp_signerKey : string;
  cp_fee : Z;
}.
#[export] Instance cosmosTxWithPriority_inhabited : Inhabited cosmosTxWithPriority :=
  populate (mkPriority (mkMeta inhabitant ∅ 0 "" "") "" 0).
(** [Less] of [cosmosTxByPriceAndNonce]. *)
#[export] Instance cosmosTxByPriceAndNonce_Less : HeapLess cosmosTxWithPriority := λ x y,
  match cp_fee x ?= cp_fee y with
  | Eq =>
      match String.compare (cp_signerKey x) (cp_signerKey y) with
      | Eq => match compareCosmosTxWithMetadata (cp_tx x) (cp_tx y) with Lt => true | _ => false end
      | Lt => true
      | Gt => false
      end
  | Gt => true
  | Lt => false
  end.
#[export] Instance cosmosTxByPriceAndNonce_laws : HeapLessLaws cosmosTxWithPriority.
Proof.
  set (f := λ x y : cosmosTxWithPriority, then_by (cp_fee y ?= cp_fee x)
    (then_by (String.compare (cp_signerKey x) (cp_signerKey y)) (compareCosmosTxWithMetadata (cp_tx x) (cp_tx y)))).
  assert (Heq : ∀ x y, less x y = cmp_less f x y).
  { intros x y. unfold less, cosmosTxByPriceAndNonce_Less, cmp_less, f, then_by. rewrite (Z.compare_antisym (cp_fee x)).
    destruct (cp_fee x ?= cp_fee y); [|done..]. cbn. by destruct (String.compare _ _). }
  assert (Hc : comparer f).
  { unfold f. apply comparer_then; [apply (comparer_on cp_fee (λ a b, b ?= a)); auto with cmp|].
    apply comparer_then; [apply (comparer_on cp_signerKey String.compare)|apply (comparer_on cp_tx), comparer_meta]; auto with cmp. }
  destruct (cmp_less_laws _ Hc) as [H1 H2]. split; intros *; rewrite !Heq; [apply H1|apply H2].
Qed.

Record CosmosTransactionsByPriceAndNonce := mkCosmos {
  ct_heads : Heads string (cosmosTxWithMetadata (Tx := Tx)) cosmosTxWithPriority;
  ct_bondDenom : string;
  ct_baseFee : option Z;
}.
Implicit Types t : CosmosTransactionsByPriceAndNonce.

Definition prioritise (bondDenom : string) (baseFee : option Z) (signerKey : string) (tx : cosmosTxWithMetadata) :
    option cosmosTxWithPriority :=
  Some (mkPriority tx signerKey (extractCosmosEffectiveTip (m_tx tx) bondDenom baseFee)).
(** [None] is the nil iterator. *)
Definition or_nil t : option CosmosTransactionsByPriceAndNonce :=
  if (length (h_heads (ct_heads t)) =? 0)%nat then None else Some t.
Definition NewCosmosTransactionsByPriceAndNonce (keys : list string) (txs : gmap string (list cosmosTxWithMetadata))
    (bondDenom : string) (baseFee : option Z) : option CosmosTransactionsByPriceAndNonce :=
  match fill (prioritise bondDenom baseFee) true keys (mkHeads txs []) with
  | Ok h => or_nil (mkCosmos (init_heads h) bondDenom baseFee)
  | _ => None
  end.
Definition Tx_ t : option Tx := (λ w, m_tx (cp_tx w)) <$> h_heads (ct_heads t) !! 0%nat.
Definition Next t : option CosmosTransactionsByPriceAndNonce :=
  if (length (h_heads (ct_heads t)) =? 0)%nat then None
  else or_nil (mkCosmos (shift (prioritise (ct_bondDenom t) (ct_baseFee t)) cp_signerKey (ct_heads t)) (ct_bondDenom t) (ct_baseFee t)).
Definition OrderedIterator (keys : list string) (s : CosmosTxStore (Tx := Tx)) (bondDenom : string) (baseFee : option Z) :
    option CosmosTransactionsByPriceAndNonce :=
  if bool_decide (cs_txs s = ∅) then None
  else NewCosmosTransactionsByPriceAndNonce keys (b_txs <$> cs_txs s) bondDenom baseFee.

Lemma prioritise_key bondDenom baseFee k tx w : prioritise bondDenom baseFee k tx = Some w → cp_signerKey w = k.
Proof. by intros [= <-]. Qed.

(** The iterator goes through the greedy merge of the queues. *)
Lemma heads_yield bondDenom baseFee n h Q :
  left_in h = n → holds (prioritise bondDenom baseFee) cp_signerKey h Q →
  ∃ ws, merged cp_signerKey Q ws ∧ yields Tx_ Next (or_nil (mkCosmos h bondDenom baseFee)) ((λ w, m_tx (cp_tx w)) <$> ws).
Proof.
  revert h Q. induction n as [|n IH]; intros h Q Hn Hh; unfold or_nil; cbn [ct_heads].
  - destruct (Nat.eqb_spec (length (h_heads h)) 0) as [He|He]; [|unfold left_in in Hn; lia].
    exists []. split; [|constructor]. constructor. eapply holds_empty; [done|]. by apply nil_length_inv.
  - destruct (Nat.eqb_spec (length (h_heads h)) 0) as [He|He].
    { exists []. split; [|constructor]. constructor. eapply holds_empty; [done|]. by apply nil_length_inv. }
    assert (Hne : h_heads h ≠ []) by (by intros H; rewrite H in He).
    pose proof (holds_best _ _ _ _ Hh Hne) as Hbest. cbv zeta in Hbest.
    destruct (shift_holds _ _ (prioritise_key bondDenom baseFee) _ _ Hh Hne) as (Q' & Hh' & Hb). cbv zeta in Hb.
    assert (left_in (shift (prioritise bondDenom baseFee) cp_signerKey h) = n) as Hn'.
    { assert (left_in h = S (left_in (shift (prioritise bondDenom baseFee) cp_signerKey h))); [|lia].
      apply shift_left; [apply _|exact (ho_heap _ _ _ _ Hh)|done]. }
    destruct (IH _ _ Hn' Hh') as (ws & Hm & Hy). set (w := h_heads h !!! 0%nat) in *.
    exists (w :: ws). split; [by econstructor|]. cbn [fmap list_fmap]. constructor.
    + unfold Tx_. cbn. by rewrite (list_lookup_lookup_total_lt _ 0%nat) by lia.
    + unfold Next. cbn [ct_heads ct_bondDenom ct_baseFee]. by rewrite (proj2 (Nat.eqb_neq _ _)).
Qed.
Lemma usable_prioritised bondDenom baseFee k txs :
  usable (prioritise bondDenom baseFee) k txs =
  (λ tx, mkPriority tx k (extractCosmosEffectiveTip (m_tx tx) bondDenom baseFee)) <$> txs.
Proof. induction txs as [|tx txs IH]; [done|]. cbn. by rewrite IH. Qed.

(** The ordered iterator of a store goes through all its transactions, those of
    one set of signers in the order of their nonces, and always next the best one
    that this leaves. *)
Lemma OrderedIterator_yields keys (s : CosmosTxStore (Tx := Tx)) bondDenom baseFee :
  keys ≡ₚ (map_to_list (cs_txs s)).*1 →
  ∃ ws, yields Tx_ Next (OrderedIterator keys s bondDenom baseFee) ((λ w, m_tx (cp_tx w)) <$> ws) ∧
    merged cp_signerKey (queues (prioritise bondDenom baseFee) (b_txs <$> cs_txs s)) ws ∧
    ∀ key b, cs_txs s !! key = Some b → cp_tx <$> filter (λ w, cp_signerKey w = key) ws = b_txs b.
Proof.
  intros Hkeys. assert (Hkeys' : keys ≡ₚ (map_to_list (b_txs <$> cs_txs s)).*1).
  { rewrite map_to_list_fmap, <- list_fmap_compose. done. }
  destruct (fill_holds (prioritise bondDenom baseFee) cp_signerKey (prioritise_key bondDenom baseFee) true keys _ Hkeys')
    as (h & Hfill & Hh & _); [done|].
  destruct (heads_yield bondDenom baseFee _ _ _ eq_refl Hh) as (ws & Hm & Hy). exists ws. split_and!; [|done|].
  - unfold OrderedIterator. case_bool_decide as He.
    + rewrite He in Hkeys. rewrite map_to_list_empty in Hkeys. apply Permutation_nil_r in Hkeys. subst keys.
      cbn in Hfill. injection Hfill as <-. exact Hy.
    + unfold NewCosmosTransactionsByPriceAndNonce. by rewrite Hfill.
  - intros key b Hb. rewrite (merged_queue _ _ _ _ Hm). unfold queues. rewrite lookup_fmap, Hb. cbn.
    rewrite usable_prioritised, <- list_fmap_compose. apply list_fmap_id.
Qed.
End Order.
End CO.

(** ** The iterator over both *)

Module IT.
Import MO.
Inductive nextAction := none | advance | skipAccount.

Section Iterator.
Context (tx_Time : Transaction → Z).
(** Any iterator over Cosmos transactions, and their fees. *)
Context {Tx I : Type} (it_Tx : I → option Tx) (it_Next : I → option I) (FeeTx : Tx → option (list (string * Z) * Z)).
(** The conversion of a signed transaction ([FromSignedEthereumTx], [BuildTx]):
    [None] is an error. *)
Context {Msg : Type} (FromSignedEthereumTx : Transaction → option Msg) (BuildTx : Msg → string → option Tx).
Context (bondDenom : string).
Abbreviation best_ := (best (HL := txByPriceAndTime_Less tx_Time) wf_from).

Record EVMMempoolIterator := mkIter {
  i_evm : option TransactionsByPriceAndNonce;
  i_cosmos : option I;
  i_currentTx : option Tx;
  i_nextEVMAction : nextAction;
  i_nextCosmosAction : nextAction;
  i_baseFee : option Z;
}.
Implicit Types i : EVMMempoolIterator.

(** The base fee of the current block; [None] when there is none. *)
Definition currentBaseFee (header : option (option Z)) : option Z :=
  match header with
  | Some (Some fee) => let '(v, overflow) := TL.FromBig fee in if overflow : bool then None else Some v
  | _ => None
  end.

Definition handleNextEVMAction i : res Empty_set EVMMempoolIterator :=
  let moved t := mkIter t (i_cosmos i) (i_currentTx i) none (i_nextCosmosAction i) (i_baseFee i) in
  let step (op : TransactionsByPriceAndNonce → res Empty_set TransactionsByPriceAndNonce) :=
    match i_evm i with
    | Some t => match op t with Ok t' => Ok (moved (Some t')) | Err e => Err e | Panic s => Panic s end
    | None => Ok (moved None)
    end in
  match i_nextEVMAction i with
  | advance => step (Shift tx_Time)
  | skipAccount => step (Pop tx_Time)
  | none => Ok (moved (i_evm i))
  end.
Definition handleNextCosmosAction i : EVMMempoolIterator :=
  let cosmos := match i_nextCosmosAction i, i_cosmos i with
                | advance, Some c => it_Next c
                | _, c => c
                end in
  mkIter (i_evm i) cosmos (i_currentTx i) (i_nextEVMAction i) none (i_baseFee i).

Definition peekEVM i : option txWithMinerFee := t ← i_evm i; Peek t.
Definition peekCosmos i : option (Tx * Z) :=
  c ← i_cosmos i; tx ← it_Tx c; Some (tx, CO.extractCosmosEffectiveTip FeeTx tx bondDenom (i_baseFee i)).
Definition shouldSelectEVMTx (evm : option txWithMinerFee) (cosmos : option (Tx * Z)) : bool :=
  match evm, cosmos with
  | None, _ => false
  | Some _, None => true
  | Some w, Some (_, cosmosFee) => if cosmosFee =? 0 then true else negb (wf_fees w <? cosmosFee)
  end.
Definition convertEVMToSDKTx (tx : LazyTransaction) : option Tx :=
  msg ← FromSignedEthereumTx (lz_Tx tx); BuildTx msg bondDenom.
Definition resolveCurrentTx i : EVMMempoolIterator :=
  let evm := peekEVM i in
  let cosmos := peekCosmos i in
  let use_cosmos evmAction := mkIter (i_evm i) (i_cosmos i) (fst <$> cosmos) evmAction advance (i_baseFee i) in
  match evm, cosmos with
  | None, None => mkIter (i_evm i) (i_cosmos i) None none none (i_baseFee i)
  | _, _ =>
      if shouldSelectEVMTx evm cosmos then
        match (w ← evm; convertEVMToSDKTx (wf_tx w)) with
        | Some sdkTx => mkIter (i_evm i) (i_cosmos i) (Some sdkTx) advance (i_nextCosmosAction i) (i_baseFee i)
        | None => use_cosmos skipAccount
        end
      else use_cosmos (i_nextEVMAction i)
  end.
(** The iterator, or nil when it has no transaction. *)
Definition resolved i : option EVMMempoolIterator :=
  let i := resolveCurrentTx i in
  match i_currentTx i with Some _ => Some i | None => None end.
Definition Next i : res Empty_set (option EVMMempoolIterator) :=
  match handleNextEVMAction i with
  | Ok i => Ok (resolved (handleNextCosmosAction i))
  | Err e => Err e
  | Panic s => Panic s
  end.
Definition NewEVMMempoolIterator (evm : option TransactionsByPriceAndNonce) (cosmos : option I) (header : option (option Z)) :
    option EVMMempoolIterator :=
  let hasEVM := match evm with Some t => negb (Empty t) | None => false end in
  let hasCosmos := match cosmos with Some c => bool_decide (is_Some (it_Tx c)) | None => false end in
  if negb hasEVM && negb hasCosmos then None
  else resolved (mkIter evm cosmos None none none (currentBaseFee header)).

(** The transactions a block builder gets, calling [Next] until it returns nil. *)
Fixpoint collect_all (fuel : nat) (it : option EVMMempoolIterator) : res Empty_set (list Tx) :=
  match it, fuel with
  | None, _ | _, O => Ok []
  | Some i, S fuel' =>
      match Next i with
      | Ok it' =>
          match collect_all fuel' it' with
          | Ok txs => Ok (match i_currentTx i with Some tx => tx :: txs | None => txs end)
          | r => r
          end
      | Err e => Err e
      | Panic s => Panic s
      end
  end.

(** ** What it goes through *)

Abbreviation tip c := (CO.extractCosmosEffectiveTip FeeTx c bondDenom).
(** An EVM transaction is preferred unless the Cosmos one pays a strictly higher
    tip. *)
Definition preferred (fee : option Z) (w : txWithMinerFee) (cs : list Tx) : Prop :=
  match cs with [] => True | c :: _ => tip c fee = 0 ∨ tip c fee ≤ wf_fees w end.
(** From queues of EVM transactions and a list of Cosmos ones: the transactions
    given out, with the EVM transaction each comes from.  A transaction that cannot
    be converted drops the rest of its account; when no Cosmos transaction is left
    to fall back on, it ends the iteration. *)
Inductive built (fee : option Z) : (Address → list txWithMinerFee) → list Tx → list (option txWithMinerFee * Tx) → Prop :=
| built_end Q : (∀ a, Q a = []) → built fee Q [] []
| built_evm Q Q' cs a w rest tx out :
    best_ Q a w rest → preferred fee w cs → convertEVMToSDKTx (wf_tx w) = Some tx →
    becomes Q Q' a rest → built fee Q' cs out → built fee Q cs ((Some w, tx) :: out)
| built_cosmos Q c cs out :
    (∀ a w rest, best_ Q a w rest → ¬ preferred fee w (c :: cs)) → built fee Q cs out → built fee Q (c :: cs) ((None, c) :: out)
| built_skip Q Q' c cs a w rest out :
    best_ Q a w rest → preferred fee w (c :: cs) → convertEVMToSDKTx (wf_tx w) = None →
    becomes Q Q' a [] → built fee Q' cs out → built fee Q (c :: cs) ((None, c) :: out)
| built_stuck Q a w rest : best_ Q a w rest → convertEVMToSDKTx (wf_tx w) = None → built fee Q [] [].

(** An iterator between two calls, with what is left on both sides. *)
Record settled i (Q : Address → list txWithMinerFee) (cs : list Tx) : Prop := {
  se_evm_action : i_nextEVMAction i = none;
  se_cosmos_action : i_nextCosmosAction i = none;
  se_evm : match i_evm i with Some t => has tx_Time t Q | None => ∀ a, Q a = [] end;
  se_cosmos : yields it_Tx it_Next (i_cosmos i) cs;
}.
Definition left_of i (cs : list Tx) : nat :=
  (match i_evm i with Some t => left_in (t_heads t) | None => O end + length cs)%nat.

Lemma best_fees Q a w rest a' w' rest' : best_ Q a w rest → best_ Q a' w' rest' → wf_fees w' ≤ wf_fees w.
Proof.
  intros (_ & _ & Hmin) (Hq & _). specialize (Hmin _ _ _ Hq). unfold le, less, txByPriceAndTime_Less in Hmin.
  destruct (Z.compare_spec (wf_fees w') (wf_fees w)); [lia|lia|done].
Qed.

(** The EVM side of a settled iterator. *)
Lemma evm_side i Q cs :
  settled i Q cs →
  match peekEVM i with
  | None => ∀ a, Q a = []
  | Some w => ∃ t a rest, i_evm i = Some t ∧ best_ Q a w rest ∧
      (∃ t' Q', Shift tx_Time t = Ok t' ∧ has tx_Time t' Q' ∧ becomes Q Q' a rest ∧ left_in (t_heads t) = S (left_in (t_heads t'))) ∧
      (∃ t' Q', Pop tx_Time t = Ok t' ∧ has tx_Time t' Q' ∧ becomes Q Q' a [] ∧ left_in (t_heads t) = S (left_in (t_heads t')))
  end.
Proof.
  intros [_ _ Hevm _]. unfold peekEVM. destruct (i_evm i) as [t|]; [|done]. cbn. pose proof (Peek_some tx_Time t Q Hevm) as Hp.
  destruct (Peek t) as [w|]; [|by destruct Hp]. destruct Hp as (rest & Hb & Hs & Hpop). by exists t, (wf_from w), rest.
Qed.
(** The Cosmos side. *)
Lemma cosmos_side i Q cs :
  settled i Q cs →
  match cs with
  | [] => peekCosmos i = None
  | c :: cs' => peekCosmos i = Some (c, tip c (i_baseFee i)) ∧ ∃ ci, i_cosmos i = Some ci ∧ yields it_Tx it_Next (it_Next ci) cs'
  end.
Proof.
  intros [_ _ _ Hc]. unfold peekCosmos. inversion Hc as [Hi Hcs|ci Ht Hi Hcs|ci c cs' Ht Hy Hi Hcs]; subst; cbn.
  - done.
  - by rewrite Ht.
  - rewrite Ht. split; [done|]. by exists ci.
Qed.
Lemma shouldSelect_preferred fee w cs :
  shouldSelectEVMTx (Some w) (match cs with [] => None | c :: _ => Some (c, tip c fee) end) = true ↔ preferred fee w cs.
Proof.
  unfold shouldSelectEVMTx, preferred. destruct cs as [|c cs]; [done|]. destruct (Z.eqb_spec (tip c fee) 0) as [H|H]; [by split; [left|]|].
  rewrite negb_true_iff, Z.ltb_ge. split; [by right|by intros [?|?]].
Qed.

(** One call of [Next] takes one step of the specification. *)
Definition progress i (Q : Address → list txWithMinerFee) (cs : list Tx) i' (tx : Tx) : Prop :=
  ∃ i'' Q' cs' src, Next i' = Ok (resolved i'') ∧ settled i'' Q' cs' ∧ i_baseFee i'' = i_baseFee i ∧
    (left_of i'' cs' < left_of i cs)%nat ∧
    ∀ out, built (i_baseFee i) Q' cs' out → built (i_baseFee i) Q cs ((src, tx) :: out).

Lemma take_cosmos i Q c cs :
  settled i Q (c :: cs) → (∀ a w rest, best_ Q a w rest → ¬ preferred (i_baseFee i) w (c :: cs)) →
  progress i Q (c :: cs) (mkIter (i_evm i) (i_cosmos i) (Some c) none advance (i_baseFee i)) c.
Proof.
  intros Hs Hb. pose proof Hs as [_ _ He _]. destruct (cosmos_side _ _ _ Hs) as (_ & ci & Hci & Hy).
  exists (mkIter (i_evm i) (it_Next ci) (Some c) none none (i_baseFee i)), Q, cs, None.
  split; [unfold Next, handleNextEVMAction, handleNextCosmosAction; cbn; by rewrite Hci|]. split_and!; [|done| |].
  - by split.
  - unfold left_of. cbn. lia.
  - intros out. by apply built_cosmos.
Qed.
Lemma take_evm i Q cs t a w rest tx :
  settled i Q cs → i_evm i = Some t → best_ Q a w rest → preferred (i_baseFee i) w cs → convertEVMToSDKTx (wf_tx w) = Some tx →
  (∃ t' Q', Shift tx_Time t = Ok t' ∧ has tx_Time t' Q' ∧ becomes Q Q' a rest ∧ left_in (t_heads t) = S (left_in (t_heads t'))) →
  progress i Q cs (mkIter (i_evm i) (i_cosmos i) (Some tx) advance none (i_baseFee i)) tx.
Proof.
  intros Hs Ht Hb Hp Hc (t' & Q' & Hshift & Hh & Hbec & Hleft). pose proof Hs as [_ _ _ Hy].
  exists (mkIter (Some t') (i_cosmos i) (Some tx) none none (i_baseFee i)), Q', cs, (Some w).
  split; [unfold Next, handleNextEVMAction, handleNextCosmosAction; cbn; by rewrite Ht, Hshift|]. split_and!; [by split|done| |].
  - unfold left_of. rewrite Ht. cbn. lia.
  - intros out. by eapply built_evm.
Qed.
Lemma skip_evm i Q c cs t a w rest :
  settled i Q (c :: cs) → i_evm i = Some t → best_ Q a w rest → preferred (i_baseFee i) w (c :: cs) →
  convertEVMToSDKTx (wf_tx w) = None →
  (∃ t' Q', Pop tx_Time t = Ok t' ∧ has tx_Time t' Q' ∧ becomes Q Q' a [] ∧ left_in (t_heads t) = S (left_in (t_heads t'))) →
  progress i Q (c :: cs) (mkIter (i_evm i) (i_cosmos i) (Some c) skipAccount advance (i_baseFee i)) c.
Proof.
  intros Hs Ht Hb Hp Hc (t' & Q' & Hpop & Hh & Hbec & Hleft). destruct (cosmos_side _ _ _ Hs) as (_ & ci & Hci & Hy).
  exists (mkIter (Some t') (it_Next ci) (Some c) none none (i_baseFee i)), Q', cs, None.
  split; [unfold Next, handleNextEVMAction, handleNextCosmosAction; cbn; by rewrite Ht, Hpop, Hci|]. split_and!; [by split|done| |].
  - unfold left_of. rewrite Ht. cbn. lia.
  - intros out. by eapply built_skip.
Qed.

Lemma resolved_step i Q cs :
  settled i Q cs →
  match resolved i with
  | None => built (i_baseFee i) Q cs []
  | Some i' => ∃ tx, i_currentTx i' = Some tx ∧ progress i Q cs i' tx
  end.
Proof.
  intros Hs. pose proof (evm_side _ _ _ Hs) as He. pose proof (cosmos_side _ _ _ Hs) as Hc. pose proof Hs as [Hea Hca _ _].
  assert (Hpc : peekCosmos i = match cs with [] => None | c :: _ => Some (c, tip c (i_baseFee i)) end).
  { destruct cs; [done|by destruct Hc]. }
  unfold resolved, resolveCurrentTx. rewrite Hpc, Hea, Hca. destruct (peekEVM i) as [w|].
  - destruct He as (t & a & rest & Ht & Hb & Hshift & Hpop). pose proof (shouldSelect_preferred (i_baseFee i) w cs) as Hsel.
    destruct (shouldSelectEVMTx _ _) eqn:Hse.
    + assert (Hp : preferred (i_baseFee i) w cs) by tauto. cbn [mbind option_bind].
      destruct (convertEVMToSDKTx (wf_tx w)) as [tx|] eqn:Hcv.
      * cbn. destruct cs; (exists tx; split; [done|by eapply take_evm]).
      * destruct cs as [|c cs]; cbn; [by eapply built_stuck|]. exists c. split; [done|]. by eapply skip_evm.
    + destruct cs as [|c cs]; [done|]. cbn. exists c. split; [done|]. apply take_cosmos; [done|].
      intros a' w' rest' Hb' Hp'. assert (preferred (i_baseFee i) w (c :: cs)); [|by apply Hsel in H].
      pose proof (best_fees _ _ _ _ _ _ _ Hb Hb'). cbn in *. destruct Hp'; [by left|right; lia].
  - destruct cs as [|c cs]; cbn; [by apply built_end|]. exists c. split; [done|]. apply take_cosmos; [done|].
    intros a w rest (Hq & _). by rewrite He in Hq.
Qed.

(** The iteration ends, without a panic, after at most as many steps as there are
    transactions. *)
Lemma collect_built fee n i Q cs :
  settled i Q cs → i_baseFee i = fee → (left_of i cs ≤ n)%nat →
  ∃ out, built fee Q cs out ∧ ∀ fuel, (n ≤ fuel)%nat → collect_all fuel (resolved i) = Ok out.*2.
Proof.
  revert i Q cs. induction n as [|n IH]; intros i Q cs Hs Hfee Hn; pose proof (resolved_step i Q cs Hs) as Hst; rewrite Hfee in Hst.
  - destruct (resolved i) as [i'|]; [|exists []; split; [done|by intros []]].
    destruct Hst as (tx & _ & i'' & Q' & cs' & src & _ & _ & _ & Hlt & _). lia.
  - destruct (resolved i) as [i'|]; [|exists []; split; [done|by intros []]].
    destruct Hst as (tx & Htx & i'' & Q' & cs' & src & Hnext & Hs'' & Hf'' & Hlt & Hb). rewrite Hfee in *.
    destruct (IH i'' Q' cs' Hs'' Hf'' ltac:(lia)) as (out & Hout & Hcol). exists ((src, tx) :: out). split; [by apply Hb|].
    intros [|fuel] Hfuel; [lia|]. cbn [collect_all]. rewrite Hnext, (Hcol fuel) by lia. by rewrite Htx.
Qed.

(** With transactions that all convert, nothing is lost: every queue and the
    Cosmos transactions come out whole and in order. *)
Lemma built_complete fee Q cs out :
  built fee Q cs out → (∀ a w, w ∈ Q a → is_Some (convertEVMToSDKTx (wf_tx w))) →
  (∀ a, filter (λ w, wf_from w = a) (omap fst out) = Q a) ∧ (filter (λ o, o.1 = None) out).*2 = cs ∧
  ∀ w tx, (Some w, tx) ∈ out → convertEVMToSDKTx (wf_tx w) = Some tx.
Proof.
  induction 1 as [Q Hnil|Q Q' cs a w rest tx out (Hq & Hk & _) _ Hcv [Hb Ho] _ IH|Q c cs out _ _ IH|Q Q' c cs a w rest out (Hq & _) _ Hcv _ _ _|Q a w rest (Hq & _) Hcv];
    intros Hall.
  - split_and!; [|done|by intros ? ? ?%elem_of_nil]. intros a. by rewrite Hnil.
  - destruct IH as (H1 & H2 & H3).
    { intros a' w' Hw'. destruct (decide (a' = a)) as [->|Hne]; [|rewrite Ho in Hw' by done; by apply (Hall a')].
      apply (Hall a). rewrite Hq. right. by rewrite <- Hb. }
    split_and!.
    + intros a'. change (omap fst ((Some w, tx) :: out)) with (w :: omap fst out). rewrite filter_cons, H1. case_decide as Hw; [|apply Ho; congruence].
      assert (a' = a) as -> by congruence. by rewrite Hb, Hq.
    + rewrite filter_cons, decide_False by done. done.
    + intros w' tx' [[= -> ->]|Hin]%elem_of_cons; [done|by apply H3].
  - destruct IH as (H1 & H2 & H3); [done|]. split_and!; [done| |].
    + rewrite filter_cons, decide_True by done. cbn. by rewrite H2.
    + intros w' tx' [?|Hin]%elem_of_cons; [done|by apply H3].
  - exfalso. destruct (Hall a w) as [tx Htx]; [rewrite Hq; by left|]. congruence.
  - exfalso. destruct (Hall a w) as [tx Htx]; [rewrite Hq; by left|]. congruence.
Qed.

Lemma New_resolved t cosmos header :
  NewEVMMempoolIterator (Some t) cosmos header = resolved (mkIter (Some t) cosmos None none none (currentBaseFee header)).
Proof.
  unfold NewEVMMempoolIterator. destruct (Empty t) eqn:He; [|done].
  assert (Hp : Peek t = None) by (unfold Peek; apply Nat.eqb_eq, nil_length_inv in He; by rewrite He).
  assert (Hn : peekCosmos (mkIter (Some t) cosmos None none none (currentBaseFee header)) = None →
    resolved (mkIter (Some t) cosmos None none none (currentBaseFee header)) = None).
  { intros Hc. unfold resolved, resolveCurrentTx. rewrite Hc. unfold peekEVM. cbn. by rewrite Hp. }
  destruct cosmos as [c|]; cbn [negb andb]; [|by rewrite Hn]. case_bool_decide as Hc; [done|].
  apply eq_None_not_Some in Hc. cbn [negb]. rewrite Hn; [done|]. unfold peekCosmos. cbn. by rewrite Hc.
Qed.

(** A transaction at the front that cannot be converted hides those of all other
    accounts when there is no Cosmos transaction to fall back on. *)
Lemma unconvertible_ends_iteration t w header :
  Peek t = Some w → convertEVMToSDKTx (wf_tx w) = None → NewEVMMempoolIterator (Some t) None header = None.
Proof.
  intros Hp Hc. rewrite New_resolved. unfold resolved, resolveCurrentTx, peekEVM, peekCosmos. cbn. rewrite Hp. cbn. by rewrite Hc.
Qed.

(** C28: the iterator over both kinds of transactions refines a greedy merge.
    Going through it ends without a panic after at most as many steps as there are
    transactions; every step gives out the EVM transaction with the best tip
    among the next ones of the accounts, the earliest of those that tie, unless the
    next Cosmos transaction pays a strictly higher tip.  If every transaction
    converts, all are given out: those of an account in the order of its list, up
    to the first whose fee cap is below the base fee, and the Cosmos ones in their
    order. *)
Theorem iteration_is_greedy_merge accounts txs baseFee cosmos cs header :
  accounts ≡ₚ (map_to_list txs).*1 → (∀ a ts, txs !! a = Some ts → ts ≠ []) →
  match baseFee with Some fee => 0 ≤ fee < 2 ^ 256 | None => True end → yields it_Tx it_Next cosmos cs →
  ∃ t out, NewTransactionsByPriceAndNonce tx_Time accounts txs baseFee = Ok t ∧
    built (currentBaseFee header) (payable baseFee txs) cs out ∧
    (∀ fuel, (list_sum (length <$> (map_to_list txs).*2) + length cs ≤ fuel)%nat →
      collect_all fuel (NewEVMMempoolIterator (Some t) cosmos header) = Ok out.*2) ∧
    ((∀ a w, w ∈ payable baseFee txs a → is_Some (convertEVMToSDKTx (wf_tx w))) →
      (∀ a, filter (λ w, wf_from w = a) (omap fst out) = payable baseFee txs a) ∧ (filter (λ o, o.1 = None) out).*2 = cs ∧
      ∀ w tx, (Some w, tx) ∈ out → convertEVMToSDKTx (wf_tx w) = Some tx).
Proof.
  intros Hacc Hne Hfee Hy. destruct (New_has tx_Time accounts txs baseFee Hacc Hne Hfee) as (t & Ht & Hh & Hleft).
  destruct (collect_built (currentBaseFee header) (list_sum (length <$> (map_to_list txs).*2) + length cs)
    (mkIter (Some t) cosmos None none none (currentBaseFee header)) (payable baseFee txs) cs) as (out & Hout & Hcol).
  - by split.
  - done.
  - unfold left_of. cbn. lia.
  - exists t, out. split_and!; [done|done|by rewrite New_resolved|by eapply built_complete].
Qed.
End Iterator.
End IT.

(** ** Two accounts and two Cosmos transactions *)

Module DemoOrder.
Import MO IT.
Definition lazy (hash tip : Z) : LazyTransaction := mkLazy hash (mkTx hash 0 21000 100 tip 0 120 []) 100 tip 21000.
(** The second transaction of the first account pays more than its first. *)
Definition txs : gmap Address (list LazyTransaction) := <[1 := [lazy 11 5; lazy 12 30]]> (<[2 := [lazy 21 9]]> ∅).
Definition accounts : list Address := (map_to_list txs).*1.
Definition next_of (l : list Z) : option (list Z) := match l with _ :: c :: l' => Some (c :: l') | _ => None end.
Definition fee_of (tx : Z) : option (list (string * Z) * Z) := Some ([("bond"%string, (tx - 900) * 10)], 10).
Definition time_of (_ : Transaction) : Z := 0.
Definition signed (tx : Transaction) : option Z := Some (tx_Hash tx).
Definition build (msg : Z) (_ : string) : option Z := Some msg.
Abbreviation collect_ := (collect_all time_of head next_of fee_of signed build "bond").
Abbreviation start_ := (NewEVMMempoolIterator head fee_of signed build "bond").

Definition order0 : TransactionsByPriceAndNonce :=
  match NewTransactionsByPriceAndNonce time_of accounts txs (Some 50) with Ok t => t | _ => mkByPrice (mkHeads ∅ []) None end.

Lemma iteration_is_greedy_merge_witness :
  ∃ t, NewTransactionsByPriceAndNonce time_of accounts txs (Some 50) = Ok t ∧
    (∃ out : list (option txWithMinerFee * Z), collect_ 10 (start_ (Some t) (Some [912; 907]) (Some (Some 0))) = Ok out.*2 ∧
       (filter (λ o, o.1 = None) out).*2 = [912; 907]) ∧
    collect_ 10 (start_ (Some t) (Some [912; 907]) (Some (Some 0))) = Ok [912; 21; 907; 11; 12].
Proof.
  destruct (iteration_is_greedy_merge time_of head next_of fee_of signed build "bond" accounts txs (Some 50) (Some [912; 907]) [912; 907]
    (Some (Some 0))) as (t & out & Ht & _ & Hcol & Hall).
  - reflexivity.
  - intros a ts. unfold txs. intros [[_ <-]|[_ [[_ <-]|[_ H]]%lookup_insert_Some]]%lookup_insert_Some; [done..|by rewrite lookup_empty in H].
  - lia.
  - apply yields_tx; [reflexivity|]. apply yields_tx; [reflexivity|]. apply yields_nil.
  - exists t. split; [exact Ht|]. split.
    + exists out. split; [apply Hcol; vm_compute; repeat constructor|]. apply Hall. intros a w _. by eexists.
    + assert (Ht0 : NewTransactionsByPriceAndNonce time_of accounts txs (Some 50) = Ok order0) by (vm_compute; reflexivity).
      rewrite Ht0 in Ht. injection Ht as <-. vm_compute. reflexivity.
Defined.
End DemoOrder.
