(* ===== verification/PoolValidation.v ===== *)
(** The checks every subpool makes before it takes a transaction
    ([mempool/txpool/validation.go]): the stateless ones of
    [ValidateTransaction] and those against the chain state of
    [ValidateTransactionWithState]. *)
From S2P Require Import Prelude GoStd AccessList Sdk Heap TxList.

(** The errors of the pool and of its validation ([mempool/txpool/errors.go],
    [legacypool.go] and go-ethereum's [core]). *)
Inductive PoolError :=
| ErrAlreadyKnown | ErrInvalidSender | ErrUnderpriced | ErrReplaceUnderpriced | ErrTxGasPriceTooLow
| ErrAccountLimitExceeded | ErrGasLimit | ErrNegativeValue | ErrOversizedData | ErrInflightTxLimitReached
| ErrTxPoolOverflow | ErrOutOfOrderTxFromDelegated | ErrAuthorityReserved | ErrFutureReplacePending
| ErrTxTypeNotSupported | ErrMaxInitCodeSizeExceeded | ErrFeeCapVeryHigh | ErrTipVeryHigh | ErrTipAboveFeeCap
| ErrIntrinsicGas | ErrFloorDataGas | ErrNonceTooLow | ErrNonceTooHigh | ErrInsufficientFunds
| ErrReserved | ErrOther (msg : string).

(** What the checks read of the head of the chain. *)
Record Header := mkHeader {
  hd_Hash : Hash;
  hd_ParentHash : Hash;
  hd_Root : Hash;
  hd_Number : Z;
  hd_GasLimit : Z;
}.
(** [params.Rules] at a head. *)
Record Rules := mkRules {
  r_IsBerlin : bool;
  r_IsLondon : bool;
  r_IsCancun : bool;
  r_IsPrague : bool;
  r_IsShanghai : bool;
  r_IsIstanbul : bool;
}.
(** [types.BlobTxSidecar]; the cryptographic objects are opaque. *)
Record Sidecar := mkSidecar {
  sc_Blobs : list Z;
  sc_Commitments : list Z;
  sc_Proofs : list Z;
}.

(** What the stateless checks read of a transaction besides the fields the pool
    keeps, and the computations of go-ethereum they call. *)
Class TxChecks := {
  tx_Type : Transaction → Z;
  tx_Value : Transaction → Z;
  tx_Data : Transaction → list Z;
  tx_creates : Transaction → bool;
  tx_Authorizations : Transaction → nat;
  tx_BlobGasFeeCap : Transaction → Z;
  tx_BlobHashes : Transaction → list Hash;
  tx_BlobTxSidecar : Transaction → option Sidecar;
  chain_Rules : Header → Rules;
  chain_IsPrague : Header → bool;
  IntrinsicGas : Transaction → Rules → res PoolError Z;
  FloorDataGas : list Z → res PoolError Z;
  MaxBlobsPerBlock : Header → Z;
  ValidateBlobCommitmentHashes : Sidecar → list Hash → option PoolError;
  VerifyBlobProof : Z → Z → Z → bool;
}.

Module PV.
Definition LegacyTxType : Z := 0.
Definition AccessListTxType : Z := 1.
Definition DynamicFeeTxType : Z := 2.
Definition BlobTxType : Z := 3.
Definition SetCodeTxType : Z := 4.
(** [params.MaxInitCodeSize] and [params.BlobTxMinBlobGasprice]. *)
Definition MaxInitCodeSize : Z := 2 * 24576.
Definition blobTxMinBlobGasPrice : Z := 1.

Record ValidationOptions := mkOptions {
  vo_Accept : Z;
  vo_MaxSize : Z;
  vo_MinTip : Z;
}.

Section Validation.
Context {S : Type} `{HC : TxChecks} (Sender : Transaction → option Address).
Abbreviation V := (M S PoolError).

(** [if c { return err }]. *)
Definition reject (c : bool) (e : PoolError) : V unit := when c (throw e).
Definition lift {A} (r : res PoolError A) : V A :=
  match r with Ok a => mret a | Err e => throw e | Panic p => panic p end.

(** The loop over the blobs; indexing past the end panics. *)
Fixpoint verify_blobs (i : nat) (blobs commitments proofs : list Z) : V unit :=
  match blobs with
  | [] => mret tt
  | blob :: rest =>
      match commitments !! i, proofs !! i with
      | Some c, Some p =>
          reject (negb (VerifyBlobProof blob c p)) (ErrOther "invalid blob");;
          verify_blobs (Datatypes.S i) rest commitments proofs
      | _, _ => panic "index out of range"
      end
  end.
Definition validateBlobSidecar (hashes : list Hash) (sidecar : Sidecar) : V unit :=
  reject (negb (length (sc_Blobs sidecar) =? length hashes)%nat) (ErrOther "invalid number of blobs");;
  reject (negb (length (sc_Proofs sidecar) =? length hashes)%nat) (ErrOther "invalid number of blob proofs");;
  match ValidateBlobCommitmentHashes sidecar hashes with
  | Some e => throw e
  | None => verify_blobs 0 (sc_Blobs sidecar) (sc_Commitments sidecar) (sc_Proofs sidecar)
  end.

(** The checks of blob transactions. *)
Definition validateBlobTx (tx : Transaction) (head : Header) : V unit :=
  reject (tx_BlobGasFeeCap tx <? blobTxMinBlobGasPrice) ErrTxGasPriceTooLow;;
  match tx_BlobTxSidecar tx with
  | None => throw (ErrOther "missing sidecar in blob transaction")
  | Some sidecar =>
      let hashes := tx_BlobHashes tx in
      reject (length hashes =? 0)%nat (ErrOther "blobless blob transaction");;
      reject (MaxBlobsPerBlock head <? Z.of_nat (length hashes)) (ErrOther "too many blobs in transaction");;
      validateBlobSidecar hashes sidecar
  end.

(** The bitmap of accepted types is a [uint8]. *)
Definition accepts (accept type : Z) : bool := negb (Z.land accept (wrap 8 (Z.shiftl 1 type)) =? 0).
(** [x.BitLen() > 256]. *)
Definition very_high (x : Z) : bool := 2 ^ 256 <=? Z.abs x.

Definition ValidateTransaction (tx : Transaction) (head : Header) (opts : ValidationOptions) : V unit :=
  reject (negb (accepts (vo_Accept opts) (tx_Type tx))) ErrTxTypeNotSupported;;
  reject (vo_MaxSize opts <? tx_Size tx) ErrOversizedData;;
  let rules := chain_Rules head in
  reject (negb (r_IsBerlin rules) && negb (tx_Type tx =? LegacyTxType)) ErrTxTypeNotSupported;;
  reject (negb (r_IsLondon rules) && (tx_Type tx =? DynamicFeeTxType)) ErrTxTypeNotSupported;;
  reject (negb (r_IsCancun rules) && (tx_Type tx =? BlobTxType)) ErrTxTypeNotSupported;;
  reject (negb (r_IsPrague rules) && (tx_Type tx =? SetCodeTxType)) ErrTxTypeNotSupported;;
  reject (r_IsShanghai rules && tx_creates tx && (MaxInitCodeSize <? Z.of_nat (length (tx_Data tx))))
    ErrMaxInitCodeSizeExceeded;;
  reject (tx_Value tx <? 0) ErrNegativeValue;;
  reject (hd_GasLimit head <? tx_Gas tx) ErrGasLimit;;
  reject (very_high (tx_GasFeeCap tx)) ErrFeeCapVeryHigh;;
  reject (very_high (tx_GasTipCap tx)) ErrTipVeryHigh;;
  reject (tx_GasFeeCap tx <? tx_GasTipCap tx) ErrTipAboveFeeCap;;
  reject (negb (bool_decide (is_Some (Sender tx)))) ErrInvalidSender;;
  intrGas ← lift (IntrinsicGas tx rules);
  reject (tx_Gas tx <? intrGas) ErrIntrinsicGas;;
  (if chain_IsPrague head then
     floorDataGas ← lift (FloorDataGas (tx_Data tx));
     reject (tx_Gas tx <? floorDataGas) ErrFloorDataGas
   else mret tt);;
  reject (tx_GasTipCap tx <? vo_MinTip opts) ErrTxGasPriceTooLow;;
  (if tx_Type tx =? BlobTxType then validateBlobTx tx head else mret tt);;
  reject ((tx_Type tx =? SetCodeTxType) && (tx_Authorizations tx =? 0)%nat)
    (ErrOther "set code tx must have at least one authorization tuple").

(** [vm.StateDB] as the pool reads it. *)
Record ChainState := mkState {
  st_GetNonce : Address → Z;
  st_GetBalance : Address → Z;
  st_GetCodeHash : Address → Hash;
}.
Record ValidationOptionsWithState := mkStateOptions {
  so_State : ChainState;
  so_FirstNonceGap : option (Address → Z);
  so_UsedAndLeftSlots : option (Address → Z * Z);
  so_ExistingExpenditure : Address → Z;
  so_ExistingCost : Address → Z → option Z;
}.

Definition ValidateTransactionWithState (tx : Transaction) (opts : ValidationOptionsWithState) : V unit :=
  match Sender tx with
  | None => throw ErrInvalidSender
  | Some from =>
      reject (tx_Nonce tx <? st_GetNonce (so_State opts) from) ErrNonceTooLow;;
      (match so_FirstNonceGap opts with
       | Some gap => reject (gap from <? tx_Nonce tx) ErrNonceTooHigh
       | None => mret tt
       end);;
      let balance := st_GetBalance (so_State opts) from in
      let cost := tx_Cost tx in
      reject (balance <? cost) ErrInsufficientFunds;;
      let spent := so_ExistingExpenditure opts from in
      match so_ExistingCost opts from (tx_Nonce tx) with
      | Some prev => reject (balance <? spent + (cost - prev)) ErrInsufficientFunds
      | None =>
          reject (balance <? spent + cost) ErrInsufficientFunds;;
          match so_UsedAndLeftSlots opts with
          | Some slots => reject (snd (slots from) <=? 0) ErrAccountLimitExceeded
          | None => mret tt
          end
      end
  end.

(** ** What an accepted transaction satisfies *)

Lemma reject_ok c e s s' : reject c e s = (s', Ok tt) → c = false ∧ s' = s.
Proof. unfold reject, when, throw. destruct c; [done|]. by intros [= ->]. Qed.
Lemma reject_cases c e (s : S) : reject c e s = (s, if c then Err e else Ok tt).
Proof. by destruct c. Qed.
Lemma reject_bind {A} c e (k : unit → V A) s :
  (reject c e ≫= k) s = if c then (s, Err e) else k tt s.
Proof. by destruct c. Qed.

(** The checks change nothing. *)
Lemma verify_blobs_pure i blobs commitments proofs s : fst (verify_blobs i blobs commitments proofs s) = s.
Proof.
  revert i. induction blobs as [|b blobs IH]; intros i; cbn [verify_blobs]; [done|].
  destruct (commitments !! i), (proofs !! i); [|done..]. rewrite reject_bind. by case_match.
Qed.

(** The conditions of [ValidateTransactionWithState] on a sender. *)
Definition affordable (opts : ValidationOptionsWithState) (from : Address) (tx : Transaction) : Prop :=
  st_GetNonce (so_State opts) from ≤ tx_Nonce tx ∧
  tx_Cost tx ≤ st_GetBalance (so_State opts) from ∧
  so_ExistingExpenditure opts from - default 0 (so_ExistingCost opts from (tx_Nonce tx)) + tx_Cost tx ≤
    st_GetBalance (so_State opts) from.

(** With the options of a pool that allows gaps and any number of slots, the
    state check accepts exactly the affordable transactions of a known sender. *)
Lemma ValidateTransactionWithState_iff tx opts s :
  so_FirstNonceGap opts = None → so_UsedAndLeftSlots opts = None →
  ValidateTransactionWithState tx opts s = (s, Ok tt) ↔ ∃ from, Sender tx = Some from ∧ affordable opts from tx.
Proof.
  intros Hgap Hslots. unfold ValidateTransactionWithState. destruct (Sender tx) as [from|] eqn:Hs; [|naive_solver].
  rewrite Hgap, Hslots, !reject_bind. unfold affordable.
  split.
  - intros H. exists from. split; [done|]. destruct (Z.ltb_spec (tx_Nonce tx) (st_GetNonce (so_State opts) from)); [done|].
    unfold mbind at 1, M_bind at 1 in H. cbn in H. rewrite reject_bind in H.
    destruct (Z.ltb_spec (st_GetBalance (so_State opts) from) (tx_Cost tx)); [done|].
    destruct (so_ExistingCost opts from (tx_Nonce tx)) as [prev|]; cbn in *; [|rewrite reject_bind in H];
      [apply reject_ok in H as [H _]; zbool; lia|]. case_match eqn:Hb; [done|]. zbool. lia.
  - intros (from' & [= <-] & Hn & Hc & Ht). rewrite (proj2 (Z.ltb_ge _ _)) by lia.
    unfold mbind at 1, M_bind at 1. cbn. rewrite reject_bind, (proj2 (Z.ltb_ge _ _)) by lia.
    destruct (so_ExistingCost opts from (tx_Nonce tx)) as [prev|]; cbn in *; [|rewrite reject_bind];
      [rewrite reject_cases|]; by rewrite (proj2 (Z.ltb_ge _ _)) by lia.
Qed.

(** What the stateless checks guarantee to the rest of the pool. *)
Lemma ValidateTransaction_sound tx head opts s s' :
  ValidateTransaction tx head opts s = (s', Ok tt) →
  accepts (vo_Accept opts) (tx_Type tx) = true ∧ tx_Size tx ≤ vo_MaxSize opts ∧ tx_Gas tx ≤ hd_GasLimit head ∧
  tx_GasTipCap tx ≤ tx_GasFeeCap tx ∧ Z.abs (tx_GasFeeCap tx) < 2 ^ 256 ∧ Z.abs (tx_GasTipCap tx) < 2 ^ 256 ∧
  vo_MinTip opts ≤ tx_GasTipCap tx ∧ is_Some (Sender tx) ∧ 0 ≤ tx_Value tx ∧
  (∃ g, IntrinsicGas tx (chain_Rules head) = Ok g ∧ g ≤ tx_Gas tx).
Proof.
  unfold ValidateTransaction. intros H.
  repeat lazymatch type of H with
  | ((reject _ _) ≫= _) _ = _ => rewrite reject_bind in H; case_match; [done|]
  end.
  destruct (IntrinsicGas tx (chain_Rules head)) as [g|e|p] eqn:Hg; cbn [lift] in H; [|done..].
  unfold mbind at 1, M_bind at 1, mret at 1, M_ret at 1 in H. cbn in H. rewrite reject_bind in H. case_match; [done|].
  bind_step H. rewrite reject_bind in H. case_match; [done|]. unfold very_high in *. zbool.
  split_and!; try done; try lia. by exists g.
Qed.
End Validation.
End PV.
