(* ===== verification/RecheckPool.v ===== *)
(** The pool of Cosmos transactions that is rechecked at every block
    ([mempool/recheck_pool.go]) with the context its transactions are checked
    against ([mempool/rechecker.go]).

    The pool it wraps ([ExtMempool] of the SDK), the ante handler and the reading
    of signatures are parameters.  The loop that schedules the rechecks is a state
    machine on events (module [RK]). *)
From S2P Require Import Prelude GoStd AccessList Sdk Heap TxList PoolList Reserver TxStore CosmosStore BlockOrder PoolValidation.

Module RP.

(** [sdk.Context] as the rechecker sees it: the stores, the limit of the block gas
    meter and the maximal gas of the consensus parameters, when they are set. *)
Record Ctx (St : Type) := mkCtx {
  cx_stores : St;
  cx_blockGas : Z;
  cx_maxGas : option Z;
}.
Arguments mkCtx {St}.
Arguments cx_stores {St}.
Arguments cx_blockGas {St}.
Arguments cx_maxGas {St}.

(** [sdkmempool.ExtMempool]: insertion and removal may fail; [Select] goes through
    the transactions. *)
Class ExtMempool (P Tx : Type) := {
  ext_Insert : Tx → P → option P;
  ext_Remove : Tx → P → option P;
  ext_Select : P → list Tx;
}.
Class ExtMempoolLaws (P Tx : Type) `{ExtMempool P Tx} : Prop := {
  ext_select_nodup p : NoDup (ext_Select p);
  ext_remove_in tx p : tx ∈ ext_Select p →
    ∃ p', ext_Remove tx p = Some p' ∧ ∀ t, t ∈ ext_Select p' ↔ t ∈ ext_Select p ∧ t ≠ tx;
}.

Inductive RecheckError :=
| ErrSigners | ErrReserving (e : RV.ReserverError) | ErrContext | ErrAnteFailed (msg : string) | ErrPoolInsert | ErrPoolRemove.

Section Recheck.
Context {Tx Pool St Signer : Type} `{HP : ExtMempool Pool Tx}.
(** The SDK: signers and signatures of a transaction, the nonce of an unordered
    one, and the ante handler, which writes to the stores also when it fails. *)
Context (GetSigners : Tx → option (list Signer)) (BytesToAddress : Signer → Address).
Context (GetSignaturesV2 : Tx → option (list (string * Z))) (ChooseNonce : Z → Tx → option Z).
Context (anteHandler : Ctx St → Tx → St * option string).
(** The chain, and the identity of the pool for reservations. *)
Context (GetLatestContext : option (Ctx St)) (CurrentBlock : Header) (self : Z).

Abbreviation TxStore := (CS.CosmosTxStore (Tx := Tx)).
Abbreviation AddTx := (CS.AddTx GetSignaturesV2 ChooseNonce).
Abbreviation InvalidateFrom := (CS.InvalidateFrom GetSignaturesV2 ChooseNonce).
Abbreviation extractSignerSequences := (CS.extractSignerSequences GetSignaturesV2).

(** [rm_ctx] is the context of the rechecker, [None] before its first update. *)
Record RecheckMempool := mkRecheck {
  rm_pool : Pool;
  rm_reserved : RV.ReservationTracker;
  rm_ctx : option (Ctx St);
  rm_rechecked : HS.HeightSync TxStore;
}.
Implicit Types m : RecheckMempool.
Abbreviation P := (M RecheckMempool RecheckError).
Definition set_pool x m := mkRecheck x (rm_reserved m) (rm_ctx m) (rm_rechecked m).
Definition set_reserved x m := mkRecheck (rm_pool m) x (rm_ctx m) (rm_rechecked m).
Definition set_ctx x m := mkRecheck (rm_pool m) (rm_reserved m) x (rm_rechecked m).
Definition set_rechecked x m := mkRecheck (rm_pool m) (rm_reserved m) (rm_ctx m) x.

(** ** The rechecker *)

Definition with_stores (c : Ctx St) (s : St) : Ctx St := mkCtx s (cx_blockGas c) (cx_maxGas c).
(** [Update]; a gas limit that does not fit in [int64] panics when it is needed. *)
Definition Update (c : Ctx St) (header : Header) : P unit :=
  let limit := hd_GasLimit header in
  match cx_maxGas c with
  | Some g => modify (set_ctx (Some (mkCtx (cx_stores c) limit (Some g))))
  | None =>
      if 2 ^ 63 <=? limit then panic "converting evm block gas limit to int64"
      else modify (set_ctx (Some (mkCtx (cx_stores c) limit (Some limit))))
  end.
(** [RecheckCosmos] on a branch: the branch after the ante handler. *)
Definition RecheckCosmos (c : Ctx St) (tx : Tx) : Ctx St * option string :=
  let '(s, err) := anteHandler c tx in (with_stores c s, err).

(** [RecheckEVM]: the transaction is converted first. *)
Definition RecheckEVM {EVMTx : Type} (EVMTxToCosmosTx : EVMTx → option Tx) (c : Ctx St) (tx : EVMTx) : Ctx St * option string :=
  match EVMTxToCosmosTx tx with
  | None => (c, Some "converting evm tx to cosmos tx"%string)
  | Some cosmosTx => RecheckCosmos c cosmosTx
  end.

(** ** Reservations *)

Definition signerAddressesFromTx (tx : Tx) : option (list Address) :=
  match GetSigners tx with
  | None | Some [] => None
  | Some signers => Some (BytesToAddress <$> signers)
  end.
Definition hold (addrs : list Address) : P unit := λ m,
  let '(t, r) := RV.Hold self addrs (rm_reserved m) in
  (set_reserved t m, match r with Ok a => Ok a | Err e => Err (ErrReserving e) | Panic s => Panic s end).
(** Errors of [Release] are ignored. *)
Definition release (addrs : list Address) : P unit := λ m,
  (set_reserved (fst (RV.Release self addrs (rm_reserved m))) m, Ok tt).

(** ** Insertion and removal *)

Definition markTxRechecked (tx : Tx) : P unit := modify (λ m, set_rechecked (HS.Do (AddTx tx) (rm_rechecked m)) m).
Definition markTxInserted (tx : Tx) : P unit :=
  modify (λ m, set_rechecked (HS.Do (λ store,
    let '(store, removed) := InvalidateFrom tx store in
    if (0 <? removed)%nat then store else AddTx tx store) (rm_rechecked m)) m).
(** The branch transactions are checked on. *)
Definition insert_context : P (Ctx St) :=
  ctx ← gets rm_ctx;
  match ctx with
  | Some c => mret c
  | None =>
      match GetLatestContext with
      | None => throw ErrContext
      | Some c =>
          Update c CurrentBlock;;
          ctx ← gets rm_ctx;
          match ctx with Some c => mret c | None => throw ErrContext end
      end
  end.
Definition Insert (tx : Tx) : P unit :=
  match signerAddressesFromTx tx with
  | None => throw ErrSigners
  | Some addrs =>
      hold addrs;;
      ctx ← insert_context;
      let '(branch, err) := RecheckCosmos ctx tx in
      match err with
      | Some e => release addrs;; throw (ErrAnteFailed e)
      | None =>
          pool ← gets rm_pool;
          match ext_Insert tx pool with
          | None => release addrs;; throw ErrPoolInsert
          | Some pool' => modify (set_pool pool');; modify (set_ctx (Some branch));; markTxInserted tx
          end
      end
  end.
Definition Remove (tx : Tx) : P unit :=
  pool ← gets rm_pool;
  match ext_Remove tx pool with
  | None => throw ErrPoolRemove
  | Some pool' =>
      modify (set_pool pool');;
      match signerAddressesFromTx tx with
      | None => panic "failed to extract signer addresses from tx during Remove"
      | Some addrs => release addrs
      end
  end.

(** [Start], before the loop is launched. *)
Definition Start (initialHead : Header) : P unit :=
  match GetLatestContext with None => mret tt | Some c => Update c initialHead end.

(** ** The recheck *)

(** The lowest failed sequence of every account. *)
Definition note_failed (failed : gmap string Z) (sig : CS.signerSequence) : gmap string Z :=
  match failed !! CS.sq_account sig with
  | Some existing => if CS.sq_seq sig <? existing then <[CS.sq_account sig := CS.sq_seq sig]> failed else failed
  | None => <[CS.sq_account sig := CS.sq_seq sig]> failed
  end.
(** A signature above a failed sequence of its account. *)
Definition follows_failed (failed : gmap string Z) (sig : CS.signerSequence) : bool :=
  match failed !! CS.sq_account sig with Some failedSeq => failedSeq <? CS.sq_seq sig | None => false end.
Definition isCancelled (cancel : option nat) : bool := bool_decide (cancel = Some O).
(** The loop over the pool; [cancel] counts the polls until the run is cancelled,
    and the result is [None] for a run that was.  A failed check leaves its writes in the branch; a
    successful one writes the branch back and takes a new one. *)
Fixpoint recheck_loop (cancel : option nat) (txs : list Tx) (branch : Ctx St) (failed : gmap string Z) (removeTxs : list Tx) :
    P (option (list Tx)) :=
  match txs with
  | [] => mret (if isCancelled cancel then None else Some removeTxs)
  | tx :: rest =>
      if isCancelled cancel then mret None else
      match extractSignerSequences tx with
      | None => recheck_loop (pred <$> cancel) rest branch failed removeTxs
      | Some sigs =>
          let drop branch := recheck_loop (pred <$> cancel) rest branch (foldl note_failed failed sigs) (removeTxs ++ [tx]) in
          if existsb (follows_failed failed) sigs then drop branch
          else
            let '(branch, err) := RecheckCosmos branch tx in
            match err with
            | None =>
                modify (set_ctx (Some branch));; markTxRechecked tx;;
                recheck_loop (pred <$> cancel) rest branch failed removeTxs
            | Some _ => drop branch
            end
      end
  end.
Definition remove_failed (tx : Tx) : P unit :=
  pool ← gets rm_pool;
  match ext_Remove tx pool with
  | None => mret tt
  | Some pool' =>
      modify (set_pool pool');;
      match signerAddressesFromTx tx with
      | None => mret tt
      | Some addrs => release addrs
      end
  end.
Definition at_rechecked {A} (f : M (HS.HeightSync TxStore) Empty_set A) : P A := λ m,
  let '(h, r) := f (rm_rechecked m) in
  (set_rechecked h m, match r with Ok a => Ok a | Err e => match e with end | Panic s => Panic s end).
(** A panic of [Update] ends the process, so nothing after it is run. *)
Definition runRecheck (newHead : Header) (cancel : option nat) : P unit :=
  at_rechecked (HS.StartNewHeight CS.NewCosmosTxStore (hd_Number newHead));;
  (match GetLatestContext with
   | None => mret tt
   | Some latest =>
       Update latest newHead;;
       pool ← gets rm_pool;
       ctx ← gets rm_ctx;
       match ctx with
       | None => mret tt
       | Some branch =>
           r ← recheck_loop cancel (ext_Select pool) branch ∅ [];
           match r with Some removeTxs => for_each removeTxs remove_failed | None => mret tt end
       end
   end);;
  at_rechecked HS.EndCurrentHeight.

(** What a builder gets for a height; no transactions when its context expires
    before the height is reached. *)
Definition RecheckedTxs (height : Z) (states : list (HS.HeightSync TxStore)) : res Empty_set (list Tx) :=
  match HS.GetStore height states with
  | HS.GotNil => Ok []
  | HS.GotStore _ store _ => Ok (CS.Iterator store)
  | HS.GotPanic => Panic "cannot serve requests in the past"
  end.
Definition OrderedRecheckedTxs `{Inhabited Tx} (FeeTx : Tx → option (list (string * Z) * Z)) (keys : list string) (height : Z)
    (states : list (HS.HeightSync TxStore)) (bondDenom : string) (baseFee : option Z) :
    res Empty_set (option (CO.CosmosTransactionsByPriceAndNonce (Tx := Tx))) :=
  match HS.GetStore height states with
  | HS.GotNil => Ok None
  | HS.GotStore _ store _ => Ok (CO.OrderedIterator FeeTx keys store bondDenom baseFee)
  | HS.GotPanic => Panic "cannot serve requests in the past"
  end.

(** ** What a recheck leaves *)

(** [t] has a signature of an account of [d] at a later sequence. *)
Definition comes_after (d t : Tx) : Prop :=
  ∃ sd st sigd sigt, extractSignerSequences d = Some sd ∧ extractSignerSequences t = Some st ∧ sigd ∈ sd ∧ sigt ∈ st ∧
    CS.sq_account sigd = CS.sq_account sigt ∧ CS.sq_seq sigd < CS.sq_seq sigt.
(** The specification: the transactions of the pool in order, from a branch and
    after the dropped transactions [before].  A transaction is dropped when it comes
    after a dropped one, or when the ante handler refuses it on the branch that the
    transactions before it have left; it passes when the ante handler accepts it
    there.  Those whose signatures cannot be read do neither. *)
Inductive rechecked : Ctx St → list Tx → list Tx → list Tx → list Tx → Ctx St → Prop :=
| rk_end branch before : rechecked branch before [] [] [] branch
| rk_unreadable branch before tx txs passed dropped final :
    extractSignerSequences tx = None → rechecked branch before txs passed dropped final →
    rechecked branch before (tx :: txs) passed dropped final
| rk_dependent branch before tx txs passed dropped final d :
    d ∈ before → comes_after d tx → rechecked branch (before ++ [tx]) txs passed dropped final →
    rechecked branch before (tx :: txs) passed (tx :: dropped) final
| rk_refused branch before tx txs passed dropped final branch' e :
    is_Some (extractSignerSequences tx) → (∀ d, d ∈ before → ¬ comes_after d tx) → RecheckCosmos branch tx = (branch', Some e) →
    rechecked branch' (before ++ [tx]) txs passed dropped final →
    rechecked branch before (tx :: txs) passed (tx :: dropped) final
| rk_passed branch before tx txs passed dropped final branch' :
    is_Some (extractSignerSequences tx) → (∀ d, d ∈ before → ¬ comes_after d tx) → RecheckCosmos branch tx = (branch', None) →
    rechecked branch' before txs passed dropped final →
    rechecked branch before (tx :: txs) (tx :: passed) dropped final.

(** The map of failures has the lowest sequence of every account in the dropped
    transactions. *)
Record failures (failed : gmap string Z) (before : list Tx) : Prop := {
  fl_from a f : failed !! a = Some f → ∃ d sigs sig, d ∈ before ∧ extractSignerSequences d = Some sigs ∧ sig ∈ sigs ∧
    CS.sq_account sig = a ∧ CS.sq_seq sig = f;
  fl_low d sigs sig : d ∈ before → extractSignerSequences d = Some sigs → sig ∈ sigs →
    ∃ f, failed !! CS.sq_account sig = Some f ∧ f ≤ CS.sq_seq sig;
}.
Lemma note_failed_spec failed sig a f :
  note_failed failed sig !! a = Some f →
  failed !! a = Some f ∨ CS.sq_account sig = a ∧ CS.sq_seq sig = f.
Proof. unfold note_failed. repeat case_match; auto; intros [[<- <-]|[_ ?]]%lookup_insert_Some; auto. Qed.
Lemma note_failed_low failed sig :
  (∀ a f, failed !! a = Some f → ∃ f', note_failed failed sig !! a = Some f' ∧ f' ≤ f) ∧
  ∃ f, note_failed failed sig !! CS.sq_account sig = Some f ∧ f ≤ CS.sq_seq sig.
Proof.
  unfold note_failed. destruct (failed !! CS.sq_account sig) as [e|] eqn:He.
  - destruct (Z.ltb_spec (CS.sq_seq sig) e).
    + split; [|exists (CS.sq_seq sig); by rewrite lookup_insert_eq]. intros a f Hf.
      destruct (decide (a = CS.sq_account sig)) as [->|]; [rewrite lookup_insert_eq|rewrite lookup_insert_ne by done; by exists f].
      eexists. split; [done|]. rewrite He in Hf. injection Hf as <-. lia.
    + split; [intros a f Hf; by exists f|]. exists e. by split; [|lia].
  - split; [|exists (CS.sq_seq sig); by rewrite lookup_insert_eq]. intros a f Hf.
    rewrite lookup_insert_ne; [by exists f|]. intros <-. congruence.
Qed.
Lemma note_all_from sigs failed a f :
  foldl note_failed failed sigs !! a = Some f →
  failed !! a = Some f ∨ ∃ sig, sig ∈ sigs ∧ CS.sq_account sig = a ∧ CS.sq_seq sig = f.
Proof.
  revert failed. induction sigs as [|s0 sigs IH]; intros failed; cbn [foldl]; [auto|].
  intros [[|[? ?]]%note_failed_spec|(sig & ? & ?)]%IH; [auto| |]; right; [exists s0|exists sig]; (split; [by constructor|done]).
Qed.
Lemma note_all_low sigs failed :
  (∀ a f, failed !! a = Some f → ∃ f', foldl note_failed failed sigs !! a = Some f' ∧ f' ≤ f) ∧
  ∀ sig, sig ∈ sigs → ∃ f, foldl note_failed failed sigs !! CS.sq_account sig = Some f ∧ f ≤ CS.sq_seq sig.
Proof.
  revert failed. induction sigs as [|s0 sigs IH]; intros failed; cbn [foldl].
  { split; [intros a f Hf; by exists f|by intros sig ?%elem_of_nil]. }
  destruct (note_failed_low failed s0) as [H1 (f & Hf & Hle)]. destruct (IH (note_failed failed s0)) as [H2 H3].
  split.
  - intros a g (g1 & Hg1 & ?)%H1. destruct (H2 _ _ Hg1) as (g2 & ? & ?). exists g2. split; [done|lia].
  - intros sig [->|Hin]%elem_of_cons; [|by apply H3]. destruct (H2 _ _ Hf) as (f' & Hf' & ?). exists f'. split; [done|lia].
Qed.
Lemma failures_nil : failures ∅ [].
Proof. split; [intros a f; by rewrite lookup_empty|by intros d sigs sig ?%elem_of_nil]. Qed.
Lemma failures_drop failed before tx sigs :
  extractSignerSequences tx = Some sigs → failures failed before → failures (foldl note_failed failed sigs) (before ++ [tx]).
Proof.
  intros Hx [H1 H2]. destruct (note_all_low sigs failed) as [H3 H4]. split.
  - intros a f [(d & sd & sig & ? & ?)%H1|(sig & ? & ? & ?)]%note_all_from.
    + exists d, sd, sig. by rewrite elem_of_app; split; [left|].
    + exists tx, sigs, sig. rewrite elem_of_app, list_elem_of_singleton. by split; [right|].
  - intros d sd sig [Hd| ->%list_elem_of_singleton]%elem_of_app Hsd Hsig.
    + destruct (H2 d sd sig Hd Hsd Hsig) as (f & Hf & ?). destruct (H3 _ _ Hf) as (f' & ? & ?). exists f'. split; [done|lia].
    + rewrite Hx in Hsd. injection Hsd as <-. by apply H4.
Qed.
Lemma failures_follow failed before tx sigs :
  extractSignerSequences tx = Some sigs → failures failed before →
  existsb (follows_failed failed) sigs = true ↔ ∃ d, d ∈ before ∧ comes_after d tx.
Proof.
  intros Hx [H1 H2]. rewrite existsb_exists. split.
  - intros (sig & Hin%list_elem_of_In & Hf). unfold follows_failed in Hf. destruct (failed !! CS.sq_account sig) as [f|] eqn:Hl; [|done].
    zbool. destruct (H1 _ _ Hl) as (d & sd & sigd & Hd & Hsd & Hind & Hacc & Hseq). exists d. split; [done|].
    exists sd, sigs, sigd, sig. split_and!; [done..|lia].
  - intros (d & Hd & sd & st & sigd & sigt & Hsd & Hst & Hind & Hint & Hacc & Hlt). rewrite Hx in Hst. injection Hst as <-.
    exists sigt. split; [by apply list_elem_of_In|]. destruct (H2 d sd sigd Hd Hsd Hind) as (f & Hf & Hle). unfold follows_failed.
    rewrite <- Hacc, Hf. apply Z.ltb_lt. lia.
Qed.

Lemma recheck_loop_spec txs branch failed before removeTxs m :
  failures failed before →
  ∃ passed dropped final m', recheck_loop None txs branch failed removeTxs m = (m', Ok (Some (removeTxs ++ dropped))) ∧
    rm_pool m' = rm_pool m ∧ rm_reserved m' = rm_reserved m ∧
    rm_rechecked m' = HS.Do (λ s, foldl (λ s t, AddTx t s) s passed) (rm_rechecked m) ∧ rechecked branch before txs passed dropped final.
Proof.
  revert branch failed before removeTxs m. induction txs as [|tx txs IH]; intros branch failed before removeTxs m Hf; cbn [recheck_loop].
  { exists [], [], branch, m. rewrite app_nil_r. split_and!; [done..|by destruct (rm_rechecked m)|]. constructor. }
  change (isCancelled None) with false. cbn iota.
  destruct (extractSignerSequences tx) as [sigs|] eqn:Hx.
  2: { destruct (IH branch failed before removeTxs m Hf) as (passed & dropped & final & m' & Hr & Hp & Hv & Hs & Hl).
       exists passed, dropped, final, m'. split_and!; [done..|]. by apply rk_unreadable. }
  assert (Hdrop : ∀ b, ∃ passed dropped final m',
    recheck_loop (pred <$> None) txs b (foldl note_failed failed sigs) (removeTxs ++ [tx]) m = (m', Ok (Some (removeTxs ++ tx :: dropped))) ∧
    rm_pool m' = rm_pool m ∧ rm_reserved m' = rm_reserved m ∧
    rm_rechecked m' = HS.Do (λ s, foldl (λ s t, AddTx t s) s passed) (rm_rechecked m) ∧ rechecked b (before ++ [tx]) txs passed dropped final).
  { intros b. destruct (IH b _ (before ++ [tx]) (removeTxs ++ [tx]) m (failures_drop _ _ _ _ Hx Hf))
      as (passed & dropped & final & m' & Hr & Hp & Hv & Hs & Hl).
    exists passed, dropped, final, m'. rewrite <- app_assoc in Hr. by split_and!. }
  pose proof (failures_follow failed before tx sigs Hx Hf) as Hfol. destruct (existsb (follows_failed failed) sigs) eqn:He.
  { destruct (proj1 Hfol eq_refl) as (d & Hd & Haft). destruct (Hdrop branch) as (passed & dropped & final & m' & Hr & Hp & Hv & Hs & Hl).
    exists passed, (tx :: dropped), final, m'. split_and!; [done..|]. by eapply rk_dependent. }
  assert (Hno : ∀ d, d ∈ before → ¬ comes_after d tx) by (intros d Hd Haft; assert (false = true) by (apply Hfol; by exists d); done).
  destruct (RecheckCosmos branch tx) as [b [e|]] eqn:Hc.
  { destruct (Hdrop b) as (passed & dropped & final & m' & Hr & Hp & Hv & Hs & Hl).
    exists passed, (tx :: dropped), final, m'. split_and!; [done..|]. by eapply rk_refused. }
  destruct (IH b failed before removeTxs (set_rechecked (HS.Do (AddTx tx) (rm_rechecked m)) (set_ctx (Some b) m)) Hf)
    as (passed & dropped & final & m' & Hr & Hp & Hv & Hs & Hl).
  exists (tx :: passed), dropped, final, m'. split_and!; [exact Hr|done|done|by rewrite Hs|]. by eapply rk_passed.
Qed.
Lemma rechecked_sublists branch before txs passed dropped final :
  rechecked branch before txs passed dropped final → passed `sublist_of` txs ∧ dropped `sublist_of` txs.
Proof.
  induction 1; destruct_and?; split; try done; first [by apply sublist_skip|by apply sublist_cons].
Qed.

Context `{HPL : !ExtMempoolLaws Pool Tx}.
Lemma remove_failed_spec dropped m :
  NoDup dropped → (∀ t, t ∈ dropped → t ∈ ext_Select (rm_pool m)) →
  ∃ m', for_each dropped remove_failed m = (m', Ok tt) ∧ rm_rechecked m' = rm_rechecked m ∧
    ∀ t, t ∈ ext_Select (rm_pool m') ↔ t ∈ ext_Select (rm_pool m) ∧ t ∉ dropped.
Proof.
  intros Hnd. revert m. induction Hnd as [|d dropped Hd Hnd IH]; intros m Hin; cbn [for_each].
  { exists m. split_and!; [done..|]. intros t. split; [|by intros []]. intros Ht. split; [done|apply not_elem_of_nil]. }
  destruct (ext_remove_in d (rm_pool m)) as (p' & Hp & Hsel); [apply Hin; by left|].
  assert (∃ r, remove_failed d m = (set_reserved r (set_pool p' m), Ok tt)) as [r Hr].
  { unfold remove_failed. run_M. rewrite Hp. destruct (signerAddressesFromTx d) as [addrs|]; [by eexists|].
    exists (rm_reserved m). by destruct m. }
  destruct (IH (set_reserved r (set_pool p' m))) as (m' & Hm' & Hs & Hq).
  { intros t Ht. cbn. apply Hsel. split; [apply Hin; by right|]. by intros ->. }
  exists m'. split_and!; [unfold mbind, M_bind; by rewrite Hr|by rewrite Hs|]. intros t. rewrite Hq. cbn. rewrite Hsel, not_elem_of_cons. tauto.
Qed.

(** The context a recheck starts from: a gas limit that does not fit in [int64]
    has none when the consensus parameters are not set. *)
Definition updated (latest : Ctx St) (newHead : Header) : option (Ctx St) :=
  match cx_maxGas latest with
  | Some g => Some (mkCtx (cx_stores latest) (hd_GasLimit newHead) (Some g))
  | None => if 2 ^ 63 <=? hd_GasLimit newHead then None
            else Some (mkCtx (cx_stores latest) (hd_GasLimit newHead) (Some (hd_GasLimit newHead)))
  end.
Definition snapshot (passed : list Tx) : TxStore := foldl (λ s t, AddTx t s) CS.NewCosmosTxStore passed.

(** C5: a recheck that is not cancelled settles the pool at the new height.  The
    pool loses exactly the dropped transactions and the snapshot of the height has
    exactly those that pass, where a transaction is dropped exactly when it comes
    after a dropped one of an account of its own, or the ante handler refuses it on
    what the transactions before it have left ([rechecked]); a transaction whose
    signatures cannot be read stays and is not in the snapshot.  Without a context
    of the chain the pool is left as it is with an empty snapshot, and a gas limit
    of 2^63 or more panics when the consensus parameters are not set. *)
Theorem recheck_settles_pool newHead m :
  HS.hs_ended (rm_rechecked m) = true →
  match GetLatestContext with
  | None => runRecheck newHead None m = (set_rechecked (HS.mkSync (hd_Number newHead) CS.NewCosmosTxStore true) m, Ok tt)
  | Some latest =>
      match updated latest newHead with
      | None => ∃ m' msg, runRecheck newHead None m = (m', Panic msg)
      | Some c =>
          ∃ m' passed dropped final, runRecheck newHead None m = (m', Ok tt) ∧
            rechecked c [] (ext_Select (rm_pool m)) passed dropped final ∧
            rm_rechecked m' = HS.mkSync (hd_Number newHead) (snapshot passed) true ∧
            ∀ t, t ∈ ext_Select (rm_pool m') ↔ t ∈ ext_Select (rm_pool m) ∧ t ∉ dropped
      end
  end.
Proof.
  intros Hend. pose proof (ext_select_nodup (rm_pool m)) as Hnd. unfold runRecheck. destruct GetLatestContext as [latest|].
  2: { unfold at_rechecked, HS.StartNewHeight, HS.EndCurrentHeight. unfold mbind, M_bind, gets, modify. rewrite Hend. done. }
  set (m0 := set_rechecked (HS.mkSync (hd_Number newHead) CS.NewCosmosTxStore false) m).
  assert (Hstart : at_rechecked (HS.StartNewHeight CS.NewCosmosTxStore (hd_Number newHead)) m = (m0, Ok tt)).
  { unfold at_rechecked, HS.StartNewHeight. unfold mbind, M_bind, gets, modify. by rewrite Hend. }
  assert (Hupd : match updated latest newHead with
                 | None => ∃ msg, Update latest newHead m0 = (m0, Panic msg)
                 | Some c => Update latest newHead m0 = (set_ctx (Some c) m0, Ok tt)
                 end).
  { unfold updated, Update. destruct (cx_maxGas latest); [done|]. destruct (2 ^ 63 <=? hd_GasLimit newHead); [by eexists|done]. }
  destruct (updated latest newHead) as [c|].
  2: { destruct Hupd as [msg Hupd]. exists m0, msg. unfold mbind, M_bind. rewrite Hstart. cbn. by rewrite Hupd. }
  destruct (recheck_loop_spec (ext_Select (rm_pool m)) c ∅ [] [] (set_ctx (Some c) m0) failures_nil)
    as (passed & dropped & final & m1 & Hrun & Hp1 & _ & Hs1 & Hl). cbn in Hp1, Hs1. pose proof (rechecked_sublists _ _ _ _ _ _ Hl) as [_ Hsub].
  destruct (remove_failed_spec dropped m1) as (m2 & Hrem & Hs2 & Hq).
  { by eapply sublist_NoDup. }
  { intros t Ht. rewrite Hp1. by eapply elem_of_sublist. }
  rewrite Hp1 in Hq. exists (set_rechecked (HS.mkSync (hd_Number newHead) (snapshot passed) true) m2), passed, dropped, final.
  split_and!; [|done|done|done]. unfold mbind, M_bind at 1. rewrite Hstart. unfold mbind, M_bind. rewrite Hupd. cbn. rewrite Hrun. cbn. rewrite Hrem.
  unfold at_rechecked, HS.EndCurrentHeight, gets, modify, mbind, M_bind. by rewrite Hs2, Hs1.
Qed.

(** The pool has reserved the accounts of its transactions. *)
Definition exclusive m : Prop := ∀ t addrs a,
  t ∈ ext_Select (rm_pool m) → signerAddressesFromTx t = Some addrs → a ∈ addrs → rm_reserved m !! a = Some self.

(** C6: a failed insertion gives up the reservation of an account whose earlier
    transactions are still in the pool, since the reservation that was there
    already is released with the rest: any other pool can reserve the account
    then. *)
Theorem failed_insert_frees_account m c t0 addrs0 tx a b e :
  exclusive m → rm_ctx m = Some c → t0 ∈ ext_Select (rm_pool m) → signerAddressesFromTx t0 = Some addrs0 → a ∈ addrs0 →
  signerAddressesFromTx tx = Some [a] → RecheckCosmos c tx = (b, Some e) →
  ∃ m', Insert tx m = (m', Err (ErrAnteFailed e)) ∧ t0 ∈ ext_Select (rm_pool m') ∧ ¬ exclusive m' ∧
    ∀ other, ∃ t', RV.Hold other [a] (rm_reserved m') = (t', Ok tt) ∧ t' !! a = Some other.
Proof.
  intros Hex Hc Ht0 Ha0 Ha Htx He. pose proof (Hex _ _ _ Ht0 Ha0 Ha) as Hown.
  exists (set_reserved (delete a (rm_reserved m)) m). split_and!.
  - assert (Hhold : RV.Hold self [a] (rm_reserved m) = (rm_reserved m, Ok tt)) by (by rewrite RV.Hold_cons, Hown, Z.eqb_refl).
    assert (Hrel : RV.Release self [a] (rm_reserved m) = (delete a (rm_reserved m), Ok tt)) by (by rewrite RV.Release_cons, Hown, Z.eqb_refl).
    unfold Insert. rewrite Htx. unfold mbind, M_bind, hold. rewrite Hhold. unfold insert_context, mbind, M_bind, gets.
    cbn [rm_ctx set_reserved]. rewrite Hc. unfold mret, M_ret. rewrite He. unfold release. cbn [rm_reserved set_reserved].
    by rewrite Hrel.
  - done.
  - intros Hex'. specialize (Hex' t0 addrs0 a Ht0 Ha0 Ha). cbn in Hex'. by rewrite lookup_delete_eq in Hex'.
  - intros other. cbn [rm_reserved set_reserved]. exists (<[a := other]> (delete a (rm_reserved m))). split; [|by rewrite lookup_insert_eq].
    rewrite RV.Hold_cons, lookup_delete_eq. done.
Qed.

(** What a failed check wrote stays in the branch, and the next success writes it
    back to the rechecker. *)
Lemma failed_check_leaks branch tx1 tx2 sigs1 sigs2 s1 s2 e m :
  extractSignerSequences tx1 = Some sigs1 → extractSignerSequences tx2 = Some sigs2 →
  (∀ x y, x ∈ sigs1 → y ∈ sigs2 → CS.sq_account x ≠ CS.sq_account y) →
  anteHandler branch tx1 = (s1, Some e) → anteHandler (with_stores branch s1) tx2 = (s2, None) →
  ∃ m', recheck_loop None [tx1; tx2] branch ∅ [] m = (m', Ok (Some [tx1])) ∧ rm_ctx m' = Some (with_stores branch s2).
Proof.
  intros Hx1 Hx2 Hdis H1 H2. cbn [recheck_loop]. change (isCancelled None) with false. cbn iota. rewrite Hx1.
  assert (existsb (follows_failed ∅) sigs1 = false) as ->.
  { clear. induction sigs1 as [|x l IH]; [done|]. cbn. by rewrite IH. }
  unfold RecheckCosmos. rewrite H1. cbn [fmap option_fmap option_map]. change (isCancelled None) with false. cbn iota. rewrite Hx2.
  assert (existsb (follows_failed (foldl note_failed ∅ sigs1)) sigs2 = false) as ->.
  { assert (Hdom : ∀ a, (∀ x, x ∈ sigs1 → CS.sq_account x ≠ a) → foldl note_failed ∅ sigs1 !! a = None).
    { intros a Hno. assert (Hgen : ∀ (l : list CS.signerSequence) (f : gmap string Z), (∀ x, x ∈ l → CS.sq_account x ≠ a) → f !! a = None → foldl note_failed f l !! a = None).
      { induction l as [|x l IH]; intros f Hn Hf; [done|]. cbn. apply IH; [intros y Hy; apply Hn; by right|].
        unfold note_failed. repeat case_match; rewrite ?lookup_insert_ne by (apply Hn; by left); done. }
      by apply Hgen. }
    apply not_true_iff_false. intros (y & Hy%list_elem_of_In & Hf)%existsb_exists. unfold follows_failed in Hf.
    rewrite Hdom in Hf; [done|]. intros x Hxin. by apply Hdis. }
  rewrite H2. cbn. by eexists.
Qed.
End Recheck.
End RP.

(** ** The loop that schedules rechecks *)

Module RK.
(** A launched recheck: the channel it closes when it ends, the channel that
    cancels it, and the head it runs for. *)
Record Run := mkRun {
  r_done : nat;
  r_cancel : nat;
  r_head : Header;
}.
(** The loop serves requests, waits for the last recheck after a shutdown, or has
    returned. *)
Inductive Mode := Serving | Stopping | Returned.
(** The variables of [scheduleRecheckLoop], with the channels made so far
    ([k_fresh]), the rechecks launched (the latest first) and the channels closed. *)
Record Loop := mkLoop {
  curDone : option nat;
  nextDone : nat;
  launchNextRun : bool;
  recheckReq : option Header;
  cancelCh : option nat;
  k_fresh : nat;
  k_runs : list Run;
  k_closed : gset nat;
  k_mode : Mode;
}.
Implicit Types w : Loop.
Definition initial : Loop := mkLoop None 0 false None None 1 [] ∅ Serving.

(** The top of the loop. *)
Definition launch w : Loop :=
  match curDone w, launchNextRun w, recheckReq w, k_mode w with
  | None, true, Some head, Serving =>
      mkLoop (Some (nextDone w)) (S (k_fresh w)) false None (Some (k_fresh w)) (S (S (k_fresh w)))
        (mkRun (nextDone w) (k_fresh w) head :: k_runs w) (k_closed w) Serving
  | _, _, _, _ => w
  end.
Definition closed_opt (c : option nat) : gset nat := match c with Some c => {[c]} | None => ∅ end.

(** A request, the end of the recheck in progress, its receipt by the loop (also
    in the wait of a shutdown), and a shutdown. *)
Inductive Event := Request (newHead : Header) | RunEnds | RunDone | Shutdown.
Definition handle (ev : Event) w : option Loop :=
  match ev, k_mode w with
  | Request head, Serving =>
      match curDone w with
      | Some _ => Some (mkLoop (curDone w) (nextDone w) true (Some head) None (k_fresh w) (k_runs w) (closed_opt (cancelCh w) ∪ k_closed w) Serving)
      | None => Some (mkLoop None (nextDone w) true (Some head) (cancelCh w) (k_fresh w) (k_runs w) (k_closed w) Serving)
      end
  | RunEnds, _ =>
      match curDone w with
      | Some c => if bool_decide (c ∈ k_closed w) then None
                  else Some (mkLoop (curDone w) (nextDone w) (launchNextRun w) (recheckReq w) (cancelCh w) (k_fresh w) (k_runs w) ({[c]} ∪ k_closed w) (k_mode w))
      | None => None
      end
  | RunDone, Serving =>
      match curDone w with
      | Some c => if bool_decide (c ∈ k_closed w)
                  then Some (mkLoop None (nextDone w) (launchNextRun w) (recheckReq w) None (k_fresh w) (k_runs w) (k_closed w) Serving)
                  else None
      | None => None
      end
  | RunDone, Stopping =>
      match curDone w with
      | Some c => if bool_decide (c ∈ k_closed w)
                  then Some (mkLoop (curDone w) (nextDone w) (launchNextRun w) (recheckReq w) (cancelCh w) (k_fresh w) (k_runs w) ({[nextDone w]} ∪ k_closed w) Returned)
                  else None
      | None => None
      end
  | Shutdown, Serving =>
      match curDone w with
      | Some _ => Some (mkLoop (curDone w) (nextDone w) (launchNextRun w) (recheckReq w) None (k_fresh w) (k_runs w) (closed_opt (cancelCh w) ∪ k_closed w) Stopping)
      | None => Some (mkLoop None (nextDone w) (launchNextRun w) (recheckReq w) (cancelCh w) (k_fresh w) (k_runs w) ({[nextDone w]} ∪ k_closed w) Returned)
      end
  | _, _ => None
  end.
Definition step (ev : Event) w : option Loop := launch <$> handle ev w.
Fixpoint run (evs : list Event) w : option Loop :=
  match evs with
  | [] => Some w
  | ev :: rest => w' ← step ev w; run rest w'
  end.

(** The channels of the loop are open and differ; a request waits only while a
    recheck is in progress. *)
Record loop_ok w : Prop := {
  ko_next : (nextDone w < k_fresh w)%nat;
  ko_closed c : c ∈ k_closed w → (c < k_fresh w)%nat;
  ko_open : k_mode w ≠ Returned → nextDone w ∉ k_closed w;
  ko_cur c : curDone w = Some c → (c < k_fresh w)%nat ∧ c ≠ nextDone w ∧ ∃ r rest, k_runs w = r :: rest ∧ r_done r = c ∧
    (cancelCh w = Some (r_cancel r) ∨ r_cancel r ∈ k_closed w);
  ko_cancel k : cancelCh w = Some k → (k < k_fresh w)%nat ∧ k ≠ nextDone w ∧ curDone w ≠ Some k ∧ k ∉ k_closed w;
  ko_idle : curDone w = None → cancelCh w = None;
  ko_stop : k_mode w = Stopping → is_Some (curDone w);
}.
Lemma recheck_initial_ok : loop_ok initial.
Proof. split; cbn; try done; try lia; set_solver. Qed.
Lemma recheck_launch_ok w : loop_ok w → loop_ok (launch w).
Proof.
  intros Hok. pose proof Hok as [H1 H2 H3 H4 H5 H6 H7]. unfold launch. destruct (curDone w) eqn:Hc; [done|].
  destruct (launchNextRun w); [|done]. destruct (recheckReq w) as [head|]; [|done]. destruct (k_mode w) eqn:Hm; [|done..].
  split; cbn; try done; try lia.
  - intros c ?%H2. lia.
  - intros _ ?%H2. lia.
  - intros c [= <-]. split_and!; [lia|lia|]. eexists _, _. split_and!; [done|done|by left].
  - intros k [= <-]. split_and!; [lia|lia|intros [= ?]; lia|]. intros ?%H2. lia.
Qed.
(** Closing channels that are neither the next one nor the cancel channel kept. *)
Lemma closing_ok w b req cancel X mode :
  loop_ok w → X ⊆ closed_opt (curDone w) ∪ closed_opt (cancelCh w) → cancel = None ∧ closed_opt (cancelCh w) ⊆ X ∨ cancel = cancelCh w ∧ (∀ k, cancel = Some k → k ∉ X) →
  (mode ≠ Returned → k_mode w ≠ Returned) → (mode = Stopping → is_Some (curDone w)) →
  loop_ok (mkLoop (curDone w) (nextDone w) b req cancel (k_fresh w) (k_runs w) (X ∪ k_closed w) mode).
Proof.
  intros [H1 H2 H3 H4 H5 H6 H7] HX Hca Hm Hst.
  assert (HX' : ∀ c, c ∈ X → (c < k_fresh w)%nat ∧ c ≠ nextDone w).
  { intros c [Hc|Hc]%HX%elem_of_union.
    - destruct (curDone w) as [c'|]; cbn in Hc; [|by apply elem_of_empty in Hc]. apply elem_of_singleton in Hc as ->. by destruct (H4 c' eq_refl) as (? & ? & _).
    - destruct (cancelCh w) as [k|]; cbn in Hc; [|by apply elem_of_empty in Hc]. apply elem_of_singleton in Hc as ->. by destruct (H5 k eq_refl) as (? & ? & _). }
  split; cbn; try done.
  - intros c [Hc|Hc]%elem_of_union; [by apply HX'|by apply H2].
  - intros Hne%Hm [Hc|Hc]%elem_of_union; [by destruct (HX' _ Hc)|by apply H3].
  - intros c Hc. destruct (H4 c Hc) as (? & ? & r & rest & Hr & Hd & Hcr). split_and!; [done..|]. exists r, rest. split_and!; [done..|].
    destruct Hcr as [Hcr|Hcr]; [|right; apply elem_of_union; by right]. destruct Hca as [[-> Hsub] | [-> _]]; [|by left].
    right. apply elem_of_union. left. apply Hsub. rewrite Hcr. cbn. by apply elem_of_singleton.
  - destruct Hca as [[-> _] | [-> Hk]]; [done|]. intros k Hkc. destruct (H5 k Hkc) as (? & ? & ? & ?). split_and!; [done..|].
    rewrite not_elem_of_union. split; [by apply Hk|done].
  - intros Hc. destruct Hca as [[-> _] | [-> _]]; [done|by apply H6].
Qed.
(** The loop returns. *)
Lemma returning_ok w :
  loop_ok w → loop_ok (mkLoop (curDone w) (nextDone w) (launchNextRun w) (recheckReq w) (cancelCh w) (k_fresh w) (k_runs w)
    ({[nextDone w]} ∪ k_closed w) Returned).
Proof.
  intros [H1 H2 H3 H4 H5 H6 H7]. split; cbn; try done.
  - intros c [->%elem_of_singleton|Hc]%elem_of_union; [done|by apply H2].
  - intros c Hc. destruct (H4 c Hc) as (? & ? & r & rest & Hr & Hd & Hcr). split_and!; [done..|]. exists r, rest. split_and!; [done..|].
    destruct Hcr; [by left|right; apply elem_of_union; by right].
  - intros k Hk. destruct (H5 k Hk) as (? & ? & ? & ?). split_and!; [done..|]. rewrite not_elem_of_union, not_elem_of_singleton. done.
Qed.
(** The recheck in progress has been received. *)
Lemma received_ok w :
  loop_ok w → k_mode w = Serving →
  loop_ok (mkLoop None (nextDone w) (launchNextRun w) (recheckReq w) None (k_fresh w) (k_runs w) (k_closed w) Serving).
Proof. intros [H1 H2 H3 H4 H5 H6 H7] Hm. split; cbn; try done. intros _. apply H3. by rewrite Hm. Qed.
Lemma recheck_handle_ok ev w w' : loop_ok w → handle ev w = Some w' → loop_ok w'.
Proof.
  intros Hok. unfold handle. destruct ev as [head| | |].
  - destruct (k_mode w) eqn:Hm; [|done..]. destruct (curDone w) as [c|] eqn:Hc; intros [= <-]; rewrite <- Hc.
    + apply closing_ok; try done; [apply union_subseteq_r|by left|by rewrite Hm].
    + pose proof (closing_ok w true (Some head) (cancelCh w) ∅ Serving Hok (empty_subseteq _)) as H. rewrite (left_id_L ∅ (∪)) in H.
      apply H; [right; split; [done|intros; apply not_elem_of_empty]|by rewrite Hm|done].
  - assert (Hgoal : ∀ c, curDone w = Some c → c ∉ k_closed w → loop_ok (mkLoop (curDone w) (nextDone w) (launchNextRun w) (recheckReq w)
      (cancelCh w) (k_fresh w) (k_runs w) ({[c]} ∪ k_closed w) (k_mode w))).
    { intros c Hc _. apply closing_ok; [done|rewrite Hc; apply union_subseteq_l| |done|apply Hok]. right. split; [done|].
      intros k Hk ->%elem_of_singleton. by destruct (ko_cancel _ Hok c Hk) as (_ & _ & ? & _). }
    destruct (curDone w) as [c|] eqn:Hc; [|by destruct (k_mode w)]. case_bool_decide as Hcl; [by destruct (k_mode w)|].
    specialize (Hgoal c eq_refl Hcl). destruct (k_mode w); intros [= <-]; done.
  - destruct (curDone w) as [c|] eqn:Hc; [|by destruct (k_mode w)]. destruct (k_mode w) eqn:Hm; [| |done]; (case_bool_decide; [|done]); intros [= <-].
    + by apply received_ok.
    + rewrite <- Hc. by apply returning_ok.
  - destruct (k_mode w) eqn:Hm; [|done..]. destruct (curDone w) as [c|] eqn:Hc; intros [= <-]; rewrite <- Hc.
    + apply closing_ok; [done|apply union_subseteq_r|by left|by rewrite Hm|by rewrite Hc].
    + by apply returning_ok.
Qed.
Lemma recheck_loop_step_ok ev w w' : loop_ok w → step ev w = Some w' → loop_ok w'.
Proof. unfold step. intros Hok (w1 & H1 & ->)%fmap_Some. by eapply recheck_launch_ok, recheck_handle_ok. Qed.
Lemma recheck_run_ok evs w w' : loop_ok w → run evs w = Some w' → loop_ok w'.
Proof.
  revert w. induction evs as [|ev evs IH]; intros w Hok; cbn [run]; [by intros [= <-]|].
  intros (w1 & H1 & H2)%bind_Some. eapply IH; [by eapply recheck_loop_step_ok|done].
Qed.

(** *** Requests are served *)

Definition head_of (ev : Event) : list Header := match ev with Request head => [head] | _ => [] end.
Definition heads (evs : list Event) : list Header := evs ≫= head_of.
Definition is_end (ev : Event) : bool := match ev with RunEnds => true | _ => false end.
Definition ends (evs : list Event) : nat := list_sum ((λ ev, if is_end ev then 1 else 0)%nat <$> evs).

(** Where a request with channel [c] stands, for one of the heads [H], and how many
    rechecks must still end. *)
Inductive phase (H : list Header) (c : nat) w : nat → Prop :=
| ph_waiting r head : k_mode w = Serving → nextDone w = c → launchNextRun w = true → curDone w = Some r →
    recheckReq w = Some head → head ∈ H → phase H c w (if decide (r ∈ k_closed w) then 1 else 2)
| ph_running r rest : k_mode w = Serving → curDone w = Some c → c ∉ k_closed w → k_runs w = r :: rest → r_done r = c →
    r_head r ∈ H → phase H c w 1
| ph_served r : c ∈ k_closed w → r ∈ k_runs w → r_done r = c → r_head r ∈ H → phase H c w 0.

Lemma launch_busy w r : curDone w = Some r → launch w = w.
Proof. unfold launch. by intros ->. Qed.
Lemma recheck_step_keeps ev w w' : step ev w = Some w' → k_closed w ⊆ k_closed w' ∧ (∀ r, r ∈ k_runs w → r ∈ k_runs w').
Proof.
  unfold step. intros (w1 & Hh & ->)%fmap_Some.
  assert (k_closed w ⊆ k_closed w1 ∧ k_runs w1 = k_runs w) as [H1 H2].
  { unfold handle in Hh. destruct ev, (k_mode w), (curDone w); repeat case_bool_decide; simplify_eq/=; split; try done; apply union_subseteq_r. }
  unfold launch. repeat case_match; cbn; rewrite <- ?H2; (split; [done|]); intros r Hr; rewrite ?H2 in *; try done; by right.
Qed.
Lemma phase_mono H H' c w n : (∀ h, h ∈ H → h ∈ H') → phase H c w n → phase H' c w n.
Proof. intros Hsub. destruct 1; [eapply ph_waiting|eapply ph_running|eapply ph_served]; eauto. Qed.

Lemma recheck_waiting_step H e c w w' r head :
  loop_ok w → k_mode w = Serving → nextDone w = c → launchNextRun w = true → curDone w = Some r → recheckReq w = Some head → head ∈ H →
  step e w = Some w' → e ≠ Shutdown →
  ∃ n, phase (head_of e ++ H) c w' n ∧ (n + (if is_end e then 1 else 0) ≤ if decide (r ∈ k_closed w) then 1 else 2)%nat.
Proof.
  intros Hok Hm Hn Hl Hc Hreq Hin Hstep Hne. unfold step in Hstep. apply fmap_Some in Hstep as (w1 & Hh & ->).
  unfold handle in Hh. rewrite Hm, Hc in Hh. destruct e as [h| | |]; [..|done]; cbn [is_end head_of app].
  - injection Hh as <-. erewrite launch_busy by done. eexists. split; [eapply ph_waiting; try done; by left|]. cbn.
    destruct (decide (r ∈ k_closed w)) as [Hr|Hr]; [rewrite decide_True by (apply elem_of_union; by right); lia|]. case_decide as Hr'; [|lia]. exfalso.
    apply elem_of_union in Hr' as [Hr'|]; [|done]. destruct (cancelCh w) as [k|] eqn:Hk; cbn in Hr'; [|by apply elem_of_empty in Hr'].
    apply elem_of_singleton in Hr' as ->. by destruct (ko_cancel _ Hok k Hk) as (_ & _ & ? & _).
  - case_bool_decide as Hr; [done|]. injection Hh as <-. erewrite launch_busy by done. eexists. split; [by eapply ph_waiting|]. cbn.
    rewrite decide_True, decide_False by (done || apply elem_of_union; left; by apply elem_of_singleton). lia.
  - case_bool_decide as Hr; [|done]. injection Hh as <-. rewrite decide_True by done. exists 1%nat. split; [|lia].
    unfold launch. cbn. rewrite Hl, Hreq. eapply ph_running; cbn; try done; [by rewrite Hn|]. rewrite <- Hn. apply (ko_open _ Hok). by rewrite Hm.
Qed.
Lemma recheck_running_step H e c w w' r rest :
  loop_ok w → k_mode w = Serving → curDone w = Some c → c ∉ k_closed w → k_runs w = r :: rest → r_done r = c → r_head r ∈ H →
  step e w = Some w' → e ≠ Shutdown →
  ∃ n, phase H c w' n ∧ (n + (if is_end e then 1 else 0) ≤ 1)%nat.
Proof.
  intros Hok Hm Hc Hopen Hr Hd Hin Hstep Hne. unfold step in Hstep. apply fmap_Some in Hstep as (w1 & Hh & ->).
  unfold handle in Hh. rewrite Hm, Hc in Hh. destruct e as [h| | |]; [..|done]; cbn [is_end].
  - injection Hh as <-. erewrite launch_busy by done. exists 1%nat. split; [|lia]. eapply ph_running; cbn; try done.
    rewrite not_elem_of_union. split; [|done]. destruct (cancelCh w) as [k|] eqn:Hk; cbn; [|apply not_elem_of_empty].
    rewrite not_elem_of_singleton. destruct (ko_cancel _ Hok k Hk) as (_ & _ & ? & _). congruence.
  - rewrite bool_decide_false in Hh by done. injection Hh as <-. erewrite launch_busy by done. exists 0%nat. split; [|lia].
    eapply ph_served; cbn; try done; [apply elem_of_union; left; by apply elem_of_singleton|rewrite Hr; by left].
  - by rewrite bool_decide_false in Hh.
Qed.
Lemma recheck_phase_run H evs c w w' n :
  loop_ok w → phase H c w n → run evs w = Some w' → Shutdown ∉ evs →
  ∃ n', phase (heads evs ++ H) c w' n' ∧ (n' ≤ n - ends evs)%nat.
Proof.
  revert H w n. induction evs as [|e evs IH]; intros H w n Hok Hph Hrun Hns; cbn [run] in Hrun.
  { injection Hrun as <-. exists n. split; [done|cbn; lia]. }
  apply bind_Some in Hrun as (w1 & H1 & Hrun). apply not_elem_of_cons in Hns as [Hne Hns].
  assert (∃ n1, phase (head_of e ++ H) c w1 n1 ∧ (n1 ≤ n - (if is_end e then 1 else 0))%nat) as (n1 & Hph1 & Hle).
  { destruct Hph as [r head Hm Hn Hl Hc Hreq Hin|r rest Hm Hc Hopen Hr Hd Hin|r Hcl Hr Hd Hin].
    - destruct (recheck_waiting_step _ _ _ _ _ _ _ Hok Hm Hn Hl Hc Hreq Hin H1) as (n1 & ? & ?); [congruence|]. exists n1. split; [done|lia].
    - destruct (recheck_running_step _ _ _ _ _ _ _ Hok Hm Hc Hopen Hr Hd Hin H1) as (n1 & ? & ?); [congruence|]. exists n1.
      split; [|lia]. eapply phase_mono; [|done]. intros h Hh. apply elem_of_app. by right.
    - destruct (recheck_step_keeps _ _ _ H1) as [Hs1 Hs2]. exists 0%nat. split; [|lia]. eapply ph_served; [by apply Hs1|by apply Hs2|done|].
      apply elem_of_app. by right. }
  destruct (IH _ w1 n1 (recheck_loop_step_ok _ _ _ Hok H1) Hph1 Hrun Hns) as (n' & Hph' & Hle'). exists n'. split.
  - eapply phase_mono; [|done]. intros h. change (heads (e :: evs)) with (head_of e ++ heads evs). rewrite !elem_of_app. tauto.
  - change (ends (e :: evs)) with ((if is_end e then 1 else 0) + ends evs)%nat. lia.
Qed.

(** The channel of a request is the next one, that of the recheck in progress, or
    closed; it is closed once the loop has returned. *)
Definition pending (c : nat) w : Prop :=
  (c ∈ k_closed w ∨ nextDone w = c ∨ curDone w = Some c) ∧ (k_mode w = Returned → c ∈ k_closed w).
Lemma launch_cases w :
  launch w = w ∨ curDone w = None ∧ curDone (launch w) = Some (nextDone w) ∧ k_closed (launch w) = k_closed w ∧ k_mode (launch w) = Serving.
Proof. unfold launch. repeat case_match; auto. Qed.
Lemma pending_step ev c w w' : pending c w → step ev w = Some w' → pending c w'.
Proof.
  intros [Hp Hr] Hstep. pose proof (recheck_step_keeps _ _ _ Hstep) as [Hsub _]. unfold step in Hstep. apply fmap_Some in Hstep as (w1 & Hh & ->).
  destruct (decide (c ∈ k_closed w)) as [Hc|Hc]; [by split; [left; apply Hsub|intros _; apply Hsub]|].
  destruct Hp as [|Hp]; [done|]. assert (Hm : k_mode w ≠ Returned) by (by intros ?%Hr).
  assert (pending c w1) as [Hp1 Hr1].
  { unfold handle in Hh. destruct ev, (k_mode w) eqn:Hmw; try done; destruct (curDone w) as [d|] eqn:Hd; try done;
      repeat case_bool_decide; simplify_eq/=; unfold pending; cbn; (split; [|try done]); destruct Hp as [<-|?]; simplify_eq;
      rewrite ?elem_of_union, ?elem_of_singleton; auto. }
  destruct (launch_cases w1) as [->|(Hd & Hd' & Hcl & Hm1)]; [done|]. split; [|by rewrite Hm1]. rewrite Hcl, Hd'.
  destruct Hp1 as [|[<-|]]; [by left|right; by right|congruence].
Qed.
Lemma pending_run evs c w w' : pending c w → run evs w = Some w' → pending c w'.
Proof.
  revert w. induction evs as [|ev evs IH]; intros w Hp; cbn [run]; [by intros [= <-]|].
  intros (w1 & H1 & H2)%bind_Some. eapply IH; [by eapply pending_step|done].
Qed.
Lemma launch_mode w : k_mode (launch w) = k_mode w.
Proof. unfold launch. by repeat case_match. Qed.
Lemma run_serving evs w w' : run evs w = Some w' → k_mode w' = Serving → Shutdown ∉ evs ∧ k_mode w = Serving.
Proof.
  revert w. induction evs as [|ev evs IH]; intros w; cbn [run]; [intros [= <-] ?; split; [apply not_elem_of_nil|done]|].
  intros (w1 & H1 & H2)%bind_Some Hm. destruct (IH _ H2 Hm) as [Hns Hm1]. unfold step in H1. apply fmap_Some in H1 as (w0 & Hh & ->).
  rewrite launch_mode in Hm1. rewrite not_elem_of_cons. unfold handle in Hh.
  destruct ev, (k_mode w), (curDone w); repeat case_bool_decide; simplify_eq/=; done.
Qed.
(** What is in progress can end. *)
Lemma end_recheck w c :
  loop_ok w → curDone w = Some c →
  ∃ evs w', run evs w = Some w' ∧ c ∈ k_closed w' ∧ curDone w' = Some c ∧ nextDone w' = nextDone w ∧ k_mode w' = k_mode w ∧
    launchNextRun w' = launchNextRun w ∧ recheckReq w' = recheckReq w ∧ ∀ e, e ∈ evs → e = RunEnds.
Proof.
  intros Hok Hc. destruct (decide (c ∈ k_closed w)) as [Hin|Hin].
  { exists [], w. split_and!; try done. by intros e ?%elem_of_nil. }
  exists [RunEnds]. cbn [run]. unfold step, handle. rewrite Hc, bool_decide_false by done. destruct (k_mode w) eqn:Hm.
  all: cbn [fmap option_fmap option_map mbind option_bind]; eexists; (split; [by erewrite launch_busy|]); cbn; rewrite ?Hm; split_and!; try done;
    [apply elem_of_union; left; by apply elem_of_singleton|by intros e ->%list_elem_of_singleton].
Qed.
Lemma run_app evs1 evs2 w w1 : run evs1 w = Some w1 → run (evs1 ++ evs2) w = run evs2 w1.
Proof.
  revert w. induction evs1 as [|e evs1 IH]; intros w; cbn [run app]; [by intros [= ->]|].
  intros (w0 & -> & H)%bind_Some. cbn. by apply IH.
Qed.
(** Ending what is in progress and receiving it. *)
Lemma finish_recheck w c :
  loop_ok w → curDone w = Some c → k_mode w ≠ Returned →
  ∃ evs w1 w2, run evs w = Some w2 ∧ c ∈ k_closed w1 ∧ curDone w1 = Some c ∧ nextDone w1 = nextDone w ∧ k_mode w1 = k_mode w ∧
    launchNextRun w1 = launchNextRun w ∧ recheckReq w1 = recheckReq w ∧ step RunDone w1 = Some w2 ∧ loop_ok w2 ∧
    ∀ e, e ∈ evs → e = RunEnds ∨ e = RunDone.
Proof.
  intros Hok Hc Hm. destruct (end_recheck w c Hok Hc) as (evs & w1 & Hrun & Hcl & Hc1 & Hn & Hm1 & Hl & Hr & Hev).
  assert (∃ w2, step RunDone w1 = Some w2) as [w2 H2].
  { unfold step, handle. rewrite Hm1, Hc1, bool_decide_true by done. destruct (k_mode w); [by eexists..|done]. }
  exists (evs ++ [RunDone]), w1, w2. split_and!; try done.
  - erewrite run_app by done. cbn [run]. by rewrite H2.
  - eapply recheck_loop_step_ok; [by eapply recheck_run_ok|done].
  - intros e [He| ->%list_elem_of_singleton]%elem_of_app; [left; by apply Hev|by right].
Qed.
Lemma recheck_phase_progress H c w n :
  loop_ok w → phase H c w n → ∃ evs w', run evs w = Some w' ∧ c ∈ k_closed w' ∧ ∀ e, e ∈ evs → e = RunEnds ∨ e = RunDone.
Proof.
  intros Hok [r head Hm Hn Hl Hc Hreq Hin|r rest Hm Hc Hopen Hr Hd Hin|r Hcl Hr Hd Hin].
  - destruct (finish_recheck w r Hok Hc) as (evs & w1 & w2 & Hrun & Hcl & Hc1 & Hn1 & Hm1 & Hl1 & Hr1 & Hs & Hok2 & Hev); [by rewrite Hm|].
    assert (Hc2 : curDone w2 = Some c).
    { unfold step, handle in Hs. rewrite Hm1, Hm, Hc1, bool_decide_true in Hs by done. injection Hs as <-. unfold launch. cbn.
      rewrite Hl1, Hl, Hr1, Hreq. cbn. congruence. }
    destruct (end_recheck w2 c Hok2 Hc2) as (evs2 & w3 & Hrun3 & Hcl3 & _ & _ & _ & _ & _ & Hev3).
    exists (evs ++ evs2), w3. split_and!; [by erewrite run_app|done|]. intros e [He|He]%elem_of_app; [by apply Hev|left; by apply Hev3].
  - destruct (end_recheck w c Hok Hc) as (evs & w1 & Hrun & Hcl & _ & _ & _ & _ & _ & Hev). exists evs, w1.
    split_and!; [done..|]. intros e He. left. by apply Hev.
  - exists [], w. split_and!; [done..|]. by intros e ?%elem_of_nil.
Qed.
Lemma stopping_progress c w :
  loop_ok w → pending c w → k_mode w = Stopping →
  ∃ evs w', run evs w = Some w' ∧ c ∈ k_closed w' ∧ ∀ e, e ∈ evs → e = RunEnds ∨ e = RunDone.
Proof.
  intros Hok Hp Hm. destruct (ko_stop _ Hok Hm) as [r Hr].
  destruct (finish_recheck w r Hok Hr) as (evs & w1 & w2 & Hrun & Hcl & Hc1 & Hn1 & Hm1 & _ & _ & Hs & _ & Hev); [by rewrite Hm|].
  exists evs, w2. split_and!; [done| |done]. apply (pending_run _ _ _ _ Hp Hrun).
  unfold step, handle in Hs. rewrite Hm1, Hm, Hc1, bool_decide_true in Hs by done. injection Hs as <-. by rewrite launch_mode.
Qed.
Lemma recheck_request_phase head w w1 :
  loop_ok w → step (Request head) w = Some w1 →
  pending (nextDone w) w1 ∧ (∃ n, phase [head] (nextDone w) w1 n ∧ (n ≤ 2)%nat) ∧
  ∀ c r rest, curDone w = Some c → k_runs w = r :: rest → r_cancel r ∈ k_closed w1.
Proof.
  intros Hok Hstep. assert (Hp : pending (nextDone w) w1).
  { eapply pending_step; [|done]. split; [right; by left|]. unfold step, handle in Hstep. by destruct (k_mode w). }
  split; [done|]. unfold step in Hstep. apply fmap_Some in Hstep as (w0 & Hh & ->). unfold handle in Hh.
  destruct (k_mode w) eqn:Hm; [|done..]. pose proof (ko_open _ Hok ltac:(by rewrite Hm)) as Hopen.
  destruct (curDone w) as [c|] eqn:Hc; injection Hh as <-.
  - erewrite launch_busy by done. split.
    + eexists. split; [eapply ph_waiting; try done; by left|]. case_decide; lia.
    + intros c' r rest [= <-] Hr. cbn. destruct (ko_cur _ Hok c Hc) as (_ & _ & r' & rest' & Hr' & _ & Hcr). rewrite Hr in Hr'. injection Hr' as <- <-.
      apply elem_of_union. destruct Hcr as [->|]; [left; cbn; by apply elem_of_singleton|by right].
  - split; [|done]. exists 1%nat. split; [|lia]. unfold launch. cbn. eapply ph_running; cbn; try done. by left.
Qed.

(** Requests to recheck are served.  A request is given a channel, and cancels the
    recheck in progress.  Once two more rechecks end without a shutdown, the channel
    has been closed by a recheck for the head of the request or of a later one;
    after a shutdown the channel is closed when the loop returns; and as long as it
    is open, finishing what is in progress closes it. *)
Theorem rechecks_are_served head evs evs' w w1 w2 :
  run evs initial = Some w → step (Request head) w = Some w1 → run evs' w1 = Some w2 →
  (∀ c r rest, curDone w = Some c → k_runs w = r :: rest → r_cancel r ∈ k_closed w1) ∧
  ((2 ≤ ends evs')%nat → Shutdown ∉ evs' →
    nextDone w ∈ k_closed w2 ∧ ∃ r, r ∈ k_runs w2 ∧ r_done r = nextDone w ∧ r_head r ∈ heads evs' ++ [head]) ∧
  (k_mode w2 = Returned → nextDone w ∈ k_closed w2) ∧
  (nextDone w ∉ k_closed w2 → ∃ done w3, run done w2 = Some w3 ∧ nextDone w ∈ k_closed w3 ∧ ∀ e, e ∈ done → e = RunEnds ∨ e = RunDone).
Proof.
  intros Hw H1 H2. pose proof (recheck_run_ok _ _ _ recheck_initial_ok Hw) as Hok. destruct (recheck_request_phase _ _ _ Hok H1) as (Hp & (n & Hph & Hn) & Hcan).
  pose proof (recheck_loop_step_ok _ _ _ Hok H1) as Hok1. pose proof (recheck_run_ok _ _ _ Hok1 H2) as Hok2. pose proof (pending_run _ _ _ _ Hp H2) as Hp2.
  split_and!; [done| |apply Hp2|].
  - intros He Hns. destruct (recheck_phase_run _ _ _ _ _ _ Hok1 Hph H2 Hns) as (n' & Hph' & Hle).
    destruct Hph' as [r hd Hm Hnx Hl Hc Hreq Hin|r rest Hm Hc Hopen Hr Hd Hin|r Hcl Hr Hd Hin]; [case_decide; lia|lia|]. split; [done|]. by exists r.
  - intros Hnc. destruct (k_mode w2) eqn:Hm; [|by apply stopping_progress|by destruct Hnc; apply Hp2].
    destruct (run_serving _ _ _ H2 Hm) as [Hns _]. destruct (recheck_phase_run _ _ _ _ _ _ Hok1 Hph H2 Hns) as (n' & Hph' & _).
    by eapply recheck_phase_progress.
Qed.
End RK.

(** ** Two accounts *)

Module DemoRecheck.
Import RP.
(** Transaction [100 * a + n] of account [a] has sequence [n]; the stores have the
    next sequence of every account. *)
#[local] Instance demo_pool : ExtMempool (gset Z) Z := {
  ext_Insert tx p := Some ({[tx]} ∪ p);
  ext_Remove tx p := if bool_decide (tx ∈ p) then Some (p ∖ {[tx]}) else None;
  ext_Select p := merge_sort Z.le (elements p);
}.
#[local] Instance demo_pool_laws : ExtMempoolLaws (gset Z) Z.
Proof.
  split; cbn.
  - intros p. rewrite merge_sort_Permutation. apply NoDup_elements.
  - intros tx p. rewrite merge_sort_Permutation, elem_of_elements. intros Hin. rewrite bool_decide_true by done.
    eexists. split; [done|]. intros t. rewrite !merge_sort_Permutation. set_solver.
Qed.
Definition signers (tx : Z) : option (list Z) := Some [tx / 100].
Definition account (a : Z) : string := if a =? 1 then "A1" else "B2".
Definition signatures (tx : Z) : option (list (string * Z)) := Some [(account (tx / 100), tx mod 100)].
Definition nonce (seq : Z) (_ : Z) : option Z := Some seq.
Definition ante (c : Ctx (gmap Z Z)) (tx : Z) : gmap Z Z * option string :=
  let next := default 0 (cx_stores c !! (tx / 100)) in
  if next =? tx mod 100 then (<[tx / 100 := next + 1]> (cx_stores c), None) else (cx_stores c, Some "invalid sequence"%string).
Definition latest : Ctx (gmap Z Z) := mkCtx ∅ 0 None.
Definition head8 : Header := mkHeader 8 7 80 13 30000000.
(** The transactions 0 and 1 of account 1, and transaction 3 of account 2, whose
    next sequence is 0. *)
Definition start : RecheckMempool (Tx := Z) (Pool := gset Z) (St := gmap Z Z) :=
  mkRecheck {[100; 101; 203]} {[1 := 5; 2 := 5]} (Some latest) (HS.New CS.NewCosmosTxStore 7).
Abbreviation run_ := (runRecheck signers id signatures nonce ante (Some latest) 5).
Abbreviation insert_ := (Insert signers id signatures nonce ante (Some latest) head8 5).

Lemma recheck_settles_pool_witness :
  (∃ m' (passed dropped : list Z) final, run_ head8 None start = (m', Ok tt) ∧
     rechecked signatures ante (mkCtx ∅ 30000000 (Some 30000000)) [] (ext_Select (rm_pool start)) passed dropped final ∧
     ∀ t, t ∈ ext_Select (rm_pool m') ↔ t ∈ ext_Select (rm_pool start) ∧ t ∉ dropped) ∧
  ext_Select (rm_pool (fst (run_ head8 None start))) = [100; 101].
Proof.
  destruct (recheck_settles_pool signers id signatures nonce ante (Some latest) 5 head8 start eq_refl)
    as (m' & passed & dropped & final & Hrun & Hl & _ & Hq).
  split; [exists m', passed, dropped, final; split; [exact Hrun|]; split; [exact Hl|exact Hq]|by vm_compute].
Defined.

(** A second transaction of account 1 with a wrong sequence. *)
Lemma failed_insert_frees_account_witness :
  ∃ m', insert_ 105 start = (m', Err (ErrAnteFailed "invalid sequence")) ∧ 100 ∈ ext_Select (rm_pool m') ∧
    ∃ t', RV.Hold 6 [1] (rm_reserved m') = (t', Ok tt) ∧ t' !! 1 = Some 6.
Proof.
  destruct (failed_insert_frees_account signers id signatures nonce ante (Some latest) head8 5 start latest 100 [1] 105 1 latest "invalid sequence")
    as (m' & Hins & Hin & _ & Hhold); try reflexivity.
  - intros t addrs a Ht Haddr Ha. injection Haddr as <-. apply list_elem_of_singleton in Ha as ->. cbn in Ht. rewrite merge_sort_Permutation in Ht.
    assert (t = 100 ∨ t = 101 ∨ t = 203) as [-> | [-> | ->]] by set_solver; reflexivity.
  - apply (bool_decide_unpack _). vm_compute. exact Logic.I.
  - by left.
  - exists m'. split; [exact Hins|]. split; [exact Hin|exact (Hhold 6)].
Defined.
End DemoRecheck.
