(* ===== verification/ReapList.v ===== *)
(** What the application mempool hands to consensus and what it is handed: the
    list transactions are reaped from ([mempool/reap_list.go]) and the queue of
    insertions ([mempool/internal/queue/queue.go]). *)
From stdpp Require Import pretty.
From S2P Require Import Prelude GoStd.

(** ** The reap list *)

Module RE.
Inductive ReapError := ErrEncodingEVM | ErrEncodingCosmos | ErrNotFeeTx.

Section Reap.
(** Encoded transactions with their length, and the encoder. *)
Context {Bytes EVMTx CosmosTx : Type} (len : Bytes → Z).
Context (enc_EVMTx : EVMTx → option Bytes) (enc_CosmosTx : CosmosTx → option Bytes).
Context (tx_Hash : EVMTx → string) (tx_Gas : EVMTx → Z) (GetGas : CosmosTx → option Z) (cosmosHash : Bytes → string).

Record txWithHash := mkTxHash {
  th_bytes : Bytes;
  th_hash : string;
  th_gas : Z;
}.
(** Slots are nil after a drop; the index of a reaped transaction is [-1]. *)
Record ReapList := mkReap {
  rl_txs : list (option txWithHash);
  rl_txIndex : gmap string Z;
}.
Implicit Types rl : ReapList.
Abbreviation R := (M ReapList ReapError).

Definition NewReapList : ReapList := mkReap [] ∅.

(** The loop of [Reap] from index [idx]: the bytes, the next start and the index
    it leaves. *)
Fixpoint reap_loop (maxBytes maxGas : Z) (idx : nat) (txs : list (option txWithHash)) (totalBytes totalGas : Z)
    (result : list Bytes) (nextStart : nat) (index : gmap string Z) : res ReapError (list Bytes * nat * gmap string Z) :=
  match txs with
  | [] => Ok (result, nextStart, index)
  | None :: rest => reap_loop maxBytes maxGas (S idx) rest totalBytes totalGas result (S idx) index
  | Some tx :: rest =>
      let txSize := len (th_bytes tx) in
      if ((0 <? maxBytes) && (maxBytes <? u64_add totalBytes txSize)) || ((0 <? maxGas) && (maxGas <? u64_add totalGas (th_gas tx)))
      then Ok (result, nextStart, index)
      else
        match index !! th_hash tx with
        | None => Panic "removed a tx that was not in the tx index, this should not happen"
        | Some _ =>
            reap_loop maxBytes maxGas (S idx) rest (u64_add totalBytes txSize) (u64_add totalGas (th_gas tx))
              (result ++ [th_bytes tx]) (S idx) (<[th_hash tx := -1]> index)
        end
  end.
(** The index after the list has been resliced. *)
Fixpoint rebuild (i : nat) (txs : list txWithHash) (index : gmap string Z) : res ReapError (gmap string Z) :=
  match txs with
  | [] => Ok index
  | tx :: rest =>
      match index !! th_hash tx with
      | None => Panic "tx that was not reaped is not in the tx index, this should not happen"
      | Some _ => rebuild (S i) rest (<[th_hash tx := Z.of_nat i]> index)
      end
  end.
(** A panic of the loops is shown not to happen; the list it would leave is not
    modelled. *)
Definition Reap (maxBytes maxGas : Z) : R (list Bytes) := λ rl,
  match reap_loop maxBytes maxGas 0 (rl_txs rl) 0 0 [] 0 (rl_txIndex rl) with
  | Ok (result, nextStart, index) =>
      let txs := if (length (rl_txs rl) <=? nextStart)%nat then [] else omap id (drop nextStart (rl_txs rl)) in
      match rebuild 0 txs index with
      | Ok index' => (mkReap (Some <$> txs) index', Ok result)
      | Err e => (rl, Err e)
      | Panic s => (rl, Panic s)
      end
  | Err e => (rl, Err e)
  | Panic s => (rl, Panic s)
  end.

Definition exists_ (hash : string) rl : bool := bool_decide (is_Some (rl_txIndex rl !! hash)).
Definition push (hash : string) (tx : Bytes) (gas : Z) rl : ReapList :=
  mkReap (rl_txs rl ++ [Some (mkTxHash tx hash gas)]) (<[hash := Z.of_nat (length (rl_txs rl))]> (rl_txIndex rl)).
(** The check and the push are two critical sections of the source and one step here:
    the theorems are about histories in which no other push of the same transaction
    gets in between.  What happens otherwise is [interleaved_pushes_panic] below. *)
Definition PushEVMTx (tx : EVMTx) : R unit :=
  known ← gets (exists_ (tx_Hash tx));
  if known : bool then mret tt
  else
    match enc_EVMTx tx with
    | None => throw ErrEncodingEVM
    | Some txBytes => modify (push (tx_Hash tx) txBytes (tx_Gas tx))
    end.
Definition PushCosmosTx (tx : CosmosTx) : R unit :=
  match enc_CosmosTx tx with
  | None => throw ErrEncodingCosmos
  | Some txBytes =>
      let hash := cosmosHash txBytes in
      known ← gets (exists_ hash);
      if known : bool then mret tt
      else
        match GetGas tx with
        | None => throw ErrNotFeeTx
        | Some gas => modify (push hash txBytes gas)
        end
  end.
Definition drop_ (hash : string) rl : ReapList :=
  match rl_txIndex rl !! hash with
  | None => rl
  | Some idx =>
      let index := delete hash (rl_txIndex rl) in
      if (idx <? 0) || (Z.of_nat (length (rl_txs rl)) <=? idx) then mkReap (rl_txs rl) index
      else mkReap (<[Z.to_nat idx := None]> (rl_txs rl)) index
  end.
Definition DropEVMTx (tx : EVMTx) : R unit := modify (drop_ (tx_Hash tx)).
Definition DropCosmosTx (tx : CosmosTx) : R unit :=
  match enc_CosmosTx tx with None => mret tt | Some txBytes => modify (drop_ (cosmosHash txBytes)) end.

(** ** The reference: a queue without an index *)

(** The transactions that wait, the oldest first, and the hashes of those that
    were given out and not dropped since. *)
Record Reference := mkRef {
  rf_queue : list txWithHash;
  rf_given : gset string;
}.
Implicit Types q : Reference.
Definition knows q (hash : string) : bool := bool_decide (hash ∈ rf_given q ∨ hash ∈ th_hash <$> rf_queue q).
Definition ref_push (hash : string) (tx : Bytes) (gas : Z) q : Reference :=
  mkRef (rf_queue q ++ [mkTxHash tx hash gas]) (rf_given q).
Definition ref_drop (hash : string) q : Reference :=
  mkRef (filter (λ t, th_hash t ≠ hash) (rf_queue q)) (rf_given q ∖ {[hash]}).
(** The longest prefix within the limits, where [0] is no limit. *)
Definition within (limit total : Z) : bool := (limit <=? 0) || (total <=? limit).
Fixpoint fitting (maxBytes maxGas totalBytes totalGas : Z) (ts : list txWithHash) : list txWithHash :=
  match ts with
  | [] => []
  | t :: rest =>
      if within maxBytes (totalBytes + len (th_bytes t)) && within maxGas (totalGas + th_gas t)
      then t :: fitting maxBytes maxGas (totalBytes + len (th_bytes t)) (totalGas + th_gas t) rest
      else []
  end.
Definition ref_reap (maxBytes maxGas : Z) q : Reference * list txWithHash :=
  let out := fitting maxBytes maxGas 0 0 (rf_queue q) in
  (mkRef (drop (length out) (rf_queue q)) (list_to_set (th_hash <$> out) ∪ rf_given q), out).

Inductive Op :=
| OpPushEVM (tx : EVMTx) | OpPushCosmos (tx : CosmosTx) | OpDropEVM (tx : EVMTx) | OpDropCosmos (tx : CosmosTx)
| OpReap (maxBytes maxGas : Z).
Definition exec (o : Op) : R (list Bytes) :=
  match o with
  | OpPushEVM tx => PushEVMTx tx;; mret []
  | OpPushCosmos tx => PushCosmosTx tx;; mret []
  | OpDropEVM tx => DropEVMTx tx;; mret []
  | OpDropCosmos tx => DropCosmosTx tx;; mret []
  | OpReap maxBytes maxGas => Reap maxBytes maxGas
  end.
Definition ref_exec (o : Op) q : Reference * res ReapError (list txWithHash) :=
  match o with
  | OpPushEVM tx =>
      if knows q (tx_Hash tx) then (q, Ok [])
      else match enc_EVMTx tx with None => (q, Err ErrEncodingEVM) | Some b => (ref_push (tx_Hash tx) b (tx_Gas tx) q, Ok []) end
  | OpPushCosmos tx =>
      match enc_CosmosTx tx with
      | None => (q, Err ErrEncodingCosmos)
      | Some b =>
          if knows q (cosmosHash b) then (q, Ok [])
          else match GetGas tx with None => (q, Err ErrNotFeeTx) | Some gas => (ref_push (cosmosHash b) b gas q, Ok []) end
      end
  | OpDropEVM tx => (ref_drop (tx_Hash tx) q, Ok [])
  | OpDropCosmos tx => match enc_CosmosTx tx with None => (q, Ok []) | Some b => (ref_drop (cosmosHash b) q, Ok []) end
  | OpReap maxBytes maxGas => let '(q', out) := ref_reap maxBytes maxGas q in (q', Ok out)
  end.
Fixpoint run (ops : list Op) rl : ReapList * list (res ReapError (list Bytes)) :=
  match ops with
  | [] => (rl, [])
  | o :: rest => let '(rl, r) := exec o rl in let '(rl, rs) := run rest rl in (rl, r :: rs)
  end.
Fixpoint ref_run (ops : list Op) q : Reference * list (res ReapError (list txWithHash)) :=
  match ops with
  | [] => (q, [])
  | o :: rest => let '(q, r) := ref_exec o q in let '(q, rs) := ref_run rest q in (q, r :: rs)
  end.

(** ** The list is the queue *)

Definition live rl : list txWithHash := omap id (rl_txs rl).
Record refines rl q : Prop := {
  re_queue : rf_queue q = live rl;
  re_given h : h ∈ rf_given q ↔ rl_txIndex rl !! h = Some (-1);
  re_slot i t : rl_txs rl !! i = Some (Some t) → rl_txIndex rl !! th_hash t = Some (Z.of_nat i);
  re_index h i : rl_txIndex rl !! h = Some i → i = -1 ∨ ∃ t, 0 ≤ i ∧ rl_txs rl !! Z.to_nat i = Some (Some t) ∧ th_hash t = h;
}.

Lemma live_elem (txs : list (option txWithHash)) t : t ∈ omap id txs ↔ ∃ i, txs !! i = Some (Some t).
Proof.
  rewrite list_elem_of_omap. split.
  - intros (x & (i & Hi)%list_elem_of_lookup & Hx). cbn in Hx. subst x. by exists i.
  - intros [i Hi]. exists (Some t). split; [by eapply list_elem_of_lookup_2|done].
Qed.
Lemma refines_known rl q h : refines rl q → knows q h = exists_ h rl.
Proof.
  intros [Hq Hg Hs Hi]. unfold knows, exists_. apply bool_decide_ext. split.
  - intros [->%Hg|(t & -> & Hin)%list_elem_of_fmap]; [done|]. rewrite Hq in Hin. apply live_elem in Hin as [i Hin]. by rewrite (Hs i t Hin).
  - intros [i Hx]. destruct (Hi h i Hx) as [->|(t & _ & Ht & <-)]; [left; by apply Hg|]. right. apply list_elem_of_fmap_2.
    rewrite Hq. apply live_elem. by eexists.
Qed.
Lemma NewReapList_refines : refines NewReapList (mkRef [] ∅).
Proof. split; cbn; try done; set_solver. Qed.
Lemma push_refines h tx gas rl q : refines rl q → exists_ h rl = false → refines (push h tx gas rl) (ref_push h tx gas q).
Proof.
  intros [Hq Hg Hs Hi] Hk. apply bool_decide_eq_false, eq_None_not_Some in Hk. split; cbn.
  - unfold live. cbn. by rewrite omap_app, Hq.
  - intros h'. rewrite Hg. destruct (decide (h' = h)) as [->|]; [rewrite lookup_insert_eq, Hk; split; [done|intros [=]; lia]|by rewrite lookup_insert_ne].
  - intros i t [Ht|[Hge Ht]]%lookup_app_Some.
    + pose proof (Hs i t Ht) as Hx. rewrite lookup_insert_ne; [done|]. congruence.
    + apply list_lookup_singleton_Some in Ht as [? [= <-]]. cbn. rewrite lookup_insert_eq. f_equal. lia.
  - intros h' i [[<- <-]|[_ Hx]]%lookup_insert_Some.
    + right. eexists. rewrite Nat2Z.id, lookup_app_r, Nat.sub_diag by lia. split_and!; [lia|done|done].
    + destruct (Hi h' i Hx) as [->|(t & ? & Ht & ?)]; [by left|]. right. exists t. by rewrite lookup_app_l by (by eapply lookup_lt_Some).
Qed.
Lemma live_split (txs : list (option txWithHash)) i t :
  txs !! i = Some (Some t) → omap id txs = omap id (take i txs) ++ t :: omap id (drop (S i) txs) ∧
    omap id (<[i := None]> txs) = omap id (take i txs) ++ omap id (drop (S i) txs).
Proof.
  intros Ht. pose proof (lookup_lt_Some _ _ _ Ht). split.
  - rewrite <- (take_drop_middle _ _ _ Ht) at 1. by rewrite omap_app.
  - rewrite insert_take_drop by done. by rewrite omap_app.
Qed.
(** The hashes of the live transactions differ. *)
Lemma refines_nodup rl q : refines rl q → NoDup (th_hash <$> live rl).
Proof.
  intros [_ _ Hs _]. unfold live.
  assert (Hgen : ∀ txs k, (∀ i t, txs !! i = Some (Some t) → rl_txIndex rl !! th_hash t = Some (Z.of_nat (k + i))) →
    NoDup (th_hash <$> omap id txs)).
  { induction txs as [|[t|] txs IH]; intros k Hk; cbn; [constructor| |].
    - apply NoDup_cons. split; [|apply (IH (S k)); intros i t' Ht'; rewrite (Hk (S i) t' Ht'); do 2 f_equal; lia].
      intros (t' & Heq & [i Hin]%live_elem)%list_elem_of_fmap. pose proof (Hk 0%nat t eq_refl) as H0. pose proof (Hk (S i) t' Hin) as H1.
      rewrite <- Heq, H0 in H1. injection H1. lia.
    - apply (IH (S k)). intros i t' Ht'. rewrite (Hk (S i) t' Ht'). do 2 f_equal. lia. }
  by apply (Hgen _ 0%nat).
Qed.
Lemma drop_refines h rl q : refines rl q → refines (drop_ h rl) (ref_drop h q).
Proof.
  intros Hr. pose proof (refines_nodup _ _ Hr) as Hnd. pose proof Hr as [Hq Hg Hs Hi]. unfold drop_.
  assert (Hother : ∀ txs : list txWithHash, (∀ t, t ∈ txs → th_hash t ≠ h) → filter (λ t, th_hash t ≠ h) txs = txs).
  { intros txs Hall. by apply filter_all, Forall_forall. }
  destruct (rl_txIndex rl !! h) as [i|] eqn:Hx.
  2: { split; cbn; [|intros h'; rewrite elem_of_difference, Hg, not_elem_of_singleton; split; [by intros []|]; intros H; split; [done|congruence]|done|done].
       rewrite Hq. apply Hother. intros t [j Ht]%live_elem <-. pose proof (Hs j t Ht). congruence. }
  assert (Hgiven : ∀ h', h' ∈ rf_given q ∖ {[h]} ↔ delete h (rl_txIndex rl) !! h' = Some (-1)).
  { intros h'. rewrite elem_of_difference, Hg, not_elem_of_singleton, lookup_delete_Some. naive_solver. }
  destruct (Hi h i Hx) as [->|(t & Hge & Ht & Hh)].
  - cbn. split; cbn; [|done| |].
    + rewrite Hq. apply Hother. intros t [j Ht]%live_elem <-. pose proof (Hs j t Ht) as H. rewrite Hx in H. injection H. lia.
    + intros j t Ht. pose proof (Hs j t Ht) as H. rewrite lookup_delete_ne; [done|]. intros ->. rewrite Hx in H. injection H. lia.
    + intros h' i' [_ H]%lookup_delete_Some. by apply Hi.
  - pose proof (lookup_lt_Some _ _ _ Ht). rewrite (proj2 (Z.ltb_ge _ _)), (proj2 (Z.leb_gt _ _)) by lia. cbn [orb].
    destruct (live_split _ _ _ Ht) as [Hl Hl']. split; cbn; [|done| |].
    + rewrite Hq. unfold live in *. cbn. rewrite Hl', Hl. rewrite Hl, fmap_app, fmap_cons in Hnd.
      apply NoDup_app in Hnd as (_ & Hn1 & [Hn2 _]%NoDup_cons). rewrite filter_app, filter_cons, decide_False by (by intros ?). f_equal; apply Hother.
      * intros t' Ht' Heq. apply (Hn1 (th_hash t')); [by apply list_elem_of_fmap_2|]. rewrite Heq, Hh. by left.
      * intros t' Ht' Heq. apply Hn2. rewrite Hh, <- Heq. by apply list_elem_of_fmap_2.
    + intros j t' Hj. destruct (decide (j = Z.to_nat i)) as [->|Hne]; [by rewrite list_lookup_insert_eq in Hj|].
      rewrite list_lookup_insert_ne in Hj by done. pose proof (Hs j t' Hj) as H1. rewrite lookup_delete_ne; [done|]. intros Heq.
      rewrite <- Heq, Hx in H1. injection H1. lia.
    + intros h' i' [Hne H1]%lookup_delete_Some. destruct (Hi h' i' H1) as [->|(t' & ? & Ht' & Hh')]; [by left|]. right. exists t'.
      split_and!; [done| |done]. rewrite list_lookup_insert_ne; [done|]. intros Heq. rewrite <- Heq, Ht in Ht'. congruence.
Qed.
(** Sizes and gas that cannot wrap around with a limit below [2^63]. *)
Definition small_tx (t : txWithHash) : Prop := 0 ≤ len (th_bytes t) < 2 ^ 63 ∧ 0 ≤ th_gas t < 2 ^ 63.
(** The totals of the loop follow those of the reference as far as they matter. *)
Definition follows (limit total total' : Z) : Prop := 0 ≤ limit < 2 ^ 63 ∧ (0 < limit → total' = total ∧ 0 ≤ total ≤ limit).
Lemma follows_step limit total total' x :
  follows limit total total' → 0 ≤ x < 2 ^ 63 →
  (0 <? limit) && (limit <? u64_add total' x) = negb (within limit (total + x)) ∧
  (within limit (total + x) = true → follows limit (total + x) (u64_add total' x)).
Proof.
  intros [Hl Ht] Hx. unfold within, follows. destruct (Z.ltb_spec 0 limit) as [Hpos|Hpos].
  - destruct (Ht Hpos) as [-> ?]. assert (u64_add total x = total + x) as -> by (apply wrap_small; lia).
    rewrite (proj2 (Z.leb_gt limit 0)) by lia. cbn. rewrite Z.leb_antisym, negb_involutive. split; [done|].
    intros Hw%negb_true_iff%Z.ltb_ge. lia.
  - rewrite (proj2 (Z.leb_le limit 0)) by lia. split; [done|]. intros _. lia.
Qed.

Definition mark (index : gmap string Z) (ts : list txWithHash) : gmap string Z := foldl (λ m t, <[th_hash t := -1]> m) index ts.
Lemma mark_lookup ts index h : mark index ts !! h = if decide (h ∈ th_hash <$> ts) then Some (-1) else index !! h.
Proof.
  revert index. induction ts as [|t ts IH]; intros index; cbn [mark foldl]; [done|]. fold (mark (<[th_hash t := -1]> index) ts). rewrite IH.
  destruct (decide (h ∈ th_hash <$> ts)) as [Hin|Hni]; [by rewrite decide_True by (cbn; by right)|].
  destruct (decide (h = th_hash t)) as [->|Hne]; [by rewrite lookup_insert_eq, decide_True by (cbn; by left)|].
  rewrite lookup_insert_ne, decide_False by (cbn; rewrite ?elem_of_cons; naive_solver). done.
Qed.

Lemma reap_loop_spec maxBytes maxGas txs idx tb tg tb' tg' result index :
  follows maxBytes tb tb' → follows maxGas tg tg' → Forall small_tx (omap id txs) →
  (∀ t, t ∈ omap id txs → is_Some (index !! th_hash t)) →
  let out := fitting maxBytes maxGas tb tg (omap id txs) in
  ∃ n, (n ≤ length txs)%nat ∧ omap id txs = out ++ omap id (drop n txs) ∧
    reap_loop maxBytes maxGas idx txs tb' tg' result idx index = Ok (result ++ (th_bytes <$> out), (idx + n)%nat, mark index out).
Proof.
  revert idx tb tg tb' tg' result index. induction txs as [|[t|] txs IH]; intros idx tb tg tb' tg' result index Hb Hg Hsm Hin; cbn [reap_loop].
  - exists 0%nat. cbn. rewrite app_nil_r, Nat.add_0_r. by split_and!.
  - change (omap id (Some t :: txs)) with (t :: omap id txs) in *. apply Forall_cons in Hsm as [[Hs1 Hs2] Hsm].
    destruct (follows_step _ _ _ _ Hb Hs1) as [Hb1 Hb2]. destruct (follows_step _ _ _ _ Hg Hs2) as [Hg1 Hg2].
    rewrite Hb1, Hg1, <- negb_andb. cbn [fitting]. destruct (within _ _ && within _ _) eqn:Hw; cbn [negb].
    + apply andb_true_iff in Hw as [Hw1 Hw2]. destruct (Hin t) as [i Hi]; [by left|]. rewrite Hi.
      destruct (IH (S idx) _ _ _ _ (result ++ [th_bytes t]) (<[th_hash t := -1]> index) (Hb2 Hw1) (Hg2 Hw2) Hsm) as (n & Hn & Hsplit & Hrun).
      { intros t' Ht'. destruct (decide (th_hash t = th_hash t')) as [->|]; [by rewrite lookup_insert_eq|rewrite lookup_insert_ne by done].
        apply Hin. by right. }
      exists (S n). cbn [length drop]. split_and!; [lia|exact (f_equal (cons t) Hsplit)|]. rewrite Hrun, <- app_assoc. do 3 f_equal. lia.
    + exists 0%nat. cbn [fmap list_fmap]. rewrite app_nil_r, Nat.add_0_r. split_and!; [lia|done|done].
  - destruct (IH (S idx) _ _ _ _ result index Hb Hg Hsm Hin) as (n & Hn & Hsplit & Hrun). exists (S n). cbn [length drop].
    split_and!; [lia|done|]. rewrite Hrun. do 3 f_equal. lia.
Qed.

Lemma rebuild_spec ts i index :
  NoDup (th_hash <$> ts) → (∀ t, t ∈ ts → is_Some (index !! th_hash t)) →
  ∃ index', rebuild i ts index = Ok index' ∧
    (∀ j t, ts !! j = Some t → index' !! th_hash t = Some (Z.of_nat (i + j))) ∧
    (∀ h, h ∉ th_hash <$> ts → index' !! h = index !! h).
Proof.
  revert i index. induction ts as [|t ts IH]; intros i index Hnd Hin; cbn [rebuild]; [by exists index|].
  apply NoDup_cons in Hnd as [Hni Hnd]. destruct (Hin t) as [k Hk]; [by left|]. rewrite Hk.
  destruct (IH (S i) (<[th_hash t := Z.of_nat i]> index) Hnd) as (index' & Hr & H1 & H2).
  { intros t' Ht'. destruct (decide (th_hash t = th_hash t')) as [->|]; [by rewrite lookup_insert_eq|rewrite lookup_insert_ne by done].
    apply Hin. by right. }
  exists index'. split_and!; [done| |].
  - intros [|j] t' Ht'; [injection Ht' as <-; rewrite H2, lookup_insert_eq by done; do 2 f_equal; lia|].
    rewrite (H1 j t' Ht'). do 2 f_equal. lia.
  - intros h [Hne Hh]%not_elem_of_cons. by rewrite H2, lookup_insert_ne.
Qed.

Lemma Reap_refines maxBytes maxGas rl q :
  refines rl q → 0 ≤ maxBytes < 2 ^ 63 → 0 ≤ maxGas < 2 ^ 63 → Forall small_tx (rf_queue q) →
  let '(q', out) := ref_reap maxBytes maxGas q in
  ∃ rl', Reap maxBytes maxGas rl = (rl', Ok (th_bytes <$> out)) ∧ refines rl' q'.
Proof.
  intros Hr Hb Hg Hsm. pose proof (refines_nodup _ _ Hr) as Hnd. pose proof Hr as [Hq Hgv Hs Hi]. unfold ref_reap. rewrite Hq in *. unfold Reap, live in *.
  assert (Hin : ∀ t, t ∈ omap id (rl_txs rl) → is_Some (rl_txIndex rl !! th_hash t)).
  { intros t [i Ht]%live_elem. by rewrite (Hs i t Ht). }
  destruct (reap_loop_spec maxBytes maxGas (rl_txs rl) 0 0 0 0 0 [] (rl_txIndex rl)) as (n & Hn & Hsplit & Hrun); [by split; [|lia]|by split; [|lia]|done|done|].
  set (out := fitting maxBytes maxGas 0 0 (omap id (rl_txs rl))) in *. rewrite Hrun. cbn [Nat.add app].
  assert ((if (length (rl_txs rl) <=? n)%nat then [] else omap id (drop n (rl_txs rl))) = omap id (drop n (rl_txs rl))) as ->.
  { destruct (Nat.leb_spec (length (rl_txs rl)) n); [|done]. by rewrite drop_ge. }
  set (left := omap id (drop n (rl_txs rl))) in *. rewrite Hsplit, fmap_app in Hnd. apply NoDup_app in Hnd as (_ & Hdis & Hnd).
  assert (Hleft : ∀ t, t ∈ left → th_hash t ∉ th_hash <$> out).
  { intros t Ht Ho. apply (Hdis _ Ho). by apply list_elem_of_fmap_2. }
  destruct (rebuild_spec left 0 (mark (rl_txIndex rl) out) Hnd) as (index' & Hreb & H1 & H2).
  { intros t Ht. rewrite mark_lookup, decide_False by (by apply Hleft). apply Hin. rewrite Hsplit. apply elem_of_app. by right. }
  rewrite Hreb. eexists. split; [done|]. split; cbn.
  - unfold live. cbn. rewrite Hsplit, drop_app_length. clear. induction left as [|t l IH]; [done|]. cbn. by f_equal.
  - intros h. rewrite elem_of_union, elem_of_list_to_set, Hgv. destruct (decide (h ∈ th_hash <$> left)) as [Hh|Hh].
    + pose proof Hh as (t & -> & Ht)%list_elem_of_fmap. pose proof Ht as [j Hj]%list_elem_of_lookup. rewrite (H1 j t Hj).
      split; [|intros [=]; lia]. intros [Ho|Hx]; [by destruct (Hleft t Ht)|].
      assert (t ∈ omap id (rl_txs rl)) as [k Hk]%live_elem by (rewrite Hsplit; apply elem_of_app; by right). rewrite (Hs k t Hk) in Hx. injection Hx. lia.
    + rewrite H2, mark_lookup by done. case_decide; naive_solver.
  - intros i t Ht. rewrite list_lookup_fmap in Ht. apply fmap_Some in Ht as (t' & Ht' & [= <-]). by rewrite (H1 i t Ht').
  - intros h i Hx. destruct (decide (h ∈ th_hash <$> left)) as [(t & -> & Ht)%list_elem_of_fmap|Hh].
    + apply list_elem_of_lookup in Ht as [j Hj]. rewrite (H1 j t Hj) in Hx. injection Hx as <-. right. exists t. rewrite Nat2Z.id, list_lookup_fmap, Hj.
      split_and!; [lia|done|done].
    + rewrite H2, mark_lookup in Hx by done. case_decide as Ho; [left; congruence|]. destruct (Hi h i Hx) as [|(t & _ & Ht & <-)]; [by left|].
      assert (t ∈ out ++ left) as [Hin'|Hin']%elem_of_app by (rewrite <- Hsplit; apply live_elem; by eexists).
      * destruct Ho. by apply list_elem_of_fmap_2.
      * destruct Hh. by apply list_elem_of_fmap_2.
Qed.
Definition small_op (o : Op) : Prop :=
  match o with
  | OpPushEVM tx => ∀ b, enc_EVMTx tx = Some b → small_tx (mkTxHash b (tx_Hash tx) (tx_Gas tx))
  | OpPushCosmos tx => ∀ b gas, enc_CosmosTx tx = Some b → GetGas tx = Some gas → small_tx (mkTxHash b (cosmosHash b) gas)
  | OpReap maxBytes maxGas => 0 ≤ maxBytes < 2 ^ 63 ∧ 0 ≤ maxGas < 2 ^ 63
  | _ => True
  end.
Definition bytes_of (r : res ReapError (list txWithHash)) : res ReapError (list Bytes) :=
  match r with Ok out => Ok (th_bytes <$> out) | Err e => Err e | Panic msg => Panic msg end.
Lemma fitting_prefix maxBytes maxGas tb tg ts : fitting maxBytes maxGas tb tg ts `prefix_of` ts.
Proof.
  revert tb tg. induction ts as [|t ts IH]; intros tb tg; cbn [fitting]; [done|].
  destruct (_ && _); [by apply prefix_cons|apply prefix_nil].
Qed.
Lemma small_filter (P : txWithHash → Prop) `{!∀ t, Decision (P t)} ts : Forall small_tx ts → Forall small_tx (filter P ts).
Proof. rewrite !Forall_forall. intros Hs t [_ Ht]%list_elem_of_filter. by apply Hs. Qed.

Lemma exec_refines o rl q :
  refines rl q → Forall small_tx (rf_queue q) → small_op o →
  let '(q', out) := ref_exec o q in
  ∃ rl', exec o rl = (rl', bytes_of out) ∧ refines rl' q' ∧ Forall small_tx (rf_queue q') ∧ ∀ msg, out ≠ Panic msg.
Proof.
  intros Hr Hsm Ho. destruct o as [tx|tx|tx|tx|maxBytes maxGas]; cbn [ref_exec exec small_op] in *.
  - rewrite (refines_known _ _ _ Hr). unfold PushEVMTx. run_M. destruct (exists_ (tx_Hash tx) rl) eqn:Hk; [by exists rl|].
    destruct (enc_EVMTx tx) as [b|]; [|by exists rl]. eexists. split_and!; [done|by apply push_refines| |done].
    apply Forall_app_2; [done|]. by constructor; [apply Ho|].
  - unfold PushCosmosTx. destruct (enc_CosmosTx tx) as [b|] eqn:Hb; [|by exists rl]. rewrite (refines_known _ _ _ Hr). run_M.
    destruct (exists_ (cosmosHash b) rl) eqn:Hk; [by exists rl|]. destruct (GetGas tx) as [gas|] eqn:Hg; [|by exists rl].
    eexists. split_and!; [done|by apply push_refines| |done]. apply Forall_app_2; [done|]. by constructor; [apply Ho|].
  - unfold DropEVMTx. run_M. eexists. split_and!; [done|by apply drop_refines|by apply small_filter|done].
  - unfold DropCosmosTx. destruct (enc_CosmosTx tx) as [b|]; run_M; [|by exists rl].
    eexists. split_and!; [done|by apply drop_refines|by apply small_filter|done].
  - destruct Ho as [Hb Hg]. pose proof (Reap_refines maxBytes maxGas rl q Hr Hb Hg Hsm) as H. unfold ref_reap in *.
    destruct H as (rl' & Hrun & Hr'). exists rl'. split_and!; [done|done| |done]. by apply Forall_drop.
Qed.
Lemma run_refines ops rl q :
  refines rl q → Forall small_tx (rf_queue q) → Forall small_op ops →
  let '(rl', results) := run ops rl in let '(q', outs) := ref_run ops q in
  results = bytes_of <$> outs ∧ refines rl' q' ∧ ∀ msg, Panic msg ∉ results.
Proof.
  intros Hr Hsm Hops. revert rl q Hr Hsm. induction Hops as [|o ops Ho _ IH]; intros rl q Hr Hsm; cbn [run ref_run].
  { split_and!; [done|done|]. intros msg. apply not_elem_of_nil. }
  pose proof (exec_refines o rl q Hr Hsm Ho) as H. destruct (ref_exec o q) as [q1 out]. destruct H as (rl1 & Hrun & Hr1 & Hsm1 & Hnp).
  rewrite Hrun. specialize (IH rl1 q1 Hr1 Hsm1). destruct (run ops rl1) as [rl2 rs]. destruct (ref_run ops q1) as [q2 outs].
  destruct IH as (-> & Hr2 & Hp2). split_and!; [done|done|]. intros msg [Heq|Hin]%elem_of_cons; [|by apply (Hp2 msg)].
  destruct out as [l|e|msg']; [done|done|]. by apply (Hnp msg').
Qed.

(** *** No transaction comes out twice *)

Record ref_ok q : Prop := {
  rk_nodup : NoDup (th_hash <$> rf_queue q);
  rk_new h : h ∈ th_hash <$> rf_queue q → h ∉ rf_given q;
}.
Definition drops (o : Op) (h : string) : Prop :=
  match o with
  | OpDropEVM tx => tx_Hash tx = h
  | OpDropCosmos tx => cosmosHash <$> enc_CosmosTx tx = Some h
  | _ => False
  end.
Definition out_of (r : res ReapError (list txWithHash)) : list txWithHash := match r with Ok out => out | _ => [] end.
(** How often a hash is given out. *)
Definition times (h : string) (ts : list txWithHash) : nat := length (filter (λ t, th_hash t = h) ts).
Lemma times_nodup h ts : NoDup (th_hash <$> ts) → (times h ts ≤ if decide (h ∈ th_hash <$> ts) then 1 else 0)%nat.
Proof.
  unfold times. induction ts as [|t ts IH]; [cbn; lia|]. rewrite fmap_cons. intros [Hni Hnd]%NoDup_cons. specialize (IH Hnd). rewrite filter_cons.
  destruct (decide (th_hash t = h)) as [<-|Hne]; cbn [length].
  - rewrite decide_False in IH by done. rewrite decide_True by (by left). lia.
  - destruct (decide (h ∈ th_hash <$> ts)) as [Hin|Hin]; [rewrite decide_True by (by right); lia|]. case_decide; lia.
Qed.
Lemma ref_push_ok h b gas q : ref_ok q → knows q h = false → ref_ok (ref_push h b gas q).
Proof.
  intros [H1 H2] Hk%bool_decide_eq_false. split; cbn; rewrite fmap_app; cbn.
  - apply NoDup_app. split_and!; [done| |apply NoDup_singleton]. intros h' Hin ->%list_elem_of_singleton. naive_solver.
  - intros h' [Hin| ->%list_elem_of_singleton]%elem_of_app; [by apply H2|]. naive_solver.
Qed.
Lemma ref_drop_ok h q : ref_ok q → ref_ok (ref_drop h q).
Proof.
  intros [H1 H2]. assert (Hsub : th_hash <$> filter (λ t, th_hash t ≠ h) (rf_queue q) `sublist_of` th_hash <$> rf_queue q) by apply fmap_sublist, sublist_filter.
  split; cbn; [by eapply sublist_NoDup|]. intros h' Hin. specialize (H2 h' (elem_of_sublist _ _ _ Hin Hsub)). set_solver.
Qed.
Lemma ref_exec_once o q h :
  ref_ok q → ¬ drops o h →
  let '(q', out) := ref_exec o q in
  ref_ok q' ∧ (times h (out_of out) + (if decide (h ∈ rf_given q) then 1 else 0) ≤ if decide (h ∈ rf_given q') then 1 else 0)%nat.
Proof.
  intros Hok Hd. assert (Hsame : ∀ q' (out : res ReapError (list txWithHash)), ref_ok q' → rf_given q' = rf_given q → out_of out = [] →
    ref_ok q' ∧ (times h (out_of out) + (if decide (h ∈ rf_given q) then 1 else 0) ≤ if decide (h ∈ rf_given q') then 1 else 0)%nat).
  { intros q' out Hq' -> ->. split; [done|]. unfold times. cbn. lia. }
  assert (Hdrop : ∀ h', h' ≠ h → ref_ok (ref_drop h' q) ∧
    (times h [] + (if decide (h ∈ rf_given q) then 1 else 0) ≤ if decide (h ∈ rf_given (ref_drop h' q)) then 1 else 0)%nat).
  { intros h' Hne. split; [by apply ref_drop_ok|]. cbn. destruct (decide (h ∈ rf_given q)); [|lia]. rewrite decide_True by set_solver. lia. }
  destruct o as [tx|tx|tx|tx|maxBytes maxGas]; cbn [ref_exec drops] in *.
  - destruct (knows q _) eqn:Hk; [by apply Hsame|]. destruct (enc_EVMTx tx); apply Hsame; try done. by apply ref_push_ok.
  - destruct (enc_CosmosTx tx) as [b|]; [|by apply Hsame]. destruct (knows q _) eqn:Hk; [by apply Hsame|].
    destruct (GetGas tx); apply Hsame; try done. by apply ref_push_ok.
  - by apply Hdrop.
  - destruct (enc_CosmosTx tx) as [b|]; [|by apply Hsame]. apply Hdrop. intros <-. by apply Hd.
  - cbn [ref_reap out_of rf_given]. set (out := fitting maxBytes maxGas 0 0 (rf_queue q)). destruct (fitting_prefix maxBytes maxGas 0 0 (rf_queue q)) as [rest Hsplit].
    fold out in Hsplit. destruct Hok as [H1 H2]. rewrite Hsplit, fmap_app in H1, H2. pose proof H1 as (Hn1 & Hdis & Hn2)%NoDup_app. split.
    + split; cbn; rewrite Hsplit, drop_app_length; [done|]. intros h' Hin. specialize (H2 h'). specialize (Hdis h'). set_solver.
    + pose proof (times_nodup h out Hn1). destruct (decide (h ∈ th_hash <$> out)) as [Hin|Hin].
      * rewrite (decide_False (P := h ∈ rf_given q)) by (apply H2; apply elem_of_app; by left). rewrite decide_True by set_solver. lia.
      * destruct (decide (h ∈ rf_given q)); [rewrite decide_True by set_solver; lia|]. case_decide; lia.
Qed.
Lemma ref_run_once ops q h :
  ref_ok q → (∀ o, o ∈ ops → ¬ drops o h) →
  (times h (mjoin (out_of <$> snd (ref_run ops q))) + (if decide (h ∈ rf_given q) then 1 else 0) ≤ 1)%nat.
Proof.
  revert q. induction ops as [|o ops IH]; intros q Hok Hd; cbn [ref_run].
  { cbn. case_decide; lia. }
  pose proof (ref_exec_once o q h Hok (Hd o ltac:(by left))) as H. destruct (ref_exec o q) as [q1 out]. destruct H as [Hok1 Hle].
  specialize (IH q1 Hok1 (λ o' Ho', Hd o' (list_elem_of_further o' o ops Ho'))). destruct (ref_run ops q1) as [q2 outs].
  cbn [snd] in *. rewrite fmap_cons. change (mjoin (?x :: ?l)) with (x ++ mjoin l). unfold times in *. rewrite filter_app, length_app. lia.
Qed.

(** C25: the reap list with its index, its holes and its compaction behaves as a
    plain queue with the set of the hashes it has given out: after any pushes,
    drops and reaps it gives the same answers, never panics, and reaps the longest
    run of the oldest waiting transactions within both limits; and a transaction
    that is not dropped is given out at most once, however often it is pushed. *)
Theorem reap_list_is_queue ops :
  Forall small_op ops →
  let '(rl, results) := run ops NewReapList in let '(q, outs) := ref_run ops (mkRef [] ∅) in
  results = bytes_of <$> outs ∧ rf_queue q = live rl ∧ (∀ msg, Panic msg ∉ results) ∧
  ∀ h, (∀ o, o ∈ ops → ¬ drops o h) → (times h (mjoin (out_of <$> outs)) ≤ 1)%nat.
Proof.
  intros Hops. pose proof (run_refines ops _ _ NewReapList_refines (Forall_nil_2 _) Hops) as H.
  pose proof (λ h, ref_run_once ops (mkRef [] ∅) h) as Honce.
  destruct (run ops NewReapList) as [rl results]. destruct (ref_run ops (mkRef [] ∅)) as [q outs]. destruct H as (H1 & H2 & H3).
  split_and!; [done|apply H2|done|]. intros h Hd. specialize (Honce h). cbn [snd] in Honce.
  assert (ref_ok (mkRef [] ∅)) as Hok by (split; cbn; [constructor|set_solver]). specialize (Honce Hok Hd). lia.
Qed.

(** Checking and pushing are two critical sections: two pushes of one transaction
    between which another push gets in leave it in the list twice, and once it is
    dropped the next reap panics. *)
Lemma interleaved_pushes_panic h b gas maxBytes maxGas :
  within maxBytes (len b) = true → within maxGas gas = true → small_tx (mkTxHash b h gas) →
  0 ≤ maxBytes < 2 ^ 63 → 0 ≤ maxGas < 2 ^ 63 →
  exists_ h NewReapList = false ∧
  ∃ msg, snd (Reap maxBytes maxGas (drop_ h (push h b gas (push h b gas NewReapList)))) = Panic msg.
Proof.
  intros Hb Hg [Hs1 Hs2] Hmb Hmg. split; [done|].
  assert (drop_ h (push h b gas (push h b gas NewReapList)) = mkReap [Some (mkTxHash b h gas); None] ∅) as ->.
  { unfold drop_, push. cbn [rl_txs rl_txIndex NewReapList app length]. rewrite insert_insert_eq, lookup_insert_eq, delete_insert_eq. done. }
  destruct (follows_step maxBytes 0 0 (len b)) as [H1 _]; [by split; [|lia]|done|].
  destruct (follows_step maxGas 0 0 gas) as [H2 _]; [by split; [|lia]|done|].
  unfold Reap. cbn [rl_txs rl_txIndex reap_loop th_bytes th_gas th_hash]. rewrite H1, H2, !Z.add_0_l, Hb, Hg. cbn [negb orb].
  rewrite lookup_empty. by eexists.
Qed.
End Reap.
End RE.

(** ** The queue of insertions *)

Module IQ.
Inductive QueueError (Err : Type) := ErrQueueFull | ErrInsert (e : Err).
Arguments ErrQueueFull {Err}.
Arguments ErrInsert {Err}.

Section Queue.
(** [insert] inserts a batch into the mempool and gives an error per transaction. *)
Context {Tx Err St : Type} (insert : list Tx → St → St * list (option Err)).

Record insertItem := mkItem {
  it_tx : option Tx;
  it_sub : nat;
}.
(** Where the loop is: it looks at the queue, waits for a signal, has popped a
    batch that it inserts, or has returned. *)
Inductive LoopState := Looking | Waiting | Inserting (batch : list insertItem) | Stopped.
(** [q_pushing] are the calls of [Push] that found the queue not full and have not
    enqueued yet, [q_signalling] counts those that have not signalled yet;
    [q_subs] are the closed subscriptions with what was sent on them. *)
Record Queue := mkQueue {
  q_queue : list insertItem;
  q_signal : bool;
  q_maxSize : nat;
  q_done : bool;
  q_loop : LoopState;
  q_pushing : list insertItem;
  q_signalling : nat;
  q_fresh : nat;
  q_subs : gmap nat (list (option (QueueError Err)));
  q_pool : St;
}.
Implicit Types w : Queue.

Definition New (maxSize : nat) (pool : St) : Queue := mkQueue [] false maxSize false Looking [] 0 0 ∅ pool.
Definition isFull w : bool := (q_maxSize w <=? length (q_queue w))%nat.

Definition set_loop l w := mkQueue (q_queue w) (q_signal w) (q_maxSize w) (q_done w) l (q_pushing w) (q_signalling w) (q_fresh w) (q_subs w) (q_pool w).
Definition set_signal b n w := mkQueue (q_queue w) b (q_maxSize w) (q_done w) (q_loop w) (q_pushing w) n (q_fresh w) (q_subs w) (q_pool w).
Definition answer (sub : nat) (sent : list (option (QueueError Err))) w :=
  mkQueue (q_queue w) (q_signal w) (q_maxSize w) (q_done w) (q_loop w) (q_pushing w) (q_signalling w) (q_fresh w) (<[sub := sent]> (q_subs w)) (q_pool w).
Definition fresh w := mkQueue (q_queue w) (q_signal w) (q_maxSize w) (q_done w) (q_loop w) (q_pushing w) (q_signalling w) (S (q_fresh w)) (q_subs w) (q_pool w).
Definition pushing l w := mkQueue (q_queue w) (q_signal w) (q_maxSize w) (q_done w) (q_loop w) l (q_signalling w) (q_fresh w) (q_subs w) (q_pool w).

(** [Push] up to the critical section in which it enqueues. *)
Definition Push (tx : option Tx) w : Queue :=
  let sub := q_fresh w in
  let w := fresh w in
  match tx with
  | None => answer sub [] w
  | Some _ => if isFull w then answer sub [Some ErrQueueFull] w else pushing (q_pushing w ++ [mkItem tx sub]) w
  end.
Definition enqueue (k : nat) w : option Queue :=
  item ← q_pushing w !! k;
  Some (mkQueue (q_queue w ++ [item]) (q_signal w) (q_maxSize w) (q_done w) (q_loop w) (delete k (q_pushing w)) (S (q_signalling w))
          (q_fresh w) (q_subs w) (q_pool w)).
(** A full signal channel is left as it is. *)
Definition signal w : option Queue :=
  match q_signalling w with O => None | S n => Some (set_signal true n w) end.

(** The batch that is inserted, and the subscriptions of it. *)
Definition toInsert (batch : list insertItem) : list Tx := omap it_tx batch.
Definition subscriptions (batch : list insertItem) : list nat :=
  omap (λ item, match it_tx item with Some _ => Some (it_sub item) | None => None end) batch.
Definition close_nils (batch : list insertItem) w : Queue :=
  foldl (λ w item, match it_tx item with Some _ => w | None => answer (it_sub item) [] w end) w batch.
Fixpoint send_errs (subs : list nat) (errs : list (option Err)) w : Queue :=
  match subs, errs with
  | sub :: subs', err :: errs' => send_errs subs' errs' (answer sub [ErrInsert <$> err] w)
  | _, _ => w
  end.
(** The loop: the look at the queue with the pop of its items, and the insertion
    of a batch; it panics when the errors are not one per transaction. *)
Definition look w : Queue :=
  match q_queue w with
  | [] => set_loop Waiting w
  | batch =>
      close_nils batch (mkQueue [] (q_signal w) (q_maxSize w) (q_done w) (Inserting batch) (q_pushing w) (q_signalling w) (q_fresh w)
        (q_subs w) (q_pool w))
  end.
Definition insertTxs (batch : list insertItem) w : res Empty_set Queue :=
  let '(pool, errs) := insert (toInsert batch) (q_pool w) in
  if (length errs =? length (toInsert batch))%nat then
    let w := mkQueue (q_queue w) (q_signal w) (q_maxSize w) (q_done w) (if q_done w then Stopped else Looking) (q_pushing w)
               (q_signalling w) (q_fresh w) (q_subs w) pool in
    Ok (send_errs (subscriptions batch) errs w)
  else Panic "expected an error per transaction from insert".

(** Steps that are taken without new calls: a pusher signals, and the loop.  A
    wait that has both a signal and the end to choose from takes either; only the
    loop pops, so its look at the length and its pop are one step. *)
Inductive loop_step : Queue → Queue → Prop :=
| st_signal w w' : signal w = Some w' → loop_step w w'
| st_look w : q_loop w = Looking → loop_step w (look w)
| st_insert batch w w' : q_loop w = Inserting batch → insertTxs batch w = Ok w' → loop_step w w'
| st_wake w : q_loop w = Waiting → q_signal w = true → loop_step w (set_loop Looking (set_signal false (q_signalling w) w))
| st_stop w : q_loop w = Waiting → q_done w = true → loop_step w (set_loop Stopped w).
Inductive step : Queue → Queue → Prop :=
| st_push tx w : step w (Push tx w)
| st_enqueue k w w' : enqueue k w = Some w' → step w w'
| st_loop w w' : loop_step w w' → step w w'
| st_close w : q_done w = false →
    step w (mkQueue (q_queue w) (q_signal w) (q_maxSize w) true (q_loop w) (q_pushing w) (q_signalling w) (q_fresh w) (q_subs w) (q_pool w)).

(** ** No item is lost *)

Definition batch_of w : list insertItem := match q_loop w with Inserting batch => batch | _ => [] end.
(** The items without an answer. *)
Definition open_items w : list insertItem := q_pushing w ++ q_queue w ++ batch_of w.
Record queue_ok w : Prop := {
  qo_some item : item ∈ open_items w → is_Some (it_tx item);
  qo_open item : item ∈ open_items w → q_subs w !! it_sub item = None ∧ (it_sub item < q_fresh w)%nat;
  qo_nodup : NoDup (it_sub <$> open_items w);
  qo_all sub : (sub < q_fresh w)%nat → is_Some (q_subs w !! sub) ∨ sub ∈ it_sub <$> open_items w;
  qo_known sub : is_Some (q_subs w !! sub) → (sub < q_fresh w)%nat;
  qo_wait : q_loop w = Waiting → q_queue w ≠ [] → q_signal w = true ∨ (0 < q_signalling w)%nat;
  qo_stop : q_loop w = Stopped → q_done w = true;
}.
Lemma New_ok maxSize pool : queue_ok (New maxSize pool).
Proof.
  split; cbn; try done; try set_solver; try lia.
  - constructor.
  - intros sub []%lookup_empty_is_Some.
Qed.

(** Moving items around, with the same subscriptions. *)
Lemma queue_ok_perm w w' :
  queue_ok w → open_items w' ≡ₚ open_items w → q_subs w' = q_subs w → q_fresh w' = q_fresh w →
  (q_loop w' = Waiting → q_queue w' ≠ [] → q_signal w' = true ∨ (0 < q_signalling w')%nat) →
  (q_loop w' = Stopped → q_done w' = true) → queue_ok w'.
Proof.
  intros [H1 H2 H3 H4 H5 _ _] Hp Hs Hf Hw Hst. split; rewrite ?Hs, ?Hf; try done.
  - intros item. rewrite Hp. apply H1.
  - intros item. rewrite Hp. apply H2.
  - by rewrite Hp.
  - intros sub. rewrite Hp. apply H4.
Qed.
(** A new subscription that is answered at once. *)
Lemma answered_ok w sent : queue_ok w → queue_ok (answer (q_fresh w) sent (fresh w)).
Proof.
  intros [H1 H2 H3 H4 H5 H6 H7]. split; cbn; try done.
  - intros item Hi. destruct (H2 item Hi). rewrite lookup_insert_ne by lia. split; [done|lia].
  - intros sub Hlt. destruct (decide (sub = q_fresh w)) as [->|]; [left; by rewrite lookup_insert_eq|]. rewrite lookup_insert_ne by done. apply H4. lia.
  - intros sub. destruct (decide (sub = q_fresh w)) as [->|]; [lia|]. rewrite lookup_insert_ne by done. intros ?%H5. lia.
Qed.
Lemma Push_ok tx w : queue_ok w → queue_ok (Push tx w).
Proof.
  intros Hok. unfold Push. destruct tx as [tx|]; [|by apply answered_ok]. destruct (isFull (fresh w)); [by apply answered_ok|].
  destruct Hok as [H1 H2 H3 H4 H5 H6 H7].
  assert (Hp : open_items (pushing (q_pushing w ++ [mkItem (Some tx) (q_fresh w)]) (fresh w)) ≡ₚ mkItem (Some tx) (q_fresh w) :: open_items w).
  { unfold open_items, batch_of. cbn. rewrite <- app_assoc. symmetry. apply Permutation_middle. }
  split; cbn [q_subs q_fresh q_loop q_queue q_signal q_signalling q_done pushing fresh]; try done.
  - intros item. rewrite Hp. intros [->|Hi]%elem_of_cons; [by eexists|by apply H1].
  - intros item. rewrite Hp. intros [->|Hi]%elem_of_cons; cbn.
    + split; [|lia]. apply eq_None_not_Some. intros ?%H5. lia.
    + destruct (H2 item Hi). split; [done|lia].
  - rewrite Hp. cbn. apply NoDup_cons. split; [|done]. intros (item & Heq & Hi)%list_elem_of_fmap. destruct (H2 item Hi). lia.
  - intros sub Hlt. rewrite Hp. cbn. destruct (decide (sub = q_fresh w)) as [->|]; [right; by left|].
    destruct (H4 sub) as [|]; [lia|by left|right; by right].
  - intros sub ?%H5. lia.
Qed.
Lemma enqueue_ok k w w' : queue_ok w → enqueue k w = Some w' → queue_ok w'.
Proof.
  intros Hok. unfold enqueue. intros (item & Hk & [= <-])%bind_Some. eapply queue_ok_perm; try done; cbn.
  - unfold open_items, batch_of. cbn. rewrite (delete_Permutation _ _ _ Hk) at 2. cbn. rewrite <- app_assoc. cbn.
    rewrite !app_assoc. by rewrite Permutation_middle.
  - intros _ _. right. lia.
  - apply Hok.
Qed.

(** Answering a batch. *)
Lemma send_errs_same subs errs w :
  ∃ m, send_errs subs errs w = mkQueue (q_queue w) (q_signal w) (q_maxSize w) (q_done w) (q_loop w) (q_pushing w) (q_signalling w) (q_fresh w) m (q_pool w) ∧
    (∀ sub, sub ∉ subs → m !! sub = q_subs w !! sub) ∧
    (length errs = length subs → ∀ sub, sub ∈ subs → ∃ err, m !! sub = Some [ErrInsert <$> err]).
Proof.
  revert errs w. induction subs as [|sub subs IH]; intros errs w; cbn [send_errs].
  { exists (q_subs w). split_and!; [by destruct w|done|]. by intros _ sub ?%elem_of_nil. }
  destruct errs as [|err errs].
  { exists (q_subs w). split_and!; [by destruct w|done|done]. }
  destruct (IH errs (answer sub [ErrInsert <$> err] w)) as (m & Hm & H1 & H2). exists m. split_and!; [exact Hm| |].
  - intros sub' [Hne Hni]%not_elem_of_cons. rewrite H1 by done. cbn. by rewrite lookup_insert_ne.
  - intros [= Hlen] sub' Hin. destruct (decide (sub' ∈ subs)) as [Hs|Hs]; [by apply H2|].
    apply elem_of_cons in Hin as [->|]; [|done]. exists err. rewrite H1 by done. cbn. by rewrite lookup_insert_eq.
Qed.
Lemma subscriptions_all batch : (∀ item, item ∈ batch → is_Some (it_tx item)) →
  subscriptions batch = it_sub <$> batch ∧ length (toInsert batch) = length batch.
Proof.
  induction batch as [|item batch IH]; intros Hall; [done|]. destruct (Hall item) as [tx Htx]; [by left|].
  destruct IH as [H1 H2]; [intros item' ?; apply Hall; by right|]. unfold subscriptions, toInsert in *. cbn. rewrite Htx. cbn. by rewrite H1, H2.
Qed.
Lemma close_nils_all batch w : (∀ item, item ∈ batch → is_Some (it_tx item)) → close_nils batch w = w.
Proof.
  unfold close_nils. revert w. induction batch as [|item batch IH]; intros w Hall; [done|]. cbn.
  destruct (Hall item) as [tx ->]; [by left|]. apply IH. intros item' ?. apply Hall. by right.
Qed.

Context (insert_length : ∀ txs pool, length (snd (insert txs pool)) = length txs).
Lemma insertTxs_ok batch w :
  queue_ok w → q_loop w = Inserting batch →
  ∃ w', insertTxs batch w = Ok w' ∧ queue_ok w' ∧ q_loop w' = (if q_done w then Stopped else Looking) ∧ q_queue w' = q_queue w ∧
    q_done w' = q_done w ∧ q_subs w ⊆ q_subs w' ∧ ∀ item, item ∈ batch → ∃ err, q_subs w' !! it_sub item = Some [ErrInsert <$> err].
Proof.
  intros [H1 H2 H3 H4 H5 H6 H7] Hl. unfold insertTxs. pose proof (insert_length (toInsert batch) (q_pool w)) as Hlen.
  destruct (insert (toInsert batch) (q_pool w)) as [pool errs]. cbn in Hlen. rewrite Hlen, Nat.eqb_refl.
  assert (Hb : open_items w = (q_pushing w ++ q_queue w) ++ batch) by (unfold open_items, batch_of; rewrite Hl; by rewrite app_assoc).
  rewrite Hb in *. destruct (subscriptions_all batch) as [Hsub Hlen']; [intros item ?; apply H1, elem_of_app; by right|].
  match goal with |- context [send_errs _ errs ?v] => destruct (send_errs_same (subscriptions batch) errs v) as (m & Hm & Hm1 & Hm2) end.
  rewrite Hm. cbn in *. eexists. split; [done|]. rewrite Hsub, length_fmap in Hm2. rewrite Hsub in Hm1. specialize (Hm2 ltac:(lia)).
  rewrite fmap_app in H3. apply NoDup_app in H3 as (Hn1 & Hdis & Hn2).
  assert (Hans : ∀ item, item ∈ batch → ∃ err, m !! it_sub item = Some [ErrInsert <$> err]).
  { intros item Hi. apply Hm2. by apply list_elem_of_fmap_2. }
  split_and!; cbn; try done.
  - assert (Ho : open_items (mkQueue (q_queue w) (q_signal w) (q_maxSize w) (q_done w) (if q_done w then Stopped else Looking)
      (q_pushing w) (q_signalling w) (q_fresh w) m pool) = q_pushing w ++ q_queue w).
    { unfold open_items, batch_of. cbn. by destruct (q_done w); rewrite app_nil_r. }
    split; rewrite ?Ho; cbn; try (by destruct (q_done w)); try done.
    + intros item Hi. apply H1, elem_of_app. by left.
    + intros item Hi. destruct (H2 item) as [Hn Hlt]; [apply elem_of_app; by left|]. split; [|done]. rewrite Hm1; [done|].
      apply Hdis. by apply list_elem_of_fmap_2.
    + intros sub Hlt. destruct (decide (sub ∈ it_sub <$> batch)) as [Hi|Hi]; [destruct (Hm2 sub Hi) as [err ->]; by left|]. rewrite Hm1 by done.
      destruct (H4 sub Hlt) as [|Hin]; [by left|]. rewrite fmap_app in Hin. apply elem_of_app in Hin as [|]; [by right|done].
    + intros sub Hs. destruct (decide (sub ∈ it_sub <$> batch)) as [(item & -> & Hi)%list_elem_of_fmap|Hi]; [apply H2, elem_of_app; by right|].
      rewrite Hm1 in Hs by done. by apply H5.
  - apply map_subseteq_spec. intros sub sent Hs. rewrite Hm1; [done|]. intros (item & -> & Hi)%list_elem_of_fmap.
    destruct (H2 item) as [Hn _]; [apply elem_of_app; by right|]. congruence.
Qed.
Lemma look_ok w : queue_ok w → q_loop w = Looking → queue_ok (look w) ∧ q_subs (look w) = q_subs w ∧ q_done (look w) = q_done w ∧
  (q_queue w ≠ [] → q_loop (look w) = Inserting (q_queue w)).
Proof.
  intros Hok Hl. unfold look. destruct (q_queue w) as [|item queue] eqn:Hq.
  - split_and!; [|done..]. eapply queue_ok_perm; try done; cbn; try by rewrite Hq.
    unfold open_items, batch_of. cbn. by rewrite Hl.
  - rewrite close_nils_all.
    2: { intros i Hi. apply (qo_some _ Hok). unfold open_items. rewrite Hq, !elem_of_app. by right; left. }
    split_and!; [|done..]. eapply queue_ok_perm; try done. unfold open_items, batch_of. cbn. by rewrite Hl, Hq, app_nil_r.
Qed.
Lemma queue_loop_ok w w' : queue_ok w → loop_step w w' → queue_ok w' ∧ q_subs w ⊆ q_subs w'.
Proof.
  intros Hok. destruct 1 as [w w' Hs|w Hl|batch w w' Hl Hi|w Hl Hs|w Hl Hd].
  - unfold signal in Hs. destruct (q_signalling w) as [|n]; [done|]. injection Hs as <-. split; [|done].
    eapply queue_ok_perm; try done; [by left|apply Hok].
  - destruct (look_ok w Hok Hl) as (H1 & -> & _). done.
  - destruct (insertTxs_ok batch w Hok Hl) as (w'' & Hi' & H1 & _ & _ & _ & H2 & _). rewrite Hi in Hi'. by injection Hi' as <-.
  - split; [|done]. eapply queue_ok_perm; try done. unfold open_items, batch_of. cbn. by rewrite Hl.
  - split; [|done]. eapply queue_ok_perm; try done. unfold open_items, batch_of. cbn. by rewrite Hl.
Qed.
Lemma queue_step_ok w w' : queue_ok w → step w w' → queue_ok w' ∧ q_subs w ⊆ q_subs w'.
Proof.
  intros Hok. destruct 1 as [tx w|k w w' He|w w' Hl|w Hd].
  - split; [by apply Push_ok|]. unfold Push.
    assert (Hn : q_subs w !! q_fresh w = None) by (apply eq_None_not_Some; intros ?%(qo_known _ Hok); lia).
    destruct tx; [destruct (isFull (fresh w))|]; cbn; try done; by apply insert_subseteq.
  - split; [by eapply enqueue_ok|]. unfold enqueue in He. by apply bind_Some in He as (item & _ & [= <-]).
  - by apply queue_loop_ok.
  - split; [|done]. eapply queue_ok_perm; try done. apply Hok.
Qed.
Lemma steps_ok w w' : queue_ok w → rtc step w w' → queue_ok w' ∧ q_subs w ⊆ q_subs w'.
Proof.
  intros Hok. induction 1 as [|w1 w2 w3 H12 _ IH]; [done|]. destruct (queue_step_ok _ _ Hok H12) as [H2 ?].
  destruct (IH H2). split; [done|by etrans].
Qed.

(** The loop takes a queued item to its answer. *)
Definition answered w item : Prop := ∃ err, q_subs w !! it_sub item = Some [ErrInsert <$> err].
Lemma looking_answers w item : queue_ok w → q_loop w = Looking → item ∈ q_queue w → ∃ w', rtc loop_step w w' ∧ answered w' item.
Proof.
  intros Hok Hl Hi. destruct (look_ok w Hok Hl) as (H1 & _ & _ & Hb). specialize (Hb ltac:(by intros Hn; rewrite Hn in Hi; apply elem_of_nil in Hi)).
  destruct (insertTxs_ok _ _ H1 Hb) as (w' & Hrun & _ & _ & _ & _ & _ & Hans). exists w'. split; [|by apply Hans].
  eapply rtc_l; [by apply st_look|]. apply rtc_once. by eapply st_insert.
Qed.
Lemma woken_answers w item :
  queue_ok w → q_loop w = Waiting → q_signal w = true → item ∈ q_queue w → ∃ w', rtc loop_step w w' ∧ answered w' item.
Proof.
  intros Hok Hl Hs Hi. pose proof (st_wake w Hl Hs) as Hst. destruct (queue_loop_ok _ _ Hok Hst) as [Hok' _].
  destruct (looking_answers _ item Hok' eq_refl Hi) as (w' & Hr & Ha). exists w'. split; [by eapply rtc_l|done].
Qed.
(** Every push is answered.  In any interleaving of pushes, signals, the loop and
    the close, each subscription has an answer or belongs to an item that is still
    held, and an answer never changes; while the queue is not closed, the loop and
    the signals that are due take every queued item to the error of its insertion,
    so no wake-up is lost. *)
Theorem queued_inserts_are_answered maxSize pool w item :
  rtc step (New maxSize pool) w →
  (∀ sub, (sub < q_fresh w)%nat → is_Some (q_subs w !! sub) ∨ sub ∈ it_sub <$> open_items w) ∧
  (∀ w', rtc step w w' → q_subs w ⊆ q_subs w') ∧
  (q_done w = false → item ∈ q_queue w → ∃ w', rtc loop_step w w' ∧ answered w' item).
Proof.
  intros Hr. destruct (steps_ok _ _ (New_ok maxSize pool) Hr) as [Hok _]. split_and!; [apply Hok|intros w'; by apply steps_ok|].
  intros Hd Hi. destruct (q_loop w) as [| |batch|] eqn:Hl.
  - by apply looking_answers.
  - destruct (qo_wait _ Hok Hl) as [Hs|Hs]; [by intros Hn; rewrite Hn in Hi; apply elem_of_nil in Hi|by apply woken_answers|].
    destruct (q_signalling w) as [|n] eqn:Hn; [lia|]. assert (Hst : loop_step w (set_signal true n w)) by (apply st_signal; unfold signal; by rewrite Hn).
    destruct (queue_loop_ok _ _ Hok Hst) as [Hok' _]. destruct (woken_answers _ item Hok' Hl eq_refl Hi) as (w' & Hrun & Ha).
    exists w'. split; [by eapply rtc_l|done].
  - destruct (insertTxs_ok batch w Hok Hl) as (w1 & Hrun & Hok1 & Hl1 & Hq1 & _). rewrite Hd in Hl1. rewrite <- Hq1 in Hi.
    destruct (looking_answers _ item Hok1 Hl1 Hi) as (w' & Hrun' & Ha). exists w'. split; [|done]. eapply rtc_l; [by eapply st_insert|done].
  - by rewrite (qo_stop _ Hok Hl) in Hd.
Qed.
End Queue.
End IQ.

(** ** Three transactions *)

Module DemoReap.
Import RE.
(** Transaction [n] is encoded as one byte and has [10 * n] gas. *)
Definition size (b : list Z) : Z := Z.of_nat (length b).
Definition encode (tx : Z) : option (list Z) := Some [tx].
Definition evm_hash (tx : Z) : string := "0x" +:+ pretty tx.
Definition gas_of (tx : Z) : Z := 10 * tx.
Definition cosmos_gas (tx : Z) : option Z := Some (10 * tx).
Definition cosmos_hash (b : list Z) : string := match b with [tx] => pretty tx | _ => "" end.
(** The second reap would be over the gas limit with transaction 3; transaction 1
    is pushed again after it was reaped, and transaction 2 is dropped. *)
Definition ops : list (Op (EVMTx := Z) (CosmosTx := Z)) :=
  [OpPushEVM 1; OpPushEVM 2; OpPushCosmos 3; OpReap 1 0; OpPushEVM 1; OpDropEVM 2; OpPushEVM 4; OpReap 0 60; OpReap 0 0].
Abbreviation run_ := (run size encode encode evm_hash gas_of cosmos_gas cosmos_hash).
Abbreviation ref_run_ := (ref_run size encode encode evm_hash gas_of cosmos_gas cosmos_hash).

Lemma reap_list_is_queue_witness :
  snd (run_ ops NewReapList) = [Ok []; Ok []; Ok []; Ok [[1]]; Ok []; Ok []; Ok []; Ok [[3]]; Ok [[4]]] ∧
  snd (run_ ops NewReapList) = bytes_of <$> snd (ref_run_ ops (mkRef [] ∅)) ∧
  (times "0x1" (mjoin (out_of <$> snd (ref_run_ ops (mkRef [] ∅)))) ≤ 1)%nat.
Proof.
  split; [by vm_compute|].
  pose proof (reap_list_is_queue size encode encode evm_hash gas_of cosmos_gas cosmos_hash ops) as H.
  destruct (run_ ops NewReapList) as [rl results]. destruct (ref_run_ ops (mkRef [] ∅)) as [q outs].
  destruct H as (H1 & _ & _ & Honce).
  - unfold ops. repeat (apply Forall_cons; split); try apply Forall_nil; cbn; try done; intros;
      unfold encode, cosmos_gas in *; simplify_eq/=; unfold small_tx, size, gas_of; cbn; lia.
  - split; [exact H1|]. apply Honce. unfold ops. intros o Ho. rewrite !elem_of_cons in Ho.
    destruct Ho as [->|[->|[->|[->|[->|[->|[->|[->|[->|Hn]]]]]]]]]; cbn; try by intros ?.
    by apply elem_of_nil in Hn.
Defined.
End DemoReap.
