(* ===== verification/LegacyPool.v ===== *)
(** The transaction pool ([mempool/txpool/legacypool/legacypool.go]): the
    executable (pending) and future (queued) transactions of every account, kept
    together with the table of all transactions, the price heaps, the account
    reservations, the virtual nonces and the store of rechecked transactions. *)
From S2P Require Import Prelude GoStd AccessList Sdk Heap TxList PoolList Reserver TxLookup PricedList TxStore PoolValidation.

(** [strings.Contains]. *)
Fixpoint contains (sub s : string) : bool :=
  String.prefix sub s || match s with String.EmptyString => false | String.String _ s' => contains sub s' end.

(** Conversion to [int], 64 bits wide. *)
Definition to_int (z : Z) : Z := (z + 2 ^ 63) mod 2 ^ 64 - 2 ^ 63.

(** The [Rechecker] interface.  [Branch] is the store branch behind the contexts
    of one call of [GetContext], which its write function flushes; a call of
    [RecheckEVM] writes to the branch and returns a context ([None]: the zero
    one) and an error message.  The pool is modelled over recheckers whose calls
    return: one that panics ends the process in the goroutine of the reorg.
    [TxRechecker.Update] does so for a block gas limit of 2^63 or more when the
    context has no consensus parameters ([Update] of the module [RP] has that
    case). *)
Class Rechecker := {
  RState : Type;
  RCtx : Type;
  Branch : Type;
  GetContext : RState → RCtx * Branch;
  WriteBack : Branch → RState → RState;
  RecheckEVM : RState → RCtx → Branch → Transaction → Branch * option RCtx * option string;
  Update : RCtx → Header → RState → RState;
}.
(** [nopRechecker]. *)
#[global] Instance nopRechecker : Rechecker := {
  RState := unit; RCtx := unit; Branch := unit;
  GetContext _ := (tt, tt);
  WriteBack _ r := r;
  RecheckEVM _ _ _ _ := (tt, None, None);
  Update _ _ r := r;
}.

(** Go iterates over a map of lists in an unspecified order of its keys. *)
Class PoolRange := pool_range : gmap Address TL.txlist → list Address.
Class PoolRangeLaws `{PoolRange} : Prop :=
  pool_range_perm : ∀ m : gmap Address TL.txlist, pool_range m ≡ₚ (map_to_list m).*1.

(** [Config], without the journal settings the pool never reads. *)
Record Config := mkConfig {
  PriceLimit : Z;
  PriceBump : Z;
  AccountSlots : Z;
  GlobalSlots : Z;
  AccountQueue : Z;
  GlobalQueue : Z;
  Lifetime : Z;
}.
Definition DefaultConfig : Config := mkConfig 1 10 16 (4096 + 1024) 64 1024 (3 * 3600 * 10 ^ 9).
Definition sanitize (conf : Config) : Config :=
  let or_default (f : Config → Z) := if f conf <? 1 then f DefaultConfig else f conf in
  mkConfig (or_default PriceLimit) (or_default PriceBump) (or_default AccountSlots) (or_default GlobalSlots)
    (or_default AccountQueue) (or_default GlobalQueue) (or_default Lifetime).

Inductive PoolType := Pending | Queue.
(** The callbacks of the pool and the events queued for its feed. *)
Inductive Notice :=
| OnTxPromoted (tx : Transaction)
| OnTxRemoved (tx : Transaction) (pool : PoolType)
| OnTxEnqueued (tx : Transaction)
| QueueTxEvent (tx : Transaction).

Module LP.
Import TL PV.
Section Pool.
Context `{HR : MapRange} `{HPR : PoolRange} `{HC : TxChecks} `{RC : Rechecker}.
(** Go-ethereum: prices, senders and the code hash of an account without code. *)
Context (EffectiveGasTip : Z → Transaction → Z) (Sender : Transaction → option Address) (EmptyCodeHash : Hash).
(** The order in which a [prque] filled with prioritised addresses pops them. *)
Context (prque_order : list (Address * Z) → list Address).
(** The configuration, and the identity of the pool for the reservations. *)
Context (config : Config) (self : Z).

(** [pl_clock] is what [time.Now] returns, [pl_notices] the callbacks made. *)
Record LegacyPool := mkPool {
  p_gasTip : Z;
  p_head : Header;
  p_state : ChainState;
  p_nonces : gmap Address Z;
  p_reserved : RV.ReservationTracker;
  p_rechecker : RState;
  p_valid : HS.HeightSync TS.TxStore;
  p_pending : gmap Address txlist;
  p_queue : gmap Address txlist;
  p_beats : gmap Address Z;
  p_all : LK.lookup_;
  p_priced : PR.pricedList;
  p_changes : Z;
  p_clock : Z;
  p_notices : list Notice;
}.
Implicit Types p : LegacyPool.
Abbreviation P := (M LegacyPool PoolError).

Definition set_gasTip x p := mkPool x (p_head p) (p_state p) (p_nonces p) (p_reserved p) (p_rechecker p) (p_valid p) (p_pending p) (p_queue p) (p_beats p) (p_all p) (p_priced p) (p_changes p) (p_clock p) (p_notices p).
Definition set_head x p := mkPool (p_gasTip p) x (p_state p) (p_nonces p) (p_reserved p) (p_rechecker p) (p_valid p) (p_pending p) (p_queue p) (p_beats p) (p_all p) (p_priced p) (p_changes p) (p_clock p) (p_notices p).
Definition set_state x p := mkPool (p_gasTip p) (p_head p) x (p_nonces p) (p_reserved p) (p_rechecker p) (p_valid p) (p_pending p) (p_queue p) (p_beats p) (p_all p) (p_priced p) (p_changes p) (p_clock p) (p_notices p).
Definition set_nonces x p := mkPool (p_gasTip p) (p_head p) (p_state p) x (p_reserved p) (p_rechecker p) (p_valid p) (p_pending p) (p_queue p) (p_beats p) (p_all p) (p_priced p) (p_changes p) (p_clock p) (p_notices p).
Definition set_reserved x p := mkPool (p_gasTip p) (p_head p) (p_state p) (p_nonces p) x (p_rechecker p) (p_valid p) (p_pending p) (p_queue p) (p_beats p) (p_all p) (p_priced p) (p_changes p) (p_clock p) (p_notices p).
Definition set_rechecker x p := mkPool (p_gasTip p) (p_head p) (p_state p) (p_nonces p) (p_reserved p) x (p_valid p) (p_pending p) (p_queue p) (p_beats p) (p_all p) (p_priced p) (p_changes p) (p_clock p) (p_notices p).
Definition set_valid x p := mkPool (p_gasTip p) (p_head p) (p_state p) (p_nonces p) (p_reserved p) (p_rechecker p) x (p_pending p) (p_queue p) (p_beats p) (p_all p) (p_priced p) (p_changes p) (p_clock p) (p_notices p).
Definition set_pending x p := mkPool (p_gasTip p) (p_head p) (p_state p) (p_nonces p) (p_reserved p) (p_rechecker p) (p_valid p) x (p_queue p) (p_beats p) (p_all p) (p_priced p) (p_changes p) (p_clock p) (p_notices p).
Definition set_queue x p := mkPool (p_gasTip p) (p_head p) (p_state p) (p_nonces p) (p_reserved p) (p_rechecker p) (p_valid p) (p_pending p) x (p_beats p) (p_all p) (p_priced p) (p_changes p) (p_clock p) (p_notices p).
Definition set_beats x p := mkPool (p_gasTip p) (p_head p) (p_state p) (p_nonces p) (p_reserved p) (p_rechecker p) (p_valid p) (p_pending p) (p_queue p) x (p_all p) (p_priced p) (p_changes p) (p_clock p) (p_notices p).
Definition set_all x p := mkPool (p_gasTip p) (p_head p) (p_state p) (p_nonces p) (p_reserved p) (p_rechecker p) (p_valid p) (p_pending p) (p_queue p) (p_beats p) x (p_priced p) (p_changes p) (p_clock p) (p_notices p).
Definition set_priced x p := mkPool (p_gasTip p) (p_head p) (p_state p) (p_nonces p) (p_reserved p) (p_rechecker p) (p_valid p) (p_pending p) (p_queue p) (p_beats p) (p_all p) x (p_changes p) (p_clock p) (p_notices p).
Definition set_changes x p := mkPool (p_gasTip p) (p_head p) (p_state p) (p_nonces p) (p_reserved p) (p_rechecker p) (p_valid p) (p_pending p) (p_queue p) (p_beats p) (p_all p) (p_priced p) x (p_clock p) (p_notices p).
Definition set_notices x p := mkPool (p_gasTip p) (p_head p) (p_state p) (p_nonces p) (p_reserved p) (p_rechecker p) (p_valid p) (p_pending p) (p_queue p) (p_beats p) (p_all p) (p_priced p) (p_changes p) (p_clock p) x.

(** ** Access to the parts *)

(** [from, _ := types.Sender(pool.signer, tx)]: the zero address on an error. *)
Definition sender (tx : Transaction) : Address := default 0 (Sender tx).

(** Run a method of a list that the map holds; the list changes in place. *)
Definition lift_list {A} (r : res Empty_set A) : res PoolError A :=
  match r with Ok a => Ok a | Err e => match e with end | Panic s => Panic s end.
Definition at_pending {A} (addr : Address) (op : L A) : P A := λ p,
  match p_pending p !! addr with
  | Some l => let '(l', r) := op l in (set_pending (<[addr := l']> (p_pending p)) p, lift_list r)
  | None => (p, Panic "nil pointer dereference")
  end.
Definition at_queue {A} (addr : Address) (op : L A) : P A := λ p,
  match p_queue p !! addr with
  | Some l => let '(l', r) := op l in (set_queue (<[addr := l']> (p_queue p)) p, lift_list r)
  | None => (p, Panic "nil pointer dereference")
  end.

Definition all_remove (hash : Hash) : P unit := modify (λ p, set_all (LK.Remove hash (p_all p)) p).
Definition all_add (tx : Transaction) : P unit := modify (λ p, set_all (LK.Add tx (p_all p)) p).
Definition priced_removed (count : Z) : P unit :=
  modify (λ p, set_priced (PR.Removed EffectiveGasTip (p_all p) count (p_priced p)) p).
Definition priced_put (tx : Transaction) : P unit :=
  modify (λ p, set_priced (PR.Put EffectiveGasTip tx (p_priced p)) p).
(** [pendingNonces.get] and [setIfLower] cache the nonce of the state. *)
Definition nonce_get (addr : Address) : P Z := λ p,
  let '(n, v) := NC.get (st_GetNonce (p_state p)) addr (p_nonces p) in (set_nonces n p, Ok v).
Definition nonce_set (addr : Address) (nonce : Z) : P unit :=
  modify (λ p, set_nonces (NC.set addr nonce (p_nonces p)) p).
Definition nonce_lower (addr : Address) (nonce : Z) : P unit :=
  modify (λ p, set_nonces (NC.setIfLower (st_GetNonce (p_state p)) addr nonce (p_nonces p)) p).
(** [reserver.Release], whose error is dropped. *)
Definition release (addr : Address) : P unit :=
  modify (λ p, set_reserved (fst (RV.Release self [addr] (p_reserved p))) p).
(** [reserver.Hold]. *)
Definition hold (addr : Address) : P unit := λ p,
  let '(t, r) := RV.Hold self [addr] (p_reserved p) in
  (set_reserved t p, match r with Ok _ => Ok tt | Err _ => Err ErrReserved | Panic s => Panic s end).
Definition beat (addr : Address) : P unit := modify (λ p, set_beats (<[addr := p_clock p]> (p_beats p)) p).
Definition notice (n : Notice) : P unit := modify (λ p, set_notices (p_notices p ++ [n]) p).
Definition valid_do (fn : TS.TxStore → TS.TxStore) : P unit := modify (λ p, set_valid (HS.Do fn (p_valid p)) p).

Definition markTxPromoted (addr : Address) (tx : Transaction) : P unit :=
  valid_do (TS.AddTx addr tx);; notice (OnTxPromoted tx).
Definition markTxReplaced (addr : Address) (tx : Transaction) : P unit := notice (OnTxPromoted tx).
Definition markTxRemoved (addr : Address) (tx : Transaction) (pool : PoolType) : P unit :=
  (match pool with Pending => valid_do (TS.RemoveTx addr tx) | Queue => mret tt end);;
  notice (OnTxRemoved tx pool).
Definition markTxEnqueued (tx : Transaction) : P unit := notice (OnTxEnqueued tx).

(** ** Validation *)

Definition txMaxSize : Z := 4 * LK.txSlotSize.
(** [ValidateTxBasics] accepts every type but blob transactions. *)
Definition basicOptions (gasTip : Z) : ValidationOptions :=
  mkOptions (Z.lor (Z.lor (Z.shiftl 1 LegacyTxType) (Z.shiftl 1 AccessListTxType))
                   (Z.lor (Z.shiftl 1 DynamicFeeTxType) (Z.shiftl 1 SetCodeTxType))) txMaxSize gasTip.
Definition ValidateTxBasics (tx : Transaction) : P unit :=
  head ← gets p_head; tip ← gets p_gasTip;
  ValidateTransaction Sender tx head (basicOptions tip).

(** The options of [validateTx], closures over the pool. *)
Definition stateOptions p : ValidationOptionsWithState :=
  mkStateOptions (p_state p) None None
    (λ addr, match p_pending p !! addr with Some l => l_totalcost l | None => 0 end)
    (λ addr nonce, l ← p_pending p !! addr; tx ← SM.Get (l_txs l) nonce; Some (tx_Cost tx)).

Definition checkDelegationLimit (tx : Transaction) : P unit :=
  let from := sender tx in
  st ← gets p_state; all ← gets p_all;
  if (st_GetCodeHash st from =? EmptyCodeHash) && negb (LK.hasAuth from all) then mret tt
  else
    pending ← gets (λ p, p_pending p !! from);
    match pending with
    | None =>
        next ← nonce_get from;
        if negb (next =? tx_Nonce tx) then throw ErrOutOfOrderTxFromDelegated else mret tt
    | Some pending => if Contains (tx_Nonce tx) pending then mret tt else throw ErrInflightTxLimitReached
    end.

Definition list_len (m : gmap Address txlist) (addr : Address) : nat :=
  match m !! addr with Some l => Len l | None => O end.
Definition validateAuth (tx : Transaction) : P unit :=
  checkDelegationLimit tx;;
  for_each (tx_Auths tx) (λ auth,
    count ← gets (λ p, list_len (p_pending p) auth + list_len (p_queue p) auth)%nat;
    if (1 <? count)%nat then throw ErrAuthorityReserved else
    taken ← gets (λ p, RV.Has self auth (p_reserved p));
    if taken : bool then throw ErrAuthorityReserved else mret tt).

Definition validateTx (tx : Transaction) : P unit :=
  opts ← gets stateOptions;
  ValidateTransactionWithState Sender tx opts;;
  validateAuth tx.

(** ** Moving transactions *)

(** [enqueueTx]. *)
Definition enqueueTx (hash : Hash) (tx : Transaction) (addAll : bool) : P bool :=
  let from := sender tx in
  have ← gets (λ p, bool_decide (is_Some (p_queue p !! from)));
  (if have : bool then mret tt else modify (λ p, set_queue (<[from := newList false]> (p_queue p)) p));;
  '(inserted, old) ← at_queue from (TL.Add tx (PriceBump config));
  if negb inserted then throw ErrReplaceUnderpriced else
  (match old with
   | Some old_tx => all_remove (tx_Hash old_tx);; priced_removed 1;; markTxRemoved from old_tx Queue
   | None => mret tt
   end);;
  (if addAll then all_add tx;; priced_put tx else mret tt);;
  known ← gets (λ p, bool_decide (is_Some (p_beats p !! from)));
  (if known : bool then mret tt else beat from);;
  markTxEnqueued tx;;
  mret (bool_decide (is_Some old)).

Definition promoteTx (addr : Address) (hash : Hash) (tx : Transaction) : P bool :=
  have ← gets (λ p, bool_decide (is_Some (p_pending p !! addr)));
  (if have : bool then mret tt else modify (λ p, set_pending (<[addr := newList true]> (p_pending p)) p));;
  '(inserted, old) ← at_pending addr (TL.Add tx (PriceBump config));
  if negb inserted then
    all_remove hash;; priced_removed 1;; markTxRemoved addr tx Queue;; mret false
  else
    (match old with
     | Some old_tx => all_remove (tx_Hash old_tx);; priced_removed 1;; markTxRemoved addr old_tx Pending
     | None => mret tt
     end);;
    nonce_set addr (u64_add (tx_Nonce tx) 1);;
    beat addr;;
    markTxPromoted addr tx;;
    mret true.

(** The result of an inner call is dropped by the code. *)
Definition ignore {A} (m : P A) : P unit := λ p,
  match m p with
  | (p', Panic s) => (p', Panic s)
  | (p', _) => (p', Ok tt)
  end.

(** The deferred release at the end of [removeTx]. *)
Definition release_if_gone (addr : Address) : P unit :=
  gone ← gets (λ p, bool_decide (p_pending p !! addr = None ∧ p_queue p !! addr = None));
  when gone (release addr).
(** The part of [removeTx] about the future queue. *)
Definition remove_queued (addr : Address) (tx : Transaction) : P Z :=
  have ← gets (λ p, bool_decide (is_Some (p_queue p !! addr)));
  if negb have then mret 0 else
  '(removed, _) ← at_queue addr (TL.Remove tx);
  when removed (markTxRemoved addr tx Queue);;
  empty ← gets (λ p, (list_len (p_queue p) addr =? 0)%nat);
  when empty (modify (λ p, set_beats (delete addr (p_beats p)) (set_queue (delete addr (p_queue p)) p)));;
  mret 0.
(** Dropping a list that became empty. *)
Definition drop_empty_pending (addr : Address) : P unit :=
  empty ← gets (λ p, (list_len (p_pending p) addr =? 0)%nat);
  when empty (modify (λ p, set_pending (delete addr (p_pending p)) p)).
(** Taking a transaction out of the list that has it. *)
Definition remove_listed (addr : Address) (tx : Transaction) : P Z :=
  have ← gets (λ p, bool_decide (is_Some (p_pending p !! addr)));
  '(removed, invalids) ← (if have : bool then at_pending addr (TL.Remove tx) else mret (false, []));
  if removed : bool then
    markTxRemoved addr tx Pending;;
    drop_empty_pending addr;;
    for_each invalids (λ tx', ignore (enqueueTx (tx_Hash tx') tx' false));;
    nonce_lower addr (tx_Nonce tx);;
    mret (1 + Z.of_nat (length invalids))
  else remove_queued addr tx.
Definition removeTx (hash : Hash) (outofbound unreserve : bool) : P Z :=
  found ← gets (λ p, LK.Get hash (p_all p));
  match found with
  | None => mret 0
  | Some tx =>
      all_remove hash;;
      when outofbound (priced_removed 1);;
      n ← remove_listed (sender tx) tx;
      when unreserve (release_if_gone (sender tx));;
      mret n
  end.
Definition RemoveTx := removeTx.

(** ** Adding *)

(** [isGapped]: the nonces from the next one up to that of the transaction. *)
Definition isGapped (from : Address) (tx : Transaction) : P bool :=
  next ← nonce_get from;
  if tx_Nonce tx <=? next then mret false else
  queue ← gets (λ p, p_queue p !! from);
  match queue with
  | None => mret true
  | Some queue =>
      mret (existsb (λ nonce, negb (Contains nonce queue)) (seqZ next (tx_Nonce tx - next)))
  end.

(** The pool is full when a transaction does not fit in the slots. *)
Definition overflows p (tx : Transaction) : bool :=
  u64_add (GlobalSlots config) (GlobalQueue config) <? wrap 64 (LK.Slots (p_all p) + LK.numSlots tx).
(** Whether a dropped transaction is pending. *)
Definition drops_pending p (drop : Transactions) : bool :=
  existsb (λ tx, match p_pending p !! sender tx with Some l => Contains (tx_Nonce tx) l | None => false end) drop.
(** Making room in a full pool. *)
Definition make_room (from : Address) (tx : Transaction) : P unit :=
  under ← (λ p, let '(l, b) := PR.Underpriced EffectiveGasTip (p_all p) tx (p_priced p) in (set_priced l p, Ok b));
  if under : bool then throw ErrUnderpriced else
  changes ← gets p_changes;
  if to_int (GlobalSlots config / 4) <? changes then throw ErrTxPoolOverflow else
  '(drop, success) ← (λ p,
    let slots := LK.Slots (p_all p) - to_int (u64_add (GlobalSlots config) (GlobalQueue config)) + LK.numSlots tx in
    let '(l, r) := PR.Discard EffectiveGasTip (p_all p) slots (p_priced p) in (set_priced l p, Ok r));
  if negb success then throw ErrTxPoolOverflow else
  gapped ← isGapped from tx;
  replaces ← gets (λ p, gapped && drops_pending p drop);
  if replaces : bool then for_each drop priced_put;; throw ErrFutureReplacePending else
  for_each drop (λ dropTx,
    dropped ← removeTx (tx_Hash dropTx) false (negb (sender dropTx =? from));
    modify (λ p, set_changes (p_changes p + dropped) p)).
(** Replacing a pending transaction. *)
Definition replace_pending (from : Address) (tx : Transaction) : P bool :=
  '(inserted, old) ← at_pending from (TL.Add tx (PriceBump config));
  if negb inserted then throw ErrReplaceUnderpriced else
  (match old with
   | Some old_tx => all_remove (tx_Hash old_tx);; priced_removed 1;; markTxRemoved from old_tx Pending
   | None => mret tt
   end);;
  all_add tx;; priced_put tx;; notice (QueueTxEvent tx);; markTxReplaced from tx;;
  beat from;;
  mret (bool_decide (is_Some old)).
(** The part of [add] after the account is reserved. *)
Definition add_reserved (from : Address) (tx : Transaction) : P bool :=
  full ← gets (λ p, overflows p tx);
  when full (make_room from tx);;
  pending ← gets (λ p, match p_pending p !! from with Some l => Contains (tx_Nonce tx) l | None => false end);
  if pending : bool then replace_pending from tx else enqueueTx (tx_Hash tx) tx true.
Definition add (tx : Transaction) : P bool :=
  known ← gets (λ p, LK.Get (tx_Hash tx) (p_all p));
  match known with
  | Some _ => throw ErrAlreadyKnown
  | None =>
      validateTx tx;;
      let from := sender tx in
      tracked ← gets (λ p, bool_decide (is_Some (p_pending p !! from) ∨ is_Some (p_queue p !! from)));
      if tracked : bool then add_reserved from tx
      else hold from;; on_err (add_reserved from tx) (λ e, release from;; mret e)
  end.

(** ** Batches *)

(** [accountSet]: addresses seen since the last reorganisation. *)
Definition accountSet_addTx (tx : Transaction) (dirty : gset Address) : gset Address :=
  match Sender tx with Some addr => {[addr]} ∪ dirty | None => dirty end.
(** Run a step and keep its error. *)
Definition try {A} (m : P A) : P (A + PoolError) := λ p,
  match m p with
  | (p', Ok a) => (p', Ok (inl a))
  | (p', Err e) => (p', Ok (inr e))
  | (p', Panic s) => (p', Panic s)
  end.
Fixpoint addTxsLocked (txs : Transactions) : P (list (option PoolError) * gset Address) :=
  match txs with
  | [] => mret ([], ∅)
  | tx :: rest =>
      r ← try (add tx);
      '(errs, dirty) ← addTxsLocked rest;
      mret (match r with inl _ => None | inr e => Some e end :: errs,
            match r with inl false => accountSet_addTx tx dirty | _ => dirty end)
  end.
(** The first pass of [Add]: errors of the transactions that go no further. *)
Fixpoint screen (txs : Transactions) : P (list (option PoolError) * Transactions) :=
  match txs with
  | [] => mret ([], [])
  | tx :: rest =>
      known ← gets (λ p, bool_decide (is_Some (LK.Get (tx_Hash tx) (p_all p))));
      r ← (if known : bool then mret (inr ErrAlreadyKnown) else try (ValidateTxBasics tx));
      '(errs, news) ← screen rest;
      mret (match r with
            | inl _ => (None :: errs, tx :: news)
            | inr e => (Some e :: errs, news)
            end)
  end.
(** Writing the new errors to the slots that are still nil, in order. *)
Fixpoint merge_errs {E} (errs newErrs : list (option E)) : list (option E) :=
  match errs, newErrs with
  | Some e :: errs', _ => Some e :: merge_errs errs' newErrs
  | None :: errs', err :: newErrs' => err :: merge_errs errs' newErrs'
  | None :: _, [] | [], _ => errs
  end.
(** The errors, and the accounts whose promotion is requested. *)
Definition Add (txs : Transactions) : P (list (option PoolError) * option (gset Address)) :=
  '(errs, news) ← screen txs;
  if (length news =? 0)%nat then mret (errs, None) else
  '(newErrs, dirty) ← addTxsLocked news;
  mret (merge_errs errs newErrs, Some dirty).

(** ** Reads *)

Definition total_len (m : gmap Address txlist) : nat := list_sum (Len <$> (map_to_list m).*2).
Definition stats p : nat * nat := (total_len (p_pending p), total_len (p_queue p)).
Definition Nonce (addr : Address) : P Z := nonce_get addr.
Definition Get (hash : Hash) p : option Transaction := LK.Get hash (p_all p).
Definition Has (hash : Hash) p : bool := bool_decide (is_Some (LK.Get hash (p_all p))).
Definition HasPendingAuth (addr : Address) p : bool := LK.hasAuth addr (p_all p).
Inductive TxStatus := TxStatusUnknown | TxStatusQueued | TxStatusPending.
Definition Status (hash : Hash) p : TxStatus :=
  match LK.Get hash (p_all p) with
  | None => TxStatusUnknown
  | Some tx =>
      let at_nonce (m : gmap Address txlist) := l ← m !! sender tx; SM.Get (l_txs l) (tx_Nonce tx) in
      match at_nonce (p_pending p), at_nonce (p_queue p) with
      | Some _, _ => TxStatusPending
      | None, Some _ => TxStatusQueued
      | None, None => TxStatusUnknown
      end
  end.
(** [ContentFrom]; [Flatten] fills the caches of the lists. *)
Definition flatten_at (at_map : ∀ A, Address → L A → P A) (m : LegacyPool → gmap Address txlist) (addr : Address) : P Transactions :=
  have ← gets (λ p, bool_decide (is_Some (m p !! addr)));
  if have : bool then at_map _ addr Flatten else mret [].
Definition ContentFrom (addr : Address) : P (Transactions * Transactions) :=
  pending ← flatten_at (@at_pending) p_pending addr;
  queued ← flatten_at (@at_queue) p_queue addr;
  mret (pending, queued).
(** [Content]. *)
Fixpoint flatten_all (at_map : ∀ A, Address → L A → P A) (accounts : list Address) : P (gmap Address Transactions) :=
  match accounts with
  | [] => mret ∅
  | addr :: rest =>
      txs ← at_map _ addr Flatten;
      content ← flatten_all at_map rest;
      mret (<[addr := txs]> content)
  end.
Definition Content : P (gmap Address Transactions * gmap Address Transactions) :=
  accounts ← gets (λ p, pool_range (p_pending p));
  pending ← flatten_all (@at_pending) accounts;
  accounts ← gets (λ p, pool_range (p_queue p));
  queued ← flatten_all (@at_queue) accounts;
  mret (pending, queued).
(** [Pending], with the comparison of tips of go-ethereum. *)
Context (EffectiveGasTipIntCmp : Transaction → Z → option Z → comparison).
Fixpoint pending_of (filter : PendingFilter) (accounts : list Address) : P (gmap Address (list LazyTransaction)) :=
  match accounts with
  | [] => mret ∅
  | addr :: rest =>
      txs ← at_pending addr Flatten;
      lazies ← (λ p, let '(p', r) := filterAndWrapTxs EffectiveGasTipIntCmp txs (pf_MinTip filter) (pf_BaseFee filter) p in
                     (p', lift_list r));
      pending ← pending_of filter rest;
      mret (if (0 <? length lazies)%nat then <[addr := lazies]> pending else pending)
  end.
Definition Pending_ (filter : PendingFilter) : P (gmap Address (list LazyTransaction)) :=
  if pf_OnlyBlobTxs filter then mret ∅ else
  accounts ← gets (λ p, pool_range (p_pending p));
  pending_of filter accounts.
(** [Filter]: the types of transactions the pool takes. *)
Definition Filter (tx : Transaction) : bool :=
  existsb (λ t, tx_Type tx =? t) [LegacyTxType; AccessListTxType; DynamicFeeTxType; SetCodeTxType].
End Pool.
End LP.
