(* ===== verification/LegacyPoolReorg.v ===== *)
(** The maintenance of the pool ([mempool/txpool/legacypool/legacypool.go]):
    promotion and demotion, the limits on pending and queued transactions,
    eviction, the reset to a new head ([reset_production.go]) and [runReorg],
    which composes them. *)
From S2P Require Import Prelude GoStd AccessList Sdk Heap TxList PoolList Reserver TxLookup PricedList TxStore PoolValidation LegacyPool.

Module RO.
Import TL PV LP.

(** [tolerateRecheckErr]. *)
Definition tolerateRecheckErr (err : option string) : option string :=
  match err with
  | Some msg => if contains "tx nonce is higher than account nonce" msg then None else err
  | None => None
  end.

Section Reorg.
Context `{HR : MapRange} `{HPR : PoolRange} `{HC : TxChecks} `{RC : Rechecker}.
Context (EffectiveGasTip : Z → Transaction → Z) (Sender : Transaction → option Address).
Context (prque_order : list (Address * Z) → list Address).
Context (config : Config) (self : Z).
Implicit Types p : LegacyPool.
Abbreviation P := (M LegacyPool PoolError).

Abbreviation sender := (sender Sender).
Abbreviation enqueueTx := (enqueueTx EffectiveGasTip Sender config).
Abbreviation promoteTx := (promoteTx EffectiveGasTip config).
Abbreviation removeTx := (removeTx EffectiveGasTip Sender config self).
Abbreviation priced_removed := (priced_removed EffectiveGasTip).
Abbreviation release := (release self).

(** ** Rechecking *)

(** The calls of the filter function of [FilterSorted], one per transaction in
    the order of nonces: the transactions to drop, and whether the rechecker is
    to see the successful ones ([writes]). *)
Fixpoint recheck_txs (writes : bool) (txs : Transactions) (rs : RState) (ctx : RCtx) (b : Branch) :
    RState * RCtx * Branch * Transactions :=
  match txs with
  | [] => (rs, ctx, b, [])
  | tx :: rest =>
      let '(b, newCtx, err) := RecheckEVM rs ctx b tx in
      let ctx := default ctx newCtx in
      let rs := if bool_decide (err = None) && writes then WriteBack b rs else rs in
      let '(rs, ctx, b, drops) := recheck_txs writes rest rs ctx b in
      (rs, ctx, b, if bool_decide (is_Some (tolerateRecheckErr err)) then tx :: drops else drops)
  end.
(** [list.FilterSorted] with that function. *)
Definition recheck_list (at_map : ∀ A, L A → P A) (writes : bool) (ctx : RCtx) (b : Branch) :
    P (RCtx * Branch * (Transactions * Transactions)) :=
  sorted ← at_map _ Flatten;
  rs ← gets p_rechecker;
  let '(rs, ctx, b, drops) := recheck_txs writes sorted rs ctx b in
  modify (set_rechecker rs);;
  r ← at_map _ (FilterSorted (λ tx, bool_decide (tx ∈ drops)));
  mret (ctx, b, r).

(** Drop transactions from the table and report them. *)
Definition discard (addr : Address) (pool : PoolType) (txs : Transactions) : P unit :=
  for_each txs (λ tx, all_remove (tx_Hash tx);; markTxRemoved addr tx pool).

(** ** Promotion *)

(** Delete the queue of an account that became empty. *)
Definition drop_empty_queue (addr : Address) : P unit :=
  empty ← gets (λ p, (list_len (p_queue p) addr =? 0)%nat);
  when empty (
    modify (λ p, set_beats (delete addr (p_beats p)) (set_queue (delete addr (p_queue p)) p));;
    pending ← gets (λ p, bool_decide (is_Some (p_pending p !! addr)));
    when (negb pending) (release addr)).
Fixpoint promote_readies (addr : Address) (readies : Transactions) : P Transactions :=
  match readies with
  | [] => mret []
  | tx :: rest =>
      ok ← promoteTx addr (tx_Hash tx) tx;
      promoted ← promote_readies addr rest;
      mret (if ok : bool then tx :: promoted else promoted)
  end.
(** Remove transactions from a queue with a method of the list, drop them from
    the table, and count them. *)
Definition drop_queued {A} (addr : Address) (op : L A) (removed : A → Transactions) : P nat :=
  r ← at_queue addr op;
  discard addr Queue (removed r);;
  mret (length (removed r)).
(** The body of the loop of [promoteExecutables] on an account with a queue. *)
Definition promote_account (reset : bool) (addr : Address) (ctx : RCtx) (b : Branch) :
    P (RCtx * Branch * Transactions) :=
  st ← gets p_state; head ← gets p_head;
  forwards ← drop_queued addr (Forward (st_GetNonce st addr)) id;
  costDrops ← drop_queued addr (CostFilter (st_GetBalance st addr) (hd_GasLimit head)) fst;
  '(ctx, b, (recheckDrops, _)) ← recheck_list (λ A, at_queue (A := A) addr) (negb reset) ctx b;
  discard addr Queue recheckDrops;;
  next ← nonce_get addr;
  readies ← at_queue addr (Ready next);
  promoted ← promote_readies addr readies;
  caps ← drop_queued addr (Cap (Z.to_nat (AccountQueue config))) id;
  priced_removed (Z.of_nat (forwards + costDrops + length recheckDrops + caps));;
  drop_empty_queue addr;;
  mret (ctx, b, promoted).

(** [isReorgCancelled]: [cancel] counts the polls until the reset is cancelled. *)
Definition isReorgCancelled (reset : bool) (cancel : option nat) : bool := reset && bool_decide (cancel = Some O).
Fixpoint promote_loop (reset : bool) (cancel : option nat) (accounts : list Address) (ctx : RCtx) (b : Branch)
    (promoted : Transactions) : P Transactions :=
  match accounts with
  | [] => mret promoted
  | addr :: rest =>
      if isReorgCancelled reset cancel then mret promoted else
      have ← gets (λ p, bool_decide (is_Some (p_queue p !! addr)));
      if negb have then promote_loop reset (pred <$> cancel) rest ctx b promoted else
      '(ctx, b, more) ← promote_account reset addr ctx b;
      promote_loop reset (pred <$> cancel) rest ctx b (promoted ++ more)
  end.
Definition promoteExecutables (accounts : list Address) (cancel : option nat) (reset : bool) : P Transactions :=
  rs ← gets p_rechecker;
  let '(ctx, b) := GetContext rs in
  promote_loop reset cancel accounts ctx b [].

(** ** Demotion *)

(** Move transactions back to the queue. *)
Definition demote (txs : Transactions) : P unit :=
  for_each txs (λ tx, ignore (enqueueTx (tx_Hash tx) tx false)).
(** Delete the pending list of an account that became empty, or record it as
    checked. *)
Definition settle_pending (addr : Address) : P unit :=
  empty ← gets (λ p, (list_len (p_pending p) addr =? 0)%nat);
  if empty : bool then
    modify (λ p, set_pending (delete addr (p_pending p)) p);;
    queued ← gets (λ p, bool_decide (is_Some (p_queue p !! addr)));
    when (negb queued) (release addr)
  else
    txs ← at_pending addr Flatten;
    valid_do (TS.AddTxs addr txs).
Definition demote_account (addr : Address) : P unit :=
  st ← gets p_state; head ← gets p_head;
  let nonce := st_GetNonce st addr in
  olds ← at_pending addr (Forward nonce);
  discard addr Pending olds;;
  '(drops, costInvalids) ← at_pending addr (CostFilter (st_GetBalance st addr) (hd_GasLimit head));
  discard addr Pending drops;;
  rs ← gets p_rechecker;
  let '(ctx, b) := GetContext rs in
  '(_, (recheckDrops, recheckInvalids)) ← recheck_list (λ A, at_pending (A := A) addr) true ctx b;
  discard addr Pending recheckDrops;;
  demote (costInvalids ++ recheckInvalids);;
  gap ← gets (λ p, match p_pending p !! addr with
                   | Some l => (0 <? Len l)%nat && bool_decide (SM.Get (l_txs l) nonce = None)
                   | None => false
                   end);
  (if gap : bool then gapped ← at_pending addr (Cap 0); demote gapped else mret tt);;
  settle_pending addr.
Fixpoint demote_loop (reset : bool) (cancel : option nat) (accounts : list Address) : P unit :=
  match accounts with
  | [] => mret tt
  | addr :: rest =>
      if isReorgCancelled reset cancel then mret tt else
      demote_account addr;; demote_loop reset (pred <$> cancel) rest
  end.
Definition demoteUnexecutables (cancel : option nat) (reset : bool) : P unit :=
  accounts ← gets (λ p, pool_range (p_pending p));
  demote_loop reset cancel accounts.

(** ** Limits *)

(** Drop the last transaction of an offender. *)
Definition drop_last (addr : Address) : P unit :=
  len ← gets (λ p, list_len (p_pending p) addr);
  caps ← at_pending addr (Cap (len - 1));
  for_each caps (λ tx,
    all_remove (tx_Hash tx);; markTxRemoved addr tx Pending;; nonce_lower addr (tx_Nonce tx));;
  priced_removed (Z.of_nat (length caps)).
(** One round over the offenders, with the count of pending transactions. *)
Definition drop_round (offenders : list Address) (pending : Z) : P Z :=
  for_each offenders drop_last;;
  mret (foldl (λ n _, u64_sub n 1) pending offenders).
(** Rounds while there are too many pending transactions and the offender [last]
    has more than [threshold]; every round drops one, so the count is enough
    fuel. *)
Fixpoint equalize (fuel : nat) (offenders : list Address) (last : Address) (threshold : Z) (pending : Z) : P Z :=
  match fuel with
  | O => mret pending
  | Datatypes.S fuel' =>
      len ← gets (λ p, list_len (p_pending p) last);
      if (GlobalSlots config <? pending) && (threshold <? Z.of_nat len) then
        pending ← drop_round offenders pending;
        equalize fuel' offenders last threshold pending
      else mret pending
  end.
(** Popping the offenders. *)
Fixpoint offend (spammers offenders : list Address) (pending : Z) : P (list Address * Z) :=
  match spammers with
  | [] => mret (offenders, pending)
  | offender :: rest =>
      if pending <=? GlobalSlots config then mret (offenders, pending) else
      pending ← (match last offenders with
                 | Some prev =>
                     threshold ← gets (λ p, list_len (p_pending p) offender);
                     equalize (Z.to_nat pending) offenders prev (Z.of_nat threshold) pending
                 | None => mret pending
                 end);
      offend rest (offenders ++ [offender]) pending
  end.
(** The accounts above their slots, with their lengths. *)
Definition spammers_of p : list (Address * Z) :=
  filter (λ al, AccountSlots config < al.2) ((λ a, (a, Z.of_nat (list_len (p_pending p) a))) <$> pool_range (p_pending p)).
Definition truncatePending : P unit :=
  pending ← gets (λ p, foldl (λ n a, u64_add n (Z.of_nat (list_len (p_pending p) a))) 0 (pool_range (p_pending p)));
  spammers ← gets (λ p, prque_order (spammers_of p));
  if pending <=? GlobalSlots config then mret tt else
  '(offenders, pending) ← offend spammers [] pending;
  match last offenders with
  | Some final =>
      _ ← equalize (Z.to_nat pending) offenders final (AccountSlots config) pending;
      mret tt
  | None => mret tt
  end.

(** Remove transactions from the end of a queue. *)
Fixpoint drop_tail (txs : Transactions) (drop : Z) : P Z :=
  match txs with
  | [] => mret drop
  | tx :: rest =>
      if 0 <? drop then removeTx (tx_Hash tx) true true;; drop_tail rest (u64_sub drop 1)
      else mret drop
  end.
(** The accounts from the oldest heartbeat on. *)
Fixpoint truncate_loop (addresses : list Address) (drop : Z) : P unit :=
  match addresses with
  | [] => mret tt
  | addr :: rest =>
      if drop <=? 0 then mret tt else
      size ← gets (λ p, Z.of_nat (list_len (p_queue p) addr));
      txs ← at_queue addr Flatten;
      if size <=? drop then
        for_each txs (λ tx, removeTx (tx_Hash tx) true true;; mret tt);;
        truncate_loop rest (u64_sub drop size)
      else
        drop ← drop_tail (reverse txs) drop;
        truncate_loop rest drop
  end.
(** [sort.Sort(sort.Reverse(addresses))] puts the latest heartbeat first; the
    loop takes addresses from the end. *)
Definition later_beat (beats : gmap Address Z) (a b : Address) : Prop := default 0 (beats !! b) ≤ default 0 (beats !! a).
#[global] Instance later_beat_dec beats a b : Decision (later_beat beats a b).
Proof. unfold later_beat. apply _. Defined.
Definition truncateQueue : P unit :=
  queued ← gets (λ p, foldl (λ n a, u64_add n (Z.of_nat (list_len (p_queue p) a))) 0 (pool_range (p_queue p)));
  if queued <=? GlobalQueue config then mret tt else
  addresses ← gets (λ p, merge_sort (later_beat (p_beats p)) (pool_range (p_queue p)));
  truncate_loop (reverse addresses) (u64_sub queued (GlobalQueue config)).

(** ** Eviction, tip, clearing *)

(** The eviction tick of [loop]; a missing heartbeat is the zero time. *)
Definition evict : P unit :=
  accounts ← gets (λ p, pool_range (p_queue p));
  for_each accounts (λ addr,
    old ← gets (λ p, Lifetime config <? p_clock p - default 0 (p_beats p !! addr));
    if old : bool then
      txs ← at_queue addr Flatten;
      for_each txs (λ tx, removeTx (tx_Hash tx) true true;; mret tt)
    else mret tt).

Definition SetGasTip (tip : Z) : P unit :=
  let '(newTip, overflow) := FromBig tip in
  if overflow : bool then panic "uint256: overflow" else
  old ← gets p_gasTip;
  modify (set_gasTip newTip);;
  if old <? newTip then
    drop ← gets (λ p, LK.TxsBelowTip tip (p_all p));
    for_each drop (λ tx, removeTx (tx_Hash tx) false true;; mret tt);;
    priced_removed (Z.of_nat (length drop))
  else mret tt.

(** [Clear]; the heartbeats and the store of rechecked transactions stay. *)
Definition Clear : P unit :=
  pending ← gets (λ p, pool_range (p_pending p));
  for_each pending (λ addr,
    queued ← gets (λ p, bool_decide (is_Some (p_queue p !! addr)));
    when (negb queued) (release addr));;
  queue ← gets (λ p, pool_range (p_queue p));
  for_each queue release;;
  modify (λ p, set_all (LK.Clear (p_all p)) p);;
  modify (λ p, set_priced (PR.Reheap EffectiveGasTip (p_all p) (p_priced p)) p);;
  modify (λ p, set_nonces NC.newNoncer (set_queue ∅ (set_pending ∅ p))).

(** ** Reset *)

(** What the pool asks of the chain. *)
Record BlockChain := mkChain {
  CurrentBlock : Header;
  StateAt : Hash → option ChainState;
  GetLatestContext : option RCtx;
}.
Context (chain : BlockChain) (IsLondon : Z → bool) (CalcBaseFee : Header → Z) (EmptyCodeHash : Hash).
Abbreviation addTxsLocked := (addTxsLocked EffectiveGasTip Sender EmptyCodeHash config self).

(** [New] and [Init]: an empty pool on the state of the head, or on the empty
    state; [None] when the chain has neither. *)
Definition Init (EmptyRootHash : Hash) (gasTip : Z) (head : Header) (reserver : RV.ReservationTracker)
    (rechecker : RState) (clock : Z) : option LegacyPool :=
  statedb ← match StateAt chain (hd_Root head) with Some st => Some st | None => StateAt chain EmptyRootHash end;
  Some (mkPool gasTip head statedb NC.newNoncer reserver rechecker
    (HS.New TS.NewTxStore (hd_Number (CurrentBlock chain))) ∅ ∅ ∅ LK.newLookup PR.newPricedList 0 clock []).

(** Operations of the height store. *)
Definition at_valid {A} (m : M (HS.HeightSync TS.TxStore) Empty_set A) : P A := λ p,
  let '(v, r) := m (p_valid p) in (set_valid v p, lift_list r).

Definition resetInternalState (newHead : option Header) (reinject : Transactions) : P unit :=
  let newHead := default (CurrentBlock chain) newHead in
  match StateAt chain (hd_Root newHead) with
  | None => mret tt
  | Some statedb =>
      modify (λ p, set_nonces NC.newNoncer (set_state statedb (set_head newHead p)));;
      match GetLatestContext chain with
      | None => panic "failed to get latest context for rechecker"
      | Some ctx =>
          modify (λ p, set_rechecker (Update ctx newHead (p_rechecker p)) p);;
          at_valid (HS.StartNewHeight TS.NewTxStore (hd_Number newHead));;
          _ ← addTxsLocked reinject;
          mret tt
      end
  end.
(** [reset] of the production build: a skipped block is only logged, so nothing
    is injected again; comparing the parent needs a new head. *)
Definition reset (oldHead newHead : option Header) : P unit :=
  match oldHead, newHead with
  | Some _, None => panic "nil pointer dereference"
  | _, _ => resetInternalState newHead []
  end.

(** ** [runReorg] *)

Record txpoolResetRequest := mkReset {
  rr_oldHead : option Header;
  rr_newHead : option Header;
}.
(** The inputs of a run; [ri_cancel_promote] and [ri_cancel_demote] say when the
    polls of the two loops see the cancellation. *)
Record reorgInput := mkInput {
  ri_reset : option txpoolResetRequest;
  ri_dirtyAccounts : option (gset Address);
  ri_events : gmap Address SM.SortedMap;
  ri_cancel_promote : option nat;
  ri_cancel_demote : option nat;
}.

(** Forget the events below the new nonces. *)
Fixpoint forward_events (accounts : list Address) (events : gmap Address SM.SortedMap) : P (gmap Address SM.SortedMap) :=
  match accounts with
  | [] => mret events
  | addr :: rest =>
      next ← nonce_get addr;
      let m := fst (SM.Forward next (default SM.NewSortedMap (events !! addr))) in
      forward_events rest (if (SM.Len m =? 0)%nat then delete addr events else <[addr := m]> events)
  end.
(** The next nonce of every account with pending transactions. *)
Fixpoint last_nonces (accounts : list Address) : P (gmap Address Z) :=
  match accounts with
  | [] => mret ∅
  | addr :: rest =>
      highest ← at_pending addr LastElement;
      nonces ← last_nonces rest;
      mret (<[addr := u64_add (tx_Nonce highest) 1]> nonces)
  end.
(** The part of [runReorg] that follows the demotion on a reset. *)
Definition finish_reset (newHead : option Header) : P unit :=
  (match newHead with
   | Some head =>
       modify (λ p, set_priced
         (if IsLondon (hd_Number head + 1) then PR.SetBaseFee EffectiveGasTip (p_all p) (CalcBaseFee head) (p_priced p)
          else PR.Reheap EffectiveGasTip (p_all p) (p_priced p)) p)
   | None => mret tt
   end);;
  accounts ← gets (λ p, pool_range (p_pending p));
  nonces ← last_nonces accounts;
  modify (λ p, set_nonces (NC.setAll nonces (p_nonces p)) p);;
  at_valid HS.EndCurrentHeight.
(** Add the promoted transactions to the events. *)
Definition put_event (events : gmap Address SM.SortedMap) (tx : Transaction) : gmap Address SM.SortedMap :=
  <[sender tx := SM.Put tx (default SM.NewSortedMap (events !! sender tx))]> events.
(** The run returns the transactions of the event it sends to the feed. *)
Definition runReorg (input : reorgInput) : P Transactions :=
  '(promoteAddrs, events) ←
    (match ri_reset input with
     | Some req =>
         reset (rr_oldHead req) (rr_newHead req);;
         events ← forward_events (map_to_list (ri_events input)).*1 (ri_events input);
         addrs ← gets (λ p, pool_range (p_queue p));
         mret (addrs, events)
     | None => mret (elements (default ∅ (ri_dirtyAccounts input)), ri_events input)
     end);
  let resetting := bool_decide (is_Some (ri_reset input)) in
  promoted ← promoteExecutables promoteAddrs (ri_cancel_promote input) resetting;
  (match ri_reset input with
   | Some req => demoteUnexecutables (ri_cancel_demote input) true;; finish_reset (rr_newHead req)
   | None => mret tt
   end);;
  truncatePending;;
  truncateQueue;;
  modify (set_changes 0);;
  let events := foldl put_event events promoted in
  mret (concat ((λ set, snd (SM.Flatten set)) <$> (map_to_list events).*2)).
End Reorg.
End RO.
