(* ===== verification/ReorgLoop.v ===== *)
(** The scheduling loop of the pool ([scheduleReorgLoop] of
    [mempool/txpool/legacypool/legacypool.go]): requests for a reset or a
    promotion are collected while a run is in progress and served by the next
    one; every requester is given the channel that the run serving it closes. *)
From S2P Require Import Prelude GoStd AccessList Sdk Heap TxList PoolList Reserver TxLookup PricedList TxStore PoolValidation LegacyPool LegacyPoolReorg.

Module RL.
Import RO.

(** A launched run: the channel it closes when it ends, the channel that cancels
    its reset, and its input. *)
Record Run := mkRun {
  r_done : nat;
  r_cancel : option nat;
  r_reset : option txpoolResetRequest;
  r_dirty : option (gset Address);
  r_events : gmap Address SM.SortedMap;
}.
(** The variables of the loop, with the channels made so far ([w_fresh]), the
    runs launched (the latest first) and the channels closed. *)
Record Loop := mkLoop {
  curDone : option nat;
  nextDone : nat;
  resetCancelled : option nat;
  launchNextRun : bool;
  w_reset : option txpoolResetRequest;
  w_dirty : option (gset Address);
  w_events : gmap Address SM.SortedMap;
  w_fresh : nat;
  w_runs : list Run;
  w_closed : gset nat;
  w_stopped : bool;
}.
Implicit Types w : Loop.

(** The channels [nextDone] and [resetCancelled] are made first. *)
Definition initial : Loop := mkLoop None 0 (Some 1%nat) false None None ∅ 2 [] ∅ false.

(** The top of the loop. *)
Definition launch w : Loop :=
  match curDone w, launchNextRun w && negb (w_stopped w) with
  | None, true =>
      mkLoop (Some (nextDone w)) (w_fresh w) (resetCancelled w) false None None ∅ (S (w_fresh w))
        (mkRun (nextDone w) (resetCancelled w) (w_reset w) (w_dirty w) (w_events w) :: w_runs w) (w_closed w) (w_stopped w)
  | _, _ => w
  end.

(** What happens: a message on one of the channels of the loop, or the run in
    progress ends and closes its channel. *)
Inductive Event :=
| ReqReset (req : txpoolResetRequest)
| ReqCancelReset
| ReqPromote (set : gset Address)
| QueueTx (addr : Address) (tx : Transaction)
| RunEnds
| RunDone
| Shutdown.

Definition set_reset r w := mkLoop (curDone w) (nextDone w) (resetCancelled w) true r (w_dirty w) (w_events w) (w_fresh w) (w_runs w) (w_closed w) (w_stopped w).
Definition set_dirty d w := mkLoop (curDone w) (nextDone w) (resetCancelled w) true (w_reset w) d (w_events w) (w_fresh w) (w_runs w) (w_closed w) (w_stopped w).
Definition set_events e w := mkLoop (curDone w) (nextDone w) (resetCancelled w) (launchNextRun w) (w_reset w) (w_dirty w) e (w_fresh w) (w_runs w) (w_closed w) (w_stopped w).
Definition close_ (c : nat) w := mkLoop (curDone w) (nextDone w) (resetCancelled w) (launchNextRun w) (w_reset w) (w_dirty w) (w_events w) (w_fresh w) (w_runs w) ({[c]} ∪ w_closed w) (w_stopped w).

(** One event; [None] when it cannot happen. *)
Definition handle (ev : Event) w : option Loop :=
  if w_stopped w then None else
  match ev with
  | ReqReset req =>
      Some (set_reset (Some match w_reset w with
                            | None => req
                            | Some r => mkReset (rr_oldHead r) (rr_newHead req)
                            end) w)
  | ReqCancelReset =>
      match resetCancelled w, curDone w with
      | Some k, Some _ =>
          Some (mkLoop (curDone w) (nextDone w) None (launchNextRun w) (w_reset w) (w_dirty w) (w_events w) (w_fresh w)
                  (w_runs w) ({[k]} ∪ w_closed w) (w_stopped w))
      | _, _ => Some w
      end
  | ReqPromote set =>
      Some (set_dirty (Some match w_dirty w with None => set | Some d => d ∪ set end) w)
  | QueueTx addr tx =>
      Some (set_events (<[addr := SM.Put tx (default SM.NewSortedMap (w_events w !! addr))]> (w_events w)) w)
  | RunEnds =>
      match curDone w with
      | Some c => if bool_decide (c ∈ w_closed w) then None else Some (close_ c w)
      | None => None
      end
  | RunDone =>
      match curDone w with
      | Some c =>
          if bool_decide (c ∈ w_closed w) then
            Some (mkLoop None (nextDone w) (Some (w_fresh w)) (launchNextRun w) (w_reset w) (w_dirty w) (w_events w)
                    (S (w_fresh w)) (w_runs w) (w_closed w) (w_stopped w))
          else None
      | None => None
      end
  | Shutdown =>
      match curDone w with
      | Some c => if bool_decide (c ∈ w_closed w) then
                    Some (mkLoop (curDone w) (nextDone w) (resetCancelled w) (launchNextRun w) (w_reset w) (w_dirty w) (w_events w)
                            (w_fresh w) (w_runs w) ({[nextDone w]} ∪ w_closed w) true)
                  else None
      | None => Some (mkLoop None (nextDone w) (resetCancelled w) (launchNextRun w) (w_reset w) (w_dirty w) (w_events w)
                        (w_fresh w) (w_runs w) ({[nextDone w]} ∪ w_closed w) true)
      end
  end.
Definition step (ev : Event) w : option Loop := launch <$> handle ev w.
Fixpoint run (evs : list Event) w : option Loop :=
  match evs with
  | [] => Some w
  | ev :: rest => w' ← step ev w; run rest w'
  end.

(** ** The invariant of the loop *)

Record loop_ok w : Prop := {
  lo_next : (nextDone w < w_fresh w)%nat;
  lo_closed c : c ∈ w_closed w → (c < w_fresh w)%nat;
  lo_open : w_stopped w = false → nextDone w ∉ w_closed w;
  lo_cur c : curDone w = Some c → (c < w_fresh w)%nat ∧ c ≠ nextDone w;
  lo_cancel k : resetCancelled w = Some k → (k < w_fresh w)%nat ∧ k ≠ nextDone w ∧ curDone w ≠ Some k ∧ k ∉ w_closed w;
  lo_idle : curDone w = None → is_Some (resetCancelled w);
  lo_busy : w_stopped w = false → launchNextRun w = true → is_Some (curDone w);
  lo_run c : curDone w = Some c → ∃ r rest, w_runs w = r :: rest ∧ r_done r = c ∧
    (resetCancelled w = r_cancel r ∨ resetCancelled w = None);
}.

Lemma initial_ok : loop_ok initial.
Proof. split; cbn; try done; try lia; try set_solver. Qed.

(** The invariant without the clause that launching restores. *)
Definition pre_ok w : Prop := ∃ b, loop_ok (mkLoop (curDone w) (nextDone w) (resetCancelled w) b (w_reset w) (w_dirty w) (w_events w)
  (w_fresh w) (w_runs w) (w_closed w) (w_stopped w)).
Lemma launch_ok w : pre_ok w → loop_ok (launch w).
Proof.
  intros [b [H1 H2 H3 H4 H5 H6 H7 H8]]. cbn in *. unfold launch. destruct (curDone w) as [c|] eqn:Hc.
  { split; rewrite ?Hc; try done. }
  destruct (launchNextRun w && negb (w_stopped w)) eqn:Hl.
  - apply andb_true_iff in Hl as [_ Hs%negb_true_iff]. split; cbn; try done; try lia.
    + intros c Hin%H2. lia.
    + intros _ Hin%H2. lia.
    + intros c [= <-]. lia.
    + intros k Hk. destruct (H5 k Hk) as (? & ? & _ & ?). split_and!; [lia..|congruence|done].
    + intros c [= <-]. eexists _, _. split_and!; [done..|]. by left.
  - split; rewrite ?Hc; try done. intros Hs Hl'. by rewrite Hl', Hs in Hl.
Qed.
Lemma pre_ok_same w w' :
  loop_ok w → curDone w' = curDone w → nextDone w' = nextDone w → resetCancelled w' = resetCancelled w →
  w_fresh w' = w_fresh w → w_runs w' = w_runs w → w_closed w' = w_closed w → w_stopped w' = w_stopped w → pre_ok w'.
Proof.
  intros [H1 H2 H3 H4 H5 H6 H7 H8] E1 E2 E3 E4 E5 E6 E7. exists (launchNextRun w). rewrite E1, E2, E3, E4, E5, E6, E7. split; done.
Qed.

Lemma handle_ok ev w w' : loop_ok w → handle ev w = Some w' → pre_ok w'.
Proof.
  intros Hok Hh. pose proof Hok as [H1 H2 H3 H4 H5 H6 H7 H8]. unfold handle in Hh. destruct (w_stopped w) eqn:Hs; [done|].
  destruct ev as [req| |set|addr tx| | |].
  - injection Hh as <-. by apply (pre_ok_same w).
  - destruct (resetCancelled w) as [k|] eqn:Hk; [|injection Hh as <-; by apply (pre_ok_same w)].
    destruct (curDone w) as [c|] eqn:Hc; [|injection Hh as <-; by apply (pre_ok_same w)]. injection Hh as <-.
    destruct (H5 k eq_refl) as (? & ? & ? & ?). exists (launchNextRun w). split; cbn; rewrite ?Hs; try done.
    + intros c' [->%elem_of_singleton|?]%elem_of_union; [done|by apply H2].
    + intros _. rewrite not_elem_of_union, not_elem_of_singleton. split; [done|by apply H3].
    + intros c' [= <-]. destruct (H8 c eq_refl) as (r & rest & ? & ? & _). exists r, rest. split_and!; [done..|by right].
  - injection Hh as <-. by apply (pre_ok_same w).
  - injection Hh as <-. by apply (pre_ok_same w).
  - destruct (curDone w) as [c|] eqn:Hc; [|done]. case_bool_decide; [done|]. injection Hh as <-. destruct (H4 c eq_refl).
    exists (launchNextRun w). split; cbn; rewrite ?Hs, ?Hc; try done.
    + intros c' [->%elem_of_singleton|?]%elem_of_union; [done|by apply H2].
    + intros _. rewrite not_elem_of_union, not_elem_of_singleton. split; [done|by apply H3].
    + intros k Hk. destruct (H5 k Hk) as (? & ? & ? & ?). split_and!; [done..|].
      rewrite not_elem_of_union, not_elem_of_singleton. split; [congruence|done].
  - destruct (curDone w) as [c|] eqn:Hc; [|done]. case_bool_decide; [|done]. injection Hh as <-. exists false.
    split; cbn; rewrite ?Hs; try done.
    + lia.
    + intros c' ?%H2. lia.
    + intros k [= <-]. split_and!; [lia..|done|]. intros ?%H2. lia.
  - destruct (curDone w) as [c|] eqn:Hc; [case_bool_decide; [|done]|]; injection Hh as <-; exists (launchNextRun w);
      (split; cbn; try done; first [intros c' [->%elem_of_singleton|?]%elem_of_union; [done|by apply H2]
        |intros k Hk; destruct (H5 k Hk) as (? & ? & ? & ?); split_and!; [done..|];
         rewrite not_elem_of_union, not_elem_of_singleton; done]).
Qed.
Lemma loop_step_ok ev w w' : loop_ok w → step ev w = Some w' → loop_ok w'.
Proof. unfold step. intros Hok (w1 & H1 & ->)%fmap_Some. by eapply launch_ok, handle_ok. Qed.
Lemma run_ok evs w w' : loop_ok w → run evs w = Some w' → loop_ok w'.
Proof.
  revert w. induction evs as [|ev evs IH]; intros w Hok; cbn [run]; [by intros [= <-]|].
  intros (w1 & H1 & H2)%bind_Some. eapply IH; [by eapply loop_step_ok|done].
Qed.

(** ** Requests are served *)

(** The requests among the events: the resets and the sets of accounts. *)
Definition resets (evs : list Event) : list txpoolResetRequest := omap (λ ev, match ev with ReqReset req => Some req | _ => None end) evs.
Definition promotions (evs : list Event) : list (gset Address) := omap (λ ev, match ev with ReqPromote set => Some set | _ => None end) evs.
(** What a pending reset and the requests that arrive become together: one reset
    from the old head of the first to the new head of the last; pending accounts
    and those of the requests become their union. *)
Definition merged_reset (pending : option txpoolResetRequest) (evs : list Event) : option txpoolResetRequest :=
  let all := option_list pending ++ resets evs in
  match head all, last all with
  | Some first, Some latest => Some (mkReset (rr_oldHead first) (rr_newHead latest))
  | _, _ => None
  end.
Definition merged_dirty (pending : option (gset Address)) (evs : list Event) : option (gset Address) :=
  match option_list pending ++ promotions evs with [] => None | all => Some (⋃ all) end.
(** The events that arrive before the run that closes [c] is launched. *)
Fixpoint before_launch (c : nat) (evs : list Event) w : list Event :=
  match evs with
  | [] => []
  | ev :: rest =>
      if decide (nextDone w = c) then
        match step ev w with Some w' => ev :: before_launch c rest w' | None => [] end
      else []
  end.
(** A run has exactly the work that was pending in [w] and that the events [evs]
    after it asked for. *)
Definition serves w (evs : list Event) (reset : option txpoolResetRequest) (dirty : option (gset Address)) : Prop :=
  reset = merged_reset (w_reset w) evs ∧ dirty = merged_dirty (w_dirty w) evs.
(** In particular what one of the events asked for. *)
Definition asked (ev : Event) (evs : list Event) (r : Run) : Prop :=
  match ev with
  | ReqReset req =>
      ∃ q, r_reset r = Some q ∧ Some (rr_newHead q) = last (rr_newHead <$> req :: resets evs)
  | ReqPromote set => ∃ d, r_dirty r = Some d ∧ set ⊆ d
  | _ => False
  end.

Lemma merged_reset_nil o : merged_reset o [] = o.
Proof. by destruct o as [[]|]. Qed.
Lemma merged_dirty_nil o : merged_dirty o [] = o.
Proof. destruct o; cbn; [|done]. by rewrite union_empty_r_L. Qed.
Lemma merged_reset_snoc o evs ev :
  merged_reset o (evs ++ [ev]) =
  match ev with
  | ReqReset req => Some match merged_reset o evs with None => req | Some r => mkReset (rr_oldHead r) (rr_newHead req) end
  | _ => merged_reset o evs
  end.
Proof.
  unfold merged_reset, resets. rewrite omap_app. destruct ev as [req| | | | | |]; cbn; rewrite ?app_nil_r; try done.
  rewrite app_assoc, last_snoc. destruct (option_list o ++ _) as [|f l] eqn:Hl; [by destruct req|].
  cbn [head app]. destruct (last (f :: l)) as [x|] eqn:Hx; [done|]. by apply last_None in Hx.
Qed.
Lemma merged_dirty_snoc o evs ev :
  merged_dirty o (evs ++ [ev]) =
  match ev with
  | ReqPromote set => Some match merged_dirty o evs with None => set | Some d => d ∪ set end
  | _ => merged_dirty o evs
  end.
Proof.
  unfold merged_dirty, promotions. rewrite omap_app. destruct ev as [| |set| | | |]; cbn; rewrite ?app_nil_r; try done.
  rewrite app_assoc. destruct (option_list o ++ _) as [|d l] eqn:Hl; cbn; [by rewrite union_empty_r_L|].
  f_equal. rewrite union_list_app_L. cbn. by rewrite union_empty_r_L, assoc_L by apply _.
Qed.
Lemma serves_asked w ev evs r :
  (∃ req, ev = ReqReset req) ∨ (∃ set, ev = ReqPromote set) → serves w (ev :: evs) (r_reset r) (r_dirty r) → asked ev evs r.
Proof.
  intros [[req ->]|[set ->]] [Hr Hd]; cbn.
  - rewrite Hr. unfold merged_reset. change (resets (ReqReset req :: evs)) with (req :: resets evs). rewrite last_app_cons.
    destruct (last (req :: resets evs)) as [x|] eqn:Hx; [|by apply last_None in Hx].
    destruct (option_list (w_reset w) ++ req :: resets evs) as [|f l] eqn:Hl; [by destruct (w_reset w)|]. cbn [head].
    eexists. split; [done|]. cbn [rr_newHead]. rewrite <- (fmap_cons rr_newHead req), fmap_last, Hx. done.
  - rewrite Hd. unfold merged_dirty. change (promotions (ReqPromote set :: evs)) with (set :: promotions evs).
    destruct (option_list (w_dirty w) ++ set :: promotions evs) as [|f l] eqn:Hl; [by destruct (w_dirty w)|].
    eexists. split; [done|]. rewrite <- Hl, union_list_app_L. cbn. set_solver.
Qed.

Definition is_shutdown (ev : Event) : Prop := match ev with Shutdown => True | _ => False end.
#[global] Instance is_shutdown_dec ev : Decision (is_shutdown ev).
Proof. destruct ev; cbn; apply _. Defined.
Definition is_end (ev : Event) : bool := match ev with RunEnds => true | _ => false end.
(** How many runs end in a sequence of events. *)
Definition ends (evs : list Event) : nat := list_sum ((λ ev, if is_end ev then 1 else 0)%nat <$> evs).

(** Where the requests [evs] since [w0] with channel [c] stand, and how many runs
    must still end. *)
Inductive phase w0 (evs : list Event) (c : nat) w : nat → Prop :=
| ph_waiting r : w_stopped w = false → nextDone w = c → launchNextRun w = true → curDone w = Some r →
    serves w0 evs (w_reset w) (w_dirty w) → phase w0 evs c w (if decide (r ∈ w_closed w) then 1 else 2)
| ph_running r rest : w_stopped w = false → curDone w = Some c → c ∉ w_closed w → w_runs w = r :: rest → r_done r = c →
    serves w0 evs (r_reset r) (r_dirty r) → phase w0 evs c w 1
| ph_served r : c ∈ w_closed w → r ∈ w_runs w → r_done r = c → serves w0 evs (r_reset r) (r_dirty r) → phase w0 evs c w 0.
(** The requests that count after one more event: it counts until the launch. *)
Definition arrived c w (evs : list Event) (e : Event) : list Event := if decide (nextDone w = c) then evs ++ [e] else evs.

Lemma launch_keeps w : w_closed (launch w) = w_closed w ∧ w_stopped (launch w) = w_stopped w ∧ (∃ new, w_runs (launch w) = new ++ w_runs w).
Proof.
  unfold launch. destruct (curDone w); [split_and!; [done..|by exists []]|].
  destruct (_ && _); cbn; split_and!; try done; [by eexists [_]|by exists []].
Qed.
Lemma handle_keeps ev w w' : handle ev w = Some w' → w_closed w ⊆ w_closed w' ∧ w_runs w' = w_runs w.
Proof.
  unfold handle. intros H. destruct (w_stopped w); [done|].
  destruct ev; repeat case_match; simplify_eq/=; (split; [set_solver|done]).
Qed.
Lemma step_keeps ev w w' : step ev w = Some w' → w_closed w ⊆ w_closed w' ∧ (∀ r, r ∈ w_runs w → r ∈ w_runs w').
Proof.
  unfold step. intros (w1 & Hh & ->)%fmap_Some. destruct (handle_keeps _ _ _ Hh) as [H1 H2].
  destruct (launch_keeps w1) as (-> & _ & new & ->). split; [done|]. intros r. rewrite H2. set_solver.
Qed.

(** Requests that are not launched yet are launched when the run in progress is
    done, with those that arrive before. *)
Lemma serves_handle w0 evs e w w1 :
  serves w0 evs (w_reset w) (w_dirty w) → handle e w = Some w1 → serves w0 (evs ++ [e]) (w_reset w1) (w_dirty w1).
Proof.
  unfold serves. intros [Hr Hd] Hh. rewrite merged_reset_snoc, merged_dirty_snoc, <- Hr, <- Hd. unfold handle in Hh.
  destruct e; repeat case_match; simplify_eq/=; done.
Qed.
Lemma waiting_step w0 evs e c w w' r :
  loop_ok w → w_stopped w = false → nextDone w = c → launchNextRun w = true → curDone w = Some r →
  serves w0 evs (w_reset w) (w_dirty w) → step e w = Some w' → e ≠ Shutdown →
  ∃ n, phase w0 (evs ++ [e]) c w' n ∧ (n + (if is_end e then 1 else 0) ≤ if decide (r ∈ w_closed w) then 1 else 2)%nat.
Proof.
  intros Hok Hs Hn Hl Hc Hsv Hstep Hne. unfold step in Hstep. apply fmap_Some in Hstep as (w1 & Hh & ->).
  pose proof (lo_open _ Hok Hs) as Hopen. pose proof (serves_handle _ _ _ _ _ Hsv Hh) as Hsv1.
  assert (Hstay : w_stopped w1 = false → nextDone w1 = c → launchNextRun w1 = true → curDone w1 = Some r →
    phase w0 (evs ++ [e]) c (launch w1) (if decide (r ∈ w_closed w1) then 1 else 2)).
  { intros ? ? ? Hc2. unfold launch. rewrite Hc2. by constructor. }
  unfold handle in Hh. rewrite Hs in Hh. destruct e as [req| |set|addr tx| | |]; cbn [is_end].
  1,3,4: injection Hh as <-; eexists; split; [by apply Hstay|cbn; lia].
  - rewrite Hc in Hh. destruct (resetCancelled w) as [k|] eqn:Hk; injection Hh as <-; eexists; (split; [by apply Hstay|cbn]); [|lia].
    destruct (lo_cancel _ Hok k Hk) as (_ & _ & Hkc & _). clear Hstay. case_decide as Hd; case_decide; try lia. destruct Hd. set_solver.
  - rewrite Hc in Hh. case_bool_decide as Hd; [done|]. injection Hh as <-. eexists. split; [by apply Hstay|]. cbn.
    rewrite decide_True by set_solver. rewrite decide_False by done. lia.
  - rewrite Hc in Hh. case_bool_decide as Hd; [|done]. injection Hh as <-. rewrite decide_True by done. exists 1%nat. split; [|lia].
    unfold launch. cbn. rewrite Hl. cbn. subst c. by eapply ph_running.
  - done.
Qed.
Lemma running_step w0 evs e c w w' r rest :
  loop_ok w → w_stopped w = false → curDone w = Some c → c ∉ w_closed w → w_runs w = r :: rest → r_done r = c →
  serves w0 evs (r_reset r) (r_dirty r) → step e w = Some w' →
  ∃ n, phase w0 evs c w' n ∧ (n + (if is_end e then 1 else 0) ≤ 1)%nat.
Proof.
  intros Hok Hs Hc Hopen Hr Hd Hsv Hstep. unfold step in Hstep. apply fmap_Some in Hstep as (w1 & Hh & ->).
  assert (Hstay : ∀ w2, w_stopped w2 = false → curDone w2 = Some c → c ∉ w_closed w2 → w_runs w2 = r :: rest → phase w0 evs c (launch w2) 1).
  { intros w2 ? Hc2 ? ?. unfold launch. rewrite Hc2. by eapply ph_running. }
  unfold handle in Hh. rewrite Hs in Hh. destruct e as [req| |set|addr tx| | |]; cbn [is_end].
  1,3,4: injection Hh as <-; exists 1%nat; split; [by apply Hstay|lia].
  - rewrite Hc in Hh. exists 1%nat. split; [|lia]. destruct (resetCancelled w) as [k|] eqn:Hk; injection Hh as <-; apply Hstay; try done.
    cbn. destruct (lo_cancel _ Hok k Hk) as (_ & _ & Hkc & _). rewrite not_elem_of_union, not_elem_of_singleton. split; [congruence|done].
  - rewrite Hc, bool_decide_false in Hh by done. injection Hh as <-. exists 0%nat. split; [|lia]. unfold launch. cbn. rewrite Hc.
    eapply (ph_served w0 evs c _ r); cbn; try done; [set_solver|rewrite Hr; set_solver].
  - by rewrite Hc, bool_decide_false in Hh.
  - by rewrite Hc, bool_decide_false in Hh.
Qed.
Lemma step_open e w w' : loop_ok w → step e w = Some w' → nextDone w ∉ w_closed w.
Proof.
  intros Hok Hstep. apply lo_open; [done|]. unfold step, handle in Hstep. by destruct (w_stopped w).
Qed.
Lemma phase_step w0 evs e c w w' n :
  loop_ok w → phase w0 evs c w n → step e w = Some w' → e ≠ Shutdown →
  ∃ n', phase w0 (arrived c w evs e) c w' n' ∧ (n' ≤ n - (if is_end e then 1 else 0))%nat.
Proof.
  intros Hok Hph Hstep Hne. pose proof (step_open _ _ _ Hok Hstep) as Hopen0. unfold arrived.
  destruct Hph as [r Hs Hn Hl Hc Hsv|r rest Hs Hc Hopen Hr Hd Hsv|r Hin Hr Hd Hsv].
  - rewrite (decide_True (P := nextDone w = c)) by done.
    destruct (waiting_step _ _ _ _ _ _ _ Hok Hs Hn Hl Hc Hsv Hstep Hne) as (n' & ? & ?). exists n'. split; [done|lia].
  - rewrite decide_False by (destruct (lo_cur _ Hok c Hc); congruence).
    destruct (running_step _ _ _ _ _ _ _ _ Hok Hs Hc Hopen Hr Hd Hsv Hstep) as (n' & ? & ?). exists n'. split; [done|lia].
  - rewrite decide_False by congruence. destruct (step_keeps _ _ _ Hstep) as [H1 H2]. exists 0%nat. split; [|lia].
    eapply ph_served; [by apply H1|by apply H2|done..].
Qed.
(** After the launch nothing more counts. *)
Lemma before_launch_done c evs w : nextDone w ≠ c → before_launch c evs w = [].
Proof. intros Hn. destruct evs; cbn; [done|]. by rewrite decide_False. Qed.
Lemma step_next e c w w' : loop_ok w → (c < w_fresh w)%nat → step e w = Some w' → nextDone w ≠ c → nextDone w' ≠ c ∧ (c < w_fresh w')%nat.
Proof.
  intros Hok Hc Hstep Hn. unfold step in Hstep. apply fmap_Some in Hstep as (w1 & Hh & ->).
  assert (H1 : nextDone w1 = nextDone w ∧ (w_fresh w ≤ w_fresh w1)%nat).
  { unfold handle in Hh. destruct (w_stopped w); [done|]. destruct e; repeat case_match; simplify_eq/=; (split; [done|lia]). }
  destruct H1 as [H1 H2]. unfold launch. repeat case_match; cbn; rewrite ?H1; lia.
Qed.
Lemma phase_run w0 acc evs c w w' n :
  loop_ok w → phase w0 acc c w n → run evs w = Some w' → Shutdown ∉ evs →
  ∃ n', phase w0 (acc ++ before_launch c evs w) c w' n' ∧ (n' ≤ n - ends evs)%nat.
Proof.
  revert acc w n. induction evs as [|e evs IH]; intros acc w n Hok Hph Hrun Hns; cbn [run] in Hrun.
  { injection Hrun as <-. exists n. cbn. rewrite app_nil_r. split; [done|lia]. }
  apply bind_Some in Hrun as (w1 & H1 & Hrun). destruct (phase_step _ _ _ _ _ _ _ Hok Hph H1) as (n1 & Hph1 & Hle1); [set_solver|].
  destruct (IH (arrived c w acc e) w1 n1) as (n' & Hph' & ?); [by eapply loop_step_ok|done|done|set_solver|]. exists n'. split.
  - cbn [before_launch]. rewrite H1. unfold arrived in Hph'. destruct (decide (nextDone w = c)) as [Hn|Hn]; [by rewrite <- app_assoc in Hph'|].
    rewrite app_nil_r. rewrite before_launch_done, app_nil_r in Hph'; [done|]. eapply step_next; [done| |done|done].
    destruct Hph as [| |? Hin]; [done| |by eapply lo_closed]. by eapply lo_cur.
  - change (ends (e :: evs)) with ((if is_end e then 1 else 0) + ends evs)%nat. lia.
Qed.

(** The channel a requester is given. *)
Lemma request_phase ev w w' :
  loop_ok w → (∃ req, ev = ReqReset req) ∨ (∃ set, ev = ReqPromote set) → step ev w = Some w' →
  ∃ n, phase w [ev] (nextDone w) w' n ∧ (n ≤ 2)%nat.
Proof.
  intros Hok Hev Hstep. pose proof (step_open _ _ _ Hok Hstep) as Hopen. unfold step in Hstep. apply fmap_Some in Hstep as (w1 & Hh & ->).
  assert (Hsv : serves w [ev] (w_reset w1) (w_dirty w1)).
  { apply (serves_handle w [] ev w w1); [|done]. split; [by rewrite merged_reset_nil|by rewrite merged_dirty_nil]. }
  assert (Hcase : w_stopped w1 = false ∧ nextDone w1 = nextDone w ∧ launchNextRun w1 = true ∧ curDone w1 = curDone w ∧
    w_closed w1 = w_closed w).
  { unfold handle in Hh. destruct (w_stopped w) eqn:Hs; [done|]. by destruct Hev as [[req ->]|[set ->]]; injection Hh as <-; cbn. }
  destruct Hcase as (Hs & Hn & Hl & Hc & Hcl).
  unfold launch. rewrite Hc, Hl, Hs. destruct (curDone w) as [c|] eqn:Hcw; cbn.
  - eexists. split; [eapply (ph_waiting w [ev] _ w1 c); congruence|]. case_decide; lia.
  - exists 1%nat. split; [|lia]. eapply ph_running; cbn; try done; congruence.
Qed.

Lemma phase_done w0 evs c w : phase w0 evs c w 0 → ∃ r, r ∈ w_runs w ∧ r_done r = c ∧ serves w0 evs (r_reset r) (r_dirty r).
Proof. intros Hph. inversion Hph as [r ? ? ? ? ? Hd| |r]; [case_decide; done|]. by exists r. Qed.
Lemma phase_done_closed w0 evs c w : phase w0 evs c w 0 → c ∈ w_closed w.
Proof. intros Hph. inversion Hph as [r ? ? ? ? ? Hd| |r]; [case_decide; done|done]. Qed.

(** Nothing happens after a shutdown, which closes the channel of the next run. *)
Lemma run_stopped evs w w' : w_stopped w = true → run evs w = Some w' → w' = w.
Proof. destruct evs as [|e evs]; cbn [run]; [by intros _ [= <-]|]. unfold step, handle. by intros ->. Qed.
Lemma run_closed evs w w' : run evs w = Some w' → w_closed w ⊆ w_closed w'.
Proof.
  revert w. induction evs as [|e evs IH]; intros w; cbn [run]; [by intros [= <-]|].
  intros (w1 & [H1 _]%step_keeps & H2%IH)%bind_Some. by etrans.
Qed.
Lemma shutdown_closes w0 acc c w w' n : phase w0 acc c w n → step Shutdown w = Some w' → c ∈ w_closed w'.
Proof.
  intros Hph Hstep. pose proof (step_keeps _ _ _ Hstep) as [Hsub _]. unfold step in Hstep. apply fmap_Some in Hstep as (w1 & Hh & ->).
  destruct (launch_keeps w1) as (Hcl & _). rewrite Hcl in *. unfold handle in Hh.
  destruct Hph as [r Hs Hn Hl Hc Hsv|r rest Hs Hc Hopen Hr Hd Hsv|r Hin Hr Hd Hsv]; [..|by apply Hsub];
    rewrite Hs, Hc in Hh; case_bool_decide; simplify_eq/=; set_solver.
Qed.
Lemma phase_closed w0 acc evs c w w' n :
  loop_ok w → phase w0 acc c w n → (n ≤ 2)%nat → run evs w = Some w' → (2 ≤ ends evs)%nat ∨ Shutdown ∈ evs → c ∈ w_closed w'.
Proof.
  intros Hok Hph Hn Hrun Hcase.
  assert (Hshut : Shutdown ∈ evs → c ∈ w_closed w').
  { clear Hcase Hn. revert acc w n Hok Hph Hrun. induction evs as [|e evs IH]; intros acc w n Hok Hph Hrun Hin; [by apply elem_of_nil in Hin|].
    cbn [run] in Hrun. apply bind_Some in Hrun as (w1 & H1 & Hrun). apply elem_of_cons in Hin as [<-|Hin].
    - eapply run_closed; [done|]. by eapply shutdown_closes.
    - destruct (decide (is_shutdown e)) as [He|He].
      + destruct e; try done. eapply run_closed; [done|]. by eapply shutdown_closes.
      + destruct (phase_step _ _ _ _ _ _ _ Hok Hph H1) as (n1 & Hph1 & _); [by intros ->|].
        eapply IH; [by eapply loop_step_ok|done..]. }
  destruct (decide (Exists is_shutdown evs)) as [He|He].
  - apply Hshut. apply Exists_exists in He as (e & Hin & He). by destruct e.
  - destruct Hcase as [Hge|?]; [|by apply Hshut].
    destruct (phase_run _ _ _ _ _ _ _ Hok Hph Hrun) as (n' & Hph' & Hle).
    { intros Hin. apply He, Exists_exists. by exists Shutdown. }
    eapply phase_done_closed. by replace 0%nat with n' by lia.
Qed.

(** Runs that end bring a waiting request to its end. *)
Lemma running_progress c w :
  w_stopped w = false → curDone w = Some c → c ∉ w_closed w → ∃ w', step RunEnds w = Some w' ∧ c ∈ w_closed w'.
Proof.
  intros Hs Hc Hopen. unfold step, handle. rewrite Hs, Hc, bool_decide_false by done. eexists. split; [done|].
  unfold launch. cbn. rewrite Hc. set_solver.
Qed.
Lemma waiting_progress c w r :
  loop_ok w → w_stopped w = false → nextDone w = c → launchNextRun w = true → curDone w = Some r → r ∈ w_closed w →
  ∃ w1 w2, step RunDone w = Some w1 ∧ step RunEnds w1 = Some w2 ∧ c ∈ w_closed w2.
Proof.
  intros Hok Hs Hn Hl Hc Hr. pose proof (lo_open _ Hok Hs) as Hopen. unfold step at 1, handle. rewrite Hs, Hc, bool_decide_true by done.
  cbn [fmap option_fmap option_map]. unfold launch. cbn. rewrite Hl. cbn. subst c.
  set (w1 := mkLoop (Some (nextDone w)) _ _ _ _ _ _ _ _ _ _).
  destruct (running_progress (nextDone w) w1 eq_refl eq_refl Hopen) as (w2 & ? & ?). by exists w1, w2.
Qed.
Lemma progress_from w0 acc c w n :
  loop_ok w → phase w0 acc c w n →
  ∃ done w', run done w = Some w' ∧ c ∈ w_closed w' ∧ ∀ e, e ∈ done → e = RunEnds ∨ e = RunDone.
Proof.
  intros Hok [r Hs Hn Hl Hc Hsv|r rest Hs Hc Hopen Hr Hd Hsv|r Hin Hr Hd Hsv].
  - destruct (decide (r ∈ w_closed w)) as [Hr|Hr].
    + destruct (waiting_progress c w r) as (w1 & w2 & H1 & H2 & Hin); try done.
      exists [RunDone; RunEnds], w2. cbn [run]. rewrite H1. cbn. rewrite H2. split_and!; [done..|]. set_solver.
    + assert (H0 : step RunEnds w = Some (close_ r w)).
      { unfold step, handle. rewrite Hs, Hc, bool_decide_false by done. cbn. unfold launch. cbn. by rewrite Hc. }
      pose proof (loop_step_ok _ _ _ Hok H0) as Hok0.
      destruct (waiting_progress c (close_ r w) r) as (w1 & w2 & H1 & H2 & Hin); try done; [cbn; set_solver|].
      exists [RunEnds; RunDone; RunEnds], w2. cbn [run]. rewrite H0. cbn [mbind option_bind]. rewrite H1. cbn [mbind option_bind].
      rewrite H2. split_and!; [done..|]. set_solver.
  - destruct (running_progress c w) as (w1 & H1 & Hin); try done. exists [RunEnds], w1. cbn [run]. rewrite H1.
    split_and!; [done..|]. set_solver.
  - exists [], w. split_and!; [done..|]. set_solver.
Qed.
Lemma phase_progress w0 acc evs c w w' n :
  loop_ok w → phase w0 acc c w n → (n ≤ 2)%nat → run evs w = Some w' → c ∉ w_closed w' →
  ∃ done w3, run done w' = Some w3 ∧ c ∈ w_closed w3 ∧ ∀ e, e ∈ done → e = RunEnds ∨ e = RunDone.
Proof.
  intros Hok Hph Hn Hrun Hnc.
  assert (Hns : Shutdown ∉ evs) by (intros ?; apply Hnc; eapply phase_closed; [done..|by right]).
  destruct (phase_run _ _ _ _ _ _ _ Hok Hph Hrun Hns) as (n' & Hph' & _).
  eapply progress_from; [by eapply run_ok|done].
Qed.
End RL.
