(* ===== verification/PoolInv.v ===== *)
(** The consistency of the pool at the level of its contents: which transaction
    is in which list, in the table of all transactions, in the price heaps, and
    which accounts are reserved.  The lemmas say what moving a transaction does to
    the invariant; the operations of the pool are sequences of such moves. *)
From S2P Require Import Prelude GoStd AccessList Sdk Heap TxList PoolList Reserver TxLookup PricedList.

Module PI.
Import SM TL.

(** The contents of the lists: [true] for pending, [false] for queued. *)
Abbreviation contents := (bool → gmap Address (gmap Z Transaction)).
Implicit Types (c : contents) (lim dropped : Transactions) (all : LK.lookup_) (pr : PR.pricedList).

(** A transaction is in the list of an account, at its nonce. *)
Definition at_ c (b : bool) (a : Address) (tx : Transaction) : Prop :=
  ∃ its, c b !! a = Some its ∧ its !! tx_Nonce tx = Some tx.
Definition upd (b : bool) (a : Address) (its : gmap Z Transaction) c : contents :=
  λ b', if Bool.eqb b' b then <[a := its]> (c b') else c b'.
Definition del (b : bool) (a : Address) c : contents :=
  λ b', if Bool.eqb b' b then delete a (c b') else c b'.
Definition known all (tx : Transaction) : Prop := LK.Get (tx_Hash tx) all = Some tx.

Section Inv.
Context `{HR : MapRange} `{HRL : !MapRangeLaws}.
Context (EffectiveGasTip : Z → Transaction → Z) (Sender : Transaction → option Address) (self : Z).
(** The transactions that reach the pool. *)
Context (U : Transaction → Prop).

(** [E] are the accounts being worked on, whose lists may be empty and which
    stay reserved; [lim] the transactions that are in the table but in no list;
    [dropped] those that were taken out of the price heaps. *)
Record inv (E : gset Address) lim dropped c all pr (rs : RV.ReservationTracker) : Prop := {
  i_keyed b a its n tx : c b !! a = Some its → its !! n = Some tx → tx_Nonce tx = n;
  i_nonempty b a its : c b !! a = Some its → a ∉ E → its ≠ ∅;
  i_lookup : LK.lookup_ok all;
  i_known tx : known all tx ↔ (∃ b a, at_ c b a tx) ∨ tx ∈ lim;
  i_sender b a tx : at_ c b a tx → Sender tx = Some a;
  i_once b b' a tx : at_ c b a tx → at_ c b' a tx → b = b';
  i_limbo tx b a : tx ∈ lim → ¬ at_ c b a tx;
  i_nodup : NoDup lim;
  i_unique tx tx' : known all tx → known all tx' → Sender tx = Sender tx' → tx_Nonce tx = tx_Nonce tx' → tx = tx';
  i_wf tx : known all tx → is_Some (Sender tx) ∧ 0 ≤ tx_Cost tx ∧ 0 ≤ tx_Nonce tx < 2 ^ 64;
  i_cost : sum_cost (txs_of (LK.lk_txs all)) < 2 ^ 256;
  i_open a : a ∈ E → rs !! a = Some self;
  i_reserved a : a ∉ E → rs !! a = Some self ↔ ∃ b, is_Some (c b !! a);
  i_priced : PR.pl_ok EffectiveGasTip pr;
  i_cover tx : known all tx → tx ∈ dropped ∨ tx ∈ PR.entries pr;
  i_uni e : e ∈ dropped ∨ e ∈ PR.entries pr → U e;
}.

(** ** The table *)

Lemma known_lookup all h tx : LK.lookup_ok all → LK.lk_txs all !! h = Some tx → known all tx.
Proof. intros Hok H. unfold known, LK.Get. by rewrite (LK.lo_keyed _ Hok _ _ H). Qed.
Lemma known_remove all h tx : known (LK.Remove h all) tx ↔ known all tx ∧ tx_Hash tx ≠ h.
Proof.
  unfold known, LK.Get, LK.Remove. destruct (LK.lk_txs all !! h) eqn:Hh; cbn.
  - rewrite lookup_delete_Some. split; intros [? ?]; (split; [done|congruence]).
  - split; [|by intros [? _]]. intros H. split; [done|]. intros <-. congruence.
Qed.
Lemma known_add all tx tx' :
  LK.Get (tx_Hash tx) all = None → known (LK.Add tx all) tx' ↔ tx' = tx ∨ known all tx'.
Proof.
  unfold known, LK.Get. intros Hn. cbn. rewrite lookup_insert_Some. split.
  - intros [[_ <-]|[_ ?]]; [by left|by right].
  - intros [->|H]; [by left|right]. split; [|done]. intros Heq. rewrite Heq in Hn. congruence.
Qed.
Lemma known_txs all tx : LK.lookup_ok all → tx ∈ txs_of (LK.lk_txs all) ↔ known all tx.
Proof.
  intros Hok. unfold txs_of. rewrite list_elem_of_fmap. split.
  - intros ([h tx'] & -> & Hin%elem_of_map_to_list). by eapply known_lookup.
  - intros H. exists (tx_Hash tx, tx). split; [done|]. by apply elem_of_map_to_list.
Qed.
(** A hash is known at most once. *)
Lemma known_hash all tx tx' : known all tx → known all tx' → tx_Hash tx = tx_Hash tx' → tx = tx'.
Proof. unfold known. intros H1 H2 Heq. rewrite Heq in H1. congruence. Qed.

(** ** Contents *)

Lemma at_upd b a its c b' a' tx :
  at_ (upd b a its c) b' a' tx ↔
  if decide (b' = b ∧ a' = a) then its !! tx_Nonce tx = Some tx else at_ c b' a' tx.
Proof.
  unfold at_, upd. destruct (Bool.eqb_spec b' b) as [->|Hb].
  - destruct (decide (a' = a)) as [->|Ha].
    + rewrite decide_True, lookup_insert_eq by done. naive_solver.
    + rewrite decide_False, lookup_insert_ne by naive_solver. done.
  - rewrite decide_False by naive_solver. done.
Qed.
Lemma upd_lookup b a its c b' a' :
  upd b a its c b' !! a' = if decide (b' = b ∧ a' = a) then Some its else c b' !! a'.
Proof.
  unfold upd. destruct (Bool.eqb_spec b' b) as [->|Hb]; [|by rewrite decide_False by naive_solver].
  destruct (decide (a' = a)) as [->|Ha].
  - by rewrite decide_True, lookup_insert_eq.
  - by rewrite decide_False, lookup_insert_ne by naive_solver.
Qed.
Lemma del_lookup b a c b' a' :
  del b a c b' !! a' = if decide (b' = b ∧ a' = a) then None else c b' !! a'.
Proof.
  unfold del. destruct (Bool.eqb_spec b' b) as [->|Hb]; [|by rewrite decide_False by naive_solver].
  destruct (decide (a' = a)) as [->|Ha].
  - by rewrite decide_True, lookup_delete_eq.
  - by rewrite decide_False, lookup_delete_ne by naive_solver.
Qed.

(** The invariant only reads the contents. *)
Lemma inv_ext E lim dropped c c' all pr rs :
  (∀ b, c' b = c b) → inv E lim dropped c all pr rs → inv E lim dropped c' all pr rs.
Proof.
  intros Hc []. assert (Hat : ∀ b a tx, at_ c' b a tx ↔ at_ c b a tx) by (intros; unfold at_; by rewrite Hc).
  split; try done.
  - intros b a its n tx. rewrite Hc. eauto.
  - intros b a its. rewrite Hc. eauto.
  - intros tx. setoid_rewrite Hat. done.
  - intros b a tx. rewrite Hat. eauto.
  - intros b b' a tx. rewrite !Hat. eauto.
  - intros tx b a. rewrite Hat. eauto.
  - intros a. setoid_rewrite Hc. eauto.
Qed.

Lemma keyed_iff (its : gmap Z Transaction) tx :
  (∀ n tx, its !! n = Some tx → tx_Nonce tx = n) → tx ∈ txs_of its ↔ its !! tx_Nonce tx = Some tx.
Proof.
  intros Hk. split; [by apply keyed_txs|]. intros H. apply list_elem_of_fmap. exists (tx_Nonce tx, tx).
  split; [done|]. by apply elem_of_map_to_list.
Qed.

(** The order of the transactions in no list does not matter. *)
Lemma inv_perm E lim lim' dropped c all pr rs :
  lim ≡ₚ lim' → inv E lim dropped c all pr rs → inv E lim' dropped c all pr rs.
Proof.
  intros Hp []. split; try done.
  - intros tx. rewrite <- Hp. done.
  - intros tx b a. rewrite <- Hp. eauto.
  - by rewrite <- Hp.
Qed.

(** What a list loses: the removed transactions are those it has no longer. *)
Lemma split_items (its its' : gmap Z Transaction) removed :
  (∀ n tx, its !! n = Some tx → tx_Nonce tx = n) → its' ⊆ its → txs_of its ≡ₚ removed ++ txs_of its' →
  NoDup removed ∧ ∀ tx, tx ∈ removed ↔ its !! tx_Nonce tx = Some tx ∧ its' !! tx_Nonce tx ≠ Some tx.
Proof.
  intros Hk Hsub Hp.
  assert (Hk' : ∀ n tx, its' !! n = Some tx → tx_Nonce tx = n) by (intros n tx H; by apply Hk, (lookup_weaken _ _ _ _ H)).
  assert (Hnd : NoDup (tx_Nonce <$> txs_of its)) by (rewrite keyed_nonces by done; apply NoDup_fst_map_to_list).
  rewrite Hp, fmap_app in Hnd. apply NoDup_app in Hnd as (Hnd & Hd & _).
  split; [by eapply NoDup_fmap_1|]. intros tx. rewrite <- !keyed_iff by done. rewrite Hp. split.
  - intros Hin. split; [by apply elem_of_app; left|]. intros Hin'. apply (Hd (tx_Nonce tx)); by apply list_elem_of_fmap_2.
  - intros [[H|H]%elem_of_app Hn]; done.
Qed.

(** ** Moves *)

(** Transactions leave a list. *)
Lemma inv_take E lim dropped c all pr rs b a its its' removed :
  inv E lim dropped c all pr rs → c b !! a = Some its → a ∈ E → its' ⊆ its → txs_of its ≡ₚ removed ++ txs_of its' →
  inv E (removed ++ lim) dropped (upd b a its' c) all pr rs.
Proof.
  intros Hinv Hits Ha Hsub Hp. destruct Hinv as [Hk Hne Hlk Hkn Hs Ho Hl Hnd Hu Hw Hc Hop Hr Hpr Hco Hch].
  destruct (split_items its its' removed) as [Hnd' Hrem]; [by intros n tx; apply (Hk b a)|done..|].
  assert (Hin : ∀ tx, tx ∈ removed → at_ c b a tx) by (intros tx [H _]%Hrem; by exists its).
  assert (Hat : ∀ b' a' tx, at_ (upd b a its' c) b' a' tx ↔ at_ c b' a' tx ∧ tx ∉ removed).
  { intros b' a' tx. rewrite at_upd. case_decide as Hd.
    - destruct Hd as [-> ->]. rewrite Hrem. unfold at_. rewrite Hits. split.
      + intros H. split; [exists its; split; [done|by eapply lookup_weaken]|tauto].
      + intros [(? & [= <-] & H) Hn]. destruct (decide (its' !! tx_Nonce tx = Some tx)); [done|]. destruct Hn. done.
    - split; [|by intros [? _]]. intros H. split; [done|]. intros Hr'. apply Hd.
      pose proof (Hin tx Hr') as H'. pose proof (Hs _ _ _ H) as E1. rewrite (Hs _ _ _ H') in E1. injection E1 as <-.
      split; [by eapply Ho|done]. }
  split; try done.
  - intros b' a' i n tx. rewrite upd_lookup. case_decide as Hd; [|by apply Hk]. destruct Hd as [-> ->].
    intros [= <-] H. eapply (Hk b a); [done|]. by eapply lookup_weaken.
  - intros b' a' i. rewrite upd_lookup. case_decide as Hd; [|by apply Hne]. by destruct Hd as [-> ->].
  - intros tx. rewrite Hkn, elem_of_app. setoid_rewrite Hat. split.
    + intros [(b' & a' & H)|H]; [|tauto]. destruct (decide (tx ∈ removed)); [tauto|]. left. eauto.
    + intros [(b' & a' & H & _)|[H|H]]; [left; eauto|left; eauto|tauto].
  - intros b' a' tx [H _]%Hat. by eapply Hs.
  - intros b1 b2 a' tx [H1 _]%Hat [H2 _]%Hat. by eapply Ho.
  - intros tx b' a' [H|H]%elem_of_app; rewrite Hat; [tauto|]. intros [H' _]. by eapply Hl.
  - apply NoDup_app. split_and!; [done| |done]. intros tx H1%Hin H2. by eapply Hl.
  - intros a' Ha'. rewrite (Hr a' Ha'). split; intros [b' H]; exists b'; revert H; rewrite upd_lookup;
      case_decide as Hd; try done; destruct Hd as [_ ->]; done.
Qed.

(** A transaction in no list enters one. *)
Lemma inv_place E lim dropped c all pr rs b a tx :
  inv E (tx :: lim) dropped c all pr rs → Sender tx = Some a → a ∈ E →
  inv E lim dropped (upd b a (<[tx_Nonce tx := tx]> (default ∅ (c b !! a))) c) all pr rs.
Proof.
  intros Hinv Hsd Ha. destruct Hinv as [Hk Hne Hlk Hkn Hs Ho Hl Hnd Hu Hw Hc Hop Hr Hpr Hco Hch].
  apply NoDup_cons in Hnd as [Hnin Hnd].
  assert (Hkt : known all tx) by (apply Hkn; right; left).
  assert (Hfree : ∀ b' its, c b' !! a = Some its → its !! tx_Nonce tx = None).
  { intros b' its Hits. destruct (its !! tx_Nonce tx) as [tx0|] eqn:Ht; [|done].
    pose proof (Hk _ _ _ _ _ Hits Ht) as Hn. assert (Hat0 : at_ c b' a tx0) by (exists its; by rewrite Hn).
    assert (tx = tx0) as <- by (apply Hu; [done|apply Hkn; eauto|by rewrite (Hs _ _ _ Hat0)|done]).
    destruct (Hl tx b' a); [left|done]. }
  set (its0 := default ∅ (c b !! a)).
  assert (Hits0 : ∀ n tx', its0 !! n = Some tx' → ∃ its, c b !! a = Some its ∧ its !! n = Some tx').
  { unfold its0. intros n tx'. destruct (c b !! a); cbn; [eauto|by rewrite lookup_empty]. }
  assert (Hat : ∀ b' a' tx', at_ (upd b a (<[tx_Nonce tx := tx]> its0) c) b' a' tx' ↔
    at_ c b' a' tx' ∨ tx' = tx ∧ b' = b ∧ a' = a).
  { intros b' a' tx'. rewrite at_upd. case_decide as Hd; [|naive_solver]. destruct Hd as [-> ->].
    rewrite lookup_insert_Some. split.
    - intros [[_ <-]|[_ H]]; [naive_solver|]. left. apply Hits0 in H as (its & ? & ?). by exists its.
    - intros [(its & Hits & H)|[-> _]]; [|by left]. right. split; [|unfold its0; by rewrite Hits].
      intros Heq. pose proof (Hfree b its Hits) as Hf. rewrite Heq in Hf. congruence. }
  split; try done.
  - intros b' a' i n tx'. rewrite upd_lookup. case_decide as Hd; [|by apply Hk]. destruct Hd as [-> ->].
    intros [= <-] [[<- <-]|[_ H]]%lookup_insert_Some; [done|]. apply Hits0 in H as (its & ? & ?). by eapply Hk.
  - intros b' a' i. rewrite upd_lookup. case_decide as Hd; [|by apply Hne]. by destruct Hd as [-> ->].
  - intros tx'. rewrite Hkn, elem_of_cons. setoid_rewrite Hat. split.
    + intros [(b' & a' & H)|[->|H]]; [left; exists b', a'; by left|left; exists b, a; by right|tauto].
    + intros [(b' & a' & [H|(-> & _)])|H]; [left; eauto|tauto..].
  - intros b' a' tx' [H|(-> & _ & ->)]%Hat; [by eapply Hs|done].
  - intros b1 b2 a' tx' [H1|(-> & -> & ->)]%Hat [H2|(Hx & -> & Hy)]%Hat; [by eapply Ho|subst..|done];
      edestruct Hl; (done || left).
  - intros tx' b' a' Hin [H|(-> & _ & _)]%Hat; [|done]. eapply (Hl tx'); [by right|done].
  - intros a' Ha'. rewrite (Hr a' Ha'). split; intros [b' H]; exists b'; revert H; rewrite upd_lookup;
      case_decide as Hd; try done; destruct Hd as [_ ->]; done.
Qed.
(** A transaction in no list leaves the table. *)
Lemma inv_forget E lim dropped c all pr rs tx :
  inv E (tx :: lim) dropped c all pr rs → inv E lim dropped c (LK.Remove (tx_Hash tx) all) pr rs.
Proof.
  intros [Hk Hne Hlk Hkn Hs Ho Hl Hnd Hu Hw Hc Hop Hr Hpr Hco Hch]. apply NoDup_cons in Hnd as [Hnin Hnd].
  assert (Hkt : known all tx) by (apply Hkn; right; left).
  assert (Hkn' : ∀ tx', known (LK.Remove (tx_Hash tx) all) tx' ↔ known all tx' ∧ tx' ≠ tx).
  { intros tx'. rewrite known_remove. split; intros [H1 H2]; (split; [done|]); [by intros ->|].
    intros Heq. by apply H2, (known_hash all). }
  split; try done.
  - by apply LK.Remove_ok.
  - intros tx'. rewrite Hkn', Hkn, elem_of_cons. split.
    + intros [[?|[->|?]] ?]; tauto.
    + intros [(b & a & H)|H]; (split; [eauto|]); [|naive_solver]. intros ->. eapply (Hl tx); [left|done].
  - intros tx' b a Hin. apply Hl. by right.
  - intros tx1 tx2 [H1 _]%Hkn' [H2 _]%Hkn'. by apply Hu.
  - intros tx' [H _]%Hkn'. by apply Hw.
  - unfold LK.Remove. unfold known, LK.Get in Hkt. rewrite Hkt. cbn. rewrite (txs_of_delete _ _ _ Hkt) in Hc. cbn in Hc.
    destruct (Hw tx) as (_ & ? & _); [done|]. fold (sum_cost (txs_of (delete (tx_Hash tx) (LK.lk_txs all)))) in Hc. lia.
  - intros tx' [H _]%Hkn'. by apply Hco.
Qed.

(** A new transaction enters the table and the heaps. *)
Lemma inv_new E lim dropped c all pr rs tx :
  inv E lim dropped c all pr rs → LK.Get (tx_Hash tx) all = None →
  (∀ tx', known all tx' → Sender tx' = Sender tx → tx_Nonce tx' ≠ tx_Nonce tx) →
  is_Some (Sender tx) → 0 ≤ tx_Cost tx → 0 ≤ tx_Nonce tx < 2 ^ 64 →
  sum_cost (txs_of (LK.lk_txs all)) + tx_Cost tx < 2 ^ 256 →
  U tx →
  inv E (tx :: lim) dropped c (LK.Add tx all) (PR.Put EffectiveGasTip tx pr) rs.
Proof.
  intros [Hk Hne Hlk Hkn Hs Ho Hl Hnd Hu Hw Hc Hop Hr Hpr Hco Hch] Hnew Hfree Hsd Hcost Hnon Hsum Hcoll.
  assert (Hnk : ¬ known all tx) by (unfold known; congruence).
  destruct (PR.priced_put_spec EffectiveGasTip tx pr Hpr) as (Hpr' & Hent & _ & _).
  split; try done.
  - by apply LK.Add_ok.
  - intros tx'. rewrite known_add, Hkn, elem_of_cons by done. tauto.
  - intros tx' b a [->|H]%elem_of_cons; [|by apply Hl]. intros Hat. apply Hnk, Hkn. eauto.
  - constructor; [|done]. intros Hin. apply Hnk, Hkn. tauto.
  - intros tx1 tx2. rewrite !known_add by done. intros [->|H1] [->|H2] Hsd' Hn; [done|..|by apply Hu].
    + by destruct (Hfree tx2 H2).
    + by destruct (Hfree tx1 H1).
  - intros tx'. rewrite known_add by done. intros [->|H]; [done|by apply Hw].
  - cbn. rewrite txs_of_insert. unfold LK.Get in Hnew. rewrite Hnew. cbn. lia.
  - intros tx'. rewrite known_add by done. rewrite Hent. intros [->|H]; [right; left|].
    destruct (Hco tx' H); [by left|by right; right].
  - intros e. rewrite Hent, elem_of_cons. intros [He|[->|He]]; [|done|]; apply Hch; tauto.
Qed.

(** Start and stop working on an account. *)
Lemma inv_open E lim dropped c all pr rs a :
  inv E lim dropped c all pr rs → rs !! a = Some self → inv ({[a]} ∪ E) lim dropped c all pr rs.
Proof.
  intros [Hk Hne Hlk Hkn Hs Ho Hl Hnd Hu Hw Hc Hop Hr Hpr Hco Hch] Ha. split; try done.
  - intros b a' its H Hn. apply (Hne b a' its H). set_solver.
  - intros a' Ha'. destruct (decide (a' = a)) as [->|]; [done|]. apply Hop. set_solver.
  - intros a' Ha'. apply Hr. set_solver.
Qed.
Lemma inv_close E lim dropped c all pr rs rs' a :
  inv E lim dropped c all pr rs → (∀ b its, c b !! a = Some its → its ≠ ∅) →
  (∀ a', a' ≠ a → rs' !! a' = rs !! a') → (rs' !! a = Some self ↔ ∃ b, is_Some (c b !! a)) →
  inv (E ∖ {[a]}) lim dropped c all pr rs'.
Proof.
  intros [Hk Hne Hlk Hkn Hs Ho Hl Hnd Hu Hw Hc Hop Hr Hpr Hco Hch] Hempty Hsame Ha. split; try done.
  - intros b a' its H Hn. destruct (decide (a' = a)) as [->|]; [by eapply Hempty|]. apply (Hne b a' its H). set_solver.
  - intros a' [Ha' Hn]%elem_of_difference. rewrite Hsame by set_solver. by apply Hop.
  - intros a' Ha'. destruct (decide (a' = a)) as [->|]; [done|]. rewrite Hsame by done. apply Hr. set_solver.
Qed.

(** Empty lists of an account being worked on come and go. *)
Lemma at_upd_empty b a c b' a' tx :
  (c b !! a = None ∨ c b !! a = Some ∅) → at_ (upd b a ∅ c) b' a' tx ↔ at_ c b' a' tx.
Proof.
  intros H. rewrite at_upd. case_decide as Hd; [|done]. destruct Hd as [-> ->]. rewrite lookup_empty. unfold at_.
  split; [done|]. intros (its & Hits & Htx). destruct H as [H|H]; rewrite H in Hits; [done|].
  injection Hits as <-. by rewrite lookup_empty in Htx.
Qed.
Lemma inv_create E lim dropped c all pr rs b a :
  inv E lim dropped c all pr rs → c b !! a = None → a ∈ E → inv E lim dropped (upd b a ∅ c) all pr rs.
Proof.
  intros [Hk Hne Hlk Hkn Hs Ho Hl Hnd Hu Hw Hc Hop Hr Hpr Hco Hch] Hn Ha.
  pose proof (λ b' a' tx, at_upd_empty b a c b' a' tx (or_introl Hn)) as Hat. split; try done.
  - intros b' a' i n tx. rewrite upd_lookup. case_decide; [|by apply Hk]. intros [= <-]. by rewrite lookup_empty.
  - intros b' a' i. rewrite upd_lookup. case_decide as Hd; [|by apply Hne]. by destruct Hd as [-> ->].
  - intros tx. setoid_rewrite Hat. done.
  - intros b' a' tx H%Hat. by eapply Hs.
  - intros b1 b2 a' tx H1%Hat H2%Hat. by eapply Ho.
  - intros tx b' a' Hin H%Hat. by eapply Hl.
  - intros a' Ha'. rewrite (Hr a' Ha'). split; intros [b' H]; exists b'; revert H; rewrite upd_lookup;
      case_decide as Hd; try done; destruct Hd as [_ ->]; done.
Qed.
Lemma at_del_empty b a c b' a' tx : c b !! a = Some ∅ → at_ (del b a c) b' a' tx ↔ at_ c b' a' tx.
Proof.
  intros H. unfold at_. rewrite del_lookup. case_decide as Hd; [|done]. destruct Hd as [-> ->].
  split; [by intros (? & ? & _)|]. intros (its & Hits & Htx). rewrite H in Hits. injection Hits as <-. by rewrite lookup_empty in Htx.
Qed.
Lemma inv_delete E lim dropped c all pr rs b a :
  inv E lim dropped c all pr rs → c b !! a = Some ∅ → a ∈ E → inv E lim dropped (del b a c) all pr rs.
Proof.
  intros [Hk Hne Hlk Hkn Hs Ho Hl Hnd Hu Hw Hc Hop Hr Hpr Hco Hch] Hn Ha.
  pose proof (λ b' a' tx, at_del_empty b a c b' a' tx Hn) as Hat. split; try done.
  - intros b' a' i n tx. rewrite del_lookup. case_decide; [done|by apply Hk].
  - intros b' a' i. rewrite del_lookup. case_decide; [done|by apply Hne].
  - intros tx. setoid_rewrite Hat. done.
  - intros b' a' tx H%Hat. by eapply Hs.
  - intros b1 b2 a' tx H1%Hat H2%Hat. by eapply Ho.
  - intros tx b' a' Hin H%Hat. by eapply Hl.
  - intros a' Ha'. rewrite (Hr a' Ha'). split; intros [b' H]; exists b'; revert H; rewrite del_lookup;
      case_decide as Hd; try done; destruct Hd as [_ ->]; done.
Qed.

(** ** Costs *)

Lemma sum_cost_pos txs : Forall (λ tx, 0 ≤ tx_Cost tx) txs → 0 ≤ sum_cost txs.
Proof. induction 1 as [|tx txs Htx _ IH]; cbn; [done|]. fold (sum_cost txs). lia. Qed.
Lemma sum_cost_sub l1 l2 :
  NoDup l1 → (∀ tx, tx ∈ l1 → tx ∈ l2) → Forall (λ tx, 0 ≤ tx_Cost tx) l2 → sum_cost l1 ≤ sum_cost l2.
Proof.
  intros Hnd Hin Hpos. destruct (submseteq_Permutation l1 l2) as [k Hk]; [by apply NoDup_submseteq|].
  rewrite Hk in Hpos |- *. apply Forall_app in Hpos as [_ Hpos]. rewrite sum_cost_app.
  pose proof (sum_cost_pos k Hpos). lia.
Qed.

(** There is room in the list of an account for a transaction in no list. *)
Lemma inv_room E lim dropped c all pr rs b a tx :
  inv E (tx :: lim) dropped c all pr rs → Sender tx = Some a →
  let its := default ∅ (c b !! a) in
  its !! tx_Nonce tx = None ∧ word_cost tx ∧ 0 ≤ tx_Nonce tx < 2 ^ 64 ∧ sum_cost (txs_of its) + tx_Cost tx < 2 ^ 256.
Proof.
  intros Hinv Hsd its. destruct Hinv as [Hk Hne Hlk Hkn Hs Ho Hl Hnd Hu Hw Hc Hop Hr Hpr Hco Hch].
  assert (Hkt : known all tx) by (apply Hkn; right; left).
  assert (Hkey : ∀ n tx', its !! n = Some tx' → tx_Nonce tx' = n ∧ at_ c b a tx').
  { unfold its. intros n tx'. destruct (c b !! a) as [i|] eqn:Hi; cbn; [|by rewrite lookup_empty]. intros H.
    pose proof (Hk _ _ _ _ _ Hi H) as Hn. split; [done|]. exists i. by rewrite Hn. }
  assert (Hnot : tx ∉ txs_of its).
  { intros Hin%keyed_txs; [|by intros n tx' [? _]%Hkey]. apply Hkey in Hin as [_ Hin]. eapply (Hl tx); [left|done]. }
  assert (Hpos : Forall (λ tx, 0 ≤ tx_Cost tx) (txs_of (LK.lk_txs all))).
  { apply Forall_forall. intros tx' H%known_txs; [|done]. by apply Hw. }
  assert (Hsum : sum_cost (tx :: txs_of its) ≤ sum_cost (txs_of (LK.lk_txs all))).
  { apply sum_cost_sub; [|intros tx' [->|H]%elem_of_cons; apply known_txs; try done|done].
    - constructor; [done|]. apply (NoDup_fmap_1 tx_Nonce). rewrite keyed_nonces by (by intros n tx' [? _]%Hkey).
      apply NoDup_fst_map_to_list.
    - apply Hkn. left. apply keyed_txs in H; [|by intros n tx'' [? _]%Hkey]. apply Hkey in H as [_ H]. eauto. }
  assert (Hge : 0 ≤ sum_cost (txs_of its)).
  { apply sum_cost_pos, Forall_forall. intros tx' H%keyed_txs; [|by intros n tx'' [? _]%Hkey]. apply Hkey in H as [_ H].
    apply Hw, Hkn. eauto. }
  cbn in Hsum. fold (sum_cost (txs_of its)) in Hsum. destruct (Hw tx Hkt) as (_ & ? & ?). unfold word_cost.
  split_and!; try lia. destruct (its !! tx_Nonce tx) as [tx0|] eqn:Ht; [|done]. destruct (Hkey _ _ Ht) as [Hn Hat].
  assert (tx = tx0) as <- by (apply Hu; [done|apply Hkn; eauto|by rewrite (Hs _ _ _ Hat)|done]).
  destruct (Hl tx b a); [left|done].
Qed.

(** ** The price heaps *)

(** Heaps that still have every known transaction, and no other ones. *)
Lemma inv_heaps E lim dropped dropped' c all pr pr' rs :
  inv E lim dropped c all pr rs → PR.pl_ok EffectiveGasTip pr' →
  (∀ tx, known all tx → tx ∈ dropped ∨ tx ∈ PR.entries pr → tx ∈ dropped' ∨ tx ∈ PR.entries pr') →
  (∀ e, e ∈ dropped' ∨ e ∈ PR.entries pr' → (e ∈ dropped ∨ e ∈ PR.entries pr) ∨ known all e) →
  inv E lim dropped' c all pr' rs.
Proof.
  intros [Hk Hne Hlk Hkn Hs Ho Hl Hnd Hu Hw Hc Hop Hr Hpr Hco Hch] Hpr' H1 H2. split; try done; [naive_solver|].
  intros e [He|He]%H2; apply Hch; [done|by apply Hco].
Qed.
Lemma inv_reheap E lim dropped c all pr pr0 rs :
  inv E lim dropped c all pr rs → inv E lim dropped c all (PR.Reheap EffectiveGasTip all pr0) rs.
Proof.
  intros Hinv. destruct (PR.Reheap_spec EffectiveGasTip all pr0) as (H1 & H2 & _).
  assert (He : ∀ e, e ∈ PR.entries (PR.Reheap EffectiveGasTip all pr0) ↔ known all e).
  { intros e. rewrite H2. apply known_txs, Hinv. }
  eapply inv_heaps; [done..| |]; intros tx; rewrite He; tauto.
Qed.
Lemma inv_removed E lim dropped c all pr rs count :
  inv E lim dropped c all pr rs → inv E lim dropped c all (PR.Removed EffectiveGasTip all count pr) rs.
Proof.
  intros Hinv. unfold PR.Removed. case_match; [|by eapply inv_reheap].
  eapply inv_heaps; [done|apply Hinv|done|]. intros e ?. by left.
Qed.
(** A pool without transactions and reservations. *)
Lemma inv_nothing c pr rs :
  (∀ b, c b = ∅) → (∀ a, rs !! a ≠ Some self) → PR.pl_ok EffectiveGasTip pr → PR.entries pr ≡ₚ [] →
  inv ∅ [] [] c LK.newLookup pr rs.
Proof.
  intros Hc Hrs Hpr Hent.
  assert (Hat : ∀ b a tx, ¬ at_ c b a tx) by (intros b a tx (its & Hits & _); rewrite Hc in Hits; done).
  assert (Hk : ∀ tx, ¬ known LK.newLookup tx) by done.
  assert (He : ∀ e, e ∉ PR.entries pr) by (intros e; rewrite Hent; apply not_elem_of_nil).
  split; try done.
  - intros b a its n tx Hits. rewrite Hc in Hits. done.
  - intros b a its Hits. rewrite Hc in Hits. done.
  - apply LK.newLookup_ok.
  - intros tx. split; [by intros ?%Hk|]. intros [(b & a & ?%Hat)|?%elem_of_nil]; done.
  - intros b a tx ?%Hat. done.
  - intros b b' a tx ?%Hat. done.
  - constructor.
  - intros a _. split; [by intros ?%Hrs|]. intros [b [its Hits]]. rewrite Hc in Hits. done.
  - intros e [?%elem_of_nil|?%He]; done.
Qed.
Lemma known_live all tx h : known all tx → tx ∈ PR.live all h ↔ tx ∈ h.
Proof. intros H. unfold PR.live. rewrite list_elem_of_filter. unfold PR.stale, known in *. naive_solver. Qed.
Lemma inv_underpriced E lim dropped c all pr rs tx :
  inv E lim dropped c all pr rs →
  inv E lim dropped c all (PR.Underpriced EffectiveGasTip all tx pr).1 rs.
Proof.
  intros Hinv. pose proof (i_priced _ _ _ _ _ _ _ Hinv) as Hpr.
  pose proof (PR.Underpriced_exact EffectiveGasTip all tx pr Hpr) as H.
  pose proof (λ e, PR.Underpriced_sub EffectiveGasTip all tx pr e Hpr) as Hsub.
  destruct (PR.Underpriced _ _ _ _) as [pr' under]. destruct H as (_ & H1 & H2 & _). eapply inv_heaps; [done..| |]; cbn in *.
  - intros tx' Hkn [?|Hin]; [by left|right]. by rewrite <- known_live, H2, known_live.
  - intros e [?|?%Hsub]; tauto.
Qed.
(** The transactions [Discard] returns leave the heaps. *)
Lemma inv_discard E lim c all pr rs slots :
  inv E lim [] c all pr rs →
  let '(pr', (drop, _)) := PR.Discard EffectiveGasTip all slots pr in inv E lim drop c all pr' rs.
Proof.
  intros Hinv. pose proof (i_priced _ _ _ _ _ _ _ Hinv) as Hpr.
  pose proof (PR.Discard_spec EffectiveGasTip all slots pr Hpr) as H.
  pose proof (λ e, PR.Discard_sub EffectiveGasTip all slots pr e Hpr) as Hsub.
  destruct (PR.Discard _ _ _ _) as [pr' [drop ok]]. destruct H as (H1 & H2 & _). eapply inv_heaps; [done..| |].
  - intros tx' Hkn [?%elem_of_nil|Hin]; [done|].
    rewrite <- (known_live all), H2, elem_of_app, known_live in Hin by done. done.
  - intros e ?%Hsub. tauto.
Qed.
Lemma inv_put E lim dropped c all pr rs tx :
  inv E lim (tx :: dropped) c all pr rs → inv E lim dropped c all (PR.Put EffectiveGasTip tx pr) rs.
Proof.
  intros Hinv. destruct (PR.priced_put_spec EffectiveGasTip tx pr (i_priced _ _ _ _ _ _ _ Hinv)) as (H1 & H2 & _).
  eapply inv_heaps; [done..| |]; intros tx'; rewrite H2, !elem_of_cons; naive_solver.
Qed.
(** A dropped transaction that left the table needs no entry. *)
Lemma inv_gone E lim dropped c all pr rs tx :
  inv E lim (tx :: dropped) c all pr rs → ¬ known all tx → inv E lim dropped c all pr rs.
Proof.
  intros Hinv Hn. eapply inv_heaps; [done|apply Hinv| |]; intros tx'; rewrite elem_of_cons; naive_solver.
Qed.
(** ** Replacing and reserving *)

(** A transaction takes the place of another one of its account. *)
Lemma inv_replace E lim dropped c all pr rs b a its old tx :
  inv E lim dropped c all pr rs → c b !! a = Some its → its !! tx_Nonce tx = Some old → a ∈ E → Sender tx = Some a →
  LK.Get (tx_Hash tx) all = None → 0 ≤ tx_Cost tx → 0 ≤ tx_Nonce tx < 2 ^ 64 →
  sum_cost (txs_of (LK.lk_txs all)) + tx_Cost tx < 2 ^ 256 →
  U tx →
  let all1 := LK.Remove (tx_Hash old) all in
  inv E lim dropped (upd b a (<[tx_Nonce tx := tx]> its) c) (LK.Add tx all1)
    (PR.Put EffectiveGasTip tx (PR.Removed EffectiveGasTip all1 1 pr)) rs.
Proof.
  intros Hinv Hits Hold Ha Hsd Hnew Hcost Hnon Hsum Hcoll all1.
  pose proof (i_keyed _ _ _ _ _ _ _ Hinv _ _ _ _ _ Hits Hold) as Hn.
  assert (Hat : at_ c b a old) by (exists its; by rewrite Hn).
  pose proof (i_sender _ _ _ _ _ _ _ Hinv _ _ _ Hat) as Hso.
  assert (Hko : known all old) by (apply (i_known _ _ _ _ _ _ _ Hinv); eauto).
  assert (Hnew1 : LK.Get (tx_Hash tx) all1 = None).
  { unfold all1, LK.Remove. destruct (LK.lk_txs all !! tx_Hash old); [|done]. apply lookup_delete_None. by right. }
  assert (Hfree : ∀ tx', known all1 tx' → Sender tx' = Sender tx → tx_Nonce tx' ≠ tx_Nonce tx).
  { intros tx' [Hk' Hne]%known_remove Hsd' Hn'. apply Hne. f_equal.
    apply (i_unique _ _ _ _ _ _ _ Hinv); [done|done|congruence|congruence]. }
  assert (Hsum1 : sum_cost (txs_of (LK.lk_txs all1)) ≤ sum_cost (txs_of (LK.lk_txs all))).
  { unfold all1, LK.Remove. unfold known, LK.Get in Hko. rewrite Hko. cbn. rewrite (txs_of_delete (LK.lk_txs all) _ _ Hko). cbn.
    fold (sum_cost (txs_of (delete (tx_Hash old) (LK.lk_txs all)))). destruct (i_wf _ _ _ _ _ _ _ Hinv old Hko) as (_ & ? & _). lia. }
  assert (H1 : inv E (old :: lim) dropped (upd b a (delete (tx_Nonce tx) its) c) all pr rs).
  { apply (inv_take E lim dropped c all pr rs b a its _ [old]); [done..|apply delete_subseteq|]. by apply txs_of_delete. }
  apply inv_forget, (inv_removed _ _ _ _ _ _ _ 1) in H1. fold all1 in H1.
  apply (inv_new _ _ _ _ _ _ _ tx) in H1; [|done|done|by eexists|done|done|lia|done].
  apply (inv_place _ _ _ _ _ _ _ b a) in H1; [|done..]. eapply inv_ext; [|exact H1]. intros b'.
  unfold upd. destruct (Bool.eqb_spec b' b) as [->|]; [|done]. rewrite Bool.eqb_reflx, lookup_insert_eq. cbn.
  by rewrite insert_insert_eq, insert_delete_eq.
Qed.

(** An account without lists is reserved. *)
Lemma inv_hold E lim dropped c all pr rs a :
  inv E lim dropped c all pr rs → inv ({[a]} ∪ E) lim dropped c all pr (<[a := self]> rs).
Proof.
  intros [Hk Hne Hlk Hkn Hs Ho Hl Hnd Hu Hw Hc Hop Hr Hpr Hco Hch]. split; try done.
  - intros b a' its H Hn. apply (Hne b a' its H). set_solver.
  - intros a' Ha'. destruct (decide (a' = a)) as [->|]; [by rewrite lookup_insert_eq|]. rewrite lookup_insert_ne by done.
    apply Hop. set_solver.
  - intros a' Ha'. rewrite lookup_insert_ne by set_solver. apply Hr. set_solver.
Qed.

(** The cost of some known transactions. *)
Lemma inv_sub_cost E lim dropped c all pr rs txs :
  inv E lim dropped c all pr rs → NoDup txs → (∀ tx, tx ∈ txs → known all tx) →
  sum_cost txs ≤ sum_cost (txs_of (LK.lk_txs all)).
Proof.
  intros Hinv Hnd Hin. pose proof (i_lookup _ _ _ _ _ _ _ Hinv) as Hlk. apply sum_cost_sub; [done|..].
  - intros tx H%Hin. by apply known_txs.
  - apply Forall_forall. intros tx H%known_txs; [|done]. by apply (i_wf _ _ _ _ _ _ _ Hinv).
Qed.
Lemma inv_list_cost E lim dropped c all pr rs b a its :
  inv E lim dropped c all pr rs → c b !! a = Some its → sum_cost (txs_of its) ≤ sum_cost (txs_of (LK.lk_txs all)).
Proof.
  intros Hinv Hits. pose proof (i_keyed _ _ _ _ _ _ _ Hinv b a its) as Hk. eapply inv_sub_cost; [done|..].
  - apply (NoDup_fmap_1 tx_Nonce). rewrite keyed_nonces by eauto. apply NoDup_fst_map_to_list.
  - intros tx H%keyed_txs; [|eauto]. apply (i_known _ _ _ _ _ _ _ Hinv). left. exists b, a, its. done.
Qed.
End Inv.
End PI.
