(* ===== verification/LegacyPoolInv.v ===== *)
(** The invariant of the transaction pool and the operations that keep it:
    every transaction of the table is in exactly one list, at its nonce in the
    list of its sender, the lists are well formed and not empty, the accounts with
    lists are exactly those the pool has reserved, and the price heaps have every
    transaction of the table. *)
From S2P Require Import Prelude GoStd AccessList Sdk Heap TxList PoolList Reserver TxLookup PricedList TxStore PoolValidation LegacyPool LegacyPoolReorg PoolInv.

Module LI.
Import SM TL PV LP RO PI.

(** Postconditions of runs that return. *)
Definition ok_with {S E A} (Q : A → S → Prop) : S → res E A → Prop := λ s r,
  match r with Ok a => Q a s | _ => False end.

Section Wp.
Context {S E : Type}.
Implicit Types s : S.
Lemma wp_ok_bind {A B} (m : M S E A) (k : A → M S E B) Q s :
  wp m (ok_with (λ a s', wp (k a) Q s')) s → wp (m ≫= k) Q s.
Proof. intros H. apply wp_bind. eapply wp_mono; [done|]. by intros s' [a|e|p]. Qed.
Lemma wp_ok_mono {A} (m : M S E A) (Q Q' : A → S → Prop) s :
  wp m (ok_with Q) s → (∀ a s', Q a s' → Q' a s') → wp m (ok_with Q') s.
Proof. intros H HQ. eapply wp_mono; [done|]. intros s' [a|e|p]; [apply HQ|done..]. Qed.
(** A loop with an invariant on what is left of the list. *)
Lemma wp_for_each {X} (xs : list X) (body : X → M S E unit) (I : list X → S → Prop) s :
  (∀ x rest s, I (x :: rest) s → wp (body x) (ok_with (λ _, I rest)) s) → I xs s →
  wp (for_each xs body) (ok_with (λ _, I [])) s.
Proof.
  intros Hbody. revert s. induction xs as [|x xs IH]; intros s Hs; cbn [for_each]; [by apply wp_ret|].
  apply wp_ok_bind. eapply wp_ok_mono; [by apply Hbody|]. intros [] s' H. by apply IH.
Qed.
(** A run that returns, from its specification. *)
Lemma wp_ok_run {A} (m : M S E A) (Q : A → S → Prop) s :
  wp m (ok_with Q) s → ∃ s' a, m s = (s', Ok a) ∧ Q a s'.
Proof. intros H. destruct (m s) as [s' r] eqn:Hm. apply (wp_run _ _ _ _ _ H) in Hm. destruct r; [by eexists _, _|done..]. Qed.
End Wp.

(** The accounts a loop over a map of lists visits. *)
Lemma range_mem `{HPR : PoolRange} `{HPRL : !PoolRangeLaws} (m : gmap Address txlist) a : a ∈ pool_range m ↔ is_Some (m !! a).
Proof.
  rewrite pool_range_perm, list_elem_of_fmap. split.
  - intros ([a' l] & -> & Hin%elem_of_map_to_list). by exists l.
  - intros [l Hl%elem_of_map_to_list]. by exists (a, l).
Qed.
Lemma range_nodup `{HPR : PoolRange} `{HPRL : !PoolRangeLaws} (m : gmap Address txlist) : NoDup (pool_range m).
Proof. rewrite pool_range_perm. apply NoDup_fst_map_to_list. Qed.

Definition items (l : txlist) : gmap Z Transaction := sm_items (l_txs l).
(** The contents of a pair of maps of lists. *)
Definition content (pend que : gmap Address txlist) : contents := λ b, items <$> (if b then pend else que).
Definition lists_ok (pend que : gmap Address txlist) : Prop :=
  ∀ (b : bool) a l, (if b then pend else que) !! a = Some l → list_ok l ∧ l_strict l = b.

Lemma content_lookup pend que b a : content pend que b !! a = items <$> (if b then pend else que) !! a.
Proof. unfold content. apply lookup_fmap. Qed.
Lemma content_pend pend que a l b : content (<[a := l]> pend) que b = upd true a (items l) (content pend que) b.
Proof. unfold content, upd. destruct b; cbn; [apply fmap_insert|done]. Qed.
Lemma content_que pend que a l b : content pend (<[a := l]> que) b = upd false a (items l) (content pend que) b.
Proof. unfold content, upd. destruct b; cbn; [done|apply fmap_insert]. Qed.
Lemma content_del_pend pend que a b : content (delete a pend) que b = del true a (content pend que) b.
Proof. unfold content, del. destruct b; cbn; [apply fmap_delete|done]. Qed.
Lemma content_del_que pend que a b : content pend (delete a que) b = del false a (content pend que) b.
Proof. unfold content, del. destruct b; cbn; [done|apply fmap_delete]. Qed.

Lemma lists_ok_pend pend que a l : lists_ok pend que → list_ok l → l_strict l = true → lists_ok (<[a := l]> pend) que.
Proof. intros H Hl Hs [] a' l'; [|by apply (H false)]. intros [[<- <-]|[_ H']]%lookup_insert_Some; [done|by apply (H true) in H']. Qed.
Lemma lists_ok_que pend que a l : lists_ok pend que → list_ok l → l_strict l = false → lists_ok pend (<[a := l]> que).
Proof. intros H Hl Hs [] a' l'; [by apply (H true)|]. intros [[<- <-]|[_ H']]%lookup_insert_Some; [done|by apply (H false) in H']. Qed.
Lemma lists_ok_del_pend pend que a : lists_ok pend que → lists_ok (delete a pend) que.
Proof. intros H [] a' l'; [|by apply (H false)]. intros [_ H']%lookup_delete_Some. by apply (H true) in H'. Qed.
Lemma lists_ok_del_que pend que a : lists_ok pend que → lists_ok pend (delete a que).
Proof. intros H [] a' l'; [by apply (H true)|]. intros [_ H']%lookup_delete_Some. by apply (H false) in H'. Qed.

Section PoolInv.
Context `{HR : MapRange} `{HRL : !MapRangeLaws} `{HPR : PoolRange} `{HPRL : !PoolRangeLaws} `{HC : TxChecks} `{RC : Rechecker}.
Context (EffectiveGasTip : Z → Transaction → Z) (Sender : Transaction → option Address).
Context (config : Config) (self : Z) (U : Transaction → Prop).
Implicit Types p : LegacyPool.
Abbreviation inv := (inv EffectiveGasTip Sender self U).
Abbreviation sender := (sender Sender).
Abbreviation enqueueTx := (enqueueTx EffectiveGasTip Sender config).
Abbreviation promoteTx := (promoteTx EffectiveGasTip config).
Abbreviation removeTx := (removeTx EffectiveGasTip Sender config self).
Abbreviation remove_listed := (remove_listed EffectiveGasTip Sender config).
Abbreviation priced_removed := (priced_removed EffectiveGasTip).

(** Balances stay far below 2^256, the words of the lists. *)
Definition words (st : ChainState) : Prop := ∀ a, st_GetBalance st a < 2 ^ 192.
Lemma words_word st a : words st → st_GetBalance st a < 2 ^ 256.
Proof. intros H. specialize (H a). lia. Qed.

(** The invariant while the accounts [E] are worked on, with the transactions
    [lim] in no list and [dropped] in no heap. *)
Definition pool_inv (E : gset Address) (lim dropped : Transactions) p : Prop :=
  lists_ok (p_pending p) (p_queue p) ∧ words (p_state p) ∧
  inv E lim dropped (content (p_pending p) (p_queue p)) (p_all p) (p_priced p) (p_reserved p).
Abbreviation pool_ok := (pool_inv ∅ [] []).

#[local] Arguments markTxRemoved : simpl never.
#[local] Arguments LK.Remove : simpl never.
#[local] Arguments PR.Removed : simpl never.

(** ** Lists *)

(** A list that lost transactions. *)
Lemma inv_take_pend E lim dropped pend que all pr rs a l l' removed :
  lists_ok pend que → inv E lim dropped (content pend que) all pr rs → pend !! a = Some l → a ∈ E →
  list_ok l' → l_strict l' = l_strict l → items l' ⊆ items l → txs_of (items l) ≡ₚ removed ++ txs_of (items l') →
  lists_ok (<[a := l']> pend) que ∧ inv E (removed ++ lim) dropped (content (<[a := l']> pend) que) all pr rs.
Proof.
  intros Hls Hinv Hl Ha Hok Hs Hsub Hp. destruct (Hls true a l Hl) as [_ Hst]. split.
  - apply lists_ok_pend; [done..|congruence].
  - eapply inv_ext; [apply content_pend|]. eapply inv_take; [done|by rewrite content_lookup, Hl|done..].
Qed.
Lemma inv_take_que E lim dropped pend que all pr rs a l l' removed :
  lists_ok pend que → inv E lim dropped (content pend que) all pr rs → que !! a = Some l → a ∈ E →
  list_ok l' → l_strict l' = l_strict l → items l' ⊆ items l → txs_of (items l) ≡ₚ removed ++ txs_of (items l') →
  lists_ok pend (<[a := l']> que) ∧ inv E (removed ++ lim) dropped (content pend (<[a := l']> que)) all pr rs.
Proof.
  intros Hls Hinv Hl Ha Hok Hs Hsub Hp. destruct (Hls false a l Hl) as [_ Hst]. split.
  - apply lists_ok_que; [done..|congruence].
  - eapply inv_ext; [apply content_que|]. eapply inv_take; [done|by rewrite content_lookup, Hl|done..].
Qed.

Lemma wp_at_pending {A} a (op : L A) l l' r Q p :
  p_pending p !! a = Some l → op l = (l', Ok r) → Q (set_pending (<[a := l']> (p_pending p)) p) (Ok r) →
  wp (at_pending a op) Q p.
Proof. intros Hl Hop HQ. apply wp_intro. intros p' r'. unfold at_pending. rewrite Hl, Hop. by intros [= <- <-]. Qed.
Lemma wp_at_queue {A} a (op : L A) l l' r Q p :
  p_queue p !! a = Some l → op l = (l', Ok r) → Q (set_queue (<[a := l']> (p_queue p)) p) (Ok r) →
  wp (at_queue a op) Q p.
Proof. intros Hl Hop HQ. apply wp_intro. intros p' r'. unfold at_queue. rewrite Hl, Hop. by intros [= <- <-]. Qed.

(** A removal from a list of an account that is worked on. *)
Lemma wp_take_pending {A} E lim dropped a (op : L A) l r removed l' p :
  pool_inv E lim dropped p → p_pending p !! a = Some l → a ∈ E → removes op l r removed l' →
  wp (at_pending a op) (ok_with (λ r' p', r' = r ∧ pool_inv E (removed ++ lim) dropped p' ∧
    p_pending p' = <[a := l']> (p_pending p) ∧ p_queue p' = p_queue p)) p.
Proof.
  intros (Hls & Hw & Hinv) Hl Ha (Hrun & Hok & Hs & Hsub & Hp). eapply wp_at_pending; [done..|]. cbn.
  destruct (inv_take_pend _ _ _ _ _ _ _ _ _ _ _ _ Hls Hinv Hl Ha Hok Hs Hsub Hp) as [H1 H2]. done.
Qed.
Lemma wp_take_queue {A} E lim dropped a (op : L A) l r removed l' p :
  pool_inv E lim dropped p → p_queue p !! a = Some l → a ∈ E → removes op l r removed l' →
  wp (at_queue a op) (ok_with (λ r' p', r' = r ∧ pool_inv E (removed ++ lim) dropped p' ∧
    p_queue p' = <[a := l']> (p_queue p) ∧ p_pending p' = p_pending p)) p.
Proof.
  intros (Hls & Hw & Hinv) Hl Ha (Hrun & Hok & Hs & Hsub & Hp). eapply wp_at_queue; [done..|]. cbn.
  destruct (inv_take_que _ _ _ _ _ _ _ _ _ _ _ _ Hls Hinv Hl Ha Hok Hs Hsub Hp) as [H1 H2]. done.
Qed.

(** [Flatten] only fills the cache of a list. *)
Lemma Flatten_removes l : list_ok l →
  ∃ l', removes Flatten l (sorted_txs (items l)) [] l' ∧ items l' = items l.
Proof.
  intros [Hok Ha]. destruct (flatten_spec (l_txs l) Hok) as (H1 & H2 & _ & H3).
  exists (set_txs (flatten (l_txs l)).1 l). unfold items. cbn. split; [|done].
  split_and!; [|split; [done|]|done|by rewrite <- H2|by rewrite <- H2].
  - unfold Flatten, SM.Flatten, on_txs. rewrite <- H3. by destruct (flatten (l_txs l)).
  - destruct Ha. split; cbn; rewrite ?H2; done.
Qed.

(** ** Steps that keep the lists *)

(** Reporting a removal changes nothing the invariant reads. *)
Lemma wp_markTxRemoved E lim dropped a tx pool p :
  pool_inv E lim dropped p →
  wp (markTxRemoved a tx pool) (ok_with (λ _ p', pool_inv E lim dropped p' ∧ p_pending p' = p_pending p ∧
    p_queue p' = p_queue p ∧ p_all p' = p_all p)) p.
Proof. intros H. unfold markTxRemoved, valid_do, notice. destruct pool; wp_steps; done. Qed.

Lemma wp_priced_removed E lim dropped n p :
  pool_inv E lim dropped p →
  wp (priced_removed n) (ok_with (λ _ p', pool_inv E lim dropped p' ∧ p_pending p' = p_pending p ∧
    p_queue p' = p_queue p ∧ p_all p' = p_all p)) p.
Proof.
  intros (Hls & Hw & Hinv). unfold LP.priced_removed. wp_steps. split_and!; try done. split_and!; try done. cbn.
  by apply inv_removed.
Qed.

(** Transactions in no list leave the table. *)
Lemma wp_discard E lim dropped a pool txs p :
  pool_inv E (txs ++ lim) dropped p →
  wp (discard a pool txs) (ok_with (λ _ p', pool_inv E lim dropped p' ∧ p_pending p' = p_pending p ∧
    p_queue p' = p_queue p)) p.
Proof.
  intros Hinv. apply (wp_for_each txs _ (λ rest p', pool_inv E (rest ++ lim) dropped p' ∧
    p_pending p' = p_pending p ∧ p_queue p' = p_queue p)); [|done].
  intros tx rest p1 ((Hls & Hw & Hi) & H1 & H2). unfold all_remove. apply wp_ok_bind. wp_step. cbn.
  eapply wp_ok_mono; [apply (wp_markTxRemoved E (rest ++ lim) dropped)|].
  - split_and!; [done..|]. cbn. by apply inv_forget.
  - cbn. intros [] p' (? & Hp & Hq & _). rewrite Hp, Hq. done.
Qed.
(** ** Entering a list *)

(** [TL.Add] takes a transaction that is in no list. *)
Lemma Add_free tx l :
  list_ok l → items l !! tx_Nonce tx = None → word_cost tx → 0 ≤ tx_Nonce tx < 2 ^ 64 →
  sum_cost (txs_of (items l)) + tx_Cost tx < 2 ^ 256 →
  ∃ l', TL.Add tx (PriceBump config) l = (l', Ok (true, None)) ∧ list_ok l' ∧ l_strict l' = l_strict l ∧
    items l' = <[tx_Nonce tx := tx]> (items l).
Proof.
  intros Hl Hn Hw Hu Hsum. unfold items in *. destruct (Add_run tx (PriceBump config) l Hl Hw Hu) as (l' & H1 & H2 & H3 & H4).
  - unfold old_cost. rewrite Hn, (ac_total _ (proj2 Hl)). cbn. lia.
  - rewrite Hn. done.
  - exists l'. by rewrite <- Hn.
Qed.
Lemma sender_known tx a : Sender tx = Some a → sender tx = a.
Proof. unfold LP.sender. by intros ->. Qed.

Lemma newList_items b : items (newList b) = ∅.
Proof. done. Qed.

(** The table and the heaps with a transaction that is new to them. *)
Definition with_new (addAll : bool) (tx : Transaction) (all : LK.lookup_) := if addAll then LK.Add tx all else all.
Definition with_price (addAll : bool) (tx : Transaction) (pr : PR.pricedList) :=
  if addAll then PR.Put EffectiveGasTip tx pr else pr.

(** Queueing a transaction that is in no list; with [addAll] it is new. *)
Lemma wp_enqueue E lim dropped h tx a (addAll : bool) p :
  lists_ok (p_pending p) (p_queue p) → words (p_state p) →
  inv E (tx :: lim) dropped (content (p_pending p) (p_queue p)) (with_new addAll tx (p_all p))
    (with_price addAll tx (p_priced p)) (p_reserved p) →
  Sender tx = Some a → a ∈ E →
  wp (enqueueTx h tx addAll) (ok_with (λ r p', r = false ∧ pool_inv E lim dropped p' ∧ p_pending p' = p_pending p ∧
    p_all p' = with_new addAll tx (p_all p) ∧
    ∃ l, p_queue p' = <[a := l]> (p_queue p) ∧
      items l = <[tx_Nonce tx := tx]> (default ∅ (items <$> p_queue p !! a)))) p.
Proof.
  intros Hls Hw Hinv Hsd Ha. unfold LP.enqueueTx. rewrite (sender_known tx a Hsd).
  set (l0 := default (newList false) (p_queue p !! a)).
  assert (Hl0 : list_ok l0 ∧ l_strict l0 = false).
  { unfold l0. destruct (p_queue p !! a) as [l|] eqn:Hl; [by apply (Hls false a)|]. split; [apply newList_ok|done]. }
  assert (Hi0 : default ∅ (items <$> p_queue p !! a) = items l0) by (unfold l0; by destruct (p_queue p !! a)).
  destruct (inv_room _ _ _ _ _ _ _ _ _ _ _ false a tx Hinv Hsd) as (Hfree & Hwc & Hu64 & Hsum).
  rewrite content_lookup, Hi0 in Hfree, Hsum.
  destruct (Add_free tx l0 (proj1 Hl0) Hfree Hwc Hu64 Hsum) as (l' & Hadd & Hok' & Hst' & Hit').
  apply wp_ok_bind. wp_step. cbn.
  apply wp_ok_bind. apply (wp_mono _ (ok_with (λ _ p1, p1 = set_queue (<[a := l0]> (p_queue p)) p))).
  { unfold l0. case_bool_decide as Hd; [destruct Hd as [l Hl]|apply eq_None_not_Some in Hd]; wp_steps;
      [rewrite Hl; cbn; rewrite insert_id by done; by destruct p|by rewrite Hd]. }
  intros p1 [[]|e|s]; [|done..]. cbn. intros ->. apply wp_ok_bind.
  eapply wp_at_queue; [cbn; apply lookup_insert_eq|exact Hadd|]. cbn. apply wp_ok_bind. wp_step. apply wp_ok_bind.
  set (p2 := set_queue _ _). apply (wp_mono _ (ok_with (λ _ p3, p_pending p3 = p_pending p ∧ p_queue p3 = <[a := l']> (p_queue p) ∧
    p_state p3 = p_state p ∧ p_reserved p3 = p_reserved p ∧ p_all p3 = with_new addAll tx (p_all p) ∧
    p_priced p3 = with_price addAll tx (p_priced p)))).
  { unfold p2, all_add, priced_put. destruct addAll; wp_steps; cbn; by rewrite insert_insert_eq. }
  intros p3 [[]|e|s]; [|done..]. cbn. intros (H1 & H2 & H3 & H4 & H5 & H6). unfold beat, markTxEnqueued, notice.
  assert (Hfin : pool_inv E lim dropped p3).
  { unfold pool_inv. rewrite H1, H2, H3, H4, H5, H6. split_and!; [apply lists_ok_que; [done..|by rewrite Hst'; apply Hl0]|done|].
    eapply inv_ext; [apply content_que|]. rewrite Hit', <- Hi0, <- (content_lookup (p_pending p) (p_queue p) false).
    by eapply (inv_place EffectiveGasTip Sender self U E lim dropped _ _ _ _ false). }
  rewrite Hi0, <- Hit'. wp_steps; split_and!; try done; by exists l'.
Qed.
(** Promoting a transaction that is in no list. *)
Lemma wp_promote E lim dropped h tx a p :
  pool_inv E (tx :: lim) dropped p → Sender tx = Some a → a ∈ E →
  wp (promoteTx a h tx) (ok_with (λ r p', r = true ∧ pool_inv E lim dropped p' ∧ p_queue p' = p_queue p ∧
    ∃ l, p_pending p' = <[a := l]> (p_pending p) ∧ items l ≠ ∅)) p.
Proof.
  intros (Hls & Hw & Hinv) Hsd Ha. unfold LP.promoteTx.
  set (l0 := default (newList true) (p_pending p !! a)).
  assert (Hl0 : list_ok l0 ∧ l_strict l0 = true).
  { unfold l0. destruct (p_pending p !! a) as [l|] eqn:Hl; [by apply (Hls true a)|]. split; [apply newList_ok|done]. }
  assert (Hi0 : default ∅ (items <$> p_pending p !! a) = items l0) by (unfold l0; by destruct (p_pending p !! a)).
  destruct (inv_room _ _ _ _ _ _ _ _ _ _ _ true a tx Hinv Hsd) as (Hfree & Hwc & Hu64 & Hsum).
  rewrite content_lookup, Hi0 in Hfree, Hsum.
  destruct (Add_free tx l0 (proj1 Hl0) Hfree Hwc Hu64 Hsum) as (l' & Hadd & Hok' & Hst' & Hit').
  apply wp_ok_bind. wp_step. cbn.
  apply wp_ok_bind. apply (wp_mono _ (ok_with (λ _ p1, p1 = set_pending (<[a := l0]> (p_pending p)) p))).
  { unfold l0. case_bool_decide as Hd; [destruct Hd as [l Hl]|apply eq_None_not_Some in Hd]; wp_steps;
      [rewrite Hl; cbn; rewrite insert_id by done; by destruct p|by rewrite Hd]. }
  intros p1 [[]|e|s]; [|done..]. cbn. intros ->. apply wp_ok_bind.
  eapply wp_at_pending; [cbn; apply lookup_insert_eq|exact Hadd|]. cbn. unfold nonce_set, beat, markTxPromoted, valid_do, notice.
  wp_steps. split_and!; [done| |done|exists l'; split; [by rewrite insert_insert_eq|rewrite Hit'; apply insert_non_empty]].
  unfold pool_inv. cbn. rewrite insert_insert_eq.
  split_and!; [apply lists_ok_pend; [done..|by rewrite Hst'; apply Hl0]|done|].
  eapply inv_ext; [apply content_pend|]. rewrite Hit', <- Hi0, <- (content_lookup (p_pending p) (p_queue p) true).
  by eapply (inv_place EffectiveGasTip Sender self U E lim dropped _ _ _ _ true).
Qed.

Lemma wp_ignore {A} (m : M LegacyPool PoolError A) Q p :
  wp m (ok_with Q) p → wp (ignore m) (ok_with (λ _ p', ∃ a, Q a p')) p.
Proof.
  intros (p' & a & Hm & HQ)%wp_ok_run. apply wp_intro. intros s r. unfold ignore. rewrite Hm. intros [= <- <-]. by exists a.
Qed.

(** Moving transactions of an account back to its queue. *)
Lemma wp_demote E lim dropped a txs p :
  pool_inv E (txs ++ lim) dropped p → Forall (λ tx, Sender tx = Some a) txs → a ∈ E →
  wp (demote EffectiveGasTip Sender config txs) (ok_with (λ _ p', pool_inv E lim dropped p' ∧ p_pending p' = p_pending p ∧
    p_all p' = p_all p ∧ (∀ a', a' ≠ a → p_queue p' !! a' = p_queue p !! a') ∧
    (is_Some (p_queue p !! a) → is_Some (p_queue p' !! a)) ∧
    (∀ l, p_queue p' !! a = Some l → p_queue p !! a = Some l ∨ items l ≠ ∅))) p.
Proof.
  intros Hinv Hsd Ha. unfold demote.
  set (I rest p' := pool_inv E (rest ++ lim) dropped p' ∧ Forall (λ tx, Sender tx = Some a) rest ∧
    p_pending p' = p_pending p ∧ p_all p' = p_all p ∧ (∀ a', a' ≠ a → p_queue p' !! a' = p_queue p !! a') ∧
    (is_Some (p_queue p !! a) → is_Some (p_queue p' !! a)) ∧
    (∀ l, p_queue p' !! a = Some l → p_queue p !! a = Some l ∨ items l ≠ ∅)).
  eapply wp_ok_mono; [apply (wp_for_each txs _ I); [|split_and!; by auto]|by intros [] p' (? & _ & ?)].
  intros tx rest p1 ((Hls & Hw & Hi) & [Htx Hrest]%Forall_cons & Hp & Hall & Hq & Hs & _).
  eapply wp_ok_mono; [apply wp_ignore, (wp_enqueue E (rest ++ lim) dropped _ tx a false); done|].
  cbn. intros [] p' (r & _ & Hinv' & Hp' & Hall' & l & Hq' & Hit). split_and!; try done; try congruence.
  - intros a' Hne. rewrite Hq', lookup_insert_ne by done. by apply Hq.
  - intros _. rewrite Hq', lookup_insert_eq. done.
  - intros l'. rewrite Hq', lookup_insert_eq. intros [= <-]. right. rewrite Hit. apply insert_non_empty.
Qed.

(** ** Removing *)

(** What [Release] of one address does. *)
Lemma release_one (rs : RV.ReservationTracker) a :
  rs !! a = Some self → fst (RV.Release self [a] rs) = delete a rs.
Proof. intros H. rewrite RV.Release_cons, H, Z.eqb_refl. done. Qed.

(** Stop working on an account whose empty lists are gone. *)
Lemma close_account E lim dropped p a :
  pool_inv E lim dropped p → a ∈ E → (∀ (b : bool) l, (if b then p_pending p else p_queue p) !! a = Some l → items l ≠ ∅) →
  pool_inv (E ∖ {[a]}) lim dropped
    (if bool_decide (p_pending p !! a = None ∧ p_queue p !! a = None)
     then set_reserved (fst (RV.Release self [a] (p_reserved p))) p else p).
Proof.
  intros (Hls & Hw & Hinv) Ha Hne. pose proof (i_open _ _ _ _ _ _ _ _ _ _ _ Hinv a Ha) as Hres.
  assert (Hce : ∀ b its, content (p_pending p) (p_queue p) b !! a = Some its → its ≠ ∅).
  { intros b its. rewrite content_lookup. intros (l & Hl & ->)%fmap_Some. by eapply Hne. }
  assert (Htr : (∃ b, is_Some (content (p_pending p) (p_queue p) b !! a)) ↔ ¬ (p_pending p !! a = None ∧ p_queue p !! a = None)).
  { setoid_rewrite content_lookup. setoid_rewrite fmap_is_Some. split.
    - intros [[] [l Hl]] [H1 H2]; congruence.
    - intros Hn. destruct (p_pending p !! a) as [l|] eqn:H1; [exists true; by rewrite H1|].
      destruct (p_queue p !! a) as [l|] eqn:H2; [exists false; by rewrite H2|]. by destruct Hn. }
  rewrite release_one by done. case_bool_decide as Hd; (split_and!; [done..|]); cbn; eapply inv_close; try done.
  - intros a' Hne'. by rewrite lookup_delete_ne.
  - rewrite lookup_delete_eq, Htr. split; [done|tauto].
  - rewrite Htr. tauto.
Qed.

Lemma wp_release_if_gone E lim dropped p a :
  pool_inv E lim dropped p → a ∈ E → (∀ (b : bool) l, (if b then p_pending p else p_queue p) !! a = Some l → items l ≠ ∅) →
  wp (release_if_gone self a) (ok_with (λ _ p', pool_inv (E ∖ {[a]}) lim dropped p' ∧ p_pending p' = p_pending p ∧
    p_queue p' = p_queue p ∧ p_all p' = p_all p)) p.
Proof.
  intros Hinv Ha Hne. pose proof (close_account E lim dropped p a Hinv Ha Hne) as Hc.
  unfold release_if_gone, release. apply wp_ok_bind. wp_step. cbn. case_bool_decide; unfold when; wp_steps; done.
Qed.
(** A list of a transaction is not empty. *)
Lemma len_empty (m : gmap Address txlist) a l : m !! a = Some l → (list_len m a =? 0)%nat = bool_decide (items l = ∅).
Proof.
  intros Hl. unfold list_len, Len, SM.Len. rewrite Hl. fold (items l). case_bool_decide as Hd.
  - rewrite Hd. by rewrite map_size_empty.
  - apply Nat.eqb_neq. by rewrite map_size_empty_iff.
Qed.

(** Deleting an empty pending list. *)
Lemma pool_inv_del_pend E lim dropped a l p :
  pool_inv E lim dropped p → p_pending p !! a = Some l → items l = ∅ → a ∈ E →
  pool_inv E lim dropped (set_pending (delete a (p_pending p)) p).
Proof.
  intros (Hls & Hw & Hinv) Hl Hd Ha. split_and!; [by apply lists_ok_del_pend|done|]. cbn.
  eapply inv_ext; [apply content_del_pend|]. apply inv_delete; [done| |done]. by rewrite content_lookup, Hl; cbn; rewrite Hd.
Qed.

Lemma wp_drop_empty_pending E lim dropped a p :
  pool_inv E lim dropped p → is_Some (p_pending p !! a) → a ∈ E →
  wp (drop_empty_pending a) (ok_with (λ _ p', pool_inv E lim dropped p' ∧ p_queue p' = p_queue p ∧ p_all p' = p_all p ∧
    (∀ a', a' ≠ a → p_pending p' !! a' = p_pending p !! a') ∧ (∀ l, p_pending p' !! a = Some l → items l ≠ ∅))) p.
Proof.
  intros Hinv [l Hl] Ha. unfold drop_empty_pending. apply wp_ok_bind. wp_step. cbn. rewrite (len_empty _ _ _ Hl).
  unfold when. case_bool_decide as Hd; wp_steps.
  - split_and!; [by eapply pool_inv_del_pend|done|done|intros a' Hne; by rewrite lookup_delete_ne|by rewrite lookup_delete_eq].
  - split_and!; [done..|]. intros l'. rewrite Hl. by intros [= <-].
Qed.

(** Deleting an empty queue. *)
Lemma pool_inv_del_que E lim dropped a l p :
  pool_inv E lim dropped p → p_queue p !! a = Some l → items l = ∅ → a ∈ E →
  pool_inv E lim dropped (set_beats (delete a (p_beats p)) (set_queue (delete a (p_queue p)) p)).
Proof.
  intros (Hls & Hw & Hinv) Hl Hd Ha. split_and!; [by apply lists_ok_del_que|done|]. cbn.
  eapply inv_ext; [apply content_del_que|]. apply inv_delete; [done| |done]. by rewrite content_lookup, Hl; cbn; rewrite Hd.
Qed.

(** Removing from a queue only takes the transaction. *)
Lemma Remove_queued tx l :
  list_ok l → l_strict l = false → items l !! tx_Nonce tx = Some tx →
  ∃ l', removes (TL.Remove tx) l (true, []) [tx] l' ∧ items l' = delete (tx_Nonce tx) (items l).
Proof.
  intros Hok Hs Htx. destruct (Remove_run tx l Hok Htx) as (l' & invalids & Hr & Hi).
  assert (Hit : items l' = delete (tx_Nonce tx) (items l)).
  { apply map_eq. intros n. apply option_eq. intros tx'. unfold items. rewrite Hi, lookup_delete_Some.
    rewrite Hs. naive_solver. }
  exists l'. split; [|done]. assert (invalids = []) as ->; [|done]. destruct Hr as (_ & _ & _ & _ & Hp).
  fold (items l) in Hp. fold (items l') in Hp. rewrite Hit, (txs_of_delete (items l) _ _ Htx) in Hp.
  apply Permutation_length in Hp. cbn in Hp. rewrite length_app in Hp.
  destruct invalids; [done|cbn in Hp; lia].
Qed.
(** Where a known transaction is, when none is in limbo. *)
Lemma known_at E dropped p tx :
  pool_inv E [] dropped p → known (p_all p) tx →
  ∃ (b : bool) l, Sender tx = Some (sender tx) ∧ (if b then p_pending p else p_queue p) !! sender tx = Some l ∧
    items l !! tx_Nonce tx = Some tx ∧ list_ok l ∧ l_strict l = b ∧ p_reserved p !! sender tx = Some self.
Proof.
  intros (Hls & _ & Hinv) Hkn. pose proof Hinv as Hinv'.
  destruct Hinv' as [Hk Hne Hlk Hknown Hs Ho Hl Hnd Hu Hw Hc Hop Hr Hpr Hco].
  apply Hknown in Hkn as [(b & a & Hat)|?%elem_of_nil]; [|done]. pose proof (Hs _ _ _ Hat) as Hsd.
  rewrite (sender_known tx a Hsd). destruct Hat as (its & Hits & Htx). rewrite content_lookup in Hits.
  apply fmap_Some in Hits as (l & Hlk' & ->). destruct (Hls b a l Hlk'). exists b, l. split_and!; try done.
  destruct (decide (a ∈ E)) as [Ha|Ha]; [by apply Hop|]. apply Hr; [done|]. exists b. rewrite content_lookup, Hlk'. done.
Qed.

Lemma pool_inv_open E lim dropped p a :
  pool_inv E lim dropped p → p_reserved p !! a = Some self → pool_inv ({[a]} ∪ E) lim dropped p.
Proof. intros (? & ? & ?) Ha. split_and!; [done..|]. by apply inv_open. Qed.
Lemma pool_inv_nonempty E lim dropped p (b : bool) a l :
  pool_inv E lim dropped p → a ∉ E → (if b then p_pending p else p_queue p) !! a = Some l → items l ≠ ∅.
Proof. intros (_ & _ & Hinv) Ha Hl. eapply (i_nonempty _ _ _ _ _ _ _ _ _ _ _ Hinv b a); [by rewrite content_lookup, Hl|done]. Qed.

(** Taking out a transaction after it left the table. *)
Lemma wp_remove_known E dropped (ob : bool) tx p :
  pool_inv E [] dropped p → known (p_all p) tx → sender tx ∈ E →
  let p1 := set_all (LK.Remove (tx_Hash tx) (p_all p)) p in
  let p2 := if ob then set_priced (PR.Removed EffectiveGasTip (p_all p1) 1 (p_priced p1)) p1 else p1 in
  ∀ (b : bool) l l' invalids, (if b then p_pending p else p_queue p) !! sender tx = Some l →
    list_ok l' → l_strict l' = l_strict l → items l' ⊆ items l →
    txs_of (items l) ≡ₚ (tx :: invalids) ++ txs_of (items l') →
    pool_inv E invalids dropped
      (if b then set_pending (<[sender tx := l']> (p_pending p)) p2 else set_queue (<[sender tx := l']> (p_queue p)) p2).
Proof.
  intros (Hls & Hw & Hinv) Hkn Ha p1 p2 b l l' invalids Hl Hok Hs Hsub Hp.
  assert (Hstep : ∀ c, inv E (tx :: invalids) dropped c (p_all p) (p_priced p) (p_reserved p) →
    inv E invalids dropped c (p_all p2) (p_priced p2) (p_reserved p2) ∧ p_state p2 = p_state p ∧
    p_pending p2 = p_pending p ∧ p_queue p2 = p_queue p).
  { intros c Hc%inv_forget. unfold p2, p1. destruct ob; cbn; split_and!; try done. by apply inv_removed. }
  destruct b.
  - destruct (inv_take_pend _ _ _ _ _ _ _ _ _ _ _ _ Hls Hinv Hl Ha Hok Hs Hsub Hp) as [H1 H2].
    rewrite app_nil_r in H2. apply Hstep in H2 as (H2 & H3 & H4 & H5). split_and!; cbn; rewrite ?H3, ?H5; done.
  - destruct (inv_take_que _ _ _ _ _ _ _ _ _ _ _ _ Hls Hinv Hl Ha Hok Hs Hsub Hp) as [H1 H2].
    rewrite app_nil_r in H2. apply Hstep in H2 as (H2 & H3 & H4 & H5). split_and!; cbn; rewrite ?H3, ?H4; done.
Qed.

(** The lists of an account have transactions. *)
Definition nonempty (a : Address) p : Prop :=
  ∀ (b : bool) l, (if b then p_pending p else p_queue p) !! a = Some l → items l ≠ ∅.
(** What [removeTx] does to the lists of the sender of a queued transaction, and
    to those of other accounts. *)
Definition removed_from (a : Address) p p' : Prop :=
  ∀ a', a' ≠ a → p_pending p' !! a' = p_pending p !! a' ∧ p_queue p' !! a' = p_queue p !! a'.
Definition unqueued (tx : Transaction) p p' : Prop :=
  ∀ l, p_queue p !! sender tx = Some l → items l !! tx_Nonce tx = Some tx →
    p_pending p' = p_pending p ∧
    default ∅ (items <$> p_queue p' !! sender tx) = delete (tx_Nonce tx) (items l).
Definition unlisted (tx : Transaction) p p' : Prop :=
  removed_from (sender tx) p p' ∧ unqueued tx p p' ∧ (nonempty (sender tx) p → nonempty (sender tx) p').

Lemma removes_senders E lim dropped p (b : bool) a l txs :
  pool_inv E lim dropped p → (if b then p_pending p else p_queue p) !! a = Some l → list_ok l →
  (∀ tx, tx ∈ txs → tx ∈ txs_of (items l)) → Forall (λ tx, Sender tx = Some a) txs.
Proof.
  intros (Hls & _ & Hinv) Hl Hok Hin. apply Forall_forall. intros tx H%Hin%keyed_txs; [|apply (ac_keyed l (proj2 Hok))].
  apply (i_sender _ _ _ _ _ _ _ _ _ _ _ Hinv b a). exists (items l). by rewrite content_lookup, Hl.
Qed.
(** The end of [removeTx]. *)
Lemma wp_unreserve E dropped (unres : bool) a p :
  pool_inv ({[a]} ∪ E) [] dropped p → (if unres then a ∉ E else a ∈ E) → (unres = true → nonempty a p) →
  wp (when unres (release_if_gone self a)) (ok_with (λ _ p', pool_inv E [] dropped p' ∧ p_pending p' = p_pending p ∧
    p_queue p' = p_queue p ∧ p_all p' = p_all p)) p.
Proof.
  intros Hinv Ha Hne. destruct unres; unfold when.
  - eapply wp_ok_mono; [apply (wp_release_if_gone ({[a]} ∪ E)); [done|set_solver|by apply Hne]|]. cbn.
    replace (({[a]} ∪ E) ∖ {[a]}) with E by set_solver. done.
  - wp_steps. replace ({[a]} ∪ E) with E in Hinv by set_solver. done.
Qed.

(** The pending part of [removeTx]. *)
Lemma wp_remove_pending E dropped tx invalids p :
  let a := sender tx in
  pool_inv E invalids dropped p → a ∈ E → is_Some (p_pending p !! a) →
  Forall (λ tx, Sender tx = Some a) invalids →
  wp (markTxRemoved a tx Pending;; drop_empty_pending a;;
      for_each invalids (λ tx', ignore (enqueueTx (tx_Hash tx') tx' false));;
      nonce_lower a (tx_Nonce tx);; mret (1 + Z.of_nat (length invalids)))
    (ok_with (λ _ p', pool_inv E [] dropped p' ∧ p_all p' = p_all p ∧ removed_from a p p' ∧
      (∀ l, p_pending p' !! a = Some l → items l ≠ ∅) ∧
      (∀ l, p_queue p' !! a = Some l → p_queue p !! a = Some l ∨ items l ≠ ∅))) p.
Proof.
  intros a Hinv Ha Hsome Hsd. apply wp_ok_bind. eapply wp_ok_mono; [by apply wp_markTxRemoved|].
  cbn. intros [] p1 (H1 & P1 & Q1 & A1). apply wp_ok_bind.
  eapply wp_ok_mono; [apply wp_drop_empty_pending; [done|by rewrite P1|done]|].
  cbn. intros [] p2 (H2 & Q2 & A2 & O2 & N2). apply wp_ok_bind.
  eapply wp_ok_mono; [apply (wp_demote E [] dropped a invalids); [by rewrite app_nil_r|done..]|].
  cbn. intros [] p3 (H3 & P3 & A3 & O3 & _ & N3). unfold nonce_lower. wp_steps. split_and!; [done|congruence|..].
  - intros a' Hne. cbn. rewrite P3, O2, P1, O3, Q2, Q1 by done. done.
  - rewrite P3. apply N2.
  - intros l Hl. destruct (N3 l Hl) as [H|H]; [|by right]. left. by rewrite Q2, Q1 in H.
Qed.

(** The queued part of [removeTx]. *)
Lemma wp_remove_queued E dropped tx l l' p :
  let a := sender tx in
  p_queue p !! a = Some l → removes (TL.Remove tx) l (true, []) [tx] l' →
  pool_inv E [] dropped (set_queue (<[a := l']> (p_queue p)) p) → a ∈ E →
  wp (remove_queued a tx)
    (ok_with (λ _ p', pool_inv E [] dropped p' ∧ p_all p' = p_all p ∧ p_pending p' = p_pending p ∧
      (∀ a', a' ≠ a → p_queue p' !! a' = p_queue p !! a') ∧
      (p_queue p' !! a = if decide (items l' = ∅) then None else Some l'))) p.
Proof.
  intros a Hl Hr Hinv Ha. unfold remove_queued. apply wp_ok_bind. wp_step. cbn. rewrite Hl, bool_decide_true by done. cbn.
  apply wp_ok_bind. eapply wp_at_queue; [done|apply Hr|]. cbn [ok_with when]. apply wp_ok_bind.
  eapply wp_ok_mono; [by apply wp_markTxRemoved|]. cbn. intros [] p1 (H1 & P1 & Q1 & A1). apply wp_ok_bind. wp_step. cbn.
  assert (Hl1 : p_queue p1 !! a = Some l') by (by rewrite Q1, lookup_insert_eq).
  rewrite (len_empty _ _ _ Hl1). unfold when. case_bool_decide as Hd; wp_steps; cbn.
  - split_and!; [by eapply pool_inv_del_que|done|done|..].
    + intros a' Hne. by rewrite lookup_delete_ne, Q1, lookup_insert_ne.
    + by rewrite lookup_delete_eq, decide_True.
  - split_and!; [done..| |by rewrite decide_False]. intros a' Hne. by rewrite Q1, lookup_insert_ne.
Qed.

(** A transaction is in one list only. *)
Lemma at_one_side E dropped p (b b' : bool) tx l l' :
  pool_inv E [] dropped p → known (p_all p) tx → Sender tx = Some (sender tx) →
  (if b then p_pending p else p_queue p) !! sender tx = Some l → items l !! tx_Nonce tx = Some tx →
  (if b' then p_pending p else p_queue p) !! sender tx = Some l' → is_Some (items l' !! tx_Nonce tx) → b = b'.
Proof.
  intros (Hls & _ & Hi) Hkn Hsd Hl Htx Hl' [tx0 H0].
  destruct (Hls b' _ l' Hl') as [Hok' _]. pose proof (ac_keyed l' (proj2 Hok') _ _ H0) as Hn0.
  assert (Hat0 : at_ (content (p_pending p) (p_queue p)) b' (sender tx) tx0).
  { exists (items l'). rewrite content_lookup, Hl'. by rewrite Hn0. }
  pose proof (i_sender _ _ _ _ _ _ _ _ _ _ _ Hi _ _ _ Hat0).
  assert (tx0 = tx) as ->.
  { apply (i_unique _ _ _ _ _ _ _ _ _ _ _ Hi); [apply (i_known _ _ _ _ _ _ _ _ _ _ _ Hi); eauto|done|congruence|done]. }
  apply (i_once _ _ _ _ _ _ _ _ _ _ _ Hi b b' (sender tx) tx); [|done]. exists (items l). by rewrite content_lookup, Hl.
Qed.

(** Removing a pending transaction that left the table already. *)
Lemma wp_unlist_pending E dropped tx l p q :
  pool_inv E [] dropped p → known (p_all p) tx → Sender tx = Some (sender tx) →
  p_pending p !! sender tx = Some l → items l !! tx_Nonce tx = Some tx → list_ok l →
  p_pending q = p_pending p → p_queue q = p_queue p → sender tx ∈ E →
  (∀ l' invalids, list_ok l' → l_strict l' = l_strict l → items l' ⊆ items l →
    txs_of (items l) ≡ₚ (tx :: invalids) ++ txs_of (items l') →
    pool_inv E invalids dropped (set_pending (<[sender tx := l']> (p_pending p)) q)) →
  wp (remove_listed (sender tx) tx) (ok_with (λ _ p', pool_inv E [] dropped p' ∧ p_all p' = p_all q ∧ unlisted tx p p')) q.
Proof.
  intros Hinv Hkn Hsd Hl Htx Hok Pq Qq Ha Hmove. unfold LP.remove_listed.
  destruct (Remove_run tx l Hok Htx) as (l' & invalids & Hr & _). pose proof Hr as (Hrun & Hok' & Hs' & Hsub & Hp).
  apply wp_ok_bind. wp_step. cbn [ok_with]. rewrite Pq, bool_decide_true by done.
  apply wp_ok_bind. eapply wp_at_pending; [by rewrite Pq|done|]. cbn [ok_with]. rewrite Pq. set (p3 := set_pending _ _).
  eapply wp_ok_mono.
  { apply (wp_remove_pending E dropped tx invalids p3); [by apply Hmove|done|cbn; by rewrite lookup_insert_eq|].
    apply (removes_senders E [] dropped p true (sender tx) l); [done..|]. intros tx' Hin. fold (items l) in Hp.
    rewrite Hp. set_solver. }
  cbn. intros n p4 (H4 & A4 & O4 & N4 & M4). split_and!; [done..|]. split_and!.
  - intros a' Hne. destruct (O4 a' Hne) as [-> ->]. unfold p3. cbn. by rewrite lookup_insert_ne, Qq.
  - intros lq Hlq Hq. exfalso. enough (true = false) by done. by eapply (at_one_side E dropped p true false tx).
  - intros Hne [] l4 Hl4; [by apply N4|]. destruct (M4 l4 Hl4) as [Hq|]; [|done]. apply (Hne false).
    unfold p3 in Hq. cbn in Hq. by rewrite Qq in Hq.
Qed.

(** Removing a queued transaction that left the table already. *)
Lemma wp_unlist_queued E dropped tx l p q :
  pool_inv E [] dropped p → known (p_all p) tx → Sender tx = Some (sender tx) →
  p_queue p !! sender tx = Some l → items l !! tx_Nonce tx = Some tx → list_ok l → l_strict l = false →
  p_pending q = p_pending p → p_queue q = p_queue p → sender tx ∈ E →
  (∀ l', list_ok l' → l_strict l' = l_strict l → items l' ⊆ items l → txs_of (items l) ≡ₚ [tx] ++ txs_of (items l') →
    pool_inv E [] dropped (set_queue (<[sender tx := l']> (p_queue p)) q)) →
  wp (remove_listed (sender tx) tx) (ok_with (λ _ p', pool_inv E [] dropped p' ∧ p_all p' = p_all q ∧ unlisted tx p p')) q.
Proof.
  intros Hinv Hkn Hsd Hl Htx Hok Hst Pq Qq Ha Hmove. unfold LP.remove_listed.
  apply wp_ok_bind. wp_step. cbn [ok_with]. rewrite Pq.
  apply wp_ok_bind. apply (wp_mono _ (ok_with (λ r p', r = (false, []) ∧ p' = q))).
  { case_bool_decide as Hd; [|by wp_steps]. destruct Hd as [lp Hlp].
    eapply wp_at_pending; [by rewrite Pq|apply Remove_absent|cbn; split; [done|]].
    - destruct (sm_items (l_txs lp) !! tx_Nonce tx) eqn:H0; [|done]. enough (false = true) by done.
      eapply (at_one_side E dropped p false true tx); try done.
    - rewrite insert_id by (by rewrite Pq). by destruct q. }
  intros p' [[? ?]|e|s]; [|done..]. cbn [ok_with]. intros [[= -> ->] ->].
  destruct (Remove_queued tx l Hok Hst Htx) as (l' & Hr & Hit). pose proof Hr as (Hrun & Hok' & Hs' & Hsub & Hp).
  eapply wp_ok_mono.
  { apply (wp_remove_queued E dropped tx l l' q); [by rewrite Qq|done| |done]. rewrite Qq. by apply Hmove. }
  cbn. intros n p4 (H4 & A4 & P4 & O4 & N4). split_and!; [done..|]. split_and!.
  - intros a' Hne. by rewrite P4, Pq, O4, Qq.
  - intros lq Hlq Hq. rewrite Hl in Hlq. injection Hlq as <-. split; [congruence|].
    rewrite N4. case_decide as Hd; cbn; congruence.
  - intros Hne [] l4; [rewrite P4, Pq; apply (Hne true)|]. rewrite N4. case_decide; [done|]. by intros [= <-].
Qed.

(** The effects of [removeTx] on the table and the lists. *)
Definition removal (h : Hash) p p' : Prop :=
  p_all p' = LK.Remove h (p_all p) ∧ (∀ tx, LK.Get h (p_all p) = Some tx → unlisted tx p p') ∧
  (LK.Get h (p_all p) = None → p' = p).

(** [removeTx] keeps the invariant and takes the transaction out of the table. *)
Lemma wp_removeTx E dropped h (ob unres : bool) p :
  pool_inv E [] dropped p →
  (∀ tx, LK.Get h (p_all p) = Some tx → if unres then sender tx ∉ E else sender tx ∈ E) →
  wp (removeTx h ob unres) (ok_with (λ _ p', pool_inv E [] dropped p' ∧ removal h p p')) p.
Proof.
  intros Hinv Hun. unfold LP.removeTx. apply wp_ok_bind. wp_step. cbn.
  destruct (LK.Get h (p_all p)) as [tx|] eqn:Hget.
  2: { wp_steps. split; [done|]. split_and!; [|congruence|done]. unfold LK.Remove. unfold LK.Get in Hget. by rewrite Hget. }
  specialize (Hun tx eq_refl).
  assert (tx_Hash tx = h) as <- by (by apply (LK.lo_keyed _ (i_lookup _ _ _ _ _ _ _ _ _ _ _ (proj2 (proj2 Hinv))))).
  destruct (known_at E dropped p tx Hinv Hget) as (b & l & Hsd & Hl & Htx & Hok & Hst & Hres).
  pose proof (pool_inv_open _ _ _ _ _ Hinv Hres) as Hinv'.
  set (p1 := set_all (LK.Remove (tx_Hash tx) (p_all p)) p).
  set (p2 := if ob then set_priced (PR.Removed EffectiveGasTip (p_all p1) 1 (p_priced p1)) p1 else p1).
  apply wp_ok_bind. unfold all_remove. wp_step. cbn [ok_with]. fold p1.
  apply wp_ok_bind. apply (wp_mono _ (ok_with (λ _ p', p' = p2))).
  { unfold p2, LP.priced_removed. destruct ob; unfold when; wp_steps; done. }
  intros p' [[]|e|s]; [|done..]. cbn [ok_with]. intros ->.
  assert (Hp2 : p_pending p2 = p_pending p ∧ p_queue p2 = p_queue p ∧ p_all p2 = LK.Remove (tx_Hash tx) (p_all p))
    by (unfold p2, p1; by destruct ob). destruct Hp2 as (P2 & Q2 & A2).
  pose proof (wp_remove_known ({[sender tx]} ∪ E) dropped ob tx p Hinv' Hget ltac:(set_solver)) as Hmove.
  cbv zeta in Hmove. fold p1 in Hmove. change (if ob then _ else p1) with p2 in Hmove.
  apply wp_ok_bind. eapply wp_ok_mono.
  { destruct b.
    - apply (wp_unlist_pending ({[sender tx]} ∪ E) dropped tx l p p2); [done..|set_solver|].
      intros l' invalids. apply (Hmove true l l' invalids Hl).
    - apply (wp_unlist_queued ({[sender tx]} ∪ E) dropped tx l p p2); [done..|set_solver|].
      intros l'. apply (Hmove false l l' [] Hl). }
  cbn. intros n p4 (H4 & A4 & U4). apply wp_ok_bind. eapply wp_ok_mono.
  { apply (wp_unreserve E dropped unres _ p4); [done..|]. intros ->. apply U4. intros b' l'. by apply (pool_inv_nonempty E [] dropped p b'). }
  cbn. intros [] p5 (H5 & P5 & Q5 & A5). wp_steps. split; [done|]. split_and!; [congruence| |congruence].
  intros ?. rewrite Hget. intros [= <-]. unfold unlisted, removed_from, unqueued, nonempty. by rewrite P5, Q5.
Qed.

(** Every known transaction of [p'] is one of [p]. *)
Definition shrinks p p' : Prop := ∀ tx, known (p_all p') tx → known (p_all p) tx.
Definition untracked (a : Address) p : Prop := p_pending p !! a = None ∧ p_queue p !! a = None.

Lemma get_known E lim dropped p h tx :
  pool_inv E lim dropped p → LK.Get h (p_all p) = Some tx → known (p_all p) tx ∧ tx_Hash tx = h.
Proof.
  intros Hinv Hget. pose proof (LK.lo_keyed _ (i_lookup _ _ _ _ _ _ _ _ _ _ _ (proj2 (proj2 Hinv))) _ _ Hget) as Hh.
  split; [|done]. unfold known. by rewrite Hh.
Qed.

Lemma removal_effects E dropped h p p' a :
  pool_inv E [] dropped p → removal h p p' →
  shrinks p p' ∧ LK.Get h (p_all p') = None ∧ (nonempty a p → nonempty a p') ∧ (untracked a p → untracked a p').
Proof.
  intros Hinv (Hall & Hsome & Hnone). split_and!.
  - intros tx. rewrite Hall, known_remove. by intros [? _].
  - rewrite Hall. unfold LK.Get, LK.Remove. destruct (LK.lk_txs (p_all p) !! h) eqn:Hx; [apply lookup_delete_eq|done].
  - destruct (LK.Get h (p_all p)) as [tx|] eqn:Hget; [|by rewrite Hnone]. destruct (Hsome tx eq_refl) as (Ho & _ & Hn).
    destruct (decide (a = sender tx)) as [->|Hne]; [done|]. destruct (Ho a Hne) as [E1 E2].
    intros H [] l; rewrite ?E1, ?E2; [apply (H true)|apply (H false)].
  - destruct (LK.Get h (p_all p)) as [tx|] eqn:Hget; [|by rewrite Hnone]. destruct (Hsome tx eq_refl) as (Ho & _ & _).
    destruct (get_known _ _ _ _ _ _ Hinv Hget) as [Hkn _]. destruct (known_at _ _ _ _ Hinv Hkn) as (b & l & _ & Hl & _).
    destruct (decide (a = sender tx)) as [->|Hne]; [intros [? ?]; destruct b; congruence|].
    destruct (Ho a Hne) as [E1 E2]. unfold untracked. by rewrite E1, E2.
Qed.

(** Stop working on the only account that was worked on. *)
Lemma close_tracked a p : pool_inv {[a]} [] [] p → nonempty a p → ¬ untracked a p → pool_inv ∅ [] [] p.
Proof.
  intros Hinv Hne Htr. pose proof (close_account {[a]} [] [] p a Hinv ltac:(set_solver) Hne) as H.
  rewrite bool_decide_false in H by done. by replace ({[a]} ∖ {[a]} : gset Address) with (∅ : gset Address) in H by set_solver.
Qed.
Lemma close_untracked a p :
  pool_inv {[a]} [] [] p → untracked a p → pool_inv ∅ [] [] (set_reserved (fst (RV.Release self [a] (p_reserved p))) p).
Proof.
  intros Hinv Htr. pose proof (close_account {[a]} [] [] p a Hinv ltac:(set_solver)) as H.
  rewrite bool_decide_true in H by done. replace ({[a]} ∖ {[a]} : gset Address) with (∅ : gset Address) in H by set_solver.
  apply H. intros [] l Hl; destruct Htr; congruence.
Qed.
End PoolInv.
End LI.
