(* ===== verification/LegacyPoolAdd.v ===== *)
(** Adding to the pool keeps its invariant: replacements, the future queue,
    making room in a full pool, and the whole of [add] with its reservation. *)
From S2P Require Import Prelude GoStd AccessList Sdk Heap TxList PoolList Reserver TxLookup PricedList TxStore PoolValidation LegacyPool LegacyPoolReorg PoolInv LegacyPoolInv.

Module LA.
Import SM TL PV LP RO PI LI.

(** Postconditions of runs that return a value or an error, and do not panic. *)
Definition ends {S E A} (Q : A → S → Prop) (R : E → S → Prop) : S → res E A → Prop := λ s r,
  match r with Ok a => Q a s | Err e => R e s | Panic _ => False end.

Section Wp.
Context {S E : Type}.
Implicit Types s : S.
Lemma wp_ends_bind {A B} (m : M S E A) (k : A → M S E B) Q R s :
  wp m (ends (λ a s', wp (k a) (ends Q R) s') R) s → wp (m ≫= k) (ends Q R) s.
Proof. intros H. apply wp_bind. eapply wp_mono; [done|]. by intros s' [a|e|p]. Qed.
Lemma wp_ends_mono {A} (m : M S E A) (Q Q' : A → S → Prop) (R R' : E → S → Prop) s :
  wp m (ends Q R) s → (∀ a s', Q a s' → Q' a s') → (∀ e s', R e s' → R' e s') → wp m (ends Q' R') s.
Proof. intros H HQ HR. eapply wp_mono; [done|]. intros s' [a|e|p]; [apply HQ|apply HR|done]. Qed.
Lemma wp_ok_ends {A} (m : M S E A) (Q : A → S → Prop) (R : E → S → Prop) s :
  wp m (ok_with Q) s → wp m (ends Q R) s.
Proof. intros H. eapply wp_mono; [done|]. by intros s' [a|e|p]. Qed.
End Wp.

Section Add.
Context `{HR : MapRange} `{HRL : !MapRangeLaws} `{HPR : PoolRange} `{HPRL : !PoolRangeLaws} `{HC : TxChecks} `{RC : Rechecker}.
Context (EffectiveGasTip : Z → Transaction → Z) (Sender : Transaction → option Address) (EmptyCodeHash : Hash).
Context (config : Config) (self : Z).
(** The transactions that reach the pool have different hashes. *)
Context (U : Transaction → Prop) (HU : ∀ tx tx', U tx → U tx' → tx_Hash tx = tx_Hash tx' → tx = tx').
Implicit Types p : LegacyPool.
Abbreviation inv := (inv EffectiveGasTip Sender self U).
Abbreviation pool_inv := (pool_inv EffectiveGasTip Sender self U).
Abbreviation sender := (sender Sender).
Abbreviation enqueueTx := (enqueueTx EffectiveGasTip Sender config).
Abbreviation removeTx := (removeTx EffectiveGasTip Sender config self).
Abbreviation replace_pending := (replace_pending EffectiveGasTip config).
Abbreviation make_room := (make_room EffectiveGasTip Sender config self).
Abbreviation add_reserved := (add_reserved EffectiveGasTip Sender config self).
Abbreviation add := (add EffectiveGasTip Sender EmptyCodeHash config self).

#[local] Arguments markTxRemoved : simpl never.
#[local] Arguments LK.Remove : simpl never.
#[local] Arguments LK.Add : simpl never.
#[local] Arguments PR.Removed : simpl never.
#[local] Arguments PR.Put : simpl never.

(** What a new transaction needs besides passing the checks: a nonce and a cost
    in range, also together with the costs in the pool. *)
Definition fits (tx : Transaction) p : Prop :=
  0 ≤ tx_Cost tx ∧ 0 ≤ tx_Nonce tx < 2 ^ 64 ∧
  sum_cost (txs_of (LK.lk_txs (p_all p))) + tx_Cost tx < 2 ^ 256 ∧ U tx.

(** ** Replacement *)

(** [TL.Add] where the nonce is taken. *)
Lemma Add_taken tx old l :
  list_ok l → items l !! tx_Nonce tx = Some old → word_cost tx → 0 ≤ tx_Nonce tx < 2 ^ 64 →
  sum_cost (txs_of (items l)) + tx_Cost tx < 2 ^ 256 →
  if decide (outbids (PriceBump config) old tx) then
    ∃ l', TL.Add tx (PriceBump config) l = (l', Ok (true, Some old)) ∧ list_ok l' ∧ l_strict l' = l_strict l ∧
      items l' = <[tx_Nonce tx := tx]> (items l)
  else TL.Add tx (PriceBump config) l = (l, Ok (false, None)).
Proof.
  intros Hok Hold Hw Hn Hsum. unfold items in *. case_decide as Hd; [|by rewrite Add_cases, Hold, decide_False].
  rewrite <- Hold. apply Add_run; [done..| |by rewrite Hold; intros ? [= <-]].
  unfold old_cost. rewrite Hold. cbn. rewrite (ac_total _ (proj2 Hok)).
  assert (0 ≤ tx_Cost old) by (eapply (ac_cost _ (proj2 Hok)); done). lia.
Qed.

(** The state after the new transaction took the place of the old one. *)
Lemma pool_inv_replace E p (b : bool) a l l' old tx q :
  pool_inv E [] [] p → (if b then p_pending p else p_queue p) !! a = Some l → items l !! tx_Nonce tx = Some old →
  a ∈ E → Sender tx = Some a → LK.Get (tx_Hash tx) (p_all p) = None → fits tx p →
  list_ok l' → l_strict l' = l_strict l → items l' = <[tx_Nonce tx := tx]> (items l) →
  p_pending q = (if b then <[a := l']> (p_pending p) else p_pending p) →
  p_queue q = (if b then p_queue p else <[a := l']> (p_queue p)) →
  p_state q = p_state p → p_reserved q = p_reserved p →
  p_all q = LK.Add tx (LK.Remove (tx_Hash old) (p_all p)) →
  p_priced q = PR.Put EffectiveGasTip tx (PR.Removed EffectiveGasTip (LK.Remove (tx_Hash old) (p_all p)) 1 (p_priced p)) →
  pool_inv E [] [] q.
Proof.
  intros (Hls & Hw & Hinv) Hl Hold Ha Hsd Hnew (Hc & Hn & Hsum & Hcoll) Hok Hst Hit Hp Hq Hs Hr Hall Hpr.
  destruct (Hls b a l Hl) as [_ Hb]. unfold LI.pool_inv. rewrite Hp, Hq, Hs, Hr, Hall, Hpr. split_and!; [|done|].
  - destruct b; [apply lists_ok_pend|apply lists_ok_que]; (done || congruence).
  - eapply (inv_ext _ _ _ _ E [] [] (upd b a (<[tx_Nonce tx := tx]> (items l)) (content (p_pending p) (p_queue p)))).
    { intros b'. rewrite <- Hit. destruct b; [apply content_pend|apply content_que]. }
    apply inv_replace; [done|by rewrite content_lookup, Hl|done..].
Qed.

(** Conditions for [TL.Add] on the list of the sender. *)
Lemma fits_list E p (b : bool) a l tx :
  pool_inv E [] [] p → (if b then p_pending p else p_queue p) !! a = Some l → fits tx p →
  word_cost tx ∧ sum_cost (txs_of (items l)) + tx_Cost tx < 2 ^ 256.
Proof.
  intros (Hls & Hw & Hinv) Hl (Hc & Hn & Hsum & _).
  pose proof (inv_list_cost _ _ _ _ _ _ _ _ _ _ _ b a (items l) Hinv ltac:(by rewrite content_lookup, Hl)).
  assert (0 ≤ sum_cost (txs_of (items l))).
  { apply sum_cost_nonneg, acct_words, (Hls b a l Hl). }
  unfold word_cost. lia.
Qed.

(** The lists of the account after the transaction took its place. *)
Definition placed (b : bool) (a : Address) (tx : Transaction) p p' : Prop :=
  (∀ b' : bool, b' ≠ b → (if b' then p_pending p' else p_queue p') = (if b' then p_pending p else p_queue p)) ∧
  ∃ l, (if b then p_pending p' else p_queue p') = <[a := l]> (if b then p_pending p else p_queue p) ∧
    items l = <[tx_Nonce tx := tx]> (default ∅ (items <$> (if b then p_pending p else p_queue p) !! a)).

Lemma wp_replace_pending E a l old tx p :
  pool_inv E [] [] p → p_pending p !! a = Some l → items l !! tx_Nonce tx = Some old →
  a ∈ E → Sender tx = Some a → LK.Get (tx_Hash tx) (p_all p) = None → fits tx p →
  wp (replace_pending a tx) (ends
    (λ r p', r = true ∧ pool_inv E [] [] p' ∧ placed true a tx p p' ∧ outbids (PriceBump config) old tx ∧
      p_all p' = LK.Add tx (LK.Remove (tx_Hash old) (p_all p)))
    (λ e p', e = ErrReplaceUnderpriced ∧ p' = p ∧ ¬ outbids (PriceBump config) old tx)) p.
Proof.
  intros Hinv Hl Hold Ha Hsd Hnew Hfit. destruct (fits_list E p true a l tx Hinv Hl Hfit) as [Hwc Hsum].
  destruct (proj1 Hinv true a l Hl) as [Hok _]. pose proof Hfit as (_ & Hn & _).
  pose proof (Add_taken tx old l Hok Hold Hwc Hn Hsum) as Hadd. unfold LP.replace_pending. apply wp_ends_bind.
  case_decide as Hout; [destruct Hadd as (l' & Hadd & Hok' & Hst & Hit)|];
    (eapply wp_at_pending; [done..|]); cbn [ends negb].
  - unfold all_remove, priced_removed, markTxRemoved, valid_do, all_add, priced_put, markTxReplaced, beat, notice.
    wp_steps. split_and!; [done| |split|done|done].
    + eapply (pool_inv_replace E p true a l l' old tx); done.
    + by intros [].
    + exists l'. cbn. by rewrite Hl.
  - wp_steps. split_and!; [done| |done]. rewrite insert_id by done. by destruct p.
Qed.

(** [enqueueTx] of a transaction that is new to the pool. *)
Lemma wp_enqueue_taken E a l old tx p :
  pool_inv E [] [] p → p_queue p !! a = Some l → items l !! tx_Nonce tx = Some old →
  a ∈ E → Sender tx = Some a → LK.Get (tx_Hash tx) (p_all p) = None → fits tx p →
  wp (enqueueTx (tx_Hash tx) tx true) (ends
    (λ r p', r = true ∧ pool_inv E [] [] p' ∧ placed false a tx p p' ∧ outbids (PriceBump config) old tx ∧
      p_all p' = LK.Add tx (LK.Remove (tx_Hash old) (p_all p)))
    (λ e p', e = ErrReplaceUnderpriced ∧ p' = p ∧ ¬ outbids (PriceBump config) old tx)) p.
Proof.
  intros Hinv Hl Hold Ha Hsd Hnew Hfit. destruct (fits_list E p false a l tx Hinv Hl Hfit) as [Hwc Hsum].
  destruct (proj1 Hinv false a l Hl) as [Hok _]. pose proof Hfit as (_ & Hn & _).
  pose proof (Add_taken tx old l Hok Hold Hwc Hn Hsum) as Hadd. unfold LP.enqueueTx.
  rewrite (sender_known Sender tx a Hsd). apply wp_ends_bind. wp_step. cbn [ends]. rewrite Hl, bool_decide_true by done.
  apply wp_ends_bind. wp_step. cbn [ends]. apply wp_ends_bind.
  case_decide as Hout; [destruct Hadd as (l' & Hadd & Hok' & Hst & Hit)|];
    (eapply wp_at_queue; [done..|]); cbn [ends negb].
  - unfold all_remove, priced_removed, markTxRemoved, all_add, priced_put, beat, markTxEnqueued, notice.
    wp_steps; (split_and!; [done| |split|done|done]).
    all: try (by eapply (pool_inv_replace E p false a l l' old tx)).
    all: try (by intros []).
    all: exists l'; cbn; by rewrite Hl.
  - wp_steps. split_and!; [done| |done]. rewrite insert_id by done. by destruct p.
Qed.
Lemma shrinks_fits E dropped p p' tx :
  pool_inv E [] dropped p' → LK.lookup_ok (p_all p) → (∀ tx, known (p_all p) tx → 0 ≤ tx_Cost tx) →
  shrinks p p' → fits tx p → fits tx p'.
Proof.
  intros (_ & _ & Hinv) Hlk Hpos Hsub (Hc & Hn & Hsum & HUt). split_and!; [done|lia|lia| |done].
  pose proof (i_lookup _ _ _ _ _ _ _ _ _ _ _ Hinv) as Hlk'.
  enough (sum_cost (txs_of (LK.lk_txs (p_all p'))) ≤ sum_cost (txs_of (LK.lk_txs (p_all p)))) by lia.
  apply sum_cost_sub; [|intros tx'; rewrite !known_txs by done; apply Hsub|].
  - apply (NoDup_fmap_1 tx_Hash). unfold txs_of. rewrite <- list_fmap_compose.
    replace (list_fmap _ _ (tx_Hash ∘ snd) (map_to_list (LK.lk_txs (p_all p')))) with (map_to_list (LK.lk_txs (p_all p'))).*1.
    { apply NoDup_fst_map_to_list. }
    apply list_fmap_ext. intros i [h tx'] Hin%list_elem_of_lookup_2%elem_of_map_to_list. cbn. symmetry.
    by apply (LK.lo_keyed _ Hlk').
  - apply Forall_forall. intros tx' H%known_txs; [|done]. by apply Hpos.
Qed.

(** Removing the dropped transactions. *)
Lemma wp_drops a drop p :
  pool_inv {[a]} [] drop p → nonempty a p → (∀ tx, tx ∈ drop → U tx) → (∀ tx, known (p_all p) tx → U tx) →
  wp (for_each drop (λ dropTx,
        dropped ← removeTx (tx_Hash dropTx) false (negb (sender dropTx =? a));
        modify (λ p, set_changes (p_changes p + dropped) p)))
    (ok_with (λ _ p', pool_inv {[a]} [] [] p' ∧ nonempty a p' ∧ shrinks p p' ∧ (untracked a p → untracked a p') ∧
      (∀ tx, tx ∈ drop → LK.Get (tx_Hash tx) (p_all p') = None))) p.
Proof.
  intros Hinv Hne HUd HUk.
  set (I (rest : Transactions) q := pool_inv {[a]} [] rest q ∧ nonempty a q ∧ shrinks p q ∧ (∀ tx, tx ∈ rest → U tx) ∧
    (untracked a p → untracked a q) ∧ (∀ tx, tx ∈ drop → tx ∈ rest ∨ LK.Get (tx_Hash tx) (p_all q) = None)).
  eapply wp_ok_mono; [apply (wp_for_each drop _ I); [|refine (conj Hinv (conj Hne (conj _ (conj HUd (conj (λ H, H) _))))); [by intros ?|by left]]|].
  2: { intros [] q (? & ? & ? & _ & ? & Hg). split_and!; try done. intros tx [?%elem_of_nil|?]%Hg; done. }
  intros tx rest q (Hq & Hneq & Hsub & Hur & Hun & Hg). apply wp_ok_bind. eapply wp_ok_mono.
  { apply wp_removeTx; [exact Hq|]. intros tx' Hget. destruct (get_known _ _ _ _ _ _ _ _ _ _ Hq Hget) as [Hk' Hh].
    assert (tx' = tx) as -> by (apply HU; [by apply HUk, Hsub|apply Hur; left|done]).
    destruct (Z.eqb_spec (sender tx) a) as [->|]; set_solver. }
  cbn. intros n q' (Hq' & Hrem). wp_steps.
  destruct (removal_effects _ _ _ _ _ _ _ _ _ a Hq Hrem) as (Hs & Hgone & Hn' & Hu').
  split_and!; [|by apply Hn'|intros tx' H; by apply Hsub, Hs|intros tx' H; apply Hur; by right|by auto|].
  - split_and!; [apply Hq'..|]. cbn. eapply inv_gone; [apply Hq'|]. unfold known. congruence.
  - intros tx' Hin. destruct (Hg tx' Hin) as [[->|?]%elem_of_cons|Hx]; [by right|by left|right]. cbn.
    destruct Hrem as (Hall & _). rewrite Hall. unfold LK.Get, LK.Remove in *. case_match; [|done].
    apply lookup_delete_None. by right.
Qed.
Lemma wp_isGapped a tx p Q :
  (∀ n b, Q b (set_nonces n p)) → wp (isGapped a tx) (ok_with Q) p.
Proof.
  intros H. unfold isGapped, nonce_get. apply wp_ok_bind, wp_intro. intros p1 r. destruct (NC.get _ _ _) as [n v].
  intros [= <- <-]. cbn. wp_steps; [by apply H|]. destruct (p_queue p !! a); wp_steps; by apply H.
Qed.

(** Putting the dropped transactions back. *)
Lemma wp_put_back E lim drop p :
  pool_inv E lim drop p →
  wp (for_each drop (priced_put EffectiveGasTip)) (ok_with (λ _ p', pool_inv E lim [] p' ∧
    p_pending p' = p_pending p ∧ p_queue p' = p_queue p ∧ p_all p' = p_all p)) p.
Proof.
  intros Hinv. apply (wp_for_each drop _ (λ rest p', pool_inv E lim rest p' ∧
    p_pending p' = p_pending p ∧ p_queue p' = p_queue p ∧ p_all p' = p_all p)); [|done].
  intros tx rest q ((Hls & Hw & Hq) & P1 & Q1 & A1). unfold priced_put. wp_steps. split_and!; try done.
  split_and!; [done..|]. cbn. by apply inv_put.
Qed.

(** What [make_room] dropped: entries of the heaps that are enough. *)
Definition roomy (tx : Transaction) p p' : Prop :=
  ∃ drop rest, PR.live (p_all p) (PR.entries (p_priced p)) ≡ₚ drop ++ rest ∧
    LK.Slots (p_all p) - to_int (u64_add (GlobalSlots config) (GlobalQueue config)) + LK.numSlots tx ≤ PR.slots_of drop ∧
    (∀ tx', tx' ∈ drop → LK.Get (tx_Hash tx') (p_all p') = None).

Lemma all_in_universe E lim dropped p tx : pool_inv E lim dropped p → known (p_all p) tx → U tx.
Proof. intros (_ & _ & Hinv) Hk. apply (i_uni _ _ _ _ _ _ _ _ _ _ _ Hinv), (i_cover _ _ _ _ _ _ _ _ _ _ _ Hinv _ Hk). Qed.

Lemma wp_make_room a tx p :
  pool_inv {[a]} [] [] p → nonempty a p →
  wp (make_room a tx) (ends
    (λ _ p', pool_inv {[a]} [] [] p' ∧ nonempty a p' ∧ shrinks p p' ∧ (untracked a p → untracked a p') ∧ roomy tx p p')
    (λ _ p', pool_inv {[a]} [] [] p' ∧ p_pending p' = p_pending p ∧ p_queue p' = p_queue p ∧ p_all p' = p_all p)) p.
Proof.
  intros Hinv Hne. pose proof Hinv as (Hls & Hw & Hi). unfold LP.make_room.
  pose proof (PR.Underpriced_exact EffectiveGasTip (p_all p) tx (p_priced p) (i_priced _ _ _ _ _ _ _ _ _ _ _ Hi)) as Hux.
  apply (inv_underpriced EffectiveGasTip Sender self U {[a]} [] [] _ _ _ _ tx) in Hi.
  apply wp_ends_bind, wp_intro. intros p1 r. destruct (PR.Underpriced _ _ _ _) as [pr1 under]. intros [= <- <-].
  destruct Hux as (_ & _ & Hlive & _). cbn [ends fst] in *. destruct under; [wp_steps; done|].
  apply wp_ends_bind. wp_step. cbn [ends]. case_match; [wp_steps; done|].
  set (slots := LK.Slots (p_all p) - to_int (u64_add (GlobalSlots config) (GlobalQueue config)) + LK.numSlots tx).
  pose proof (inv_discard EffectiveGasTip Sender self U {[a]} [] _ _ _ _ slots Hi) as Hd.
  pose proof (PR.Discard_spec EffectiveGasTip (p_all p) slots pr1 (i_priced _ _ _ _ _ _ _ _ _ _ _ Hi)) as Hds.
  apply wp_ends_bind, wp_intro. intros p2 r. cbn [p_all p_priced set_priced]. fold slots.
  destruct (PR.Discard _ _ slots _) as [pr2 [drop ok]]. intros [= <- <-].
  destruct Hds as (_ & Hl2 & _ & Hok & Hfail). cbn [ends]. destruct ok; cbn [negb].
  2: { wp_steps. destruct (Hfail eq_refl) as [-> _]. done. }
  set (p2 := set_priced pr2 _). assert (Hinv2 : pool_inv {[a]} [] drop p2) by done.
  apply wp_ends_bind, wp_ok_ends, wp_isGapped. intros n gapped. set (p3 := set_nonces n p2).
  assert (Hinv3 : pool_inv {[a]} [] drop p3) by done.
  apply wp_ends_bind. wp_step. cbn [ends]. case_match.
  - apply wp_ends_bind, wp_ok_ends. eapply wp_ok_mono; [by apply wp_put_back|]. cbn. intros [] q (? & ? & ? & ?). wp_steps. done.
  - apply wp_ok_ends. eapply wp_ok_mono; [apply wp_drops; [done|done|..]|].
    + intros tx' Hin. apply (i_uni _ _ _ _ _ _ _ _ _ _ _ Hd). by left.
    + intros tx' Hk. by eapply all_in_universe.
    + cbn. intros [] q (H1 & H2 & H3 & H4 & H5). split_and!; try done. destruct (Hok eq_refl) as [Hslots _].
      exists drop, (PR.live (p_all p) (PR.entries pr2)). split_and!; [by rewrite <- Hlive|done|done].
Qed.
(** What a transaction that was added has changed in the table. *)
Definition enters (tx : Transaction) p p' : Prop :=
  known (p_all p') tx ∧ ∀ tx', known (p_all p') tx' → tx' = tx ∨ known (p_all p) tx'.
Lemma enters_new tx p p' :
  LK.Get (tx_Hash tx) (p_all p) = None → p_all p' = LK.Add tx (p_all p) → enters tx p p'.
Proof. intros Hn Hall. unfold enters. rewrite Hall. setoid_rewrite known_add; [|done..]. naive_solver. Qed.
Lemma enters_replace tx old p p' :
  LK.Get (tx_Hash tx) (p_all p) = None → p_all p' = LK.Add tx (LK.Remove (tx_Hash old) (p_all p)) → enters tx p p'.
Proof.
  intros Hn Hall. assert (Hn' : LK.Get (tx_Hash tx) (LK.Remove (tx_Hash old) (p_all p)) = None).
  { unfold LK.Remove, LK.Get in *. case_match; [|done]. apply lookup_delete_None. by right. }
  unfold enters. rewrite Hall. setoid_rewrite known_add; [|done..]. setoid_rewrite known_remove. naive_solver.
Qed.

(** The lists of an account that got a transaction. *)
Lemma placed_nonempty b a tx p p' : placed b a tx p p' → nonempty a p → nonempty a p' ∧ ¬ untracked a p'.
Proof.
  intros (Ho & l & Hl & Hit) Hne. split.
  - intros b' l' Hl'. destruct (decide (b' = b)) as [->|Hd].
    + rewrite Hl, lookup_insert_eq in Hl'. injection Hl' as <-. rewrite Hit. apply insert_non_empty.
    + rewrite Ho in Hl' by done. by eapply Hne.
  - intros [H1 H2]. destruct b; rewrite Hl, lookup_insert_eq in *; done.
Qed.

(** Queueing a transaction whose nonce is not pending. *)
Lemma wp_enqueue_new a tx p :
  pool_inv {[a]} [] [] p → Sender tx = Some a → LK.Get (tx_Hash tx) (p_all p) = None → fits tx p →
  (∀ l, p_pending p !! a = Some l → items l !! tx_Nonce tx = None) →
  wp (enqueueTx (tx_Hash tx) tx true) (ends
    (λ _ p', pool_inv {[a]} [] [] p' ∧ placed false a tx p p' ∧ enters tx p p')
    (λ e p', e = ErrReplaceUnderpriced ∧ p' = p ∧ is_Some (p_queue p !! a))) p.
Proof.
  intros Hinv Hsd Hnew Hfit Hnp.
  destruct (p_queue p !! a ≫= λ l, items l !! tx_Nonce tx) as [old|] eqn:Hq.
  - apply bind_Some in Hq as (l & Hl & Hold). eapply wp_ends_mono; [eapply wp_enqueue_taken; try done; set_solver|..].
    + intros r p' (_ & H1 & H2 & _ & H3). split_and!; try done. by eapply enters_replace.
    + intros e p' (-> & -> & _). rewrite Hl. done.
  - assert (Hfree : ∀ (b : bool) l, (if b then p_pending p else p_queue p) !! a = Some l → items l !! tx_Nonce tx = None).
    { intros [] l Hl; [by apply Hnp|]. by rewrite Hl in Hq. }
    pose proof Hinv as (Hls & Hw & Hi). pose proof Hfit as (Hc & Hn & Hsum & HUt).
    apply wp_ok_ends. eapply wp_ok_mono; [apply (wp_enqueue EffectiveGasTip Sender config self U {[a]} [] [] _ tx a true); [done|done| |done|set_solver]|].
    + cbn. apply inv_new; try done. intros tx' Hk Hs' Heq.
      apply (i_known _ _ _ _ _ _ _ _ _ _ _ Hi) in Hk as [(b & a' & Hat)|?%elem_of_nil]; [|done].
      pose proof (i_sender _ _ _ _ _ _ _ _ _ _ _ Hi _ _ _ Hat) as Hs2. rewrite Hs', Hsd in Hs2. injection Hs2 as <-.
      destruct Hat as (its & Hits & Htx). rewrite content_lookup in Hits. apply fmap_Some in Hits as (l & Hl & ->).
      rewrite Heq, (Hfree b l Hl) in Htx. done.
    + cbn. intros r p' (-> & H1 & H2 & H3 & l & Hl & Hit). split_and!; [done| |by apply enters_new].
      split; [by intros [] ?|]. by exists l.
Qed.

Lemma wp_add_reserved a tx p :
  pool_inv {[a]} [] [] p → nonempty a p → Sender tx = Some a → LK.Get (tx_Hash tx) (p_all p) = None → fits tx p →
  wp (add_reserved a tx) (ends
    (λ _ p', pool_inv {[a]} [] [] p' ∧ nonempty a p' ∧ ¬ untracked a p' ∧ enters tx p p')
    (λ _ p', pool_inv {[a]} [] [] p' ∧ nonempty a p' ∧ (untracked a p ↔ untracked a p') ∧ shrinks p p')) p.
Proof.
  intros Hinv Hne Hsd Hnew Hfit. unfold LP.add_reserved. apply wp_ends_bind. wp_step. cbn [ends].
  apply wp_ends_bind. apply (wp_mono _ (ends
    (λ _ p', pool_inv {[a]} [] [] p' ∧ nonempty a p' ∧ shrinks p p' ∧ (untracked a p → untracked a p'))
    (λ _ p', pool_inv {[a]} [] [] p' ∧ nonempty a p' ∧ (untracked a p ↔ untracked a p') ∧ shrinks p p'))).
  { destruct (overflows config p tx); unfold when; [|wp_steps; refine (conj Hinv (conj Hne (conj _ (λ H, H)))); by intros ?].
    eapply wp_ends_mono; [by apply wp_make_room|by intros [] q (? & ? & ? & ? & _)|].
    intros e q (H1 & P1 & Q1 & A1). unfold nonempty, untracked, shrinks. rewrite P1, Q1, A1. done. }
  intros q [[]|e|s]; [|done..]. cbn [ends]. intros (Hq & Hneq & Hsub & Hunt).
  assert (Hnewq : LK.Get (tx_Hash tx) (p_all q) = None).
  { destruct (LK.Get (tx_Hash tx) (p_all q)) as [tx'|] eqn:Hget; [|done]. exfalso.
    destruct (get_known _ _ _ _ _ _ _ _ _ _ Hq Hget) as [Hk Hh]. apply Hsub in Hk. unfold known in Hk. rewrite Hh in Hk. congruence. }
  assert (Hfitq : fits tx q).
  { destruct Hinv as (_ & _ & Hi). eapply shrinks_fits; [exact Hq|apply Hi| |done|done].
    intros tx' H. by apply (i_wf _ _ _ _ _ _ _ _ _ _ _ Hi). }
  assert (Hent : ∀ q', enters tx q q' → enters tx p q').
  { intros q' [H1 H2]. split; [done|]. intros tx' [?|?%Hsub]%H2; tauto. }
  assert (Herr : ∀ l (b : bool), (if b then p_pending q else p_queue q) !! a = Some l → untracked a p ↔ untracked a q).
  { intros l b Hl. split; [done|]. intros [? ?]. destruct b; congruence. }
  apply wp_ends_bind. wp_step. cbn [ends]. destruct (p_pending q !! a) as [l|] eqn:Hl; [case_match eqn:Hc|].
  - unfold Contains in Hc. apply bool_decide_eq_true in Hc as [old Hold].
    eapply wp_ends_mono; [eapply (wp_replace_pending {[a]} a l old tx q); try done; set_solver|..].
    + intros r p' (_ & H1 & H2 & _ & H3). destruct (placed_nonempty _ _ _ _ _ H2 Hneq).
      split_and!; try done; apply Hent; by eapply enters_replace.
    + intros e p' (-> & -> & _). split_and!; try done; by apply (Herr l true).
  - unfold Contains in Hc. apply bool_decide_eq_false, eq_None_not_Some in Hc.
    eapply wp_ends_mono; [apply wp_enqueue_new; try done; intros ?; rewrite Hl; by intros [= <-]|..].
    + intros r p' (H1 & H2 & H3). destruct (placed_nonempty _ _ _ _ _ H2 Hneq). split_and!; try done; by apply Hent.
    + intros e p' (-> & -> & _). split_and!; try done; by apply (Herr l true).
  - eapply wp_ends_mono; [apply wp_enqueue_new; try done; intros ?; by rewrite Hl|..].
    + intros r p' (H1 & H2 & H3). destruct (placed_nonempty _ _ _ _ _ H2 Hneq). split_and!; try done; by apply Hent.
    + intros e p' (-> & -> & [lq Hlq]). split_and!; try done; by apply (Herr lq false).
Qed.
(** ** Validation *)

Lemma ValidateTransactionWithState_total {S} tx opts (s : S) :
  ∃ r, ValidateTransactionWithState Sender tx opts s = (s, r) ∧ ∀ m, r ≠ Panic m.
Proof.
  unfold ValidateTransactionWithState, reject, when, throw, mbind, M_bind, mret, M_ret. destruct (Sender tx); [|by eexists].
  repeat (case_match; simplify_eq/=; try by eexists).
Qed.

(** The checks only fill the cache of nonces. *)
Definition checked p p' : Prop := ∃ n, p' = set_nonces n p.
Lemma wp_checkDelegationLimit tx p :
  wp (checkDelegationLimit Sender EmptyCodeHash tx) (ends (λ _, checked p) (λ _, checked p)) p.
Proof.
  assert (H0 : checked p p) by (exists (p_nonces p); by destruct p).
  unfold checkDelegationLimit, nonce_get. do 2 (apply wp_ends_bind; wp_step; cbn [ends]). case_match; [by apply wp_ret|].
  apply wp_ends_bind; wp_step; cbn [ends]. destruct (p_pending p !! _).
  - case_match; wp_steps; done.
  - apply wp_ends_bind, wp_intro. intros p1 r. destruct (NC.get _ _ _) as [n v]. intros [= <- <-]. cbn [ends].
    case_match; wp_steps; by exists n.
Qed.
Lemma wp_validateAuth tx p :
  wp (validateAuth Sender EmptyCodeHash self tx) (ends (λ _, checked p) (λ _, checked p)) p.
Proof.
  unfold validateAuth. apply wp_ends_bind. eapply wp_ends_mono; [apply wp_checkDelegationLimit| |done].
  intros [] q Hq. induction (tx_Auths tx) as [|auth auths IH]; cbn [for_each]; [by apply wp_ret|].
  apply wp_ends_bind. wp_steps; done.
Qed.
Lemma wp_validateTx tx p :
  wp (validateTx Sender EmptyCodeHash self tx) (ends
    (λ _ p', checked p p' ∧ Sender tx = Some (sender tx) ∧ affordable (stateOptions p) (sender tx) tx)
    (λ _, checked p)) p.
Proof.
  assert (H0 : checked p p) by (exists (p_nonces p); by destruct p).
  unfold validateTx. apply wp_ends_bind. wp_step. cbn [ends]. apply wp_ends_bind, wp_intro. intros q r Hv.
  destruct (ValidateTransactionWithState_total tx (stateOptions p) p) as (r' & Hv' & Hnp). rewrite Hv' in Hv.
  injection Hv as <- <-. destruct r' as [[]|e|m]; cbn [ends]; [|done|by destruct (Hnp m)].
  apply ValidateTransactionWithState_iff in Hv' as (from & Hsd & Haff); [|done..].
  rewrite (sender_known Sender tx from Hsd). eapply wp_ends_mono; [apply wp_validateAuth|by intros []|done].
Qed.

(** ** [add] *)

Lemma hold_run (rs : RV.ReservationTracker) a :
  rs !! a ≠ Some self →
  RV.Hold self [a] rs = if decide (rs !! a = None) then (<[a := self]> rs, Ok tt) else (rs, Err RV.ErrAlreadyReserved).
Proof.
  intros Hn. rewrite RV.Hold_cons. destruct (rs !! a) as [o|] eqn:Ho; [|by rewrite decide_True].
  rewrite decide_False by done. destruct (Z.eqb_spec o self) as [->|]; done.
Qed.

(** [add] never panics and keeps the invariant, whether it takes the transaction
    or not. *)
Lemma wp_add tx p :
  pool_inv ∅ [] [] p →
  (LK.Get (tx_Hash tx) (p_all p) = None → tx_Cost tx ≤ st_GetBalance (p_state p) (sender tx) → fits tx p) →
  wp (add tx) (ends (λ _ p', pool_inv ∅ [] [] p' ∧ enters tx p p' ∧ affordable (stateOptions p) (sender tx) tx)
    (λ _ p', pool_inv ∅ [] [] p' ∧ shrinks p p')) p.
Proof.
  intros Hinv Hfit. unfold LP.add. apply wp_ends_bind. wp_step. cbn [ends].
  destruct (LK.Get (tx_Hash tx) (p_all p)) eqn:Hnew; [wp_steps; split; [done|by intros ?]|].
  apply wp_ends_bind. eapply wp_ends_mono; [apply wp_validateTx| |intros e q [n ->]; split; [done|by intros ?]].
  intros [] q ([n ->] & Hsd & Haff). specialize (Hfit eq_refl (proj1 (proj2 Haff))). set (a := sender tx) in *.
  apply wp_ends_bind. wp_step. cbn [ends p_pending p_queue set_nonces].
  set (q := set_nonces n p). assert (Hq : pool_inv ∅ [] [] q) by done. pose proof Hq as (Hls & Hw & Hi).
  assert (Hne : nonempty a q) by (intros b l; apply (pool_inv_nonempty EffectiveGasTip Sender self U ∅ [] [] q b a l Hq); set_solver).
  pose proof (i_reserved _ _ _ _ _ _ _ _ _ _ _ Hi a ltac:(set_solver)) as Hres.
  assert (Htr : (∃ b, is_Some (content (p_pending q) (p_queue q) b !! a)) ↔ ¬ untracked a q).
  { setoid_rewrite content_lookup. setoid_rewrite fmap_is_Some. unfold untracked. split.
    - intros [[] [l Hl]] [? ?]; congruence.
    - intros Hn. destruct (p_pending q !! a) as [l|] eqn:H1; [exists true; by rewrite H1|].
      destruct (p_queue q !! a) as [l|] eqn:H2; [exists false; by rewrite H2|]. by destruct Hn. }
  case_bool_decide as Htracked.
  - assert (Hnt : ¬ untracked a q) by (intros [? ?]; destruct Htracked as [[? ?]|[? ?]]; unfold q in *; cbn in *; congruence).
    pose proof (pool_inv_open _ _ _ _ _ _ _ _ a Hq (proj2 Hres (proj2 Htr Hnt))) as Hop.
    rewrite (right_id_L ∅ (∪)) in Hop. eapply wp_ends_mono; [by apply wp_add_reserved|..].
    + intros r q' (H1 & H2 & H3 & H4). split_and!; try done. by eapply close_tracked.
    + intros e q' (H1 & H2 & H3 & H4). split; [|done]. eapply close_tracked; [done..|]. by rewrite <- H3.
  - assert (Hnt : untracked a q).
    { split; apply eq_None_not_Some; intros ?; apply Htracked; auto. }
    assert (Hns : p_reserved q !! a ≠ Some self) by (rewrite Hres, Htr; tauto).
    apply wp_ends_bind, wp_intro. intros q1 r. unfold hold. rewrite (hold_run _ _ Hns). case_decide as Hfree; intros [= <- <-]; cbn [ends].
    2: { split; [exact Hq|by intros ?]. }
    set (q1 := set_reserved _ q). assert (Hop : pool_inv {[a]} [] [] q1).
    { split_and!; [done..|]. rewrite <- (right_id_L ∅ (∪) {[a]}). by apply inv_hold. }
    apply wp_on_err. eapply wp_mono; [by apply (wp_add_reserved a tx q1)|]. intros q2 [r|e|m]; cbn [ends]; [..|done].
    + intros (H1 & H2 & H3 & H4). split_and!; try done. by eapply close_tracked.
    + intros (H1 & H2 & H3 & H4). unfold release. wp_steps. split; [|done]. apply close_untracked; [done|]. by apply H3.
Qed.
End Add.
End LA.
