(* ===== verification/LegacyPoolMaint.v ===== *)
(** Promotion and demotion keep the invariant of the pool, and what the
    operations leave alone: moving, adding, promoting and
    demoting transactions never touches the chain state and the head the pool
    works against, nor the height of its store of rechecked transactions. *)
From S2P Require Import Prelude GoStd AccessList Sdk Heap TxList PoolList Reserver TxLookup PricedList TxStore PoolValidation LegacyPool LegacyPoolReorg PoolInv LegacyPoolInv LegacyPoolAdd.

Module LF.
Import TL PV LP RO.

(** Walk through a computation, using the frames of the operations it calls. *)
Ltac keeps_step :=
  match goal with
  | |- keeps _ (mbind _ _) => apply keeps_bind; [|intros ?]
  | |- keeps _ (modify _) => apply keeps_modify; done
  | |- keeps _ (match ?x with _ => _ end) => destruct x
  | |- keeps _ (let '_ := ?x in _) => destruct x
  | |- keeps _ (when _ _) => apply keeps_when
  | |- keeps _ (for_each _ _) => apply keeps_for_each; intros ?
  end.
Ltac keeps_steps := repeat first [solve [auto with keeps] | keeps_step].

Section Frame.
Context `{HR : MapRange} `{HPR : PoolRange} `{HC : TxChecks} `{RC : Rechecker}.
Context (EffectiveGasTip : Z → Transaction → Z) (Sender : Transaction → option Address).
Context (config : Config) (self : Z).

(** The chain a pool works against, and the height of its store of rechecked
    transactions. *)
Definition chain_of (p : LegacyPool) : ChainState * Header * (Z * bool) :=
  (p_state p, p_head p, (HS.hs_height (p_valid p), HS.hs_ended (p_valid p))).
Abbreviation frame m := (keeps chain_of m).

Lemma at_pending_frame {A} a (op : L A) : frame (at_pending a op).
Proof. intros p p' r. unfold at_pending. destruct (p_pending p !! a); [destruct (op t)|]; by intros [= <- _]. Qed.
Lemma at_queue_frame {A} a (op : L A) : frame (at_queue a op).
Proof. intros p p' r. unfold at_queue. destruct (p_queue p !! a); [destruct (op t)|]; by intros [= <- _]. Qed.
Lemma nonce_get_frame a : frame (nonce_get a).
Proof. intros p p' r. unfold nonce_get. destruct (NC.get _ _ _). by intros [= <- _]. Qed.
Lemma ignore_frame {A} (m : M LegacyPool PoolError A) : frame m → frame (ignore m).
Proof. intros H p p' r. unfold ignore. destruct (m p) as [q [a|e|s]] eqn:Hm; intros [= <- _]; by eapply H. Qed.
Hint Resolve at_pending_frame at_queue_frame nonce_get_frame ignore_frame : keeps.

Lemma all_remove_frame h : frame (all_remove h).
Proof. unfold all_remove. keeps_steps. Qed.
Lemma markTxRemoved_frame a tx pool : frame (markTxRemoved a tx pool).
Proof. unfold markTxRemoved, valid_do, notice. keeps_steps. Qed.
Lemma priced_removed_frame n : frame (priced_removed EffectiveGasTip n).
Proof. unfold priced_removed. keeps_steps. Qed.
Lemma release_frame a : frame (release self a).
Proof. unfold release. keeps_steps. Qed.
Hint Resolve all_remove_frame markTxRemoved_frame priced_removed_frame release_frame : keeps.

Lemma enqueueTx_frame h tx addAll : frame (enqueueTx EffectiveGasTip Sender config h tx addAll).
Proof. unfold enqueueTx, all_add, priced_put, beat, markTxEnqueued, notice. keeps_steps. Qed.
Lemma promoteTx_frame a h tx : frame (promoteTx EffectiveGasTip config a h tx).
Proof. unfold promoteTx, nonce_set, beat, markTxPromoted, valid_do, notice. keeps_steps. Qed.
Lemma discard_frame a pool txs : frame (discard a pool txs).
Proof. unfold discard. keeps_steps. Qed.
Hint Resolve enqueueTx_frame promoteTx_frame discard_frame : keeps.

Lemma removeTx_frame h ob unres : frame (removeTx EffectiveGasTip Sender config self h ob unres).
Proof. unfold removeTx, remove_listed, remove_queued, release_if_gone, drop_empty_pending, nonce_lower. keeps_steps. Qed.
Lemma recheck_list_frame (at_map : ∀ A, L A → M LegacyPool PoolError A) writes ctx b :
  (∀ A op, frame (at_map A op)) → frame (recheck_list at_map writes ctx b).
Proof. intros H. unfold recheck_list. keeps_steps. Qed.
Lemma drop_queued_frame {A} a (op : L A) f : frame (drop_queued a op f).
Proof. unfold drop_queued. keeps_steps. Qed.
Lemma promote_readies_frame a txs : frame (promote_readies EffectiveGasTip config a txs).
Proof. induction txs; cbn; keeps_steps. Qed.
Lemma drop_empty_queue_frame a : frame (drop_empty_queue self a).
Proof. unfold drop_empty_queue. keeps_steps. Qed.
Lemma demote_frame txs : frame (demote EffectiveGasTip Sender config txs).
Proof. unfold demote. keeps_steps. Qed.
Lemma settle_pending_frame a : frame (settle_pending self a).
Proof. unfold settle_pending, valid_do. keeps_steps. Qed.
Hint Resolve removeTx_frame recheck_list_frame drop_queued_frame promote_readies_frame drop_empty_queue_frame : keeps.
Hint Resolve demote_frame settle_pending_frame : keeps.

Lemma promote_account_frame reset a ctx b : frame (promote_account EffectiveGasTip config self reset a ctx b).
Proof. unfold promote_account. keeps_steps. Qed.
Lemma demote_account_frame a : frame (demote_account EffectiveGasTip Sender config self a).
Proof. unfold demote_account. keeps_steps. Qed.
Hint Resolve promote_account_frame demote_account_frame : keeps.

Lemma promoteExecutables_frame accounts cancel reset : frame (promoteExecutables EffectiveGasTip config self accounts cancel reset).
Proof.
  unfold promoteExecutables. apply keeps_bind; [auto with keeps|]. intros rs. destruct (GetContext rs) as [ctx b].
  generalize (@nil Transaction). revert cancel ctx b. induction accounts as [|a rest IH]; intros cancel ctx b promoted; cbn [promote_loop]; keeps_steps.
Qed.
Lemma drop_tail_frame txs drop : frame (drop_tail EffectiveGasTip Sender config self txs drop).
Proof. revert drop. induction txs as [|tx rest IH]; intros drop; cbn [drop_tail]; keeps_steps. Qed.
Hint Resolve drop_tail_frame : keeps.
Lemma truncate_loop_frame addrs drop : frame (truncate_loop EffectiveGasTip Sender config self addrs drop).
Proof. revert drop. induction addrs as [|a rest IH]; intros drop; cbn [truncate_loop]; keeps_steps. Qed.
Hint Resolve truncate_loop_frame : keeps.
Lemma truncateQueue_frame : frame (truncateQueue EffectiveGasTip Sender config self).
Proof. unfold truncateQueue. keeps_steps. Qed.
Lemma forward_events_frame accounts events : frame (forward_events accounts events).
Proof. revert events. induction accounts as [|a rest IH]; intros events; cbn [forward_events]; keeps_steps. Qed.
Lemma last_nonces_frame accounts : frame (last_nonces accounts).
Proof. induction accounts as [|a rest IH]; cbn [last_nonces]; keeps_steps. Qed.

(** Adding, evicting, raising the tip and clearing. *)
Lemma try_frame {A} (m : M LegacyPool PoolError A) : frame m → frame (try m).
Proof. intros H p p' r. unfold try. destruct (m p) as [q [a|e|s]] eqn:Hm; intros [= <- _]; by eapply H. Qed.
Lemma on_err_frame {A} (m : M LegacyPool PoolError A) k : frame m → (∀ e, frame (k e)) → frame (on_err m k).
Proof.
  intros H Hk p p' r. unfold on_err. destruct (m p) as [q [a|e|s]] eqn:Hm; [intros [= <- _]; by eapply H| |intros [= <- _]; by eapply H].
  destruct (k e q) as [q' [a|e'|s]] eqn:Hke; intros [= <- _]; rewrite (Hk _ _ _ _ Hke); by eapply H.
Qed.
Lemma hold_frame a : frame (hold self a).
Proof. intros p p' r. unfold hold. destruct (RV.Hold _ _ _). by intros [= <- _]. Qed.
Lemma reject_frame c e : frame (reject c e).
Proof. unfold reject. auto with keeps. Qed.
Hint Resolve try_frame on_err_frame hold_frame reject_frame : keeps.
Lemma validateTx_frame EmptyCodeHash tx : frame (validateTx Sender EmptyCodeHash self tx).
Proof. unfold validateTx, ValidateTransactionWithState, validateAuth, checkDelegationLimit. keeps_steps. Qed.
Lemma make_room_frame a tx : frame (make_room EffectiveGasTip Sender config self a tx).
Proof.
  unfold make_room, isGapped, priced_put. keeps_steps.
  - intros p p' r. destruct (PR.Underpriced _ _ _ _). by intros [= <- _].
  - intros p p' r. destruct (PR.Discard _ _ _ _). by intros [= <- _].
Qed.
Hint Resolve validateTx_frame make_room_frame : keeps.
Lemma add_frame EmptyCodeHash tx : frame (add EffectiveGasTip Sender EmptyCodeHash config self tx).
Proof. unfold add, add_reserved, replace_pending, all_add, priced_put, markTxReplaced, notice, beat. keeps_steps. apply on_err_frame; [keeps_steps|intros e; keeps_steps]. Qed.
Hint Resolve add_frame : keeps.
Lemma addTxsLocked_frame EmptyCodeHash txs : frame (addTxsLocked EffectiveGasTip Sender EmptyCodeHash config self txs).
Proof. induction txs as [|tx rest IH]; cbn [addTxsLocked]; keeps_steps. Qed.
Lemma verify_blobs_frame i blobs commitments proofs : frame (verify_blobs i blobs commitments proofs).
Proof. revert i. induction blobs as [|b blobs IH]; intros i; cbn [verify_blobs]; keeps_steps. Qed.
Hint Resolve addTxsLocked_frame verify_blobs_frame : keeps.
Lemma ValidateTxBasics_frame tx : frame (ValidateTxBasics Sender tx).
Proof. unfold ValidateTxBasics, ValidateTransaction, validateBlobTx, validateBlobSidecar, lift. keeps_steps. Qed.
Hint Resolve ValidateTxBasics_frame : keeps.
Lemma screen_frame txs : frame (screen Sender txs).
Proof. induction txs as [|tx rest IH]; cbn [screen]; keeps_steps. Qed.
Hint Resolve screen_frame : keeps.
Lemma Add_frame EmptyCodeHash txs : frame (LP.Add EffectiveGasTip Sender EmptyCodeHash config self txs).
Proof. unfold LP.Add. keeps_steps. Qed.
Lemma evict_frame : frame (evict EffectiveGasTip Sender config self).
Proof. unfold evict. keeps_steps. Qed.
Lemma SetGasTip_frame tip : frame (SetGasTip EffectiveGasTip Sender config self tip).
Proof. unfold SetGasTip. keeps_steps. Qed.
Lemma Clear_frame : frame (Clear EffectiveGasTip self).
Proof. unfold Clear. keeps_steps. Qed.
End Frame.
#[export] Hint Resolve at_pending_frame at_queue_frame nonce_get_frame ignore_frame all_remove_frame markTxRemoved_frame : keeps.
#[export] Hint Resolve priced_removed_frame release_frame enqueueTx_frame promoteTx_frame discard_frame removeTx_frame : keeps.
#[export] Hint Resolve recheck_list_frame promote_account_frame demote_account_frame promoteExecutables_frame : keeps.
#[export] Hint Resolve truncateQueue_frame forward_events_frame last_nonces_frame addTxsLocked_frame : keeps.
#[export] Hint Resolve Add_frame evict_frame SetGasTip_frame Clear_frame : keeps.
End LF.

(** Promotion and demotion keep the invariant of the pool, with any rechecker
    and at any point where a reset is cancelled. *)


Module LM.
Import SM TL PV LP RO PI LI LA LF.

(** In a queue, a filter demotes nothing. *)
Lemma filters_lax `{HR : MapRange} op f l l' removed invalids :
  filters op f l l' removed invalids → l_strict l = false → invalids = [].
Proof.
  intros ((_ & _ & _ & _ & Hp) & Hd & Hi) Hs.
  assert (Hk : items l' = kept f (items l)).
  { apply map_eq. intros n. apply option_eq. intros tx. unfold items. rewrite Hi, Hs, survives_lax.
    unfold kept. rewrite map_lookup_filter_Some. done. }
  fold (items l) in Hp, Hd. fold (items l') in Hp. rewrite Hk, (kept_dropped f (items l)), Hd in Hp.
  apply Permutation_length in Hp. rewrite !length_app in Hp. destruct invalids; [done|cbn in Hp; lia].
Qed.

Section Maint.
Context `{HR : MapRange} `{HRL : !MapRangeLaws} `{HPR : PoolRange} `{HPRL : !PoolRangeLaws} `{HC : TxChecks} `{RC : Rechecker}.
Context (EffectiveGasTip : Z → Transaction → Z) (Sender : Transaction → option Address).
Context (config : Config) (self : Z) (U : Transaction → Prop).
Implicit Types p q : LegacyPool.
Abbreviation pool_inv := (pool_inv EffectiveGasTip Sender self U).
Abbreviation sender := (sender Sender).
Abbreviation promote_account := (promote_account EffectiveGasTip config self).
Abbreviation demote_account := (demote_account EffectiveGasTip Sender config self).
#[local] Arguments markTxRemoved : simpl never.
#[local] Arguments LK.Remove : simpl never.
#[local] Arguments PR.Removed : simpl never.

Lemma pool_inv_perm E lim lim' dropped p : lim ≡ₚ lim' → pool_inv E lim dropped p → pool_inv E lim' dropped p.
Proof. intros Hp (? & ? & ?). split_and!; [done..|]. by eapply inv_perm. Qed.

(** Start working on a tracked account. *)
Lemma open_tracked p (b : bool) a l :
  pool_inv ∅ [] [] p → (if b then p_pending p else p_queue p) !! a = Some l → pool_inv {[a]} [] [] p.
Proof.
  intros Hinv Hl. rewrite <- (right_id_L ∅ (∪) {[a]}). apply pool_inv_open; [done|].
  apply (i_reserved _ _ _ _ _ _ _ _ _ _ _ (proj2 (proj2 Hinv)) a); [set_solver|]. exists b. by rewrite content_lookup, Hl.
Qed.

(** ** Rechecking a list *)

(** How an account's list is reached in the pool. *)
Definition side (b : bool) p : gmap Address txlist := if b then p_pending p else p_queue p.
Definition at_side (b : bool) (a : Address) {A} (op : L A) : M LegacyPool PoolError A :=
  if b then at_pending a op else at_queue a op.

Lemma wp_take {A} b lim a (op : L A) l r removed l' p :
  pool_inv {[a]} lim [] p → side b p !! a = Some l → removes op l r removed l' →
  wp (at_side b a op) (ok_with (λ r' p', r' = r ∧ pool_inv {[a]} (removed ++ lim) [] p' ∧
    side b p' = <[a := l']> (side b p) ∧ side (negb b) p' = side (negb b) p)) p.
Proof.
  intros Hinv Hl Hr. destruct b; cbn in *; [eapply wp_take_pending|eapply wp_take_queue]; try done; set_solver.
Qed.

(** An operation that only fills the cache of a list. *)
Lemma wp_touch {A} b a (op : L A) l r l' p :
  pool_inv ∅ [] [] p → side b p !! a = Some l → removes op l r [] l' → items l' = items l →
  wp (at_side b a op) (ok_with (λ r' p', r' = r ∧ pool_inv ∅ [] [] p' ∧
    side b p' = <[a := l']> (side b p) ∧ side (negb b) p' = side (negb b) p)) p.
Proof.
  intros Hinv Hl Hr Hi. eapply wp_ok_mono; [apply (wp_take b [] a op l r [] l'); [by eapply (open_tracked p b)|done|done]|].
  cbn [ok_with]. intros r' p' (-> & H1 & H2 & H3). split_and!; [done| |done|done].
  assert (Hne : ∀ b' l0, side b' p !! a = Some l0 → items l0 ≠ ∅).
  { intros b' l0. apply (pool_inv_nonempty EffectiveGasTip Sender self U ∅ [] [] p b' a); [done|set_solver]. }
  apply (close_tracked EffectiveGasTip Sender self U a p'); [done| |].
  - intros b' l0 Hl0. change (side b' p' !! a = Some l0) in Hl0. destruct (decide (b' = b)) as [->|Hb].
    + rewrite H2, lookup_insert_eq in Hl0. injection Hl0 as <-. rewrite Hi. by eapply Hne.
    + replace b' with (negb b) in Hl0 by (by destruct b, b'). rewrite H3 in Hl0. by eapply Hne.
  - assert (Hs : side b p' !! a = Some l') by (by rewrite H2, lookup_insert_eq).
    intros [? ?]. destruct b; cbn in Hs; congruence.
Qed.

(** An account in the middle of its round: a list on side [b] and no empty list
    on the other one. *)
Definition working (b : bool) (a : Address) (lim : Transactions) p : Prop :=
  pool_inv {[a]} lim [] p ∧ is_Some (side b p !! a) ∧ ∀ l, side (negb b) p !! a = Some l → items l ≠ ∅.

Lemma working_list b a lim p l : working b a lim p → side b p !! a = Some l → list_ok l ∧ l_strict l = b.
Proof. intros ((Hls & _) & _) Hl. by apply (Hls b a). Qed.

(** A removal in the middle of a round. *)
Lemma wp_take_working {A} b a lim (op : L A) r removed l l' p (Q : A → Transactions → txlist → Prop) :
  working b a lim p → side b p !! a = Some l → removes op l r removed l' → Q r removed l' →
  wp (at_side b a op) (ok_with (λ r' p', ∃ removed' l', Q r' removed' l' ∧ side b p' !! a = Some l' ∧
    working b a (removed' ++ lim) p' ∧
    Forall (λ tx, Sender tx = Some a) removed' ∧
    (∀ a', a' ≠ a → side b p' !! a' = side b p !! a') ∧ side (negb b) p' = side (negb b) p)) p.
Proof.
  intros Hwk Hl Hr HQ. pose proof Hwk as (Hinv & _ & Hne). destruct (working_list _ _ _ _ _ Hwk Hl) as [Hok _].
  eapply wp_ok_mono; [by eapply wp_take|]. cbn. intros r' p' (-> & H1 & H2 & H3). exists removed, l'. split_and!; [done|by rewrite H2, lookup_insert_eq|..|done].
  - split_and!; [done|by rewrite H2, lookup_insert_eq|by rewrite H3].
  - pose proof Hr as (_ & _ & _ & _ & Hp). eapply (removes_senders EffectiveGasTip Sender self U {[a]} lim [] p b a l); [done..|].
    intros tx Hin. unfold items. rewrite Hp. set_solver.
  - intros a' Hne'. by rewrite H2, lookup_insert_ne.
Qed.

(** The rechecker decides which transactions of the list go. *)
Lemma wp_recheck b a lim writes ctx br p :
  working b a lim p →
  wp (recheck_list (λ A, at_side b a (A := A)) writes ctx br) (ok_with (λ r p',
    let '(_, _, (drops, invalids)) := r in
    working b a (drops ++ invalids ++ lim) p' ∧ Forall (λ tx, Sender tx = Some a) invalids ∧
    (b = false → invalids = []) ∧ (∀ l l', side b p !! a = Some l → side b p' !! a = Some l' → items l' ⊆ items l) ∧
    (∀ a', a' ≠ a → side b p' !! a' = side b p !! a') ∧ side (negb b) p' = side (negb b) p)) p.
Proof.
  intros Hwk. pose proof Hwk as (_ & [l Hl] & _). destruct (working_list _ _ _ _ _ Hwk Hl) as [Hok Hst].
  unfold recheck_list. destruct (Flatten_removes l Hok) as (l1 & Hf & Hi1). apply wp_ok_bind.
  eapply wp_ok_mono; [eapply (wp_take_working b a lim _ _ [] l l1 p (λ r rem l2, rem = [] ∧ items l2 = items l)); [done|done|exact Hf|done]|].
  cbn. intros sorted p1 (? & l1' & [-> Hi1'] & Hl1 & Hw1 & _ & O1 & S1). wp_steps.
  destruct (recheck_txs _ _ _ _ _) as [[[rs ctx'] br'] drops]. wp_steps. cbn.
  set (p2 := set_rechecker rs p1). assert (Hw2 : working b a lim p2) by (by destruct b).
  pose proof Hw2 as (_ & [l2 Hl2] & _). destruct (working_list _ _ _ _ _ Hw2 Hl2) as [Hok2 Hst2].
  destruct (FilterSorted_run (λ tx, bool_decide (tx ∈ drops)) l2 Hok2) as (l3 & invalids & Hfl).
  eapply wp_ok_mono; [eapply (wp_take_working b a lim _ _ _ l2 l3 p2 (λ r rem l4, rem = r.1 ++ r.2 ∧ (b = false → r.2 = []) ∧ items l4 ⊆ items l2)); [done|done|apply Hfl|]|].
  { split_and!; [done| |apply Hfl]. intros ->. by eapply filters_lax. }
  cbn. intros [rd ri] p3 (? & l4 & (-> & Hlax & Hsub) & Hl4 & Hw3 & Hsd & O3 & S3). apply Forall_app in Hsd as [_ Hsd].
  wp_steps. split_and!; [by rewrite <- app_assoc in Hw3|done|done|..].
  - intros l0 l0' H0 H0'. assert (l0' = l4) as -> by congruence. assert (l0 = l) as -> by congruence.
    assert (l2 = l1') as -> by (unfold p2 in Hl2; destruct b; cbn in *; congruence). by rewrite <- Hi1'.
  - intros a' Hne. rewrite O3 by done. unfold p2. destruct b; cbn in *; by apply O1.
  - rewrite S3. unfold p2. by destruct b.
Qed.

(** Transactions in no list leave the table in the middle of a round. *)
Lemma wp_discard_working b a lim pool txs p :
  working b a (txs ++ lim) p →
  wp (discard a pool txs) (ok_with (λ _ p', working b a lim p' ∧ (∀ b', side b' p' = side b' p))) p.
Proof.
  intros (Hinv & Hs & Hne). eapply wp_ok_mono; [by apply wp_discard|]. cbn. intros [] p' (H1 & H2 & H3).
  assert (Hsame : ∀ b', side b' p' = side b' p) by (intros []; done). split; [|done]. unfold working. by rewrite !Hsame.
Qed.
(** ** Promotion *)

(** Other accounts keep their lists. *)
Definition others (a : Address) p p' : Prop := ∀ a' b, a' ≠ a → side b p' !! a' = side b p !! a'.

Lemma others_trans a p q r : others a p q → others a q r → others a p r.
Proof. intros H1 H2 a' b Hne. by rewrite H2, H1. Qed.
Lemma others_side a b p p' :
  (∀ a', a' ≠ a → side b p' !! a' = side b p !! a') → side (negb b) p' = side (negb b) p → others a p p'.
Proof. intros H1 H2 a' b' Hne. destruct (decide (b' = b)) as [->|]; [by apply H1|]. by replace b' with (negb b) by (by destruct b, b'); rewrite H2. Qed.
Lemma others_same a p p' : (∀ b, side b p' = side b p) → others a p p'.
Proof. intros H a' b _. by rewrite H. Qed.

Lemma wp_promote_readies a readies p :
  working false a readies p → Forall (λ tx, Sender tx = Some a) readies →
  wp (promote_readies EffectiveGasTip config a readies) (ok_with (λ promoted p', promoted = readies ∧ working false a [] p' ∧
    others a p p' ∧ side false p' = side false p)) p.
Proof.
  revert p. induction readies as [|tx rest IH]; intros p (Hinv & Hq & Hne) Hsd; cbn [promote_readies].
  { wp_steps. split_and!; done. }
  apply Forall_cons in Hsd as [Htx Hsd]. apply wp_ok_bind.
  eapply wp_ok_mono; [apply (wp_promote EffectiveGasTip Sender config self U {[a]} rest [] (tx_Hash tx) tx a p); [done|done|set_solver]|].
  cbn. intros ok p1 (-> & H1 & H2 & l & H3 & Hl). apply wp_ok_bind. eapply wp_ok_mono.
  { apply IH; [|done]. split_and!; [done|by cbn; rewrite H2|]. cbn. rewrite H3, lookup_insert_eq. by intros l' [= <-]. }
  cbn. intros promoted p2 (-> & Hw & Ho & Hs). wp_steps. split_and!; [done|done| |by rewrite Hs].
  eapply others_trans; [|done]. eapply (others_side a true); cbn; [|done]. intros a' Hne'. by rewrite H3, lookup_insert_ne.
Qed.

(** The end of the round of an account. *)
Lemma wp_drop_empty_queue a p :
  working false a [] p →
  wp (drop_empty_queue self a) (ok_with (λ _ p', pool_inv ∅ [] [] p' ∧ others a p p')) p.
Proof.
  intros (Hinv & [l Hl] & Hne). cbn in Hl, Hne. unfold drop_empty_queue. apply wp_ok_bind. wp_step. cbn. rewrite (len_empty _ _ _ Hl).
  unfold when. case_bool_decide as Hd.
  - apply wp_ok_bind. wp_step. cbn. set (p1 := set_beats _ _).
    assert (Hinv1 : pool_inv {[a]} [] [] p1) by (eapply pool_inv_del_que; [done..|set_solver]).
    assert (Hne1 : nonempty a p1).
    { intros [] l'; [apply Hne|]. unfold p1. cbn. by rewrite lookup_delete_eq. }
    assert (Ho : others a p p1) by (apply (others_side a false); [cbn; intros a' ?; by rewrite lookup_delete_ne|done]).
    apply wp_ok_bind. wp_step. cbn. destruct (p_pending p !! a) as [lp|] eqn:Hp.
    + rewrite bool_decide_true by done. cbn [negb]. wp_steps. split; [|done]. apply (close_tracked EffectiveGasTip Sender self U a p1); [done..|].
      unfold untracked, p1. cbn. rewrite Hp. by intros [? _].
    + rewrite bool_decide_false by (by intros [? ?]). unfold release. cbn [negb]. wp_steps. split; [|done].
      apply (close_untracked EffectiveGasTip Sender self U a p1); [done|]. unfold untracked, p1. cbn. by rewrite lookup_delete_eq.
  - wp_steps. split; [|by apply others_same]. eapply close_tracked; [done| |].
    + intros [] l'; [apply Hne|]. cbn in Hl. rewrite Hl. by intros [= <-].
    + unfold untracked. cbn in Hl. rewrite Hl. by intros [_ ?].
Qed.

(** A method of the list that removes, followed by dropping what it removed. *)
Lemma wp_drop_queued {A} a (op : L A) (f : A → Transactions) p :
  working false a [] p → (∀ l, list_ok l → l_strict l = false → ∃ r l', removes op l r (f r) l') →
  wp (drop_queued a op f) (ok_with (λ _ p', working false a [] p' ∧ others a p p')) p.
Proof.
  intros Hwk Hop. pose proof Hwk as (_ & [l Hl] & _). destruct (working_list _ _ _ _ _ Hwk Hl) as [Hok Hst].
  destruct (Hop l Hok Hst) as (r & l' & Hr). unfold drop_queued. apply wp_ok_bind.
  eapply wp_ok_mono; [eapply (wp_take_working false a [] op r (f r) l l' p (λ r rem _, rem = f r)); done|].
  cbn [ok_with]. intros r' p1 (? & l1 & -> & _ & Hw1 & _ & O1 & S1). apply wp_ok_bind.
  eapply wp_ok_mono; [by apply (wp_discard_working false)|]. cbn [ok_with]. intros [] p2 (Hw2 & S2).
  wp_steps. split; [done|]. eapply others_trans; [by apply (others_side a false)|by apply others_same].
Qed.

(** One account is promoted. *)
Lemma wp_promote_account reset a ctx br p :
  pool_inv ∅ [] [] p → is_Some (p_queue p !! a) →
  wp (promote_account reset a ctx br) (ok_with (λ _ p', pool_inv ∅ [] [] p' ∧ others a p p')) p.
Proof.
  intros Hinv [l Hl]. pose proof (proj1 (proj2 Hinv)) as Hwords.
  assert (Hwk : working false a [] p).
  { split_and!; [by eapply (open_tracked p false)|done|]. intros l'.
    apply (pool_inv_nonempty EffectiveGasTip Sender self U ∅ [] [] p true a); [done|set_solver]. }
  unfold RO.promote_account. do 2 (apply wp_ok_bind; wp_step; cbn [ok_with]).
  apply wp_ok_bind. eapply wp_ok_mono; [apply wp_drop_queued; [done|]|].
  { intros l' Hok _. destruct (Forward_run (st_GetNonce (p_state p) a) l' Hok) as (l1 & Hf & _). by eexists _, l1. }
  cbn [ok_with]. intros n1 p1 [Hw1 O1]. apply wp_ok_bind. eapply wp_ok_mono; [apply wp_drop_queued; [done|]|].
  { intros l' Hok Hst. destruct (CostFilter_run _ (hd_GasLimit (p_head p)) l' Hok (words_word _ a Hwords)) as (l1 & removed & invalids & Hc).
    pose proof (filters_lax _ _ _ _ _ _ Hc Hst) as ->. exists (removed, []), l1. destruct Hc as [Hc _]. by rewrite app_nil_r in Hc. }
  cbn [ok_with]. intros n2 p2 [Hw2 O2]. apply wp_ok_bind.
  eapply wp_ok_mono; [by apply (wp_recheck false a [])|]. cbn [ok_with].
  intros [[ctx' br'] [rd ri]] p3 (Hw3 & _ & Hri & _ & O3 & S3). rewrite (Hri eq_refl) in Hw3. cbn [app] in Hw3. apply wp_ok_bind.
  eapply wp_ok_mono; [by apply (wp_discard_working false)|]. cbn [ok_with]. intros [] p4 (Hw4 & S4).
  unfold nonce_get. apply wp_ok_bind, wp_intro. intros p5 r5. destruct (NC.get _ _ _) as [n next]. intros [= <- <-]. cbn [ok_with].
  set (p5 := set_nonces n p4). assert (Hw5 : working false a [] p5) by done.
  pose proof Hw5 as (_ & [l5 Hl5] & _). destruct (working_list _ _ _ _ _ Hw5 Hl5) as [Hok5 _].
  assert (∃ ready l6, removes (Ready next) l5 ready ready l6) as (ready & l6 & Hr).
  { destruct (Ready_run next l5 Hok5) as (l6 & [(_ & Hr & _)|(n' & e & _ & _ & _ & _ & Hr & _)]); by eexists _, l6. }
  apply wp_ok_bind. eapply wp_ok_mono; [eapply (wp_take_working false a [] _ _ _ l5 l6 p5 (λ r rem _, rem = r)); done|].
  cbn [ok_with]. intros readies p6 (? & ? & -> & _ & Hw6 & Hsd & O6 & S6). rewrite app_nil_r in Hw6. apply wp_ok_bind.
  eapply wp_ok_mono; [by apply wp_promote_readies|]. cbn [ok_with]. intros promoted p7 (-> & Hw7 & O7 & _).
  apply wp_ok_bind. eapply wp_ok_mono; [apply wp_drop_queued; [done|]|].
  { intros l' Hok _. destruct (Cap_run (Z.to_nat (AccountQueue config)) l' Hok) as (l8 & Hc & _). by eexists _, l8. }
  cbn [ok_with]. intros n8 p8 [Hw8 O8]. apply wp_ok_bind.
  destruct Hw8 as (Hi8 & Hs8 & Hn8). eapply wp_ok_mono; [by apply wp_priced_removed|]. cbn [ok_with].
  intros [] p9 (H9 & P9 & Q9 & _). assert (S9 : ∀ b, side b p9 = side b p8) by (intros []; done).
  apply wp_ok_bind. eapply wp_ok_mono; [apply wp_drop_empty_queue|].
  { split_and!; [done|by rewrite S9|]. intros l'. rewrite S9. apply Hn8. }
  cbn [ok_with]. intros [] p10 (H10 & O10). wp_steps. split; [done|].
  eapply others_trans; [exact O1|]. eapply others_trans; [exact O2|].
  eapply others_trans; [exact (others_side a false p2 p3 O3 S3)|]. eapply others_trans; [exact (others_same a p3 p4 S4)|].
  eapply others_trans; [exact (others_side a false p5 p6 O6 S6)|]. eapply others_trans; [exact O7|].
  eapply others_trans; [exact O8|]. by eapply others_trans; [exact (others_same a p8 p9 S9)|].
Qed.

(** ** Demotion *)

(** Moving transactions to the queue in the middle of a round. *)
Lemma wp_demote_working a txs p :
  working true a txs p → Forall (λ tx, Sender tx = Some a) txs →
  wp (demote EffectiveGasTip Sender config txs) (ok_with (λ _ p', working true a [] p' ∧ others a p p' ∧
    p_pending p' = p_pending p)) p.
Proof.
  intros (Hinv & Hp & Hne) Hsd. eapply wp_ok_mono.
  { apply (wp_demote EffectiveGasTip Sender config self U {[a]} [] [] a txs); [by rewrite app_nil_r|done|set_solver]. }
  cbn. intros [] p' (H1 & H2 & _ & H3 & _ & H4). split_and!; [split_and!; [done|by cbn; rewrite H2|]| |done].
  - cbn. intros l Hl. destruct (H4 l Hl) as [H|]; [by apply Hne|done].
  - apply (others_side a false); [done|]. cbn. done.
Qed.

(** What every pending list is after a reset: it starts at the nonce of its
    account, and the account can pay for each of its transactions, which fit in
    a block. *)
Definition executable (st : ChainState) (head : Header) (a : Address) (l : txlist) : Prop :=
  is_Some (items l !! st_GetNonce st a) ∧
  ∀ n tx, items l !! n = Some tx →
    st_GetNonce st a ≤ n ∧ tx_Cost tx ≤ st_GetBalance st a ∧ tx_Gas tx ≤ hd_GasLimit head.

(** The end of the round of a pending account. *)
Lemma wp_settle_pending a p :
  working true a [] p →
  wp (settle_pending self a) (ok_with (λ _ p', pool_inv ∅ [] [] p' ∧ others a p p' ∧
    ∀ l', p_pending p' !! a = Some l' → ∃ l, p_pending p !! a = Some l ∧ items l' = items l ∧ items l ≠ ∅)) p.
Proof.
  intros Hwk. pose proof Hwk as (Hinv & [l Hl] & Hne). cbn in Hl, Hne. destruct (working_list _ _ _ _ _ Hwk Hl) as [Hok _].
  unfold settle_pending. apply wp_ok_bind. wp_step. cbn. rewrite (len_empty _ _ _ Hl). case_bool_decide as Hd.
  - apply wp_ok_bind. wp_step. cbn. set (p1 := set_pending _ _).
    assert (Hinv1 : pool_inv {[a]} [] [] p1) by (eapply pool_inv_del_pend; [done..|set_solver]).
    assert (Hne1 : nonempty a p1).
    { intros [] l'; [|apply Hne]. unfold p1. cbn. by rewrite lookup_delete_eq. }
    assert (Ho : others a p p1) by (apply (others_side a true); [cbn; intros a' ?; by rewrite lookup_delete_ne|done]).
    apply wp_ok_bind. wp_step. cbn. unfold when. case_bool_decide as Hq; unfold release; cbn [negb]; wp_steps;
      (split_and!; [|done|by unfold p1; cbn; rewrite lookup_delete_eq]).
    + apply (close_tracked EffectiveGasTip Sender self U a p1); [done..|]. destruct Hq as [lq Hq].
      unfold untracked, p1. cbn. rewrite Hq. by intros [_ ?].
    + apply (close_untracked EffectiveGasTip Sender self U a p1); [done|]. unfold untracked, p1. cbn.
      rewrite lookup_delete_eq. split; [done|]. by apply eq_None_not_Some.
  - destruct (Flatten_removes l Hok) as (l1 & Hf & Hi1). apply wp_ok_bind.
    eapply wp_ok_mono; [eapply (wp_take_pending EffectiveGasTip Sender self U {[a]} [] [] a _ l); [done|done|set_solver|exact Hf]|].
    cbn. intros txs p1 (_ & H1 & P1 & Q1). unfold valid_do. wp_steps. split_and!.
    + apply (close_tracked EffectiveGasTip Sender self U a p1); [done| |].
      * intros [] l'; [rewrite P1, lookup_insert_eq; intros [= <-]; by rewrite Hi1|rewrite Q1; apply Hne].
      * unfold untracked. rewrite P1, lookup_insert_eq. by intros [? _].
    + apply (others_side a true); cbn; [intros a' ?; by rewrite P1, lookup_insert_ne|done].
    + intros l'. rewrite P1, lookup_insert_eq. intros [= <-]. exists l. split_and!; [done..|]. done.
Qed.

(** The transactions of a list that passed [Forward] and [CostFilter]. *)
Definition paid (st : ChainState) (head : Header) (a : Address) (l : txlist) : Prop :=
  ∀ n tx, items l !! n = Some tx →
    st_GetNonce st a ≤ n ∧ tx_Cost tx ≤ st_GetBalance st a ∧ tx_Gas tx ≤ hd_GasLimit head.
Lemma paid_filtered st head a l l1 l2 removed invalids :
  items l1 = from (st_GetNonce st a) (items l) →
  filters (CostFilter (st_GetBalance st a) (hd_GasLimit head)) (over (st_GetBalance st a) (hd_GasLimit head)) l1 l2 removed invalids →
  paid st head a l2.
Proof.
  intros H1 (_ & _ & Hi) n tx Hn%Hi. destruct Hn as (Hn & Hf & _). unfold items in H1. rewrite H1 in Hn.
  apply map_lookup_filter_Some in Hn as [_ Hn]. apply orb_false_iff in Hf as [?%Z.ltb_ge ?%Z.ltb_ge]. done.
Qed.

(** A step on a pending list whose removed transactions are dropped. *)
Lemma wp_drop_pending {A B} a (op : L A) l r drops rest l' lim (K : A → M LegacyPool PoolError B) k (Q : B → LegacyPool → Prop) p :
  working true a lim p → p_pending p !! a = Some l → removes op l r (drops ++ rest) l' →
  K r = (discard a Pending drops;; k) →
  (∀ p', working true a (rest ++ lim) p' → Forall (λ tx, Sender tx = Some a) rest → others a p p' → p_pending p' !! a = Some l' →
    wp k (ok_with Q) p') →
  wp (at_pending a op ≫= K) (ok_with Q) p.
Proof.
  intros Hwk Hl Hr HK Hk. apply wp_ok_bind.
  eapply wp_ok_mono; [eapply (wp_take_working true a lim op r (drops ++ rest) l l' p (λ r' rem l'', r' = r ∧ rem = drops ++ rest ∧ l'' = l')); done|].
  cbn [ok_with]. intros r' p1 (? & ? & (-> & -> & ->) & Hl1 & Hw1 & Hsd & O1 & S1). rewrite <- app_assoc in Hw1. rewrite HK. apply wp_ok_bind.
  eapply wp_ok_mono; [by apply (wp_discard_working true)|]. cbn [ok_with]. intros [] p2 (Hw2 & S2).
  apply Forall_app in Hsd as [_ Hsd]. apply Hk; [done|done| |by specialize (S2 true); cbn in S2, Hl1; rewrite S2].
  eapply others_trans; [by apply (others_side a true)|by apply others_same].
Qed.

Lemma txs_size (its : gmap Z Transaction) : length (txs_of its) = size its.
Proof. unfold txs_of. by rewrite length_fmap, length_map_to_list. Qed.

(** A list that does not start at the nonce of its account goes back to the
    queue. *)
Lemma wp_unblock a l nonce p :
  working true a [] p → p_pending p !! a = Some l →
  wp (if (0 <? Len l)%nat && bool_decide (SM.Get (l_txs l) nonce = None)
      then gapped ← at_pending a (Cap 0); demote EffectiveGasTip Sender config gapped else mret tt)
    (ok_with (λ _ p', working true a [] p' ∧ others a p p' ∧
      ∀ l', p_pending p' !! a = Some l' → items l' = ∅ ∨ l' = l ∧ is_Some (items l !! nonce))) p.
Proof.
  intros Hwk Hl. destruct (working_list _ _ _ _ _ Hwk Hl) as [Hok _].
  destruct (Nat.ltb_spec 0 (Len l)) as [Hlen|Hlen]; cbn [andb].
  2: { wp_steps. split_and!; [done..|]. intros l'. rewrite Hl. intros [= <-]. left. apply map_size_empty_inv.
       unfold Len, SM.Len in Hlen. fold (items l) in Hlen. lia. }
  case_bool_decide as Hd.
  2: { wp_steps. split_and!; [done..|]. intros l'. rewrite Hl. intros [= <-]. right. split; [done|].
       unfold SM.Get in Hd. fold (items l) in Hd. by apply not_eq_None_Some. }
  destruct (Cap_run 0 l Hok) as (l1 & Hc & Hs). apply wp_ok_bind.
  eapply wp_ok_mono; [eapply (wp_take_working true a [] _ _ _ l l1 p (λ r rem l', rem = r ∧ l' = l1)); done|].
  cbn [ok_with]. intros gapped p1 (? & ? & [-> ->] & Hl1 & Hw1 & Hsd & O1 & S1). rewrite app_nil_r in Hw1.
  eapply wp_ok_mono; [by apply wp_demote_working|]. cbn [ok_with]. intros [] p2 (Hw2 & O2 & P2).
  split_and!; [done|eapply others_trans; [by apply (others_side a true)|done]|].
  intros l'. cbn in Hl1. rewrite P2, Hl1. intros [= <-]. left. apply map_size_empty_inv.
  fold (items l1) in Hs. by rewrite <- txs_size, <- sorted_txs_perm, Hs.
Qed.

(** One account is demoted. *)
Lemma wp_demote_account a p :
  pool_inv ∅ [] [] p → is_Some (p_pending p !! a) →
  wp (demote_account a) (ok_with (λ _ p', pool_inv ∅ [] [] p' ∧ others a p p' ∧
    ∀ l, p_pending p' !! a = Some l → executable (p_state p) (p_head p) a l)) p.
Proof.
  intros Hinv [l Hl]. pose proof (proj1 (proj2 Hinv)) as Hwords.
  assert (Hwk : working true a [] p).
  { split_and!; [by eapply (open_tracked p true)|done|]. intros l'.
    apply (pool_inv_nonempty EffectiveGasTip Sender self U ∅ [] [] p false a); [done|set_solver]. }
  destruct (working_list _ _ _ _ _ Hwk Hl) as [Hok _].
  unfold RO.demote_account. do 2 (apply wp_ok_bind; wp_step; cbn [ok_with]). set (st := p_state p). set (head := p_head p).
  destruct (Forward_run (st_GetNonce st a) l Hok) as (l1 & Hf & Hi1).
  eapply (wp_drop_pending a _ l _ _ [] l1); [done|done|by rewrite app_nil_r|done|]. intros p1 Hw1 _ O1 Hl1. cbn [app] in Hw1.
  destruct (working_list _ _ _ _ _ Hw1 Hl1) as [Hok1 _].
  destruct (CostFilter_run _ (hd_GasLimit head) l1 Hok1 (words_word _ a Hwords)) as (l2 & drops & invalids & Hc).
  pose proof (paid_filtered _ _ _ _ _ _ _ _ Hi1 Hc) as Hpaid.
  eapply (wp_drop_pending a _ l1 (drops, invalids) drops invalids l2); [done|done|apply Hc|done|].
  intros p2 Hw2 Hsd2 O2 Hl2. apply wp_ok_bind. wp_step. cbn [ok_with]. destruct (GetContext (p_rechecker p2)) as [ctx br].
  rewrite app_nil_r in Hw2. apply wp_ok_bind. eapply wp_ok_mono; [by apply (wp_recheck true a invalids)|]. cbn [ok_with].
  intros [[ctx' br'] [rd ri]] p3 (Hw3 & Hsd3 & _ & Hsub & O3 & S3). apply wp_ok_bind.
  eapply wp_ok_mono; [by apply (wp_discard_working true)|]. cbn [ok_with]. intros [] p4 (Hw4 & S4).
  assert (Hw4' : working true a (invalids ++ ri) p4).
  { destruct Hw4 as (Hi4 & ? & ?). split_and!; [|done..]. eapply pool_inv_perm; [|done]. apply Permutation_app_comm. }
  apply wp_ok_bind. eapply wp_ok_mono; [apply wp_demote_working; [done|by apply Forall_app]|]. cbn [ok_with].
  intros [] p5 (Hw5 & O5 & P5). pose proof Hw5 as (_ & [l5 Hl5] & _). cbn in Hl5.
  assert (Hpaid5 : paid st head a l5).
  { intros n tx Hn. apply Hpaid. eapply lookup_weaken; [exact Hn|]. eapply Hsub; [exact Hl2|]. cbn.
    specialize (S4 true). cbn in S4. by rewrite <- S4, <- P5. }
  assert (O5' : others a p p5).
  { eapply others_trans; [exact O1|]. eapply others_trans; [exact O2|].
    eapply others_trans; [exact (others_side a true p2 p3 O3 S3)|]. by eapply others_trans; [exact (others_same a p3 p4 S4)|]. }
  apply wp_ok_bind. wp_step. cbn [ok_with]. rewrite Hl5. apply wp_ok_bind.
  eapply wp_ok_mono; [by apply (wp_unblock a l5 (st_GetNonce st a) p5)|].
  cbn [ok_with]. intros [] p6 (Hw6 & O6 & H6).
  eapply wp_ok_mono; [by apply wp_settle_pending|]. cbn [ok_with]. intros [] p7 (H7 & O7 & L7).
  split_and!; [done|by do 2 (eapply others_trans; [done|])|]. intros l7 (l6 & Hl6 & Hi7 & Hne)%L7.
  destruct (H6 l6 Hl6) as [He|[-> Hn]]; [done|]. split; [by rewrite Hi7|]. intros n tx. rewrite Hi7. apply Hpaid5.
Qed.

(** ** The loops *)

Lemma wp_promote_loop reset cancel accounts ctx br promoted p :
  pool_inv ∅ [] [] p →
  wp (promote_loop EffectiveGasTip config self reset cancel accounts ctx br promoted) (ok_with (λ _ p', pool_inv ∅ [] [] p')) p.
Proof.
  revert cancel ctx br promoted p. induction accounts as [|a rest IH]; intros cancel ctx br promoted p Hinv; cbn [promote_loop];
    [by wp_steps|]. destruct (isReorgCancelled reset cancel); [by wp_steps|].
  apply wp_ok_bind. wp_step. cbn [ok_with]. case_bool_decide as Hq; cbn [negb]; [|by apply IH].
  apply wp_ok_bind. eapply wp_ok_mono; [by apply wp_promote_account|]. cbn [ok_with].
  intros [[ctx' br'] more] p1 [H1 _]. by apply IH.
Qed.
Lemma wp_promoteExecutables accounts cancel reset p :
  pool_inv ∅ [] [] p →
  wp (promoteExecutables EffectiveGasTip config self accounts cancel reset) (ok_with (λ _ p', pool_inv ∅ [] [] p')) p.
Proof.
  intros Hinv. unfold promoteExecutables. apply wp_ok_bind. wp_step. cbn [ok_with].
  destruct (GetContext (p_rechecker p)). by apply wp_promote_loop.
Qed.

(** A run that is not cancelled checks every account. *)
Definition completes (reset : bool) (cancel : option nat) : Prop := reset = false ∨ cancel = None.
Lemma completes_goes_on reset cancel : completes reset cancel → isReorgCancelled reset cancel = false ∧ completes reset (pred <$> cancel).
Proof. unfold completes, isReorgCancelled. intros [->| ->]; cbn; [by auto|]. rewrite bool_decide_false by done. by rewrite andb_false_r; auto. Qed.

Lemma wp_demote_loop reset cancel accounts p :
  NoDup accounts → (∀ a, a ∈ accounts → is_Some (p_pending p !! a)) → pool_inv ∅ [] [] p →
  wp (demote_loop EffectiveGasTip Sender config self reset cancel accounts) (ok_with (λ _ p', pool_inv ∅ [] [] p' ∧
    chain_of p' = chain_of p ∧ (∀ a, a ∉ accounts → p_pending p' !! a = p_pending p !! a) ∧
    (completes reset cancel → ∀ a l, a ∈ accounts → p_pending p' !! a = Some l → executable (p_state p) (p_head p) a l))) p.
Proof.
  revert cancel p. induction accounts as [|a rest IH]; intros cancel p Hnd Hsome Hinv; cbn [demote_loop].
  { wp_steps. split_and!; [done..|]. intros _ a l ?%elem_of_nil. done. }
  apply NoDup_cons in Hnd as [Ha Hnd]. destruct (isReorgCancelled reset cancel) eqn:Hcan.
  { wp_steps. split_and!; [done..|]. intros [Hc _]%completes_goes_on. congruence. }
  apply wp_ok_bind. eapply wp_mono.
  { apply (wp_keeps chain_of); [auto with keeps|]. apply wp_demote_account; [done|]. apply Hsome. set_solver. }
  intros p1 [[]|e|s] [Hw Hch]; [|done..]. cbn [ok_with] in *. destruct Hw as (H1 & O1 & L1).
  pose proof Hch as [= Hst Hhd _ _]. eapply wp_ok_mono.
  { apply IH; [done| |done]. intros a' Ha'. change (is_Some (side true p1 !! a')). rewrite O1 by (by intros ->). apply Hsome. set_solver. }
  cbn [ok_with]. intros [] p2 (H2 & C2 & O2 & L2). split_and!; [done|congruence|..].
  - intros a' Hn. rewrite O2 by set_solver. apply (O1 a' true). set_solver.
  - intros [_ Hc]%completes_goes_on a' l' Hin Hl'. destruct (decide (a' = a)) as [->|Hne].
    + rewrite O2 in Hl' by done. by apply L1.
    + rewrite <- Hst, <- Hhd. apply (L2 Hc a' l'); [set_solver|done].
Qed.
Lemma wp_demoteUnexecutables cancel reset p :
  pool_inv ∅ [] [] p →
  wp (demoteUnexecutables EffectiveGasTip Sender config self cancel reset) (ok_with (λ _ p', pool_inv ∅ [] [] p' ∧
    chain_of p' = chain_of p ∧
    (completes reset cancel → ∀ a l, p_pending p' !! a = Some l → executable (p_state p) (p_head p) a l))) p.
Proof.
  intros Hinv. unfold demoteUnexecutables. apply wp_ok_bind. wp_step. cbn [ok_with].
  eapply wp_ok_mono; [apply wp_demote_loop; [apply range_nodup|by intros a; apply range_mem|done]|].
  cbn [ok_with]. intros [] p' (H1 & H2 & H3 & H4). split_and!; [done..|]. intros Hc a l Hl. apply (H4 Hc); [|done].
    destruct (decide (a ∈ pool_range (p_pending p))) as [|Hn]; [done|]. apply range_mem. rewrite H3 in Hl by done. by exists l.
Qed.
End Maint.
End LM.
