(* ===== verification/LegacyPoolLimits.v ===== *)
(** The limits of the pool: eviction and the truncation of the queue and of the
    pending lists keep the invariant, and truncation brings the pool within its
    configured sizes. *)
From S2P Require Import Prelude GoStd AccessList Sdk Heap TxList PoolList Reserver TxLookup PricedList TxStore PoolValidation LegacyPool LegacyPoolReorg PoolInv LegacyPoolInv LegacyPoolAdd LegacyPoolMaint.

Module LL.
Import SM TL PV LP RO PI LI LA LF LM.

(** ** Counting *)

Lemma list_sum_cons x (l : list nat) : list_sum (x :: l) = (x + list_sum l)%nat.
Proof. done. Qed.

Section Count.
Implicit Types m : gmap Address txlist.
Lemma total_len_delete m a l : m !! a = Some l → total_len m = (Len l + total_len (delete a m))%nat.
Proof.
  intros Hl. unfold total_len. rewrite <- (insert_delete_id m a l Hl) at 1.
  rewrite map_to_list_insert by apply lookup_delete_eq. done.
Qed.
Lemma total_len_at m a : total_len m = (list_len m a + total_len (delete a m))%nat.
Proof.
  unfold list_len. destruct (m !! a) as [l|] eqn:Hl; [by apply total_len_delete|]. by rewrite delete_id.
Qed.
(** Changing the list of one account. *)
Lemma total_change m m' a :
  (∀ a', a' ≠ a → m' !! a' = m !! a') → (total_len m' + list_len m a = total_len m + list_len m' a)%nat.
Proof.
  intros Hne. rewrite (total_len_at m a), (total_len_at m' a). replace (delete a m') with (delete a m); [lia|].
  apply map_eq. intros a'. destruct (decide (a' = a)) as [->|]; [by rewrite !lookup_delete_eq|]. by rewrite !lookup_delete_ne, Hne.
Qed.
Lemma total_len_keys m : total_len m = list_sum (list_len m <$> (map_to_list m).*1).
Proof.
  unfold total_len. f_equal. rewrite <- !list_fmap_compose. apply list_fmap_ext. intros i [a l] Hi. cbn.
  apply list_elem_of_lookup_2, elem_of_map_to_list in Hi. unfold list_len. by rewrite Hi.
Qed.
Lemma list_sum_perm (l1 l2 : list nat) : l1 ≡ₚ l2 → list_sum l1 = list_sum l2.
Proof. intros H. induction H as [|x l1 l2 _ IH|x y l|l1 l2 l3 _ IH1 _ IH2]; rewrite ?list_sum_cons; [done|by rewrite IH|lia|congruence]. Qed.
Lemma list_len_le m a : (list_len m a ≤ total_len m)%nat.
Proof. rewrite (total_len_at m a). lia. Qed.
Lemma total_len_range `{HPR : PoolRange} `{HPRL : !PoolRangeLaws} m : total_len m = list_sum (list_len m <$> pool_range m).
Proof. rewrite total_len_keys. apply list_sum_perm. by rewrite pool_range_perm. Qed.
Lemma total_len_mono m m' : (∀ a, list_len m' a ≤ list_len m a)%nat → (total_len m' ≤ total_len m)%nat.
Proof.
  revert m. induction m' as [|a l m' Ha IH] using map_ind; intros m Hle; [unfold total_len at 1; rewrite map_to_list_empty; cbn; lia|].
  rewrite (total_len_at (<[a := l]> m') a), (total_len_at m a), delete_insert_eq, delete_id by done.
  pose proof (Hle a). enough (total_len m' ≤ total_len (delete a m))%nat by lia. apply IH. intros a'. unfold list_len.
  destruct (decide (a' = a)) as [->|Hne]; [rewrite Ha; lia|]. rewrite lookup_delete_ne by done.
  specialize (Hle a'). unfold list_len in Hle. by rewrite lookup_insert_ne in Hle.
Qed.
(** The count of the code, which adds 64-bit words. *)
Lemma count_words (f : Address → nat) (addrs : list Address) n :
  0 ≤ n → n + Z.of_nat (list_sum (f <$> addrs)) < 2 ^ 64 →
  foldl (λ n a, u64_add n (Z.of_nat (f a))) n addrs = n + Z.of_nat (list_sum (f <$> addrs)).
Proof.
  revert n. induction addrs as [|a rest IH]; intros n Hn Hlt; cbn [foldl fmap list_fmap] in *; rewrite ?list_sum_cons in *; [cbn; lia|].
  replace (u64_add n (Z.of_nat (f a))) with (n + Z.of_nat (f a)) by (unfold u64_add, wrap; rewrite Z.mod_small; lia). rewrite IH; lia.
Qed.
Lemma count_pool `{HPR : PoolRange} `{HPRL : !PoolRangeLaws} m :
  Z.of_nat (total_len m) < 2 ^ 64 →
  foldl (λ n a, u64_add n (Z.of_nat (list_len m a))) 0 (pool_range m) = Z.of_nat (total_len m).
Proof. intros H. rewrite total_len_range in *. rewrite count_words; lia. Qed.
End Count.

Lemma StronglySorted_mono {A} (R R' : A → A → Prop) (l : list A) :
  StronglySorted R l → (∀ a b, a ∈ l → b ∈ l → R a b → R' a b) → StronglySorted R' l.
Proof.
  intros Hs. induction Hs as [|a l Hs IH Hf]; intros HR; constructor.
  - apply IH. intros ? ? ? ?. apply HR; set_solver.
  - rewrite Forall_forall in *. intros b Hb. apply HR; [set_solver..|by apply Hf].
Qed.

Section Limits.
Context `{HR : MapRange} `{HRL : !MapRangeLaws} `{HPR : PoolRange} `{HPRL : !PoolRangeLaws} `{HC : TxChecks} `{RC : Rechecker}.
Context (EffectiveGasTip : Z → Transaction → Z) (Sender : Transaction → option Address).
Context (config : Config) (self : Z) (U : Transaction → Prop).
Implicit Types p q : LegacyPool.
Abbreviation pool_inv := (pool_inv EffectiveGasTip Sender self U).
Abbreviation pool_ok := (pool_inv ∅ [] []).
Abbreviation sender := (sender Sender).
Abbreviation removeTx := (removeTx EffectiveGasTip Sender config self).

#[local] Arguments markTxRemoved : simpl never.
#[local] Arguments LK.Remove : simpl never.
#[local] Arguments PR.Removed : simpl never.

(** ** Removing queued transactions *)

Definition queued p (a : Address) : gmap Z Transaction := default ∅ (items <$> p_queue p !! a).
Lemma queued_len p a : list_len (p_queue p) a = size (queued p a).
Proof. unfold list_len, queued. by destruct (p_queue p !! a). Qed.

(** From [p] to [p'] only the queue of [a] changed. *)
Definition requeued (a : Address) p p' : Prop :=
  pool_ok p' ∧ p_pending p' = p_pending p ∧ (∀ a', a' ≠ a → p_queue p' !! a' = p_queue p !! a').
Lemma requeued_trans a p1 p2 p3 : requeued a p1 p2 → requeued a p2 p3 → requeued a p1 p3.
Proof. intros (_ & P1 & O1) (? & P2 & O2). split_and!; [done|congruence|]. intros a' Hne. by rewrite O2, O1. Qed.

Lemma queued_known p a tx : pool_ok p → queued p a !! tx_Nonce tx = Some tx → known (p_all p) tx ∧ sender tx = a.
Proof.
  intros (_ & _ & Hi) Hq. unfold queued in Hq. destruct (p_queue p !! a) as [l|] eqn:Hl; [|done]. cbn in Hq.
  assert (Hat : at_ (content (p_pending p) (p_queue p)) false a tx) by (exists (items l); by rewrite content_lookup, Hl).
  split; [apply (i_known _ _ _ _ _ _ _ _ _ _ _ Hi); eauto|]. by apply sender_known, (i_sender _ _ _ _ _ _ _ _ _ _ _ Hi _ _ _ Hat).
Qed.
Lemma wp_remove_one a tx p :
  pool_ok p → queued p a !! tx_Nonce tx = Some tx →
  wp (removeTx (tx_Hash tx) true true) (ok_with (λ _ p', requeued a p p' ∧ queued p' a = delete (tx_Nonce tx) (queued p a))) p.
Proof.
  intros Hinv Hq. destruct (queued_known p a tx Hinv Hq) as [Hkn <-].
  eapply wp_ok_mono; [apply (wp_removeTx EffectiveGasTip Sender config self U ∅ [] _ true true); [done|set_solver]|].
  cbn [ok_with]. intros n p' (H1 & _ & Hun & _). destruct (Hun tx Hkn) as (Ho & Huq & _).
  unfold queued in Hq. destruct (p_queue p !! sender tx) as [l|] eqn:Hl; [|done].
  destruct (Huq l Hl Hq) as [Hp Hd]. split; [split_and!; [done..|]|].
  - intros a' Hne. by apply Ho.
  - unfold queued. by rewrite Hl.
Qed.

(** Removing some of the transactions of a queue. *)
Lemma wp_remove_each a txs p :
  pool_ok p → NoDup (tx_Nonce <$> txs) → (∀ tx, tx ∈ txs → queued p a !! tx_Nonce tx = Some tx) →
  wp (for_each txs (λ tx, removeTx (tx_Hash tx) true true;; mret tt))
    (ok_with (λ _ p', requeued a p p' ∧ (list_len (p_queue p') a + length txs = list_len (p_queue p) a)%nat)) p.
Proof.
  revert p. induction txs as [|tx rest IH]; intros p Hinv Hnd Hq; cbn [for_each].
  { wp_steps. split; [done|cbn; lia]. }
  cbn in Hnd. apply NoDup_cons in Hnd as [Hnew Hnd]. pose proof (Hq tx ltac:(set_solver)) as Htx.
  apply wp_ok_bind, wp_ok_bind. eapply wp_ok_mono; [by apply (wp_remove_one a)|]. cbn [ok_with].
  intros n p1 [H1 Hd]. wp_step. cbn [ok_with]. eapply wp_ok_mono; [apply IH; [apply H1|done|]|].
  - intros tx' Hin. rewrite Hd, lookup_delete_ne; [apply Hq; set_solver|]. intros Heq. apply Hnew.
    rewrite Heq. by apply list_elem_of_fmap_2.
  - cbn [ok_with]. intros [] p2 [H2 Hlen]. split; [by eapply requeued_trans|].
    rewrite !queued_len in *. rewrite Hd, map_size_delete_Some in Hlen by done.
    assert (size (queued p a) ≠ 0)%nat by (rewrite map_size_non_empty_iff; intros He; by rewrite He in Htx). cbn. lia.
Qed.

(** The transactions of a queue. *)
Lemma wp_flatten_queue a p :
  pool_ok p → is_Some (p_queue p !! a) →
  wp (at_queue a Flatten) (ok_with (λ txs p', requeued a p p' ∧ queued p' a = queued p a ∧
    NoDup (tx_Nonce <$> txs) ∧ (∀ tx, tx ∈ txs → queued p a !! tx_Nonce tx = Some tx) ∧
    length txs = list_len (p_queue p) a)) p.
Proof.
  intros Hinv [l Hl]. destruct (proj1 Hinv false a l Hl) as [Hok _]. destruct (Flatten_removes l Hok) as (l1 & Hf & Hi1).
  assert (Hk : ∀ n tx, items l !! n = Some tx → tx_Nonce tx = n) by apply (ac_keyed l (proj2 Hok)).
  eapply wp_ok_mono; [by eapply (wp_touch EffectiveGasTip Sender self U false a _ l)|].
  cbn [ok_with side negb]. intros txs p1 (-> & H1 & Q1 & P1). unfold queued. rewrite Hl, Q1, lookup_insert_eq. cbn. split_and!.
  - split_and!; [done|done|intros a' ?; by rewrite Q1, lookup_insert_ne].
  - done.
  - rewrite sorted_txs_perm. unfold txs_of. rewrite <- list_fmap_compose.
    replace ((tx_Nonce ∘ snd) <$> map_to_list (items l)) with ((map_to_list (items l)).*1); [apply NoDup_fst_map_to_list|].
    apply list_fmap_ext. intros i [n tx] Hi. cbn. symmetry. apply Hk. by eapply elem_of_map_to_list, list_elem_of_lookup_2.
  - intros tx. rewrite sorted_txs_perm. by apply keyed_txs.
  - rewrite (Permutation_length (sorted_txs_perm (items l))), txs_size. unfold list_len. by rewrite Hl.
Qed.

(** ** Eviction *)

Lemma wp_evict p : pool_ok p → wp (evict EffectiveGasTip Sender config self) (ok_with (λ _ p', pool_ok p' ∧ p_pending p' = p_pending p)) p.
Proof.
  intros Hinv. unfold evict. apply wp_ok_bind. wp_step. cbn [ok_with].
  eapply wp_ok_mono; [apply (wp_for_each _ _ (λ rest q, pool_ok q ∧ p_pending q = p_pending p ∧
    NoDup rest ∧ ∀ a, a ∈ rest → is_Some (p_queue q !! a)))|by intros [] p' (? & ? & _)].
  - intros a rest q (Hq & Hp & [Ha Hnd]%NoDup_cons & Hsome). apply wp_ok_bind. wp_step. cbn [ok_with].
    destruct (_ <? _); [|wp_steps; split_and!; [done..|]; set_solver].
    apply wp_ok_bind. eapply wp_ok_mono; [apply wp_flatten_queue; [done|apply Hsome; set_solver]|].
    cbn [ok_with]. intros txs q1 (H1 & Hq1 & Hn & Hin & _).
    eapply wp_ok_mono; [apply (wp_remove_each a); [apply H1|done|by rewrite Hq1]|]. cbn [ok_with].
    intros [] q2 [H2 _]. destruct (requeued_trans _ _ _ _ H1 H2) as (Hok & Hp2 & Ho). split_and!; [done|congruence|done|].
    intros a' Ha'. rewrite Ho by (by intros ->). apply Hsome. set_solver.
  - split_and!; [done..|apply range_nodup|]. intros a. apply range_mem.
Qed.

(** ** The limit of the queue *)

Lemma u64_sub_small a b : 0 ≤ b ≤ a → a < 2 ^ 64 → u64_sub a b = a - b.
Proof. intros ? ?. unfold u64_sub, wrap. rewrite Z.mod_small; lia. Qed.

(** Removing from the end of a queue, as many as there are to drop. *)
Lemma wp_drop_tail a txs drop p :
  pool_ok p → NoDup (tx_Nonce <$> txs) → (∀ tx, tx ∈ txs → queued p a !! tx_Nonce tx = Some tx) →
  0 ≤ drop ≤ Z.of_nat (length txs) → drop < 2 ^ 64 →
  wp (drop_tail EffectiveGasTip Sender config self txs drop)
    (ok_with (λ d p', d = 0 ∧ requeued a p p' ∧ Z.of_nat (list_len (p_queue p') a) + drop = Z.of_nat (list_len (p_queue p) a))) p.
Proof.
  revert drop p. induction txs as [|tx rest IH]; intros drop p Hinv Hnd Hq Hd Hlt; cbn [drop_tail].
  { cbn in Hd. wp_steps. split_and!; [lia|done..|lia]. }
  destruct (Z.ltb_spec 0 drop); [|wp_steps; split_and!; [lia|done..|lia]].
  cbn in Hnd, Hd. apply NoDup_cons in Hnd as [Hnew Hnd]. pose proof (Hq tx ltac:(set_solver)) as Htx.
  apply wp_ok_bind. eapply wp_ok_mono; [by apply (wp_remove_one a)|]. cbn [ok_with]. intros n p1 [H1 Hdel].
  rewrite u64_sub_small by lia. eapply wp_ok_mono; [apply IH; [apply H1|done| |lia..]|].
  - intros tx' Hin. rewrite Hdel, lookup_delete_ne; [apply Hq; set_solver|]. intros Heq. apply Hnew.
    rewrite Heq. by apply list_elem_of_fmap_2.
  - cbn [ok_with]. intros d p2 (-> & H2 & Hlen). split_and!; [done|by eapply requeued_trans|].
    rewrite !queued_len in *. rewrite Hdel, map_size_delete_Some in Hlen by done.
    assert (size (queued p a) ≠ 0)%nat by (rewrite map_size_non_empty_iff; intros He; by rewrite He in Htx). lia.
Qed.

(** The queue lost as many transactions as there were to drop. *)
Lemma wp_truncate_loop addrs drop p :
  pool_ok p → NoDup addrs → (∀ a, a ∈ addrs → is_Some (p_queue p !! a)) →
  0 ≤ drop ≤ Z.of_nat (list_sum (list_len (p_queue p) <$> addrs)) → drop < 2 ^ 64 →
  wp (truncate_loop EffectiveGasTip Sender config self addrs drop)
    (ok_with (λ _ p', pool_ok p' ∧ p_pending p' = p_pending p ∧
      Z.of_nat (total_len (p_queue p')) + drop = Z.of_nat (total_len (p_queue p)))) p.
Proof.
  revert drop p. induction addrs as [|a rest IH]; intros drop p Hinv Hnd Hsome Hd Hlt; cbn [truncate_loop].
  { cbn in Hd. wp_steps. split_and!; [done..|lia]. }
  cbn [fmap list_fmap] in Hd. rewrite list_sum_cons in Hd. apply NoDup_cons in Hnd as [Ha Hnd].
  destruct (Z.leb_spec drop 0); [wp_steps; split_and!; [done..|lia]|].
  apply wp_ok_bind. wp_step. cbn [ok_with]. apply wp_ok_bind.
  eapply wp_ok_mono; [apply wp_flatten_queue; [done|apply Hsome; set_solver]|].
  cbn [ok_with]. intros txs p1 (H1 & Hq1 & Hn & Hin & Hlen).
  pose proof (queued_len p a) as L0. pose proof (queued_len p1 a) as L1. rewrite Hq1 in L1.
  (* what the rest of the loop needs *)
  assert (Hrest : ∀ p2 d, requeued a p p2 → Z.of_nat (list_len (p_queue p2) a) + d = Z.of_nat (list_len (p_queue p) a) →
    (∀ a', a' ∈ rest → is_Some (p_queue p2 !! a')) ∧ list_len (p_queue p2) <$> rest = list_len (p_queue p) <$> rest ∧
    Z.of_nat (total_len (p_queue p2)) + d = Z.of_nat (total_len (p_queue p))).
  { intros p2 d (_ & _ & Ho) Hd2. split_and!.
    - intros a' Ha'. rewrite Ho by (by intros ->). apply Hsome. set_solver.
    - apply list_fmap_ext. intros i a' Hi%list_elem_of_lookup_2. unfold list_len. rewrite Ho; [done|by intros ->].
    - pose proof (total_change (p_queue p) (p_queue p2) a Ho). lia. }
  destruct (Z.leb_spec (Z.of_nat (list_len (p_queue p) a)) drop).
  - apply wp_ok_bind. eapply wp_ok_mono; [apply (wp_remove_each a); [apply H1|done|by rewrite Hq1]|]. cbn [ok_with].
    intros [] p2 [H2 Hl2]. pose proof (requeued_trans _ _ _ _ H1 H2) as H12.
    destruct (Hrest p2 (Z.of_nat (list_len (p_queue p) a)) H12 ltac:(lia)) as (R1 & R2 & R3).
    rewrite u64_sub_small by lia. eapply wp_ok_mono; [apply IH; [apply H12|done|done|rewrite R2; lia|lia]|].
    cbn [ok_with]. intros [] p3 (H3 & P3 & T3). split_and!; [done|rewrite P3; apply H12|lia].
  - apply wp_ok_bind. eapply wp_ok_mono; [apply (wp_drop_tail a); [apply H1|..]|].
    + by rewrite fmap_reverse, reverse_Permutation.
    + intros tx. rewrite elem_of_reverse, Hq1. apply Hin.
    + rewrite length_reverse. lia.
    + done.
    + cbn [ok_with]. intros d p2 (-> & H2 & Hl2). pose proof (requeued_trans _ _ _ _ H1 H2) as H12.
      destruct (Hrest p2 drop H12 ltac:(lia)) as (R1 & R2 & R3).
      eapply wp_ok_mono; [apply IH; [apply H12|done|done|lia|lia]|].
      cbn [ok_with]. intros [] p3 (H3 & P3 & T3). split_and!; [done|rewrite P3; apply H12|lia].
Qed.

Lemma wp_truncateQueue p :
  pool_ok p → 0 ≤ GlobalQueue config → Z.of_nat (total_len (p_queue p)) < 2 ^ 64 →
  wp (truncateQueue EffectiveGasTip Sender config self)
    (ok_with (λ _ p', pool_ok p' ∧ p_pending p' = p_pending p ∧
      Z.of_nat (total_len (p_queue p')) = Z.min (Z.of_nat (total_len (p_queue p))) (GlobalQueue config))) p.
Proof.
  intros Hinv Hg Hlt. unfold truncateQueue. apply wp_ok_bind. wp_step. cbn [ok_with]. rewrite count_pool by done.
  destruct (Z.leb_spec (Z.of_nat (total_len (p_queue p))) (GlobalQueue config)); [wp_steps; split_and!; [done..|lia]|].
  apply wp_ok_bind. wp_step. cbn [ok_with]. set (addrs := reverse _).
  assert (Hperm : addrs ≡ₚ pool_range (p_queue p)) by (unfold addrs; by rewrite reverse_Permutation, merge_sort_Permutation).
  rewrite u64_sub_small by lia. eapply wp_ok_mono; [apply wp_truncate_loop; [done|..]|].
  - rewrite Hperm. apply range_nodup.
  - intros a. rewrite Hperm. apply range_mem.
  - rewrite (list_sum_perm _ (list_len (p_queue p) <$> pool_range (p_queue p))), <- total_len_range by (by rewrite Hperm). lia.
  - lia.
  - cbn [ok_with]. intros [] p' (H1 & P1 & T1). split_and!; [done..|lia].
Qed.

(** ** The limit of the pending lists *)

Abbreviation plen p a := (list_len (p_pending p) a).

(** A list that lost transactions from its end, but not all. *)
Definition trimmed (l l' : txlist) : Prop :=
  items l' ⊆ items l ∧ items l' ≠ ∅ ∧
  ∀ a n, is_Some (items l' !! a) → is_Some (items l !! n) → n ≤ a → is_Some (items l' !! n).
(** From [p] to [p'] only the ends of pending lists went. *)
Definition trims p p' : Prop :=
  pool_ok p' ∧ p_queue p' = p_queue p ∧ chain_of p' = chain_of p ∧
  ∀ a l', p_pending p' !! a = Some l' → ∃ l, p_pending p !! a = Some l ∧ trimmed l l'.

Lemma trimmed_trans l1 l2 l3 : trimmed l1 l2 → trimmed l2 l3 → trimmed l1 l3.
Proof.
  intros (S1 & _ & D1) (S2 & N2 & D2). split_and!; [by etrans|done|]. intros a n Ha Hn Hle.
  apply (D2 a n Ha); [|done]. apply (D1 a n); [|done..]. destruct Ha as [x Hx]. exists x. by eapply lookup_weaken.
Qed.
Lemma trims_refl p : pool_ok p → trims p p.
Proof.
  intros Hinv. split_and!; [done..|]. intros a l Hl. exists l. split; [done|]. split_and!; [done| |done].
  apply (pool_inv_nonempty EffectiveGasTip Sender self U ∅ [] [] p true a l Hinv); [set_solver|done].
Qed.
Lemma trims_trans p1 p2 p3 : trims p1 p2 → trims p2 p3 → trims p1 p3.
Proof.
  intros (_ & Q1 & C1 & T1) (? & Q2 & C2 & T2). split_and!; [done|congruence|congruence|].
  intros a l3 (l2 & Hl2 & H2)%T2. destruct (T1 a l2 Hl2) as (l1 & Hl1 & H1). exists l1. split; [done|by eapply trimmed_trans].
Qed.

(** Transactions cut from a pending list leave the table. *)
Lemma wp_cut a caps lim p :
  pool_inv {[a]} (caps ++ lim) [] p →
  wp (for_each caps (λ tx, all_remove (tx_Hash tx);; markTxRemoved a tx Pending;; nonce_lower a (tx_Nonce tx)))
    (ok_with (λ _ p', pool_inv {[a]} lim [] p' ∧ p_pending p' = p_pending p ∧ p_queue p' = p_queue p)) p.
Proof.
  intros Hinv. apply (wp_for_each caps _ (λ rest p', pool_inv {[a]} (rest ++ lim) [] p' ∧
    p_pending p' = p_pending p ∧ p_queue p' = p_queue p)); [|done].
  intros tx rest p1 ((Hls & Hw & Hi) & H1 & H2). unfold all_remove. apply wp_ok_bind. wp_step. cbn. apply wp_ok_bind.
  eapply wp_ok_mono; [apply (wp_markTxRemoved EffectiveGasTip Sender self U {[a]} (rest ++ lim) [])|].
  - split_and!; [done..|]. cbn. by apply inv_forget.
  - cbn. intros [] p' (? & Hp & Hq & _). unfold nonce_lower. wp_steps. rewrite Hp, Hq. done.
Qed.

Lemma drop_last_frame a : keeps chain_of (drop_last EffectiveGasTip a).
Proof. unfold drop_last, nonce_lower. keeps_steps. Qed.

(** A list of at least two loses its last transaction. *)
Lemma wp_drop_last a p :
  pool_ok p → (2 ≤ plen p a)%nat →
  wp (drop_last EffectiveGasTip a) (ok_with (λ _ p', trims p p' ∧ plen p' a = (plen p a - 1)%nat ∧
    ∀ a', a' ≠ a → p_pending p' !! a' = p_pending p !! a')) p.
Proof.
  intros Hinv Hlen. eapply wp_mono; [apply (wp_keeps chain_of _ (ok_with (λ _ p', pool_ok p' ∧ p_queue p' = p_queue p ∧
    (∀ a', a' ≠ a → p_pending p' !! a' = p_pending p !! a') ∧
    ∃ l l', p_pending p !! a = Some l ∧ p_pending p' !! a = Some l' ∧ trimmed l l' ∧ plen p' a = (plen p a - 1)%nat)));
    [apply drop_last_frame|]|].
  2: { intros p' [[]|e|s] [Hw Hch]; [|done..]. destruct Hw as (H1 & H2 & H3 & l & l' & Hl & Hl' & Ht & Hn). cbn.
       split_and!; [split_and!; [done..|]|done|done]. intros a' l0 H0. destruct (decide (a' = a)) as [->|Hne].
       - exists l. split; [done|congruence].
       - rewrite H3 in H0 by done. destruct (trims_refl p Hinv) as (_ & _ & _ & Hr). by apply Hr. }
  unfold list_len in Hlen. destruct (p_pending p !! a) as [l|] eqn:Hl; [|lia].
  destruct (proj1 Hinv true a l Hl) as [Hok _].
  pose proof (open_tracked EffectiveGasTip Sender self U p true a l Hinv Hl) as Hop.
  destruct (Cap_run (Len l - 1) l Hok) as (l1 & Hc & Hs). pose proof Hc as (_ & _ & _ & Hsub & _).
  fold (items l) in Hsub, Hs. fold (items l1) in Hsub, Hs.
  assert (Hn1 : size (items l1) = (Len l - 1)%nat).
  { rewrite <- txs_size, <- sorted_txs_perm, Hs, length_take, (Permutation_length (sorted_txs_perm _)), txs_size.
    unfold Len, SM.Len. fold (items l). lia. }
  assert (Ht : trimmed l l1).
  { split_and!; [done| |intros k n; apply (take_prefix _ _ _ k n (ac_keyed l (proj2 Hok)) Hsub Hs)].
    intros He. rewrite He, map_size_empty in Hn1. lia. }
  unfold drop_last. apply wp_ok_bind. wp_step. cbn [ok_with]. unfold list_len. rewrite Hl. apply wp_ok_bind.
  eapply wp_ok_mono; [eapply (wp_take_pending EffectiveGasTip Sender self U {[a]} [] [] a _ l); [done|done|set_solver|exact Hc]|].
  cbn [ok_with]. intros caps p1 (-> & H1 & P1 & Q1). apply wp_ok_bind.
  eapply wp_ok_mono; [by apply wp_cut|]. cbn [ok_with]. intros [] p2 (H2 & P2 & Q2).
  eapply wp_ok_mono; [by apply wp_priced_removed|]. cbn [ok_with]. intros [] p3 (H3 & P3 & Q3 & _).
  rewrite P2, P1 in P3. split_and!; [|congruence|intros a' ?; by rewrite P3, lookup_insert_ne|].
  - apply (close_tracked EffectiveGasTip Sender self U a p3); [done| |].
    + intros [] l'; [rewrite P3, lookup_insert_eq; intros [= <-]; apply Ht|]. rewrite Q3, Q2, Q1.
      apply (pool_inv_nonempty EffectiveGasTip Sender self U ∅ [] [] p false a l' Hinv). set_solver.
    + unfold untracked. rewrite P3, lookup_insert_eq. by intros [? _].
  - exists l, l1. rewrite P3, lookup_insert_eq. split_and!; [done..|]. done.
Qed.

(** One round over the offenders. *)
Lemma wp_drop_round offs pending p :
  pool_ok p → NoDup offs → (∀ a, a ∈ offs → 2 ≤ plen p a)%nat →
  pending = Z.of_nat (total_len (p_pending p)) → pending < 2 ^ 64 →
  wp (drop_round EffectiveGasTip offs pending) (ok_with (λ n p', trims p p' ∧ n = Z.of_nat (total_len (p_pending p')) ∧
    (∀ a, a ∈ offs → plen p' a = plen p a - 1)%nat ∧ (∀ a, a ∉ offs → p_pending p' !! a = p_pending p !! a))) p.
Proof.
  intros Hinv Hnd Hlen Hp Hlt. unfold drop_round.
  enough (Hr : wp (for_each offs (drop_last EffectiveGasTip)) (ok_with (λ _ p', trims p p' ∧
    foldl (λ n _, u64_sub n 1) pending offs = Z.of_nat (total_len (p_pending p')) ∧
    (∀ a, a ∈ offs → plen p' a = plen p a - 1)%nat ∧ (∀ a, a ∉ offs → p_pending p' !! a = p_pending p !! a))) p).
  { apply wp_ok_bind. eapply wp_ok_mono; [exact Hr|]. cbn. intros [] p' H. wp_steps. done. }
  revert pending p Hinv Hlen Hp Hlt. induction offs as [|a rest IH]; intros pending p Hinv Hlen Hp Hlt; cbn [for_each foldl].
  { wp_steps. split_and!; [by apply trims_refl|done|set_solver|done]. }
  apply NoDup_cons in Hnd as [Ha Hnd]. apply wp_ok_bind.
  eapply wp_ok_mono; [apply wp_drop_last; [done|apply Hlen; set_solver]|]. cbn [ok_with]. intros [] p1 (T1 & L1 & O1).
  pose proof (Hlen a ltac:(set_solver)) as Hla. pose proof (total_change _ _ a O1) as Htot. pose proof (list_len_le (p_pending p) a).
  assert (Hsame : ∀ a', a' ≠ a → plen p1 a' = plen p a') by (intros a' Hne; unfold list_len; by rewrite O1).
  rewrite u64_sub_small by lia. eapply wp_ok_mono; [apply (IH Hnd (pending - 1)); [apply T1| |lia|lia]|].
  - intros a' Ha'. rewrite Hsame by (by intros ->). apply Hlen. set_solver.
  - cbn [ok_with]. intros [] p2 (T2 & C2 & L2 & O2). split_and!; [by eapply trims_trans|done|..].
    + intros a' [->|Ha']%elem_of_cons; [unfold list_len at 1; rewrite O2 by done; exact L1|].
      rewrite L2, Hsame by first [done|by intros ->]. done.
    + intros a' Hn. rewrite O2, O1 by set_solver. done.
Qed.

Lemma offender_plen (offs : list Address) (offender : Address) p p' : (∀ a, a ∉ offs → p_pending p' !! a = p_pending p !! a) → offender ∉ offs → plen p' offender = plen p offender.
Proof. intros H Hn. unfold list_len. by rewrite H. Qed.

(** Rounds over offenders of equal length [k], which stop at the threshold. *)
Lemma wp_equalize fuel offs last_ threshold k p :
  pool_ok p → NoDup offs → last_ ∈ offs → (∀ a, a ∈ offs → plen p a = k) →
  Z.of_nat (total_len (p_pending p)) < 2 ^ 64 → 1 ≤ threshold ≤ Z.of_nat k → (k ≤ fuel)%nat →
  wp (equalize EffectiveGasTip config fuel offs last_ threshold (Z.of_nat (total_len (p_pending p))))
    (ok_with (λ n p', trims p p' ∧ n = Z.of_nat (total_len (p_pending p')) ∧
      (total_len (p_pending p') ≤ total_len (p_pending p))%nat ∧
      (∀ a, a ∉ offs → p_pending p' !! a = p_pending p !! a) ∧
      ∃ k', (∀ a, a ∈ offs → plen p' a = k') ∧ threshold ≤ Z.of_nat k' ∧
        (n ≤ GlobalSlots config ∨ Z.of_nat k' = threshold))) p.
Proof.
  revert k p. induction fuel as [|fuel IH]; intros k p Hinv Hnd Hlast Hk Hlt Hth Hf; cbn [equalize].
  { wp_steps. split_and!; [by apply trims_refl|done..|]. exists k. split_and!; [done|lia|right; lia]. }
  apply wp_ok_bind. wp_step. cbn [ok_with]. rewrite (Hk last_ Hlast).
  destruct (Z.ltb_spec (GlobalSlots config) (Z.of_nat (total_len (p_pending p)))); cbn [andb].
  2: { wp_steps. split_and!; [by apply trims_refl|done..|]. exists k. split_and!; [done|lia|by left]. }
  destruct (Z.ltb_spec threshold (Z.of_nat k)).
  2: { wp_steps. split_and!; [by apply trims_refl|done..|]. exists k. split_and!; [done|lia|right; lia]. }
  apply wp_ok_bind. eapply wp_ok_mono; [apply wp_drop_round; [done|done| |done|done]|].
  { intros a Ha. rewrite (Hk a Ha). lia. }
  cbn [ok_with]. intros n p1 (T1 & -> & L1 & O1).
  assert (Hle : (total_len (p_pending p1) ≤ total_len (p_pending p))%nat) by
    (apply total_len_mono; intros a; destruct (decide (a ∈ offs)); [rewrite L1 by done; lia|by rewrite (offender_plen offs _ p)]).
  eapply wp_ok_mono; [apply (IH (k - 1)%nat); [apply T1|done|done| |lia..]|].
  - intros a Ha. rewrite L1, Hk by done. done.
  - cbn [ok_with]. intros n p2 (T2 & -> & Hle2 & O2 & k' & Hk' & H1 & H2).
    split_and!; [by eapply trims_trans|done|lia|intros a Ha; by rewrite O2, O1|by exists k'].
Qed.

(** The offenders are equally long as long as there is too much to drop. *)
Definition level (offs : list Address) (sp : list Address) p : Prop :=
  ∃ k, (∀ a, a ∈ offs → plen p a = k) ∧ AccountSlots config < Z.of_nat k ∧ ∀ a, a ∈ sp → (plen p a ≤ k)%nat.

Lemma wp_offend sp offs p :
  pool_ok p → NoDup (offs ++ sp) → Z.of_nat (total_len (p_pending p)) < 2 ^ 64 → 1 ≤ AccountSlots config →
  StronglySorted (λ a b, (plen p b ≤ plen p a)%nat) sp → (∀ a, a ∈ sp → AccountSlots config < Z.of_nat (plen p a)) →
  (∀ a, a ∈ offs → AccountSlots config < Z.of_nat (plen p a)) →
  (Z.of_nat (total_len (p_pending p)) ≤ GlobalSlots config ∨ offs = [] ∨ level offs sp p) →
  wp (offend EffectiveGasTip config sp offs (Z.of_nat (total_len (p_pending p))))
    (ok_with (λ r p', trims p p' ∧ r.2 = Z.of_nat (total_len (p_pending p')) ∧
      (total_len (p_pending p') ≤ total_len (p_pending p))%nat ∧
      (∀ a, a ∉ offs ++ sp → p_pending p' !! a = p_pending p !! a) ∧ r.1 ⊆ offs ++ sp ∧ NoDup r.1 ∧
      (∀ a, a ∈ offs ++ sp → AccountSlots config < Z.of_nat (plen p' a)) ∧
      (r.2 ≤ GlobalSlots config ∨ r.1 = offs ++ sp ∧ (r.1 = [] ∨ level r.1 [] p')))) p.
Proof.
  revert offs p. induction sp as [|offender rest IH]; intros offs p Hinv Hnd Hlt Hs1 Hsort Hsp Hoff Hlev; cbn [offend].
  { wp_steps. rewrite app_nil_r in *. split_and!; [by apply trims_refl|done..|].
    destruct Hlev as [?|[?|?]]; [by left|right; by auto..]. }
  destruct (Z.leb_spec (Z.of_nat (total_len (p_pending p))) (GlobalSlots config)).
  { wp_steps. split_and!; [by apply trims_refl|done|done|done|..].
    - set_solver.
    - by apply NoDup_app in Hnd as (? & _).
    - intros a [?|?]%elem_of_app; auto.
    - by left. }
  destruct Hlev as [?|Hlev]; [lia|]. inversion Hsort as [|? ? Hsort' Hhd]; subst. rewrite Forall_forall in Hhd.
  pose proof Hnd as (Hnd1 & Hdis & [Hnew Hnd2]%NoDup_cons)%NoDup_app.
  assert (Hoffn : offender ∉ offs) by (intros ?; by apply (Hdis offender); [|set_solver]).
  (* the state before the offender joins *)
  apply wp_ok_bind. eapply (wp_ok_mono _ (λ n p1, trims p p1 ∧ n = Z.of_nat (total_len (p_pending p1)) ∧
    (total_len (p_pending p1) ≤ total_len (p_pending p))%nat ∧ (∀ a, a ∉ offs → p_pending p1 !! a = p_pending p !! a) ∧
    (∀ a, a ∈ offs → AccountSlots config < Z.of_nat (plen p1 a)) ∧
    (n ≤ GlobalSlots config ∨ ∀ a, a ∈ offs → plen p1 a = plen p offender))).
  { destruct (last offs) as [prev|] eqn:Hl.
    - apply last_Some_elem_of in Hl. destruct Hlev as [->|(k & Hk & Hks & Hkl)]; [by apply elem_of_nil in Hl|].
      apply wp_ok_bind. wp_step. cbn [ok_with]. pose proof (Hsp offender ltac:(set_solver)).
      pose proof (Hkl offender ltac:(set_solver)). pose proof (list_len_le (p_pending p) prev). rewrite (Hk prev Hl) in *.
      eapply wp_ok_mono; [apply (wp_equalize _ offs prev _ k); [done..|lia|lia]|]. cbn [ok_with].
      intros n p1 (T1 & -> & Hle & O1 & k' & Hk' & Hge & Hend). split_and!; [done..| |].
      + intros a Ha. rewrite (Hk' a Ha). lia.
      + destruct Hend as [?|Hend]; [by left|right]. intros a Ha. rewrite (Hk' a Ha). lia.
    - apply last_None in Hl as ->. wp_steps. split_and!; [by apply trims_refl|done..|set_solver|right; set_solver]. }
  cbn [ok_with]. intros n p1 (T1 & -> & Hle & O1 & Hab & Hk1).
  assert (Hsame : ∀ a, a ∈ offender :: rest → plen p1 a = plen p a).
  { intros a Ha. apply (offender_plen offs); [done|]. intros Hin. by apply (Hdis a Hin). }
  eapply wp_ok_mono; [apply (IH (offs ++ [offender]))|].
  - apply T1.
  - by rewrite <- app_assoc.
  - lia.
  - done.
  - eapply StronglySorted_mono; [exact Hsort'|]. intros a b Ha Hb. by rewrite !Hsame by set_solver.
  - intros a Ha. rewrite Hsame by set_solver. apply Hsp. set_solver.
  - intros a [Ha| ->%list_elem_of_singleton]%elem_of_app; [by apply Hab|]. rewrite Hsame by set_solver. apply Hsp. set_solver.
  - destruct Hk1 as [?|Hk1]; [by left|right; right]. exists (plen p offender). split_and!.
    + intros a [Ha| ->%list_elem_of_singleton]%elem_of_app; [by apply Hk1|]. apply Hsame. set_solver.
    + apply Hsp. set_solver.
    + intros a Ha. rewrite Hsame by set_solver. by apply Hhd.
  - cbn [ok_with]. intros [offs' n] p2. rewrite <- app_assoc. cbn [app fst snd].
    intros (T2 & Hn & Hle2 & O2 & Hsub & Hnd' & Hab2 & Hfin). split_and!; [by eapply trims_trans|done|lia| |done..].
    intros a Ha. rewrite O2, O1 by set_solver. done.
Qed.

(** The rounds after the last offender was found. *)
Lemma wp_last_rounds offs final p :
  pool_ok p → NoDup offs → final ∈ offs → Z.of_nat (total_len (p_pending p)) < 2 ^ 64 → 1 ≤ AccountSlots config →
  (∀ a, a ∈ offs → AccountSlots config < Z.of_nat (plen p a)) →
  (Z.of_nat (total_len (p_pending p)) ≤ GlobalSlots config ∨ level offs [] p) →
  wp (equalize EffectiveGasTip config (Z.to_nat (Z.of_nat (total_len (p_pending p)))) offs final (AccountSlots config)
        (Z.of_nat (total_len (p_pending p))))
    (ok_with (λ _ p', trims p p' ∧ (total_len (p_pending p') ≤ total_len (p_pending p))%nat ∧
      (∀ a, a ∉ offs → p_pending p' !! a = p_pending p !! a) ∧
      (∀ a, a ∈ offs → AccountSlots config ≤ Z.of_nat (plen p' a)) ∧
      (Z.of_nat (total_len (p_pending p')) ≤ GlobalSlots config ∨ ∀ a, a ∈ offs → Z.of_nat (plen p' a) ≤ AccountSlots config))) p.
Proof.
  intros Hinv Hnd Hfin Hlt Hs1 Hab Hlev. destruct Hlev as [Hd|(k & Hk & Hks & _)].
  - assert (Hrefl : trims p p ∧ (total_len (p_pending p) ≤ total_len (p_pending p))%nat ∧
      (∀ a, a ∉ offs → p_pending p !! a = p_pending p !! a) ∧ (∀ a, a ∈ offs → AccountSlots config ≤ Z.of_nat (plen p a)) ∧
      (Z.of_nat (total_len (p_pending p)) ≤ GlobalSlots config ∨ ∀ a, a ∈ offs → Z.of_nat (plen p a) ≤ AccountSlots config)).
    { split_and!; [by apply trims_refl|done|done| |by left]. intros a Ha. specialize (Hab a Ha). lia. }
    destruct (Z.to_nat _); cbn [equalize]; [by wp_steps|]. apply wp_ok_bind. wp_step. cbn [ok_with].
    rewrite (proj2 (Z.ltb_ge _ _)) by done. cbn [andb]. by wp_steps.
  - pose proof (list_len_le (p_pending p) final). rewrite (Hk final Hfin) in *.
    eapply wp_ok_mono; [apply (wp_equalize _ offs final _ k); [done..|lia|lia]|]. cbn [ok_with].
    intros n p2 (T2 & -> & Hle2 & O2 & k' & Hk' & Hge & Hend). split_and!; [done..| |].
    + intros a Ha. by rewrite (Hk' a Ha).
    + destruct Hend as [?|Hend]; [by left|right]. intros a Ha. rewrite (Hk' a Ha). lia.
Qed.

(** The priority queue pops what was pushed, the highest priority first. *)
Definition prque_laws (order : list (Address * Z) → list Address) : Prop :=
  ∀ l, ∃ l', l' ≡ₚ l ∧ order l = l'.*1 ∧ StronglySorted (λ x y, y.2 ≤ x.2) l'.

Lemma sorted_by_length (f : Address → nat) (l : list (Address * Z)) :
  StronglySorted (λ x y, y.2 ≤ x.2) l → (∀ x, x ∈ l → x.2 = Z.of_nat (f x.1)) → StronglySorted (λ a b, (f b ≤ f a)%nat) l.*1.
Proof.
  intros Hs. induction Hs as [|x l Hs IH Hf]; intros Hx; cbn; constructor; [apply IH; set_solver|].
  apply Forall_forall. intros b (y & -> & Hy)%list_elem_of_fmap. rewrite Forall_forall in Hf. specialize (Hf y Hy). cbn in Hf.
  rewrite (Hx x), (Hx y) in Hf by set_solver. lia.
Qed.

Lemma spammers_spec order p :
  prque_laws order →
  let sp := order (spammers_of config p) in
  NoDup sp ∧ (∀ a, a ∈ sp ↔ is_Some (p_pending p !! a) ∧ AccountSlots config < Z.of_nat (plen p a)) ∧
  StronglySorted (λ a b, (plen p b ≤ plen p a)%nat) sp.
Proof.
  intros Hlaws sp. destruct (Hlaws (spammers_of config p)) as (l' & Hp & Heq & Hs). unfold sp. rewrite Heq.
  assert (Hmem : ∀ a n, (a, n) ∈ l' ↔ a ∈ pool_range (p_pending p) ∧ n = Z.of_nat (plen p a) ∧ AccountSlots config < n).
  { intros a n. rewrite Hp. unfold spammers_of. rewrite list_elem_of_filter, list_elem_of_fmap. naive_solver. }
  split_and!.
  - assert (Hf : (spammers_of config p).*1 `sublist_of` pool_range (p_pending p)).
    { clear Hmem. unfold spammers_of. induction (pool_range (p_pending p)) as [|a rest IH]; [done|].
      rewrite fmap_cons, filter_cons. case_decide; cbn; by constructor. }
    rewrite Hp. eapply sublist_NoDup; [apply range_nodup|exact Hf].
  - intros a. rewrite list_elem_of_fmap, <- range_mem. split.
    + intros ([a' n] & -> & (? & -> & ?)%Hmem). done.
    + intros [? ?]. exists (a, Z.of_nat (plen p a)). split; [done|]. by apply Hmem.
  - apply (sorted_by_length (list_len (p_pending p))); [done|]. by intros [a n] (_ & -> & _)%Hmem.
Qed.

Lemma wp_truncatePending order p :
  prque_laws order → pool_ok p → 1 ≤ AccountSlots config → Z.of_nat (total_len (p_pending p)) < 2 ^ 64 →
  wp (truncatePending EffectiveGasTip order config)
    (ok_with (λ _ p', trims p p' ∧ (total_len (p_pending p') ≤ total_len (p_pending p))%nat ∧
      (Z.of_nat (total_len (p_pending p')) ≤ GlobalSlots config ∨ ∀ a, Z.of_nat (plen p' a) ≤ AccountSlots config) ∧
      (∀ a, Z.of_nat (plen p a) ≤ AccountSlots config → p_pending p' !! a = p_pending p !! a) ∧
      (∀ a, Z.min (Z.of_nat (plen p a)) (AccountSlots config) ≤ Z.of_nat (plen p' a)))) p.
Proof.
  intros Hlaws Hinv Hs1 Hlt. unfold truncatePending. apply wp_ok_bind. wp_step. cbn [ok_with]. rewrite count_pool by done.
  apply wp_ok_bind. wp_step. cbn [ok_with]. destruct (spammers_spec order p Hlaws) as (Hnd & Hmem & Hsort).
  set (sp := order (spammers_of config p)) in *.
  assert (Hunder : ∀ a, Z.of_nat (plen p a) ≤ AccountSlots config ↔ a ∉ sp).
  { intros a. rewrite Hmem. split; [lia|]. intros Hn. unfold list_len in *. destruct (p_pending p !! a) as [l|]; [|cbn; lia].
    destruct (Z.le_gt_cases (Z.of_nat (Len l)) (AccountSlots config)); [done|]. destruct Hn. split; [done|lia]. }
  destruct (Z.leb_spec (Z.of_nat (total_len (p_pending p))) (GlobalSlots config)).
  { wp_steps. split_and!; [by apply trims_refl|done|by left|done|lia]. }
  apply wp_ok_bind. eapply wp_ok_mono; [apply (wp_offend sp [] p); [done..| |set_solver|by right; left]|].
  { intros a Ha. by apply Hmem. }
  cbn [ok_with app]. intros [offs n] p1 (T1 & Hn & Hle1 & O1 & Hsub & Hnd1 & Hab & Hfin). cbn [fst snd] in *. subst n.
  assert (Hkeep : ∀ p', (∀ a, a ∉ sp → p_pending p' !! a = p_pending p !! a) →
    (∀ a, a ∈ sp → AccountSlots config ≤ Z.of_nat (plen p' a)) →
    (∀ a, Z.of_nat (plen p a) ≤ AccountSlots config → p_pending p' !! a = p_pending p !! a) ∧
    (∀ a, Z.min (Z.of_nat (plen p a)) (AccountSlots config) ≤ Z.of_nat (plen p' a))).
  { intros p' Ho Hge. split; [intros a Ha%Hunder; by apply Ho|]. intros a. destruct (decide (a ∈ sp)) as [Ha|Ha].
    - specialize (Hge a Ha). lia.
    - rewrite (offender_plen sp a p p' Ho Ha). lia. }
  destruct (last offs) as [final|] eqn:Hlast.
  - apply last_Some_elem_of in Hlast. apply wp_ok_bind. eapply wp_ok_mono.
    { apply (wp_last_rounds offs final p1); [apply T1|done|done|lia|done|intros a Ha; by apply Hab, Hsub|].
      destruct Hfin as [?|[_ [->|?]]]; [by left|by apply elem_of_nil in Hlast|by right]. }
    cbn [ok_with]. intros n p2 (T2 & Hle2 & O2 & Hge & Hend).
    destruct (Hkeep p2) as [K1 K2]; [intros a Ha; rewrite O2, O1 by set_solver; done| |].
    { intros a Ha. destruct (decide (a ∈ offs)) as [Ho|Ho]; [by apply Hge|]. rewrite (offender_plen offs a p1 p2 O2 Ho). specialize (Hab a Ha). lia. }
    wp_steps. split_and!; [by eapply trims_trans|lia| |done|done].
    destruct Hend as [?|Hend]; [by left|]. destruct Hfin as [?|[-> _]]; [left; lia|right]. intros a.
    destruct (decide (a ∈ sp)) as [Ha|Ha]; [by rewrite Hend|]. rewrite (offender_plen sp a p p2); [by apply Hunder| |done].
    intros a' Ha'. by rewrite O2, O1.
  - apply last_None in Hlast as ->. wp_steps. assert (Hge : ∀ a, a ∈ sp → AccountSlots config ≤ Z.of_nat (plen p1 a)).
    { intros a Ha. specialize (Hab a Ha). lia. }
    destruct (Hkeep p1 O1 Hge) as [K1 K2]. split_and!; [done..| |done|done].
    destruct Hfin as [?|[He _]]; [by left|right]. intros a. rewrite (offender_plen sp a p p1 O1) by (by rewrite <- He; apply not_elem_of_nil).
    apply Hunder. rewrite <- He. apply not_elem_of_nil.
Qed.
End Limits.
End LL.
