(* ===== verification/LegacyPoolOps.v ===== *)
(** A whole run of the pool's maintenance ([runReorg]): from a consistent pool
    it never panics, and it leaves a consistent pool within its limits whose
    pending transactions are executable at the new head.  Also batches of
    additions, raising the tip and clearing. *)
From S2P Require Import Prelude GoStd AccessList Sdk Heap TxList PoolList Reserver TxLookup PricedList TxStore PoolValidation LegacyPool LegacyPoolReorg PoolInv LegacyPoolInv LegacyPoolAdd LegacyPoolMaint LegacyPoolLimits.

Module LR.
Import SM TL PV LP RO PI LI LA LF LM LL.

Section Run.
Context `{HR : MapRange} `{HRL : !MapRangeLaws} `{HPR : PoolRange} `{HPRL : !PoolRangeLaws} `{HC : TxChecks} `{RC : Rechecker}.
Context (EffectiveGasTip : Z → Transaction → Z) (Sender : Transaction → option Address).
Context (prque_order : list (Address * Z) → list Address).
Context (config : Config) (self : Z) (U : Transaction → Prop).
Implicit Types p q : LegacyPool.
Abbreviation pool_inv := (pool_inv EffectiveGasTip Sender self U).
Abbreviation pool_ok := (pool_inv ∅ [] []).
Abbreviation sender := (sender Sender).
Abbreviation removeTx := (removeTx EffectiveGasTip Sender config self).

(** ** The number of transactions *)

(** Fewer than 2^64 transactions reach the pool. *)
Definition few : Prop := ∃ us : Transactions, Z.of_nat (length us) < 2 ^ 64 ∧ ∀ tx, U tx → tx ∈ us.

Lemma listed_txs (m : gmap Address txlist) :
  (∀ a l n tx, m !! a = Some l → items l !! n = Some tx → tx_Nonce tx = n ∧ Sender tx = Some a ∧ U tx) →
  ∃ L : Transactions, NoDup L ∧ length L = total_len m ∧
    ∀ tx, tx ∈ L → U tx ∧ ∃ a, Sender tx = Some a ∧ is_Some (m !! a).
Proof.
  induction m as [|a l m Ha IH] using map_ind; intros Hm.
  { exists []. split_and!; [constructor|done|]. intros tx ?%elem_of_nil. done. }
  destruct IH as (L & Hnd & Hlen & HL).
  { intros a' l' n tx Hl'. apply Hm. rewrite lookup_insert_ne; [done|congruence]. }
  assert (Hk : ∀ n tx, items l !! n = Some tx → tx_Nonce tx = n).
  { intros n tx Hn. by eapply Hm; [apply lookup_insert_eq|]. }
  exists (txs_of (items l) ++ L). split_and!.
  - apply NoDup_app. split_and!; [|intros tx Hin%keyed_txs Hin'; [|done]|done].
    + unfold txs_of. apply NoDup_fmap_2_strong; [|apply NoDup_map_to_list].
      intros [n tx] [n' tx'] Hn%elem_of_map_to_list Hn'%elem_of_map_to_list ?. cbn in *. subst tx'.
      apply Hk in Hn, Hn'. congruence.
    + apply Hm with (a := a) in Hin as (_ & Hs & _); [|apply lookup_insert_eq].
      apply HL in Hin' as (_ & a' & Hs' & Hsome). assert (a' = a) as -> by congruence. rewrite Ha in Hsome. by destruct Hsome.
  - rewrite length_app, Hlen, txs_size, (total_len_delete (<[a := l]> m) a l), delete_insert_id by (done || apply lookup_insert_eq). done.
  - intros tx [Hin%keyed_txs|Hin]%elem_of_app; [|done|].
    + destruct (Hm a l _ tx (lookup_insert_eq _ _ _) Hin) as (_ & Hs & Hu). split; [done|]. exists a. by rewrite lookup_insert_eq.
    + apply HL in Hin as (Hu & a' & Hs & Hsome). split; [done|]. exists a'. split; [done|].
      destruct (decide (a' = a)) as [->|]; [by rewrite lookup_insert_eq|by rewrite lookup_insert_ne].
Qed.
Lemma few_listed p (b : bool) : few → pool_ok p → Z.of_nat (total_len (if b then p_pending p else p_queue p)) < 2 ^ 64.
Proof.
  intros (us & Hlt & Hus) (Hls & _ & Hi).
  destruct (listed_txs (if b then p_pending p else p_queue p)) as (L & Hnd & <- & HL).
  { intros a l n tx Hl Hn. destruct (Hls b a l Hl) as [Hok _]. pose proof (ac_keyed l (proj2 Hok) _ _ Hn) as Hk.
    assert (Hat : at_ (content (p_pending p) (p_queue p)) b a tx).
    { exists (items l). rewrite content_lookup, Hl. by rewrite Hk. }
    split_and!; [done|by apply (i_sender _ _ _ _ _ _ _ _ _ _ _ Hi b)|]. apply (i_uni _ _ _ _ _ _ _ _ _ _ _ Hi).
    apply (i_cover _ _ _ _ _ _ _ _ _ _ _ Hi), (i_known _ _ _ _ _ _ _ _ _ _ _ Hi). eauto. }
  enough (length L ≤ length us)%nat by lia. apply submseteq_length, NoDup_submseteq; [done|]. intros tx Htx. by apply Hus, HL.
Qed.

(** ** Reading the last nonces *)

Lemma LastElement_removes l :
  list_ok l → items l ≠ ∅ → ∃ tx l', removes LastElement l tx [] l' ∧ items l' = items l.
Proof.
  intros [Hok Ha] Hne. destruct (LastElement_spec (l_txs l) Hok) as (H1 & H2 & H3).
  destruct (last (sorted_txs (items l))) as [tx|] eqn:Hlast.
  2: { apply last_None in Hlast. destruct Hne. apply map_size_empty_inv. by rewrite <- txs_size, <- sorted_txs_perm, Hlast. }
  unfold items in *. destruct (SM.LastElement (l_txs l)) as [m o] eqn:Hm. cbn in H1, H2, H3.
  exists tx, (set_txs m l). cbn. split; [|done].
  split_and!; [|split; [done|]|done|by cbn; rewrite H2|by cbn; rewrite H2].
  - unfold LastElement, mbind, M_bind, on_txs. by rewrite Hm, H3, Hlast.
  - destruct Ha. split; cbn; rewrite ?H2; done.
Qed.

(** Every pending list starts at the nonce of its account, which can pay for it. *)
Definition all_executable p : Prop := ∀ a l, p_pending p !! a = Some l → executable (p_state p) (p_head p) a l.
Lemma executable_trimmed st head a l l' : executable st head a l → trimmed l l' → executable st head a l'.
Proof.
  intros [Hn He] (Hsub & Hne & Hd). split.
  - destruct (map_choose (items l') Hne) as (n & tx & Htx). apply (Hd n); [by exists tx|done|].
    apply (He n tx). by eapply lookup_weaken.
  - intros n tx Htx. apply He. by eapply lookup_weaken.
Qed.
Lemma all_executable_trims p p' : trims EffectiveGasTip Sender self U p p' → all_executable p → all_executable p'.
Proof.
  intros (_ & _ & Hch & Ht) He a l' (l & Hl & Htr)%Ht. injection Hch as -> -> _ _. eapply executable_trimmed; [by apply He|done].
Qed.

Lemma wp_last_nonces accounts p :
  pool_ok p → (∀ a, a ∈ accounts → is_Some (p_pending p !! a)) →
  wp (last_nonces accounts) (ok_with (λ _ p', pool_ok p' ∧ (all_executable p → all_executable p'))) p.
Proof.
  intros Hinv Hsome.
  enough (Hw : wp (last_nonces accounts) (ok_with (λ _ p', pool_ok p' ∧
    ∀ a l', p_pending p' !! a = Some l' → ∃ l, p_pending p !! a = Some l ∧ items l' = items l)) p).
  { eapply wp_mono; [apply (wp_keeps chain_of); [auto with keeps|exact Hw]|]. intros p' [ns|e|s] [H Hch]; [|done..]. cbn in *.
    destruct H as [H1 H2]. split; [done|]. intros He a l' (l & Hl & Hi)%H2. injection Hch as -> -> _ _.
    unfold executable. rewrite Hi. by apply He. }
  revert p Hinv Hsome. induction accounts as [|a rest IH]; intros p Hinv Hsome; cbn [last_nonces].
  { wp_steps. split; [done|]. intros a l Hl. by exists l. }
  destruct (Hsome a ltac:(set_solver)) as [l Hl]. destruct (proj1 Hinv true a l Hl) as [Hok _].
  assert (Hne : items l ≠ ∅) by (apply (pool_inv_nonempty EffectiveGasTip Sender self U ∅ [] [] p true a l Hinv); [set_solver|done]).
  destruct (LastElement_removes l Hok Hne) as (tx & l1 & Hr & Hi). apply wp_ok_bind.
  eapply wp_ok_mono; [by eapply (wp_touch EffectiveGasTip Sender self U true a _ l)|]. cbn [ok_with side negb].
  intros highest p1 (-> & H1 & P1 & Q1). apply wp_ok_bind. eapply wp_ok_mono; [apply IH; [done|]|].
  - intros a' Ha'. rewrite P1. destruct (decide (a' = a)) as [->|]; [by rewrite lookup_insert_eq|].
    rewrite lookup_insert_ne by done. apply Hsome. set_solver.
  - cbn [ok_with]. intros ns p2 (H2 & L2). wp_steps. split; [done|]. intros a' l' (l0 & Hl0 & Hi')%L2. rewrite P1 in Hl0.
    apply lookup_insert_Some in Hl0 as [[<- <-]|[_ Hl0]]; [exists l; split; [done|congruence]|by exists l0].
Qed.

(** ** The reset *)

Context (chain : BlockChain) (IsLondon : Z → bool) (CalcBaseFee : Header → Z) (EmptyCodeHash : Hash).
Abbreviation resetState := (RO.reset EffectiveGasTip Sender config self chain EmptyCodeHash).

(** The chain has the state of every block and a context; balances are words. *)
Definition chain_ok : Prop :=
  (∀ root, ∃ st, StateAt chain root = Some st ∧ words st) ∧ is_Some (GetLatestContext chain).
(** Between runs the pool is consistent and its height has ended. *)
Definition idle p : Prop := pool_ok p ∧ HS.hs_ended (p_valid p) = true.
(** A request for a reset names a new head if it names an old one. *)
Definition well_formed (req : txpoolResetRequest) : Prop := is_Some (rr_oldHead req) → is_Some (rr_newHead req).

Lemma wp_reset req p :
  chain_ok → well_formed req → idle p →
  wp (resetState (rr_oldHead req) (rr_newHead req)) (ok_with (λ _ p', pool_ok p' ∧
    HS.hs_ended (p_valid p') = false ∧ p_head p' = default (CurrentBlock chain) (rr_newHead req) ∧
    StateAt chain (hd_Root (p_head p')) = Some (p_state p'))) p.
Proof.
  intros [Hst [ctx Hctx]] Hwf ((Hls & _ & Hi) & Hend). unfold RO.reset.
  assert (Hm : (match rr_oldHead req, rr_newHead req with Some _, None => panic "nil pointer dereference"
    | _, _ => resetInternalState EffectiveGasTip Sender config self chain EmptyCodeHash (rr_newHead req) [] end) =
    resetInternalState EffectiveGasTip Sender config self chain EmptyCodeHash (rr_newHead req) []).
  { unfold well_formed in Hwf. destruct (rr_oldHead req), (rr_newHead req); try done. destruct Hwf as [? ?]; [by eexists|done]. }
  rewrite Hm. unfold resetInternalState. set (head := default _ _).
  destruct (Hst (hd_Root head)) as (st & Hs & Hw). rewrite Hs, Hctx. apply wp_ok_bind. wp_step. cbn [ok_with].
  apply wp_ok_bind. wp_step. cbn [ok_with]. apply wp_ok_bind. set (p1 := set_rechecker _ _).
  apply wp_intro. intros p2 r. unfold at_valid, HS.StartNewHeight, mbind, M_bind, gets, modify.
  replace (HS.hs_ended (p_valid p1)) with true by (by symmetry). cbn. intros [= <- <-]. cbn.
  apply wp_intro. intros p3 r3 [= <- <-]. cbn. split_and!; done.
Qed.

Lemma wp_forward_events accounts events p :
  pool_ok p → wp (forward_events accounts events) (ok_with (λ _ p', pool_ok p')) p.
Proof.
  revert events p. induction accounts as [|a rest IH]; intros events p Hinv; cbn [forward_events]; [by wp_steps|].
  apply wp_ok_bind, wp_intro. intros p1 r. unfold nonce_get. destruct (NC.get _ _ _). intros [= <- <-]. cbn [ok_with]. by apply IH.
Qed.

(** What the end of a reset does before it ends the height. *)
Lemma wp_before_end newHead Q p :
  pool_ok p →
  (∀ p', pool_ok p' → chain_of p' = chain_of p → (all_executable p → all_executable p') → wp (at_valid HS.EndCurrentHeight) Q p') →
  wp (finish_reset EffectiveGasTip IsLondon CalcBaseFee newHead) Q p.
Proof.
  intros Hinv Hk. unfold finish_reset. apply wp_ok_bind.
  apply (wp_mono _ (ok_with (λ _ p1, pool_ok p1 ∧ chain_of p1 = chain_of p ∧ p_pending p1 = p_pending p))).
  { destruct Hinv as (? & ? & ?). destruct newHead as [head|]; wp_steps; (split_and!; [split_and!|..]; try done). cbn.
    case_match; by eapply inv_reheap. }
  intros p1 [[]|e|s]; [|done..]. cbn [ok_with]. intros (H1 & C1 & P1). apply wp_ok_bind. wp_step. cbn [ok_with].
  apply wp_ok_bind. eapply wp_mono.
  { apply (wp_keeps chain_of); [auto with keeps|]. apply wp_last_nonces; [done|]. intros a. apply range_mem. }
  intros p2 [ns|e|s] [H2 C2]; [|done..]. cbn [ok_with] in *. destruct H2 as [H2 E2]. rewrite C1 in C2.
  apply wp_ok_bind. wp_step. cbn [ok_with]. apply Hk; [done|done|].
  intros He. apply E2. pose proof C1 as [= S1 D1 _ _]. intros a l. rewrite P1, S1, D1. apply He.
Qed.
(** The end of a reset ends the height and keeps the pending lists. *)
Lemma wp_finish_reset newHead p :
  pool_ok p → HS.hs_ended (p_valid p) = false →
  wp (finish_reset EffectiveGasTip IsLondon CalcBaseFee newHead) (ok_with (λ _ p', idle p' ∧ p_head p' = p_head p ∧
    p_state p' = p_state p ∧ (all_executable p → all_executable p'))) p.
Proof.
  intros Hinv Hend. apply wp_before_end; [done|]. intros p1 H1 C1 E1. pose proof C1 as [= S1 D1 _ X1].
  apply wp_intro. intros p2 r. unfold at_valid, HS.EndCurrentHeight, mbind, M_bind, gets, modify. cbn. rewrite X1, Hend.
  intros [= <- <-]. split_and!; done.
Qed.
(** A height that has ended already cannot be ended again. *)
Lemma wp_finish_ended newHead p :
  pool_ok p → HS.hs_ended (p_valid p) = true →
  wp (finish_reset EffectiveGasTip IsLondon CalcBaseFee newHead) (λ _ r, r = Panic "height already ended") p.
Proof.
  intros Hinv Hend. apply wp_before_end; [done|]. intros p1 H1 C1 _. pose proof C1 as [= _ _ _ X1].
  apply wp_intro. intros p2 r. unfold at_valid, HS.EndCurrentHeight, mbind, M_bind, gets, modify. cbn. rewrite X1, Hend. by intros [= <- <-].
Qed.

(** ** [runReorg] *)

Abbreviation run := (runReorg EffectiveGasTip Sender prque_order config self chain IsLondon CalcBaseFee EmptyCodeHash).

(** Within the limits of the configuration: the queue has at most its size, and
    unless the pending transactions fit in the slots every account has at most
    its own. *)
Definition within_limits p : Prop :=
  (Z.of_nat (total_len (p_pending p)) ≤ GlobalSlots config ∨
   ∀ a, Z.of_nat (list_len (p_pending p) a) ≤ AccountSlots config) ∧
  Z.of_nat (total_len (p_queue p)) ≤ GlobalQueue config.

(** The truncations. *)
Lemma wp_limits {A} (k : M LegacyPool PoolError A) (Q : A → LegacyPool → Prop) p :
  prque_laws prque_order → few → 1 ≤ AccountSlots config → 0 ≤ GlobalQueue config → idle p →
  (∀ p', idle p' → within_limits p' → chain_of p' = chain_of p → (all_executable p → all_executable p') → wp k (ok_with Q) p') →
  wp (truncatePending EffectiveGasTip prque_order config;; truncateQueue EffectiveGasTip Sender config self;; k) (ok_with Q) p.
Proof.
  intros Hlaws Hfew Hs1 Hg0 [Hinv Hend] Hk. apply wp_ok_bind.
  eapply wp_ok_mono; [by apply wp_truncatePending, (few_listed p true)|]. cbn [ok_with].
  intros [] p1 (T1 & _ & L1 & _). apply wp_ok_bind. eapply wp_mono.
  { apply (wp_keeps chain_of); [auto with keeps|]. apply wp_truncateQueue; [apply T1|done|]. by apply (few_listed p1 false), T1. }
  intros p2 [[]|e|s] [H2 C2]; [|done..]. cbn [ok_with] in *. destruct H2 as (H2 & P2 & L2).
  pose proof T1 as (_ & _ & C1 & _). rewrite C1 in C2. pose proof C2 as [= S2 D2 _ X2]. pose proof C1 as [= S1 D1 _ _].
  apply Hk; [by split; [|congruence]|split; [by rewrite P2|lia]|done|].
  intros He a l. rewrite P2, S2, D2, <- S1, <- D1. by apply (all_executable_trims p).
Qed.

Lemma wp_runReorg input p :
  chain_ok → prque_laws prque_order → few → 1 ≤ AccountSlots config → 0 ≤ GlobalQueue config →
  (∀ req, ri_reset input = Some req → well_formed req) → idle p →
  wp (run input) (ok_with (λ _ p', idle p' ∧ within_limits p' ∧
    match ri_reset input with
    | Some req =>
        p_head p' = default (CurrentBlock chain) (rr_newHead req) ∧
        StateAt chain (hd_Root (p_head p')) = Some (p_state p') ∧
        (ri_cancel_demote input = None → all_executable p')
    | None => p_head p' = p_head p ∧ p_state p' = p_state p
    end)) p.
Proof.
  intros Hchain Hlaws Hfew Hs1 Hg0 Hwf Hidle. unfold runReorg. destruct (ri_reset input) as [req|] eqn:Hreq.
  - do 2 apply wp_ok_bind. eapply wp_ok_mono; [by apply wp_reset; [|apply Hwf|]|]. cbn [ok_with].
    intros [] p1 (H1 & E1 & D1 & S1). apply wp_ok_bind. eapply wp_mono.
    { apply (wp_keeps chain_of); [auto with keeps|]. by apply wp_forward_events. }
    intros p2 [ev|e|s] [H2 C2]; [|done..]. cbn [ok_with] in *. apply wp_ok_bind. wp_step. cbn [ok_with]. wp_step. cbn [ok_with].
    rewrite (bool_decide_true (is_Some (Some req))) by done.
    apply wp_ok_bind. eapply wp_mono.
    { apply (wp_keeps chain_of); [auto with keeps|]. by apply wp_promoteExecutables. }
    intros p3 [pr|e|s] [H3 C3]; [|done..]. cbn [ok_with] in *. do 2 apply wp_ok_bind.
    eapply wp_ok_mono; [by apply wp_demoteUnexecutables|]. cbn [ok_with]. intros [] p4 (H4 & C4 & L4).
    rewrite C3, C2 in C4. pose proof C4 as [= S4 D4 _ X4]. rewrite C2 in C3. pose proof C3 as [= S3 D3 _ _].
    eapply wp_ok_mono; [by apply wp_finish_reset; [|congruence]|]. cbn [ok_with]. intros [] p5 (H5 & D5 & S5 & L5).
    apply wp_limits; [done..|]. intros p6 H6 L6 C6 X6. pose proof C6 as [= S6 D6 _ _]. wp_steps.
    split_and!; [done|done|congruence|congruence|]. intros Hc. apply X6, L5. intros a l Hl.
    rewrite S4, D4, <- S3, <- D3. apply L4; [by right|done].
  - apply wp_ok_bind. wp_step. cbn [ok_with]. rewrite bool_decide_false by (by intros [? ?]). apply wp_ok_bind. eapply wp_mono.
    { apply (wp_keeps chain_of); [auto with keeps|]. by apply wp_promoteExecutables, Hidle. }
    intros p3 [pr|e|s] [H3 C3]; [|done..]. cbn [ok_with] in *. pose proof C3 as [= S3 D3 _ X3]. destruct Hidle as [_ Hend].
    apply wp_ok_bind. wp_step. cbn [ok_with]. apply wp_limits; [done..|by split; [|congruence]|].
    intros p6 H6 L6 C6 _. pose proof C6 as [= S6 D6 _ _]. wp_steps. split_and!; [done|done|congruence|congruence].
Qed.

(** Without the state of the new head the reset changes nothing, and the run
    ends a height that was not started. *)
Lemma wp_run_without_state input req p :
  idle p → ri_reset input = Some req → well_formed req →
  StateAt chain (hd_Root (default (CurrentBlock chain) (rr_newHead req))) = None →
  wp (run input) (λ _ r, r = Panic "height already ended") p.
Proof.
  intros [Hinv Hend] Hreq Hwf Hst. unfold runReorg. rewrite Hreq.
  assert (Hreset : resetState (rr_oldHead req) (rr_newHead req) = mret tt).
  { unfold RO.reset, resetInternalState. unfold well_formed in Hwf. rewrite Hst.
    destruct (rr_oldHead req), (rr_newHead req); try done. destruct Hwf as [? ?]; [by eexists|done]. }
  rewrite Hreset. do 2 apply wp_ok_bind. wp_step. cbn [ok_with]. apply wp_ok_bind. eapply wp_mono.
  { apply (wp_keeps chain_of); [auto with keeps|]. by apply wp_forward_events. }
  intros p2 [ev|e|s] [H2 C2]; [|done..]. cbn [ok_with] in *. apply wp_ok_bind. wp_step. cbn [ok_with]. wp_step. cbn [ok_with].
  apply wp_ok_bind. eapply wp_mono; [apply (wp_keeps chain_of); [auto with keeps|by apply wp_promoteExecutables]|].
  intros p3 [pr|e|s] [H3 C3]; [|done..]. cbn [ok_with] in *. apply wp_bind, wp_ok_bind.
  eapply wp_ok_mono; [by apply wp_demoteUnexecutables|]. cbn [ok_with]. intros [] p4 (H4 & C4 & _).
  rewrite C3, C2 in C4. pose proof C4 as [= _ _ _ X4]. eapply wp_mono; [by apply wp_finish_ended; [|congruence]|].
  cbn. intros p5 r ->. done.
Qed.
End Run.
End LR.

(** The remaining operations of the pool keep its invariant: batches of
    additions, raising the tip, clearing; and the pools that any sequence of
    operations reaches. *)


Module LO.
Import SM TL PV LP RO PI LI LA LF LM LL LR.

Section Ops.
Context `{HR : MapRange} `{HRL : !MapRangeLaws} `{HPR : PoolRange} `{HPRL : !PoolRangeLaws} `{HC : TxChecks} `{RC : Rechecker}.
Context (EffectiveGasTip : Z → Transaction → Z) (Sender : Transaction → option Address) (EmptyCodeHash : Hash).
Context (config : Config) (self : Z) (U : Transaction → Prop).
Implicit Types p q : LegacyPool.
Abbreviation pool_inv := (pool_inv EffectiveGasTip Sender self U).
Abbreviation pool_ok := (pool_inv ∅ [] []).
Abbreviation sender := (sender Sender).
Abbreviation removeTx := (removeTx EffectiveGasTip Sender config self).
Abbreviation add := (add EffectiveGasTip Sender EmptyCodeHash config self).

(** The transactions that may get into the pool: fewer than 2^64, with distinct
    hashes, and nonces and costs in range. *)
Record universe : Prop := {
  u_few : few U;
  u_hash tx tx' : U tx → U tx' → tx_Hash tx = tx_Hash tx' → tx = tx';
  u_range tx : U tx → 0 ≤ tx_Cost tx < 2 ^ 192 ∧ 0 ≤ tx_Nonce tx < 2 ^ 64;
}.
(** A transaction that is submitted: if any balance can pay for it, it is one of
    those. *)
Definition submitted (tx : Transaction) : Prop := tx_Cost tx < 2 ^ 192 → U tx.

Lemma sum_cost_bound (txs : Transactions) B :
  0 ≤ B → (∀ tx, tx ∈ txs → tx_Cost tx ≤ B) → sum_cost txs ≤ Z.of_nat (length txs) * B.
Proof.
  intros HB. induction txs as [|tx txs IH]; intros H; cbn [sum_cost foldr length]; [lia|].
  pose proof (H tx ltac:(set_solver)). specialize (IH ltac:(set_solver)). unfold sum_cost in IH. lia.
Qed.
Lemma universe_fits tx p :
  universe → pool_ok p → submitted tx → LK.Get (tx_Hash tx) (p_all p) = None →
  tx_Cost tx ≤ st_GetBalance (p_state p) (sender tx) → fits U tx p.
Proof.
  intros [(us & Hlt & Hus) Hh Hr] Hinv Hsub Hnew Haff. pose proof Hinv as (_ & Hw & Hi). specialize (Hw (sender tx)).
  pose proof (Hsub ltac:(lia)) as HU. destruct (Hr tx HU) as [Hc Hn]. split_and!; [lia|lia|lia| |done].
  set (txs := txs_of (LK.lk_txs (p_all p))). pose proof (i_lookup _ _ _ _ _ _ _ _ _ _ _ Hi) as Hlk.
  assert (Hin : ∀ tx', tx' ∈ txs → U tx').
  { intros tx' Hk%known_txs; [|done]. by eapply (all_in_universe EffectiveGasTip Sender self U ∅ [] [] p). }
  assert (Hnd : NoDup (tx :: txs)).
  { apply NoDup_cons. split.
    - intros Hk%known_txs; [|done]. unfold known in Hk. congruence.
    - unfold txs, txs_of. apply NoDup_fmap_2_strong; [|apply NoDup_map_to_list].
      intros [h t] [h' t'] H1%elem_of_map_to_list H2%elem_of_map_to_list ?. cbn in *. subst t'.
      apply (LK.lo_keyed _ Hlk) in H1, H2. congruence. }
  assert (length (tx :: txs) ≤ length us)%nat.
  { apply submseteq_length, NoDup_submseteq; [done|]. intros tx' [->|Hk]%elem_of_cons; apply Hus; [done|by apply Hin]. }
  pose proof (sum_cost_bound (tx :: txs) (2 ^ 192 - 1) ltac:(lia)) as Hb. cbn [sum_cost foldr length] in *. unfold sum_cost at 1.
  enough (tx_Cost tx + foldr (λ tx acc, tx_Cost tx + acc) 0 txs ≤ Z.of_nat (Datatypes.S (length txs)) * (2 ^ 192 - 1)) by nia.
  apply Hb. intros tx' [->|Hk]%elem_of_cons; [lia|]. destruct (Hr tx' (Hin tx' Hk)). lia.
Qed.

(** ** Batches *)

Lemma wp_try_add tx p :
  universe → pool_ok p → submitted tx →
  wp (try (add tx)) (ok_with (λ r p', pool_ok p' ∧ match r with inl _ => enters tx p p' | inr _ => shrinks p p' end)) p.
Proof.
  intros Hu Hinv Hsub. apply wp_intro. intros p' r. unfold try.
  pose proof (wp_add EffectiveGasTip Sender EmptyCodeHash config self U (u_hash Hu) tx p Hinv) as Hw.
  specialize (Hw (λ Hn Ha, universe_fits tx p Hu Hinv Hsub Hn Ha)).
  destruct (add tx p) as [q res] eqn:Hrun. apply (wp_run _ _ _ _ _ Hw) in Hrun.
  destruct res as [b|e|m]; [| |done]; intros [= <- <-]; cbn in *; tauto.
Qed.

Lemma wp_addTxsLocked txs p :
  universe → pool_ok p → Forall submitted txs →
  wp (addTxsLocked EffectiveGasTip Sender EmptyCodeHash config self txs) (ok_with (λ r p', pool_ok p' ∧ length r.1 = length txs ∧
    ∀ tx, known (p_all p') tx → tx ∈ txs ∨ known (p_all p) tx)) p.
Proof.
  intros Hu. revert p. induction txs as [|tx rest IH]; intros p Hinv Hsub; cbn [addTxsLocked].
  { wp_steps. split_and!; [done..|]. by right. }
  apply Forall_cons in Hsub as [Htx Hsub]. apply wp_ok_bind. eapply wp_ok_mono; [by apply wp_try_add|]. cbn [ok_with].
  intros r p1 [H1 Hr]. apply wp_ok_bind. eapply wp_ok_mono; [by apply IH|]. cbn [ok_with]. intros [errs dirty] p2 (H2 & Hlen & Hk).
  wp_steps. split_and!; [done|cbn in *; congruence|]. intros tx' [?|Hin]%Hk; [set_solver|].
  destruct r; [apply Hr in Hin as [->|?]; [set_solver|by right]|right; by apply Hr].
Qed.

(** The gas computations return a value or an error. *)
Definition gas_total : Prop :=
  (∀ tx r m, IntrinsicGas tx r ≠ Panic m) ∧ (∀ d m, FloorDataGas d ≠ Panic m).

(** The pool accepts no blob transactions. *)
Lemma basics_no_blob tip tx : accepts (vo_Accept (basicOptions tip)) (tx_Type tx) = true → tx_Type tx ≠ BlobTxType.
Proof. intros H Hb. rewrite Hb in H. discriminate H. Qed.

Lemma ValidateTxBasics_total tx p :
  gas_total → ∃ r, ValidateTxBasics Sender tx p = (p, r) ∧ ∀ m, r ≠ Panic m.
Proof.
  intros [Hi Hf]. unfold ValidateTxBasics. run_M. unfold ValidateTransaction.
  rewrite reject_bind. destruct (accepts _ _) eqn:Hacc; [|by eexists]. apply basics_no_blob in Hacc. cbn [negb].
  do 12 (rewrite reject_bind; case_match; [by eexists|]).
  destruct (IntrinsicGas tx _) as [g|e|m] eqn:Hg; [|by eexists|by destruct (Hi _ _ _ Hg)]. cbn [lift].
  unfold mbind at 1, M_bind at 1, mret at 1, M_ret at 1. rewrite reject_bind. case_match; [by eexists|].
  unfold mbind at 1, M_bind at 1. destruct (chain_IsPrague (p_head p)).
  - destruct (FloorDataGas (tx_Data tx)) as [fl|e|m] eqn:Hfl; [|by eexists|by destruct (Hf _ _ Hfl)]. cbn [lift].
    unfold mbind at 1, M_bind at 1, mret at 1, M_ret at 1. rewrite reject_cases. destruct (tx_Gas tx <? fl); [by eexists|].
    rewrite reject_bind. case_match; [by eexists|]. rewrite (proj2 (Z.eqb_neq _ _) Hacc). unfold mbind, M_bind, mret, M_ret.
    rewrite reject_cases. case_match; by eexists.
  - unfold mret at 1, M_ret at 1. rewrite reject_bind. case_match; [by eexists|]. rewrite (proj2 (Z.eqb_neq _ _) Hacc).
    unfold mbind, M_bind, mret, M_ret. rewrite reject_cases. case_match; by eexists.
Qed.

(** Which transactions the first pass lets through. *)
Definition passes p (tx : Transaction) (err : option PoolError) : Prop :=
  match LK.Get (tx_Hash tx) (p_all p), err with
  | Some _, e => e = Some ErrAlreadyKnown
  | None, None => ValidateTxBasics Sender tx p = (p, Ok tt)
  | None, Some e => ValidateTxBasics Sender tx p = (p, Err e)
  end.
Definition passed (txs : Transactions) (errs : list (option PoolError)) : Transactions :=
  (filter (λ te, te.2 = None) (zip txs errs)).*1.
Lemma passed_cons tx txs e errs : passed (tx :: txs) (e :: errs) = if decide (e = None) then tx :: passed txs errs else passed txs errs.
Proof. unfold passed. cbn [zip zip_with]. rewrite filter_cons. cbn [snd]. by case_decide. Qed.
Lemma passed_length (P : Transaction → option PoolError → Prop) txs errs :
  Forall2 P txs errs → length (passed txs errs) = length (filter (λ e, e = None) errs).
Proof. induction 1 as [|tx e txs errs _ _ IH]; [done|]. rewrite passed_cons, filter_cons. case_decide; cbn; congruence. Qed.

Lemma wp_screen txs p :
  gas_total →
  wp (screen Sender txs) (ok_with (λ r p', p' = p ∧ Forall2 (passes p) txs r.1 ∧ r.2 = passed txs r.1)) p.
Proof.
  intros Hg. induction txs as [|tx rest IH]; cbn [screen]; [wp_steps; split_and!; [done|constructor|done]|].
  apply wp_ok_bind. wp_step. cbn [ok_with]. apply wp_ok_bind.
  apply (wp_mono _ (ok_with (λ r p', p' = p ∧ passes p tx (match r with inl _ => None | inr e => Some e end)))).
  { unfold passes. destruct (LK.Get (tx_Hash tx) (p_all p)) eqn:Hget.
    - rewrite bool_decide_true by done. wp_steps. done.
    - rewrite bool_decide_false by (by intros [? ?]). destruct (ValidateTxBasics_total tx p Hg) as (r & Hv & Hnp).
      apply wp_intro. intros p' r'. unfold try. rewrite Hv. destruct r as [[]|e|m]; [..|by destruct (Hnp m)]; by intros [= <- <-]. }
  intros p' [r|e|m]; [|done..]. cbn [ok_with]. intros [-> Hp]. apply wp_ok_bind. eapply wp_ok_mono; [exact IH|].
  cbn [ok_with]. intros [errs news] p'. cbn [fst snd]. intros (-> & Hf & ->). wp_step. destruct r; cbn [ok_with fst snd]; (split_and!; [done|by constructor|]);
    rewrite passed_cons; [by rewrite decide_True|by rewrite decide_False].
Qed.

(** Merging writes the errors of the second pass where the first had none. *)
Lemma merge_errs_spec {E} (errs newErrs : list (option E)) :
  length newErrs = length (filter (λ e, e = None) errs) →
  length (merge_errs errs newErrs) = length errs ∧
  (filter (λ er, er.1 = None) (zip errs (merge_errs errs newErrs))).*2 = newErrs ∧
  ∀ i e, errs !! i = Some (Some e) → merge_errs errs newErrs !! i = Some (Some e).
Proof.
  revert newErrs. induction errs as [|[e|] errs IH]; intros newErrs Hlen.
  - destruct newErrs; done.
  - rewrite filter_cons, decide_False in Hlen by done. destruct (IH newErrs Hlen) as (H1 & H2 & H3).
    cbn [merge_errs zip zip_with length]. rewrite filter_cons, decide_False by done.
    split_and!; [by rewrite H1|done|]. by intros [|i] e'; cbn; [|apply H3].
  - rewrite filter_cons, decide_True in Hlen by done. destruct newErrs as [|n newErrs]; [done|]. injection Hlen as Hlen.
    destruct (IH newErrs Hlen) as (H1 & H2 & H3). cbn [merge_errs zip zip_with length]. rewrite filter_cons, decide_True by done.
    split_and!; [by rewrite H1|by rewrite fmap_cons, H2|]. by intros [|i] e'; cbn; [|apply H3].
Qed.

Lemma wp_Add txs p :
  universe → gas_total → pool_ok p → Forall submitted txs →
  wp (LP.Add EffectiveGasTip Sender EmptyCodeHash config self txs) (ok_with (λ r p', pool_ok p' ∧
    (∃ errs newErrs, Forall2 (passes p) txs errs ∧ r.1 = merge_errs errs newErrs ∧
      length newErrs = length (filter (λ e, e = None) errs) ∧
      addTxsLocked EffectiveGasTip Sender EmptyCodeHash config self (passed txs errs) p = (p', Ok (newErrs, default ∅ r.2))) ∧
    ∀ tx, known (p_all p') tx → tx ∈ txs ∨ known (p_all p) tx)) p.
Proof.
  intros Hu Hg Hinv Hsub. unfold LP.Add. apply wp_ok_bind. eapply wp_ok_mono; [by apply wp_screen|]. cbn [ok_with].
  intros [errs news] p1. cbn [fst snd]. intros (-> & Hf & ->).
  pose proof (passed_length _ _ _ Hf) as Hlen.
  assert (Hin : ∀ tx, tx ∈ passed txs errs → tx ∈ txs).
  { intros tx ([t e] & -> & [_ Hin]%list_elem_of_filter)%list_elem_of_fmap. cbn. by apply elem_of_zip_l in Hin. }
  destruct (Nat.eqb_spec (length (passed txs errs)) 0) as [H0|_].
  - wp_steps. split_and!; [done| |by right]. exists errs, [].
    split_and!; [done| |by rewrite <- Hlen, H0|by apply nil_length_inv in H0 as ->].
    rewrite H0 in Hlen. clear -Hlen. cbn. induction errs as [|[e|] errs IH]; cbn; [done| |].
    + rewrite filter_cons, decide_False in Hlen by done. by rewrite <- IH.
    + rewrite filter_cons, decide_True in Hlen by done. done.
  - destruct (wp_ok_run _ _ _ (wp_addTxsLocked (passed txs errs) p Hu Hinv
      ltac:(apply Forall_forall; intros tx Htx%Hin; by eapply Forall_forall in Hsub))) as (p2 & [newErrs dirty] & Hrun & H2 & Hl2 & Hk).
    apply wp_ok_bind, wp_intro. intros p2' r2. rewrite Hrun. intros [= <- <-]. cbn [ok_with]. wp_steps. split_and!; [done| |].
    + exists errs, newErrs. split_and!; [done..| |done]. cbn in Hl2. congruence.
    + intros tx [?%Hin|?]%Hk; tauto.
Qed.

(** ** Raising the tip *)

Lemma wp_SetGasTip tip p :
  pool_ok p → 0 ≤ tip < 2 ^ 256 →
  wp (SetGasTip EffectiveGasTip Sender config self tip) (ok_with (λ _ p', pool_ok p' ∧ shrinks p p' ∧
    (p_gasTip p < tip → ∀ tx, known (p_all p') tx → tip ≤ tx_GasTipCap tx))) p.
Proof.
  intros Hinv Htip. unfold SetGasTip. unfold FromBig, wrap. rewrite Z.mod_small, (proj2 (Z.leb_gt _ _)) by lia. apply wp_ok_bind. wp_step. cbn [ok_with].
  apply wp_ok_bind. wp_step. cbn [ok_with]. destruct (Z.ltb_spec (p_gasTip p) tip); [|wp_steps; split_and!; [done|by intros ?|lia]].
  apply wp_ok_bind. wp_step. cbn [ok_with]. set (p1 := set_gasTip tip p). set (drop := LK.TxsBelowTip tip (p_all p1)).
  apply wp_ok_bind. eapply wp_ok_mono.
  { apply (wp_for_each drop _ (λ rest q, pool_ok q ∧ shrinks p q ∧ ∀ tx, known (p_all q) tx → tx ∈ rest ∨ tip ≤ tx_GasTipCap tx)).
    - intros tx rest q (Hq & Hs & Hk). apply wp_ok_bind.
      eapply wp_ok_mono; [apply (wp_removeTx EffectiveGasTip Sender config self U ∅ [] _ false true); [done|set_solver]|].
      cbn [ok_with]. intros n q1 (H1 & Hall & _). wp_steps.
      assert (Hkn : ∀ tx', known (p_all q1) tx' → known (p_all q) tx' ∧ tx_Hash tx' ≠ tx_Hash tx).
      { intros tx'. rewrite Hall. apply known_remove. }
      split_and!; [done|intros tx' [? _]%Hkn; by apply Hs|]. intros tx' [Hk' Hne]%Hkn.
      destruct (Hk tx' Hk') as [[->|?]%elem_of_cons|?]; [done|by left|by right].
    - split_and!; [done|by intros ?|]. intros tx Hk. destruct (Z.le_gt_cases tip (tx_GasTipCap tx)); [by right|left].
      unfold drop, LK.TxsBelowTip. rewrite list_elem_of_filter. split; [done|].
      destruct Hinv as (_ & _ & Hi). rewrite map_range_perm. by apply known_txs; [apply Hi|]. }
  cbn [ok_with]. intros [] q (Hq & Hs & Hk). eapply wp_ok_mono; [by apply wp_priced_removed|]. cbn [ok_with].
  intros [] q1 (H1 & _ & _ & A1). unfold shrinks. rewrite A1. split_and!; [done..|].
  intros _ tx [?%elem_of_nil|?]%Hk; done.
Qed.

(** ** Clearing *)

(** Releasing accounts of the pool. *)
Lemma release_lookup (rs : RV.ReservationTracker) a b :
  fst (RV.Release self [a] rs) !! b = if decide (a = b ∧ rs !! b = Some self) then None else rs !! b.
Proof.
  rewrite RV.Release_cons. destruct (rs !! a) as [o|] eqn:Ha.
  - destruct (Z.eqb_spec o self) as [->|Hne]; cbn.
    + destruct (decide (a = b)) as [->|Hab]; [by rewrite lookup_delete_eq, decide_True|].
      rewrite lookup_delete_ne, decide_False by (done || by intros [? _]). done.
    + rewrite decide_False; [done|]. intros [-> ?]. congruence.
  - cbn. rewrite decide_False; [done|]. intros [-> ?]. congruence.
Qed.

Lemma wp_Clear p :
  pool_ok p →
  wp (Clear EffectiveGasTip self) (ok_with (λ _ p', pool_ok p' ∧ p_pending p' = ∅ ∧ p_queue p' = ∅ ∧
    (∀ tx, ¬ known (p_all p') tx) ∧ (∀ a o, p_reserved p' !! a = Some o ↔ p_reserved p !! a = Some o ∧ o ≠ self))) p.
Proof.
  intros Hinv. pose proof Hinv as (_ & Hw & Hi). unfold Clear, release. apply wp_ok_bind. wp_step. cbn [ok_with]. apply wp_ok_bind.
  (* what the loops leave of the reservations *)
  set (I (P : Address → Prop) q := p_pending q = p_pending p ∧ p_queue q = p_queue p ∧ p_state q = p_state p ∧
    (∀ a o, o ≠ self → p_reserved q !! a = Some o ↔ p_reserved p !! a = Some o) ∧
    (∀ a, p_reserved q !! a = Some self → p_reserved p !! a = Some self ∧ P a)).
  assert (Hrel : ∀ (P P' : Address → Prop) a q, I P q → (∀ b, P b → b ≠ a → P' b) →
    I P' (set_reserved (fst (RV.Release self [a] (p_reserved q))) q)).
  { intros P P' a q (H1 & H2 & H3 & H4 & H5) HP. unfold I. cbn [p_pending p_queue p_state p_reserved set_reserved]. split_and!; [done..| |].
    - intros b o Ho. rewrite release_lookup, <- H4 by done. case_decide as Hd; [|done]. destruct Hd as [_ ->]. split; congruence.
    - intros b. rewrite release_lookup. case_decide as Hd; [done|]. intros Hb. destruct (H5 b Hb) as [? HPb].
      split; [done|]. apply HP; [done|]. intros ->. by apply Hd. }
  eapply wp_ok_mono.
  { apply (wp_for_each _ _ (λ rest q, I (λ a, is_Some (p_queue p !! a) ∨ a ∈ rest) q)).
    - intros a rest q Hq. apply wp_ok_bind. wp_step. cbn [ok_with]. pose proof Hq as (_ & Q & _). rewrite Q. unfold when.
      case_bool_decide as Hd; cbn [negb]; wp_steps.
      + destruct Hq as (? & ? & ? & ? & H5). split_and!; [done..|]. intros b [? [?|[->|?]%elem_of_cons]]%H5; tauto.
      + eapply Hrel; [exact Hq|]. intros b [?|[->|?]%elem_of_cons] ?; tauto.
    - split_and!; [done..|]. intros a Ha. split; [done|].
      apply (i_reserved _ _ _ _ _ _ _ _ _ _ _ Hi) in Ha as [b Hb]; [|set_solver]. rewrite content_lookup, fmap_is_Some in Hb.
      rewrite range_mem. destruct b; tauto. }
  cbn [ok_with]. intros [] q Hq. apply wp_ok_bind. wp_step. cbn [ok_with]. pose proof Hq as (_ & Q & _). rewrite Q. apply wp_ok_bind.
  eapply wp_ok_mono.
  { apply (wp_for_each _ _ (λ rest q, I (λ a, a ∈ rest) q)).
    - intros a rest q1 Hq1. wp_steps. eapply Hrel; [exact Hq1|]. intros b [->|?]%elem_of_cons ?; done.
    - destruct Hq as (? & ? & ? & ? & H5). split_and!; [done..|]. intros b [? [?|?%elem_of_nil]]%H5; [|done]. by rewrite range_mem. }
  cbn [ok_with]. intros [] q1 (_ & _ & S1 & R1 & R2). wp_steps.
  assert (Hres : ∀ a, p_reserved q1 !! a ≠ Some self) by (intros a [_ ?%elem_of_nil]%R2; done).
  split_and!; [|done|done|by intros ? ?|].
  - split_and!; [by intros []|by cbn; rewrite S1|]. cbn.
    destruct (PR.Reheap_spec EffectiveGasTip (LK.Clear (p_all q1)) (p_priced q1)) as (Hpl & He & _).
    apply inv_nothing; [by intros []|done|done|]. etrans; [exact He|]. cbn. unfold txs_of. by rewrite map_to_list_empty.
  - intros a o. split; [|intros [? ?]; by apply R1]. intros Ha. destruct (decide (o = self)) as [->|Hne]; [by destruct (Hres a)|].
    split; [by apply R1|done].
Qed.
End Ops.
End LO.
