(* ===== verification/LegacyPoolProps.v ===== *)
(** The correctness of the transaction pool: every pool that its operations
    reach is consistent, a run of its maintenance brings it within its limits at
    the new head, batches report a result per transaction, and requests to the
    scheduling loop are served. *)
From S2P Require Import Prelude GoStd AccessList Sdk Heap TxList PoolList Reserver TxLookup PricedList TxStore PoolValidation LegacyPool LegacyPoolReorg ReorgLoop PoolInv LegacyPoolInv LegacyPoolAdd LegacyPoolMaint LegacyPoolLimits LegacyPoolOps.

Module LPP.
Import SM TL PV LP RO PI LI LA LF LM LL LR LO.

(** ** Consistent pools *)

Section Props.
Context `{HR : MapRange} `{HRL : !MapRangeLaws} `{HPR : PoolRange} `{HPRL : !PoolRangeLaws} `{HC : TxChecks} `{RC : Rechecker}.
Context (EffectiveGasTip : Z → Transaction → Z) (Sender : Transaction → option Address).
Context (self : Z) (U : Transaction → Prop).
Implicit Types p q : LegacyPool.
Abbreviation pool_ok := (pool_inv EffectiveGasTip Sender self U ∅ [] []).
Abbreviation idle := (idle EffectiveGasTip Sender self U).

(** The lists are well formed and not empty; the table has exactly the
    transactions of the lists, each in one list, that of its sender, at its
    nonce; the pool has reserved exactly the accounts with lists; the heaps have
    every transaction of the table. *)
Record consistent p : Prop := {
  c_lists b a l : side b p !! a = Some l → list_ok l ∧ l_strict l = b ∧ items l ≠ ∅;
  c_table tx : LK.Get (tx_Hash tx) (p_all p) = Some tx ↔
    ∃ b a l, Sender tx = Some a ∧ side b p !! a = Some l ∧ items l !! tx_Nonce tx = Some tx;
  c_once a l l' n : p_pending p !! a = Some l → p_queue p !! a = Some l' → is_Some (items l !! n) → items l' !! n = None;
  c_lookup : LK.lookup_ok (p_all p);
  c_reserved a : p_reserved p !! a = Some self ↔ is_Some (p_pending p !! a) ∨ is_Some (p_queue p !! a);
  c_priced tx : LK.Get (tx_Hash tx) (p_all p) = Some tx → tx ∈ PR.entries (p_priced p);
  c_heaps : PR.pl_ok EffectiveGasTip (p_priced p);
}.

Lemma listed_at p b a l tx : side b p !! a = Some l → items l !! tx_Nonce tx = Some tx → at_ (content (p_pending p) (p_queue p)) b a tx.
Proof. intros Hl Htx. exists (items l). by rewrite content_lookup; change (if b then p_pending p else p_queue p) with (side b p); rewrite Hl. Qed.
Lemma pool_ok_consistent p : pool_ok p → consistent p.
Proof.
  intros Hinv. pose proof Hinv as (Hls & _ & Hi). split.
  - intros b a l Hl. destruct (Hls b a l Hl). split_and!; [done..|].
    apply (pool_inv_nonempty EffectiveGasTip Sender self U ∅ [] [] p b a l Hinv); [set_solver|done].
  - intros tx. split.
    + intros Hk. destruct (known_at _ _ _ _ _ _ _ _ Hinv Hk) as (b & l & Hs & Hl & Htx & _). by exists b, (sender Sender tx), l.
    + intros (b & a & l & _ & Hl & Htx). apply (i_known _ _ _ _ _ _ _ _ _ _ _ Hi). left. exists b, a. by eapply listed_at.
  - intros a l l' n Hl Hl' [tx Htx]. destruct (items l' !! n) as [tx'|] eqn:Htx'; [|done]. exfalso.
    pose proof (ac_keyed l (proj2 (proj1 (Hls true a l Hl))) _ _ Htx) as Hn.
    pose proof (ac_keyed l' (proj2 (proj1 (Hls false a l' Hl'))) _ _ Htx') as Hn'. subst n.
    assert (Hat : at_ (content (p_pending p) (p_queue p)) true a tx) by (by apply (listed_at p true a l)).
    assert (Hat' : at_ (content (p_pending p) (p_queue p)) false a tx') by (apply (listed_at p false a l'); [done|by rewrite Hn']).
    assert (tx' = tx) as ->.
    { apply (i_unique _ _ _ _ _ _ _ _ _ _ _ Hi); [apply (i_known _ _ _ _ _ _ _ _ _ _ _ Hi); eauto..| |done].
      by rewrite (i_sender _ _ _ _ _ _ _ _ _ _ _ Hi _ _ _ Hat), (i_sender _ _ _ _ _ _ _ _ _ _ _ Hi _ _ _ Hat'). }
    by pose proof (i_once _ _ _ _ _ _ _ _ _ _ _ Hi _ _ _ _ Hat Hat').
  - apply Hi.
  - intros a. rewrite (i_reserved _ _ _ _ _ _ _ _ _ _ _ Hi a) by set_solver. setoid_rewrite content_lookup.
    setoid_rewrite fmap_is_Some. split; [intros [[] ?]; tauto|]. intros [?|?]; [by exists true|by exists false].
  - intros tx [?%elem_of_nil|?]%(i_cover _ _ _ _ _ _ _ _ _ _ _ Hi); done.
  - apply Hi.
Qed.

(** ** Operations as steps *)

Context (EmptyCodeHash : Hash) (prque_order : list (Address * Z) → list Address) (conf : Config).
Context (chain : BlockChain) (IsLondon : Z → bool) (CalcBaseFee : Header → Z) (EmptyRootHash : Hash).
(** [New] sanitises the configuration. *)
Abbreviation config := (sanitize conf).
Abbreviation run := (runReorg EffectiveGasTip Sender prque_order config self chain IsLondon CalcBaseFee EmptyCodeHash).

Inductive op :=
| OAdd (txs : Transactions)
| ORun (input : reorgInput)
| OEvict
| OSetGasTip (tip : Z)
| OClear
| ORemoveTx (hash : Hash) (outofbound : bool).
Definition exec (o : op) : M LegacyPool PoolError unit :=
  match o with
  | OAdd txs => LP.Add EffectiveGasTip Sender EmptyCodeHash config self txs;; mret tt
  | ORun input => run input;; mret tt
  | OEvict => evict EffectiveGasTip Sender config self
  | OSetGasTip tip => SetGasTip EffectiveGasTip Sender config self tip
  | OClear => Clear EffectiveGasTip self
  | ORemoveTx hash outofbound => RemoveTx EffectiveGasTip Sender config self hash outofbound true;; mret tt
  end.
(** What callers owe: transactions of the universe, requests with a new head, a
    tip that fits in a word. *)
Definition admissible (o : op) : Prop :=
  match o with
  | OAdd txs => Forall (submitted U) txs
  | ORun input => ∀ req, ri_reset input = Some req → well_formed req
  | OSetGasTip tip => 0 ≤ tip < 2 ^ 256
  | _ => True
  end.
(** Pools on the way; time may pass at any point. *)
Inductive reachable : LegacyPool → Prop :=
| reach_init gasTip head reserver rechecker clock p :
    Init chain EmptyRootHash gasTip head reserver rechecker clock = Some p → (∀ a, reserver !! a ≠ Some self) → reachable p
| reach_step p p' o r : reachable p → admissible o → exec o p = (p', r) → reachable p'
| reach_tick p clock : reachable p →
    reachable (mkPool (p_gasTip p) (p_head p) (p_state p) (p_nonces p) (p_reserved p) (p_rechecker p) (p_valid p) (p_pending p)
      (p_queue p) (p_beats p) (p_all p) (p_priced p) (p_changes p) clock (p_notices p)).

Lemma sanitize_positive : 1 ≤ AccountSlots config ∧ 1 ≤ GlobalSlots config ∧ 1 ≤ GlobalQueue config ∧ 1 ≤ AccountQueue config.
Proof. unfold sanitize, DefaultConfig. cbn. repeat case_match; zbool; cbn; lia. Qed.

Lemma init_idle gasTip head reserver rechecker clock p :
  chain_ok chain → Init chain EmptyRootHash gasTip head reserver rechecker clock = Some p → (∀ a, reserver !! a ≠ Some self) → idle p.
Proof.
  intros [Hst _] Hinit Hres. unfold Init in Hinit. destruct (Hst (hd_Root head)) as (st & Hs & Hw). rewrite Hs in Hinit.
  injection Hinit as <-. split; [|done]. split_and!; [by intros []|done|]. cbn.
  apply inv_nothing; [by intros []|done| |done]. done.
Qed.

(** What the pool is given: the chain, the queue of offenders, the gas
    computations and the transactions that can reach it. *)
Record surroundings : Prop := {
  s_chain : chain_ok chain;
  s_prque : prque_laws prque_order;
  s_gas : gas_total;
  s_universe : universe U;
}.

Lemma wp_idle {A} (m : M LegacyPool PoolError A) p :
  idle p → keeps chain_of m → wp m (ok_with (λ _ p', pool_ok p')) p → wp m (ok_with (λ _ p', idle p')) p.
Proof.
  intros [Hok Hend] Hk Hw. eapply wp_mono; [by apply (wp_keeps chain_of)|].
  intros p' [a|e|s] [H Hch]; [|done..]. cbn [ok_with] in *. split; [done|]. injection Hch as _ _ _ ->. done.
Qed.
Lemma exec_idle o p : surroundings → admissible o → idle p → wp (exec o) (ok_with (λ _ p', idle p')) p.
Proof.
  intros [Hch Hpq Hg Hu] Hadm Hidle. pose proof Hidle as [Hok Hend]. pose proof sanitize_positive as (Hs & _ & Hq & _).
  assert (Hforget : ∀ A (m : M LegacyPool PoolError A), wp m (ok_with (λ _ p', idle p')) p → wp (m;; mret tt) (ok_with (λ _ p', idle p')) p).
  { intros A m Hw. apply wp_ok_bind. eapply wp_ok_mono; [done|]. intros a p' Hi. by apply wp_ret. }
  destruct o as [txs|input| |tip| |hash ob]; cbn [exec admissible] in *.
  - apply Hforget, wp_idle; [done|auto with keeps|]. eapply wp_ok_mono; [by apply wp_Add|]. by intros r p' [? _].
  - apply Hforget. eapply wp_ok_mono; [apply wp_runReorg; try done; [apply Hu|lia]|]. by intros txs p' [? _].
  - apply wp_idle; [done|auto with keeps|]. eapply wp_ok_mono; [by apply wp_evict|]. by intros [] p' [? _].
  - apply wp_idle; [done|auto with keeps|]. eapply wp_ok_mono; [by apply wp_SetGasTip|]. by intros [] p' [? _].
  - apply wp_idle; [done|auto with keeps|]. eapply wp_ok_mono; [by apply wp_Clear|]. by intros [] p' [? _].
  - apply Hforget, wp_idle; [done|unfold RemoveTx; auto with keeps|].
    eapply wp_ok_mono; [apply (wp_removeTx EffectiveGasTip Sender _ self U ∅ [] hash ob true); [done|set_solver]|]. by intros n p' [? _].
Qed.
Lemma reachable_idle p : surroundings → reachable p → idle p.
Proof.
  intros Hs Hr. induction Hr as [gasTip head reserver rechecker clock p Hinit Hres|p p' o r Hr IH Hadm Hexec|p clock Hr IH].
  - eapply init_idle; [apply Hs|done..].
  - pose proof (exec_idle o p Hs Hadm IH) as Hw. apply (wp_run _ _ _ _ _ Hw) in Hexec. by destruct r.
  - done.
Qed.

(** ** The claims *)

(** C24: every pool reached by additions in batches, maintenance runs with or
    without a reset and cancelled at any point, evictions, changes of the tip,
    removals and clearing is consistent: its table, lists, reservations and price
    heaps agree.  No such operation panics or fails from there, so its result is
    consistent again.  (The height of the store of rechecked transactions has
    ended, so the next reset can start.) *)
Theorem pool_always_consistent p :
  surroundings → reachable p →
  consistent p ∧ HS.hs_ended (p_valid p) = true ∧
  ∀ o, admissible o → ∃ p', exec o p = (p', Ok tt) ∧ consistent p'.
Proof.
  intros Hs Hr. pose proof (reachable_idle p Hs Hr) as Hidle. split_and!; [apply pool_ok_consistent, Hidle|apply Hidle|].
  intros o Hadm. destruct (wp_ok_run _ _ _ (exec_idle o p Hs Hadm Hidle)) as (p' & [] & Hrun & Hi).
  exists p'. split; [done|]. apply pool_ok_consistent, Hi.
Qed.

(** C22: a maintenance run of a reachable pool returns, with any rechecker, and
    leaves a consistent pool within its limits: at most [GlobalQueue] queued
    transactions, and at most [GlobalSlots] pending ones unless no account has
    more than [AccountSlots].  A run with a reset leaves the pool at the new head;
    if its demotion was not cancelled, every pending list starts at the nonce of
    its account at that head, which can pay for each of its transactions. *)
Theorem maintenance_settles_pool p input :
  surroundings → reachable p → (∀ req, ri_reset input = Some req → well_formed req) →
  ∃ p' txs, run input p = (p', Ok txs) ∧ consistent p' ∧ within_limits config p' ∧
    match ri_reset input with
    | Some req =>
        p_head p' = default (CurrentBlock chain) (rr_newHead req) ∧
        StateAt chain (hd_Root (p_head p')) = Some (p_state p') ∧
        (ri_cancel_demote input = None → all_executable p')
    | None => p_head p' = p_head p ∧ p_state p' = p_state p
    end.
Proof.
  intros Hs Hr Hwf. pose proof Hs as [Hch Hpq Hg Hu]. pose proof sanitize_positive as (Has & _ & Hq & _).
  pose proof (wp_runReorg EffectiveGasTip Sender prque_order config self U chain IsLondon CalcBaseFee EmptyCodeHash input p
    Hch Hpq (u_few _ Hu) Has ltac:(lia) Hwf (reachable_idle p Hs Hr)) as Hw.
  destruct (wp_ok_run _ _ _ Hw) as (p' & txs & Hrun & Hi & Hl & Hm). exists p', txs. split_and!; try done.
  apply pool_ok_consistent, Hi.
Qed.

(** C27: truncating the pending transactions is fair.  It brings their number
    within [GlobalSlots] unless no account is left above [AccountSlots]; accounts
    at or below [AccountSlots] keep their lists, the others keep at least that
    many transactions, with the lowest nonces. *)
Theorem truncation_is_fair p :
  prque_laws prque_order → universe U → pool_ok p →
  ∃ p', truncatePending EffectiveGasTip prque_order config p = (p', Ok tt) ∧ consistent p' ∧ p_queue p' = p_queue p ∧
    (Z.of_nat (total_len (p_pending p')) ≤ GlobalSlots config ∨
     ∀ a, Z.of_nat (list_len (p_pending p') a) ≤ AccountSlots config) ∧
    (∀ a, Z.of_nat (list_len (p_pending p) a) ≤ AccountSlots config → p_pending p' !! a = p_pending p !! a) ∧
    (∀ a, Z.min (Z.of_nat (list_len (p_pending p) a)) (AccountSlots config) ≤ Z.of_nat (list_len (p_pending p') a)) ∧
    (∀ a l', p_pending p' !! a = Some l' → ∃ l, p_pending p !! a = Some l ∧ trimmed l l').
Proof.
  intros Hpq Hu Hok. pose proof sanitize_positive as (Has & _).
  destruct (wp_ok_run _ _ _ (wp_truncatePending EffectiveGasTip Sender config self U prque_order p Hpq Hok Has
    (few_listed EffectiveGasTip Sender self U p true (u_few _ Hu) Hok))) as (p' & [] & Hrun & (Hok' & Hq & _ & Ht) & _ & Hlim & Hkeep & Hmin).
  exists p'. split_and!; try done. by apply pool_ok_consistent.
Qed.

(** C31: a batch of additions reports one result per transaction, at its
    position: that it is already known, the error of the stateless checks, or else
    the result of adding it after those before it ([addTxsLocked] on the
    transactions that passed, in order).  The pool stays consistent and has no
    transaction it was not given. *)
Theorem batch_results_in_position txs p :
  surroundings → reachable p → Forall (submitted U) txs →
  ∃ p' results dirty errs newErrs,
    LP.Add EffectiveGasTip Sender EmptyCodeHash config self txs p = (p', Ok (results, dirty)) ∧ consistent p' ∧
    length results = length txs ∧ Forall2 (passes Sender p) txs errs ∧
    (∀ i e, errs !! i = Some (Some e) → results !! i = Some (Some e)) ∧
    (filter (λ er, er.1 = None) (zip errs results)).*2 = newErrs ∧
    addTxsLocked EffectiveGasTip Sender EmptyCodeHash config self (passed txs errs) p = (p', Ok (newErrs, default ∅ dirty)) ∧
    length newErrs = length (passed txs errs) ∧
    (∀ tx, LK.Get (tx_Hash tx) (p_all p') = Some tx → tx ∈ txs ∨ LK.Get (tx_Hash tx) (p_all p) = Some tx).
Proof.
  intros Hs Hr Hsub. pose proof Hs as [Hch Hpq Hg Hu]. destruct (reachable_idle p Hs Hr) as [Hok _].
  destruct (wp_ok_run _ _ _ (wp_Add EffectiveGasTip Sender EmptyCodeHash config self U txs p Hu Hg Hok Hsub))
    as (p' & [results dirty] & Hrun & Hok' & (errs & newErrs & Hf & Hres & Hlen & Hadd) & Hk). cbn [fst] in Hres. subst results.
  destruct (merge_errs_spec errs newErrs Hlen) as (H1 & H2 & H3).
  exists p', (merge_errs errs newErrs), dirty, errs, newErrs. split_and!; try done.
  - by apply pool_ok_consistent.
  - rewrite H1. symmetry. by eapply Forall2_length.
  - rewrite Hlen. symmetry. by eapply passed_length.
Qed.

(** C26: when the chain has no state for the new head, the reset logs the error
    and returns without starting a new height, but the run still ends the height:
    it panics, whatever the pool. *)
Theorem reset_without_state_panics p input req :
  idle p → ri_reset input = Some req → well_formed req →
  StateAt chain (hd_Root (default (CurrentBlock chain) (rr_newHead req))) = None →
  ∃ p', run input p = (p', Panic "height already ended").
Proof.
  intros Hidle Hreq Hwf Hst. destruct (run input p) as [p' r] eqn:Hrun. exists p'.
  pose proof (wp_run_without_state EffectiveGasTip Sender prque_order config self U chain IsLondon CalcBaseFee EmptyCodeHash
    input req p Hidle Hreq Hwf Hst) as Hw. by apply (wp_run _ _ _ _ _ Hw) in Hrun as ->.
Qed.
End Props.

(** ** The scheduling loop *)

(** C21: requests to the scheduling loop are served.  A request for a reset or a
    promotion is given a channel; once two more runs end, or the loop shuts down,
    that channel is closed.  Without a shutdown the run that closes it has exactly
    the work that was pending at the request and that arrived before its launch:
    the reset from the first old head to the last new head asked for, and the union
    of the accounts; so it resets to the requested head, or to the head of the last
    request that came after it and before the launch, and has the requested
    accounts.  A run in progress can always end and be received, so finishing runs
    is all it takes. *)
Theorem requests_are_served ev evs evs' w w1 w2 :
  RL.run evs RL.initial = Some w → (∃ req, ev = RL.ReqReset req) ∨ (∃ set, ev = RL.ReqPromote set) →
  RL.step ev w = Some w1 → RL.run evs' w1 = Some w2 →
  let arrived := RL.before_launch (RL.nextDone w) evs' w1 in
  ((2 ≤ RL.ends evs')%nat ∨ RL.Shutdown ∈ evs' → RL.nextDone w ∈ RL.w_closed w2) ∧
  ((2 ≤ RL.ends evs')%nat → RL.Shutdown ∉ evs' →
    ∃ r, r ∈ RL.w_runs w2 ∧ RL.r_done r = RL.nextDone w ∧
      RL.serves w (ev :: arrived) (RL.r_reset r) (RL.r_dirty r) ∧ RL.asked ev arrived r) ∧
  (RL.nextDone w ∉ RL.w_closed w2 →
    ∃ done w3, RL.run done w2 = Some w3 ∧ RL.nextDone w ∈ RL.w_closed w3 ∧ ∀ e, e ∈ done → e = RL.RunEnds ∨ e = RL.RunDone).
Proof.
  intros Hw Hev H1 H2 arrived. pose proof (RL.run_ok _ _ _ RL.initial_ok Hw) as Hok.
  destruct (RL.request_phase _ _ _ Hok Hev H1) as (n & Hph & Hn). pose proof (RL.loop_step_ok _ _ _ Hok H1) as Hok1. split_and!.
  - by eapply RL.phase_closed.
  - intros He Hns. destruct (RL.phase_run _ _ _ _ _ _ _ Hok1 Hph H2 Hns) as (n' & Hph' & Hle).
    destruct (RL.phase_done w (ev :: arrived) (RL.nextDone w) w2) as (r & Hin & Hd & Hsv); [by replace 0%nat with n' by lia|].
    exists r. split_and!; [done..|]. by eapply RL.serves_asked.
  - intros Hnc. by eapply RL.phase_progress.
Qed.
End LPP.
