(* ===== verification/PoolWitnesses.v ===== *)
(** A concrete pool for the claims about the transaction pool: two accounts, one
    with three transactions and one with one, on a chain that can pay for them. *)
From S2P Require Import Prelude GoStd AccessList Sdk Heap TxList PoolList Reserver TxLookup PricedList TxStore PoolValidation LegacyPool LegacyPoolReorg ReorgLoop PoolInv LegacyPoolInv LegacyPoolAdd LegacyPoolMaint LegacyPoolLimits LegacyPoolOps LegacyPoolProps.

Module DemoPool.
Import SM TL PV LP RO LI LF LM LL LR LO LPP ListRange.

#[local] Instance demo_range : PoolRange := λ m, (map_to_list m).*1.
#[local] Instance demo_range_laws : PoolRangeLaws.
Proof. by intros m. Qed.
#[local] Instance demo_checks : TxChecks := {
  tx_Type _ := DynamicFeeTxType; tx_Value _ := 0; tx_Data _ := []; tx_creates _ := false; tx_Authorizations _ := O;
  tx_BlobGasFeeCap _ := 0; tx_BlobHashes _ := []; tx_BlobTxSidecar _ := None;
  chain_Rules _ := mkRules true true true true true true; chain_IsPrague _ := true;
  IntrinsicGas _ _ := Ok 21000; FloorDataGas _ := Ok 21000; MaxBlobsPerBlock _ := 6;
  ValidateBlobCommitmentHashes _ _ := None; VerifyBlobProof _ _ _ := true;
}.
(** Transaction [n] of account [a]. *)
Definition tx_ (a n : Z) : Transaction := mkTx (100 * a + n) n 21000 10 2 210000 120 [].
Definition Sender (tx : Transaction) : option Address := Some (tx_Hash tx / 100).
Definition tip_ (baseFee : Z) (tx : Transaction) : Z := tx_GasTipCap tx.
Definition txs : Transactions := [tx_ 1 0; tx_ 1 1; tx_ 1 2; tx_ 2 0].
Definition U (tx : Transaction) : Prop := tx ∈ txs.
Definition longer (x y : Address * Z) : Prop := y.2 ≤ x.2.
#[local] Instance longer_dec x y : Decision (longer x y).
Proof. unfold longer. apply _. Defined.
#[local] Instance longer_trans : Transitive longer.
Proof. intros x y z Hx Hy. unfold longer in *. lia. Qed.
#[local] Instance longer_total : Total longer.
Proof. intros x y. unfold longer. lia. Qed.
Definition order (l : list (Address * Z)) : list Address := (merge_sort longer l).*1.
Definition state : ChainState := mkState (λ _, 0) (λ _, 10 ^ 18) (λ _, 0).
Definition head0 : Header := mkHeader 7 6 70 12 30000000.
Definition head1 : Header := mkHeader 8 7 80 13 30000000.
Definition chain : BlockChain := mkChain head0 (λ _, Some state) (Some tt).
(** One slot per account, two in all. *)
Definition conf : Config := mkConfig 1 10 1 2 64 1024 (10 ^ 9).
Definition self : Z := 5.
Abbreviation run_ := (runReorg tip_ Sender order (sanitize conf) self chain (λ _, true) (λ _, 1) 0).
Abbreviation exec_ := (exec tip_ Sender self 0 order conf chain (λ _, true) (λ _, 1)).
Abbreviation surroundings_ := (surroundings U order chain).
Abbreviation reachable_ := (reachable tip_ Sender self U 0 order conf chain (λ _, true) (λ _, 1) 0).

Definition pool0 : LegacyPool := default (mkPool 0 head0 state ∅ ∅ tt (HS.New TS.NewTxStore 0) ∅ ∅ ∅ LK.newLookup PR.newPricedList 0 0 [])
  (Init chain 0 1 head0 ∅ tt 1000).
Definition pool1 : LegacyPool := fst (exec_ (OAdd txs) pool0).
Definition reset_input : reorgInput := mkInput (Some (mkReset (Some head0) (Some head1))) None ∅ None None.

Lemma order_laws : prque_laws order.
Proof.
  intros l. exists (merge_sort longer l). split_and!; [apply merge_sort_Permutation|done|].
  apply (StronglySorted_merge_sort longer).
Qed.
Lemma demo_universe : universe U.
Proof.
  assert (Hall : ∀ tx, U tx → tx = tx_ 1 0 ∨ tx = tx_ 1 1 ∨ tx = tx_ 1 2 ∨ tx = tx_ 2 0).
  { intros tx. unfold U, txs. rewrite !elem_of_cons, elem_of_nil. tauto. }
  split.
  - exists txs. split; [done|]. done.
  - intros tx tx' H H'. apply Hall in H, H'. destruct_or?; subst; done.
  - intros tx H%Hall. destruct_or?; subst; cbn; lia.
Qed.
Lemma demo_surroundings : surroundings_.
Proof.
  split; [|exact order_laws|by split; intros; discriminate|exact demo_universe].
  split; [|by eexists]. intros root. exists state. split; [done|]. intros a. cbn. lia.
Qed.
Lemma demo_submitted : Forall (submitted U) txs.
Proof. apply Forall_forall. intros tx Htx _. exact Htx. Qed.
Lemma pool0_reachable : reachable_ pool0.
Proof.
  assert (Hinit : Init chain 0 1 head0 ∅ tt 1000 = Some pool0) by done.
  eapply reach_init; [exact Hinit|]. intros a. by rewrite lookup_empty.
Qed.
Lemma pool1_reachable : reachable_ pool1.
Proof.
  eapply reach_step; [exact pool0_reachable|exact (demo_submitted : admissible U (OAdd txs))|].
  unfold pool1. apply surjective_pairing.
Qed.
Lemma pool1_idle : idle tip_ Sender self U pool1.
Proof. eapply reachable_idle; [exact demo_surroundings|exact pool1_reachable]. Qed.

(** The four transactions promoted, before any limit applies. *)
Definition pool2 : LegacyPool := fst (promoteExecutables tip_ (sanitize conf) self [1; 2] None false pool1).
Lemma pool2_ok : pool_inv tip_ Sender self U ∅ [] [] pool2.
Proof.
  destruct (wp_ok_run _ _ _ (wp_promoteExecutables tip_ Sender (sanitize conf) self U [1; 2] None false pool1 (proj1 pool1_idle)))
    as (p' & r & Hrun & Hok). unfold pool2. by rewrite Hrun.
Qed.
(** A chain that lost its states. *)
Definition lost_chain : BlockChain := mkChain head0 (λ _, None) (Some tt).

Lemma reset_well_formed req : ri_reset reset_input = Some req → well_formed req.
Proof. intros [= <-] _. by exists head1. Qed.

Lemma pool_always_consistent_witness :
  stats pool1 = (0, 4)%nat ∧ consistent tip_ Sender self pool1 ∧
  ∃ p', exec_ (ORun reset_input) pool1 = (p', Ok tt) ∧ consistent tip_ Sender self p'.
Proof.
  destruct (pool_always_consistent tip_ Sender self U 0 order conf chain (λ _, true) (λ _, 1) 0 pool1
    demo_surroundings pool1_reachable) as (H1 & _ & H2).
  split; [by vm_compute|]. split; [exact H1|]. apply H2. exact reset_well_formed.
Defined.
Lemma maintenance_settles_pool_witness :
  ∃ p' sent, run_ reset_input pool1 = (p', Ok sent) ∧ within_limits (sanitize conf) p' ∧ p_head p' = head1 ∧ all_executable p' ∧
    stats (fst (run_ reset_input pool1)) = (2, 0)%nat.
Proof.
  destruct (maintenance_settles_pool tip_ Sender self U 0 order conf chain (λ _, true) (λ _, 1) 0 pool1 reset_input
    demo_surroundings pool1_reachable reset_well_formed) as (p' & sent & Hrun & _ & Hl & Hh & _ & He).
  exists p', sent. split; [exact Hrun|]. split; [exact Hl|]. split; [exact Hh|]. split; [exact (He eq_refl)|by vm_compute].
Defined.
Lemma truncation_is_fair_witness :
  stats pool2 = (4, 0)%nat ∧
  ∃ p', truncatePending tip_ order (sanitize conf) pool2 = (p', Ok tt) ∧
    (∀ a, Z.min (Z.of_nat (list_len (p_pending pool2) a)) 1 ≤ Z.of_nat (list_len (p_pending p') a)) ∧
    stats (fst (truncatePending tip_ order (sanitize conf) pool2)) = (2, 0)%nat.
Proof.
  split; [by vm_compute|].
  destruct (truncation_is_fair tip_ Sender self U order conf pool2 order_laws demo_universe pool2_ok)
    as (p' & Hrun & _ & _ & _ & _ & Hmin & _).
  exists p'. split; [exact Hrun|]. split; [exact Hmin|by vm_compute].
Defined.
Lemma batch_results_in_position_witness :
  ∃ p' results dirty, LP.Add tip_ Sender 0 (sanitize conf) self txs pool1 = (p', Ok (results, dirty)) ∧ length results = 4%nat ∧
    snd (LP.Add tip_ Sender 0 (sanitize conf) self txs pool1) = Ok (replicate 4 (Some ErrAlreadyKnown), None).
Proof.
  destruct (batch_results_in_position tip_ Sender self U 0 order conf chain (λ _, true) (λ _, 1) 0 txs pool1
    demo_surroundings pool1_reachable demo_submitted) as (p' & results & dirty & errs & newErrs & Hrun & _ & Hlen & _).
  exists p', results, dirty. split; [exact Hrun|]. split; [exact Hlen|by vm_compute].
Defined.
Lemma reset_without_state_panics_witness :
  ∃ p', runReorg tip_ Sender order (sanitize conf) self lost_chain (λ _, true) (λ _, 1) 0 reset_input pool1 =
    (p', Panic "height already ended").
Proof.
  apply (reset_without_state_panics tip_ Sender self U 0 order conf lost_chain (λ _, true) (λ _, 1) pool1 reset_input
    (mkReset (Some head0) (Some head1)) pool1_idle eq_refl); [|exact eq_refl].
  intros _. by exists head1.
Defined.

(** A reset requested while a promotion runs is served by the second run, which
    resets to the head of the last request. *)
Lemma requests_are_served_witness :
  ∃ w w1 w2, RL.run [RL.ReqPromote {[1]}] RL.initial = Some w ∧ RL.step (RL.ReqReset (mkReset (Some head0) (Some head0))) w = Some w1 ∧
    RL.run [RL.ReqReset (mkReset None (Some head1)); RL.RunEnds; RL.RunDone; RL.RunEnds] w1 = Some w2 ∧
    ∃ r, r ∈ RL.w_runs w2 ∧ RL.r_reset r = Some (mkReset (Some head0) (Some head1)).
Proof.
  eexists _, _, _. split; [reflexivity|]. split; [reflexivity|]. split; [reflexivity|].
  destruct (requests_are_served (RL.ReqReset (mkReset (Some head0) (Some head0))) [RL.ReqPromote {[1]}]
    [RL.ReqReset (mkReset None (Some head1)); RL.RunEnds; RL.RunDone; RL.RunEnds] _ _ _ eq_refl
    (or_introl (ex_intro _ _ eq_refl)) eq_refl eq_refl) as (_ & H & _).
  destruct H as (r & Hin & _ & [Hr _] & _); [vm_compute; repeat constructor|set_solver|].
  exists r. split; [exact Hin|]. rewrite Hr. reflexivity.
Defined.
End DemoPool.
