(* ===== verification/EvmTx.v ===== *)
(** Ethereum transactions as the EVM module handles them: the message
    [MsgEthereumTx] with its fees and basic validation ([x/vm/types/msg.go],
    [tx.go], [eth.go], parts of [utils.go]), the gas meter of an EVM transaction
    ([x/vm/types/gasmeter.go]) and the block gas limit ([ante/types/block.go]).

    The transaction type, the intrinsic gas, signatures and delegations belong to
    go-ethereum: a transaction is the record of the values its accessors return
    and the functions are methods of [EthLib]; [EthLaws] states what the fee
    computations rely on. *)
From S2P Require Import Prelude GoStd AccessList Sdk EvmCoin LegacyDec StateDB EvmKeeper FeeMarket.

(** ** Data *)

(** [ethtypes.SetCodeAuthorization] (EIP-7702). *)
Record SetCodeAuthorization := mkAuthorization {
  auth_ChainID : Z;
  auth_Address : Address;
  auth_Nonce : Z;
  auth_Signature : string;
}.

(** [ethtypes.Transaction], by its accessors. *)
Record Transaction := mkTransaction {
  tx_Type : Z;
  tx_Nonce : Z;
  tx_Gas : Z;
  tx_GasPrice : Z;
  tx_GasFeeCap : Z;
  tx_GasTipCap : Z;
  tx_To : option Address;
  tx_Value : Z;
  tx_Data : string;
  tx_AccessList : list (Address * list Hash);
  tx_SetCodeAuthorizations : list SetCodeAuthorization;
  tx_BlobHashes : list Hash;
  tx_BlobGasFeeCap : option Z;
  tx_Hash : Hash;
}.

(** [ethtypes] transaction types. *)
Definition LegacyTxType : Z := 0.
Definition AccessListTxType : Z := 1.
Definition DynamicFeeTxType : Z := 2.
Definition SetCodeTxType : Z := 4.

(** [core.Message]. *)
Record Message := mkMessage {
  m_From : Address;
  m_To : option Address;
  m_Nonce : Z;
  m_Value : Z;
  m_GasLimit : Z;
  m_GasPrice : Z;
  m_GasFeeCap : Z;
  m_GasTipCap : Z;
  m_Data : string;
  m_AccessList : list (Address * list Hash);
  m_SetCodeAuthorizations : list SetCodeAuthorization;
  m_BlobHashes : list Hash;
  m_BlobGasFeeCap : option Z;
}.

(** go-ethereum; [None] is an error.  The error that [EffectiveGasTip] may return
    beside its value is ignored by every caller. *)
Class EthLib (Signer : Type) := {
  BytesToAddress : string → Address;
  AddressBytes : Address → string;
  Sender : Signer → Transaction → option Address;
  tx_Cost : Transaction → Z;
  EffectiveGasTip : Transaction → option Z → Z;
  IntrinsicGas : string → list (Address * list Hash) → list SetCodeAuthorization →
    bool → bool → bool → bool → option Z;
  FloorDataGas : string → option Z;
  (** The signer of an authorization. *)
  Authority : SetCodeAuthorization → option Address;
  AddressToDelegation : Address → string;
  (** [ethtypes.ParseDelegation] with the delegation's target. *)
  delegation_target : string → option Address;
  CreateAddress : Address → Z → Address;
}.

#[export] Instance eth_DelegationLib `{EthLib Signer} : DelegationLib :=
  { ParseDelegation code := bool_decide (is_Some (delegation_target code)) }.

(** Documented behaviour: the cost of a transaction without blobs, the tip a
    transaction leaves above the base fee, and the byte form of addresses. *)
Class EthLaws (Signer : Type) `{EthLib Signer} : Prop := {
  el_bytes a : BytesToAddress (AddressBytes a) = a;
  el_cost tx : tx_Cost tx = tx_Gas tx * tx_GasPrice tx + tx_Value tx;
  el_tip tx : EffectiveGasTip tx None = tx_GasTipCap tx;
  el_tip_base tx b :
    EffectiveGasTip tx (Some b) = Z.min (tx_GasTipCap tx) (tx_GasFeeCap tx - b);
  el_delegation a : delegation_target (AddressToDelegation a) = Some a ∧ AddressToDelegation a ≠ ""%string;
}.

(** ** Errors *)

Definition ErrInvalidRequest (what : string) : SdkError := ErrPlain ("invalid request: " ++ what).
Definition ErrInsufficientFee : SdkError := ErrPlain "insufficient fee".
Definition ErrNegativeValue : SdkError := ErrPlain "negative value".
Definition ErrFeeCapVeryHigh : SdkError := ErrPlain "max fee per gas higher than 2^256-1".
Definition ErrTipVeryHigh : SdkError := ErrPlain "max priority fee per gas higher than 2^256-1".
Definition ErrTxGasPriceTooLow : SdkError := ErrPlain "transaction gas price below minimum".
Definition ErrTipAboveFeeCap : SdkError := ErrPlain "max priority fee per gas higher than max fee per gas".
Definition ErrGasUintOverflow : SdkError := ErrPlain "gas uint64 overflow".
Definition ErrIntrinsicGas : SdkError := ErrPlain "intrinsic gas too low".
Definition ErrFloorDataGas : SdkError := ErrPlain "insufficient gas for floor data gas cost".
Definition ErrGasOverflow : SdkError := ErrPlain "gas computation overflow/underflow".
Definition ErrInvalidGasLimit : SdkError := ErrPlain "invalid gas limit".
Definition ErrInvalidGasPrice : SdkError := ErrPlain "invalid gas price".
Definition ErrInvalidGasFee : SdkError := ErrPlain "invalid gas fee".
Definition ErrInvalidGasCap : SdkError := ErrPlain "invalid gas cap".

(** The outcome of a check that returns only an error. *)
Abbreviation verdict := (res SdkError unit).
Definition accept : verdict := Ok tt.

(** ** The message *)

(** [None] is a nil raw transaction. *)
Record MsgEthereumTx := mkMsgEthereumTx { msg_From : string; msg_Raw : option Transaction }.

(** [big.Int.BitLen() > 256]. *)
Definition bitlen_over_256 (z : Z) : bool := 2 ^ 256 <=? Z.abs z.

Section Msg.
Context {Signer : Type} `{HE : EthLib Signer}.

Definition ValidateBasic (msg : MsgEthereumTx) : verdict :=
  match msg_Raw msg with
  | None => Err (ErrInvalidRequest "raw transaction is required")
  | Some tx =>
      if String.eqb (msg_From msg) "" then Err (ErrInvalidRequest "sender address is missing")
      else if tx_Value tx <? 0 then Err ErrNegativeValue
      else if bitlen_over_256 (tx_GasFeeCap tx) then Err ErrFeeCapVeryHigh
      else if bitlen_over_256 (tx_GasTipCap tx) then Err ErrTipVeryHigh
      else if tx_GasTipCap tx <? 0 then Err ErrTxGasPriceTooLow
      else if tx_GasFeeCap tx <? tx_GasTipCap tx then Err ErrTipAboveFeeCap
      else
        match IntrinsicGas (tx_Data tx) (tx_AccessList tx) (tx_SetCodeAuthorizations tx)
                (bool_decide (tx_To tx = None)) true true true with
        | None => Err ErrGasUintOverflow
        | Some intrGas =>
            if tx_Gas tx <? intrGas then Err ErrIntrinsicGas
            else if (tx_Type tx =? SetCodeTxType)
                    && (Z.of_nat (length (tx_SetCodeAuthorizations tx)) =? 0)
            then Err (ErrPlain "set code tx must have at least one authorization tuple")
            else accept
        end
  end.

(** [EthereumTx.Validate]. *)
Definition EthereumTx_Validate (raw : option Transaction) : verdict :=
  match raw with
  | None => Err (ErrInvalidRequest "raw tx is missing")
  | Some tx =>
      if tx_Gas tx =? 0 then Err ErrInvalidGasLimit
      else if bitlen_over_256 (tx_GasPrice tx) then Err ErrInvalidGasPrice
      else if bitlen_over_256 (tx_GasFeeCap tx) then Err ErrInvalidGasPrice
      else if bitlen_over_256 (tx_GasTipCap tx) then Err ErrInvalidGasPrice
      else if bitlen_over_256 (tx_Cost tx) then Err ErrInvalidGasFee
      else if tx_GasFeeCap tx <? tx_GasTipCap tx then Err ErrInvalidGasCap
      else accept
  end.

Definition GetSender (msg : MsgEthereumTx) : Address := BytesToAddress (msg_From msg).
Definition GetFee (tx : Transaction) : Z := tx_Gas tx * tx_GasPrice tx.
Definition GetEffectiveFee (tx : Transaction) (baseFee : Z) : Z :=
  tx_Gas tx * (EffectiveGasTip tx (Some baseFee) + baseFee).

(** The message of a transaction sent by [from]; with a base fee the gas price
    becomes the effective one. *)
Definition message_of (tx : Transaction) (from : Address) (baseFee : option Z) : Message :=
  let gasPrice :=
    match baseFee with
    | None => tx_GasPrice tx
    | Some b =>
        let p := tx_GasTipCap tx + b in
        if tx_GasFeeCap tx <? p then tx_GasFeeCap tx else p
    end in
  mkMessage from (tx_To tx) (tx_Nonce tx) (tx_Value tx) (tx_Gas tx) gasPrice (tx_GasFeeCap tx)
    (tx_GasTipCap tx) (tx_Data tx) (tx_AccessList tx) (tx_SetCodeAuthorizations tx)
    (tx_BlobHashes tx) (tx_BlobGasFeeCap tx).
Definition AsMessage (msg : MsgEthereumTx) (tx : Transaction) (baseFee : option Z) : Message :=
  message_of tx (GetSender msg) baseFee.

Definition VerifySender (signer : Signer) (msg : MsgEthereumTx) (tx : Transaction) : verdict :=
  match Sender signer tx with
  | None => Err (ErrPlain "invalid signature")
  | Some from =>
      if negb (String.eqb (msg_From msg) (AddressBytes from))
      then Err (ErrPlain "sender verification failed") else accept
  end.

(** [sdk.DefaultPowerReduction]. *)
Definition DefaultPriorityReduction : Z := 1000000.
Definition IsInt64 (z : Z) : bool := (- 2 ^ 63 <=? z) && (z <? 2 ^ 63).
Definition GetTxPriority (tx : Transaction) (baseFee : option Z) : Z :=
  let priorityBig := Z.quot (EffectiveGasTip tx baseFee) DefaultPriorityReduction in
  if IsInt64 priorityBig then priorityBig else MaxInt64.

Definition EffectiveGasPrice (baseFee feeCap tipCap : Z) : Z :=
  let calcVal := tipCap + baseFee in
  if calcVal <? feeCap then calcVal else feeCap.
End Msg.

(** ** Responses *)

Record MsgEthereumTxResponse := mkResponse {
  r_GasUsed : Z;
  r_MaxUsedGas : Z;
  r_VmError : string;
  r_Ret : string;
  r_Logs : list Log;
  r_Hash : Hash;
  r_BlockHash : Hash;
  r_BlockTimestamp : Z;
}.
Definition ErrExecutionReverted : string := "execution reverted".
Definition Failed (m : MsgEthereumTxResponse) : bool := 0 <? Z.of_nat (String.length (r_VmError m)).
Definition Return (m : MsgEthereumTxResponse) : option string :=
  if Failed m then None else Some (r_Ret m).
Definition Revert (m : MsgEthereumTxResponse) : option string :=
  if negb (String.eqb (r_VmError m) ErrExecutionReverted) then None else Some (r_Ret m).

(** ** The base fee of a block *)

Section BaseFee.
Context {D S : Type} `{HD : DecLib D}.

(** [LegacyDec.IsZero]. *)
Definition dec_IsZero (d : D) : bool := negb (dec_LT d ZeroDec || dec_LT ZeroDec d).

(** [types.GetBaseFee], for a coin with the given decimals; a nil base fee
    parameter is dereferenced by [IsZero]. *)
Definition GetBaseFee (isLondon : bool) (decimals : Decimals) (params : Params D) :
    M S SdkError (option Z) :=
  if negb isLondon then mret None
  else if p_NoBaseFee params then mret (Some 0)
  else
    baseFee ← non_nil (p_BaseFee params);
    if dec_IsZero baseFee then mret (Some 0)
    else
      converted ← ConvertAmountTo18DecimalsLegacy decimals baseFee;
      mret (Some (dec_TruncateInt converted)).
End BaseFee.

(** ** The gas meter of an EVM transaction *)

Module GasMeter.
Record infiniteGasMeterWithLimit := mkMeter { consumed : Z; limit : Z }.
Abbreviation GM := (M infiniteGasMeterWithLimit SdkError).

Definition NewInfiniteGasMeterWithLimit (limit : Z) : infiniteGasMeterWithLimit := mkMeter 0 limit.
Definition addUint64Overflow (a b : Z) : Z * bool :=
  if MaxUint64 - a <? b then (0, true) else (a + b, false).
(** The counter is overwritten before the overflow is reported. *)
Definition ConsumeGas (amount : Z) : GM unit := λ g,
  let '(c, overflow) := addUint64Overflow (consumed g) amount in
  (mkMeter c (limit g), if overflow then Panic "ErrorGasOverflow" else Ok tt).
Definition RefundGas (amount : Z) : GM unit := λ g,
  if consumed g <? amount then (g, Panic "ErrorNegativeGasConsumed")
  else (mkMeter (consumed g - amount) (limit g), Ok tt).
Definition GasRemaining (g : infiniteGasMeterWithLimit) : Z :=
  if limit g <? consumed g then 0 else limit g - consumed g.

(** [ResetGasMeterAndConsumeGas] of [x/vm/keeper/gas.go]. *)
Definition ResetGasMeterAndConsumeGas (gasUsed : Z) : GM unit :=
  c ← gets consumed;
  RefundGas c ;;
  ConsumeGas gasUsed.

(** Resetting never panics: the counter restarts at zero. *)
Lemma ResetGasMeterAndConsumeGas_run gasUsed g :
  0 ≤ gasUsed ≤ MaxUint64 →
  ResetGasMeterAndConsumeGas gasUsed g = (mkMeter gasUsed (limit g), Ok tt).
Proof.
  intros Hg. unfold ResetGasMeterAndConsumeGas, RefundGas, ConsumeGas, addUint64Overflow, gets.
  unfold mbind, M_bind. rewrite Z.ltb_irrefl. cbn [consumed limit]. rewrite Z.sub_diag.
  destruct (Z.ltb_spec (MaxUint64 - 0) gasUsed); [lia|]. by rewrite Z.add_0_l.
Qed.
End GasMeter.

(** ** The block gas limit *)

(** [maxGas] is the consensus parameter; [None] when there are no block
    parameters. *)
Definition BlockGasLimit (maxGas : option Z) : Z :=
  match maxGas with
  | None => 0
  | Some maxGas => if maxGas =? -1 then MaxUint64 else if 0 <? maxGas then maxGas else 0
  end.

(** ** Lemmas on fees *)

Section FeeLemmas.
Context {Signer : Type} `{HE : EthLib Signer, HL : !EthLaws Signer}.

(** The three ways the code computes an effective price agree. *)
Lemma effective_price_agree tx from b :
  m_GasPrice (message_of tx from (Some b)) = EffectiveGasTip tx (Some b) + b.
Proof.
  simpl. rewrite el_tip_base. destruct (Z.ltb_spec (tx_GasFeeCap tx) (tx_GasTipCap tx + b)); lia.
Qed.
Lemma EffectiveGasPrice_agree tx from b :
  EffectiveGasPrice b (tx_GasFeeCap tx) (tx_GasTipCap tx) = m_GasPrice (message_of tx from (Some b)).
Proof.
  unfold EffectiveGasPrice. simpl.
  destruct (Z.ltb_spec (tx_GasTipCap tx + b) (tx_GasFeeCap tx)),
    (Z.ltb_spec (tx_GasFeeCap tx) (tx_GasTipCap tx + b)); lia.
Qed.
Lemma GetEffectiveFee_agree tx from b :
  GetEffectiveFee tx b = tx_Gas tx * m_GasPrice (message_of tx from (Some b)).
Proof. unfold GetEffectiveFee. by rewrite effective_price_agree. Qed.
End FeeLemmas.
