(* ===== verification/EvmParams.v ===== *)
(** The parameters of the EVM module: their validation ([x/vm/types/params.go]),
    storage and governance updates ([x/vm/keeper/params.go], [msg_server.go]), the
    access control of contract creations and calls ([x/vm/types/permissions.go]),
    the static precompiles ([x/vm/keeper/static_precompiles.go],
    [precompiles.go]) and the EVM coin derived from them
    ([x/vm/keeper/coin_info.go]).

    The hexadecimal form of addresses, the list of activatable EIPs and the
    validator of channel identifiers are go-ethereum's and ibc-go's and are
    parameters. *)
From S2P Require Import Prelude GoStd AccessList Sdk EvmCoin StateDB SnapshotStore.

(** ** Data *)

(** [AccessType]; the generated enum admits any int32. *)
Abbreviation AccessType := Z.
Definition AccessTypePermissionless : AccessType := 0.
Definition AccessTypeRestricted : AccessType := 1.
Definition AccessTypePermissioned : AccessType := 2.

Record AccessControlType := mkAccessControlType {
  act_AccessType : AccessType;
  act_AccessControlList : list string;
}.
Record AccessControl := mkAccessControl { ac_Create : AccessControlType; ac_Call : AccessControlType }.

Record evmParams := mkEvmParams {
  ep_EvmDenom : string;
  ep_ExtraEIPs : list Z;
  ep_EVMChannels : list string;
  ep_AccessControl : AccessControl;
  ep_ActiveStaticPrecompiles : list string;
  ep_HistoryServeWindow : Z;
  (** [ExtendedDenomOptions.ExtendedDenom]; [None] is a nil pointer. *)
  ep_ExtendedDenom : option string;
}.

Definition DefaultEVMExtendedDenom : string := "drop".
Definition DefaultHistoryServeWindow : Z := 8192.
Definition DefaultAccessControl : AccessControl :=
  mkAccessControl (mkAccessControlType AccessTypePermissionless [])
                  (mkAccessControlType AccessTypePermissionless []).
Definition NewParams (extraEIPs : list Z) (activeStaticPrecompiles evmChannels : list string)
    (accessControl : AccessControl) : evmParams :=
  mkEvmParams "" extraEIPs evmChannels accessControl activeStaticPrecompiles 0 None.
Definition DefaultEvmParams : evmParams :=
  mkEvmParams DefaultEVMExtendedDenom [] [] DefaultAccessControl [] DefaultHistoryServeWindow
    (Some DefaultEVMExtendedDenom).

(** go-ethereum and ibc-go. *)
Class ParamsLib := {
  IsHexAddress : string → bool;
  (** [common.Address.String], the checksummed form. *)
  hex : Address → string;
  HexToAddress : string → Address;
  ValidEip : Z → bool;
  ChannelIdentifierValidator : string → bool;
  (** [vm.PrecompiledAddressesPrague]. *)
  PrecompiledAddressesPrague : list Address;
}.

(** ** Validation *)

(** Checks in sequence: [if err := first; err != nil { return err }; second]. *)
Definition and_then (r1 r2 : res SdkError unit) : res SdkError unit :=
  match r1 with Ok _ => r2 | Err e => Err e | Panic p => Panic p end.

Section Validate.
Context `{HP : ParamsLib}.

Fixpoint check_EIPs (uniqueEIPs : gset Z) (eips : list Z) : res SdkError unit :=
  match eips with
  | [] => Ok tt
  | eip :: eips' =>
      if negb (ValidEip eip) then Err (ErrPlain "EIP is not activateable")
      else if bool_decide (eip ∈ uniqueEIPs) then Err (ErrPlain "found duplicate EIP")
      else check_EIPs ({[eip]} ∪ uniqueEIPs) eips'
  end.
Definition validateEIPs (eips : list Z) : res SdkError unit := check_EIPs ∅ eips.

(** [slices.IsSorted]. *)
Fixpoint IsSorted (xs : list string) : bool :=
  match xs with
  | x :: ((y :: _) as xs') => String.leb x y && IsSorted xs'
  | _ => true
  end.

Fixpoint check_precompiles (seen : gset string) (ps : list string) : res SdkError unit :=
  match ps with
  | [] => Ok tt
  | p :: ps' =>
      if bool_decide (p ∈ seen) then Err (ErrPlain "duplicate precompile")
      else if negb (IsHexAddress p) then Err (ErrPlain "invalid precompile")
      else check_precompiles ({[p]} ∪ seen) ps'
  end.
Definition ValidatePrecompiles (precompiles : list string) : res SdkError unit :=
  and_then (check_precompiles ∅ precompiles)
    (if IsSorted precompiles then Ok tt else Err (ErrPlain "precompiles need to be sorted")).

Definition validateAccessType (t : AccessType) : res SdkError unit :=
  if (t =? AccessTypePermissionless) || (t =? AccessTypeRestricted) || (t =? AccessTypePermissioned)
  then Ok tt else Err (ErrPlain "invalid access type").
Fixpoint validateAllowlistAddresses (addresses : list string) : res SdkError unit :=
  match addresses with
  | [] => Ok tt
  | a :: addresses' =>
      if negb (IsHexAddress a) then Err (ErrPlain "invalid whitelist address")
      else validateAllowlistAddresses addresses'
  end.
Definition AccessControlType_Validate (act : AccessControlType) : res SdkError unit :=
  and_then (validateAccessType (act_AccessType act))
    (validateAllowlistAddresses (act_AccessControlList act)).
Definition AccessControl_Validate (ac : AccessControl) : res SdkError unit :=
  and_then (AccessControlType_Validate (ac_Create ac)) (AccessControlType_Validate (ac_Call ac)).
Fixpoint validateChannels (channels : list string) : res SdkError unit :=
  match channels with
  | [] => Ok tt
  | c :: channels' =>
      if negb (ChannelIdentifierValidator c) then Err (ErrPlain "invalid channel identifier")
      else validateChannels channels'
  end.
Definition EvmParams_Validate (p : evmParams) : res SdkError unit :=
  and_then (validateEIPs (ep_ExtraEIPs p))
    (and_then (ValidatePrecompiles (ep_ActiveStaticPrecompiles p))
      (and_then (AccessControl_Validate (ep_AccessControl p)) (validateChannels (ep_EVMChannels p)))).

Definition GetActiveStaticPrecompilesAddrs (p : evmParams) : list Address :=
  HexToAddress <$> ep_ActiveStaticPrecompiles p.
Definition IsEVMChannel (p : evmParams) (channel : string) : bool :=
  bool_decide (channel ∈ ep_EVMChannels p).

(** ** Access control *)

Abbreviation callerFn := (Address → bool).
Definition permissionlessCheckFn (addresses : list string) (signer : Address) : callerFn :=
  let isSignerBlocked := negb (bool_decide (hex signer ∈ addresses)) in
  λ caller, isSignerBlocked && negb (bool_decide (hex caller ∈ addresses)).
Definition permissionedCheckFn (addresses : list string) (signer : Address) : callerFn :=
  let isSignerAllowed := bool_decide (hex signer ∈ addresses) in
  λ caller, isSignerAllowed || bool_decide (hex caller ∈ addresses).
Definition check_fn (act : AccessControlType) (signer : Address) : callerFn :=
  let t := act_AccessType act in
  if t =? AccessTypePermissionless then permissionlessCheckFn (act_AccessControlList act) signer
  else if t =? AccessTypeRestricted then λ _, false
  else if t =? AccessTypePermissioned then permissionedCheckFn (act_AccessControlList act) signer
  else λ _, false.
Definition getCanCreateFn (ac : AccessControl) : Address → callerFn := check_fn (ac_Create ac).
Definition getCanCallFn (ac : AccessControl) : Address → callerFn := check_fn (ac_Call ac).

Record RestrictedPermissionPolicy := mkPolicy { canCreate : callerFn; canCall : callerFn }.
Definition NewRestrictedPermissionPolicy (ac : AccessControl) (signer : Address) :
    RestrictedPermissionPolicy :=
  mkPolicy (getCanCreateFn ac signer) (getCanCallFn ac signer).
(** The hooks run before the opcodes; an error stops the execution. *)
Definition GetCallHook (p : RestrictedPermissionPolicy) (caller recipient : Address) :
    res SdkError unit :=
  if canCall p caller then Ok tt else Err (ErrPlain "caller does not have permission to perform a call").
Definition GetCreateHook (p : RestrictedPermissionPolicy) (caller : Address) : res SdkError unit :=
  if canCreate p caller then Ok tt
  else Err (ErrPlain "caller does not have permission to deploy contracts").

(** ** The parameter store *)

(** The generated codec: what is read back after marshalling. *)
Context (codec : evmParams → option evmParams).

(** The module's entries: parameters and coin information; [None] is absent. *)
Record paramStore := mkParamStore {
  ps_params : option evmParams;
  ps_coinInfo : option EvmCoinInfo;
}.
Abbreviation PM := (M paramStore SdkError).

(** The zero value of [Params]. *)
Definition zero_params : evmParams :=
  mkEvmParams "" [] [] (mkAccessControl (mkAccessControlType 0 []) (mkAccessControlType 0 [])) [] 0 None.
Definition GetParams : PM evmParams := gets (λ s, default zero_params (ps_params s)).

Definition with_precompiles (p : evmParams) (l : list string) : evmParams :=
  mkEvmParams (ep_EvmDenom p) (ep_ExtraEIPs p) (ep_EVMChannels p) (ep_AccessControl p) l
    (ep_HistoryServeWindow p) (ep_ExtendedDenom p).
Definition with_EIPs (p : evmParams) (l : list Z) : evmParams :=
  mkEvmParams (ep_EvmDenom p) l (ep_EVMChannels p) (ep_AccessControl p)
    (ep_ActiveStaticPrecompiles p) (ep_HistoryServeWindow p) (ep_ExtendedDenom p).

Definition return_res {S A} (r : res SdkError A) : M S SdkError A := λ s, (s, r).
Definition SetParams (p : evmParams) : PM unit :=
  let p := with_precompiles p (merge_sort string_le (ep_ActiveStaticPrecompiles p)) in
  return_res (EvmParams_Validate p) ;;
  match codec p with
  | None => throw (ErrPlain "marshal")
  | Some p' => modify (λ s, mkParamStore (Some p') (ps_coinInfo s))
  end.

(** [slices.Contains] against the existing list only. *)
Fixpoint appendPrecompiles_loop (existing : list string) (addresses : list Address) (acc : list string) :
    res SdkError (list string) :=
  match addresses with
  | [] => Ok acc
  | a :: addresses' =>
      if bool_decide (hex a ∈ existing) then Err (ErrPlain "precompile already registered")
      else appendPrecompiles_loop existing addresses' (acc ++ [hex a])
  end.
Definition appendPrecompiles (existing : list string) (addresses : list Address) :
    res SdkError (list string) :=
  match appendPrecompiles_loop existing addresses [] with
  | Ok hexAddresses => Ok (merge_sort string_le (existing ++ hexAddresses))
  | e => e
  end.
Definition EnableStaticPrecompiles (addresses : list Address) : PM unit :=
  params ← GetParams;
  updated ← return_res (appendPrecompiles (ep_ActiveStaticPrecompiles params) addresses);
  SetParams (with_precompiles params updated).
Definition EnableEIPs (eips : list Z) : PM unit :=
  params ← GetParams;
  SetParams (with_EIPs params (merge_sort Z.le (ep_ExtraEIPs params ++ eips))).
Definition UpdateParams (authority requested : string) (p : evmParams) : PM unit :=
  if negb (String.eqb authority requested) then throw ErrInvalidSigner else SetParams p.

(** ** Static precompiles *)

(** [registered] are the keys of [k.precompiles], the contracts in memory. *)
Definition IsAvailableStaticPrecompile (p : evmParams) (address : Address) : bool :=
  bool_decide (hex address ∈ ep_ActiveStaticPrecompiles p)
  || bool_decide (address ∈ PrecompiledAddressesPrague).
Definition GetStaticPrecompileInstance (registered : gset Address) (p : evmParams) (address : Address) :
    res SdkError (option Address) :=
  if IsAvailableStaticPrecompile p address then
    if bool_decide (address ∈ registered) then Ok (Some address)
    else Panic "precompiled contract not stored in memory"
  else Ok None.
(** [dynamic] is the lookup of the optional ERC-20 keeper. *)
Definition GetPrecompileInstance (registered : gset Address)
    (dynamic : option (Address → res SdkError (option Address))) (p : evmParams) (address : Address) :
    res SdkError (option Address) :=
  match GetStaticPrecompileInstance registered p address with
  | Ok None => match dynamic with None => Ok None | Some find => find address end
  | r => r
  end.

(** ** The EVM coin *)

Record DenomMetadata := mkMetadata { md_Display : string; md_DenomUnits : list (string * Z) }.

(** [metadata] is the bank's [GetDenomMetaData]; the last unit that is the display
    denomination gives the decimals. *)
Definition LoadEvmCoinInfo (metadata : string → option DenomMetadata) : PM EvmCoinInfo :=
  params ← GetParams;
  match metadata (ep_EvmDenom params) with
  | None => throw (ErrPlain "denom metadata could not be found")
  | Some md =>
      let decimals := foldl (λ d du, if String.eqb du.1 (md_Display md) then du.2 else d) 0
                        (md_DenomUnits md) in
      if decimals =? 18
      then mret (mkEvmCoinInfo (ep_EvmDenom params) (ep_EvmDenom params) (md_Display md) decimals)
      else
        match ep_ExtendedDenom params with
        | None => throw (ErrPlain "extended denom options cannot be nil for non-18-decimal chains")
        | Some ext => mret (mkEvmCoinInfo (ep_EvmDenom params) ext (md_Display md) decimals)
        end
  end.
Definition SetEvmCoinInfo (info : EvmCoinInfo) : PM unit :=
  modify (λ s, mkParamStore (ps_params s) (Some info)).
Definition InitEvmCoinInfo (metadata : string → option DenomMetadata) : PM unit :=
  info ← LoadEvmCoinInfo metadata; SetEvmCoinInfo info.
Definition GetEvmCoinInfo (defaultInfo : EvmCoinInfo) : PM EvmCoinInfo :=
  gets (λ s, default defaultInfo (ps_coinInfo s)).
End Validate.
