(* ===== verification/EvmParamsProps.v ===== *)
(** Properties of the EVM module's parameters: validation accepts exactly the
    well-formed parameters, every update keeps the stored parameters well-formed,
    and enabling static precompiles activates exactly the requested ones. *)
From stdpp Require Import pretty.
From S2P Require Import Prelude GoStd AccessList Sdk EvmCoin StateDB SnapshotStore EvmParams.

#[global] Instance string_le_total : Total string_le.
Proof. intros x y. apply String.leb_total. Qed.

Section Params.
Context `{HP : ParamsLib}.
Implicit Types p : evmParams.

(** ** Well-formed parameters *)

Definition valid_access (t : AccessType) : Prop :=
  t ∈ [AccessTypePermissionless; AccessTypeRestricted; AccessTypePermissioned].
Definition access_ok (act : AccessControlType) : Prop :=
  valid_access (act_AccessType act) ∧ Forall (λ a, IsHexAddress a = true) (act_AccessControlList act).
Record params_ok p : Prop := {
  po_eips : Forall (λ e, ValidEip e = true) (ep_ExtraEIPs p) ∧ NoDup (ep_ExtraEIPs p);
  po_precompiles : Forall (λ a, IsHexAddress a = true) (ep_ActiveStaticPrecompiles p) ∧
    NoDup (ep_ActiveStaticPrecompiles p) ∧ Sorted string_le (ep_ActiveStaticPrecompiles p);
  po_create : access_ok (ac_Create (ep_AccessControl p));
  po_call : access_ok (ac_Call (ep_AccessControl p));
  po_channels : Forall (λ c, ChannelIdentifierValidator c = true) (ep_EVMChannels p);
}.

(** The loops that look an element up in the set of those seen. *)
Lemma check_EIPs_ok seen eips :
  check_EIPs seen eips = Ok tt ↔
  Forall (λ e, ValidEip e = true) eips ∧ NoDup eips ∧ ∀ e, e ∈ eips → e ∉ seen.
Proof.
  revert seen. induction eips as [|e eips IH]; intros seen; cbn [check_EIPs].
  { split; [|done]. intros _. split_and!; [constructor..|]. intros ? []%elem_of_nil. }
  rewrite Forall_cons, NoDup_cons. destruct (ValidEip e); cbn [negb].
  2: { split; [done|]. by intros ([[=] _] & _). }
  case_bool_decide as Hin.
  { split; [done|]. intros (_ & _ & Hs). destruct (Hs e); [set_solver|done]. }
  rewrite IH. set_solver.
Qed.
Lemma check_precompiles_ok seen ps :
  check_precompiles seen ps = Ok tt ↔
  Forall (λ a, IsHexAddress a = true) ps ∧ NoDup ps ∧ ∀ e, e ∈ ps → e ∉ seen.
Proof.
  revert seen. induction ps as [|e ps IH]; intros seen; cbn [check_precompiles].
  { split; [|done]. intros _. split_and!; [constructor..|]. intros ? []%elem_of_nil. }
  rewrite Forall_cons, NoDup_cons. case_bool_decide as Hin.
  { split; [done|]. intros (_ & _ & Hs). destruct (Hs e); [set_solver|done]. }
  destruct (IsHexAddress e); cbn [negb].
  2: { split; [done|]. by intros ([[=] _] & _). }
  rewrite IH. set_solver.
Qed.

Lemma IsSorted_spec xs : IsSorted xs = true ↔ Sorted string_le xs.
Proof.
  induction xs as [|x [|y xs] IH]; [by split; auto..|].
  change (IsSorted (x :: y :: xs)) with (String.leb x y && IsSorted (y :: xs)).
  rewrite andb_true_iff, IH. split.
  - intros [Hl Hs]. constructor; [done|]. by constructor.
  - intros Hs. apply Sorted_inv in Hs as [Hs Hh]. split; [|done]. by inversion Hh.
Qed.

(** Checks in sequence succeed when both do. *)
Lemma and_then_ok (r1 r2 : res SdkError unit) : and_then r1 r2 = Ok tt ↔ r1 = Ok tt ∧ r2 = Ok tt.
Proof. destruct r1 as [[]|e|q]; naive_solver. Qed.

Lemma ValidatePrecompiles_ok ps :
  ValidatePrecompiles ps = Ok tt ↔
  Forall (λ a, IsHexAddress a = true) ps ∧ NoDup ps ∧ Sorted string_le ps.
Proof.
  unfold ValidatePrecompiles. rewrite and_then_ok, check_precompiles_ok, <- IsSorted_spec.
  destruct (IsSorted ps); [|naive_solver].
  set_solver.
Qed.

Lemma validateAccessType_ok t : validateAccessType t = Ok tt ↔ valid_access t.
Proof.
  unfold validateAccessType, valid_access. rewrite !elem_of_cons.
  destruct (Z.eqb_spec t AccessTypePermissionless), (Z.eqb_spec t AccessTypeRestricted),
    (Z.eqb_spec t AccessTypePermissioned); cbn [orb]; split; try done; try tauto.
  intros [?|[?|[?|H%elem_of_nil]]]; done.
Qed.
Lemma validateAllowlistAddresses_ok l :
  validateAllowlistAddresses l = Ok tt ↔ Forall (λ a, IsHexAddress a = true) l.
Proof.
  induction l as [|a l IH]; cbn [validateAllowlistAddresses]; [by split|].
  rewrite Forall_cons. destruct (IsHexAddress a); cbn [negb]; [by rewrite IH; naive_solver|].
  split; [done|]. by intros [[=] _].
Qed.
Lemma validateChannels_ok l :
  validateChannels l = Ok tt ↔ Forall (λ c, ChannelIdentifierValidator c = true) l.
Proof.
  induction l as [|a l IH]; cbn [validateChannels]; [by split|].
  rewrite Forall_cons. destruct (ChannelIdentifierValidator a); cbn [negb]; [by rewrite IH; naive_solver|].
  split; [done|]. by intros [[=] _].
Qed.
Lemma AccessControlType_Validate_ok act : AccessControlType_Validate act = Ok tt ↔ access_ok act.
Proof.
  unfold AccessControlType_Validate, access_ok.
  by rewrite and_then_ok, validateAccessType_ok, validateAllowlistAddresses_ok.
Qed.

Lemma EvmParams_Validate_ok p : EvmParams_Validate p = Ok tt ↔ params_ok p.
Proof.
  unfold EvmParams_Validate, AccessControl_Validate, validateEIPs.
  rewrite !and_then_ok, check_EIPs_ok, ValidatePrecompiles_ok, !AccessControlType_Validate_ok,
    validateChannels_ok.
  split.
  - intros ((He & Hd & _) & Hp & (Hcr & Hca) & Hch). by constructor.
  - intros [[He Hd] Hp Hcr Hca Hch]. split_and!; try done; set_solver.
Qed.

(** ** Updates *)

(** The codec reads back what it marshals. *)
Context (codec : evmParams → option evmParams) (Hcodec : ∀ p, codec p = Some p).

Inductive param_op :=
| OpSetParams (p : evmParams)
| OpEnableStaticPrecompiles (addresses : list Address)
| OpEnableEIPs (eips : list Z)
| OpUpdateParams (authority requested : string) (p : evmParams)
| OpInitEvmCoinInfo (metadata : string → option DenomMetadata).
Definition run_param_op (op : param_op) : M paramStore SdkError unit :=
  match op with
  | OpSetParams p => SetParams codec p
  | OpEnableStaticPrecompiles l => EnableStaticPrecompiles codec l
  | OpEnableEIPs l => EnableEIPs codec l
  | OpUpdateParams a r p => UpdateParams codec a r p
  | OpInitEvmCoinInfo md => InitEvmCoinInfo md
  end.
Definition store_ok (s : paramStore) : Prop := ∀ p, ps_params s = Some p → params_ok p.

Definition normalised p : evmParams :=
  with_precompiles p (merge_sort string_le (ep_ActiveStaticPrecompiles p)).

Lemma SetParams_run p s :
  SetParams codec p s =
    match EvmParams_Validate (normalised p) with
    | Ok _ => (mkParamStore (Some (normalised p)) (ps_coinInfo s), Ok tt)
    | Err e => (s, Err e)
    | Panic q => (s, Panic q)
    end.
Proof.
  unfold SetParams, return_res, mbind, M_bind. fold (normalised p).
  destruct (EvmParams_Validate (normalised p)); [|done..]. by rewrite Hcodec.
Qed.
Lemma SetParams_ok p s s' : SetParams codec p s = (s', Ok tt) →
  s' = mkParamStore (Some (normalised p)) (ps_coinInfo s) ∧ params_ok (normalised p).
Proof.
  rewrite SetParams_run. destruct (EvmParams_Validate (normalised p)) as [[]|e|q] eqn:Hv; [|done..].
  intros [= <-]. split; [done|]. by apply EvmParams_Validate_ok.
Qed.
Lemma SetParams_store_ok p s s' r : store_ok s → SetParams codec p s = (s', r) → store_ok s'.
Proof.
  intros Hs Hrun. destruct r as [[]|e|q].
  - apply SetParams_ok in Hrun as [-> Hok]. intros q [= <-]. done.
  - rewrite SetParams_run in Hrun. by destruct (EvmParams_Validate _); simplify_eq.
  - rewrite SetParams_run in Hrun. by destruct (EvmParams_Validate _); simplify_eq.
Qed.

Lemma run_param_op_ok op s s' r : store_ok s → run_param_op op s = (s', r) → store_ok s'.
Proof.
  intros Hs. destruct op as [p|l|l|a req p|md]; cbn [run_param_op].
  - by apply SetParams_store_ok.
  - unfold EnableStaticPrecompiles, GetParams, return_res, mbind, M_bind, gets. cbn.
    destruct (appendPrecompiles _ _) as [l'|e|q]; [by apply SetParams_store_ok|by intros [= <- _]..].
  - unfold EnableEIPs, GetParams, mbind, M_bind, gets. by apply SetParams_store_ok.
  - unfold UpdateParams. destruct (String.eqb a req); [by apply SetParams_store_ok|by intros [= <- _]].
  - unfold InitEvmCoinInfo, LoadEvmCoinInfo, SetEvmCoinInfo, GetParams. run_M.
    destruct (md _) as [m|]; [|by intros [= <- _]].
    destruct (foldl _ _ (md_DenomUnits m) =? 18)%Z; [by intros [= <- _]|].
    destruct (ep_ExtendedDenom _); by intros [= <- _].
Qed.

(** What appending precompiles gives. *)
Lemma appendPrecompiles_loop_ok existing addresses acc l :
  appendPrecompiles_loop existing addresses acc = Ok l →
  l = acc ++ (hex <$> addresses) ∧ Forall (λ a, hex a ∉ existing) addresses.
Proof.
  revert acc. induction addresses as [|a addresses IH]; intros acc; cbn [appendPrecompiles_loop].
  { intros [= <-]. by rewrite app_nil_r. }
  case_bool_decide as Hin; [done|]. intros [-> Hf]%IH. rewrite <- app_assoc. auto.
Qed.
Lemma merge_sort_elem (l : list string) x : x ∈ merge_sort string_le l ↔ x ∈ l.
Proof. by rewrite merge_sort_Permutation. Qed.
End Params.

Module ParamsProps.
Section ParamsProps.
Context `{HP : ParamsLib} (codec : evmParams → option evmParams) (Hcodec : ∀ p, codec p = Some p).

(** C10: the parameters the module stores are always well-formed.  Validation
    accepts exactly the parameters whose EIPs are activatable and distinct, whose
    active precompiles are distinct hexadecimal addresses in increasing order,
    whose access types are one of the three and whose lists and channels are
    valid; and every update (by genesis, by governance or by an upgrade), whether
    it succeeds or fails, keeps the stored parameters so. *)
Theorem params_always_wellformed :
  (∀ p, EvmParams_Validate p = Ok tt ↔ params_ok p) ∧
  ∀ ops s, store_ok s → store_ok (foldl (λ s op, (run_param_op codec op s).1) s ops).
Proof.
  split; [apply EvmParams_Validate_ok|].
  induction ops as [|op ops IH]; intros s Hs; [done|]. cbn [foldl]. apply IH.
  destruct (run_param_op codec op s) as [s' r] eqn:Hrun. by eapply run_param_op_ok.
Qed.

(** Enabling static precompiles activates exactly the requested ones: after a
    successful call an address is an available precompile when it was before or is
    one of the requested, no other parameter has changed, and asking again for an
    address that is active is refused without a change. *)
Theorem EnableStaticPrecompiles_activates addresses s s' :
  (∀ a b, hex a = hex b → a = b) →
  EnableStaticPrecompiles codec addresses s = (s', Ok tt) →
  let p := default zero_params (ps_params s) in
  let p' := default zero_params (ps_params s') in
  (∀ a, IsAvailableStaticPrecompile p' a = IsAvailableStaticPrecompile p a || bool_decide (a ∈ addresses)) ∧
  with_precompiles p' [] = with_precompiles p [] ∧
  ∀ a, a ∈ addresses → EnableStaticPrecompiles codec [a] s' = (s', Err (ErrPlain "precompile already registered")).
Proof.
  intros Hinj Hrun. cbn zeta. set (p := default zero_params (ps_params s)).
  unfold EnableStaticPrecompiles, GetParams, return_res, mbind, M_bind, gets in Hrun. cbn in Hrun.
  fold p in Hrun. unfold appendPrecompiles in Hrun.
  destruct (appendPrecompiles_loop _ _ _) as [l|e|q] eqn:Hl; [|done..].
  apply appendPrecompiles_loop_ok in Hl as [-> _]. apply SetParams_ok in Hrun as [-> Hok]; [|done].
  cbn [ps_params ps_coinInfo default from_option].
  assert (Hmem : ∀ a, hex a ∈ ep_ActiveStaticPrecompiles (normalised
            (with_precompiles p (merge_sort string_le (ep_ActiveStaticPrecompiles p ++ [] ++ (hex <$> addresses))))) ↔
            hex a ∈ ep_ActiveStaticPrecompiles p ∨ a ∈ addresses).
  { intros a. cbn [normalised with_precompiles ep_ActiveStaticPrecompiles].
    rewrite !merge_sort_elem, elem_of_app. cbn [app]. rewrite list_elem_of_fmap. naive_solver. }
  split_and!.
  - intros a. unfold IsAvailableStaticPrecompile.
    rewrite (bool_decide_ext _ _ (Hmem a)), bool_decide_or.
    by destruct (bool_decide (hex a ∈ _)), (bool_decide (a ∈ PrecompiledAddressesPrague)),
      (bool_decide (a ∈ addresses)).
  - done.
  - intros a Ha. unfold EnableStaticPrecompiles, GetParams, return_res, mbind, M_bind, gets.
    cbn [ps_params default from_option]. unfold appendPrecompiles, appendPrecompiles_loop.
    rewrite bool_decide_true; [done|]. apply Hmem. by right.
Qed.
End ParamsProps.

(** ** Witnesses *)

(** Addresses in decimal. *)
#[local] Instance demo_lib : ParamsLib := {
  IsHexAddress s := negb (String.eqb s "");
  hex a := pretty a;
  HexToAddress _ := 0;
  ValidEip e := (0 <=? e)%Z;
  ChannelIdentifierValidator _ := true;
  PrecompiledAddressesPrague := [1];
}.
Definition demo_store : paramStore := mkParamStore (Some (with_precompiles DefaultEvmParams ["5"]%string)) None.
Definition demo_enabled : paramStore := fst (EnableStaticPrecompiles Some [9; 7] demo_store).

Lemma params_always_wellformed_witness :
  store_ok demo_store ∧
  store_ok (foldl (λ s op, (run_param_op Some op s).1) demo_store
    [OpEnableStaticPrecompiles [9; 7]; OpEnableEIPs [-1]; OpUpdateParams "gov" "user" DefaultEvmParams]) ∧
  ep_ActiveStaticPrecompiles (default zero_params (ps_params demo_enabled)) = ["5"; "7"; "9"]%string.
Proof.
  assert (Hs : store_ok demo_store).
  { intros p [= <-]. apply (proj1 (params_always_wellformed Some (λ p, eq_refl))). by vm_compute. }
  split; [done|]. split; [|by vm_compute].
  apply (proj2 (params_always_wellformed Some (λ p, eq_refl))). done.
Defined.

Lemma EnableStaticPrecompiles_activates_witness :
  EnableStaticPrecompiles Some [9; 7] demo_store = (demo_enabled, Ok tt) ∧
  IsAvailableStaticPrecompile (default zero_params (ps_params demo_enabled)) 7 = true ∧
  EnableStaticPrecompiles Some [7] demo_enabled =
    (demo_enabled, Err (ErrPlain "precompile already registered")).
Proof.
  assert (Hrun : EnableStaticPrecompiles Some [9; 7] demo_store = (demo_enabled, Ok tt)) by by vm_compute.
  destruct (EnableStaticPrecompiles_activates Some (λ p, eq_refl) [9; 7] demo_store demo_enabled) as (H1 & _ & H3).
  { apply pretty_Z_inj. }
  { done. }
  split; [done|]. split.
  - rewrite H1. by vm_compute.
  - apply H3. apply list_elem_of_further, list_elem_of_here.
Defined.
End ParamsProps.
