(* ===== verification/StateTransition.v ===== *)
(** The state transition of one message ([x/vm/keeper/state_transition.go],
    [gas.go]): the EVM instance it runs on, the gas checks, EIP-7702
    authorizations, the execution by the interpreter, the refund and the minimum
    gas charged.

    The interpreter of go-ethereum, with its precompiles, is a parameter: a
    computation on the state database that ends with the bytes returned, the gas
    left over and an optional VM error.  Tracing hooks and spans are not
    modelled. *)
From S2P Require Import Prelude GoStd AccessList Sdk EvmCoin LegacyDec StateDB EvmKeeper FeeMarket EvmParams EvmTx.

(** ** The chain configuration and the block *)

(** go-ethereum's [params.Rules] as far as the module reads them. *)
Record VmRules := mkVmRules {
  vr_Rules : Rules;
  vr_IsHomestead : bool;
  vr_IsIstanbul : bool;
  vr_IsLondon : bool;
  vr_IsPrague : bool;
}.

(** [types.GetEthChainConfig()]: forks by block number and time. *)
Class ChainConfig := {
  cc_ChainID : Z;
  cc_IsHomestead : Z → bool;
  cc_IsIstanbul : Z → bool;
  cc_IsLondon : Z → bool;
  cc_IsShanghai : Z → Z → bool;
  cc_Rules : Z → Z → VmRules;
}.

(** What is read of [sdk.Context] and does not change during a transaction.
    Hashes are [None] when their bytes are empty; [be_ParamsMaxGas] is the answer
    of the consensus keeper, [None] when it fails. *)
Record blockEnv := mkEnv {
  be_Height : Z;
  be_Time : Z;
  be_HeaderHash : option Hash;
  be_TxIndex : Z;
  be_MsgIndex : Z;
  be_MaxGas : option Z;
  be_ParamsMaxGas : option (option Z);
}.

(** [SetConsensusParamsInCtx]: the [MaxGas] of the resulting context. *)
Definition SetConsensusParamsInCtx (env : blockEnv) : option Z :=
  match be_MaxGas env with
  | Some maxGas => Some maxGas
  | None => match be_ParamsMaxGas env with Some maxGas => maxGas | None => None end
  end.

(** [statedb.EVMConfig]. *)
Record EVMConfig (D : Type) := mkEVMConfig {
  cfg_Params : evmParams;
  cfg_FeeMarketParams : Params D;
  cfg_CoinBase : Address;
  cfg_BaseFee : option Z;
}.
Arguments mkEVMConfig {D}.
Arguments cfg_Params {D}.
Arguments cfg_FeeMarketParams {D}.
Arguments cfg_CoinBase {D}.
Arguments cfg_BaseFee {D}.

(** ** The EVM instance *)

Record BlockContext := mkBlockContext {
  bx_GetHash : Z → Hash;
  bx_Coinbase : Address;
  bx_GasLimit : Z;
  bx_BlockNumber : Z;
  bx_Time : Z;
  bx_BaseFee : option Z;
}.

(** [overridden] tells which of the two precompile hooks is installed. *)
Record EVM := mkEVM {
  evm_Context : BlockContext;
  evm_TxContext : Message;
  evm_NoBaseFee : bool;
  evm_ExtraEips : list Z;
  evm_Policy : RestrictedPermissionPolicy;
  evm_StaticPrecompiles : bool;
}.

Section NewEVM.
Context {D : Type} `{HP : ParamsLib, HCC : ChainConfig}.

(** [VMConfig]: whether the base fee is off, and the extra EIPs. *)
Definition VMConfig_NoBaseFee (env : blockEnv) (cfg : EVMConfig D) : bool :=
  if cc_IsLondon (be_Height env) then p_NoBaseFee (cfg_FeeMarketParams cfg) else true.

Definition NewEVMWithOverridePrecompiles (env : blockEnv) (getHash : Z → Hash) (msg : Message)
    (cfg : EVMConfig D) (overridePrecompiles : bool) : EVM :=
  let blockCtx := mkBlockContext getHash (cfg_CoinBase cfg)
    (BlockGasLimit (SetConsensusParamsInCtx env)) (be_Height env) (be_Time env) (cfg_BaseFee cfg) in
  mkEVM blockCtx msg (VMConfig_NoBaseFee env cfg) (ep_ExtraEIPs (cfg_Params cfg))
    (NewRestrictedPermissionPolicy (ep_AccessControl (cfg_Params cfg)) (m_From msg))
    overridePrecompiles.
End NewEVM.

(** ** The interpreter *)

Record callResult := mkCallResult {
  cr_Ret : string;
  cr_LeftOver : Z;
  cr_Err : option string;
  (** [evm.Interpreter().ReturnData()]. *)
  cr_ReturnData : string;
}.

(** VM errors are values: the interpreter returns or panics. *)
Class Interpreter (K C Ev : Type) := {
  ActivePrecompiles : EVM → list Address;
  evm_Create : EVM → Address → string → Z → Z → M (StateDB K C Ev) Empty_set callResult;
  evm_Call : EVM → Address → Address → string → Z → Z → M (StateDB K C Ev) Empty_set callResult;
}.

(** The interpreter never returns more gas than it was given. *)
Class InterpreterLaws (K C Ev : Type) `{Interpreter K C Ev} : Prop := {
  il_create evm from data gas value s s' r :
    evm_Create evm from data gas value s = (s', Ok r) → 0 ≤ cr_LeftOver r ≤ gas;
  il_call evm from to data gas value s s' r :
    evm_Call evm from to data gas value s = (s', Ok r) → 0 ≤ cr_LeftOver r ≤ gas;
}.

(** ** Gas *)

Definition GasToRefund (availableRefund gasConsumed refundQuotient : Z) : Z :=
  let refund := gasConsumed / refundQuotient in
  if availableRefund <? refund then availableRefund else refund.

(** go-ethereum's [params]. *)
Definition RefundQuotient : Z := 2.
Definition RefundQuotientEIP3529 : Z := 5.
Definition CallNewAccountGas : Z := 25000.
Definition TxAuthTupleGas : Z := 12500.
Definition refund_quotient (isLondon internal : bool) : Z :=
  if internal then 1 else if isLondon then RefundQuotientEIP3529 else RefundQuotient.

(** [int64] of a [uint64]. *)
Definition to_int64 (z : Z) : Z := if z <? 2 ^ 63 then z else z - 2 ^ 64.

Definition ErrAuthorizationWrongChainID : SdkError := ErrPlain "EIP-7702 authorization chain ID mismatch".
Definition ErrAuthorizationNonceOverflow : SdkError := ErrPlain "EIP-7702 authorization nonce > 64 bit".
Definition ErrAuthorizationInvalidSignature : SdkError := ErrPlain "EIP-7702 authorization has invalid signature".
Definition ErrAuthorizationDestinationHasCode : SdkError := ErrPlain "EIP-7702 authorization destination is a contract".
Definition ErrAuthorizationNonceMismatch : SdkError := ErrPlain "EIP-7702 authorization nonce does not match current account nonce".
Definition ErrValueConversion : SdkError := ErrPlain "big.Int does not fit uint256.Int".

Section Message.
Context {K C Ev D Signer : Type}.
Context `{HCr : Crypto, HK : !Keeper K Ev, HKC : !Keeper C Ev, HS : !Snapshotter C,
          HCC : !CacheContext K C, HD : DecLib D, HE : EthLib Signer, HP : ParamsLib,
          HCfg : ChainConfig, HI : !Interpreter K C Ev}.

Abbreviation SM := (M (StateDB K C Ev) SdkError).

(** [GetEthIntrinsicGas]. *)
Definition GetEthIntrinsicGas (env : blockEnv) (msg : Message) (isContractCreation : bool) : option Z :=
  IntrinsicGas (m_Data msg) (m_AccessList msg) (m_SetCodeAuthorizations msg) isContractCreation
    (cc_IsHomestead (be_Height env)) (cc_IsIstanbul (be_Height env))
    (cc_IsShanghai (be_Height env) (be_Time env)).

(** The intrinsic gas of a message whose limit covers it and, since Prague, the
    floor of its data. *)
Definition checked_intrinsic_gas (env : blockEnv) (msg : Message) : res SdkError Z :=
  match GetEthIntrinsicGas env msg (bool_decide (m_To msg = None)) with
  | None => Err ErrGasUintOverflow
  | Some intrinsicGas =>
      if m_GasLimit msg <? intrinsicGas then Err ErrIntrinsicGas
      else if vr_IsPrague (cc_Rules (be_Height env) (be_Time env)) then
        match FloorDataGas (m_Data msg) with
        | None => Err ErrGasUintOverflow
        | Some floorDataGas =>
            if m_GasLimit msg <? floorDataGas then Err ErrFloorDataGas else Ok intrinsicGas
        end
      else Ok intrinsicGas
  end.

(** ** EIP-7702 authorizations *)

Definition validateAuthorization (auth : SetCodeAuthorization) (chainID : Z) : SM Address :=
  if negb (auth_ChainID auth =? 0) && negb (auth_ChainID auth =? chainID)
  then throw ErrAuthorizationWrongChainID
  else if u64_add (auth_Nonce auth) 1 <? auth_Nonce auth then throw ErrAuthorizationNonceOverflow
  else
    match Authority auth with
    | None => throw ErrAuthorizationInvalidSignature
    | Some authority =>
        AddAddressToAccessList authority ;;
        code ← StateDB.GetCode authority;
        let code := default ""%string code in
        if negb (Z.of_nat (String.length code) =? 0) && negb (ParseDelegation code)
        then throw ErrAuthorizationDestinationHasCode
        else
          have ← StateDB.GetNonce authority;
          if negb (have =? auth_Nonce auth) then throw ErrAuthorizationNonceMismatch
          else mret authority
    end.

Definition applyAuthorization (auth : SetCodeAuthorization) (chainID : Z) : SM unit :=
  authority ← validateAuthorization auth chainID;
  exists_ ← Exist authority;
  when exists_ (AddRefund (CallNewAccountGas - TxAuthTupleGas)) ;;
  StateDB.SetNonce authority (u64_add (auth_Nonce auth) 1) ;;
  if auth_Address auth =? 0 then StateDB.SetCode authority None ;; mret tt
  else StateDB.SetCode authority (Some (AddressToDelegation (auth_Address auth))) ;; mret tt.

(** An error that is logged and dropped. *)
Definition ignore_error (m : SM unit) : SM unit := λ s,
  match m s with (s', Err _) => (s', Ok tt) | r => r end.

(** ** Execution *)

Definition interpret {A} (m : M (StateDB K C Ev) Empty_set A) : SM A := λ s,
  match m s with
  | (s', Ok a) => (s', Ok a)
  | (s', Err e) => match e with end
  | (s', Panic p) => (s', Panic p)
  end.

Definition execute (evm : EVM) (msg : Message) (leftoverGas value : Z) : SM callResult :=
  let sender := m_From msg in
  match m_To msg with
  | None =>
      StateDB.SetNonce sender (m_Nonce msg) ;;
      r ← interpret (evm_Create evm sender (m_Data msg) leftoverGas value);
      nonce ← StateDB.GetNonce sender;
      when (nonce =? m_Nonce msg) (StateDB.SetNonce sender (u64_add (m_Nonce msg) 1)) ;;
      mret r
  | Some to =>
      for_each (m_SetCodeAuthorizations msg) (λ auth, ignore_error (applyAuthorization auth cc_ChainID)) ;;
      code ← StateDB.GetCode to;
      match delegation_target (default ""%string code) with
      | Some addr => AddAddressToAccessList addr
      | None => mret tt
      end ;;
      interpret (evm_Call evm sender to (m_Data msg) leftoverGas value)
  end.

(** [Int.Uint64]. *)
Definition Int_Uint64 {S} (z : Z) : M S SdkError Z :=
  if (0 <=? z) && (z <=? MaxUint64) then mret z else panic "Uint64() out of bound".

(** The gas charged for a message, from the gas used after the refund. *)
Definition charged_gas {S} (cfg : EVMConfig D) (msg : Message) (internal : bool)
    (temporaryGasUsed leftoverGas : Z) : M S SdkError Z :=
  let gasLimit := NewDecFromInt (m_GasLimit msg) in
  let minGasMultiplier := default ZeroDec (p_MinGasMultiplier (cfg_FeeMarketParams cfg)) in
  minimumGasUsed ← dec_op (dec_Mul gasLimit minGasMultiplier);
  let truncated := dec_TruncateInt minimumGasUsed in
  if negb ((0 <=? truncated) && (truncated <=? MaxUint64)) then throw ErrGasOverflow
  else if m_GasLimit msg <? leftoverGas then throw ErrGasOverflow
  else
    let gasUsed := NewDecFromInt (to_int64 temporaryGasUsed) in
    let gasUsed := if internal then gasUsed else MaxDec gasUsed minimumGasUsed in
    Int_Uint64 (dec_TruncateInt gasUsed).

Definition ApplyMessageWithConfig (env : blockEnv) (getHash : Z → Hash) (msg : Message)
    (commit callFromPrecompile : bool) (cfg : EVMConfig D) (txHash : Hash) (internal : bool)
    (overrides : option (EVM → SM EVM)) : SM MsgEthereumTxResponse :=
  let evm := NewEVMWithOverridePrecompiles env getHash msg cfg (bool_decide (overrides = None)) in
  let rules := cc_Rules (be_Height env) (be_Time env) in
  evm ← match overrides with None => mret evm | Some apply => apply evm end;
  intrinsicGas ← return_res (checked_intrinsic_gas env msg);
  let leftoverGas := m_GasLimit msg - intrinsicGas in
  when (negb callFromPrecompile)
    (Prepare (vr_Rules rules) (m_From msg) 0 (m_To msg) (ActivePrecompiles evm) (m_AccessList msg)) ;;
  match Uint256FromBigInt (m_Value msg) with
  | None => throw ErrValueConversion
  | Some convertedValue =>
      r ← execute evm msg leftoverGas convertedValue;
      let leftoverGas := cr_LeftOver r in
      if m_GasLimit msg <? leftoverGas then throw ErrGasOverflow
      else
        let maxUsedGas := m_GasLimit msg - leftoverGas in
        available ← GetRefund;
        let refund := GasToRefund available maxUsedGas
                        (refund_quotient (cc_IsLondon (be_Height env)) internal) in
        let leftoverGas := u64_add leftoverGas refund in
        let temporaryGasUsed := maxUsedGas - refund in
        let vmError := default ""%string (cr_Err r) in
        when commit (if callFromPrecompile then FlushToCacheCtx else Commit) ;;
        gasUsed ← charged_gas cfg msg internal temporaryGasUsed leftoverGas;
        let ret := if String.eqb vmError ErrExecutionReverted then cr_ReturnData r else cr_Ret r in
        logs ← gets sdb_logs;
        mret (mkResponse gasUsed maxUsedGas vmError ret logs txHash
                (default 0 (be_HeaderHash env)) (be_Time env))
  end.
End Message.
