(* ===== verification/StateTransitionProps.v ===== *)
(** Properties of the state transition: the gas a message is charged, and the
    effect of EIP-7702 authorizations.  First, what the operations of the state
    database that a message uses do to the accounts: reading and the access list
    leave every account as it is, and writing a nonce or a code changes one. *)
From S2P Require Import Prelude GoStd AccessList Sdk EvmCoin LegacyDec StateDB StateDBRevert EvmKeeper FeeMarket EvmParams EvmTx StateTransition.

(** ** What the operations of the state database do to accounts *)

Section Worlds.
Context {K C Ev : Type}.
Context `{HCr : Crypto, HK : !Keeper K Ev, HKC : !Keeper C Ev, HS : !Snapshotter C,
          HCC : !CacheContext K C}.
Implicit Types (s : StateDB K C Ev) (a : Address) (o : stateObject).

(** What the state database reports of an account. *)
Definition nonce_of s a : Z := from_option obj_Nonce 0 (obj_of s a).
Definition code_of s a : code_t := obj_of s a ≫= code_view (kstore s).
Definition balance_at s a : Z := from_option obj_Balance 0 (obj_of s a).

(** The accounts that satisfy [P] are the same in both states. *)
Definition same_accounts (P : Address → Prop) s s' : Prop :=
  sdb_ctx s' = sdb_ctx s ∧
  ∀ a, P a → option_Forall2 (obj_eq (kstore s)) (obj_of s a) (obj_of s' a).
Abbreviation all := (λ _ : Address, True).

Lemma same_refl P s : same_accounts P s s.
Proof. by split. Qed.
Lemma same_trans P s1 s2 s3 : same_accounts P s1 s2 → same_accounts P s2 s3 → same_accounts P s1 s3.
Proof.
  intros [H1 H2] [H3 H4]. split; [by rewrite H3|]. intros a Ha. etransitivity; [by apply H2|].
  unfold kstore. rewrite <- H1. by apply H4.
Qed.
Lemma same_weaken (P Q : Address → Prop) s s' :
  (∀ a, Q a → P a) → same_accounts P s s' → same_accounts Q s s'.
Proof. intros HPQ [H1 H2]. split; auto. Qed.

Lemma same_nonce (P : Address → Prop) s s' a : P a → same_accounts P s s' → nonce_of s' a = nonce_of s a.
Proof.
  intros Ha [_ H]. specialize (H a Ha). unfold nonce_of. destruct H as [o o' Ho|]; [|done].
  simpl. unfold obj_Nonce. by rewrite (oe_account _ _ _ Ho).
Qed.
Lemma same_code (P : Address → Prop) s s' a : P a → same_accounts P s s' → code_of s' a = code_of s a.
Proof.
  intros Ha [Hc H]. specialize (H a Ha). unfold code_of, kstore. rewrite Hc. fold (kstore s).
  destruct H as [o o' Ho|]; [|done]. simpl. by rewrite (oe_code _ _ _ Ho).
Qed.
Lemma same_balance (P : Address → Prop) s s' a : P a → same_accounts P s s' → balance_at s' a = balance_at s a.
Proof.
  intros Ha [_ H]. specialize (H a Ha). unfold balance_at. destruct H as [o o' Ho|]; [|done].
  simpl. unfold obj_Balance. by rewrite (oe_account _ _ _ Ho).
Qed.

(** A step that keeps the objects up to what can be observed. *)
Lemma same_put P s a o o' :
  obj_of s a = Some o → obj_eq (kstore s) o o' → same_accounts P s (put a o' s).
Proof.
  intros Ho He. split; [done|]. intros b _. rewrite obj_of_put. case_decide as Hb; [|done].
  subst. rewrite Ho. by constructor.
Qed.

(** Changing the parts of the state that are not accounts. *)
Lemma same_objects P s s' :
  sdb_ctx s' = sdb_ctx s → sdb_stateObjects s' = sdb_stateObjects s → same_accounts P s s'.
Proof. intros Hc Ho. split; [done|]. intros a _. unfold obj_of, kstore. by rewrite Hc, Ho. Qed.

Lemma AddAddressToAccessList_run a s :
  ∃ s', AddAddressToAccessList a s = (s', Ok tt) ∧ same_accounts all s s' ∧
    sdb_refund s' = sdb_refund s ∧ ContainsAddress (sdb_accessList s') a = true.
Proof.
  unfold AddAddressToAccessList, set_al, append, gets, modify, mbind, M_bind, mret, M_ret.
  unfold AddAddress, ContainsAddress.
  destruct (al_addresses (sdb_accessList s) !! a) as [i|] eqn:Hi.
  - eexists. split; [done|]. split_and!; [by apply same_objects|done|].
    simpl. apply bool_decide_true. by rewrite Hi.
  - eexists. split; [done|]. split_and!; [by apply same_objects|done|].
    simpl. apply bool_decide_true. by rewrite lookup_insert_eq.
Qed.

(** *** Reading *)

Lemma obj_eq_cache s o code :
  so_code o = None → IsEmptyCodeHash (obj_CodeHash o) = false → code = kp_GetCode (kstore s) (obj_CodeHash o) →
  obj_eq (kstore s) o (obj_cacheCode code o).
Proof.
  intros Hn He ->. split; try done. unfold code_view. simpl. rewrite Hn.
  change (obj_CodeHash (obj_cacheCode (kp_GetCode (kstore s) (obj_CodeHash o)) o)) with (obj_CodeHash o).
  rewrite He. by destruct (kp_GetCode _ _).
Qed.

Lemma obj_Code_value s a o :
  obj_of s a = Some o →
  ∃ s', obj_Code a o (put a o s) = (s', Ok (code_view (kstore s) o)) ∧ same_accounts all s s' ∧
    sdb_refund s' = sdb_refund s ∧ ∃ o', obj_eq (kstore s) o o' ∧ s' = put a o' s ∧ so_account o' = so_account o.
Proof.
  intros Ho. unfold obj_Code, code_view. destruct (so_code o) as [c|] eqn:Hc.
  { eexists. split; [done|]. split_and!; [by eapply same_put|done|]. by exists o. }
  destruct (IsEmptyCodeHash (obj_CodeHash o)) eqn:He.
  { eexists. split; [done|]. split_and!; [by eapply same_put|done|]. by exists o. }
  unfold mbind, M_bind, gets. rewrite update_object_put. eexists. split; [done|].
  pose proof (obj_eq_cache s o _ Hc He eq_refl) as Hoe.
  split_and!; [by eapply same_put|done|]. by eexists.
Qed.

Lemma read_run {A} s a (absent : A) f (v : A) :
  (obj_of s a = None → v = absent) →
  (∀ o, obj_of s a = Some o → ∃ s', f o (put a o s) = (s', Ok v) ∧ same_accounts all s s' ∧ sdb_refund s' = sdb_refund s) →
  ∃ s', read a absent f s = (s', Ok v) ∧ same_accounts all s s' ∧ sdb_refund s' = sdb_refund s.
Proof.
  intros Hn Hf. unfold read, mbind, M_bind. destruct (obj_of s a) as [o|] eqn:Ho.
  - rewrite (getStateObject_some _ _ _ Ho). by apply Hf.
  - rewrite (getStateObject_none _ _ Ho), Hn by done. eexists. split; [done|].
    split; [apply same_refl|done].
Qed.
Lemma GetCode_run s a :
  ∃ s', StateDB.GetCode a s = (s', Ok (code_of s a)) ∧ same_accounts all s s' ∧ sdb_refund s' = sdb_refund s.
Proof.
  apply read_run; unfold code_of.
  - by intros ->.
  - intros o Ho. destruct (obj_Code_value s a o Ho) as (s' & Hr & Hs & Hf & _). rewrite Ho. by exists s'.
Qed.
Lemma GetNonce_run s a :
  ∃ s', StateDB.GetNonce a s = (s', Ok (nonce_of s a)) ∧ same_accounts all s s' ∧ sdb_refund s' = sdb_refund s.
Proof.
  apply read_run; unfold nonce_of.
  - by intros ->.
  - intros o Ho. rewrite Ho. eexists. split; [done|]. split; [by eapply same_put|done].
Qed.
Lemma Exist_run s a :
  ∃ s', Exist a s = (s', Ok (bool_decide (is_Some (obj_of s a)))) ∧ same_accounts all s s' ∧
    sdb_refund s' = sdb_refund s.
Proof.
  apply read_run.
  - by intros ->.
  - intros o Ho. rewrite Ho. eexists. split; [done|]. split; [by eapply same_put|done].
Qed.

(** *** Writing *)

Abbreviation others a := (λ b : Address, b ≠ a).

Lemma getOrNew_run s a :
  ∃ s' o, getOrNewStateObject a s = (put a o s', Ok o) ∧ same_accounts (others a) s (put a o s') ∧
    sdb_refund s' = sdb_refund s ∧ sdb_accessList s' = sdb_accessList s ∧ kstore s' = kstore s ∧
    obj_Balance o = balance_at s a ∧ obj_Nonce o = nonce_of s a ∧
    sdb_ctx s' = sdb_ctx s ∧ (∀ o0, obj_of s a = Some o0 → o = o0 ∧ s' = s).
Proof.
  unfold getOrNewStateObject, mbind, M_bind, balance_at, nonce_of. destruct (obj_of s a) as [o|] eqn:Ho.
  - rewrite (getStateObject_some _ _ _ Ho). exists s, o. split; [done|].
    split_and!; try done; first [by eapply same_put|naive_solver].
  - rewrite (getStateObject_none _ _ Ho). unfold createObject, mbind, M_bind.
    rewrite (getStateObject_none _ _ Ho), append_eq. unfold setStateObject, modify. simpl.
    eexists (add_entry (createObjectChange a) s), _. split; [done|]. split_and!; try done.
    split; [done|]. intros b Hb. rewrite obj_of_put, decide_False by done. done.
Qed.

Lemma SetNonce_run s a n :
  ∃ s', StateDB.SetNonce a n s = (s', Ok tt) ∧ same_accounts (others a) s s' ∧
    sdb_refund s' = sdb_refund s ∧ sdb_accessList s' = sdb_accessList s ∧
    nonce_of s' a = n ∧ balance_at s' a = balance_at s a ∧ is_Some (obj_of s' a).
Proof.
  destruct (getOrNew_run s a) as (s1 & o & Hget & Hsame & Hr & Hal & Hk & Hb & _ & Hc & _).
  unfold StateDB.SetNonce, mbind, M_bind. rewrite Hget, append_eq, update_object_entry.
  eexists. split; [done|].
  assert (Ho : obj_of (add_entry (nonceChange a (obj_Nonce o)) (put a (obj_setNonce n o) s1)) a =
                 Some (obj_setNonce n o)).
  { change (obj_of (put a (obj_setNonce n o) s1) a = Some (obj_setNonce n o)).
    by rewrite obj_of_put, decide_True. }
  unfold nonce_of, balance_at at 1. rewrite Ho. split_and!; try done.
  split; [done|]. intros b Hb'. destruct Hsame as [_ Hsame]. specialize (Hsame b Hb').
  change (option_Forall2 (obj_eq (kstore s)) (obj_of s b) (obj_of (put a (obj_setNonce n o) s1) b)).
  by rewrite obj_of_put, decide_False in * by done.
Qed.

Lemma SetCode_run s a c :
  ∃ s' r, StateDB.SetCode a c s = (s', Ok r) ∧ same_accounts (others a) s s' ∧
    sdb_refund s' = sdb_refund s ∧ sdb_accessList s' = sdb_accessList s ∧
    code_of s' a = c ∧ nonce_of s' a = nonce_of s a ∧ balance_at s' a = balance_at s a ∧ is_Some (obj_of s' a).
Proof.
  destruct (getOrNew_run s a) as (s1 & o & Hget & Hsame & Hr & Hal & Hk & Hb & Hn & Hc & Hold).
  unfold StateDB.SetCode, mbind, M_bind. rewrite Hget.
  assert (Hs1 : obj_of (put a o s1) a = Some o) by by rewrite obj_of_put, decide_True.
  destruct (obj_Code_value (put a o s1) a o Hs1) as (s2 & Hcode & _ & _ & o2 & _ & -> & Hacc).
  rewrite put_put in Hcode. rewrite Hcode, put_put, append_eq, update_object_entry.
  eexists _, _. split; [done|].
  set (h := Keccak256Hash (default ""%string c)). set (o3 := obj_setCode h c o2).
  match goal with |- same_accounts _ _ ?st ∧ _ => set (s3 := st) end.
  assert (Ho : obj_of s3 a = Some o3).
  { change (obj_of (put a o3 s1) a = Some o3). by rewrite obj_of_put, decide_True. }
  unfold nonce_of, balance_at at 1, code_of. rewrite Ho. split_and!; try done.
  - split; [done|]. intros b Hb'. destruct Hsame as [_ Hsame]. specialize (Hsame b Hb').
    change (option_Forall2 (obj_eq (kstore s)) (obj_of s b) (obj_of (put a o3 s1) b)).
    by rewrite obj_of_put, decide_False in * by done.
  - simpl. unfold code_view, o3. simpl. destruct c as [c|]; [done|].
    unfold IsEmptyCodeHash. cbn. by rewrite Z.eqb_refl.
  - simpl. unfold obj_Nonce. simpl. rewrite Hacc. exact Hn.
  - simpl. unfold obj_Balance. simpl. rewrite Hacc. exact Hb.
Qed.

Lemma AddRefund_run s g :
  ∃ s', AddRefund g s = (s', Ok tt) ∧ same_accounts all s s' ∧
    sdb_refund s' = u64_add (sdb_refund s) g ∧ sdb_accessList s' = sdb_accessList s.
Proof. eexists. split; [done|]. split_and!; [by apply same_objects|done..]. Qed.
End Worlds.

(** ** Gas *)

Section Gas.
Context {D : Type} `{HD : DecLib D, HL : !DecLaws D}.

Lemma validated_multiplier (d : D) :
  validateMinGasMultiplier (Some d) = None → 0 ≤ raw d ≤ Precision.
Proof.
  unfold validateMinGasMultiplier, OneDec. rewrite raw_IsNegative, raw_LT, raw_NewDecFromInt.
  repeat case_match; zbool; try done; lia.
Qed.

(** A valid fraction of a quantity. *)
Lemma fraction_bounds limit r :
  0 ≤ limit → 0 ≤ r ≤ Precision → 0 ≤ limit * r ∧ 0 ≤ limit * r / Precision ≤ limit.
Proof.
  intros Hl Hr. pose proof Precision_pos as HP. generalize dependent Precision. intros P Hr HP.
  assert (0 ≤ limit * r) by nia. split; [done|].
  split; [by apply Z.div_pos|]. apply Z.div_le_upper_bound; [done|nia].
Qed.

(** The gas charged, when the multiplier is valid and the gas used fits an int64. *)
Lemma charged_gas_run {S} (cfg : EVMConfig D) msg internal temp left d (s : S) :
  p_MinGasMultiplier (cfg_FeeMarketParams cfg) = Some d → 0 ≤ raw d ≤ Precision →
  0 ≤ temp ≤ m_GasLimit msg → m_GasLimit msg < 2 ^ 63 → left ≤ m_GasLimit msg →
  charged_gas cfg msg internal temp left s =
    (s, Ok (if internal then temp else Z.max temp (m_GasLimit msg * raw d / Precision))).
Proof.
  intros Hd Hr Ht Hl Hleft. pose proof Precision_pos as HP. set (limit := m_GasLimit msg) in *.
  unfold charged_gas, dec_op. fold limit. rewrite Hd. unfold default, from_option, id.
  destruct (fraction_bounds limit (raw d)) as [Hnn Hmin]; [lia|done|].
  destruct (Mul_total (NewDecFromInt limit) d) as [f Hf].
  { rewrite raw_NewDecFromInt, <- Z.mul_assoc, (Z.mul_comm Precision), Z.mul_assoc.
    rewrite Z.abs_eq by lia. apply Z.mul_lt_mono_pos_r; [done|]. unfold Precision in Hr. nia. }
  rewrite Hf. pose proof (raw_Mul_whole _ _ _ Hf) as Hraw. unfold mbind, M_bind, mret, M_ret. cbn iota.
  assert (Htr : dec_TruncateInt f = limit * raw d / Precision)
    by (rewrite raw_TruncateInt, Hraw; by apply Z.quot_div_nonneg).
  rewrite Htr. unfold MaxUint64 at 1. rewrite (proj2 (Z.leb_le 0 _)) by lia.
  rewrite (proj2 (Z.leb_le _ _)) by lia. cbn [andb negb].
  rewrite (proj2 (Z.ltb_ge _ _)) by lia.
  unfold to_int64. rewrite (proj2 (Z.ltb_lt temp _)) by lia.
  assert (Hres : ∀ g, 0 ≤ g ≤ limit → @Int_Uint64 S g s = (s, Ok g)).
  { intros g Hg. unfold Int_Uint64, MaxUint64. rewrite (proj2 (Z.leb_le 0 _)) by lia.
    by rewrite (proj2 (Z.leb_le g _)) by lia. }
  destruct internal.
  - rewrite raw_TruncateInt, raw_NewDecFromInt, Z.quot_mul by lia. by apply Hres.
  - assert (Hmax : dec_TruncateInt (MaxDec (NewDecFromInt temp) f) = Z.max temp (limit * raw d / Precision)).
    { rewrite raw_TruncateInt, raw_MaxDec, raw_NewDecFromInt, Hraw, Z.quot_div_nonneg by lia.
      destruct (Z.max_spec (temp * Precision) (limit * raw d)) as [[Hlt ->]|[Hle ->]].
      - rewrite Z.max_r; [done|]. apply Z.div_le_lower_bound; lia.
      - rewrite Z.div_mul by lia. symmetry. apply Z.max_l. apply Z.div_le_upper_bound; lia. }
    rewrite Hmax. apply Hres. lia.
Qed.
End Gas.

Lemma GasToRefund_min available consumed q : GasToRefund available consumed q = Z.min available (consumed / q).
Proof. unfold GasToRefund. destruct (Z.ltb_spec available (consumed / q)); lia. Qed.

Lemma refund_quotient_pos isLondon internal : 1 ≤ refund_quotient isLondon internal.
Proof. by destruct internal, isLondon. Qed.

Module Transition.
Section Transition.
Context {K C Ev D Signer : Type}.
Context `{HCr : Crypto, HK : !Keeper K Ev, HKC : !Keeper C Ev, HS : !Snapshotter C,
          HCC : !CacheContext K C, HD : DecLib D, HL : !DecLaws D, HE : EthLib Signer, HP : ParamsLib,
          HCfg : ChainConfig, HI : !Interpreter K C Ev}.
Implicit Types s : StateDB K C Ev.

(** ** Gas *)

Lemma Commit_refund s s' r : Commit s = (s', r) → sdb_refund s' = sdb_refund s.
Proof.
  unfold Commit, writeCache, commit_to_ctx, mbind, M_bind, gets, modify.
  destruct (sdb_cache s); simpl; destruct (commit_all _ _ _) as [c' []]; by intros [= <- _].
Qed.
Lemma on_cache_refund {A} (m : M (sdkContext C Ev) SdkError A) s s' r :
  on_cache m s = (s', r) → sdb_refund s' = sdb_refund s.
Proof.
  unfold on_cache. destruct (sdb_cache s); [|by intros [= <- _]]. destruct (m s0). by intros [= <- _].
Qed.
Lemma FlushToCacheCtx_refund s s' : FlushToCacheCtx s = (s', Ok tt) → sdb_refund s' = sdb_refund s.
Proof.
  unfold FlushToCacheCtx. intros H. bind_step H. bind_step H. apply on_cache_refund in Hstep, Hstep0.
  injection H as <-. simpl. congruence.
Qed.
Lemma commit_refund (commit fromPrecompile : bool) s s' :
  when commit (if fromPrecompile then FlushToCacheCtx else Commit) s = (s', Ok tt) →
  sdb_refund s' = sdb_refund s.
Proof.
  intros H%when_ok. destruct commit; [|by subst]. destruct fromPrecompile.
  - by apply FlushToCacheCtx_refund.
  - by eapply Commit_refund.
Qed.

Lemma interpret_ok {A} (m : M (StateDB K C Ev) Empty_set A) s s' a :
  interpret m s = (s', Ok a) → m s = (s', Ok a).
Proof. unfold interpret. destruct (m s) as [s1 [x|[]|p]]; naive_solver. Qed.

Lemma execute_leftover `{!InterpreterLaws K C Ev} evm msg gas value s s' r :
  execute evm msg gas value s = (s', Ok r) → 0 ≤ cr_LeftOver r ≤ gas.
Proof.
  unfold execute. intros H. destruct (m_To msg) as [to|].
  - bind_step H. bind_step H. bind_step H. apply interpret_ok in H. by eapply il_call.
  - bind_step H. bind_step H. bind_step H. bind_step H. injection H as _ <-.
    apply interpret_ok in Hstep0. by eapply il_create.
Qed.

(** A message that returns, step by step. *)
Lemma ApplyMessage_inv env getHash msg commit fromPrecompile (cfg : EVMConfig D) txHash internal s s' res :
  ApplyMessageWithConfig env getHash msg commit fromPrecompile cfg txHash internal None s = (s', Ok res) →
  ∃ evm intrinsicGas value s1 s2 s3 r,
    checked_intrinsic_gas env msg = Ok intrinsicGas ∧
    execute evm msg (m_GasLimit msg - intrinsicGas) value s1 = (s2, Ok r) ∧
    cr_LeftOver r ≤ m_GasLimit msg ∧
    when commit (if fromPrecompile then FlushToCacheCtx else Commit) s2 = (s3, Ok tt) ∧
    r_MaxUsedGas res = m_GasLimit msg - cr_LeftOver r ∧
    r_VmError res = default ""%string (cr_Err r) ∧
    let refund := GasToRefund (sdb_refund s2) (m_GasLimit msg - cr_LeftOver r)
                    (refund_quotient (cc_IsLondon (be_Height env)) internal) in
    charged_gas cfg msg internal (m_GasLimit msg - cr_LeftOver r - refund)
      (u64_add (cr_LeftOver r) refund) s3 = (s', Ok (r_GasUsed res)) ∧ r_Logs res = sdb_logs s'.
Proof.
  unfold ApplyMessageWithConfig. intros H. bind_step H. injection Hstep as <- <-. bind_step H.
  rename x into intrinsicGas. injection Hstep as <- Hgas. bind_step H.
  destruct (Uint256FromBigInt (m_Value msg)) as [value|]; [|done].
  bind_step H. rename x0 into r. destruct (Z.ltb_spec (m_GasLimit msg) (cr_LeftOver r)) as [|Hle]; [done|].
  bind_step H. injection Hstep1 as <- <-. bind_step H. bind_step H. bind_step H.
  injection Hstep3 as <- <-. injection H as <- <-. destruct x0.
  eexists _, _, _, _, _, _, _. split_and!; done.
Qed.

(** C8: the gas a message is charged.  For a gas limit below 2^63 and a valid
    minimum gas multiplier, a message that returns has used at least its intrinsic
    gas and at most its limit ([MaxUsedGas]); the refund is the refund counter
    capped at the used gas divided by 2, by 5 since London, or uncapped for an
    internal call; and the gas charged is what was used less the refund but, unless
    the call is internal, at least the given fraction of the limit.  It never
    exceeds the limit. *)
Theorem gas_charged_exactly `{!InterpreterLaws K C Ev} env getHash msg commit fromPrecompile (cfg : EVMConfig D)
    txHash internal d s s' res :
  0 ≤ m_GasLimit msg < 2 ^ 63 →
  p_MinGasMultiplier (cfg_FeeMarketParams cfg) = Some d →
  validateMinGasMultiplier (Some d) = None →
  ApplyMessageWithConfig env getHash msg commit fromPrecompile cfg txHash internal None s = (s', Ok res) →
  0 ≤ sdb_refund s' →
  let q := refund_quotient (cc_IsLondon (be_Height env)) internal in
  let refund := Z.min (sdb_refund s') (r_MaxUsedGas res / q) in
  let minimum := m_GasLimit msg * raw d / Precision in
  (∃ intrinsicGas, checked_intrinsic_gas env msg = Ok intrinsicGas ∧
     intrinsicGas ≤ r_MaxUsedGas res ≤ m_GasLimit msg) ∧
  r_GasUsed res = (if internal then r_MaxUsedGas res - refund
                   else Z.max (r_MaxUsedGas res - refund) minimum) ∧
  0 ≤ r_GasUsed res ≤ m_GasLimit msg.
Proof.
  intros Hlim Hd Hv%validated_multiplier Hrun Href. cbn zeta.
  apply ApplyMessage_inv in Hrun as (evm & ig & value & s1 & s2 & s3 & r & Hgas & Hex & Hle & Hc & Hmax & _ & Hch & _).
  apply execute_leftover in Hex. apply commit_refund in Hc.
  set (q := refund_quotient _ _) in *. pose proof (refund_quotient_pos (cc_IsLondon (be_Height env)) internal) as Hq.
  fold q in Hq. rewrite <- Hmax in Hch. rewrite GasToRefund_min in Hch.
  assert (Hs3 : s' = s3).
  { unfold charged_gas, dec_op, Int_Uint64, mbind, M_bind, mret, M_ret, throw, panic in Hch.
    by repeat case_match; simplify_eq. }
  subst s3. rewrite Hc in Href.
  assert (Hdiv : 0 ≤ r_MaxUsedGas res / q ≤ r_MaxUsedGas res).
  { split; [apply Z.div_pos; lia|]. apply Z.div_le_upper_bound; nia. }
  rewrite charged_gas_run with (d := d) in Hch; [|done|done|lia|lia|].
  2: { unfold u64_add. rewrite wrap_small by lia. lia. }
  injection Hch as Hch. rewrite Hc, <- Hch.
  destruct (fraction_bounds (m_GasLimit msg) (raw d)) as [_ Hmin]; [lia|done|].
  split_and!; [exists ig; split; [done|lia]|done|destruct internal; lia..].
Qed.

(** ** Authorizations *)

(** Whether an authorization is acceptable in a state, and for whom. *)
Definition authorization_verdict s (auth : SetCodeAuthorization) (chainID : Z) : res SdkError Address :=
  if bool_decide (auth_ChainID auth ≠ 0 ∧ auth_ChainID auth ≠ chainID) then Err ErrAuthorizationWrongChainID
  else if bool_decide (auth_Nonce auth = MaxUint64) then Err ErrAuthorizationNonceOverflow
  else
    match Authority auth with
    | None => Err ErrAuthorizationInvalidSignature
    | Some a =>
        let code := default ""%string (code_of s a) in
        if bool_decide (code ≠ ""%string ∧ delegation_target code = None)
        then Err ErrAuthorizationDestinationHasCode
        else if bool_decide (nonce_of s a ≠ auth_Nonce auth) then Err ErrAuthorizationNonceMismatch
        else Ok a
    end.

Lemma chain_check (c chainID : Z) :
  negb (c =? 0) && negb (c =? chainID) = bool_decide (c ≠ 0 ∧ c ≠ chainID).
Proof.
  destruct (Z.eqb_spec c 0), (Z.eqb_spec c chainID); cbn [negb andb]; symmetry;
    first [apply bool_decide_eq_false_2; tauto|apply bool_decide_eq_true_2; tauto].
Qed.
Lemma nonce_check n : 0 ≤ n ≤ MaxUint64 → (u64_add n 1 <? n) = bool_decide (n = MaxUint64).
Proof.
  unfold MaxUint64, u64_add. intros Hn. case_bool_decide as Hd.
  - by subst.
  - rewrite wrap_small by lia. apply Z.ltb_ge. lia.
Qed.
Lemma code_check (c : string) :
  negb (Z.of_nat (String.length c) =? 0) && negb (ParseDelegation c) =
  bool_decide (c ≠ ""%string ∧ delegation_target c = None).
Proof.
  simpl ParseDelegation. destruct (delegation_target c) as [a|].
  - rewrite andb_false_r, bool_decide_eq_false_2 by naive_solver. done.
  - destruct c as [|x c]; [done|].
    rewrite (bool_decide_eq_true_2 (String x c ≠ ""%string ∧ _)) by done.
    by rewrite bool_decide_eq_false_2 by (intros [? [=]]).
Qed.

Lemma unchanged_run {A} s (r : res SdkError A) :
  ∃ s', (s, r) = (s', r) ∧ same_accounts (λ _, True) s s' ∧ sdb_refund s' = sdb_refund s.
Proof. exists s. split; [done|]. split; [apply same_refl|done]. Qed.

Lemma validateAuthorization_run s auth chainID :
  0 ≤ auth_Nonce auth ≤ MaxUint64 →
  ∃ s', validateAuthorization auth chainID s = (s', authorization_verdict s auth chainID) ∧
    same_accounts (λ _, True) s s' ∧ sdb_refund s' = sdb_refund s.
Proof.
  intros Hn. unfold validateAuthorization, authorization_verdict. rewrite chain_check, nonce_check by done.
  case_bool_decide; [apply unchanged_run|]. case_bool_decide; [apply unchanged_run|].
  destruct (Authority auth) as [a|]; [|apply unchanged_run].
  destruct (AddAddressToAccessList_run a s) as (s1 & Hr1 & Hs1 & Hf1 & _).
  destruct (GetCode_run s1 a) as (s2 & Hr2 & Hs2 & Hf2).
  destruct (GetNonce_run s2 a) as (s3 & Hr3 & Hs3 & Hf3).
  pose proof (same_trans _ _ _ _ Hs1 Hs2) as Hs12. pose proof (same_trans _ _ _ _ Hs12 Hs3) as Hs13.
  rewrite (same_code _ _ _ a I Hs1) in Hr2. rewrite (same_nonce _ _ _ a I Hs12) in Hr3.
  unfold mbind, M_bind. rewrite Hr1, Hr2, code_check. case_bool_decide.
  { exists s2. split; [done|]. split; [done|congruence]. }
  rewrite Hr3. destruct (Z.eqb_spec (nonce_of s a) (auth_Nonce auth)); cbn [negb].
  - rewrite bool_decide_eq_false_2 by tauto. exists s3. split; [done|]. split; [done|congruence].
  - rewrite bool_decide_eq_true_2 by done. exists s3. split; [done|]. split; [done|congruence].
Qed.
(** C29: an EIP-7702 authorization is applied exactly when it is acceptable.  It is
    acceptable for the account that signed it when its chain id is zero or the
    chain's, its nonce can be incremented, that account has no code or only a
    delegation, and its nonce is the account's.  Then the account's nonce is
    incremented, its code becomes the delegation (or is cleared for the zero
    address), its balance and every other account stay as they were, and the
    refund counter grows only if the account existed.  Otherwise the error says
    which condition failed and no account changes. *)
Theorem authorization_applied_exactly s auth chainID :
  0 ≤ auth_Nonce auth ≤ MaxUint64 →
  ∃ s', let v := authorization_verdict s auth chainID in
  applyAuthorization auth chainID s =
    (s', match v with Ok _ => Ok tt | Err e => Err e | Panic p => Panic p end) ∧
  match v with
  | Ok a =>
      same_accounts (λ b, b ≠ a) s s' ∧
      nonce_of s' a = auth_Nonce auth + 1 ∧ balance_at s' a = balance_at s a ∧
      code_of s' a = (if auth_Address auth =? 0 then None else Some (AddressToDelegation (auth_Address auth))) ∧
      sdb_refund s' = if bool_decide (is_Some (obj_of s a)) then u64_add (sdb_refund s) 12500 else sdb_refund s
  | _ => same_accounts (λ _, True) s s' ∧ sdb_refund s' = sdb_refund s
  end.
Proof.
  intros Hn. destruct (validateAuthorization_run s auth chainID Hn) as (s1 & Hr1 & Hs1 & Hf1).
  cbn zeta. unfold applyAuthorization, mbind, M_bind. rewrite Hr1.
  destruct (authorization_verdict s auth chainID) as [a|e|p] eqn:Hv; [|by exists s1..].
  destruct (Exist_run s1 a) as (s2 & -> & Hs2 & Hf2).
  assert (Hex : is_Some (obj_of s1 a) ↔ is_Some (obj_of s a)).
  { destruct Hs1 as [_ Hs1]. pose proof (Hs1 a I) as Ho.
    destruct Ho as [o o'|]; split; intros [? ?]; (done || by eexists). }
  rewrite (bool_decide_ext _ _ Hex). set (existed := bool_decide _).
  assert (∃ s3, when existed (AddRefund (CallNewAccountGas - TxAuthTupleGas)) s2 = (s3, Ok tt) ∧
            same_accounts (λ _, True) s2 s3 ∧
            sdb_refund s3 = if existed then u64_add (sdb_refund s2) 12500 else sdb_refund s2) as (s3 & -> & Hs3 & Hf3).
  { destruct existed; [|exists s2; split; [done|]; split; [apply same_refl|done]].
    destruct (AddRefund_run s2 (CallNewAccountGas - TxAuthTupleGas)) as (s3 & ? & ? & ? & _). by exists s3. }
  destruct (SetNonce_run s3 a (u64_add (auth_Nonce auth) 1)) as (s4 & -> & Hs4 & Hf4 & _ & Hn4 & Hb4 & _).
  set (target := if auth_Address auth =? 0 then None else Some (AddressToDelegation (auth_Address auth))).
  destruct (SetCode_run s4 a target) as (s5 & r & Hr5 & Hs5 & Hf5 & _ & Hc5 & Hn5 & Hb5 & _).
  assert (Hs13 : same_accounts (λ _, True) s s3) by eauto using same_trans.
  assert (Hnonce : auth_Nonce auth ≠ MaxUint64).
  { intros He. unfold authorization_verdict in Hv. rewrite (bool_decide_eq_true_2 (auth_Nonce auth = _)) in Hv by done.
    by case_bool_decide. }
  exists s5. split; [subst target; by destruct (auth_Address auth =? 0); rewrite Hr5|]. split_and!.
  - eapply same_trans; [by eapply same_weaken; [|apply Hs13]|]. eapply same_trans; [apply Hs4|apply Hs5].
  - rewrite Hn5, Hn4. unfold u64_add, MaxUint64 in *. apply wrap_small; lia.
  - rewrite Hb5, Hb4. by apply (same_balance (λ _, True)).
  - done.
  - rewrite Hf5, Hf4, Hf3, Hf2, Hf1. done.
Qed.
End Transition.
End Transition.
