(* ===== verification/EvmFees.v ===== *)
(** Fees of EVM transactions: checking and deducting them before a transaction
    ([x/vm/keeper/fees.go]), refunding the gas left over after it
    ([x/vm/keeper/gas.go]), through the sends of the bank wrapper
    ([x/vm/wrappers/bank.go]). *)
From S2P Require Import Prelude GoStd AccessList Sdk EvmCoin StateDB EvmKeeper FeeMarket EvmParams EvmTx.

Definition FeeCollectorName : string := "fee_collector".
Definition ErrInvalidRefund : SdkError := ErrPlain "invalid gas refund amount".
Definition ErrOutOfGas : SdkError := ErrPlain "out of gas".

(** ** The SDK *)

(** Methods of [sdk.Coins] that only fees use. *)
Class FeeCoins := {
  cs_IsZero : Coins → bool;
  cs_Sort : Coins → Coins;
}.
Class FeeCoinsLaws `{FeeCoins} : Prop := {
  fcl_zero_nil : cs_IsZero [] = true;
  fcl_zero c : cs_IsZero [c] = (Amount c =? 0);
  fcl_sort c : cs_Sort [c] = [c];
}.

(** Sends between accounts and modules; the virtual ones postpone the module's
    side to the end of the block. *)
Class FeeBank (B Ev : Type) := {
  fb_module : string → Address;
  fb_AccountToModule : Address → string → Coins → M (sdkContext B Ev) SdkError unit;
  fb_ModuleToAccount : string → Address → Coins → M (sdkContext B Ev) SdkError unit;
  fb_AccountToModuleVirtual : Address → string → Coins → M (sdkContext B Ev) SdkError unit;
  fb_ModuleToAccountVirtual : string → Address → Coins → M (sdkContext B Ev) SdkError unit;
  fb_GetDenomMetaData : B → string → option DenomMetadata;
}.

(** [x/auth/ante]: the signer's account, and deducting fees with a given bank. *)
Class AuthAnte (A B Acct Ev : Type) := {
  GetSignerAcc : A → Address → res SdkError Acct;
  authante_DeductFees :
    (Address → string → Coins → M (sdkContext (evmStore A B) Ev) SdkError unit) →
    Address → Coins → M (sdkContext (evmStore A B) Ev) SdkError unit;
}.

(** A send of one coin moves its amount. *)
Class FeeBankLaws (A B Ev : Type) `{HB : EvmBank A B Ev, FeeBank B Ev} : Prop := {
  fbl_to_module a m d v c c' :
    fb_AccountToModule a m [mkCoin d v] c = (c', Ok tt) → ∀ x e,
    eb_GetBalance (cx_store c') x e = eb_GetBalance (cx_store c) x e
      - (if decide (x = a ∧ e = d) then v else 0)
      + (if decide (x = fb_module m ∧ e = d) then v else 0);
  fbl_from_module m a d v c c' :
    fb_ModuleToAccount m a [mkCoin d v] c = (c', Ok tt) → ∀ x e,
    eb_GetBalance (cx_store c') x e = eb_GetBalance (cx_store c) x e
      - (if decide (x = fb_module m ∧ e = d) then v else 0)
      + (if decide (x = a ∧ e = d) then v else 0);
}.
Class AuthAnteLaws (A B Acct Ev : Type) `{AuthKeeper A Acct, AuthAnte A B Acct Ev} : Prop := {
  aal_signer s a acct : GetSignerAcc (B := B) (Ev := Ev) s a = Ok acct → ak_GetAccount s a = Some acct;
  aal_deduct send a fees c c' :
    authante_DeductFees (Acct := Acct) send a fees c = (c', Ok tt) → send a FeeCollectorName fees c = (c', Ok tt);
}.

(** ** Checks without state *)

Definition CheckSenderBalance (balance cost : Z) : res SdkError unit :=
  if cost <? 0 then Err ErrInvalidCoins
  else if (balance <? 0) || (balance <? cost) then Err ErrInsufficientFunds
  else Ok tt.

Section VerifyFee.
Context {Signer : Type} `{HE : EthLib Signer}.

(** The sum with a nil base fee dereferences it; an amount over 256 bits panics
    in [NewIntFromBigInt]. *)
Definition VerifyFee (tx : Transaction) (denom : string) (baseFee : option Z)
    (homestead istanbul shanghai isCheckTx : bool) : res SdkError Coins :=
  match IntrinsicGas (tx_Data tx) (tx_AccessList tx) (tx_SetCodeAuthorizations tx)
          (bool_decide (tx_To tx = None)) homestead istanbul shanghai with
  | None => Err ErrGasUintOverflow
  | Some intrinsicGas =>
      if isCheckTx && (tx_Gas tx <? intrinsicGas) then Err ErrOutOfGas
      else
        match baseFee with
        | None => Panic "nil pointer dereference"
        | Some b =>
            if tx_GasFeeCap tx <? b then Err ErrInsufficientFee
            else
              let feeAmt := tx_Gas tx * (EffectiveGasTip tx (Some b) + b) in
              if feeAmt =? 0 then Ok []
              else if int_fits feeAmt then Ok [mkCoin denom feeAmt]
              else Panic "NewIntFromBigInt() out of bound"
        end
  end.
End VerifyFee.

(** ** Moving fees *)

Section Fees.
Context {A B Acct Ev : Type}.
Context `{HA : !AuthKeeper A Acct, HB : !EvmBank A B Ev, HCL : CoinsLib, HFC : FeeCoins,
          HFB : !FeeBank B Ev, HAA : !AuthAnte A B Acct Ev}.
Context (info : EvmCoinInfo) (virtualFeeCollection : bool).
Abbreviation KM := (M (sdkContext (evmStore A B) Ev) SdkError).

(** The sends of the bank wrapper convert the coins; the virtual ones are those of
    the embedded bank keeper and do not. *)
Definition wrapper_SendCoinsFromAccountToModule (senderAddr : Address) (recipientModule : string)
    (coins : Coins) : KM unit :=
  let convertedCoins := ConvertCoinsDenomToExtendedDenom cs_Sort info coins in
  if cs_IsZero convertedCoins then mret tt
  else EvmKeeper.bank_op (fb_AccountToModule senderAddr recipientModule convertedCoins).
Definition wrapper_SendCoinsFromModuleToAccount (senderModule : string) (recipientAddr : Address)
    (coins : Coins) : KM unit :=
  let convertedCoins := ConvertCoinsDenomToExtendedDenom cs_Sort info coins in
  if cs_IsZero convertedCoins then mret tt
  else EvmKeeper.bank_op (fb_ModuleToAccount senderModule recipientAddr convertedCoins).

(** [if err := m; err != nil { return e }]. *)
Definition fail_as {X} (m : KM X) (e : SdkError) : KM X := on_err m (λ _, mret e).

(** Virtual fee collection needs a display unit of 18 decimals. *)
Definition check_display_units (fees : Coins) : KM unit :=
  for_each fees (λ coin,
    md ← gets (λ c, fb_GetDenomMetaData (es_bank (cx_store c)) (Denom coin));
    match md with
    | None => mret tt
    | Some md =>
        for_each (md_DenomUnits md) (λ du,
          if String.eqb du.1 (eci_DisplayDenom info) && negb (du.2 =? EighteenDecimals)
          then panic "Cannot use virtual fee collection" else mret tt)
    end).
Definition DeductFees (acc : Address) (fees : Coins) : KM unit :=
  if negb (IsValid fees) then throw ErrInsufficientFee
  else
    check_display_units fees ;;
    fail_as (EvmKeeper.bank_op (fb_AccountToModuleVirtual acc FeeCollectorName fees)) ErrInsufficientFunds.

Definition DeductTxCostsFromUserBalance (fees : Coins) (from : Address) : KM unit :=
  st ← gets cx_store;
  signerAcc ← EvmKeeper.lift_res (GetSignerAcc (B := B) (Ev := Ev) (es_auth st) from);
  if virtualFeeCollection then DeductFees (GetAddress signerAcc) fees
  else authante_DeductFees (Acct := Acct) wrapper_SendCoinsFromAccountToModule (GetAddress signerAcc) fees.

(** [Keeper.RefundGas]. *)
Definition RefundGas (msg : Message) (leftoverGas : Z) (denom : string) : KM unit :=
  let remaining := leftoverGas * m_GasPrice msg in
  if remaining <? 0 then throw ErrInvalidRefund
  else if 0 <? remaining then
    amount ← int_checked remaining;
    coin ← NewCoin denom amount;
    fail_as
      (if virtualFeeCollection
       then EvmKeeper.bank_op (fb_ModuleToAccountVirtual FeeCollectorName (m_From msg) [coin])
       else wrapper_SendCoinsFromModuleToAccount FeeCollectorName (m_From msg) [coin])
      ErrInsufficientFunds
  else mret tt.
End Fees.

(** ** What the sends do *)

Section FeeLemmas.
Context {A B Acct Ev : Type}.
Context `{HA : !AuthKeeper A Acct, HB : !EvmBank A B Ev, HCL : CoinsLib, HFC : FeeCoins,
          HFB : !FeeBank B Ev, HAA : !AuthAnte A B Acct Ev}.
Context `{HAL : !EvmKeeper.AuthLaws A Acct, HFCL : !FeeCoinsLaws, HFBL : !FeeBankLaws A B Ev, HAAL : !AuthAnteLaws A B Acct Ev}.
Context (info : EvmCoinInfo).
Abbreviation store := (evmStore A B).
Implicit Types c : sdkContext store Ev.

Abbreviation balance c := (eb_GetBalance (Ev := Ev) (es_bank (cx_store c))).

(** Only the bank changes, by [v] extended coins from [x] to [y]. *)
Record paid (x y : Address) (v : Z) c c' : Prop := {
  pd_auth : es_auth (cx_store c') = es_auth (cx_store c);
  pd_codeHash : es_codeHash (cx_store c') = es_codeHash (cx_store c);
  pd_code : es_code (cx_store c') = es_code (cx_store c);
  pd_storage : es_storage (cx_store c') = es_storage (cx_store c);
  pd_balance a d : balance c' a d = balance c a d
    - (if decide (a = x ∧ d = eci_ExtendedDenom info) then v else 0)
    + (if decide (a = y ∧ d = eci_ExtendedDenom info) then v else 0);
}.

Lemma paid_nothing x y c : paid x y 0 c c.
Proof. split; [done..|]. intros a d. repeat case_decide; lia. Qed.
Lemma paid_back x y v w c1 c2 c3 : paid x y v c1 c2 → paid y x w c2 c3 → paid x y (v - w) c1 c3.
Proof.
  intros [] []. split; [congruence..|]. intros a d. rewrite pd_balance1, pd_balance0.
  repeat case_decide; lia.
Qed.

Lemma bank_op_ok {X} (m : M (sdkContext B Ev) SdkError X) c c' r :
  EvmKeeper.bank_op m c = (c', Ok r) →
  ∃ b, m (mkCtx (es_bank (cx_store c)) (cx_events c)) = (b, Ok r) ∧
    c' = mkCtx (EvmKeeper.set_bank (cx_store b) (cx_store c)) (cx_events b).
Proof.
  unfold EvmKeeper.bank_op, zoom. destruct (m _) as [b r'] eqn:Hm. intros [= <- ->]. eauto.
Qed.
Lemma converted v : ConvertCoinsDenomToExtendedDenom cs_Sort info [mkCoin (eci_Denom info) v] =
  [mkCoin (eci_ExtendedDenom info) v].
Proof.
  unfold ConvertCoinsDenomToExtendedDenom, convert_denom, ConvertEvmCoinDenomToExtendedDenom. simpl.
  rewrite String.eqb_refl. apply fcl_sort.
Qed.

Lemma wrapper_to_module_paid a m v c c' :
  wrapper_SendCoinsFromAccountToModule info a m [mkCoin (eci_Denom info) v] c = (c', Ok tt) →
  paid a (fb_module (Ev := Ev) m) v c c'.
Proof.
  unfold wrapper_SendCoinsFromAccountToModule. rewrite converted, fcl_zero. simpl.
  destruct (Z.eqb_spec v 0) as [->|Hv]; [intros [= <-]; apply paid_nothing|].
  intros (b & Hb & ->)%bank_op_ok. split; [done..|]. intros x d. simpl.
  exact (fbl_to_module _ _ _ _ _ _ Hb x d).
Qed.
Lemma wrapper_from_module_paid m a v c c' :
  wrapper_SendCoinsFromModuleToAccount info m a [mkCoin (eci_Denom info) v] c = (c', Ok tt) →
  paid (fb_module (Ev := Ev) m) a v c c'.
Proof.
  unfold wrapper_SendCoinsFromModuleToAccount. rewrite converted, fcl_zero. simpl.
  destruct (Z.eqb_spec v 0) as [->|Hv]; [intros [= <-]; apply paid_nothing|].
  intros (b & Hb & ->)%bank_op_ok. split; [done..|]. intros x d. simpl.
  exact (fbl_from_module _ _ _ _ _ _ Hb x d).
Qed.
Lemma fail_as_ok {X} (m : M (sdkContext store Ev) SdkError X) e c c' r :
  fail_as m e c = (c', Ok r) → m c = (c', Ok r).
Proof. unfold fail_as, on_err. by destruct (m c) as [c1 [x|x|x]]. Qed.

Abbreviation collector := (fb_module (Ev := Ev) FeeCollectorName).

(** Without virtual collection the fee goes from the sender to the collector. *)
Lemma DeductTxCosts_paid v from c c' :
  DeductTxCostsFromUserBalance info false [mkCoin (eci_Denom info) v] from c = (c', Ok tt) →
  paid from collector v c c'.
Proof.
  unfold DeductTxCostsFromUserBalance. intros H. bind_step H. injection Hstep as <- <-. bind_step H.
  unfold EvmKeeper.lift_res in Hstep. injection Hstep as <- Hacc.
  apply (aal_signer (B := B) (Ev := Ev)) in Hacc. rewrite (EvmKeeper.al_address _ _ _ Hacc) in H.
  apply aal_deduct in H. by apply wrapper_to_module_paid.
Qed.

(** The refund is the leftover gas at the message's price. *)
Lemma RefundGas_paid msg gas c c' :
  RefundGas info false msg gas (eci_Denom info) c = (c', Ok tt) →
  paid collector (m_From msg) (gas * m_GasPrice msg) c c'.
Proof.
  unfold RefundGas. destruct (Z.ltb_spec (gas * m_GasPrice msg) 0) as [|Hnn]; [done|].
  destruct (Z.ltb_spec 0 (gas * m_GasPrice msg)) as [Hpos|Hz].
  - intros H. bind_step H. bind_step H. apply fail_as_ok in H.
    unfold int_checked, mret, M_ret, panic in Hstep. destruct (int_fits _); [|done]. injection Hstep as <- <-.
    unfold NewCoin, mret, M_ret, panic in Hstep0. destruct (_ && _); [|done]. injection Hstep0 as <- <-.
    by apply wrapper_from_module_paid.
  - intros [= <-]. replace (gas * m_GasPrice msg) with 0 by lia. apply paid_nothing.
Qed.
End FeeLemmas.
