(* ===== verification/EvmTransaction.v ===== *)
(** Transactions and blocks of the EVM module: [ApplyTransaction] of
    [x/vm/keeper/state_transition.go] with its hooks ([hooks.go]), gas and bloom
    bookkeeping ([keeper.go]), the message server ([msg_server.go]), the block
    hooks ([abci.go]) and the history of block hashes (EIP-2935, [keeper.go]).

    A context is branched by copying its stores with an empty list of events, and
    a branch is committed by writing it back with its events, as the SDK documents
    [CacheContext].  The gas meter is shared by all branches. *)
From S2P Require Import Prelude GoStd AccessList Sdk EvmCoin LegacyDec StateDB EvmKeeper FeeMarket EvmParams EvmTx StateTransition EvmFees.

(** ** The object store *)

(** Blooms by transaction and message index, gas used by transaction index. *)
Record objStore := mkObj { ob_bloom : gmap (Z * Z) Z; ob_gasUsed : gmap Z Z }.
Abbreviation OM := (M objStore SdkError).

Definition GetTransientGasUsed (txIndex : Z) : OM Z := gets (λ o, default 0 (ob_gasUsed o !! txIndex)).
Definition SetTransientGasUsed (txIndex gasUsed : Z) : OM unit :=
  modify (λ o, mkObj (ob_bloom o) (<[txIndex := gasUsed]> (ob_gasUsed o))).
Definition AddTransientGasUsed (txIndex gasUsed : Z) : OM Z :=
  cur ← GetTransientGasUsed txIndex;
  let result := u64_add cur gasUsed in
  if result <? gasUsed then throw ErrGasOverflow
  else SetTransientGasUsed txIndex result ;; mret result.
Definition ResetTransientGasUsed : OM unit := modify (λ o, mkObj (ob_bloom o) ∅).
Definition SetTxBloom (txIndex msgIndex bloom : Z) : OM unit :=
  modify (λ o, mkObj (<[(txIndex, msgIndex) := bloom]> (ob_bloom o)) (ob_gasUsed o)).
(** The union of the block's blooms, which are removed. *)
Definition CollectTxBloom : OM Z :=
  bloom ← gets (λ o, map_fold (λ _ b acc, Z.lor acc b) 0 (ob_bloom o));
  modify (λ o, mkObj ∅ (ob_gasUsed o)) ;; mret bloom.

(** ** Blooms of logs *)

(** The parts of a log that are indexed, and [Bloom.Add] of go-ethereum. *)
Class BloomLib := {
  log_Address : Log → string;
  log_Topics : Log → list string;
  bloom_Add : Z → string → Z;
}.
Definition logsBloom `{BloomLib} (logs : list Log) : Z :=
  foldl (λ bin log, foldl bloom_Add (bloom_Add bin (log_Address log)) (log_Topics log)) 0 logs.

Definition calculateCumulativeGasFromEthResponse (meter : option GasMeter.infiniteGasMeterWithLimit)
    (res : MsgEthereumTxResponse) : Z :=
  match meter with
  | None => r_GasUsed res
  | Some m =>
      let cumulative := u64_add (r_GasUsed res) (GasMeter.consumed m) in
      if GasMeter.limit m <? cumulative then GasMeter.limit m else cumulative
  end.

(** ** Receipts and hooks *)

Record Receipt := mkReceipt {
  rc_Type : Z;
  rc_CumulativeGasUsed : Z;
  rc_Logs : list Log;
  rc_TxHash : Hash;
  rc_ContractAddress : Address;
  rc_GasUsed : Z;
  rc_Successful : bool;
}.

(** The transaction functions of go-ethereum. *)
Class TxLib (Signer : Type) := {
  TransactionToMessage : Signer → Transaction → option Z → option Message;
}.
(** [core.TransactionToMessage] recovers the sender and computes the effective
    gas price. *)
Class TxLaws (Signer : Type) `{EthLib Signer, TxLib Signer} : Prop := {
  tl_message signer tx baseFee :
    TransactionToMessage signer tx baseFee = (λ from, message_of tx from baseFee) <$> Sender signer tx;
}.

(** Events of the message server. *)
Class TxEvents (Ev : Type) := {
  ev_EthereumTx : Transaction → MsgEthereumTxResponse → Ev;
  ev_Message : string → Transaction → Ev;
  ev_BlockBloom : Z → Ev;
  ev_BaseFee : Z → Ev;
}.

Section Transactions.
Context {A B Acct Ev C D Signer : Type}.
Context `{HCr : Crypto, HA : !AuthKeeper A Acct, HB : !EvmBank A B Ev, HCL : CoinsLib, HFC : FeeCoins,
          HFB : !FeeBank B Ev, HKC : !Keeper C Ev, HS : !Snapshotter C,
          HCC : !CacheContext (evmStore A B) C, HD : DecLib D, HE : EthLib Signer, HTx : !TxLib Signer,
          HP : ParamsLib, HCfg : ChainConfig, HI : !Interpreter (evmStore A B) C Ev, HBl : BloomLib,
          HEv : !TxEvents Ev}.
Context (info : EvmCoinInfo) (virtualFeeCollection : bool).
Abbreviation store := (evmStore A B).
Abbreviation KM := (M (sdkContext store Ev) SdkError).
#[local] Instance tx_keeper : Keeper store Ev := EvmKeeper.evm_Keeper info.

(** ** The state of a transaction *)

Record txStores := mkStores { xs_ctx : sdkContext store Ev; xs_obj : objStore }.
Record txState := mkTxState { x_stores : txStores; x_meter : GasMeter.infiniteGasMeterWithLimit }.
Abbreviation TM := (M txState SdkError).

Definition on_ctx {X} : KM X → TM X :=
  zoom (λ x, xs_ctx (x_stores x)) (λ c x, mkTxState (mkStores c (xs_obj (x_stores x))) (x_meter x)).
Definition on_obj {X} : OM X → TM X :=
  zoom (λ x, xs_obj (x_stores x)) (λ o x, mkTxState (mkStores (xs_ctx (x_stores x)) o) (x_meter x)).
Definition on_meter {X} : M GasMeter.infiniteGasMeterWithLimit SdkError X → TM X :=
  zoom x_meter (λ m x, mkTxState (x_stores x) m).

(** [ctx.CacheContext()] and its commit function. *)
Definition branch (x : txStores) : txStores := mkStores (mkCtx (cx_store (xs_ctx x)) []) (xs_obj x).
Definition commitFn (tmp : txStores) : TM unit :=
  modify (λ x, mkTxState
    (mkStores (mkCtx (cx_store (xs_ctx tmp)) (cx_events (xs_ctx (x_stores x)) ++ cx_events (xs_ctx tmp)))
              (xs_obj tmp)) (x_meter x)).

(** A hook reads the receipt, may change it, and writes to the branch. *)
Abbreviation hook := (Address → Message → Receipt → M txStores SdkError Receipt).
Fixpoint MultiEvmHooks_PostTxProcessing (mh : list hook) (sender : Address) (msg : Message)
    (receipt : Receipt) : M txStores SdkError Receipt :=
  match mh with
  | [] => mret receipt
  | h :: mh' => receipt' ← h sender msg receipt; MultiEvmHooks_PostTxProcessing mh' sender msg receipt'
  end.

(** ** The history of block hashes *)

(** [params.HistoryStorageAddress]. *)
Definition HistoryStorageAddress : Address := 0x0000F90827F1C53a10cb7A02335B175320002935.
Definition history_window (p : evmParams) : Z :=
  if 0 <? ep_HistoryServeWindow p then ep_HistoryServeWindow p else DefaultHistoryServeWindow.
(** The big-endian word whose last eight bytes are the ring index. *)
Definition SetHeaderHash (p : evmParams) (height : Z) (headerHash : Hash) : KM unit :=
  st ← gets cx_store;
  acct ← EvmKeeper.lift_res (EvmKeeper.GetAccount (Ev := Ev) info st HistoryStorageAddress);
  if bool_decide (is_Some acct) && EvmKeeper.IsContract st HistoryStorageAddress
  then EvmKeeper.on_kstore (EvmKeeper.SetState HistoryStorageAddress (wrap 64 height mod history_window p) headerHash)
  else mret tt.
Definition GetHeaderHash (p : evmParams) (st : store) (height : Z) : Hash :=
  EvmKeeper.GetState st HistoryStorageAddress (height mod history_window p).

(** [computed] is the hash of the context's block header, [None] when the header
    cannot be converted. *)
Definition GetHashFn (env : blockEnv) (p : evmParams) (st : store) (computed : option Hash) (height : Z) : Hash :=
  if MaxInt64 <? height then 0
  else if be_Height env =? height then
    match be_HeaderHash env with Some h => h | None => default 0 computed end
  else if height <? be_Height env then GetHeaderHash p st height
  else 0.

(** ** Applying a transaction *)

(** [header] is the proposer of the context's block; [operator] looks the validator
    up and parses its operator address. *)
Definition GetProposerAddress (header proposer : string) : string :=
  if String.eqb proposer "" then header else proposer.
Definition GetCoinbaseAddress (header proposer : string) (operator : string → res SdkError Address) :
    res SdkError Address :=
  let proposer := GetProposerAddress header proposer in
  if String.eqb proposer "" then Ok 0 else operator proposer.
(** [EVMConfig], from the parameters, the coinbase and the base fee of the block. *)
Definition EVMConfig_ (p : evmParams) (fm : Params D) (coinbase : res SdkError Address) (baseFee : option Z) :
    res SdkError (EVMConfig D) :=
  match coinbase with
  | Ok c => Ok (mkEVMConfig p fm c baseFee)
  | Err e => Err e
  | Panic q => Panic q
  end.

Definition ErrSender : SdkError := ErrPlain "failed to return ethereum transaction as core message".
Definition PostTxFailed : string := "failed to execute post transaction processing".

Definition with_Logs (res : MsgEthereumTxResponse) (vmError : string) (logs : list Log) : MsgEthereumTxResponse :=
  mkResponse (r_GasUsed res) (r_MaxUsedGas res) vmError (r_Ret res) logs (r_Hash res)
    (r_BlockHash res) (r_BlockTimestamp res).

(** The message on a branch of the context; a returned log sets the bloom. *)
Definition run_message (env : blockEnv) (cfg : EVMConfig D) (computed : option Hash) (tx : Transaction)
    (msg : Message) : M txStores SdkError MsgEthereumTxResponse := λ tmp,
  let getHash := GetHashFn env (cfg_Params cfg) (cx_store (xs_ctx tmp)) computed in
  match ApplyMessageWithConfig env getHash msg true false cfg (tx_Hash tx) false None
          (New (xs_ctx tmp) (be_TxIndex env) : StateDB store C Ev) with
  | (db, r) => (mkStores (sdb_ctx db) (xs_obj tmp), r)
  end.
Definition set_bloom (env : blockEnv) (logs : list Log) (tmp : txStores) : txStores :=
  if 0 <? Z.of_nat (length logs)
  then mkStores (xs_ctx tmp) (fst (SetTxBloom (be_TxIndex env) (be_MsgIndex env) (logsBloom logs) (xs_obj tmp)))
  else tmp.
Definition receipt_of (meter : GasMeter.infiniteGasMeterWithLimit) (tx : Transaction) (msg : Message)
    (res : MsgEthereumTxResponse) : Receipt :=
  mkReceipt (tx_Type tx) (calculateCumulativeGasFromEthResponse (Some meter) res) (r_Logs res)
    (tx_Hash tx)
    (match m_To msg with None => CreateAddress (m_From msg) (m_Nonce msg) | Some _ => 0 end)
    (r_GasUsed res) (negb (Failed res)).

(** Commit the branch, or run the hooks on it first. *)
Definition post_process (hooks : option (list hook)) (signerAddr : Address) (msg : Message)
    (receipt : Receipt) (res : MsgEthereumTxResponse) (tmp : txStores) : TM MsgEthereumTxResponse :=
  match hooks with
  | None => when (negb (Failed res)) (commitFn tmp) ;; mret res
  | Some mh =>
      match MultiEvmHooks_PostTxProcessing mh signerAddr msg receipt tmp with
      | (tmp', Ok receipt') =>
          commitFn tmp' ;;
          mret (with_Logs res (r_VmError res) (if Failed res then [] else rc_Logs receipt'))
      | (_, Err _) => mret (with_Logs res PostTxFailed [])
      | (_, Panic p) => panic p
      end
  end.

Definition ApplyTransaction (env : blockEnv) (cfgr : res SdkError (EVMConfig D)) (computed : option Hash)
    (signer : Signer) (hooks : option (list hook)) (tx : Transaction) : TM MsgEthereumTxResponse :=
  cfg ← return_res cfgr;
  match TransactionToMessage signer tx (cfg_BaseFee cfg) with
  | None => throw ErrSender
  | Some msg =>
      stores ← gets x_stores;
      meter ← gets x_meter;
      match run_message env cfg computed tx msg (branch stores) with
      | (_, Err e) => on_meter (GasMeter.ResetGasMeterAndConsumeGas (GasMeter.limit meter)) ;; throw e
      | (_, Panic p) => panic p
      | (tmp, Ok res) =>
          let tmp := set_bloom env (r_Logs res) tmp in
          let receipt := receipt_of meter tx msg res in
          let tmp := if Failed res then branch stores else tmp in
          match Sender signer tx with
          | None => throw ErrSender
          | Some signerAddr =>
              res' ← post_process hooks signerAddr msg receipt res tmp;
              let remainingGas := if r_GasUsed res <? m_GasLimit msg then m_GasLimit msg - r_GasUsed res else 0 in
              on_ctx (RefundGas info virtualFeeCollection msg remainingGas (eci_Denom info)) ;;
              totalGasUsed ← on_obj (AddTransientGasUsed (be_TxIndex env) (r_GasUsed res));
              on_meter (GasMeter.ResetGasMeterAndConsumeGas totalGasUsed) ;;
              mret res'
          end
      end
  end.

(** ** The message server *)

Definition emit (es : list Ev) : TM unit :=
  on_ctx (modify (λ c, mkCtx (cx_store c) (cx_events c ++ es))).
Definition EthereumTx (env : blockEnv) (cfgr : res SdkError (EVMConfig D)) (computed : option Hash)
    (signer : Signer) (hooks : option (list hook)) (msg : MsgEthereumTx) : TM MsgEthereumTxResponse :=
  match msg_Raw msg with
  | None => panic "nil pointer dereference"
  | Some tx =>
      response ← ApplyTransaction env cfgr computed signer hooks tx;
      emit [ev_EthereumTx tx response; ev_Message (msg_From msg) tx] ;;
      mret response
  end.

(** ** Blocks *)

(** [baseFee] is what the base fee query answers. *)
Definition BeginBlock (p : evmParams) (env : blockEnv) (baseFee : option Z) : TM unit :=
  match baseFee with Some b => emit [ev_BaseFee b] | None => mret tt end ;;
  on_ctx (SetHeaderHash p (be_Height env) (default 0 (be_HeaderHash env))).
Definition EndBlock : TM unit :=
  bloom ← on_obj CollectTxBloom;
  emit [ev_BlockBloom bloom] ;;
  on_obj ResetTransientGasUsed.
End Transactions.
