(* ===== verification/Ante.v ===== *)
(** The ante handler of Ethereum transactions ([ante/evm]): one decorator that
    validates the transaction, checks its fees and its sender, deducts the fees
    and increments the sender's nonce.

    A Cosmos transaction is the record of what the handler reads of it; go-ethereum's
    [txpool.ValidateTransaction] is a parameter. *)
From S2P Require Import Prelude GoStd AccessList Sdk EvmCoin LegacyDec StateDB EvmKeeper FeeMarket EvmParams EvmTx StateTransition EvmFees.

(** ** Cosmos transactions *)

(** Messages: [MsgExec] and [MsgGrant] of x/authz, whose contents may fail to
    unpack, and any other message by its type URL. *)
Unset Elimination Schemes.
Inductive sdkMsg :=
| EthMsg (msg : MsgEthereumTx)
| MsgExec (inner : option (list sdkMsg))
| MsgGrant (authorization : option string)
| OtherMsg (url : string).
Set Elimination Schemes.

Record sdkFee := mkFee {
  fee_Amount : Coins;
  fee_GasLimit : Z;
  fee_Payer : string;
  fee_Granter : string;
}.

(** [st_ValidateBasic] is the error of [ValidateBasic], when there is one; lists
    whose elements are not read are given by their length. *)
Record sdkTx := mkSdkTx {
  st_ValidateBasic : option SdkError;
  st_IsProtoTx : bool;
  st_Memo : string;
  st_TimeoutHeight : Z;
  st_NonCriticalExtensionOptions : Z;
  st_ExtensionOptions : Z;
  st_SignerInfos : Z;
  st_Fee : option sdkFee;
  st_HasTip : bool;
  st_Signatures : Z;
  st_IsGasTx : bool;
  st_Msgs : list sdkMsg;
}.

Definition ErrNoSignatures : SdkError := ErrPlain "no signatures supplied".
Definition ErrUnknownRequest : SdkError := ErrPlain "unknown request".
Definition ErrInvalidType : SdkError := ErrPlain "invalid type".
Definition ErrInvalidBaseFee : SdkError := ErrPlain "invalid base fee".
Definition ErrCreateDisabled : SdkError := ErrPlain "EVM Create operation is disabled".
Definition ErrCallDisabled : SdkError := ErrPlain "EVM Call operation is disabled".
Definition ErrorInvalidSigner : SdkError := ErrPlain "tx intended signer does not match the given signer".
Definition ErrNonceGap : SdkError := ErrPlain "nonce gap".
Definition ErrNonceLow : SdkError := ErrPlain "nonce low".
Definition ErrInvalidSequence : SdkError := ErrPlain "invalid sequence".

(** ** Checks without state *)

Definition validate_basic (tx : sdkTx) : verdict :=
  match st_ValidateBasic tx with
  | Some err => if bool_decide (err = ErrNoSignatures) then accept else Err err
  | None => accept
  end.
(** The fields that a signature over the Ethereum transaction does not cover. *)
Definition validate_fields (tx : sdkTx) : res SdkError sdkFee :=
  if negb (st_IsProtoTx tx) then Err ErrUnknownRequest
  else if negb (String.eqb (st_Memo tx) "") || negb (st_TimeoutHeight tx =? 0)
          || (0 <? st_NonCriticalExtensionOptions tx)
  then Err (ErrInvalidRequest "for eth tx body Memo TimeoutHeight NonCriticalExtensionOptions should be empty")
  else if negb (st_ExtensionOptions tx =? 1)
  then Err (ErrInvalidRequest "for eth tx length of ExtensionOptions should be 1")
  else if 0 <? st_SignerInfos tx
  then Err (ErrInvalidRequest "for eth tx AuthInfo SignerInfos should be empty")
  else
    match st_Fee tx with
    | None => Err (ErrInvalidRequest "authInfo.Fee should not be nil")
    | Some fee =>
        if negb (String.eqb (fee_Payer fee) "") || negb (String.eqb (fee_Granter fee) "")
        then Err (ErrInvalidRequest "for eth tx AuthInfo Fee payer and granter should be empty")
        else if st_HasTip tx then Err (ErrInvalidRequest "authInfo.Tip must be nil")
        else if 0 <? st_Signatures tx
        then Err (ErrInvalidRequest "for eth tx Signatures should be empty")
        else Ok fee
    end.
Definition ValidateTx (tx : sdkTx) : res SdkError sdkFee :=
  match validate_basic tx with
  | Ok _ => validate_fields tx
  | Err err => Err err
  | Panic p => Panic p
  end.

Definition checkDisabledCreateCall (tx : Transaction) (permissions : AccessControl) : verdict :=
  let blockCreate := act_AccessType (ac_Create permissions) =? AccessTypeRestricted in
  let blockCall := act_AccessType (ac_Call permissions) =? AccessTypeRestricted in
  match tx_To tx with
  | None => if blockCreate then Err ErrCreateDisabled else accept
  | Some _ => if blockCall then Err ErrCallDisabled else accept
  end.
Definition ValidateMsg (p : evmParams) (tx : Transaction) : verdict :=
  checkDisabledCreateCall tx (ep_AccessControl p).

Section Checks.
Context {D S : Type} `{HD : DecLib D}.

Definition CheckMempoolFee (fee mempoolMinGasPrice gasLimit : D) (isLondon : bool) : M S SdkError unit :=
  if isLondon then mret tt
  else
    requiredFee ← dec_op (dec_Mul mempoolMinGasPrice gasLimit);
    if dec_LT fee requiredFee then throw ErrInsufficientFee else mret tt.
Definition CheckGlobalFee (fee : D) (globalMinGasPrice : option D) (gasLimit : D) : M S SdkError unit :=
  globalMinGasPrice ← non_nil globalMinGasPrice;
  if dec_IsZero globalMinGasPrice then mret tt
  else
    requiredFee ← dec_op (dec_Mul globalMinGasPrice gasLimit);
    if dec_LT fee requiredFee then throw ErrInsufficientFee else mret tt.
End Checks.

Definition UpdateCumulativeGasWanted (isCheckTx : bool) (msgGasWanted maxTxGasWanted cumulativeGasWanted : Z) : Z :=
  if isCheckTx && negb (maxTxGasWanted =? 0) then
    if maxTxGasWanted <? msgGasWanted then u64_add cumulativeGasWanted maxTxGasWanted
    else u64_add cumulativeGasWanted msgGasWanted
  else u64_add cumulativeGasWanted msgGasWanted.

(** The context's new gas meter and priority. *)
Definition CheckBlockGasLimit (maxGas : option Z) (gasWanted minPriority : Z) :
    res SdkError (GasMeter.infiniteGasMeterWithLimit * Z) :=
  if BlockGasLimit maxGas <? gasWanted then Err ErrOutOfGas
  else Ok (GasMeter.NewInfiniteGasMeterWithLimit gasWanted, minPriority).

(** [CheckGasWanted] of the gas wanted decorator, for a fee transaction. *)
Definition CheckGasWanted (isLondon isFeeTx : bool) (gasWanted : Z) (maxGas : option Z) : verdict :=
  if negb isLondon then accept
  else if negb isFeeTx then accept
  else if BlockGasLimit maxGas <? gasWanted then Err ErrOutOfGas
  else accept.

Section SignerChecks.
Context {Signer : Type} `{HE : EthLib Signer, HCL : CoinsLib}.

Definition GetMsgPriority (tx : Transaction) (minPriority : Z) (baseFee : option Z) : Z :=
  let priority := GetTxPriority tx baseFee in
  if priority <? minPriority then priority else minPriority.

Definition SignatureVerification (msg : MsgEthereumTx) (tx : Transaction) (signer : Signer) : verdict :=
  match VerifySender signer msg tx with
  | Err _ => Err ErrorInvalidSigner
  | r => r
  end.

(** A nil fee is that of a recheck, which does not validate again. *)
Definition CheckTxFee {S} (info : EvmCoinInfo) (txFeeInfo : option sdkFee) (txFee txGasLimit : Z) :
    M S SdkError unit :=
  match txFeeInfo with
  | None => mret tt
  | Some fee =>
      expected ← int_checked txFee;
      if negb (AmountOf (fee_Amount fee) (eci_ExtendedDenom info) =? expected)
      then throw (ErrInvalidRequest "invalid AuthInfo Fee Amount")
      else if negb (fee_GasLimit fee =? txGasLimit)
      then throw (ErrInvalidRequest "invalid AuthInfo Fee GasLimit")
      else mret tt
  end.
End SignerChecks.

(** ** The handler *)

(** What is read of the context: the block, the mode, and the node's minimum gas
    price of the EVM coin. *)
Record anteEnv (D : Type) := mkAnteEnv {
  ae_env : blockEnv;
  ae_IsCheckTx : bool;
  ae_IsReCheckTx : bool;
  ae_MinGasPrice : D;
}.
Arguments mkAnteEnv {D}.
Arguments ae_env {D}.
Arguments ae_IsCheckTx {D}.
Arguments ae_IsReCheckTx {D}.
Arguments ae_MinGasPrice {D}.

(** [txpool.ValidateTransaction] with a header of the given gas limit, base fee,
    number and time; and [ethtypes.MakeSigner]. *)
Class AnteLib (Signer : Type) := {
  ValidateTransaction : Transaction → Z → option Z → Z → Z → Signer → verdict;
  MakeSigner : Z → Z → Signer;
}.
Class AnteEvents (Ev : Type) := {
  ev_Fee : Coins → Ev;
  ev_TxHash : Hash → Z → Ev;
}.

Record DecoratorUtils (D Signer : Type) := mkUtils {
  du_Rules : VmRules;
  du_Signer : Signer;
  du_BaseFee : option Z;
  du_MempoolMinGasPrice : D;
  du_GlobalMinGasPrice : option D;
}.
Arguments mkUtils {D Signer}.
Arguments du_Rules {D Signer}.
Arguments du_Signer {D Signer}.
Arguments du_BaseFee {D Signer}.
Arguments du_MempoolMinGasPrice {D Signer}.
Arguments du_GlobalMinGasPrice {D Signer}.

Section AnteHandle.
Context {A B Acct Ev D Signer : Type}.
Context `{HCr : Crypto, HA : !AuthKeeper A Acct, HB : !EvmBank A B Ev, HCL : CoinsLib, HFC : FeeCoins,
          HFB : !FeeBank B Ev, HAA : !AuthAnte A B Acct Ev, HD : DecLib D, HE : EthLib Signer,
          HAL : !AnteLib Signer, HCfg : ChainConfig, HEv : !AnteEvents Ev}.
Context (info : EvmCoinInfo) (virtualFeeCollection : bool).
Context (maxGasWanted : Z) (params : evmParams) (feemarketParams : Params D).
Abbreviation store := (evmStore A B).
Abbreviation KM := (M (sdkContext store Ev) SdkError).

Definition NewMonoDecoratorUtils (env : anteEnv D) : KM (DecoratorUtils D Signer) :=
  let height := be_Height (ae_env env) in
  let time := be_Time (ae_env env) in
  let rules := cc_Rules height time in
  baseFee ← EvmTx.GetBaseFee (cc_IsLondon height) (eci_Decimals info) feemarketParams;
  if vr_IsLondon rules && bool_decide (baseFee = None) then throw ErrInvalidBaseFee
  else
    mempoolMinGasPrice ← ConvertAmountTo18DecimalsLegacy (eci_Decimals info) (ae_MinGasPrice env);
    mret (mkUtils rules (MakeSigner height time) baseFee mempoolMinGasPrice (p_MinGasPrice feemarketParams)).

(** The account is created when there is none. *)
Definition VerifyAccountBalance (account : option EvmKeeper.account) (from : Address) (tx : Transaction) : KM unit :=
  st ← gets cx_store;
  let code := match account with
              | Some acct => if IsEmptyCodeHash (EvmKeeper.ka_CodeHash acct) then None
                             else EvmKeeper.GetCode st (EvmKeeper.ka_CodeHash acct)
              | None => None
              end in
  let code := default ""%string code in
  if (0 <? Z.of_nat (String.length code)) && negb (ParseDelegation code) then throw ErrInvalidType
  else
    balance ← match account with
              | Some acct => non_nil (EvmKeeper.ka_Balance acct)
              | None =>
                  modify (λ c, let '(auth, acc) := ak_NewAccountWithAddress from (es_auth (cx_store c)) in
                               mkCtx (EvmKeeper.set_auth (ak_SetAccount acc auth) (cx_store c)) (cx_events c)) ;;
                  mret 0
              end;
    EvmKeeper.lift_res (CheckSenderBalance balance (tx_Cost tx)).

(** The sender's account is dereferenced when a value is transferred. *)
Definition CanTransfer (msg : Message) (baseFee : option Z) (isLondon : bool) : KM unit :=
  tooLow ← (if isLondon then b ← non_nil baseFee; mret (m_GasFeeCap msg <? b) else mret false);
  if tooLow : bool then throw ErrInsufficientFee
  else
    match Uint256FromBigInt (m_Value msg) with
    | None => throw ErrValueConversion
    | Some convertedValue =>
        if 0 <? m_Value msg then
          st ← gets cx_store;
          account ← EvmKeeper.lift_res (EvmKeeper.GetAccount (Ev := Ev) info st (m_From msg));
          account ← non_nil account;
          balance ← non_nil (EvmKeeper.ka_Balance account);
          if balance <? convertedValue then throw ErrInsufficientFunds else mret tt
        else mret tt
    end.

Definition emit_event (e : Ev) : KM unit := modify (λ c, mkCtx (cx_store c) (cx_events c ++ [e])).
Definition deductFees (fees : Coins) (feePayer : Address) : KM unit :=
  if cs_IsZero fees then mret tt
  else DeductTxCostsFromUserBalance (Acct := Acct) info virtualFeeCollection fees feePayer.
Definition ConsumeFeesAndEmitEvent (fees : Coins) (from : Address) : KM unit :=
  deductFees fees from ;; emit_event (ev_Fee fees).

Definition IncrementNonce (account : Acct) (txNonce : Z) : KM unit :=
  let accountNonce := GetSequence account in
  if accountNonce <? txNonce then throw ErrNonceGap
  else if txNonce <? accountNonce then throw ErrNonceLow
  else if accountNonce =? MaxUint64 then throw ErrInvalidSequence
  else
    account' ← EvmKeeper.lift_res (SetSequence (accountNonce + 1) account);
    modify (λ c, mkCtx (EvmKeeper.set_auth (ak_SetAccount account' (es_auth (cx_store c))) (cx_store c)) (cx_events c)).

(** The single message of the transaction, with its raw transaction. *)
Definition UnpackEthMsg (msg : sdkMsg) : res SdkError (MsgEthereumTx * Transaction) :=
  match msg with
  | EthMsg m => match msg_Raw m with Some tx => Ok (m, tx) | None => Panic "nil pointer dereference" end
  | _ => Err ErrUnknownRequest
  end.

(** Steps 2 to 4: the fee must cover the node's price before London and the
    global minimum always. *)
Definition check_fees (env : anteEnv D) (simulate : bool) (utils : DecoratorUtils D Signer) (tx : Transaction) :
    KM unit :=
  let fee := NewDecFromInt (GetFee tx) in
  let gasLimit := NewDecFromInt (tx_Gas tx) in
  when (ae_IsCheckTx env && negb simulate)
    (CheckMempoolFee fee (du_MempoolMinGasPrice utils) gasLimit (vr_IsLondon (du_Rules utils))) ;;
  let fee := match du_BaseFee utils with
             | Some b => if DynamicFeeTxType <=? tx_Type tx then NewDecFromInt (GetEffectiveFee tx b) else fee
             | None => fee
             end in
  CheckGlobalFee fee (du_GlobalMinGasPrice utils) gasLimit.

(** Steps 5 to 8: the signature, the sender's account and balance, and the fees. *)
Definition check_sender (env : anteEnv D) (utils : DecoratorUtils D Signer) (msg : MsgEthereumTx) (tx : Transaction) :
    KM unit :=
  return_res (SignatureVerification msg tx (du_Signer utils)) ;;
  let fromAddr := GetSender msg in
  st ← gets cx_store;
  account ← EvmKeeper.lift_res (EvmKeeper.GetAccount (Ev := Ev) info st fromAddr);
  VerifyAccountBalance account fromAddr tx ;;
  CanTransfer (AsMessage msg tx (du_BaseFee utils)) (du_BaseFee utils) (vr_IsLondon (du_Rules utils)) ;;
  msgFees ← return_res (VerifyFee tx (eci_Denom info) (du_BaseFee utils) (vr_IsHomestead (du_Rules utils))
                          (vr_IsIstanbul (du_Rules utils)) (IsShanghai (vr_Rules (du_Rules utils))) (ae_IsCheckTx env));
  ConsumeFeesAndEmitEvent msgFees fromAddr.

(** Step 9: the sender's sequence. *)
Definition increment_sequence (from : Address) (tx : Transaction) : KM unit :=
  acc ← gets (λ c, ak_GetAccount (es_auth (cx_store c)) from);
  match acc with
  | None => throw ErrUnknownAddress
  | Some acc => IncrementNonce acc (tx_Nonce tx)
  end.

(** The handler, up to the next one, to which it passes the context with the
    returned gas meter and priority. *)
Definition AnteHandle (env : anteEnv D) (simulate : bool) (tx : sdkTx) :
    KM (GasMeter.infiniteGasMeterWithLimit * Z) :=
  txFeeInfo ← (if ae_IsReCheckTx env then mret None else Some <$> return_res (ValidateTx tx));
  (if negb (st_IsGasTx tx) then throw ErrInvalidType else mret tt) ;;
  utils ← NewMonoDecoratorUtils env;
  match st_Msgs tx with
  | [m] =>
      '(ethMsg, ethTx) ← return_res (UnpackEthMsg m);
      return_res (ValidateTransaction ethTx (tx_Gas ethTx) (du_BaseFee utils) (be_Height (ae_env env))
                    (be_Time (ae_env env)) (du_Signer utils)) ;;
      check_fees env simulate utils ethTx ;;
      return_res (ValidateMsg params ethTx) ;;
      check_sender env utils ethMsg ethTx ;;
      let gasWanted := UpdateCumulativeGasWanted (ae_IsCheckTx env) (tx_Gas ethTx) maxGasWanted 0 in
      let minPriority := GetMsgPriority ethTx MaxInt64 (du_BaseFee utils) in
      increment_sequence (GetSender ethMsg) ethTx ;;
      emit_event (ev_TxHash (tx_Hash ethTx) (be_TxIndex (ae_env env))) ;;
      CheckTxFee info txFeeInfo (GetFee ethTx) (tx_Gas ethTx) ;;
      return_res (CheckBlockGasLimit (be_MaxGas (ae_env env)) gasWanted minPriority)
  | _ => throw (ErrInvalidRequest "expected 1 message")
  end.
End AnteHandle.
