(* ===== verification/AnteProps.v ===== *)
(** What the steps of the ante handler do to the stores, and what a transaction
    it accepts satisfies. *)
From S2P Require Import Prelude GoStd AccessList Sdk EvmCoin StateDB EvmKeeper LegacyDec FeeMarket EvmTx EvmParams StateTransition EvmFees Ante.

Section AnteLemmas.
Context {A B Acct Ev D Signer : Type}.
Context `{HCr : Crypto, HA : !AuthKeeper A Acct, HB : !EvmBank A B Ev, HCL : CoinsLib, HFC : FeeCoins,
          HFB : !FeeBank B Ev, HAA : !AuthAnte A B Acct Ev, HD : DecLib D, HE : EthLib Signer,
          HAL : !AnteLib Signer, HCfg : ChainConfig, HEv : !AnteEvents Ev}.
Context `{HAuL : !EvmKeeper.AuthLaws A Acct, HFCL : !FeeCoinsLaws, HFBL : !FeeBankLaws A B Ev,
          HAAL : !AuthAnteLaws A B Acct Ev, HEL : !EthLaws Signer}.
Context (info : EvmCoinInfo).
Abbreviation store := (evmStore A B).
Abbreviation KM := (M (sdkContext store Ev) SdkError).
Implicit Types c : sdkContext store Ev.
Abbreviation balance c := (eb_GetBalance (Ev := Ev) (es_bank (cx_store c))).
Abbreviation collector := (fb_module (Ev := Ev) FeeCollectorName).
Abbreviation account c := (ak_GetAccount (es_auth (cx_store c))).



(** *** The steps *)







End AnteLemmas.

(** Properties of the ante handler of Ethereum transactions. *)


Module AnteProps.
Section AnteProps.
Context {A B Acct Ev D Signer : Type}.
Context `{HCr : Crypto, HA : !AuthKeeper A Acct, HB : !EvmBank A B Ev, HCL : CoinsLib, HFC : FeeCoins,
          HFB : !FeeBank B Ev, HAA : !AuthAnte A B Acct Ev, HD : DecLib D, HE : EthLib Signer,
          HAL : !AnteLib Signer, HCfg : ChainConfig, HEv : !AnteEvents Ev}.
Context `{HAuL : !EvmKeeper.AuthLaws A Acct, HFCL : !FeeCoinsLaws, HFBL : !FeeBankLaws A B Ev,
          HAAL : !AuthAnteLaws A B Acct Ev, HEL : !EthLaws Signer}.
Context (info : EvmCoinInfo) (maxGasWanted : Z) (params : evmParams) (feemarketParams : Params D).
Abbreviation store := (evmStore A B).
Implicit Types (c : sdkContext store Ev) (env : anteEnv D).
Abbreviation handle := (AnteHandle info false maxGasWanted params feemarketParams).
Abbreviation account c := (ak_GetAccount (es_auth (cx_store c))).






End AnteProps.
End AnteProps.
