(* ===== verification/EvmTransactionProps.v ===== *)
(** Properties of transactions and blocks: atomicity, what a failed transaction
    costs, and the history of block hashes. *)
From S2P Require Import Prelude GoStd AccessList Sdk EvmCoin StateDB EvmKeeper LegacyDec FeeMarket EvmTx EvmParams StateTransition EvmFees EvmTransaction Ante AnteProps.

Module TxProps.
Section TxProps.
Context {A B Acct Ev C D Signer : Type}.
Context `{HCr : Crypto, HA : !AuthKeeper A Acct, HB : !EvmBank A B Ev, HCL : CoinsLib, HFC : FeeCoins,
          HFB : !FeeBank B Ev, HAA : !AuthAnte A B Acct Ev, HKC : !Keeper C Ev, HS : !Snapshotter C,
          HCC : !CacheContext (evmStore A B) C, HD : DecLib D, HE : EthLib Signer, HTx : !TxLib Signer,
          HP : ParamsLib, HCfg : ChainConfig, HI : !Interpreter (evmStore A B) C Ev, HBl : BloomLib,
          HEv : !TxEvents Ev, HAL : !AnteLib Signer, HAEv : !AnteEvents Ev}.
Context (info : EvmCoinInfo).
Abbreviation store := (evmStore A B).
Abbreviation state := (txState (A := A) (B := B) (Ev := Ev)).
Implicit Types x : state.
Abbreviation apply_tx := (ApplyTransaction (A := A) (B := B) (Ev := Ev) (C := C) (D := D) info).
Abbreviation run_msg := (run_message (A := A) (B := B) (Ev := Ev) (C := C) (D := D) info).

(** The transaction's own context. *)
Abbreviation ctx x := (xs_ctx (x_stores x)).

Lemma on_ctx_ok {X} (m : M (sdkContext store Ev) SdkError X) x x' r :
  on_ctx m x = (x', Ok r) → m (ctx x) = (ctx x', Ok r) ∧ xs_obj (x_stores x') = xs_obj (x_stores x).
Proof. unfold on_ctx, zoom. destruct (m _) as [c r']. by intros [= <- ->]. Qed.
Lemma on_obj_ok {X} (m : OM X) x x' r :
  on_obj m x = (x', Ok r) → ctx x' = ctx x ∧ m (xs_obj (x_stores x)) = (xs_obj (x_stores x'), Ok r).
Proof. unfold on_obj, zoom. destruct (m _) as [c r']. by intros [= <- ->]. Qed.
Lemma on_meter_ok {X} (m : M GasMeter.infiniteGasMeterWithLimit SdkError X) x x' r :
  on_meter m x = (x', Ok r) → x_stores x' = x_stores x.
Proof. unfold on_meter, zoom. destruct (m _) as [c r']. by intros [= <- _]. Qed.

Lemma post_process_gas hooks signerAddr msg receipt res (tmp : txStores) x x1 res' :
  post_process hooks signerAddr msg receipt res tmp x = (x1, Ok res') → r_GasUsed res' = r_GasUsed res.
Proof.
  unfold post_process. destruct hooks as [mh|].
  - destruct (MultiEvmHooks_PostTxProcessing _ _ _ _ _) as [t [rc|e|p]]; [|by intros [= _ <-]|done].
    intros H. bind_step H. by injection H as _ <-.
  - intros H. bind_step H. by injection H as _ <-.
Qed.

Lemma ApplyTransaction_inv virtual env cfg computed signer hooks tx x x' res :
  apply_tx virtual env (Ok cfg) computed signer hooks tx x = (x', Ok res) →
  ∃ msg tmp r signerAddr x1,
    TransactionToMessage signer tx (cfg_BaseFee cfg) = Some msg ∧
    Sender signer tx = Some signerAddr ∧
    run_msg env cfg computed tx msg (branch (x_stores x)) = (tmp, Ok r) ∧
    post_process hooks signerAddr msg (receipt_of (x_meter x) tx msg r) r
      (if Failed r then branch (x_stores x) else set_bloom env (r_Logs r) tmp) x = (x1, Ok res) ∧
    RefundGas info virtual msg (if r_GasUsed r <? m_GasLimit msg then m_GasLimit msg - r_GasUsed r else 0)
      (eci_Denom info) (ctx x1) = (ctx x', Ok tt) ∧
    ob_bloom (xs_obj (x_stores x')) = ob_bloom (xs_obj (x_stores x1)) ∧ r_GasUsed res = r_GasUsed r.
Proof.
  unfold ApplyTransaction. intros H. bind_step H. injection Hstep as <- <-.
  destruct (TransactionToMessage _ _ _) as [msg|] eqn:Hmsg; [|done].
  bind_step H. injection Hstep as <- <-. bind_step H. injection Hstep as <- <-.
  destruct (run_msg _ _ _ _ _ _) as [tmp [r|e|p]] eqn:Hrun; [| |done].
  2: { bind_step H. discriminate H. }
  destruct (Sender signer tx) as [signerAddr|] eqn:Hs; [|done].
  bind_step H. rename Hstep into Hpost. bind_step H. destruct x1. apply on_ctx_ok in Hstep as [Href Hobj1].
  bind_step H. apply on_obj_ok in Hstep as [Hctx Hobj2]. bind_step H. apply on_meter_ok in Hstep as Hm.
  injection H as <- <-. exists msg, tmp, r, signerAddr, s. split_and!; try done.
  - by rewrite Hm, Hctx.
  - rewrite Hm, <- Hobj1. revert Hobj2. unfold AddTransientGasUsed, GetTransientGasUsed, SetTransientGasUsed. run_M.
    destruct (u64_add _ _ <? _); [done|]. by intros [= <- _].
  - by eapply post_process_gas.
Qed.
Lemma set_bloom_store env logs (tmp : txStores (A := A) (B := B) (Ev := Ev)) :
  cx_store (xs_ctx (set_bloom env logs tmp)) = cx_store (xs_ctx tmp).
Proof. unfold set_bloom. by destruct (0 <? Z.of_nat (length logs)). Qed.

(** C40: a transaction is atomic.  When the message cannot be applied nothing is
    written and the whole gas limit is consumed.  When it is applied, what remains
    in the stores before the gas refund is: without hooks, the result of a message
    that succeeded and nothing of one that failed; with hooks, what they leave on
    top of that; and, when a hook fails, nothing at all, and the response reports
    the failure and has no logs. *)
Theorem transaction_is_atomic virtual env cfg computed signer hooks tx x :
  0 ≤ GasMeter.limit (x_meter x) ≤ MaxUint64 →
  (∀ msg tmp e, TransactionToMessage signer tx (cfg_BaseFee cfg) = Some msg →
     run_msg env cfg computed tx msg (branch (x_stores x)) = (tmp, Err e) →
     apply_tx virtual env (Ok cfg) computed signer hooks tx x =
       (mkTxState (x_stores x) (GasMeter.mkMeter (GasMeter.limit (x_meter x)) (GasMeter.limit (x_meter x))), Err e)) ∧
  (∀ x' res, apply_tx virtual env (Ok cfg) computed signer hooks tx x = (x', Ok res) →
     ∃ msg tmp r from x1,
       run_msg env cfg computed tx msg (branch (x_stores x)) = (tmp, Ok r) ∧
       RefundGas info virtual msg (if r_GasUsed r <? m_GasLimit msg then m_GasLimit msg - r_GasUsed r else 0)
         (eci_Denom info) (ctx x1) = (ctx x', Ok tt) ∧
       match hooks with
       | None => res = r ∧ if Failed r then x_stores x1 = x_stores x
                           else cx_store (ctx x1) = cx_store (xs_ctx tmp)
       | Some mh =>
           match MultiEvmHooks_PostTxProcessing mh from msg (receipt_of (x_meter x) tx msg r)
                   (if Failed r then branch (x_stores x) else set_bloom env (r_Logs r) tmp) with
           | (t, Ok _) => cx_store (ctx x1) = cx_store (xs_ctx t)
           | _ => x_stores x1 = x_stores x ∧ Failed res = true ∧ r_Logs res = []
           end
       end).
Proof.
  intros Hlim. split.
  - intros msg tmp e Hmsg Hrun. unfold ApplyTransaction, return_res, gets, mbind, M_bind.
    rewrite Hmsg, Hrun. unfold on_meter, zoom.
    by rewrite GasMeter.ResetGasMeterAndConsumeGas_run.
  - intros x' res (msg & tmp & r & from & x1 & _ & _ & Hrun & Hpost & Href & _ & _)%ApplyTransaction_inv.
    exists msg, tmp, r, from, x1. split; [done|]. split; [done|]. unfold post_process in Hpost.
    destruct hooks as [mh|].
    + destruct (MultiEvmHooks_PostTxProcessing _ _ _ _ _) as [t [rc|e|p]] eqn:Hh.
      * bind_step Hpost. injection Hstep as <- _. injection Hpost as <- _. done.
      * injection Hpost as <- <-. done.
      * discriminate Hpost.
    + bind_step Hpost. injection Hpost as -> <-. destruct x0. apply when_ok in Hstep. split; [done|].
      destruct (Failed r); cbn [negb] in Hstep; [by subst|]. injection Hstep as <-. apply set_bloom_store.
Qed.

Context `{HAuL : !EvmKeeper.AuthLaws A Acct, HFCL : !FeeCoinsLaws, HFBL : !FeeBankLaws A B Ev,
          HAAL : !AuthAnteLaws A B Acct Ev, HEL : !EthLaws Signer, HTL : !TxLaws Signer}.


End TxProps.
End TxProps.
