(* ===== verification/EvmHistory.v ===== *)
(** The history of block hashes that the BLOCKHASH opcode reads (EIP-2935): every
    block records its hash in a ring of storage slots of the history contract. *)
From S2P Require Import Prelude GoStd AccessList Sdk EvmCoin StateDB EvmKeeper FeeMarket EvmParams EvmTx StateTransition EvmTransaction.

Module History.
Section History.
Context {A B Acct Ev Signer : Type}.
Context `{HCr : Crypto, HA : !AuthKeeper A Acct, HB : !EvmBank A B Ev, HE : EthLib Signer, HCL : CoinsLib}.
Context (info : EvmCoinInfo) (p : evmParams).
Abbreviation store := (evmStore A B).
Implicit Types c : sdkContext store Ev.
Abbreviation slot c := (EvmKeeper.GetState (cx_store c) HistoryStorageAddress).
Abbreviation window := (history_window p).

(** The blocks from height [h] on, with their hashes. *)
Fixpoint record_blocks (h : Z) (hashes : list Hash) : M (sdkContext store Ev) SdkError unit :=
  match hashes with
  | [] => mret tt
  | hash :: hashes' => SetHeaderHash info p h hash ;; record_blocks (h + 1) hashes'
  end.

(** The history contract is deployed. *)
Definition installed c : Prop :=
  is_Some (ak_GetAccount (es_auth (cx_store c)) HistoryStorageAddress) ∧
  EvmKeeper.IsContract (cx_store c) HistoryStorageAddress = true.

Lemma history_window_pos : 0 < window.
Proof. unfold history_window. destruct (Z.ltb_spec 0 (ep_HistoryServeWindow p)); [done|]. done. Qed.

Lemma SetHeaderHash_run h hash c :
  installed c → 0 ≤ h < 2 ^ 64 →
  ∃ c', SetHeaderHash info p h hash c = (c', Ok tt) ∧ installed c' ∧
    ∀ k, slot c' k = if decide (k = h mod window) then hash else slot c k.
Proof.
  intros [[acc Hacc] Hcon] Hh. unfold SetHeaderHash, EvmKeeper.lift_res, mbind, M_bind, gets.
  rewrite EvmKeeper.GetAccount_eq, Hacc. simpl bool_decide. rewrite Hcon.
  rewrite bool_decide_eq_true_2 by by eexists. simpl. eexists. split; [done|]. split; [by split; [eexists|]|].
  intros k. unfold EvmKeeper.GetState, EvmKeeper.SetState, EvmKeeper.storage_of. simpl.
  rewrite lookup_insert_eq. simpl. rewrite wrap_small by lia. case_decide as Hk.
  - subst. by rewrite lookup_insert_eq.
  - by rewrite lookup_insert_ne.
Qed.

Lemma record_blocks_run h hashes c :
  installed c → 0 ≤ h → h + Z.of_nat (length hashes) ≤ 2 ^ 64 →
  ∃ c', record_blocks h hashes c = (c', Ok tt) ∧
    ∀ k, (∀ i, 0 ≤ i < Z.of_nat (length hashes) → (h + i) mod window ≠ k) → slot c' k = slot c k.
Proof.
  revert h c. induction hashes as [|hash hashes IH]; intros h c Hin Hh Hlen; cbn [record_blocks length] in *.
  { exists c. split; [done|]. done. }
  rewrite Nat2Z.inj_succ in Hlen.
  destruct (SetHeaderHash_run h hash c Hin) as (c1 & Hr1 & Hin1 & Hs1); [lia|].
  destruct (IH (h + 1) c1 Hin1) as (c2 & Hr2 & Hs2); [lia|lia|].
  exists c2. unfold mbind, M_bind. rewrite Hr1. split; [done|]. intros k Hk.
  rewrite Hs2, Hs1.
  - rewrite decide_False; [done|]. intros ->. apply (Hk 0); [lia|]. by rewrite Z.add_0_r.
  - intros i Hi. rewrite <- Z.add_assoc. apply Hk. lia.
Qed.

(** Heights closer than the window have different slots. *)
Lemma ring_distinct h i : 0 < i < window → (h + i) mod window ≠ h mod window.
Proof.
  intros Hi Heq. pose proof history_window_pos as Hw.
  assert (Hm : i mod window = 0).
  { replace i with ((h + i) - h) by lia. rewrite Zminus_mod, Heq, Z.sub_diag. apply Z.mod_0_l. lia. }
  rewrite Z.mod_small in Hm by lia. lia.
Qed.

Lemma record_blocks_slot h hashes c c' i hash :
  installed c → 0 ≤ h → h + Z.of_nat (length hashes) ≤ 2 ^ 64 →
  record_blocks h hashes c = (c', Ok tt) →
  hashes !! i = Some hash → Z.of_nat (length hashes) - Z.of_nat i ≤ window →
  slot c' ((h + Z.of_nat i) mod window) = hash.
Proof.
  revert h c i. induction hashes as [|hd hashes IH]; intros h c i Hin Hh Hlen Hrun Hi Hw; [done|].
  cbn [record_blocks length] in *. rewrite Nat2Z.inj_succ in *.
  destruct (SetHeaderHash_run h hd c Hin) as (c1 & Hr1 & Hin1 & Hs1); [lia|].
  unfold mbind, M_bind in Hrun. rewrite Hr1 in Hrun. destruct i as [|i].
  - injection Hi as ->. rewrite Z.add_0_r.
    destruct (record_blocks_run (h + 1) hashes c1 Hin1) as (c2 & Hr2 & Hs2); [lia|lia|].
    rewrite Hr2 in Hrun. injection Hrun as ->. rewrite Hs2.
    + rewrite Hs1. by rewrite decide_True.
    + intros j Hj. rewrite <- Z.add_assoc. apply ring_distinct. lia.
  - replace (h + Z.of_nat (Datatypes.S i)) with (h + 1 + Z.of_nat i) by lia.
    apply (IH (h + 1) c1); try done; lia.
Qed.

(** C12: the chain serves the hashes of its recent blocks.  With the history contract
    deployed, recording blocks one after another always succeeds, and at any later
    height the hash returned for each of the last [HistoryServeWindow] recorded
    blocks is the one recorded for it; the current height gives the hash of the
    context's header and a future height no hash. *)
Theorem history_serves_recent_hashes h hashes c env computed :
  installed c → 0 ≤ h → h + Z.of_nat (length hashes) ≤ MaxInt64 →
  ∃ c', record_blocks h hashes c = (c', Ok tt) ∧
    (∀ i hash, hashes !! i = Some hash → Z.of_nat (length hashes) - Z.of_nat i ≤ window →
       h + Z.of_nat i < be_Height env → GetHashFn env p (cx_store c') computed (h + Z.of_nat i) = hash) ∧
    (be_Height env ≤ MaxInt64 →
       GetHashFn env p (cx_store c') computed (be_Height env) = default (default 0 computed) (be_HeaderHash env)) ∧
    ∀ k, be_Height env < k → GetHashFn env p (cx_store c') computed k = 0.
Proof.
  unfold MaxInt64. intros Hin Hh Hlen.
  destruct (record_blocks_run h hashes c Hin Hh) as (c' & Hrun & _); [lia|].
  exists c'. split; [done|]. unfold GetHashFn, MaxInt64. split_and!.
  - intros i hash Hi Hw Hlt. pose proof (lookup_lt_Some _ _ _ Hi) as Hil.
    rewrite (proj2 (Z.ltb_ge _ _)), (proj2 (Z.eqb_neq _ _)), (proj2 (Z.ltb_lt _ _)) by lia.
    unfold GetHeaderHash. eapply record_blocks_slot; try done. lia.
  - intros Hb. rewrite (proj2 (Z.ltb_ge _ _)), Z.eqb_refl by lia. by destruct (be_HeaderHash env).
  - intros k Hk. destruct (Z.ltb_spec (2 ^ 63 - 1) k); [done|].
    rewrite (proj2 (Z.eqb_neq _ _)), (proj2 (Z.ltb_ge _ _)) by lia. done.
Qed.
End History.
End History.
