(* ===== verification/AnteCosmos.v ===== *)
(** The ante handler's decorators for Cosmos transactions ([ante/cosmos]): messages
    that must not be executed are refused, also when they are wrapped in messages
    of x/authz. *)
From S2P Require Import Prelude GoStd Sdk EvmTx Ante.

(** An induction principle that reaches through the lists of [MsgExec]. *)
Section MsgInd.
Context (P : sdkMsg → Prop).
Hypothesis Heth : ∀ msg, P (EthMsg msg).
Hypothesis Hexec_none : P (MsgExec None).
Hypothesis Hexec : ∀ ms, Forall P ms → P (MsgExec (Some ms)).
Hypothesis Hgrant : ∀ a, P (MsgGrant a).
Hypothesis Hother : ∀ url, P (OtherMsg url).
Fixpoint sdkMsg_nested_ind (m : sdkMsg) : P m :=
  match m with
  | EthMsg msg => Heth msg
  | MsgExec None => Hexec_none
  | MsgExec (Some ms) =>
      Hexec ms ((fix all (ms : list sdkMsg) : Forall P ms :=
                   match ms with
                   | [] => List.Forall_nil _
                   | m :: ms' => List.Forall_cons _ m ms' (sdkMsg_nested_ind m) (all ms')
                   end) ms)
  | MsgGrant a => Hgrant a
  | OtherMsg url => Hother url
  end.
End MsgInd.

(** [RejectMessagesDecorator]. *)
Fixpoint RejectMessages (msgs : list sdkMsg) : verdict :=
  match msgs with
  | [] => accept
  | EthMsg _ :: _ => Err ErrInvalidType
  | _ :: msgs' => RejectMessages msgs'
  end.

Section Authz.
Context (disabledMsgTypes : list string).

Definition maxNestedMsgs : Z := 7.
Definition isDisabledMsg (url : string) : bool := bool_decide (url ∈ disabledMsgTypes).
Definition MsgEthereumTx_url : string := "/cosmos.evm.vm.v1.MsgEthereumTx".

Definition check_url (url : string) : verdict :=
  if isDisabledMsg url then Err (ErrPlain "found disabled msg type") else accept.

(** One round of the loop of [checkDisabledMsgs]: the level, which a [MsgExec]
    increments for the messages inside it and for those after it. *)
Fixpoint check_msg (isAuthzInnerMsg : bool) (nestedLvl : Z) (m : sdkMsg) : res SdkError Z :=
  let keep (v : verdict) : res SdkError Z :=
    match v with Ok _ => Ok nestedLvl | Err e => Err e | Panic p => Panic p end in
  match m with
  | MsgExec None => Err (ErrPlain "cannot unpack messages")
  | MsgExec (Some inner) =>
      let nestedLvl := nestedLvl + 1 in
      if maxNestedMsgs <=? nestedLvl then Err (ErrPlain "found more nested msgs than permitted")
      else
        match (fix loop (lvl : Z) (ms : list sdkMsg) : res SdkError Z :=
                 match ms with
                 | [] => Ok lvl
                 | m :: ms' => match check_msg true lvl m with Ok lvl' => loop lvl' ms' | r => r end
                 end) nestedLvl inner with
        | Ok _ => Ok nestedLvl
        | r => r
        end
  | MsgGrant None => Err (ErrPlain "cannot unpack authorization")
  | MsgGrant (Some url) => keep (check_url url)
  | EthMsg _ => keep (if isAuthzInnerMsg then check_url MsgEthereumTx_url else accept)
  | OtherMsg url => keep (if isAuthzInnerMsg then check_url url else accept)
  end.
Fixpoint check_msgs (isAuthzInnerMsg : bool) (nestedLvl : Z) (ms : list sdkMsg) : res SdkError Z :=
  match ms with
  | [] => Ok nestedLvl
  | m :: ms' =>
      match check_msg isAuthzInnerMsg nestedLvl m with
      | Ok lvl => check_msgs isAuthzInnerMsg lvl ms'
      | r => r
      end
  end.
Definition checkDisabledMsgs (msgs : list sdkMsg) (isAuthzInnerMsg : bool) (nestedLvl : Z) : verdict :=
  if maxNestedMsgs <=? nestedLvl then Err (ErrPlain "found more nested msgs than permitted")
  else match check_msgs isAuthzInnerMsg nestedLvl msgs with
       | Ok _ => accept
       | Err e => Err e
       | Panic p => Panic p
       end.
(** [AuthzLimiterDecorator.AnteHandle]. *)
Definition AuthzLimiter (msgs : list sdkMsg) : verdict :=
  match checkDisabledMsgs msgs false 1 with
  | Err _ => Err ErrUnauthorized
  | r => r
  end.

(** ** What it refuses *)

(** A disabled type hidden in a message: as an inner message, or granted. *)
Inductive hidden : bool → sdkMsg → Prop :=
| hidden_eth m : MsgEthereumTx_url ∈ disabledMsgTypes → hidden true (EthMsg m)
| hidden_other url : url ∈ disabledMsgTypes → hidden true (OtherMsg url)
| hidden_grant b url : url ∈ disabledMsgTypes → hidden b (MsgGrant (Some url))
| hidden_exec b ms m : m ∈ ms → hidden true m → hidden b (MsgExec (Some ms)).

(** How deep messages are nested. *)
Fixpoint depth (m : sdkMsg) : Z :=
  match m with
  | MsgExec (Some ms) => 1 + foldr (λ m d, Z.max (depth m) d) 0 ms
  | MsgExec None => 1
  | _ => 0
  end.

Lemma check_url_ok url : check_url url = Ok tt → url ∉ disabledMsgTypes.
Proof. unfold check_url, isDisabledMsg. by case_bool_decide. Qed.

(** The loop inside [check_msg] is [check_msgs]. *)
Lemma check_msg_exec b lvl ms :
  check_msg b lvl (MsgExec (Some ms)) =
    if maxNestedMsgs <=? lvl + 1 then Err (ErrPlain "found more nested msgs than permitted")
    else match check_msgs true (lvl + 1) ms with Ok _ => Ok (lvl + 1) | r => r end.
Proof.
  cbn [check_msg]. destruct (maxNestedMsgs <=? lvl + 1); [done|].
  enough (Hl : ∀ l, (fix loop (lvl : Z) (ms : list sdkMsg) : res SdkError Z :=
                 match ms with
                 | [] => Ok lvl
                 | m :: ms' => match check_msg true lvl m with Ok lvl' => loop lvl' ms' | r => r end
                 end) l ms = check_msgs true l ms) by by rewrite Hl.
  induction ms as [|m ms IH]; intros l; [done|]. cbn [check_msgs]. destruct (check_msg true l m); [apply IH|done..].
Qed.

(** Messages that pass at a level. *)
Definition sound (m : sdkMsg) : Prop :=
  ∀ b lvl lvl', lvl < maxNestedMsgs → check_msg b lvl m = Ok lvl' →
    lvl ≤ lvl' < maxNestedMsgs ∧ ¬ hidden b m ∧ lvl + depth m < maxNestedMsgs.
Lemma check_msgs_sound ms : Forall sound ms →
  ∀ b lvl lvl', lvl < maxNestedMsgs → check_msgs b lvl ms = Ok lvl' →
    lvl ≤ lvl' < maxNestedMsgs ∧ (∀ m, m ∈ ms → ¬ hidden b m) ∧
    lvl + foldr (λ m d, Z.max (depth m) d) 0 ms < maxNestedMsgs.
Proof.
  induction 1 as [|m ms Hm Hms IH]; intros b lvl lvl' Hlt Hc; cbn [check_msgs foldr] in *.
  { injection Hc as <-. split; [lia|]. split; [by intros m ?%elem_of_nil|lia]. }
  destruct (check_msg b lvl m) as [l1|e|p] eqn:H1; [|done..].
  destruct (Hm _ _ _ Hlt H1) as (Hl1 & Hh1 & Hd1). destruct (IH _ _ _ (proj2 Hl1) Hc) as (Hl2 & Hh2 & Hd2).
  split; [lia|]. split; [|lia]. intros m' [->|Hin]%elem_of_cons; [done|]. by apply Hh2.
Qed.
Lemma check_msg_sound m : sound m.
Proof.
  induction m as [m| |ms Hms|a|url] using sdkMsg_nested_ind; intros b lvl lvl' Hlt Hc.
  - cbn [check_msg] in Hc. destruct b.
    + destruct (check_url _) as [[]|e|p] eqn:Hu; [|done..]. injection Hc as <-.
      apply check_url_ok in Hu. split; [lia|]. split; [|simpl; lia]. by inversion 1.
    + injection Hc as <-. split; [lia|]. split; [|simpl; lia]. by inversion 1.
  - done.
  - rewrite check_msg_exec in Hc. destruct (Z.leb_spec maxNestedMsgs (lvl + 1)) as [|Hl]; [done|].
    destruct (check_msgs true (lvl + 1) ms) as [l1|e|p] eqn:H1; [|done..]. injection Hc as <-.
    destruct (check_msgs_sound ms Hms _ _ _ Hl H1) as (_ & Hh & Hd).
    split; [lia|]. split; [|cbn [depth]; lia]. inversion 1; subst. by eapply Hh.
  - cbn [check_msg] in Hc. destruct a as [url|]; [|done].
    destruct (check_url _) as [[]|e|p] eqn:Hu; [|done..]. injection Hc as <-.
    apply check_url_ok in Hu. split; [lia|]. split; [|simpl; lia]. by inversion 1.
  - cbn [check_msg] in Hc. destruct b.
    + destruct (check_url _) as [[]|e|p] eqn:Hu; [|done..]. injection Hc as <-.
      apply check_url_ok in Hu. split; [lia|]. split; [|simpl; lia]. by inversion 1.
    + injection Hc as <-. split; [lia|]. split; [|simpl; lia]. by inversion 1.
Qed.
End Authz.

Module AuthzProps.
(** C23: no disabled message gets through x/authz.  When the limiter accepts a
    transaction, no message of a disabled type is inside a [MsgExec], at any
    nesting, none is granted, and messages are nested less than seven deep. *)
Theorem authz_limiter_sound disabled msgs :
  AuthzLimiter disabled msgs = Ok tt →
  ∀ m, m ∈ msgs → ¬ hidden disabled false m ∧ depth m < maxNestedMsgs - 1.
Proof.
  unfold AuthzLimiter, checkDisabledMsgs. cbn -[check_msgs].
  destruct (check_msgs disabled false 1 msgs) as [l|e|p] eqn:Hc; [|done..]. intros _ m Hm.
  assert (Hall : Forall (sound disabled) msgs) by (apply Forall_forall; intros; apply check_msg_sound).
  destruct (check_msgs_sound disabled msgs Hall false 1 l eq_refl Hc) as (_ & Hh & Hd). split; [by apply Hh|].
  enough (depth m ≤ foldr (λ m d, Z.max (depth m) d) 0 msgs) by lia. clear -Hm.
  induction msgs as [|m' msgs IH]; [by apply elem_of_nil in Hm|]. cbn [foldr].
  apply elem_of_cons in Hm as [->|Hm]; [lia|]. specialize (IH Hm). lia.
Qed.

(** Sibling messages count as nesting: six [MsgExec] side by side, none of which
    holds anything, are refused. *)
Theorem authz_limiter_counts_siblings disabled :
  AuthzLimiter disabled (replicate 6 (MsgExec (Some []))) = Err ErrUnauthorized ∧
  Forall (λ m, depth m = 1) (replicate 6 (MsgExec (Some []))).
Proof. split; [done|]. by repeat constructor. Qed.

Definition demo_msgs : list sdkMsg :=
  [MsgExec (Some [OtherMsg "/bank.MsgSend"; MsgExec (Some [OtherMsg "/bank.MsgSend"])]); MsgGrant (Some "/bank.MsgSend")].
Lemma authz_limiter_sound_witness :
  AuthzLimiter [MsgEthereumTx_url] demo_msgs = Ok tt ∧
  (∀ m, m ∈ demo_msgs → ¬ hidden [MsgEthereumTx_url] false m ∧ depth m < maxNestedMsgs - 1) ∧
  AuthzLimiter [MsgEthereumTx_url] [MsgExec (Some [MsgExec (Some [OtherMsg MsgEthereumTx_url])])] = Err ErrUnauthorized.
Proof.
  split; [by vm_compute|]. split; [|by vm_compute].
  apply authz_limiter_sound. by vm_compute.
Defined.
End AuthzProps.
