(* ===== verification/FeeChecker.v ===== *)
(** Fees of Cosmos transactions: the dynamic fee checker ([ante/evm/fee_checker.go])
    and the minimum gas price ([ante/cosmos/min_gas_price.go]); the base fee the
    ante handler uses is the one of the execution. *)
From S2P Require Import Prelude GoStd Sdk EvmCoin LegacyDec FeeMarket EvmTx Ante.

(** [LegacyDec.Ceil] and [RoundInt]. *)
Class DecRound (D : Type) := { dec_Ceil : D → D; dec_RoundInt : D → Z }.
Class DecRoundLaws (D : Type) `{DecRound D, DL : DecLib D, !DecLaws D} : Prop := {
  drl_ceil d : ∃ n, raw (dec_Ceil d) = n * Precision ∧ (n - 1) * Precision < raw d ≤ n * Precision;
  drl_round d n : raw d = n * Precision → dec_RoundInt d = n;
}.
(** Methods of [sdk.Coins]. *)
Class CoinsCompare := {
  cs_IsAnyGTE : Coins → Coins → bool;
  cs_Add : Coins → Coin → Coins;
}.
Class CoinsCompareLaws `{CoinsLib, CoinsCompare} : Prop := {
  ccl_any cs d v : 0 < v → cs_IsAnyGTE cs [mkCoin d v] = true → v ≤ AmountOf cs d;
  ccl_add c : cs_Add [] c = [c];
}.

Definition ErrTxDecode : SdkError := ErrPlain "tx parse error".
Definition ErrInvalidRequest : SdkError := ErrPlain "invalid request".
(** [DefaultPriorityReduction]. *)
Definition PriorityReduction : Z := 10 ^ 6.
Definition DefaultBondDenom : string := "stake".

(** A transaction with fees; a nil list of coins is [None].  The extension is the
    maximum priority price of its first dynamic fee option, which may be nil. *)
Record feeTx (D : Type) := mkFeeTx { ft_Fee : option Coins; ft_Gas : Z; ft_Extension : option (option D) }.
Arguments mkFeeTx {D}.
Arguments ft_Fee {D}.
Arguments ft_Gas {D}.
Arguments ft_Extension {D}.

Section FeeChecker.
Context {D S : Type} `{HD : DecLib D, HR : !DecRound D, HCL : CoinsLib, HCC : CoinsCompare}.
Abbreviation FM := (M S SdkError).
Definition fees (tx : feeTx D) : Coins := default [] (ft_Fee tx).

(** ** Without a base fee *)

(** An integer within 64 bits, or the greatest of them. *)
Definition priority_of (z : Z) : Z := if (- 2 ^ 63 <=? z) && (z <? 2 ^ 63) then z else MaxInt64.
Fixpoint priority_loop (gas priority : Z) (cs : Coins) : FM Z :=
  match cs with
  | [] => mret priority
  | fee :: cs' =>
      if gas =? 0 then panic "division by zero"
      else
        let p := priority_of (Z.quot (Z.quot (Amount fee) gas) PriorityReduction) in
        priority_loop gas (if (priority =? 0) || (p <? priority) then p else priority) cs'
  end.
Definition getTxPriority (cs : Coins) (gas : Z) : FM Z := priority_loop gas 0 cs.

Fixpoint required_fees (glDec : D) (prices : list (string * D)) : FM Coins :=
  match prices with
  | [] => mret []
  | (denom, price) :: prices' =>
      fee ← dec_op (dec_Mul price glDec);
      coin ← NewCoin denom (dec_RoundInt (dec_Ceil fee));
      rest ← required_fees glDec prices';
      mret (coin :: rest)
  end.
(** The gas limit becomes a signed integer of 64 bits. *)
Definition i64 (z : Z) : Z := if 2 ^ 63 <=? z mod 2 ^ 64 then z mod 2 ^ 64 - 2 ^ 64 else z mod 2 ^ 64.
Definition checkTxFeeWithValidatorMinGasPrices (isCheckTx : bool) (minGasPrices : list (string * D))
    (pricesAreZero : bool) (tx : feeTx D) : FM (Coins * Z) :=
  let gas := i64 (ft_Gas tx) in
  (if isCheckTx && negb pricesAreZero then
     requiredFees ← required_fees (NewDecFromInt gas) minGasPrices;
     if negb (cs_IsAnyGTE (fees tx) requiredFees) then throw ErrInsufficientFee else mret tt
   else mret tt) ;;
  priority ← getTxPriority (fees tx) gas;
  mret (fees tx, priority).

(** ** With a base fee *)

Definition MinDec (d e : D) : D := if dec_LT d e then d else e.
Definition effectiveGasPriceLegacyDec (baseFee feeCap tipCap : D) : FM D :=
  sum ← dec_op (dec_Add tipCap baseFee);
  mret (MinDec sum feeCap).

Definition FeeChecker (params : Params D) (denom : string) (isLondon isCheckTx : bool) (height : Z)
    (minGasPrices : list (string * D)) (pricesAreZero : bool) (tx : feeTx D) : FM (Coins * Z) :=
  if negb isLondon then checkTxFeeWithValidatorMinGasPrices isCheckTx minGasPrices pricesAreZero tx
  else
    let baseFee := match p_BaseFee params with
                   | Some b => if IsBaseFeeEnabled params height then b else ZeroDec
                   | None => ZeroDec
                   end in
    let maxPriorityPrice := match ft_Extension tx with
                            | Some (Some price) => price
                            | Some None => ZeroDec
                            | None => NewDecFromInt MaxInt64
                            end in
    if dec_IsNegative maxPriorityPrice then throw ErrInsufficientFee
    else if ft_Gas tx =? 0 then throw ErrInvalidRequest
    else
      feeCap ← dec_op (dec_QuoInt (NewDecFromInt (AmountOf (fees tx) denom)) (ft_Gas tx));
      if dec_LT feeCap baseFee then throw ErrInsufficientFee
      else
        effectivePrice ← effectiveGasPriceLegacyDec baseFee feeCap maxPriorityPrice;
        total ← dec_op (dec_MulInt effectivePrice (ft_Gas tx));
        let effectiveFee := [mkCoin denom (dec_RoundInt (dec_Ceil total))] in
        tip ← dec_op (dec_Sub effectivePrice baseFee);
        scaled ← dec_op (dec_QuoInt tip PriorityReduction);
        mret (effectiveFee, priority_of (dec_TruncateInt scaled)).
(** A transaction that has no fees is [None]. *)
Definition NewDynamicFeeChecker (params : Params D) (info : EvmCoinInfo) (isLondon isCheckTx : bool) (height : Z)
    (minGasPrices : list (string * D)) (pricesAreZero : bool) (tx : option (feeTx D)) : FM (Coins * Z) :=
  match tx with
  | None => throw ErrTxDecode
  | Some tx =>
      if height =? 0 then checkTxFeeWithValidatorMinGasPrices isCheckTx minGasPrices pricesAreZero tx
      else FeeChecker params (eci_Denom info) isLondon isCheckTx height minGasPrices pricesAreZero tx
  end.

(** ** The minimum gas price *)

Definition valid_fees (evmDenom : string) (cs : Coins) : bool :=
  match cs with
  | [] => true
  | [c] => bool_decide (Denom c ∈ [evmDenom; DefaultBondDenom])
  | _ => false
  end.
(** The decorator's verdict, before the next one is called. *)
Definition MinGasPrice_AnteHandle (minGasPrice : D) (info : EvmCoinInfo) (simulate : bool) (tx : option (feeTx D)) : FM unit :=
  match tx with
  | None => throw ErrInvalidType
  | Some tx =>
      let evmDenom := eci_Denom info in
      if negb (valid_fees evmDenom (fees tx)) && negb simulate then throw (ErrPlain "expected only native token for fee")
      else if dec_IsZero minGasPrice || simulate then mret tt
      else
        product ← dec_op (dec_Mul minGasPrice (NewDecFromInt (ft_Gas tx)));
        let fee := dec_RoundInt (dec_Ceil product) in
        let requiredFees := if 0 <? fee then cs_Add [] (mkCoin evmDenom fee) else [] in
        match ft_Fee tx with
        | None => throw ErrInsufficientFee
        | Some feeCoins => if negb (cs_IsAnyGTE feeCoins requiredFees) then throw ErrInsufficientFee else mret tt
        end
  end.
End FeeChecker.

(** ** Properties *)

Section FeeProps.
Context {D S : Type} `{HD : DecLib D, HDL : !DecLaws D, HR : !DecRound D, HRL : !DecRoundLaws D, HCL : CoinsLib,
          HCC : CoinsCompare, HCCL : !CoinsCompareLaws}.
Implicit Types (tx : feeTx D) (s : S).

Lemma ceil_round d : ∃ n, dec_RoundInt (dec_Ceil d) = n ∧ (n - 1) * Precision < raw d ≤ n * Precision.
Proof. destruct (drl_ceil d) as (n & Hn & Hr). exists n. split; [by apply drl_round|done]. Qed.
Lemma raw_MinDec (d e : D) : raw (MinDec d e) = Z.min (raw d) (raw e).
Proof. unfold MinDec. rewrite raw_LT. destruct (Z.ltb_spec (raw d) (raw e)); lia. Qed.
Lemma dec_op_ok {A} (r : option A) s s' a : dec_op (E := SdkError) r s = (s', Ok a) → s' = s ∧ r = Some a.
Proof. unfold dec_op. destruct r; [|done]. by intros [= <- <-]. Qed.

(** The base fee of the checker. *)
Definition checker_base_fee (params : Params D) (height : Z) : D :=
  match p_BaseFee params with Some b => if IsBaseFeeEnabled params height then b else ZeroDec | None => ZeroDec end.

(** The dynamic fee of a Cosmos transaction is covered by what it offers, pays at least
    the base fee for its gas, and its tip is no more than the maximum it named. *)
Theorem dynamic_fee_bounds params denom isCheckTx height prices zero tx s s' cs priority :
  0 < ft_Gas tx → 0 ≤ AmountOf (fees tx) denom →
  FeeChecker params denom true isCheckTx height prices zero tx s = (s', Ok (cs, priority)) →
  ∃ fee, cs = [mkCoin denom fee] ∧ fee ≤ AmountOf (fees tx) denom ∧
    raw (checker_base_fee params height) * ft_Gas tx ≤ fee * Precision ∧
    (∀ tip, ft_Extension tx = Some (Some tip) →
       (fee - 1) * Precision < (raw tip + raw (checker_base_fee params height)) * ft_Gas tx).
Proof.
  intros Hgas Hamt. unfold FeeChecker. cbn [negb]. fold (checker_base_fee params height).
  set (b := checker_base_fee params height). set (tip := match ft_Extension tx with Some (Some p) => p | Some None => _ | None => _ end).
  destruct (dec_IsNegative tip) eqn:Hneg; [done|]. rewrite raw_IsNegative in Hneg.
  destruct (Z.eqb_spec (ft_Gas tx) 0); [lia|]. intros Hr. bind_step Hr. apply dec_op_ok in Hstep as [-> Hq].
  apply raw_QuoInt in Hq. rewrite raw_NewDecFromInt in Hq. rename x into cap.
  rewrite raw_LT in Hr. destruct (Z.ltb_spec (raw cap) (raw b)) as [|Hcap]; [done|].
  bind_step Hr. unfold effectiveGasPriceLegacyDec in Hstep. bind_step Hstep. apply dec_op_ok in Hstep0 as [-> Ha].
  apply raw_Add in Ha. injection Hstep as <- <-.
  bind_step Hr. apply dec_op_ok in Hstep as [-> Ht]. apply raw_MulInt in Ht. rewrite raw_MinDec in Ht. rename x0 into sum, x into total.
  bind_step Hr. bind_step Hr. injection Hr as _ <- _. clear Hstep Hstep0.
  destruct (ceil_round total) as (fee & Hfee & Hlo & Hhi). exists fee. rewrite Hfee.
  pose proof Precision_pos. assert (Hc : raw cap * ft_Gas tx ≤ AmountOf (fees tx) denom * Precision).
  { rewrite Hq, Z.quot_div_nonneg by lia. rewrite Z.mul_comm. apply Z.mul_div_le. lia. }
  split; [done|]. split_and!.
  - assert (Z.min (raw sum) (raw cap) * ft_Gas tx ≤ raw cap * ft_Gas tx) by (apply Z.mul_le_mono_nonneg_r; lia).
    assert ((fee - 1) * Precision < AmountOf (fees tx) denom * Precision) by lia.
    apply Z.mul_lt_mono_pos_r in H1; lia.
  - assert (raw b * ft_Gas tx ≤ Z.min (raw sum) (raw cap) * ft_Gas tx); [|lia]. apply Z.mul_le_mono_nonneg_r; lia.
  - intros t Hext. subst tip. rewrite Hext in Ha. rewrite <- Ha.
    assert (Z.min (raw sum) (raw cap) * ft_Gas tx ≤ raw sum * ft_Gas tx); [|lia]. apply Z.mul_le_mono_nonneg_r; lia.
Qed.

(** A transaction that passes the minimum gas price pays at least that price for its gas. *)
Theorem min_gas_price_enforced minGasPrice info tx s s' :
  0 < raw minGasPrice → 0 < ft_Gas tx →
  MinGasPrice_AnteHandle minGasPrice info false (Some tx) s = (s', Ok tt) →
  raw minGasPrice * ft_Gas tx ≤ AmountOf (fees tx) (eci_Denom info) * Precision.
Proof.
  intros Hp Hg. unfold MinGasPrice_AnteHandle. destruct (valid_fees _ _); [|done]. cbn [negb andb].
  assert (Hz : dec_IsZero minGasPrice = false).
  { unfold dec_IsZero, ZeroDec. rewrite !raw_LT, raw_NewDecFromInt. lia. }
  rewrite Hz. cbn [orb]. intros Hr. bind_step Hr. apply dec_op_ok in Hstep as [-> Hm]. rename x into prod.
  assert (Hraw : raw prod = raw minGasPrice * ft_Gas tx).
  { apply raw_Mul in Hm. rewrite raw_NewDecFromInt in Hm. pose proof Precision_pos.
    replace (raw prod * Precision - raw minGasPrice * (ft_Gas tx * Precision))
      with ((raw prod - raw minGasPrice * ft_Gas tx) * Precision) in Hm by ring.
    rewrite Z.abs_mul, (Z.abs_eq Precision) in Hm by lia. nia. }
  destruct (ceil_round prod) as (fee & Hfee & Hlo & Hhi). rewrite Hfee in Hr. pose proof Precision_pos.
  assert (Hpos : 0 < fee) by nia. destruct (Z.ltb_spec 0 fee); [|lia]. rewrite ccl_add in Hr.
  unfold fees. destruct (ft_Fee tx) as [cs|]; [|done]. destruct (cs_IsAnyGTE _ _) eqn:Hany; [|done].
  apply ccl_any in Hany; [|done]. simpl. nia.
Qed.
End FeeProps.

(** The base fee of a block as the two sides of a transaction see it: the ante
    handler computes it from the fee market's parameters ([types.GetBaseFee]), the
    execution asks the keeper ([Keeper.GetBaseFee] of [x/vm/keeper/keeper.go]). *)


Section Keeper.
Context {D : Type} `{HD : DecLib D} (half : D).

(** [Keeper.GetBaseFee]: nil before London; the wrapper never returns nil. *)
Definition Keeper_GetBaseFee (isLondon : bool) (decimals : Decimals) : M (fmState (D := D)) SdkError (option Z) :=
  if negb isLondon then mret None
  else baseFee ← wrapper_GetBaseFee half decimals; mret (Some baseFee).
End Keeper.

Module BaseFee.
Section BaseFee.
Context {D : Type} `{HD : DecLib D, HL : !DecLaws D} (half : D).

Lemma dec_IsZero_spec (d : D) : dec_IsZero d = (raw d =? 0).
Proof.
  unfold dec_IsZero, ZeroDec. rewrite !raw_LT, raw_NewDecFromInt. simpl.
  destruct (Z.ltb_spec (raw d) 0), (Z.ltb_spec 0 (raw d)), (Z.eqb_spec (raw d) 0); simpl; done || lia.
Qed.

(** C11: the ante handler and the execution use the same base fee.  For a coin with
    supported decimals and a fee market whose base fee is set, both computations
    have the same outcome: the same value in 18 decimals, none before London, zero
    when the base fee is disabled, or the same overflow. *)
Theorem base_fee_agrees {S} isLondon decimals (fs : fmState (D := D)) (s : S) baseFee :
  Decimals_Validate decimals = true →
  p_BaseFee (default (DefaultParams half) (fm_params (fs_store fs))) = Some baseFee →
  (EvmTx.GetBaseFee isLondon decimals (default (DefaultParams half) (fm_params (fs_store fs))) s).2 =
  (Keeper_GetBaseFee half isLondon decimals fs).2.
Proof.
  intros Hdec Hb. set (p := default _ _) in *.
  unfold EvmTx.GetBaseFee, Keeper_GetBaseFee, wrapper_GetBaseFee, FeeMarket.GetBaseFee, GetParams,
    ConvertAmountTo18DecimalsLegacy.
  destruct isLondon; [|done]. cbn [negb]. unfold mbind, M_bind, gets. fold p.
  destruct (p_NoBaseFee p); [done|]. unfold mret, M_ret. rewrite Hb, Hdec. cbn [negb].
  pose proof (Decimals_ConversionFactor_supported _ Hdec) as Hf. rewrite Hf. simpl non_nil. unfold mret, M_ret.
  rewrite dec_IsZero_spec. destruct (Z.eqb_spec (raw baseFee) 0) as [Hz|Hz].
  - destruct (MulInt_total baseFee (10 ^ (18 - decimals))) as [d Hd]; [by rewrite Hz|].
    rewrite Hd. unfold non_nil, dec_op, mret, M_ret, panic. cbn. by rewrite raw_TruncateInt, (raw_MulInt _ _ _ Hd), Hz.
  - unfold non_nil, dec_op, mret, M_ret, panic. cbn. by destruct (dec_MulInt baseFee (10 ^ (18 - decimals))).
Qed.
End BaseFee.
End BaseFee.
