(* ===== verification/GasSearch.v ===== *)
(** The search for the least gas limit with which a message executes
    ([BinSearch] of [x/vm/types/utils.go]), which gas estimation runs. *)
From S2P Require Import Prelude GoStd Sdk.

Section BinSearch.
(** Whether the message fails with a gas limit; an error stops the search. *)
Context (executable : Z → res SdkError bool).

(** The loop, with a bound on its rounds; [None] when the bound is exceeded. *)
Fixpoint BinSearch (fuel : nat) (lo hi : Z) : option (res SdkError Z) :=
  if u64_add lo 1 <? hi then
    match fuel with
    | O => None
    | S fuel' =>
        let mid := u64_add hi lo / 2 in
        match executable mid with
        | Err e => Some (Err e)
        | Panic p => Some (Panic p)
        | Ok failed => if failed : bool then BinSearch fuel' mid hi else BinSearch fuel' lo mid
        end
    end
  else Some (Ok hi).

(** Without wrap-around, the middle is strictly inside. *)
Lemma mid_inside lo hi :
  0 ≤ lo → hi < 2 ^ 63 → lo + 1 < hi → u64_add lo 1 = lo + 1 ∧ u64_add hi lo / 2 = (hi + lo) / 2 ∧
  lo < (hi + lo) / 2 < hi.
Proof.
  intros Hlo Hhi Hlt. unfold u64_add. rewrite !wrap_small by lia. split_and!; [done..| |].
  - apply Z.lt_le_trans with (lo + 1); [lia|]. apply Z.div_le_lower_bound; lia.
  - apply Z.div_lt_upper_bound; lia.
Qed.

(** Halving the distance takes one round off its logarithm. *)
Lemma half_log fuel d d' : 1 < d → 2 * d' ≤ d + 1 → Z.log2_up d ≤ Z.of_nat (S fuel) → Z.log2_up d' ≤ Z.of_nat fuel.
Proof.
  intros Hd Hd' Hl. destruct (Z.le_gt_cases d' 1) as [Hs|Hs].
  { rewrite Z.log2_up_eqn0 by lia. lia. }
  apply Z.log2_up_le_pow2; [lia|]. apply Z.log2_up_le_pow2 in Hl; [|lia].
  rewrite Nat2Z.inj_succ, Z.pow_succ_r in Hl by lia. lia.
Qed.
End BinSearch.

Module SearchProps.
(** C30: gas estimation terminates with a minimal gas limit.  For limits below 2^63
    the search ends within as many rounds as the logarithm of the interval.  It
    reports an error of the execution, or returns a limit of the interval with
    which the message executes (unless it is the upper end, which it does not try)
    and one less than which fails (unless that is the lower end); if executing is
    monotone in the gas, no smaller limit of the interval executes. *)
Theorem BinSearch_finds_minimum executable fuel lo hi :
  0 ≤ lo < hi → hi < 2 ^ 63 → Z.log2_up (hi - lo) ≤ Z.of_nat fuel →
  ∃ r, BinSearch executable fuel lo hi = Some r ∧
  match r with
  | Ok g => lo < g ≤ hi ∧ (g = hi ∨ executable g = Ok false) ∧ (g = lo + 1 ∨ executable (g - 1) = Ok true) ∧
      ((∀ a b, a ≤ b → executable a = Ok false → executable b = Ok false) →
       ∀ a, lo < a < g → executable a ≠ Ok false)
  | Err e => ∃ g, lo < g < hi ∧ executable g = Err e
  | Panic p => ∃ g, lo < g < hi ∧ executable g = Panic p
  end.
Proof.
  revert lo hi. induction fuel as [|fuel IH]; intros lo hi Hlo Hhi Hfuel.
  { assert (hi - lo = 1) as Hone.
    { destruct (Z.le_gt_cases (hi - lo) 1); [lia|]. pose proof (Z.log2_up_pos (hi - lo)). lia. }
    simpl. unfold u64_add. rewrite wrap_small by lia. rewrite (proj2 (Z.ltb_ge _ _)) by lia.
    eexists. split; [done|]. simpl. split_and!; [lia..|by left|left; lia|]. intros _ a Ha. lia. }
  cbn [BinSearch]. destruct (Z.lt_ge_cases (lo + 1) hi) as [Hlt|Hge].
  2: { unfold u64_add. rewrite wrap_small by lia. rewrite (proj2 (Z.ltb_ge _ _)) by lia.
       eexists. split; [done|]. simpl. split_and!; [lia..|by left|left; lia|]. intros _ a Ha. lia. }
  destruct (mid_inside lo hi) as (-> & -> & Hmid); [lia..|]. rewrite (proj2 (Z.ltb_lt _ _)) by lia.
  set (mid := (hi + lo) / 2) in *.
  assert (Hhalf : 2 * (hi - mid) ≤ hi - lo + 1 ∧ 2 * (mid - lo) ≤ hi - lo + 1).
  { pose proof (Z.div_mod (hi + lo) 2). pose proof (Z.mod_pos_bound (hi + lo) 2). unfold mid. lia. }
  destruct (executable mid) as [[|]|e|p] eqn:Hex; [| |by eexists; split; [done|exists mid; split; [lia|]]..].
  - destruct (IH mid hi) as (r & Hr & Hspec); [lia|lia| |].
    { eapply (half_log fuel (hi - lo)); lia. }
    exists r. split; [done|]. destruct r as [g|e|p].
    + destruct Hspec as (Hg & H1 & H2 & H3). split_and!; [lia..|done| |].
      * destruct H2 as [->|H2]; [right; by replace (mid + 1 - 1) with mid by lia|by right].
      * intros Hm a Ha Hok. destruct (Z.le_gt_cases a mid) as [Hle|Hgt].
        { rewrite (Hm a mid Hle Hok) in Hex. done. }
        apply (H3 Hm a); [lia|done].
    + destruct Hspec as (g & Hg & He). exists g. split; [lia|done].
    + destruct Hspec as (g & Hg & He). exists g. split; [lia|done].
  - destruct (IH lo mid) as (r & Hr & Hspec); [lia|lia| |].
    { eapply (half_log fuel (hi - lo)); lia. }
    exists r. split; [done|]. destruct r as [g|e|p].
    + destruct Hspec as (Hg & H1 & H2 & H3). split_and!; [lia..| |done|done].
      right. destruct H1 as [->|H1]; done.
    + destruct Hspec as (g & Hg & He). exists g. split; [lia|done].
    + destruct Hspec as (g & Hg & He). exists g. split; [lia|done].
Qed.

(** A message that needs 21000 gas, searched between 20999 and 1000000. *)
Lemma BinSearch_finds_minimum_witness :
  let executable g := Ok (g <? 21000) in
  BinSearch executable 20 100 1000000 = Some (Ok 21000) ∧
  ∀ a, 100 < a < 21000 → executable a ≠ Ok false.
Proof.
  intros executable.
  destruct (BinSearch_finds_minimum executable 20 100 1000000) as (r & Hr & Hspec); [lia..|done|].
  assert (Hval : BinSearch executable 20 100 1000000 = Some (Ok 21000)) by by vm_compute.
  split; [done|]. rewrite Hval in Hr. injection Hr as <-.
  destruct Hspec as (_ & _ & _ & Hmin). apply Hmin. intros a b Hab Ha.
  unfold executable in *. injection Ha as Ha. f_equal. apply Z.ltb_ge. apply Z.ltb_ge in Ha. lia.
Defined.
End SearchProps.
