(* ===== verification/Erc20Registry.v ===== *)
(** The registry of the ERC-20 module ([x/erc20]): token pairs between coins and
    contracts with their two indexes ([keeper/token_pairs.go]), allowances on the
    contracts of registered coins ([keeper/allowance.go]), the parameters
    ([keeper/params.go]) and the sets of active precompiles
    ([keeper/precompiles.go]).

    Hashes, hexadecimal addresses and the hash of an IBC voucher are go-ethereum's,
    CometBFT's and ibc-go's and are parameters. *)
From S2P Require Import Prelude GoStd AccessList Sdk EvmParams.

(** ** Data *)

(** The generated enum admits any int32. *)
Abbreviation Owner := Z.
Definition OWNER_UNSPECIFIED : Owner := 0.
Definition OWNER_MODULE : Owner := 1.
Definition OWNER_EXTERNAL : Owner := 2.

Record TokenPair := mkPair {
  tp_Erc20Address : string;
  tp_Denom : string;
  tp_Enabled : bool;
  tp_ContractOwner : Owner;
}.
Record Allowance := mkAllowance {
  al_Erc20Address : string;
  al_Owner : string;
  al_Spender : string;
  al_Value : Z;
}.
Record Erc20Params := mkErc20Params { EnableErc20 : bool; PermissionlessRegistration : bool }.

Class Erc20Lib := {
  (** [tmhash.Sum]. *)
  tmhash_Sum : string → string;
  (** [strings.TrimSpace]. *)
  TrimSpace : string → string;
  (** The address in the last bytes of [transfertypes.ParseHexHash]. *)
  ParseHexHash : string → option Address;
}.

(** No character of the string separates the parts of an identifier. *)
Fixpoint no_bar (s : string) : bool :=
  match s with
  | EmptyString => true
  | String c s' => negb (bool_decide (String c EmptyString = "|"%string)) && no_bar s'
  end.

(** Documented behaviour: hashes are not empty and do not collide; the form of an
    address is one of its hexadecimal forms, which have no bar. *)
Class Erc20Laws `{ParamsLib, Erc20Lib} : Prop := {
  erl_sum_nonempty s : tmhash_Sum s ≠ ""%string;
  erl_sum_inj s t : tmhash_Sum s = tmhash_Sum t → s = t;
  erl_hex a : IsHexAddress (hex a) = true ∧ HexToAddress (hex a) = a;
  erl_no_bar s : IsHexAddress s = true → no_bar s = true;
}.

Definition ErrERC20Disabled : SdkError := ErrPlain "erc20 module is disabled".
Definition ErrInternalTokenPair : SdkError := ErrPlain "internal ethereum token mapping error".
Definition ErrTokenPairNotFound : SdkError := ErrPlain "token pair not found".
Definition ErrTokenPairAlreadyExists : SdkError := ErrPlain "token pair already exists".
Definition ErrUndefinedOwner : SdkError := ErrPlain "undefined owner of contract pair".
Definition ErrBalanceInvariance : SdkError := ErrPlain "post transfer balance invariant failed".
Definition ErrERC20TokenPairDisabled : SdkError := ErrPlain "erc20 token pair is disabled".
Definition ErrInvalidAllowance : SdkError := ErrPlain "invalid allowance".
Definition ErrInvalidDenomForTransfer : SdkError := ErrPlain "invalid denomination for cross-chain transfer".

Module ER.
Section Registry.
Context `{HP : ParamsLib, HL : Erc20Lib}.

(** *** Token pairs *)

(** [utils.GetIBCDenomAddress]. *)
Definition GetIBCDenomAddress (denom : string) : res SdkError Address :=
  if negb (String.prefix "ibc/" denom) then Err ErrInvalidDenomForTransfer
  else
    let rest := String.substring 4 (String.length denom - 4) denom in
    if (Z.of_nat (String.length denom) <? 5) || String.eqb (TrimSpace rest) ""
    then Err ErrInvalidDenomForTransfer
    else match ParseHexHash rest with Some a => Ok a | None => Err ErrInvalidDenomForTransfer end.

Definition NewTokenPairSTRv2 (denom : string) : res SdkError TokenPair :=
  match GetIBCDenomAddress denom with
  | Ok address => Ok (mkPair (hex address) denom true OWNER_MODULE)
  | Err e => Err e
  | Panic p => Panic p
  end.
Definition NewTokenPair (erc20Address : Address) (denom : string) (contractOwner : Owner) : TokenPair :=
  mkPair (hex erc20Address) denom true contractOwner.
Definition GetID (tp : TokenPair) : string :=
  tmhash_Sum (String.append (tp_Erc20Address tp) (String.append "|" (tp_Denom tp))).
Definition GetERC20Contract (tp : TokenPair) : Address := HexToAddress (tp_Erc20Address tp).
Definition IsNativeCoin (tp : TokenPair) : bool := tp_ContractOwner tp =? OWNER_MODULE.
Definition IsNativeERC20 (tp : TokenPair) : bool := tp_ContractOwner tp =? OWNER_EXTERNAL.

(** *** The store *)

(** The module's key prefixes: pairs by identifier, identifiers by contract and by
    denomination, allowances by contract, owner and spender, the addresses of the
    active precompiles in hexadecimal, and the two parameters. *)
Record erc20Store := mkErc20 {
  e_pairs : gmap string TokenPair;
  e_byERC20 : gmap Address string;
  e_byDenom : gmap string string;
  e_allowances : gmap (Address * Address * Address) Allowance;
  e_native : gset string;
  e_dynamic : gset string;
  e_enabled : bool;
  e_permissionless : bool;
}.
Implicit Types st : erc20Store.
Abbreviation EM := (M erc20Store SdkError).

Definition set_pairs v st := mkErc20 v (e_byERC20 st) (e_byDenom st) (e_allowances st) (e_native st) (e_dynamic st) (e_enabled st) (e_permissionless st).
Definition set_byERC20 v st := mkErc20 (e_pairs st) v (e_byDenom st) (e_allowances st) (e_native st) (e_dynamic st) (e_enabled st) (e_permissionless st).
Definition set_byDenom v st := mkErc20 (e_pairs st) (e_byERC20 st) v (e_allowances st) (e_native st) (e_dynamic st) (e_enabled st) (e_permissionless st).
Definition set_allowances v st := mkErc20 (e_pairs st) (e_byERC20 st) (e_byDenom st) v (e_native st) (e_dynamic st) (e_enabled st) (e_permissionless st).
Definition set_native v st := mkErc20 (e_pairs st) (e_byERC20 st) (e_byDenom st) (e_allowances st) v (e_dynamic st) (e_enabled st) (e_permissionless st).
Definition set_dynamic v st := mkErc20 (e_pairs st) (e_byERC20 st) (e_byDenom st) (e_allowances st) (e_native st) v (e_enabled st) (e_permissionless st).

(** *** Parameters *)

Definition IsERC20Enabled st : bool := e_enabled st.
Definition isPermissionlessRegistration st : bool := e_permissionless st.
Definition GetParams st : Erc20Params :=
  mkErc20Params (IsERC20Enabled st) (isPermissionlessRegistration st).
Definition SetParams (p : Erc20Params) : EM unit :=
  modify (λ st, mkErc20 (e_pairs st) (e_byERC20 st) (e_byDenom st) (e_allowances st) (e_native st) (e_dynamic st)
                  (EnableErc20 p) (PermissionlessRegistration p)).

(** *** Reading; an absent identifier is nil *)

Definition GetERC20Map st (erc20 : Address) : option string := e_byERC20 st !! erc20.
Definition GetDenomMap st (denom : string) : option string := e_byDenom st !! denom.
Definition GetTokenPairID st (token : string) : option string :=
  if IsHexAddress token then GetERC20Map st (HexToAddress token) else GetDenomMap st token.
Definition GetTokenPair st (id : option string) : option TokenPair :=
  match id with None => None | Some id => e_pairs st !! id end.
Definition IsERC20Registered st (erc20 : Address) : bool := bool_decide (is_Some (e_byERC20 st !! erc20)).
Definition IsDenomRegistered st (denom : string) : bool := bool_decide (is_Some (e_byDenom st !! denom)).
Definition IsTokenPairRegistered st (id : string) : bool := bool_decide (is_Some (e_pairs st !! id)).
(** [len(id) == 0]. *)
Definition no_id (id : option string) : bool := String.eqb (default "" id) "".

Definition GetCoinAddress st (denom : string) : res SdkError Address :=
  let id := GetDenomMap st denom in
  if no_id id then GetIBCDenomAddress denom
  else match GetTokenPair st id with
       | None => Err ErrTokenPairNotFound
       | Some tokenPair => Ok (GetERC20Contract tokenPair)
       end.
Definition GetTokenDenom st (tokenAddress : Address) : res SdkError string :=
  let id := GetERC20Map st tokenAddress in
  if no_id id then Err ErrTokenPairNotFound
  else match GetTokenPair st id with
       | None => Err ErrTokenPairNotFound
       | Some tokenPair => Ok (tp_Denom tokenPair)
       end.

(** *** Writing *)

Definition SetTokenPair (tp : TokenPair) : EM unit :=
  modify (λ st, set_pairs (<[GetID tp := tp]> (e_pairs st)) st).
Definition SetERC20Map (erc20 : Address) (id : string) : EM unit :=
  modify (λ st, set_byERC20 (<[erc20 := id]> (e_byERC20 st)) st).
Definition SetDenomMap (denom id : string) : EM unit :=
  modify (λ st, set_byDenom (<[denom := id]> (e_byDenom st)) st).
Definition SetToken (pair : TokenPair) : EM unit :=
  st ← gets id;
  if IsDenomRegistered st (tp_Denom pair) then throw ErrTokenPairAlreadyExists
  else if IsERC20Registered st (GetERC20Contract pair) then throw ErrTokenPairAlreadyExists
  else
    SetTokenPair pair ;;
    SetDenomMap (tp_Denom pair) (GetID pair) ;;
    SetERC20Map (GetERC20Contract pair) (GetID pair).

(** The keys of the contract's allowances start with its address. *)
Definition deleteAllowances (erc20 : Address) : EM unit :=
  modify (λ st, set_allowances (filter (λ kv, kv.1.1.1 ≠ erc20) (e_allowances st)) st).
Definition DeleteTokenPair (tp : TokenPair) : EM unit :=
  modify (λ st, set_pairs (delete (GetID tp) (e_pairs st)) st) ;;
  modify (λ st, set_byERC20 (delete (GetERC20Contract tp) (e_byERC20 st)) st) ;;
  modify (λ st, set_byDenom (delete (tp_Denom tp) (e_byDenom st)) st) ;;
  deleteAllowances (GetERC20Contract tp).

(** The pair of a token, by its contract's address or its denomination. *)
Definition find_pair st (token : string) : res SdkError TokenPair :=
  let id := GetTokenPairID st token in
  if no_id id then Err ErrTokenPairNotFound
  else match GetTokenPair st id with None => Err ErrTokenPairNotFound | Some tokenPair => Ok tokenPair end.
Definition with_Enabled (tp : TokenPair) (b : bool) : TokenPair :=
  mkPair (tp_Erc20Address tp) (tp_Denom tp) b (tp_ContractOwner tp).
Definition toggleConversion (token : string) : EM TokenPair :=
  st ← gets id;
  pair ← return_res (find_pair st token);
  let pair := with_Enabled pair (negb (tp_Enabled pair)) in
  SetTokenPair pair ;;
  mret pair.

(** *** Allowances *)

Definition GetAllowance st (erc20 owner spender : Address) : Z :=
  from_option al_Value 0 (e_allowances st !! (erc20, owner, spender)).
Definition NewAllowance (erc20 owner spender : Address) (value : Z) : Allowance :=
  mkAllowance (hex erc20) (hex owner) (hex spender) value.
(** [None] is a nil value. *)
Definition setAllowance (erc20 owner spender : Address) (value : option Z) (allowDisabledTokenPair : bool) : EM unit :=
  st ← gets id;
  match GetTokenPair st (GetERC20Map st erc20) with
  | None => throw ErrTokenPairNotFound
  | Some tokenPair =>
      if negb allowDisabledTokenPair && negb (tp_Enabled tokenPair) then throw ErrERC20TokenPairDisabled
      else if owner =? 0 then throw ErrInvalidAddress
      else if spender =? 0 then throw ErrInvalidAddress
      else
        match value with
        | None => throw ErrInvalidAllowance
        | Some value =>
            if value <? 0 then throw ErrInvalidAllowance
            else if 2 ^ 256 <=? value then throw ErrInvalidAllowance
            else if value =? 0
            then modify (λ st, set_allowances (delete (erc20, owner, spender) (e_allowances st)) st)
            else modify (λ st, set_allowances
                   (<[(erc20, owner, spender) := NewAllowance erc20 owner spender value]> (e_allowances st)) st)
        end
  end.
Definition SetAllowance (erc20 owner spender : Address) (value : option Z) : EM unit :=
  setAllowance erc20 owner spender value false.
Definition DeleteAllowance (erc20 owner spender : Address) : EM unit :=
  setAllowance erc20 owner spender (Some 0) false.
Definition UnsafeSetAllowance (erc20 owner spender : Address) (value : option Z) : EM unit :=
  setAllowance erc20 owner spender value true.

(** *** Precompiles *)

Definition IsNativePrecompileAvailable st (precompile : Address) : bool := bool_decide (hex precompile ∈ e_native st).
Definition IsDynamicPrecompileAvailable st (precompile : Address) : bool := bool_decide (hex precompile ∈ e_dynamic st).
Definition SetNativePrecompile (precompile : Address) : EM unit :=
  modify (λ st, set_native ({[hex precompile]} ∪ e_native st) st).
Definition DeleteNativePrecompile (precompile : Address) : EM unit :=
  modify (λ st, set_native (e_native st ∖ {[hex precompile]}) st).
Definition SetDynamicPrecompile (precompile : Address) : EM unit :=
  modify (λ st, set_dynamic ({[hex precompile]} ∪ e_dynamic st) st).
Definition DeleteDynamicPrecompile (precompile : Address) : EM unit :=
  modify (λ st, set_dynamic (e_dynamic st ∖ {[hex precompile]}) st).
(** The instance is the pair and whether it has the methods of a wrapped token. *)
Definition InstantiateERC20Precompile st (contractAddr : Address) (hasWrappedMethods : bool) :
    res SdkError (TokenPair * bool) :=
  match find_pair st (hex contractAddr) with
  | Ok tokenPair => Ok (tokenPair, hasWrappedMethods)
  | Err _ => Err (ErrPlain "precompile id not found")
  | Panic p => Panic p
  end.
Definition GetERC20PrecompileInstance st (address : Address) : res SdkError (option (TokenPair * bool)) :=
  let isNative := IsNativePrecompileAvailable st address in
  let isDynamic := IsDynamicPrecompileAvailable st address in
  if negb (isNative || isDynamic) then Ok None
  else
    match InstantiateERC20Precompile st address isNative with
    | Ok p => Ok (Some p)
    | Err e => Err e
    | Panic p => Panic p
    end.
End Registry.
End ER.
