(* ===== verification/Erc20RegistryProps.v ===== *)
(** The registry of the ERC-20 module keeps its indexes consistent: coins and
    contracts are in one-to-one correspondence in every state its operations
    reach. *)
From S2P Require Import Prelude GoStd AccessList Sdk EvmParams Erc20Registry.
Import ER.

(** An identifier determines its two parts. *)
Lemma bar_split (s1 s2 d1 d2 : string) :
  no_bar s1 = true → no_bar s2 = true →
  String.append s1 (String.append "|" d1) = String.append s2 (String.append "|" d2) → s1 = s2 ∧ d1 = d2.
Proof.
  revert s2. induction s1 as [|c1 s1 IH]; intros [|c2 s2] H1 H2 Heq; simpl in *.
  - by injection Heq.
  - injection Heq as <- _. by rewrite bool_decide_eq_true_2 in H2.
  - injection Heq as -> _. by rewrite bool_decide_eq_true_2 in H1.
  - injection Heq as -> Heq. apply andb_prop in H1 as [_ H1], H2 as [_ H2].
    destruct (IH _ H1 H2 Heq) as [-> ->]. done.
Qed.

Module RegistryProps.
Section RegistryProps.
Context `{HP : ParamsLib, HL : Erc20Lib, HEL : !Erc20Laws}.
Implicit Types st : erc20Store.

Definition pair_ok st (id : string) (p : TokenPair) : Prop :=
  id = GetID p ∧ e_byERC20 st !! GetERC20Contract p = Some id ∧ e_byDenom st !! tp_Denom p = Some id ∧
  no_bar (tp_Erc20Address p) = true.
Definition allowance_ok st (key : Address * Address * Address) (a : Allowance) : Prop :=
  is_Some (e_byERC20 st !! key.1.1) ∧ key.1.2 ≠ 0 ∧ key.2 ≠ 0 ∧ 0 < al_Value a < 2 ^ 256 ∧
  a = NewAllowance key.1.1 key.1.2 key.2 (al_Value a).

(** Every pair is found under its contract and its denomination, every index entry
    leads to its pair, and allowances are on registered contracts. *)
Record registry_ok st : Prop := {
  ro_pair : map_Forall (pair_ok st) (e_pairs st);
  ro_erc20 : map_Forall (λ a id, ∃ p, e_pairs st !! id = Some p ∧ GetERC20Contract p = a) (e_byERC20 st);
  ro_denom : map_Forall (λ d id, ∃ p, e_pairs st !! id = Some p ∧ tp_Denom p = d) (e_byDenom st);
  ro_allowance : map_Forall (allowance_ok st) (e_allowances st);
}.

Definition empty_store : erc20Store := mkErc20 ∅ ∅ ∅ ∅ ∅ ∅ true true.
Lemma empty_ok : registry_ok empty_store.
Proof. split; apply map_Forall_empty. Qed.

(** The operations that change the registry, as their callers use them: pairs have
    hexadecimal addresses, and only stored pairs are deleted. *)
Inductive registry_step : erc20Store → erc20Store → Prop :=
| step_SetToken st p : IsHexAddress (tp_Erc20Address p) = true → registry_step st (fst (SetToken p st))
| step_toggle st token : registry_step st (fst (toggleConversion token st))
| step_delete st id p : GetTokenPair st id = Some p → registry_step st (fst (DeleteTokenPair p st))
| step_allowance st c o s v unsafe : registry_step st (fst (setAllowance c o s v unsafe st))
| step_params st p : registry_step st (fst (SetParams p st))
| step_native st v : registry_step st (set_native v st)
| step_dynamic st v : registry_step st (set_dynamic v st).

Lemma GetID_inj p q :
  no_bar (tp_Erc20Address p) = true → no_bar (tp_Erc20Address q) = true → GetID p = GetID q →
  tp_Erc20Address p = tp_Erc20Address q ∧ tp_Denom p = tp_Denom q.
Proof. intros Hp Hq Heq%erl_sum_inj. by apply bar_split. Qed.

Lemma SetToken_ok p st :
  IsHexAddress (tp_Erc20Address p) = true → registry_ok st → registry_ok (fst (SetToken p st)).
Proof.
  intros Hhex%erl_no_bar [Hp He Hd Ha]. unfold SetToken, mbind, M_bind, gets.
  unfold IsDenomRegistered, IsERC20Registered. simpl.
  case_bool_decide as Hden; [done|]. case_bool_decide as Herc; [done|].
  rewrite <- eq_None_not_Some in Hden, Herc.
  assert (Hfresh : e_pairs st !! GetID p = None).
  { destruct (e_pairs st !! GetID p) as [q|] eqn:Hq; [|done]. destruct (Hp _ _ Hq) as (Hid & _ & Hqd & Hb).
    destruct (GetID_inj _ _ Hhex Hb Hid) as [_ Heq]. congruence. }
  split; simpl.
  - intros id q Hq. unfold pair_ok. simpl. destruct (decide (id = GetID p)) as [->|Hne].
    + rewrite lookup_insert_eq in Hq. injection Hq as <-. by rewrite !lookup_insert_eq.
    + rewrite lookup_insert_ne in Hq by done. destruct (Hp _ _ Hq) as (? & Hqe & Hqd & ?).
      rewrite !lookup_insert_ne by congruence. done.
  - apply map_Forall_insert_2.
    + exists p. by rewrite lookup_insert_eq.
    + intros a id Hid. destruct (He _ _ Hid) as (q & Hq & <-). exists q. split; [|done].
      rewrite lookup_insert_ne; [done|]. congruence.
  - apply map_Forall_insert_2.
    + exists p. by rewrite lookup_insert_eq.
    + intros d id Hid. destruct (Hd _ _ Hid) as (q & Hq & <-). exists q. split; [|done].
      rewrite lookup_insert_ne; [done|]. congruence.
  - intros key a Hk. destruct (Ha _ _ Hk) as [Hr Hrest]. split; [|exact Hrest]. simpl.
    destruct (decide (key.1.1 = GetERC20Contract p)) as [->|]; [by rewrite lookup_insert_eq|].
    by rewrite lookup_insert_ne.
Qed.

(** Replacing a pair by one with the same address and denomination. *)
Lemma SetTokenPair_ok p q st :
  registry_ok st → e_pairs st !! GetID p = Some p →
  tp_Erc20Address q = tp_Erc20Address p → tp_Denom q = tp_Denom p →
  registry_ok (fst (SetTokenPair q st)).
Proof.
  intros [Hp He Hd Ha] Hin Hadr Hden.
  assert (Hid : GetID q = GetID p) by (unfold GetID; congruence).
  assert (Hc : GetERC20Contract q = GetERC20Contract p) by (unfold GetERC20Contract; congruence).
  destruct (Hp _ _ Hin) as (_ & Hpe & Hpd & Hb).
  split; simpl; rewrite ?Hid.
  - apply map_Forall_insert_2; [|done]. split_and!; simpl; by rewrite ?Hc, ?Hden, ?Hadr.
  - intros a id Hi. destruct (He _ _ Hi) as (r & Hr & <-). destruct (decide (id = GetID p)) as [->|].
    + exists q. rewrite lookup_insert_eq. split; [done|]. congruence.
    + exists r. by rewrite lookup_insert_ne.
  - intros d id Hi. destruct (Hd _ _ Hi) as (r & Hr & <-). destruct (decide (id = GetID p)) as [->|].
    + exists q. rewrite lookup_insert_eq. split; [done|]. congruence.
    + exists r. by rewrite lookup_insert_ne.
  - exact Ha.
Qed.

Lemma find_pair_ok st token p :
  registry_ok st → find_pair st token = Ok p → e_pairs st !! GetID p = Some p.
Proof.
  intros Hok. unfold find_pair, GetTokenPair. destruct (no_id _); [done|].
  destruct (GetTokenPairID st token) as [id|]; [|done].
  destruct (e_pairs st !! id) as [q|] eqn:Hq; [|done]. intros [= <-].
  destruct (ro_pair _ Hok _ _ Hq) as [-> _]. done.
Qed.
Lemma toggleConversion_ok token st : registry_ok st → registry_ok (fst (toggleConversion token st)).
Proof.
  intros Hok. unfold toggleConversion, mbind, M_bind, gets, return_res, id.
  destruct (find_pair st token) as [p|e|q] eqn:Hf; [|done..]. apply find_pair_ok in Hf; [|done].
  change (registry_ok (fst (SetTokenPair (with_Enabled p (negb (tp_Enabled p))) st))).
  by eapply SetTokenPair_ok.
Qed.

Lemma DeleteTokenPair_ok st id p :
  registry_ok st → GetTokenPair st id = Some p → registry_ok (fst (DeleteTokenPair p st)).
Proof.
  intros [Hp He Hd Ha] Hid. destruct id as [id|]; [|done]. simpl in Hid.
  destruct (Hp _ _ Hid) as (-> & Hpe & Hpd & Hb).
  assert (Hother : ∀ i q, e_pairs st !! i = Some q → i ≠ GetID p →
            GetERC20Contract q ≠ GetERC20Contract p ∧ tp_Denom q ≠ tp_Denom p).
  { intros i q Hq Hne. destruct (Hp _ _ Hq) as (-> & Hqe & Hqd & _). split; congruence. }
  split; simpl.
  - intros i q [Hne Hq]%lookup_delete_Some. destruct (Hother _ _ Hq ltac:(congruence)) as [Hc Hdn].
    destruct (Hp _ _ Hq) as (? & ? & ? & ?). unfold pair_ok. simpl. by rewrite !lookup_delete_ne.
  - intros a i [Hne Hi]%lookup_delete_Some. destruct (He _ _ Hi) as (q & Hq & <-). exists q. split; [|done].
    apply lookup_delete_Some. split; [|done]. intros <-. congruence.
  - intros d i [Hne Hi]%lookup_delete_Some. destruct (Hd _ _ Hi) as (q & Hq & <-). exists q. split; [|done].
    apply lookup_delete_Some. split; [|done]. intros <-. congruence.
  - intros key a [Hk Hne]%map_lookup_filter_Some. simpl in Hne.
    destruct (Ha _ _ Hk) as [Hr Hrest]. split; [|exact Hrest]. simpl. by rewrite lookup_delete_ne.
Qed.

Lemma setAllowance_ok c o s v unsafe st : registry_ok st → registry_ok (fst (setAllowance c o s v unsafe st)).
Proof.
  intros [Hp He Hd Ha]. unfold setAllowance, mbind, M_bind, gets. simpl.
  destruct (GetTokenPair st (GetERC20Map st c)) as [p|] eqn:Hf; [|done].
  destruct (_ && _); [done|]. destruct (Z.eqb_spec o 0); [done|]. destruct (Z.eqb_spec s 0); [done|].
  destruct v as [v|]; [|done]. destruct (Z.ltb_spec v 0); [done|]. destruct (Z.leb_spec (2 ^ 256) v); [done|].
  assert (Hreg : is_Some (e_byERC20 st !! c)).
  { unfold GetTokenPair, GetERC20Map in Hf. destruct (e_byERC20 st !! c); [by eexists|done]. }
  destruct (Z.eqb_spec v 0); split; simpl; try done.
  - by apply map_Forall_delete.
  - apply map_Forall_insert_2; [|done]. split_and!; simpl; [done..|lia|lia|done].
Qed.

Lemma registry_step_ok st st' : registry_step st st' → registry_ok st → registry_ok st'.
Proof.
  destruct 1.
  - by apply SetToken_ok.
  - by apply toggleConversion_ok.
  - intros. by eapply DeleteTokenPair_ok.
  - by apply setAllowance_ok.
  - by intros [].
  - by intros [].
  - by intros [].
Qed.

Lemma no_id_GetID p : no_id (Some (GetID p)) = false.
Proof.
  unfold no_id. simpl. destruct (String.eqb_spec (GetID p) ""); [|done].
  exfalso. by eapply erl_sum_nonempty.
Qed.

(** C36: the registry keeps coins and contracts in one-to-one correspondence.  In
    every state reached from an empty one by registering, toggling and deleting
    pairs, allowances, parameters and precompiles, looking a contract up by its
    coin and a coin up by its contract are inverse to each other, and every
    allowance is a positive 256-bit value between nonzero addresses on a
    registered contract. *)
Theorem registry_bijective st :
  rtc registry_step empty_store st →
  (∀ a d, GetTokenDenom st a = Ok d → GetCoinAddress st d = Ok a) ∧
  (∀ a d, IsDenomRegistered st d = true → GetCoinAddress st d = Ok a → GetTokenDenom st a = Ok d) ∧
  (∀ c o s, GetAllowance st c o s ≠ 0 →
     IsERC20Registered st c = true ∧ o ≠ 0 ∧ s ≠ 0 ∧ 0 < GetAllowance st c o s < 2 ^ 256).
Proof.
  intros Hreach.
  assert (Hok : registry_ok st).
  { pose proof empty_ok as H0. induction Hreach as [|x y z Hxy _ IH]; [done|].
    apply IH. by eapply registry_step_ok. }
  clear Hreach. destruct Hok as [Hp He Hd Ha]. split_and!.
  - intros a d. unfold GetTokenDenom, GetERC20Map, GetTokenPair, GetCoinAddress, GetDenomMap.
    destruct (e_byERC20 st !! a) as [id|] eqn:Hid; [|done]. destruct (no_id _); [done|].
    destruct (e_pairs st !! id) as [p|] eqn:Hq; [|done]. intros [= <-].
    destruct (Hp _ _ Hq) as (-> & Hpe & Hpd & _). rewrite Hpd, no_id_GetID. cbn [GetTokenPair]. rewrite Hq.
    destruct (He _ _ Hid) as (q & Hq' & <-). congruence.
  - intros a d Hreg. unfold GetTokenDenom, GetERC20Map, GetTokenPair, GetCoinAddress, GetDenomMap.
    unfold IsDenomRegistered in Hreg. apply bool_decide_eq_true in Hreg as [id Hid]. rewrite Hid.
    destruct (Hd _ _ Hid) as (p & Hq & <-). destruct (Hp _ _ Hq) as (-> & Hpe & _ & _).
    rewrite no_id_GetID. cbn [GetTokenPair]. rewrite Hq. intros [= <-]. rewrite Hpe, no_id_GetID. cbn [GetTokenPair]. by rewrite Hq.
  - intros c o s. unfold GetAllowance, IsERC20Registered.
    destruct (e_allowances st !! (c, o, s)) as [v|] eqn:Hv; [|done]. intros _.
    destruct (Ha _ _ Hv) as (Hr & Ho & Hs & Hval & _). simpl in *. by rewrite bool_decide_eq_true_2.
Qed.
End RegistryProps.
End RegistryProps.
