(* ===== verification/Erc20Names.v ===== *)
(** Names of ERC-20 tokens: the sanitized name that becomes the display unit of a
    coin ([x/erc20/types/utils.go]) and names returned as 32 bytes
    ([utils/utils.go]).

    The regular expressions are written out on bytes: their classes hold ASCII
    characters only, so a rune of several bytes is removed byte by byte. *)
From Stdlib Require Import Ascii.
From S2P Require Import Prelude.

Definition in_range (lo hi : ascii) (c : ascii) : bool :=
  (N_of_ascii lo <=? N_of_ascii c)%N && (N_of_ascii c <=? N_of_ascii hi)%N.
Definition is_digit : ascii → bool := in_range "0" "9".
Definition is_letter (c : ascii) : bool := in_range "A" "Z" c || in_range "a" "z" c.
Definition newline : ascii := "010".
(** The characters that [[^a-zA-Z0-9/:-]] does not match. *)
Definition is_allowed (c : ascii) : bool :=
  is_letter c || is_digit c || Ascii.eqb c "/" || Ascii.eqb c ":" || Ascii.eqb c "-".

(** [(?m)^(\d+)]: the digits at the start of every line. *)
Fixpoint strip_digits (line_start : bool) (s : string) : string :=
  match s with
  | EmptyString => EmptyString
  | String c s' =>
      if line_start && is_digit c then strip_digits true s'
      else String c (strip_digits (Ascii.eqb c newline) s')
  end.
Definition removeLeadingNumbers (s : string) : string := strip_digits true s.

Fixpoint keep_allowed (s : string) : string :=
  match s with
  | EmptyString => EmptyString
  | String c s' => if is_allowed c then String c (keep_allowed s') else keep_allowed s'
  end.
(** [^[^A-Za-z]|[^a-zA-Z0-9/:-]]: the first character must be a letter. *)
Definition removeSpecialChars (s : string) : string :=
  match s with
  | EmptyString => EmptyString
  | String c s' => if is_letter c then String c (keep_allowed s') else keep_allowed s'
  end.

Definition drop_string (n : nat) (s : string) : string := String.substring n (String.length s - n) s.
(** One prefix is at least four characters, so the length bounds the recursion. *)
Fixpoint remove_prefixes (fuel : nat) (s : string) : string :=
  match fuel with
  | O => s
  | S fuel' =>
      if String.prefix "ibc/" s then remove_prefixes fuel' (drop_string 4 s)
      else if String.prefix "erc20/" s then remove_prefixes fuel' (drop_string 6 s)
      else if String.prefix "erc20:" s then remove_prefixes fuel' (drop_string 6 s)
      else s
  end.
Definition removeInvalidPrefixes (s : string) : string := remove_prefixes (String.length s) s.

Definition SanitizeERC20Name (name : string) : string :=
  let name := removeLeadingNumbers name in
  let name := removeSpecialChars name in
  let name := if 128 <? Z.of_nat (String.length name) then String.substring 0 128 name else name in
  removeInvalidPrefixes name.

(** [utils.Bytes32ToString]: up to the first null byte. *)
Fixpoint Bytes32ToString (data : string) : string :=
  match data with
  | EmptyString => EmptyString
  | String c data' => if Ascii.eqb c "000" then EmptyString else String c (Bytes32ToString data')
  end.

(** ** Properties *)

Fixpoint all_chars (P : ascii → bool) (s : string) : bool :=
  match s with EmptyString => true | String c s' => P c && all_chars P s' end.

Lemma keep_allowed_chars s : all_chars is_allowed (keep_allowed s) = true.
Proof. induction s as [|c s IH]; simpl; [done|]. destruct (is_allowed c) eqn:Hc; simpl; [by rewrite Hc|done]. Qed.
Lemma removeSpecialChars_chars s : all_chars is_allowed (removeSpecialChars s) = true.
Proof.
  destruct s as [|c s]; simpl; [done|]. destruct (is_letter c) eqn:Hc; simpl; [|apply keep_allowed_chars].
  unfold is_allowed at 1. rewrite Hc. simpl. apply keep_allowed_chars.
Qed.
Lemma substring_chars P n m s : all_chars P s = true → all_chars P (String.substring n m s) = true.
Proof.
  revert n m. induction s as [|c s IH]; intros [|n] [|m]; simpl; try done; intros [Hc Hs]%andb_prop.
  - rewrite Hc. by apply IH.
  - by apply IH.
  - by apply IH.
Qed.
Lemma substring_length n m s : (String.length (String.substring n m s) ≤ m)%nat ∧
  (String.length (String.substring n m s) ≤ String.length s - n)%nat.
Proof.
  revert n m. induction s as [|c s IH]; intros [|n] [|m]; simpl; try lia.
  - destruct (IH O m). lia.
  - destruct (IH n O). lia.
  - destruct (IH n (S m)). lia.
Qed.
Lemma prefix_length p s : String.prefix p s = true → (String.length p ≤ String.length s)%nat.
Proof.
  revert s. induction p as [|c p IH]; intros [|d s]; simpl; try done; [lia|].
  destruct (ascii_dec c d); [|done]. intros Hp%IH. lia.
Qed.
Lemma remove_prefixes_chars P fuel s : all_chars P s = true → all_chars P (remove_prefixes fuel s) = true.
Proof.
  revert s. induction fuel as [|fuel IH]; intros s Hs; cbn [remove_prefixes]; [done|].
  repeat case_match; auto; apply IH; by apply substring_chars.
Qed.
Lemma remove_prefixes_length fuel s : (String.length (remove_prefixes fuel s) ≤ String.length s)%nat.
Proof.
  revert s. induction fuel as [|fuel IH]; intros s; cbn [remove_prefixes]; [done|].
  assert (Hd : ∀ n, (String.length (remove_prefixes fuel (drop_string n s)) ≤ String.length s)%nat).
  { intros n. etransitivity; [apply IH|]. unfold drop_string. destruct (substring_length n (String.length s - n) s). lia. }
  by repeat case_match.
Qed.
(** Enough fuel removes every prefix. *)
Lemma remove_prefixes_none fuel s p :
  (String.length s ≤ fuel)%nat → p ∈ ["ibc/"; "erc20/"; "erc20:"]%string →
  String.prefix p (remove_prefixes fuel s) = false.
Proof.
  revert s. induction fuel as [|fuel IH]; intros s Hf Hp; cbn [remove_prefixes].
  { destruct s; [|simpl in Hf; lia]. rewrite !elem_of_cons, elem_of_nil in Hp. naive_solver. }
  assert (Hd : ∀ q n, String.prefix q s = true → (0 < n ≤ String.length q)%nat →
            String.prefix p (remove_prefixes fuel (drop_string n s)) = false).
  { intros q n Hq%prefix_length Hn. apply IH; [|done]. unfold drop_string.
    destruct (substring_length n (String.length s - n) s). lia. }
  destruct (String.prefix "ibc/" s) eqn:H1; [by apply (Hd _ 4%nat H1); simpl; lia|].
  destruct (String.prefix "erc20/" s) eqn:H2; [by apply (Hd _ 6%nat H2); simpl; lia|].
  destruct (String.prefix "erc20:" s) eqn:H3; [by apply (Hd _ 6%nat H3); simpl; lia|].
  rewrite !elem_of_cons, elem_of_nil in Hp. naive_solver.
Qed.

(** A sanitized name holds only letters, digits, slashes, colons and dashes, at most
    128 of them, and does not look like the denomination of a voucher or of a
    registered token. *)
Theorem SanitizeERC20Name_safe name :
  let s := SanitizeERC20Name name in
  all_chars is_allowed s = true ∧ (String.length s ≤ 128)%nat ∧
  String.prefix "ibc/" s = false ∧ String.prefix "erc20/" s = false ∧ String.prefix "erc20:" s = false.
Proof.
  cbv zeta. unfold SanitizeERC20Name, removeInvalidPrefixes.
  set (n := removeSpecialChars (removeLeadingNumbers name)).
  set (t := if 128 <? Z.of_nat (String.length n) then String.substring 0 128 n else n).
  assert (all_chars is_allowed t = true ∧ (String.length t ≤ 128)%nat) as [Hc Hl].
  { pose proof (removeSpecialChars_chars (removeLeadingNumbers name)) as Hn. fold n in Hn. subst t.
    destruct (Z.ltb_spec 128 (Z.of_nat (String.length n))); [|split; [done|lia]].
    split; [by apply substring_chars|]. by destruct (substring_length 0 128 n). }
  split_and!.
  - by apply remove_prefixes_chars.
  - pose proof (remove_prefixes_length (String.length t) t). lia.
  - apply remove_prefixes_none; [done|set_solver].
  - apply remove_prefixes_none; [done|set_solver].
  - apply remove_prefixes_none; [done|set_solver].
Qed.
Example sanitize_example : SanitizeERC20Name "12 erc20:My Token_1!" = "MyToken1"%string.
Proof. by vm_compute. Qed.
