(* ===== verification/Erc20Convert.v ===== *)
(** Conversions between coins and ERC-20 tokens ([x/erc20/keeper/convert.go],
    [msg_server.go], [mint.go], [evm.go], [util.go], [proposals.go],
    [dynamic_precompiles.go]), over the interfaces that the module requires of the
    EVM and bank keepers ([x/erc20/types/interfaces.go]).

    A call that is not given a state database starts from a fresh one on the
    current context, as [statedb.New] does in every caller modelled here.  The
    encoding of calls is go-ethereum's ABI package and is a parameter. *)
From S2P Require Import Prelude GoStd AccessList Sdk EvmCoin StateDB EvmKeeper EvmParams EvmTx Erc20Registry Erc20Names.
Import ER.

(** ** Interfaces *)

(** [types.EVMKeeper] over the state [W] of the chain outside the module. *)
Class EVMKeeper (W : Type) := {
  evk_GetAccountWithoutBalance : W → Address → option EvmKeeper.account;
  evk_GetAccount : W → Address → res SdkError (option EvmKeeper.account);
  evk_GetCode : W → Hash → option string;
  evk_SetCode : Hash → string → W → W;
  evk_SetAccount : Address → EvmKeeper.account → M W SdkError unit;
  (** From, contract, data, commit, callFromPrecompile and gas cap. *)
  evk_CallEVMWithData : Address → option Address → string → bool → bool → option Z →
    M W SdkError MsgEthereumTxResponse;
}.

Record Metadata := mkErc20Metadata {
  mt_Description : string;
  mt_Base : string;
  mt_DenomUnits : list (string * Z);
  mt_Name : string;
  mt_Symbol : string;
  mt_Display : string;
}.

(** [types.BankKeeper]. *)
Class Erc20Bank (W : Type) := {
  wb_GetBalance : W → Address → string → Z;
  wb_BlockedAddr : Address → bool;
  wb_IsSendEnabled : W → string → bool;
  wb_AccountToModule : Address → string → Coins → M W SdkError unit;
  wb_ModuleToAccount : string → Address → Coins → M W SdkError unit;
  wb_MintCoins : string → Coins → M W SdkError unit;
  wb_BurnCoins : string → Coins → M W SdkError unit;
  wb_GetDenomMetaData : W → string → option Metadata;
  wb_SetDenomMetaData : Metadata → W → W;
}.

(** The ABI of the ERC-20 contract, and the parts of a log. *)
Class Erc20Abi := {
  pack_transfer : Address → Z → option string;
  pack_balanceOf : Address → option string;
  (** A method without arguments. *)
  pack_query : string → option string;
  unpack_bool : string → option bool;
  unpack_uint256 : string → option Z;
  unpack_uint8 : string → option Z;
  unpack_string : string → option string;
  logTransferSigHash : string;
  lg_Address : Log → string;
  lg_Topics : Log → list string;
}.

(** Bech32 addresses, the codec of addresses, the module's address, the validation of
    bank metadata and the bytecode of the precompiles, which all coins share. *)
Class Erc20Env := {
  AccAddressFromBech32 : string → option Address;
  addrCodec_StringToBytes : string → option Address;
  ModuleAddress : Address;
  Metadata_Validate : Metadata → bool;
  Erc20Bytecode : string;
}.

Definition ModuleName : string := "erc20".
Definition ErrNativeConversionDisabled : SdkError := ErrPlain "native coins manual conversion is disabled".
Definition ErrEVMCall : SdkError := ErrPlain "EVM call unexpected error".
Definition ErrLogic : SdkError := ErrPlain "internal logic error".
Definition ErrExpectedEvent : SdkError := ErrPlain "expected event".
Definition ErrUnexpectedEvent : SdkError := ErrPlain "unexpected event".
Definition ErrNegativeToken : SdkError := ErrPlain "token amount is negative".
Definition ErrABIUnpack : SdkError := ErrPlain "contract ABI unpack failed".
Definition ErrABIPack : SdkError := ErrPlain "contract ABI pack failed".

(** The module's events. *)
Inductive erc20Event :=
| EventConvertERC20 (sender receiver : Address) (amount : Z) (denom : string) (contract : Address)
| EventRegisterERC20 (denom contract : string)
| EventToggleTokenConversion (denom contract : string)
| EventRegisterERC20Extension (sourceChannel contract denom : string)
| EventCallbackFailure (denom : string) (receiver : Address)
| EventFailedConvertERC20 (denom contract : string).

Record erc20Ctx (W : Type) := mkECtx { ec_store : erc20Store; ec_world : W; ec_events : list erc20Event }.
Arguments mkECtx {W}.
Arguments ec_store {W}.
Arguments ec_world {W}.
Arguments ec_events {W}.

Section Convert.
Context {W : Type}.
Context `{HP : ParamsLib, HL : Erc20Lib, HCr : Crypto, HK : !EVMKeeper W, HB : !Erc20Bank W, HAbi : Erc20Abi,
          HEnv : Erc20Env}.
Abbreviation WM := (M W SdkError).
Abbreviation CM := (M (erc20Ctx W) SdkError).

Definition on_store {X} : M erc20Store SdkError X → CM X :=
  zoom ec_store (λ st c, mkECtx st (ec_world c) (ec_events c)).
Definition on_world {X} : WM X → CM X :=
  zoom ec_world (λ w c, mkECtx (ec_store c) w (ec_events c)).
Definition emit_erc20 (e : erc20Event) : CM unit :=
  modify (λ c, mkECtx (ec_store c) (ec_world c) (ec_events c ++ [e])).

(** ** Calls of contracts *)

(** [CallEVM] of [x/vm/keeper/call_evm.go], with the packed call. *)
Definition CallEVM (from contract : Address) (commit callFromPrecompile : bool) (gasCap : option Z)
    (packed : option string) : WM MsgEthereumTxResponse :=
  match packed with
  | None => throw ErrABIPack
  | Some data => evk_CallEVMWithData from (Some contract) data commit callFromPrecompile gasCap
  end.

(** [None] is a nil balance: the call or the decoding failed. *)
Definition BalanceOf (contract account : Address) : WM (option Z) := λ w,
  match CallEVM ModuleAddress contract false false None (pack_balanceOf account) w with
  | (w', Ok res) => (w', Ok (unpack_uint256 (r_Ret res)))
  | (w', Err _) => (w', Ok None)
  | (w', Panic p) => (w', Panic p)
  end.
Definition queryERC20String (contract : Address) (method : string) : WM string :=
  res ← CallEVM ModuleAddress contract false false None (pack_query method);
  match unpack_string (r_Ret res) with
  | Some s => mret s
  | None =>
      if Z.of_nat (String.length (r_Ret res)) =? 32 then mret (Bytes32ToString (r_Ret res))
      else throw ErrABIUnpack
  end.
Record ERC20Data := mkERC20Data { d_Name : string; d_Symbol : string; d_Decimals : Z }.
Definition QueryERC20 (contract : Address) : WM ERC20Data :=
  name ← queryERC20String contract "name";
  symbol ← queryERC20String contract "symbol";
  res ← CallEVM ModuleAddress contract false false None (pack_query "decimals");
  match unpack_uint8 (r_Ret res) with
  | None => throw ErrABIUnpack
  | Some decimals => mret (mkERC20Data name symbol decimals)
  end.

(** The loop of [validateTransferEventExists]; a log without topics panics. *)
Fixpoint transfer_events (tokenAddress : Address) (found : bool) (logs : list Log) : res SdkError bool :=
  match logs with
  | [] => Ok found
  | log :: logs' =>
      match lg_Topics log with
      | [] => Panic "index out of range"
      | topic :: _ =>
          if String.eqb topic logTransferSigHash then
            if negb (String.eqb (lg_Address log) (hex tokenAddress)) then Err ErrUnexpectedEvent
            else if found then Err ErrUnexpectedEvent
            else transfer_events tokenAddress true logs'
          else transfer_events tokenAddress found logs'
      end
  end.
Definition validateTransferEventExists (logs : list Log) (tokenAddress : Address) : res SdkError unit :=
  if Z.of_nat (length logs) =? 0 then Err ErrExpectedEvent
  else
    match transfer_events tokenAddress false logs with
    | Ok found => if found then Ok tt else Err ErrExpectedEvent
    | Err e => Err e
    | Panic p => Panic p
    end.
(** Whether the transfer reported success: a returned true, or one event. *)
Definition check_transfer (contract : Address) (res : MsgEthereumTxResponse) : verdict :=
  if Z.of_nat (String.length (r_Ret res)) =? 0 then validateTransferEventExists (r_Logs res) contract
  else
    match unpack_bool (r_Ret res) with
    | None => Err (ErrPlain "abi: cannot unmarshal")
    | Some ok => if ok : bool then Ok tt else Err ErrLogic
    end.

(** ** Conversions *)

Definition MintingEnabled (receiver : Address) (token : string) : CM TokenPair :=
  st ← gets ec_store;
  if negb (IsERC20Enabled st) then throw ErrERC20Disabled
  else
    tokenPair ← return_res (find_pair st token);
    if negb (tp_Enabled tokenPair) then throw ErrERC20TokenPairDisabled
    else if wb_BlockedAddr receiver then throw ErrUnauthorized
    else
      enabled ← gets (λ c, wb_IsSendEnabled (ec_world c) (tp_Denom tokenPair));
      if negb enabled then throw ErrSendDisabled else mret tokenPair.

(** [acc == nil || !acc.HasCodeHash()]: the contract is gone. *)
Definition destroyed (w : W) (contract : Address) : bool :=
  match evk_GetAccountWithoutBalance w contract with
  | None => true
  | Some acc => IsEmptyCodeHash (EvmKeeper.ka_CodeHash acc)
  end.

(** The result is whether there is a response: none when the pair was removed. *)
Definition ConvertERC20IntoCoinsForNativeToken (contract : Address) (amount : Z) (receiver sender : Address)
    (commit callFromPrecompile : bool) : CM bool :=
  tokenPair ← MintingEnabled receiver (hex contract);
  if negb (IsNativeERC20 tokenPair)
  then throw (if IsNativeCoin tokenPair then ErrNativeConversionDisabled else ErrUndefinedOwner)
  else
    let erc20Contract := GetERC20Contract tokenPair in
    gone ← gets (λ c, destroyed (ec_world c) erc20Contract);
    if gone : bool then on_store (DeleteTokenPair tokenPair) ;; mret false
    else
      balanceCoin ← gets (λ c, wb_GetBalance (ec_world c) receiver (tp_Denom tokenPair));
      before ← on_world (BalanceOf erc20Contract ModuleAddress);
      match before with
      | None => throw ErrEVMCall
      | Some balanceToken =>
          match pack_transfer ModuleAddress amount with
          | None => throw (ErrPlain "abi: cannot pack")
          | Some transferData =>
              res ← on_world (evk_CallEVMWithData sender (Some erc20Contract) transferData commit callFromPrecompile None);
              return_res (check_transfer erc20Contract res) ;;
              after ← on_world (BalanceOf erc20Contract ModuleAddress);
              match after with
              | None => throw ErrEVMCall
              | Some balanceTokenAfter =>
                  let coins := [mkCoin (tp_Denom tokenPair) amount] in
                  if negb (balanceTokenAfter =? balanceToken + amount) then throw ErrBalanceInvariance
                  else
                    on_world (wb_MintCoins ModuleName coins) ;;
                    on_world (wb_ModuleToAccount ModuleName receiver coins) ;;
                    balanceCoinAfter ← gets (λ c, wb_GetBalance (ec_world c) receiver (tp_Denom tokenPair));
                    expCoin ← int_checked (balanceCoin + amount);
                    if negb (balanceCoinAfter =? expCoin) then throw ErrBalanceInvariance
                    else
                      emit_erc20 (EventConvertERC20 sender receiver amount (tp_Denom tokenPair) contract) ;;
                      mret true
              end
          end
      end.

Definition ConvertCoinNativeERC20 (tokenPair : TokenPair) (amount : Z) (receiver sender : Address)
    (callFromPrecompile : bool) : CM unit :=
  if negb (0 <? amount) then throw ErrNegativeToken
  else
    let contract := GetERC20Contract tokenPair in
    before ← on_world (BalanceOf contract receiver);
    match before with
    | None => throw ErrEVMCall
    | Some balanceToken =>
        let coins := [mkCoin (tp_Denom tokenPair) amount] in
        on_world (wb_AccountToModule sender ModuleName coins) ;;
        res ← on_world (CallEVM ModuleAddress contract true callFromPrecompile None (pack_transfer receiver amount));
        return_res (check_transfer contract res) ;;
        after ← on_world (BalanceOf contract receiver);
        match after with
        | None => throw ErrEVMCall
        | Some balanceTokenAfter =>
            if negb (balanceTokenAfter =? balanceToken + amount) then throw ErrBalanceInvariance
            else on_world (wb_BurnCoins ModuleName coins)
        end
    end.

(** ** The message server *)

Record MsgConvertERC20 := mkMsgConvertERC20 {
  ce_ContractAddress : string;
  ce_Amount : Z;
  ce_Receiver : string;
  ce_Sender : string;
}.
Record MsgConvertCoin := mkMsgConvertCoin { cc_Coin : Coin; cc_Receiver : string; cc_Sender : string }.

Definition MsgConvertERC20_ValidateBasic (msg : MsgConvertERC20) : verdict :=
  if negb (IsHexAddress (ce_ContractAddress msg)) then Err ErrInvalidAddress
  else if negb (0 <? ce_Amount msg) then Err ErrInvalidCoins
  else if bool_decide (AccAddressFromBech32 (ce_Receiver msg) = None) then Err (ErrPlain "invalid receiver address")
  else if negb (IsHexAddress (ce_Sender msg)) then Err ErrInvalidAddress
  else Ok tt.
Definition MsgConvertCoin_ValidateBasic (msg : MsgConvertCoin) : verdict :=
  if String.eqb (Denom (cc_Coin msg)) "" then Err ErrInvalidCoins
  else if negb (0 <? Amount (cc_Coin msg)) then Err ErrInvalidCoins
  else if bool_decide (AccAddressFromBech32 (cc_Sender msg) = None) then Err (ErrPlain "invalid sender address")
  else if negb (IsHexAddress (cc_Receiver msg)) then Err ErrInvalidAddress
  else Ok tt.

Definition ConvertERC20 (msg : MsgConvertERC20) : CM bool :=
  match AccAddressFromBech32 (ce_Receiver msg) with
  | None => throw (ErrPlain "decoding bech32 failed")
  | Some receiver =>
      ConvertERC20IntoCoinsForNativeToken (HexToAddress (ce_ContractAddress msg)) (ce_Amount msg) receiver
        (HexToAddress (ce_Sender msg)) true false
  end.
Definition ConvertCoin (msg : MsgConvertCoin) : CM unit :=
  match AccAddressFromBech32 (cc_Sender msg) with
  | None => panic "decoding bech32 failed"
  | Some sender =>
      let receiver := HexToAddress (cc_Receiver msg) in
      tokenPair ← MintingEnabled receiver (Denom (cc_Coin msg));
      if IsNativeERC20 tokenPair then
        gone ← gets (λ c, destroyed (ec_world c) (GetERC20Contract tokenPair));
        if gone : bool then on_store (DeleteTokenPair tokenPair)
        else ConvertCoinNativeERC20 tokenPair (Amount (cc_Coin msg)) receiver sender false
      else if IsNativeCoin tokenPair then throw ErrNativeConversionDisabled
      else throw ErrUndefinedOwner
  end.

Definition validateAuthority (keeperAuthority authority : string) : verdict :=
  if bool_decide (addrCodec_StringToBytes authority = None) then Err ErrInvalidAddress
  else if negb (String.eqb keeperAuthority authority) then Err ErrInvalidSigner
  else Ok tt.
Definition UpdateParams (keeperAuthority authority : string) (p : Erc20Params) : CM unit :=
  if negb (String.eqb keeperAuthority authority) then throw ErrInvalidSigner
  else on_store (SetParams p).

(** ** Registration *)

Definition CreateDenom (address : string) : string := String.append "erc20:" address.
Definition CreateDenomDescription (address : string) : string :=
  String.append "Cosmos coin token representation of " address.
(** The metadata of the coin of a contract. *)
Definition coin_metadata (strContract : string) (d : ERC20Data) : Metadata :=
  let base := CreateDenom strContract in
  let display := SanitizeERC20Name (d_Name d) in
  let units := [(base, 0)] in
  if 0 <? d_Decimals d
  then mkErc20Metadata (CreateDenomDescription strContract) base (units ++ [(display, d_Decimals d)])
         (CreateDenom strContract) (d_Symbol d) display
  else mkErc20Metadata (CreateDenomDescription strContract) base units (CreateDenom strContract) (d_Symbol d) base.
Definition CreateCoinMetadata (contract : Address) : CM Metadata :=
  let strContract := hex contract in
  erc20Data ← on_world (QueryERC20 contract);
  c ← gets (λ c : erc20Ctx W, c);
  if bool_decide (is_Some (wb_GetDenomMetaData (ec_world c) (CreateDenom strContract)))
  then throw ErrInternalTokenPair
  else if IsDenomRegistered (ec_store c) (CreateDenom strContract) then throw ErrInternalTokenPair
  else
    let metadata := coin_metadata strContract erc20Data in
    if negb (Metadata_Validate metadata) then throw (ErrPlain "ERC20 token data is invalid")
    else on_world (modify (wb_SetDenomMetaData metadata)) ;; mret metadata.
Definition registerERC20 (contract : Address) : CM TokenPair :=
  st ← gets ec_store;
  if IsERC20Registered st contract then throw ErrTokenPairAlreadyExists
  else
    metadata ← CreateCoinMetadata contract;
    let tokenPair := NewTokenPair contract (mt_Name metadata) OWNER_EXTERNAL in
    on_store (SetToken tokenPair) ;;
    mret tokenPair.
Definition RegisterERC20 (keeperAuthority signer : string) (erc20Addresses : list string) : CM unit :=
  st ← gets ec_store;
  (if negb (PermissionlessRegistration (GetParams st))
   then return_res (validateAuthority keeperAuthority signer) else mret tt) ;;
  if negb (IsERC20Enabled st) then throw ErrERC20Disabled
  else
    for_each erc20Addresses (λ addr,
      if negb (IsHexAddress addr) then throw ErrInvalidAddress
      else
        tokenPair ← registerERC20 (HexToAddress addr);
        emit_erc20 (EventRegisterERC20 (tp_Denom tokenPair) (tp_Erc20Address tokenPair))).
Definition ToggleConversion (keeperAuthority authority token : string) : CM unit :=
  st ← gets ec_store;
  if negb (IsERC20Enabled st) then throw ErrERC20Disabled
  else
    return_res (validateAuthority keeperAuthority authority) ;;
    tokenPair ← on_store (toggleConversion token);
    emit_erc20 (EventToggleTokenConversion (tp_Denom tokenPair) (tp_Erc20Address tokenPair)).

(** ** Precompiles of coins *)

Definition set_code_hash (erc20Addr : Address) (codeHash : Hash) : WM unit :=
  acc ← (λ w, (w, evk_GetAccount w erc20Addr));
  evk_SetAccount erc20Addr
    match acc with
    | Some acc => EvmKeeper.mkKAccount (EvmKeeper.ka_Nonce acc) (EvmKeeper.ka_Balance acc) codeHash
    | None => EvmKeeper.mkKAccount 0 (Some 0) codeHash
    end.
Definition RegisterERC20CodeHash (erc20Addr : Address) : WM unit :=
  let codeHash := Keccak256Hash Erc20Bytecode in
  code ← gets (λ w, evk_GetCode w codeHash);
  when (Z.of_nat (String.length (default ""%string code)) =? 0) (modify (evk_SetCode codeHash Erc20Bytecode)) ;;
  set_code_hash erc20Addr codeHash.
Definition UnRegisterERC20CodeHash (erc20Addr : Address) : WM unit :=
  set_code_hash erc20Addr EmptyCodeHash.

Inductive PrecompileType := PrecompileTypeNative | PrecompileTypeDynamic.
Definition RegisterCodeHash (addr : Address) (pType : PrecompileType) : CM unit :=
  st ← gets ec_store;
  let shouldRegister := match pType with
                        | PrecompileTypeNative => negb (IsNativePrecompileAvailable st addr)
                        | PrecompileTypeDynamic => negb (IsDynamicPrecompileAvailable st addr)
                        end in
  when shouldRegister (on_world (RegisterERC20CodeHash addr)).
Definition EnableNativePrecompile (addr : Address) : CM unit :=
  RegisterCodeHash addr PrecompileTypeNative ;; on_store (SetNativePrecompile addr).
Definition EnableDynamicPrecompile (addr : Address) : CM unit :=
  RegisterCodeHash addr PrecompileTypeDynamic ;; on_store (SetDynamicPrecompile addr).
Definition CreateNewTokenPair (denom : string) : CM TokenPair :=
  tokenPair ← return_res (NewTokenPairSTRv2 denom);
  account ← (λ c, (c, evk_GetAccount (ec_world c) (GetERC20Contract tokenPair)));
  if match account with Some acc => negb (IsEmptyCodeHash (EvmKeeper.ka_CodeHash acc)) | None => false end
  then throw ErrTokenPairAlreadyExists
  else on_store (SetToken tokenPair) ;; mret tokenPair.
Definition RegisterERC20Extension (denom : string) : CM TokenPair :=
  tokenPair ← CreateNewTokenPair denom;
  EnableDynamicPrecompile (GetERC20Contract tokenPair) ;;
  mret tokenPair.
End Convert.
