(* ===== verification/Erc20Props.v ===== *)
(** Conversions keep the coins of plain ERC-20 contracts backed: the module holds at
    least as many tokens of a contract as there are coins of it.

    The properties are proved against the ledgers of the chain: the supply of a coin
    and the balances that a contract keeps, with what the keepers promise of them.
    They are about plain token contracts only: the code of a contract is not the
    module's, and the module does not look at it.  A contract that calls the ICS-20
    precompile can mint coins during a transfer, and the ERC-20 precompiles report
    balances of the bank, so such contracts are not plain. *)
From S2P Require Import Prelude GoStd AccessList Sdk EvmCoin StateDB EvmKeeper EvmParams EvmTx Erc20Registry Erc20RegistryProps Erc20Names Erc20Convert.
Import ER RegistryProps.

(** The supply of a denomination, the balance of an account in a contract, and the
    plain token contracts: those that keep the balances of the ERC-20 standard in
    their own storage and call no other contract and no precompile.  The addresses of
    precompiles are not among them. *)
Class ConversionWorld (W : Type) := {
  cw_supply : W → string → Z;
  cw_tokens : W → Address → Address → Z;
  cw_plain : Address → Prop;
}.
(** The denomination of the coin of a contract. *)
Definition coin_of `{ParamsLib} (contract : Address) : string := CreateDenom (hex contract).
(** The coins and the balances of plain contracts stay as they are. *)
Definition same_ledgers `{ParamsLib, ConversionWorld W} (w w' : W) : Prop :=
  (∀ c, cw_plain c → cw_supply w' (coin_of c) = cw_supply w (coin_of c)) ∧
  (∀ c a, cw_plain c → cw_tokens w' c a = cw_tokens w c a).
(** The supply of one denomination moves, and nothing else of plain contracts. *)
Definition supply_moves `{ParamsLib, ConversionWorld W} (w w' : W) (denom : string) (delta : Z) : Prop :=
  (∀ c, cw_plain c → cw_supply w' (coin_of c) = cw_supply w (coin_of c) + if decide (coin_of c = denom) then delta else 0) ∧
  (∀ c a, cw_plain c → cw_tokens w' c a = cw_tokens w c a).

(** Documented behaviour of the keepers, for the coins of plain contracts: minting and
    burning move the supply, sending does not; and of the plain contracts themselves:
    a call that is not committed writes nothing, [balanceOf] reports the balance, a
    call of one neither mints nor burns coins nor moves the tokens of another, a
    transfer of the module takes no more than its amount from it. *)
Class ConversionLaws (W : Type) `{HP : ParamsLib, HCr : Crypto, HK : !EVMKeeper W, HB : !Erc20Bank W, HAbi : Erc20Abi,
    HEnv : Erc20Env, HW : !ConversionWorld W} : Prop := {
  cwl_mint m c x w w' :
    cw_plain c → wb_MintCoins m [mkCoin (coin_of c) x] w = (w', Ok tt) → supply_moves w w' (coin_of c) x;
  cwl_burn m c x w w' :
    cw_plain c → wb_BurnCoins m [mkCoin (coin_of c) x] w = (w', Ok tt) → supply_moves w w' (coin_of c) (- x);
  cwl_to_module a m c x w w' :
    cw_plain c → wb_AccountToModule a m [mkCoin (coin_of c) x] w = (w', Ok tt) → same_ledgers w w';
  cwl_to_account m a c x w w' :
    cw_plain c → wb_ModuleToAccount m a [mkCoin (coin_of c) x] w = (w', Ok tt) → same_ledgers w w';
  cwl_metadata md w : same_ledgers w (wb_SetDenomMetaData md w);
  cwl_query from c data cap w w' r :
    cw_plain c → evk_CallEVMWithData from (Some c) data false false cap w = (w', r) → same_ledgers w w';
  cwl_balance c a w w' b : cw_plain c → BalanceOf c a w = (w', Ok (Some b)) → b = cw_tokens w c a;
  cwl_call from c data cfp cap w w' res :
    cw_plain c → evk_CallEVMWithData from (Some c) data true cfp cap w = (w', Ok res) →
    (∀ c', cw_plain c' → cw_supply w' (coin_of c') = cw_supply w (coin_of c')) ∧
    (∀ c' a, cw_plain c' → c' ≠ c → cw_tokens w' c' a = cw_tokens w c' a);
  cwl_transfer to amount c data cfp cap w w' res :
    cw_plain c → 0 ≤ amount → pack_transfer to amount = Some data →
    evk_CallEVMWithData ModuleAddress (Some c) data true cfp cap w = (w', Ok res) →
    cw_tokens w c ModuleAddress - amount ≤ cw_tokens w' c ModuleAddress;
  cwl_tokens w c a : cw_plain c → 0 ≤ cw_tokens w c a;
}.

Module ConvertProps.
Section ConvertProps.
Context {W : Type}.
Context `{HP : ParamsLib, HL : Erc20Lib, HEL : !Erc20Laws, HCr : Crypto, HK : !EVMKeeper W, HB : !Erc20Bank W,
          HAbi : Erc20Abi, HEnv : Erc20Env, HW : !ConversionWorld W, HCL : !ConversionLaws W}.
Implicit Types (c : erc20Ctx W) (w : W) (p q : TokenPair).

(** The pair of a plain contract and its coin. *)
Definition plain_pair p : Prop := cw_plain (GetERC20Contract p) ∧ tp_Denom p = coin_of (GetERC20Contract p).

Lemma ledgers_trans w1 w2 w3 : same_ledgers w1 w2 → same_ledgers w2 w3 → same_ledgers w1 w3.
Proof. intros [H1 H2] [H3 H4]. split; intros; [by rewrite H3, H1|by rewrite H4, H2]. Qed.

Lemma on_world_run {X} (m : M W SdkError X) c c' r :
  on_world m c = (c', r) →
  m (ec_world c) = (ec_world c', r) ∧ ec_store c' = ec_store c ∧ ec_events c' = ec_events c.
Proof. unfold on_world, zoom. destruct (m _) as [w r1]. by intros [= <- <-]. Qed.
Lemma on_store_run {X} (m : M erc20Store SdkError X) c c' r :
  on_store m c = (c', r) →
  m (ec_store c) = (ec_store c', r) ∧ ec_world c' = ec_world c ∧ ec_events c' = ec_events c.
Proof. unfold on_store, zoom. destruct (m _) as [w r1]. by intros [= <- <-]. Qed.

Lemma call_reads from contract packed w w' r :
  cw_plain contract → CallEVM from contract false false None packed w = (w', r) → same_ledgers w w'.
Proof. unfold CallEVM. intros Hc. destruct packed; [by apply cwl_query|by intros [= <- _]]. Qed.
Lemma BalanceOf_run contract a w w' b :
  cw_plain contract → BalanceOf contract a w = (w', Ok (Some b)) → b = cw_tokens w contract a ∧ same_ledgers w w'.
Proof.
  intros Hc Hb. split; [by eapply cwl_balance|]. revert Hb. unfold BalanceOf.
  destruct (CallEVM _ _ _ _ _ _ _) as [w1 [x|e|s]] eqn:Hcall; intros [= <- _]; by eapply call_reads.
Qed.
Lemma queryERC20String_reads contract method w w' r :
  cw_plain contract → queryERC20String contract method w = (w', Ok r) → same_ledgers w w'.
Proof.
  unfold queryERC20String. intros Hc Hr. bind_step Hr. apply call_reads in Hstep; [|done].
  destruct (unpack_string _); [by injection Hr as <- _|]. destruct (_ =? _); by injection Hr as <- _.
Qed.
Lemma QueryERC20_reads contract w w' d : cw_plain contract → QueryERC20 contract w = (w', Ok d) → same_ledgers w w'.
Proof.
  unfold QueryERC20. intros Hc Hr. do 3 bind_step Hr.
  apply queryERC20String_reads in Hstep, Hstep0; [|done..]. apply call_reads in Hstep1; [|done].
  destruct (unpack_uint8 _); [injection Hr as <- _|done]. by do 2 (eapply ledgers_trans; [done|]).
Qed.

(** ** One conversion *)

Lemma MintingEnabled_run receiver token c c' p :
  MintingEnabled receiver token c = (c', Ok p) → c' = c ∧ find_pair (ec_store c) token = Ok p.
Proof.
  unfold MintingEnabled. intros Hr. bind_step Hr. injection Hstep as <- <-.
  destruct (negb _); [done|]. bind_step Hr. unfold return_res in Hstep. injection Hstep as <- Hf.
  destruct (negb _); [done|]. destruct (wb_BlockedAddr _); [done|]. bind_step Hr.
  injection Hstep as <- <-. destruct (negb _); [done|]. by injection Hr as <- <-.
Qed.

(** Tokens into coins: the module's tokens, the supply of the coin and the coins of the
    receiver all grow by the amount; the tokens of other plain contracts stay. *)
Lemma convert_tokens_exact contract amount receiver sender cfp c c' :
  (∀ p, find_pair (ec_store c) (hex contract) = Ok p → IsNativeERC20 p = true → plain_pair p) →
  ConvertERC20IntoCoinsForNativeToken contract amount receiver sender true cfp c = (c', Ok true) →
  ∃ p, find_pair (ec_store c) (hex contract) = Ok p ∧ plain_pair p ∧ ec_store c' = ec_store c ∧
    cw_tokens (ec_world c') (GetERC20Contract p) ModuleAddress =
      cw_tokens (ec_world c) (GetERC20Contract p) ModuleAddress + amount ∧
    (∀ k, cw_plain k → cw_supply (ec_world c') (coin_of k) =
       cw_supply (ec_world c) (coin_of k) + if decide (coin_of k = tp_Denom p) then amount else 0) ∧
    wb_GetBalance (ec_world c') receiver (tp_Denom p) = wb_GetBalance (ec_world c) receiver (tp_Denom p) + amount ∧
    (∀ k, cw_plain k → k ≠ GetERC20Contract p →
       cw_tokens (ec_world c') k ModuleAddress = cw_tokens (ec_world c) k ModuleAddress).
Proof.
  unfold ConvertERC20IntoCoinsForNativeToken. intros Hall Hr. bind_step Hr.
  apply MintingEnabled_run in Hstep as [-> Hf]. rename x into p. exists p.
  destruct (IsNativeERC20 p) eqn:Hn; [|done]. destruct (Hall p Hf Hn) as [Hp Hden]. simpl in Hr. bind_step Hr. injection Hstep as <- <-.
  destruct (destroyed _ _); [by bind_step Hr|]. bind_step Hr. injection Hstep as <- <-.
  bind_step Hr. apply on_world_run in Hstep as (Hb1 & Hs1 & _). destruct x as [b1|]; [|done].
  destruct (pack_transfer _ _) as [data|]; [|done].
  bind_step Hr. apply on_world_run in Hstep as (Hcall & Hs2 & _).
  bind_step Hr. unfold return_res in Hstep. injection Hstep as <- _.
  bind_step Hr. apply on_world_run in Hstep as (Hb2 & Hs3 & _). destruct x1 as [b2|]; [|done].
  destruct (Z.eqb_spec b2 (b1 + amount)) as [->|]; [|done]. simpl in Hr.
  bind_step Hr. apply on_world_run in Hstep as (Hmint & Hs4 & _). destruct x1.
  bind_step Hr. apply on_world_run in Hstep as (Hsend & Hs5 & _). destruct x1.
  bind_step Hr. injection Hstep as <- <-. bind_step Hr.
  unfold int_checked in Hstep. destruct (int_fits _); [|done]. injection Hstep as <- <-.
  destruct (Z.eqb_spec (wb_GetBalance (ec_world s3) receiver (tp_Denom p))
              (wb_GetBalance (ec_world c) receiver (tp_Denom p) + amount)) as [Hbal|]; [|done].
  simpl in Hr. bind_step Hr. injection Hstep as <- _. injection Hr as <-. simpl.
  apply BalanceOf_run in Hb1 as [-> [HS1 HT1]], Hb2 as [Heq [HS2 HT2]]; [|done..].
  rewrite Hden in Hmint, Hsend. apply cwl_mint in Hmint as [HS3 HT3]; [|done]. apply cwl_to_account in Hsend as [HS4 HT4]; [|done].
  destruct (cwl_call _ _ _ _ _ _ _ _ Hp Hcall) as [HS5 HT5].
  split_and!; try done; [congruence|..].
  - rewrite HT4, HT3, HT2 by done. congruence.
  - intros k Hk. by rewrite HS4, HS3, HS2, HS5, HS1, Hden.
  - intros k Hk Hne. by rewrite HT4, HT3, HT2, HT5, HT1.
Qed.
Lemma convert_tokens_gone contract amount receiver sender cfp c c' :
  ConvertERC20IntoCoinsForNativeToken contract amount receiver sender true cfp c = (c', Ok false) →
  ∃ p, find_pair (ec_store c) (hex contract) = Ok p ∧ ec_world c' = ec_world c ∧
    ec_store c' = fst (DeleteTokenPair p (ec_store c)).
Proof.
  unfold ConvertERC20IntoCoinsForNativeToken. intros Hr. bind_step Hr.
  apply MintingEnabled_run in Hstep as [-> Hf]. exists x. split; [done|].
  destruct (IsNativeERC20 x); [|done]. simpl in Hr. bind_step Hr. injection Hstep as <- <-.
  destruct (destroyed _ _).
  - bind_step Hr. injection Hr as <-. by apply on_store_run in Hstep as (Hd & ? & _); rewrite Hd.
  - bind_step Hr. injection Hstep as <- <-. bind_step Hr. destruct x0; [|done]. destruct (pack_transfer _ _); [|done].
    do 3 bind_step Hr. destruct x2; [|done]. destruct (negb _); [done|]. do 4 bind_step Hr.
    destruct (negb _); [done|]. by bind_step Hr.
Qed.

(** Coins into tokens: the tokens of the receiver grow by the amount and the supply
    shrinks by it; the contract takes no more than the amount from the module. *)
Lemma convert_coins_exact p amount receiver sender cfp c c' :
  plain_pair p → ConvertCoinNativeERC20 p amount receiver sender cfp c = (c', Ok tt) →
  0 < amount ∧ ec_store c' = ec_store c ∧
  cw_tokens (ec_world c') (GetERC20Contract p) receiver = cw_tokens (ec_world c) (GetERC20Contract p) receiver + amount ∧
  (∀ k, cw_plain k → cw_supply (ec_world c') (coin_of k) =
     cw_supply (ec_world c) (coin_of k) - if decide (coin_of k = tp_Denom p) then amount else 0) ∧
  (∀ k, cw_plain k →
     cw_tokens (ec_world c) k ModuleAddress - (if decide (k = GetERC20Contract p) then amount else 0) ≤
     cw_tokens (ec_world c') k ModuleAddress).
Proof.
  unfold ConvertCoinNativeERC20. intros [Hp Hden] Hr. destruct (Z.ltb_spec 0 amount) as [Hpos|]; [|done]. simpl in Hr.
  bind_step Hr. apply on_world_run in Hstep as (Hb1 & Hs1 & _). destruct x as [b1|]; [|done].
  bind_step Hr. apply on_world_run in Hstep as (Hsend & Hs2 & _). destruct x.
  bind_step Hr. apply on_world_run in Hstep as (Hcall & Hs3 & _).
  unfold CallEVM in Hcall. destruct (pack_transfer _ _) as [data|] eqn:Hpack; [|done].
  bind_step Hr. unfold return_res in Hstep. injection Hstep as <- _.
  bind_step Hr. apply on_world_run in Hstep as (Hb2 & Hs4 & _). destruct x1 as [b2|]; [|done].
  destruct (Z.eqb_spec b2 (b1 + amount)) as [->|]; [|done]. simpl in Hr.
  apply on_world_run in Hr as (Hburn & Hs5 & _).
  apply BalanceOf_run in Hb1 as [-> [HS1 HT1]], Hb2 as [Heq [HS2 HT2]]; [|done..].
  rewrite Hden in Hburn, Hsend. apply cwl_burn in Hburn as [HS3 HT3]; [|done]. apply cwl_to_module in Hsend as [HS4 HT4]; [|done].
  destruct (cwl_call _ _ _ _ _ _ _ _ Hp Hcall) as [HS5 HT5].
  split_and!; [done|congruence|..].
  - rewrite HT3, HT2 by done. congruence.
  - intros k Hk. rewrite HS3, HS2, HS5, HS4, HS1, Hden by done. destruct (decide _); lia.
  - intros k Hk. rewrite HT3, HT2, <- HT1, <- HT4 by done. destruct (decide _) as [->|Hne].
    + eapply cwl_transfer; [done|lia|done..].
    + rewrite HT5 by done. lia.
Qed.

(** ** Any history of the module *)

Definition backed c p : Prop :=
  cw_supply (ec_world c) (tp_Denom p) ≤ cw_tokens (ec_world c) (GetERC20Contract p) ModuleAddress.
(** The registry is consistent, and its contracts are plain and their coins backed. *)
Record backing c : Prop := {
  bk_registry : registry_ok (ec_store c);
  bk_pairs : map_Forall (λ _ p, IsNativeERC20 p = true → plain_pair p ∧ backed c p) (e_pairs (ec_store c));
}.

Lemma same_contract st i j p q :
  registry_ok st → e_pairs st !! i = Some p → e_pairs st !! j = Some q →
  GetERC20Contract p = GetERC20Contract q ∨ tp_Denom p = tp_Denom q → p = q.
Proof.
  intros Hok Hp Hq Heq. destruct (ro_pair _ Hok _ _ Hp) as (-> & Hp1 & Hp2 & _).
  destruct (ro_pair _ Hok _ _ Hq) as (-> & Hq1 & Hq2 & _).
  assert (GetID p = GetID q) by (destruct Heq; congruence). congruence.
Qed.
Lemma find_pair_stored st token p : find_pair st token = Ok p → ∃ id, GetTokenPair st (Some id) = Some p.
Proof.
  unfold find_pair. destruct (no_id _); [done|]. destruct (GetTokenPairID st token) as [id|]; [|done].
  destruct (GetTokenPair st (Some id)) eqn:Hp; [|done]. intros [= <-]. by exists id.
Qed.

(** Deleting a pair and writing outside the pairs leave backing in place. *)
Lemma backing_delete c c' id p :
  backing c → GetTokenPair (ec_store c) (Some id) = Some p → ec_world c' = ec_world c →
  ec_store c' = fst (DeleteTokenPair p (ec_store c)) → backing c'.
Proof.
  intros [Hok Hb] Hp Hw Hs. split; rewrite Hs; [by eapply DeleteTokenPair_ok|].
  unfold backed. rewrite Hw. simpl. intros i q [_ Hq]%lookup_delete_Some. by eapply Hb.
Qed.
Lemma backing_plain c token p : backing c → find_pair (ec_store c) token = Ok p → IsNativeERC20 p = true → plain_pair p.
Proof. intros [_ Hb] [id Hp]%find_pair_stored Hn. by destruct (Hb _ _ Hp Hn). Qed.
Lemma backing_convert_tokens contract amount receiver sender cfp b c c' :
  backing c → ConvertERC20IntoCoinsForNativeToken contract amount receiver sender true cfp c = (c', Ok b) → backing c'.
Proof.
  intros Hbk. destruct b.
  - intros (p & Hf & _ & Hs & Htok & Hsup & _ & Hother)%convert_tokens_exact; [|by intros ?; apply backing_plain].
    destruct Hbk as [Hok Hb]. split; rewrite Hs; [done|]. intros i q Hq Hnq. destruct (Hb _ _ Hq Hnq) as [[Hk Hd] Hle]. split; [done|].
    apply find_pair_stored in Hf as [id Hp]. unfold backed in *. rewrite Hd, Hsup, <- Hd by done.
    destruct (decide (GetERC20Contract q = GetERC20Contract p)) as [He|Hne].
    + rewrite (same_contract _ _ _ _ _ Hok Hq Hp (or_introl He)) in *. rewrite decide_True, Htok; [lia|done].
    + rewrite decide_False; [by rewrite Hother, Z.add_0_r|].
      intros Hdd. by rewrite (same_contract _ _ _ _ _ Hok Hq Hp (or_intror Hdd)) in Hne.
  - intros (p & Hf & Hw & Hs)%convert_tokens_gone. apply find_pair_stored in Hf as [id Hp]. by eapply backing_delete.
Qed.
Lemma backing_convert_coins id p amount receiver sender cfp c c' :
  backing c → GetTokenPair (ec_store c) (Some id) = Some p → plain_pair p →
  ConvertCoinNativeERC20 p amount receiver sender cfp c = (c', Ok tt) → backing c'.
Proof.
  intros [Hok Hb] Hp Hpl (Hpos & Hs & _ & Hsup & Htok)%convert_coins_exact; [|done]. split; rewrite Hs; [done|].
  intros i q Hq Hnq. destruct (Hb _ _ Hq Hnq) as [[Hk Hd] Hle]. split; [done|]. unfold backed in *. rewrite Hd, Hsup, <- Hd by done.
  specialize (Htok _ Hk). destruct (decide (GetERC20Contract q = GetERC20Contract p)) as [He|Hne].
  - rewrite (same_contract _ _ _ _ _ Hok Hq Hp (or_introl He)) in *. rewrite decide_True by done. lia.
  - rewrite decide_False; [lia|].
    intros Hdd. by rewrite (same_contract _ _ _ _ _ Hok Hq Hp (or_intror Hdd)) in Hne.
Qed.
Lemma backing_ConvertCoin msg c c' : backing c → ConvertCoin msg c = (c', Ok tt) → backing c'.
Proof.
  intros Hbk. unfold ConvertCoin. destruct (AccAddressFromBech32 _) as [sender|]; [|done]. intros Hr. bind_step Hr.
  apply MintingEnabled_run in Hstep as [-> Hf]. pose proof (backing_plain _ _ _ Hbk Hf) as Hpl. apply find_pair_stored in Hf as [id Hp].
  destruct (IsNativeERC20 x); [|by destruct (IsNativeCoin x)].
  bind_step Hr. injection Hstep as <- <-. destruct (destroyed _ _); [|eapply backing_convert_coins; [done|done|by apply Hpl|done]].
  apply on_store_run in Hr as (Hd & Hw & _). eapply backing_delete; [done..|]. by rewrite Hd.
Qed.

(** A contract may be registered when it is plain and no coin of it is left. *)
Definition registrable w (addr : string) : Prop :=
  cw_plain (HexToAddress addr) ∧ cw_supply w (coin_of (HexToAddress addr)) ≤ 0.
Lemma CreateCoinMetadata_run contract c c' md :
  cw_plain contract → CreateCoinMetadata contract c = (c', Ok md) →
  ec_store c' = ec_store c ∧ same_ledgers (ec_world c) (ec_world c') ∧ mt_Name md = coin_of contract.
Proof.
  unfold CreateCoinMetadata. intros Hc Hr. bind_step Hr. apply on_world_run in Hstep as (Hq & Hs & _).
  apply QueryERC20_reads in Hq; [|done]. bind_step Hr. injection Hstep as <- <-.
  case_bool_decide; [done|]. destruct (IsDenomRegistered _ _); [done|]. destruct (negb _); [done|].
  bind_step Hr. apply on_world_run in Hstep as (Hm & Hs2 & _). injection Hr as <- <-.
  injection Hm as Hm. split_and!; [congruence| |unfold coin_metadata; by destruct (_ <? _)].
  eapply ledgers_trans; [done|]. rewrite <- Hm. apply cwl_metadata.
Qed.
Lemma backing_same c c' :
  backing c → ec_store c' = ec_store c → same_ledgers (ec_world c) (ec_world c') → backing c'.
Proof.
  intros [Hok Hb] Hs [HS HT]. split; rewrite Hs; [done|]. intros i p Hp Hn. destruct (Hb _ _ Hp Hn) as [[Hk Hd] Hle].
  split; [done|]. unfold backed in *. by rewrite HT, Hd, HS, <- Hd.
Qed.
Lemma backing_SetToken c c' p :
  backing c → IsHexAddress (tp_Erc20Address p) = true → plain_pair p →
  cw_supply (ec_world c) (tp_Denom p) ≤ 0 → on_store (SetToken p) c = (c', Ok tt) →
  backing c' ∧ ec_world c' = ec_world c.
Proof.
  intros [Hok Hb] Hhex Hh Hsup (Hr & Hw & _)%on_store_run. split; [|done].
  assert (Hst : ec_store c' = fst (SetToken p (ec_store c))) by by rewrite Hr.
  split; [rewrite Hst; by apply SetToken_ok|]. unfold backed. rewrite Hw.
  unfold SetToken in Hr. bind_step Hr. injection Hstep as <- <-. destruct (IsDenomRegistered _ _); [done|].
  destruct (IsERC20Registered _ _); [done|]. injection Hr as <-. simpl. apply map_Forall_insert_2; [|done]. intros _. split; [done|].
  unfold backed. pose proof (cwl_tokens (ec_world c) (GetERC20Contract p) ModuleAddress (proj1 Hh)). lia.
Qed.
Lemma backing_register contract c c' p :
  backing c → cw_plain contract → cw_supply (ec_world c) (coin_of contract) ≤ 0 →
  registerERC20 contract c = (c', Ok p) → backing c' ∧ same_ledgers (ec_world c) (ec_world c').
Proof.
  intros Hbk Hh Hsup Hr. unfold registerERC20 in Hr. bind_step Hr. injection Hstep as <- <-.
  destruct (IsERC20Registered _ _); [done|]. bind_step Hr. destruct (CreateCoinMetadata_run _ _ _ _ Hh Hstep) as (Hs & HS & Hn).
  bind_step Hr. injection Hr as <- _. destruct x0. destruct (erl_hex contract) as [Hhex Hrt].
  apply backing_SetToken in Hstep0 as [Hbk' Hw]; [by rewrite Hw|by eapply backing_same|done|..]; unfold NewTokenPair, GetERC20Contract; simpl.
  - split; unfold GetERC20Contract; simpl; by rewrite Hrt.
  - rewrite Hn. destruct HS as [HS _]. by rewrite HS.
Qed.
Lemma backing_RegisterERC20 ka signer addrs c c' :
  backing c → Forall (registrable (ec_world c)) addrs → RegisterERC20 ka signer addrs c = (c', Ok tt) → backing c'.
Proof.
  intros Hbk Hall Hr. unfold RegisterERC20 in Hr. bind_step Hr. injection Hstep as <- <-. bind_step Hr.
  assert (s = c) as ->.
  { revert Hstep. unfold return_res, mret, M_ret. destruct (negb (PermissionlessRegistration _)); by intros [=]. }
  clear Hstep. destruct (negb _); [done|]. revert c Hbk Hall Hr.
  induction addrs as [|addr addrs IH]; intros c Hbk Hall Hr; [by injection Hr as <-|].
  apply Forall_cons in Hall as [[Hh Hsup] Hall]. simpl in Hr. bind_step Hr. destruct (negb _); [done|].
  bind_step Hstep. apply backing_register in Hstep0 as [Hbk' [HS HT]]; [|done..]. injection Hstep as <- _.
  eapply IH; [..|exact Hr].
  - by eapply backing_same.
  - eapply Forall_impl; [exact Hall|]. intros a [Ha1 Ha2]. split; [done|]. simpl. by rewrite HS.
Qed.
Lemma backing_toggle ka a token c c' : backing c → ToggleConversion ka a token c = (c', Ok tt) → backing c'.
Proof.
  intros Hbk Hr. unfold ToggleConversion in Hr. bind_step Hr. injection Hstep as <- <-. destruct (negb _); [done|].
  bind_step Hr. unfold return_res in Hstep. injection Hstep as <- _. bind_step Hr. injection Hr as <-.
  apply on_store_run in Hstep as (Hd & Hw & _). eapply (backing_same s); [|done..].
  destruct Hbk as [Hok Hb]. assert (Hst : ec_store s = fst (toggleConversion token (ec_store c))) by by rewrite Hd.
  split; [rewrite Hst; by apply toggleConversion_ok|]. unfold backed. rewrite Hw.
  unfold toggleConversion, mbind, M_bind, gets, id, return_res in Hd.
  destruct (find_pair (ec_store c) token) as [p|e|s0] eqn:Hf; [|done..]. apply find_pair_ok in Hf; [|done].
  injection Hd as <- _. simpl. apply map_Forall_insert_2; [|done]. exact (Hb _ _ Hf).
Qed.

(** Other transactions may run in between: they mint no coin of a plain contract and
    take no tokens of one from the module. *)
Definition others_run w w' : Prop :=
  ∀ k, cw_plain k → cw_supply w' (coin_of k) ≤ cw_supply w (coin_of k) ∧
    cw_tokens w k ModuleAddress ≤ cw_tokens w' k ModuleAddress.
Lemma backing_others w' c : backing c → others_run (ec_world c) w' → backing (mkECtx (ec_store c) w' (ec_events c)).
Proof.
  intros [Hok Hb] Ho. split; [done|]. intros i p Hp Hn. destruct (Hb _ _ Hp Hn) as [[Hk Hd] Hle]. split; [done|].
  unfold backed in *. simpl. destruct (Ho _ Hk). rewrite Hd in *. lia.
Qed.

(** The messages of the module that returned, and transactions of others; a message
    that fails is undone with its transaction. *)
Inductive message_step : erc20Ctx W → erc20Ctx W → Prop :=
| step_ConvertERC20 msg b c c' : ConvertERC20 msg c = (c', Ok b) → message_step c c'
| step_ConvertCoin msg c c' : ConvertCoin msg c = (c', Ok tt) → message_step c c'
| step_RegisterERC20 ka signer addrs c c' :
    Forall (registrable (ec_world c)) addrs → RegisterERC20 ka signer addrs c = (c', Ok tt) → message_step c c'
| step_ToggleConversion ka a token c c' : ToggleConversion ka a token c = (c', Ok tt) → message_step c c'
| step_UpdateParams ka a ps c c' : UpdateParams ka a ps c = (c', Ok tt) → message_step c c'
| step_others w' c : others_run (ec_world c) w' → message_step c (mkECtx (ec_store c) w' (ec_events c)).

Lemma message_step_backing c c' : message_step c c' → backing c → backing c'.
Proof.
  destruct 1 as [msg b c c' Hr|msg c c' Hr|ka signer addrs c c' Hall Hr|ka a token c c' Hr|ka a ps c c' Hr|w' c Ho]; intros Hbk.
  - unfold ConvertERC20 in Hr. destruct (AccAddressFromBech32 _); [|done]. by eapply backing_convert_tokens.
  - by eapply backing_ConvertCoin.
  - by eapply backing_RegisterERC20.
  - by eapply backing_toggle.
  - unfold UpdateParams in Hr. destruct (negb _); [done|]. apply on_store_run in Hr as (Hp & Hw & _).
    injection Hp as Hp. destruct Hbk as [[] Hb]. split; rewrite <- Hp; [done|]. unfold backed. by rewrite Hw.
  - by apply backing_others.
Qed.

(** C32: conversions keep coins of plain contracts backed.  From an empty registry, after
    any messages that register plain contracts without outstanding coins, convert tokens
    into coins and coins into tokens, toggle pairs and change parameters, with
    transactions in between that neither mint such coins nor take tokens from the
    module, the module holds at least as many tokens of every registered contract as
    there are coins of it.  Nothing is claimed once a contract is registered that calls
    into precompiles or is one; the module itself does not refuse it. *)
Theorem conversions_keep_backing c c' p :
  ec_store c = empty_store → rtc message_step c c' →
  p ∈ (map_to_list (e_pairs (ec_store c'))).*2 → IsNativeERC20 p = true →
  cw_supply (ec_world c') (tp_Denom p) ≤ cw_tokens (ec_world c') (GetERC20Contract p) ModuleAddress.
Proof.
  intros Hempty Hreach Hin Hn.
  assert (Hbk : backing c').
  { eapply (rtc_ind_r (λ c', backing c')); [..|exact Hreach].
    - split; rewrite Hempty; [apply empty_ok|apply map_Forall_empty].
    - intros x y _ Hxy. by eapply message_step_backing. }
  apply list_elem_of_fmap in Hin as ([i q] & -> & Hq%elem_of_map_to_list). by eapply bk_pairs.
Qed.
End ConvertProps.
End ConvertProps.
