(* ===== verification/CallEvm.v ===== *)
(** Calls of contracts by other modules ([x/vm/keeper/call_evm.go], [ApplyMessage]
    of [state_transition.go]): internal messages on a fresh state database, charged
    to the transaction's gas meter.  The keeper implements the interface that the
    ERC-20 module requires. *)
From S2P Require Import Prelude GoStd AccessList Sdk EvmCoin LegacyDec StateDB StateDBRevert EvmKeeper FeeMarket EvmParams EvmTx StateTransition StateTransitionProps EvmFees EvmTransaction Erc20Registry Erc20Convert.

(** [storetypes.GasMeter] of a Cosmos transaction. *)
Class TxGasMeter (G : Type) := {
  tg_Limit : G → Z;
  tg_GasConsumed : G → Z;
  tg_RefundGas : Z → M G SdkError unit;
  tg_ConsumeGas : Z → M G SdkError unit;
}.

(** The interpreter writes to the state database only, which leaves the context it
    was created with alone until it is committed. *)
Class InterpreterFrame (K C Ev : Type) `{Interpreter K C Ev} : Prop := {
  if_call evm from to data gas value s s' r :
    evm_Call evm from to data gas value s = (s', r) → sdb_ctx s' = sdb_ctx s;
}.

Definition DefaultGasCap : Z := 25000000.
Definition ErrVMExecution : SdkError := ErrPlain "evm transaction execution failed".

(** Returning a result leaves the state alone. *)
Lemma keeps_return {S T X} (part : S → T) (r0 : res SdkError X) : keeps part (return_res r0).
Proof. by intros s s' r [= <- _]. Qed.
#[export] Hint Resolve keeps_return : keeps.

Section CallEvm.
Context {A B Acct Ev C D Signer G : Type}.
Context `{HCr : Crypto, HA : !AuthKeeper A Acct, HB : !EvmBank A B Ev, HCL : CoinsLib,
          HKC : !Keeper C Ev, HS : !Snapshotter C, HCC : !CacheContext (evmStore A B) C, HD : DecLib D,
          HE : EthLib Signer, HP : ParamsLib, HCfg : ChainConfig, HI : !Interpreter (evmStore A B) C Ev,
          HG : !TxGasMeter G}.
(** The block, its configuration and the hash computed from its header. *)
Context (info : EvmCoinInfo) (env : blockEnv) (cfgr : res SdkError (EVMConfig D)) (computed : option Hash).
Abbreviation store := (evmStore A B).
#[local] Instance call_keeper : Keeper store Ev := EvmKeeper.evm_Keeper info.
Abbreviation db := (StateDB store C Ev).

Record callCtx := mkCallCtx { cl_ctx : sdkContext store Ev; cl_meter : G }.
Abbreviation WM := (M callCtx SdkError).
Definition on_gas {X} : M G SdkError X → WM X := zoom cl_meter (λ g w, mkCallCtx (cl_ctx w) g).
Definition on_kctx {X} : M (sdkContext store Ev) SdkError X → WM X :=
  zoom cl_ctx (λ c w, mkCallCtx c (cl_meter w)).

Definition ApplyMessage (msg : Message) (commit callFromPrecompile internal : bool) :
    M db SdkError MsgEthereumTxResponse := λ s,
  match cfgr with
  | Ok cfg =>
      ApplyMessageWithConfig env (GetHashFn env (cfg_Params cfg) (cx_store (sdb_ctx s)) computed) msg
        commit callFromPrecompile cfg 0 internal None s
  | Err e => (s, Err e)
  | Panic p => (s, Panic p)
  end.

Definition ResetGasMeter (gasUsed : Z) : WM unit :=
  consumed ← gets (λ w, tg_GasConsumed (cl_meter w));
  on_gas (tg_RefundGas consumed) ;; on_gas (tg_ConsumeGas gasUsed).

(** The default cap, lowered by a positive 64-bit cap. *)
Definition call_gas_limit (gasCap : option Z) : Z :=
  match gasCap with
  | Some cap => if (0 <? cap) && (cap <? 2 ^ 64) && (cap <? DefaultGasCap) then cap else DefaultGasCap
  | None => DefaultGasCap
  end.
Definition internal_message (from : Address) (contract : option Address) (data : string) (nonce gasLimit : Z) : Message :=
  mkMessage from contract nonce 0 gasLimit 0 0 0 data [] [] [] None.

(** The gas of a call: all of the meter when it failed, what was used otherwise. *)
Definition call_outcome (res : MsgEthereumTxResponse) : WM MsgEthereumTxResponse :=
  if Failed res
  then limit ← gets (λ w, tg_Limit (cl_meter w)); ResetGasMeter limit ;; throw ErrVMExecution
  else on_gas (tg_ConsumeGas (r_GasUsed res)) ;; mret res.
Definition CallEVMWithData (from : Address) (contract : option Address) (data : string)
    (commit callFromPrecompile : bool) (gasCap : option Z) : WM MsgEthereumTxResponse := λ w,
  match ak_GetAccount (es_auth (cx_store (cl_ctx w))) from with
  | None => (w, Err ErrUnknownAddress)
  | Some acc =>
      let msg := internal_message from contract data (GetSequence acc) (call_gas_limit gasCap) in
      match ApplyMessage msg commit callFromPrecompile true (New (cl_ctx w) 0) with
      | (s, Err e) => (mkCallCtx (sdb_ctx s) (cl_meter w), Err e)
      | (s, Panic p) => (mkCallCtx (sdb_ctx s) (cl_meter w), Panic p)
      | (s, Ok res) => call_outcome res (mkCallCtx (sdb_ctx s) (cl_meter w))
      end
  end.

(** ** The interface of the ERC-20 module *)

#[export] Instance vm_EVMKeeper : EVMKeeper callCtx := {
  evk_GetAccountWithoutBalance w := EvmKeeper.GetAccountWithoutBalance (cx_store (cl_ctx w));
  evk_GetAccount w := EvmKeeper.GetAccount (Ev := Ev) info (cx_store (cl_ctx w));
  evk_GetCode w := EvmKeeper.GetCode (cx_store (cl_ctx w));
  evk_SetCode h code w :=
    mkCallCtx (mkCtx (EvmKeeper.SetCode h code (cx_store (cl_ctx w))) (cx_events (cl_ctx w))) (cl_meter w);
  evk_SetAccount a acc := on_kctx (EvmKeeper.SetAccount info a acc);
  evk_CallEVMWithData := CallEVMWithData;
}.

(** ** Queries *)

Context `{HIF : !InterpreterFrame (evmStore A B) C Ev}.
Implicit Types (w : callCtx) (s : db).

Abbreviation keeps_ctx := (keeps (sdb_ctx (K := store) (C := C) (Ev := Ev)) (E := SdkError)).
Lemma keeps_Prepare rules a1 a2 dst ps al : keeps_ctx (Prepare rules a1 a2 dst ps al).
Proof.
  unfold Prepare. destruct (_ && _); [apply keeps_panic|]. apply keeps_bind.
  - destruct (IsEIP2929 rules); [|apply keeps_ret]. destruct (prepared_list _ _ _ _ _ _); [|apply keeps_panic].
    by intros s s' r [= <- _].
  - intros _. by intros s s' r [= <- _].
Qed.
Lemma keeps_GetCode a : keeps_ctx (StateDB.GetCode a).
Proof. intros s s' r Hr. destruct (GetCode_run s a) as (s1 & Hrun & [Hc _] & _). congruence. Qed.
Lemma keeps_AddAddress a : keeps_ctx (AddAddressToAccessList a).
Proof. intros s s' r Hr. destruct (AddAddressToAccessList_run a s) as (s1 & Hrun & [Hc _] & _). congruence. Qed.
Lemma keeps_call evm from to data gas value : keeps_ctx (interpret (evm_Call evm from to data gas value)).
Proof.
  intros s s' r. unfold interpret. destruct (evm_Call _ _ _ _ _ _ s) as [s1 [x|[]|p]] eqn:Hc;
    intros [= <- _]; by eapply if_call.
Qed.
Lemma keeps_charged_gas (cfg : EVMConfig D) msg internal t l : keeps_ctx (charged_gas cfg msg internal t l).
Proof.
  intros s s' r. unfold charged_gas, dec_op, Int_Uint64, mbind, M_bind, mret, M_ret, throw, panic.
  by repeat case_match; intros; simplify_eq.
Qed.
Hint Resolve keeps_Prepare keeps_GetCode keeps_AddAddress keeps_call keeps_charged_gas : keeps.

(** A call without authorizations that is not committed. *)
Lemma uncommitted_keeps getHash msg to (cfg : EVMConfig D) txHash internal :
  m_To msg = Some to → m_SetCodeAuthorizations msg = [] →
  keeps_ctx (ApplyMessageWithConfig (C := C) env getHash msg false false cfg txHash internal None).
Proof.
  intros Hto Hauth. unfold ApplyMessageWithConfig. apply keeps_bind; [auto with keeps|]. intros evm.
  apply keeps_bind; [auto with keeps|]. intros ig. apply keeps_bind; [simpl; auto with keeps|]. intros _.
  destruct (Uint256FromBigInt (m_Value msg)) as [v|]; [|auto with keeps]. apply keeps_bind.
  - unfold execute. rewrite Hto, Hauth. apply keeps_bind; [simpl; auto with keeps|]. intros _.
    apply keeps_bind; [auto with keeps|]. intros code. apply keeps_bind; [|auto with keeps]. destruct (delegation_target _); auto with keeps.
  - intros r. destruct (_ <? _); [auto with keeps|]. apply keeps_bind; [apply keeps_gets|]. intros av.
    apply keeps_bind; [simpl; auto with keeps|]. intros _. apply keeps_bind; [auto with keeps|]. intros g.
    apply keeps_bind; [auto with keeps|]. auto with keeps.
Qed.

Lemma keeps_on_gas {X} (m : M G SdkError X) : keeps cl_ctx (on_gas m).
Proof. intros w w' r. unfold on_gas, zoom. destruct (m _). by intros [= <- _]. Qed.
Hint Resolve keeps_on_gas : keeps.

Lemma keeps_call_outcome res : keeps cl_ctx (call_outcome res).
Proof. unfold call_outcome, ResetGasMeter. destruct (Failed res); auto 10 with keeps. Qed.
Lemma call_outcome_ok res w w' x : call_outcome res w = (w', Ok x) → Failed x = false.
Proof.
  unfold call_outcome. destruct (Failed res) eqn:Hf; intros Hrun; [by repeat bind_step Hrun|].
  bind_step Hrun. by injection Hrun as _ <-.
Qed.

(** A query does not write: a call of a contract that is not committed leaves the
    stores and the events as they were, whether it returns, fails or panics; and a
    call that returns has not failed. *)
Lemma query_reads_only from to data gasCap w w' r :
  CallEVMWithData from (Some to) data false false gasCap w = (w', r) →
  cl_ctx w' = cl_ctx w ∧ ∀ res, r = Ok res → Failed res = false.
Proof.
  unfold CallEVMWithData. destruct (ak_GetAccount _ _) as [acc|]; [|by intros [= <- <-]].
  destruct (ApplyMessage _ _ _ _ _) as [s r1] eqn:Hm.
  assert (Hs : sdb_ctx s = cl_ctx w).
  { unfold ApplyMessage in Hm. destruct cfgr as [cfg|e|p]; [|by injection Hm as <- _..].
    by apply (uncommitted_keeps _ _ to) in Hm. }
  rewrite Hs. destruct r1 as [res|e|p]; [|by intros [= <- <-]..]. intros Hrun. split.
  - by apply keeps_call_outcome in Hrun.
  - intros x ->. by apply call_outcome_ok in Hrun.
Qed.
End CallEvm.
