(* ===== verification/Erc20Ibc.v ===== *)
(** Packets of ICS-20 transfers in the ERC-20 module ([x/erc20/keeper/ibc_callbacks.go],
    [x/erc20/ibc_middleware.go]) with the coins of a packet ([ibc/utils.go]).

    Packets, traces and acknowledgements are ibc-go's and are parameters; an account
    is identified with the EVM address of its bytes. *)
From S2P Require Import Prelude GoStd AccessList Sdk EvmCoin StateDB EvmKeeper EvmParams EvmTx Erc20Registry Erc20RegistryProps Erc20Names Erc20Convert Erc20Props.
Import ER RegistryProps ConvertProps.

Record Packet := mkPacket {
  pk_SourcePort : string;
  pk_SourceChannel : string;
  pk_DestinationPort : string;
  pk_DestinationChannel : string;
  pk_Data : string;
}.
(** [FungibleTokenPacketData]. *)
Record PacketData := mkPacketData { pd_Denom : string; pd_Amount : string; pd_Sender : string; pd_Receiver : string }.
(** [transfertypes.Denom]: the hops of the trace, and the base. *)
Record TraceDenom := mkTraceDenom { td_Trace : list (string * string); td_Base : string }.

Class IbcLib := {
  UnmarshalPacketData : string → option PacketData;
  (** The response of an acknowledgement is an error. *)
  UnmarshalAck : string → option bool;
  ExtractDenomFromPath : string → TraceDenom;
  IBCDenom : TraceDenom → string;
  HasPrefix : TraceDenom → string → string → bool;
  NewIntFromString : string → option Z;
}.
(** The staking and account keepers. *)
Class IbcWorld (W : Type) := {
  sk_BondDenom : W → res SdkError string;
  ak_IsModuleAccount : W → Address → bool;
}.

(** The acknowledgement of the transfer, or an error. *)
Inductive Acknowledgement := AckResult | AckError (e : SdkError).
Definition Success (a : Acknowledgement) : bool := match a with AckResult => true | AckError _ => false end.
(** A coin whose amount is nil when it could not be parsed. *)
Record PacketCoin := mkPacketCoin { pc_Denom : string; pc_Amount : option Z }.

Section Ibc.
Context {W : Type}.
Context `{HP : ParamsLib, HL : Erc20Lib, HCr : Crypto, HK : !EVMKeeper W, HB : !Erc20Bank W, HAbi : Erc20Abi,
          HEnv : Erc20Env, HI : IbcLib, HIW : !IbcWorld W}.
Abbreviation CM := (M (erc20Ctx W) SdkError).

(** ** Coins of a packet *)

Definition GetTransferAmount (data : string) : res SdkError string :=
  match UnmarshalPacketData data with
  | None => Err (ErrPlain "unknown request")
  | Some d =>
      if String.eqb (pd_Amount d) "" then Err ErrInvalidCoins
      else match NewIntFromString (pd_Amount d) with None => Err ErrInvalidCoins | Some _ => Ok (pd_Amount d) end
  end.
(** Removing the first hop of an empty trace panics. *)
Definition GetReceivedCoin (packet : Packet) (denom : TraceDenom) (amount : string) : res SdkError PacketCoin :=
  let amountInt := NewIntFromString amount in
  if HasPrefix denom (pk_SourcePort packet) (pk_SourceChannel packet) then
    match td_Trace denom with
    | [] => Panic "slice bounds out of range"
    | _ :: trace => Ok (mkPacketCoin (IBCDenom (mkTraceDenom trace (td_Base denom))) amountInt)
    end
  else
    let hop := (pk_DestinationPort packet, pk_DestinationChannel packet) in
    Ok (mkPacketCoin (IBCDenom (mkTraceDenom (hop :: td_Trace denom) (td_Base denom))) amountInt).
Definition GetSentCoin (rawDenom rawAmt : string) : PacketCoin :=
  mkPacketCoin (IBCDenom (ExtractDenomFromPath rawDenom)) (NewIntFromString rawAmt).

(** A nil amount is dereferenced. *)
Definition convert_packet_coin (tokenPair : TokenPair) (amount : option Z) (a : Address) : CM unit :=
  match amount with
  | None => panic "nil pointer dereference"
  | Some amount => ConvertCoinNativeERC20 tokenPair amount a a false
  end.

(** ** Callbacks *)

(** An error becomes an error acknowledgement. *)
Definition or_ack {X} (m : CM X) (k : X → CM Acknowledgement) : CM Acknowledgement := λ c,
  match m c with
  | (c', Ok x) => k x c'
  | (c', Err e) => (c', Ok (AckError e))
  | (c', Panic p) => (c', Panic p)
  end.
Definition OnRecvPacket (packet : Packet) (ack : Acknowledgement) : CM Acknowledgement :=
  st ← gets ec_store;
  if negb (IsERC20Enabled st) then mret ack
  else
    match UnmarshalPacketData (pk_Data packet) with
    | None => mret (AckError (ErrPlain "invalid type"))
    | Some data =>
        coin ← return_res (GetReceivedCoin packet (ExtractDenomFromPath (pd_Denom data)) (pd_Amount data));
        if String.prefix "factory/" (pd_Denom data) then mret ack
        else
          or_ack (λ c, (c, sk_BondDenom (ec_world c))) (λ bondDenom,
            if String.eqb (pc_Denom coin) bondDenom then mret ack
            else
              match addrCodec_StringToBytes (pd_Receiver data) with
              | None => mret (AckError (ErrPlain "invalid recipient"))
              | Some recipient =>
                  isModule ← gets (λ c, ak_IsModuleAccount (ec_world c) recipient);
                  if isModule : bool then mret ack
                  else
                    match GetTokenPair st (GetTokenPairID st (pc_Denom coin)) with
                    | None =>
                        if String.prefix "ibc/" (pc_Denom coin) then
                          or_ack (RegisterERC20Extension (pc_Denom coin)) (λ tokenPair,
                            emit_erc20 (EventRegisterERC20Extension (pk_SourceChannel packet) (tp_Erc20Address tokenPair)
                                          (tp_Denom tokenPair)) ;;
                            mret ack)
                        else mret ack
                    | Some tokenPair =>
                        if IsNativeERC20 tokenPair then
                          if negb (tp_Enabled tokenPair) then mret ack
                          else
                            or_ack (on_err (MintingEnabled recipient (pc_Denom coin)) (λ e,
                                      emit_erc20 (EventCallbackFailure (pc_Denom coin) recipient) ;; mret e)) (λ tokenPair,
                              or_ack (convert_packet_coin tokenPair (pc_Amount coin) recipient) (λ _, mret ack))
                        else mret ack
                    end
              end)
    end.

(** [if err := m; err != nil { h; return nil }]. *)
Definition or_continue (m h : CM unit) : CM unit := λ c,
  match m c with
  | (c', Err _) => h c'
  | r => r
  end.
Definition ConvertCoinToERC20FromPacket (data : PacketData) : CM unit :=
  match addrCodec_StringToBytes (pd_Sender data) with
  | None => throw ErrInvalidAddress
  | Some sender =>
      st ← gets ec_store;
      match GetTokenPair st (GetTokenPairID st (pd_Denom data)) with
      | None => mret tt
      | Some tokenPair =>
          let coin := GetSentCoin (pd_Denom data) (pd_Amount data) in
          if IsNativeCoin tokenPair then mret tt
          else if IsNativeERC20 tokenPair then
            if negb (EnableErc20 (GetParams st)) || negb (IsDenomRegistered st (pc_Denom coin)) then mret tt
            else
              isModule ← gets (λ c, ak_IsModuleAccount (ec_world c) sender);
              if isModule : bool then mret tt
              else
                or_continue (convert_packet_coin tokenPair (pc_Amount coin) sender)
                  (emit_erc20 (EventFailedConvertERC20 (tp_Denom tokenPair) (tp_Erc20Address tokenPair)))
          else mret tt
      end
  end.
Definition OnAcknowledgementPacket (data : PacketData) (isError : bool) : CM unit :=
  if isError then ConvertCoinToERC20FromPacket data else mret tt.
Definition OnTimeoutPacket (data : PacketData) : CM unit := ConvertCoinToERC20FromPacket data.

(** ** The middleware, over the callbacks of the transfer application *)

Section Middleware.
Context (app_OnRecvPacket : CM Acknowledgement) (app_OnAcknowledgementPacket app_OnTimeoutPacket : CM unit).
Definition im_OnRecvPacket (packet : Packet) : CM Acknowledgement :=
  ack ← app_OnRecvPacket;
  if negb (Success ack) then mret ack else OnRecvPacket packet ack.
Definition im_OnAcknowledgementPacket (packet : Packet) (acknowledgement : string) : CM unit :=
  match UnmarshalAck acknowledgement with
  | None => throw (ErrPlain "unknown request")
  | Some isError =>
      match UnmarshalPacketData (pk_Data packet) with
      | None => throw (ErrPlain "unknown request")
      | Some data => app_OnAcknowledgementPacket ;; OnAcknowledgementPacket data isError
      end
  end.
Definition im_OnTimeoutPacket (packet : Packet) : CM unit :=
  match UnmarshalPacketData (pk_Data packet) with
  | None => throw (ErrPlain "unknown request")
  | Some data => app_OnTimeoutPacket ;; OnTimeoutPacket data
  end.
End Middleware.

(** ** Refunds *)

Implicit Types (c : erc20Ctx W) (w : W).



End Ibc.
