(* ===== verification/Erc20Genesis.v ===== *)
(** Genesis of the ERC-20 module: validation ([x/erc20/types/genesis.go],
    [token_pair.go], [allowance.go]), import and export ([x/erc20/genesis.go]).

    Iterators return the entries of the store in the order of their keys; here the
    order is that of the finite maps, and the round trip is proved for every order. *)
From S2P Require Import Prelude GoStd AccessList Sdk EvmCoin StateDB EvmKeeper EvmTx EvmParams Erc20Registry Erc20RegistryProps Erc20Names Erc20Convert.
Import ER RegistryProps.

Record GenesisState := mkErc20Genesis {
  eg_Params : Erc20Params;
  eg_TokenPairs : list TokenPair;
  eg_Allowances : list Allowance;
  eg_NativePrecompiles : list string;
  eg_DynamicPrecompiles : list string;
}.
Definition NewParams (enableErc20 permissionlessRegistration : bool) : Erc20Params :=
  mkErc20Params enableErc20 permissionlessRegistration.
Definition DefaultParams : Erc20Params := mkErc20Params true true.
Definition NewGenesisState (ps : Erc20Params) (pairs : list TokenPair) (allowances : list Allowance) : GenesisState :=
  mkErc20Genesis ps pairs allowances [] [].
Definition DefaultGenesisState : GenesisState := mkErc20Genesis DefaultParams [] [] [] [].

Module EG.
Section Genesis.
Context {W : Type}.
Context `{HP : ParamsLib, HL : Erc20Lib, HCr : Crypto, HK : !EVMKeeper W, HB : !Erc20Bank W, HAbi : Erc20Abi,
          HEnv : Erc20Env, HCL : CoinsLib}.
Abbreviation CM := (M (erc20Ctx W) SdkError).

(** ** Validation *)

(** [utils.ValidateAddress]. *)
Definition ValidateAddress (address : string) : verdict :=
  if negb (IsHexAddress address) then Err ErrInvalidAddress else Ok tt.
Definition TokenPair_Validate (tp : TokenPair) : verdict :=
  if negb (ValidateDenom (tp_Denom tp)) then Err (ErrPlain "invalid denom") else ValidateAddress (tp_Erc20Address tp).
Definition Allowance_Validate (a : Allowance) : verdict :=
  if negb (IsHexAddress (al_Erc20Address a)) then Err ErrInvalidAddress
  else if negb (IsHexAddress (al_Owner a)) then Err ErrInvalidAddress
  else if negb (IsHexAddress (al_Spender a)) then Err ErrInvalidAddress
  else if negb (0 <? al_Value a) then Err ErrInvalidAllowance
  else Ok tt.

Definition hasActiveTokenPair (pairs : list TokenPair) (address : string) : bool :=
  existsb (λ p, String.eqb (tp_Erc20Address p) address && tp_Enabled p) pairs.
Fixpoint validatePrecompiles (pairs : list TokenPair) (precompiles : list string) : verdict :=
  match precompiles with
  | [] => Ok tt
  | p :: ps =>
      if negb (hasActiveTokenPair pairs p) then Err (ErrPlain "precompile address not found in token pairs")
      else validatePrecompiles pairs ps
  end.
(** The pairs in order, with the addresses and denominations seen so far. *)
Fixpoint validate_pairs (seenErc20 seenDenom : gset string) (pairs : list TokenPair) : res SdkError (gset string) :=
  match pairs with
  | [] => Ok seenErc20
  | b :: bs =>
      if bool_decide (tp_Erc20Address b ∈ seenErc20) then Err (ErrPlain "token ERC20 contract duplicated on genesis")
      else if bool_decide (tp_Denom b ∈ seenDenom) then Err (ErrPlain "coin denomination duplicated on genesis")
      else
        match TokenPair_Validate b with
        | Ok _ => validate_pairs ({[tp_Erc20Address b]} ∪ seenErc20) ({[tp_Denom b]} ∪ seenDenom) bs
        | Err e => Err e
        | Panic p => Panic p
        end
  end.
Definition allowance_id (a : Allowance) : string :=
  String.append (al_Erc20Address a) (String.append (al_Owner a) (al_Spender a)).
Fixpoint validate_allowances (seenErc20 seen : gset string) (l : list Allowance) : verdict :=
  match l with
  | [] => Ok tt
  | a :: l' =>
      if bool_decide (allowance_id a ∈ seen) then Err (ErrPlain "duplicated allowance on genesis")
      else if negb (bool_decide (al_Erc20Address a ∈ seenErc20)) then Err (ErrPlain "allowance has no corresponding token pair")
      else
        match Allowance_Validate a with
        | Ok _ => validate_allowances seenErc20 ({[allowance_id a]} ∪ seen) l'
        | r => r
        end
  end.
Definition GenesisState_Validate (gs : GenesisState) : verdict :=
  match validate_pairs ∅ ∅ (eg_TokenPairs gs) with
  | Err e => Err e
  | Panic p => Panic p
  | Ok seenErc20 =>
      match validatePrecompiles (eg_TokenPairs gs) (eg_DynamicPrecompiles gs) with
      | Ok _ =>
          match validatePrecompiles (eg_TokenPairs gs) (eg_NativePrecompiles gs) with
          | Ok _ => validate_allowances seenErc20 ∅ (eg_Allowances gs)
          | r => r
          end
      | r => r
      end
  end.

(** ** Import and export *)

Definition set_pairs_of (l : list TokenPair) : M erc20Store SdkError unit := for_each l SetToken.
Definition import_precompiles (data : GenesisState) : CM unit :=
  for_each (eg_NativePrecompiles data) (λ p,
    or_panic (EnableNativePrecompile (HexToAddress p)) "error registering native precompiles") ;;
  for_each (eg_DynamicPrecompiles data) (λ p,
    or_panic (EnableDynamicPrecompile (HexToAddress p)) "error registering dynamic precompiles").
Definition import_allowances (l : list Allowance) : CM unit :=
  for_each l (λ a,
    or_panic (on_store (UnsafeSetAllowance (HexToAddress (al_Erc20Address a)) (HexToAddress (al_Owner a))
                          (HexToAddress (al_Spender a)) (Some (al_Value a)))) "error setting allowance").
(** The first pair that cannot be stored ends the import, without an error. *)
Definition InitGenesis (hasModuleAccount : bool) (data : GenesisState) : CM unit :=
  on_store (SetParams (eg_Params data)) ;;
  if negb hasModuleAccount then panic "the erc20 module account has not been set"
  else λ c,
    match on_store (set_pairs_of (eg_TokenPairs data)) c with
    | (c', Err _) => (c', Ok tt)
    | (c', Panic p) => (c', Panic p)
    | (c', Ok _) => (import_precompiles data ;; import_allowances (eg_Allowances data)) c'
    end.

Definition GetTokenPairs (st : erc20Store) : list TokenPair := (map_to_list (e_pairs st)).*2.
Definition GetAllowances (st : erc20Store) : list Allowance := (map_to_list (e_allowances st)).*2.
Definition GetNativePrecompiles (st : erc20Store) : list string := elements (e_native st).
Definition GetDynamicPrecompiles (st : erc20Store) : list string := elements (e_dynamic st).
Definition ExportGenesis (st : erc20Store) : GenesisState :=
  mkErc20Genesis (GetParams st) (GetTokenPairs st) (GetAllowances st) (GetNativePrecompiles st) (GetDynamicPrecompiles st).
End Genesis.
End EG.

(** Importing an exported genesis of the ERC-20 module restores its store; a genesis
    that passes validation may still be imported only in part. *)

Import ER RegistryProps EG.

(** Inserting entries with distinct keys one after the other. *)
Definition insert_all `{Countable K} {X} (l : list (K * X)) (m : gmap K X) : gmap K X :=
  foldl (λ m kv, <[kv.1 := kv.2]> m) m l.
Lemma insert_all_lookup `{Countable K} {X} (l : list (K * X)) (m : gmap K X) k x :
  NoDup l.*1 → (∀ k, k ∈ l.*1 → m !! k = None) →
  insert_all l m !! k = Some x ↔ (k, x) ∈ l ∨ m !! k = Some x.
Proof.
  revert m. induction l as [|[k1 x1] l IH]; intros m Hnd Hfr; simpl.
  - rewrite elem_of_nil. naive_solver.
  - apply NoDup_cons in Hnd as [Hk1 Hnd]. rewrite IH; [|done|].
    + rewrite elem_of_cons, lookup_insert_Some. destruct (decide (k1 = k)) as [->|].
      * assert (m !! k = None) by (apply Hfr; simpl; apply elem_of_cons; by left).
        assert (∀ y, (k, y) ∉ l) by (intros y Hy; apply Hk1; by apply (list_elem_of_fmap_2 fst _ (k, y))).
        naive_solver.
      * naive_solver.
    + intros k' Hk'. rewrite lookup_insert_ne; [|intros ->; done]. apply Hfr. apply elem_of_cons. by right.
Qed.

Module GenesisProps20.
Section GenesisProps.
Context {W : Type}.
Context `{HP : ParamsLib, HL : Erc20Lib, HEL : !Erc20Laws, HCr : Crypto, HK : !EVMKeeper W, HB : !Erc20Bank W,
          HAbi : Erc20Abi, HEnv : Erc20Env, HCL : CoinsLib}.
Implicit Types (st : erc20Store) (c : erc20Ctx W).

(** ** Pairs *)

Definition add_pair (p : TokenPair) st : erc20Store :=
  set_byERC20 (<[GetERC20Contract p := GetID p]> (e_byERC20 st))
    (set_byDenom (<[tp_Denom p := GetID p]> (e_byDenom st)) (set_pairs (<[GetID p := p]> (e_pairs st)) st)).
Lemma SetToken_fresh p st :
  e_byDenom st !! tp_Denom p = None → e_byERC20 st !! GetERC20Contract p = None → SetToken p st = (add_pair p st, Ok tt).
Proof.
  intros Hd He. unfold SetToken, IsDenomRegistered, IsERC20Registered, mbind, M_bind, gets, id. rewrite Hd, He.
  by rewrite !bool_decide_eq_false_2 by (by intros [? ?]).
Qed.
Abbreviation by_id := (λ p : TokenPair, (GetID p, p)).
Abbreviation by_contract := (λ p : TokenPair, (GetERC20Contract p, GetID p)).
Abbreviation by_denom := (λ p : TokenPair, (tp_Denom p, GetID p)).
Definition with_pairs (l : list TokenPair) st : erc20Store :=
  mkErc20 (insert_all (by_id <$> l) (e_pairs st)) (insert_all (by_contract <$> l) (e_byERC20 st))
    (insert_all (by_denom <$> l) (e_byDenom st)) (e_allowances st) (e_native st) (e_dynamic st) (e_enabled st) (e_permissionless st).
Lemma set_pairs_run l st :
  NoDup (GetERC20Contract <$> l) → NoDup (tp_Denom <$> l) →
  (∀ p, p ∈ l → e_byDenom st !! tp_Denom p = None ∧ e_byERC20 st !! GetERC20Contract p = None) →
  set_pairs_of l st = (with_pairs l st, Ok tt).
Proof.
  revert st. induction l as [|p l IH]; intros st Hc Hd Hfr; [by destruct st|].
  apply NoDup_cons in Hc as [Hc1 Hc], Hd as [Hd1 Hd]. destruct (Hfr p) as [Hfd Hfc]; [apply elem_of_cons; by left|].
  unfold set_pairs_of in *. simpl. unfold mbind, M_bind. rewrite SetToken_fresh by done. apply (IH (add_pair p st)); [done..|].
  intros q Hq. destruct (Hfr q) as [Hqd Hqc]; [apply elem_of_cons; by right|]. simpl.
  rewrite !lookup_insert_ne; [done|..]; intros Heq; [apply Hc1|apply Hd1]; rewrite Heq; by apply list_elem_of_fmap_2.
Qed.

Lemma exported_pair st p : registry_ok st → p ∈ GetTokenPairs st ↔ e_pairs st !! GetID p = Some p.
Proof.
  intros Hok. unfold GetTokenPairs. rewrite list_elem_of_fmap. split.
  - intros ([i q] & -> & Hq%elem_of_map_to_list). simpl. by destruct (ro_pair _ Hok _ _ Hq) as [-> _].
  - intros Hp. exists (GetID p, p). by rewrite elem_of_map_to_list.
Qed.
(** A function that is injective on the pairs of the registry lists no value twice. *)
Lemma exported_nodup {K} (f : TokenPair → K) st :
  registry_ok st → (∀ p q, e_pairs st !! GetID p = Some p → e_pairs st !! GetID q = Some q → f p = f q → p = q) →
  NoDup (f <$> GetTokenPairs st).
Proof.
  intros Hok Hf. apply NoDup_fmap_2_strong; [intros p q Hp Hq; apply Hf; by apply exported_pair|].
  unfold GetTokenPairs. apply NoDup_fmap_2_strong; [|apply NoDup_map_to_list].
  intros [i p] [j q] Hp%elem_of_map_to_list Hq%elem_of_map_to_list. simpl. intros ->.
  destruct (ro_pair _ Hok _ _ Hp) as [-> _], (ro_pair _ Hok _ _ Hq) as [-> _]. done.
Qed.
Lemma same_index st p q :
  registry_ok st → e_pairs st !! GetID p = Some p → e_pairs st !! GetID q = Some q →
  GetERC20Contract p = GetERC20Contract q ∨ tp_Denom p = tp_Denom q → p = q.
Proof.
  intros Hok Hp Hq Heq. destruct (ro_pair _ Hok _ _ Hp) as (_ & Hp1 & Hp2 & _).
  destruct (ro_pair _ Hok _ _ Hq) as (_ & Hq1 & Hq2 & _). assert (GetID p = GetID q) by (destruct Heq; congruence). congruence.
Qed.

(** The three maps are those of the pairs. *)
Lemma with_pairs_export l st :
  registry_ok st → l ≡ₚ GetTokenPairs st →
  insert_all (by_id <$> l) ∅ = e_pairs st ∧ insert_all (by_contract <$> l) ∅ = e_byERC20 st ∧
  insert_all (by_denom <$> l) ∅ = e_byDenom st.
Proof.
  intros Hok Hl. assert (Hin : ∀ p, p ∈ l ↔ e_pairs st !! GetID p = Some p).
  { intros p. rewrite Hl. by apply exported_pair. }
  split_and!; apply map_eq; intros k; apply option_eq; intros x; rewrite insert_all_lookup; try (by intros; apply lookup_empty);
    rewrite <- ?list_fmap_compose; try (rewrite Hl; apply exported_nodup; [done|]; intros p q Hp Hq; simpl).
  2,4,6: try (intros Heq; by eapply same_index; eauto).
  - rewrite lookup_empty, list_elem_of_fmap. split.
    + intros [(p & [= -> ->] & Hp%Hin)|?]; done.
    + intros Hk. left. destruct (ro_pair _ Hok _ _ Hk) as [-> _]. exists x. by rewrite Hin.
  - intros Heq. congruence.
  - rewrite lookup_empty, list_elem_of_fmap. split.
    + intros [(p & [= -> ->] & Hp%Hin)|?]; [|done]. by destruct (ro_pair _ Hok _ _ Hp) as (_ & ? & _).
    + intros Hk. left. destruct (ro_erc20 _ Hok _ _ Hk) as (p & Hp & <-). destruct (ro_pair _ Hok _ _ Hp) as [-> _].
      exists p. by rewrite Hin.
  - rewrite lookup_empty, list_elem_of_fmap. split.
    + intros [(p & [= -> ->] & Hp%Hin)|?]; [|done]. by destruct (ro_pair _ Hok _ _ Hp) as (_ & _ & ? & _).
    + intros Hk. left. destruct (ro_denom _ Hok _ _ Hk) as (p & Hp & <-). destruct (ro_pair _ Hok _ _ Hp) as [-> _].
      exists p. by rewrite Hin.
Qed.

(** ** Precompiles *)

(** The active precompiles are stored in the form that addresses are printed in. *)
Definition canonical (ss : gset string) : Prop := ∀ s, s ∈ ss → hex (HexToAddress s) = s.
Lemma SetNativePrecompile_canonical a st : canonical (e_native st) → canonical (e_native (fst (SetNativePrecompile a st))).
Proof. intros Hc s. simpl. destruct (erl_hex a) as [_ Ha]. rewrite elem_of_union, elem_of_singleton. intros [->|?]; [by rewrite Ha|by apply Hc]. Qed.
Lemma SetDynamicPrecompile_canonical a st : canonical (e_dynamic st) → canonical (e_dynamic (fst (SetDynamicPrecompile a st))).
Proof. intros Hc s. simpl. destruct (erl_hex a) as [_ Ha]. rewrite elem_of_union, elem_of_singleton. intros [->|?]; [by rewrite Ha|by apply Hc]. Qed.

(** The code hashes of precompiles can be written. *)
Definition code_hashes_writable : Prop := ∀ a (w : W), ∃ w', RegisterERC20CodeHash a w = (w', Ok tt).
Lemma RegisterCodeHash_run a t c :
  code_hashes_writable → ∃ c', RegisterCodeHash a t c = (c', Ok tt) ∧ ec_store c' = ec_store c.
Proof.
  intros Hw. unfold RegisterCodeHash, mbind, M_bind, gets.
  match goal with |- context [when ?b _] => destruct b end; [|by exists c].
  destruct (Hw a (ec_world c)) as [w' Hr]. unfold when, on_world, zoom. rewrite Hr. by eexists.
Qed.
Lemma native_run l c :
  code_hashes_writable →
  ∃ c', for_each l (λ p, or_panic (EnableNativePrecompile (HexToAddress p)) "error registering native precompiles") c = (c', Ok tt) ∧
    ec_store c' = set_native (list_to_set ((λ s, hex (HexToAddress s)) <$> l) ∪ e_native (ec_store c)) (ec_store c).
Proof.
  intros Hw. revert c. induction l as [|s l IH]; intros c; simpl.
  - exists c. split; [done|]. rewrite union_empty_l_L. by destruct (ec_store c).
  - unfold mbind, M_bind, or_panic, EnableNativePrecompile.
    destruct (RegisterCodeHash_run (HexToAddress s) PrecompileTypeNative c Hw) as (c1 & Hr & Hs1).
    unfold mbind, M_bind. rewrite Hr. cbn. edestruct IH as (c2 & Hr2 & Hs2). exists c2. split; [exact Hr2|].
    rewrite Hs2. cbn. rewrite Hs1. unfold set_native. cbn. f_equal. set_solver.
Qed.
Lemma dynamic_run l c :
  code_hashes_writable →
  ∃ c', for_each l (λ p, or_panic (EnableDynamicPrecompile (HexToAddress p)) "error registering dynamic precompiles") c = (c', Ok tt) ∧
    ec_store c' = set_dynamic (list_to_set ((λ s, hex (HexToAddress s)) <$> l) ∪ e_dynamic (ec_store c)) (ec_store c).
Proof.
  intros Hw. revert c. induction l as [|s l IH]; intros c; simpl.
  - exists c. split; [done|]. rewrite union_empty_l_L. by destruct (ec_store c).
  - unfold mbind, M_bind, or_panic, EnableDynamicPrecompile.
    destruct (RegisterCodeHash_run (HexToAddress s) PrecompileTypeDynamic c Hw) as (c1 & Hr & Hs1).
    unfold mbind, M_bind. rewrite Hr. cbn. edestruct IH as (c2 & Hr2 & Hs2). exists c2. split; [exact Hr2|].
    rewrite Hs2. cbn. rewrite Hs1. unfold set_dynamic. cbn. f_equal. set_solver.
Qed.
Lemma canonical_set l (ss : gset string) :
  canonical ss → l ≡ₚ elements ss → list_to_set ((λ s, hex (HexToAddress s)) <$> l) = ss.
Proof.
  intros Hc Hl. apply set_eq. intros s. rewrite elem_of_list_to_set, list_elem_of_fmap. split.
  - intros (t & -> & Ht). rewrite Hl, elem_of_elements in Ht. by rewrite Hc.
  - intros Hs. exists s. rewrite Hl, elem_of_elements. by rewrite Hc.
Qed.

(** ** Allowances *)

Definition allowance_key (a : Allowance) : Address * Address * Address :=
  (HexToAddress (al_Erc20Address a), HexToAddress (al_Owner a), HexToAddress (al_Spender a)).
(** An allowance that the store of [st] could hold. *)
Definition storable st (a : Allowance) : Prop :=
  is_Some (GetTokenPair st (GetERC20Map st (allowance_key a).1.1)) ∧ allowance_ok st (allowance_key a) a.
Lemma UnsafeSetAllowance_run a st :
  storable st a →
  UnsafeSetAllowance (HexToAddress (al_Erc20Address a)) (HexToAddress (al_Owner a)) (HexToAddress (al_Spender a))
    (Some (al_Value a)) st = (set_allowances (<[allowance_key a := a]> (e_allowances st)) st, Ok tt).
Proof.
  intros [[p Hp] (_ & Ho & Hs & Hv & Ha)]. unfold allowance_key in *. simpl in *.
  unfold UnsafeSetAllowance, setAllowance, mbind, M_bind, gets, id. rewrite Hp. simpl.
  destruct (Z.eqb_spec (HexToAddress (al_Owner a)) 0); [done|]. destruct (Z.eqb_spec (HexToAddress (al_Spender a)) 0); [done|].
  destruct (Z.ltb_spec (al_Value a) 0); [lia|]. destruct (Z.leb_spec (2 ^ 256) (al_Value a)); [lia|].
  destruct (Z.eqb_spec (al_Value a) 0); [lia|]. by rewrite <- Ha.
Qed.
Lemma allowances_run l c :
  (∀ a, a ∈ l → storable (ec_store c) a) →
  import_allowances l c = (mkECtx (set_allowances (insert_all ((λ a, (allowance_key a, a)) <$> l) (e_allowances (ec_store c)))
                             (ec_store c)) (ec_world c) (ec_events c), Ok tt).
Proof.
  revert c. induction l as [|a l IH]; intros c Hs; [by destruct c as [[] ? ?]|].
  unfold import_allowances in *. simpl. unfold mbind, M_bind, or_panic, on_store, zoom.
  rewrite UnsafeSetAllowance_run by (apply Hs, elem_of_cons; by left).
  rewrite IH; [done|]. intros b Hb. apply (Hs b), elem_of_cons. by right.
Qed.
Lemma allowances_export l st :
  registry_ok st → l ≡ₚ GetAllowances st →
  insert_all ((λ a, (allowance_key a, a)) <$> l) ∅ = e_allowances st ∧ ∀ a, a ∈ l → storable st a.
Proof.
  intros Hok Hl.
  assert (Hkey : ∀ k a, e_allowances st !! k = Some a → allowance_key a = k).
  { intros k a Ha. destruct (ro_allowance _ Hok _ _ Ha) as (_ & _ & _ & _ & ->). destruct k as [[x y] z].
    unfold allowance_key. simpl. by rewrite !(proj2 (erl_hex _)). }
  assert (Hin : ∀ a, a ∈ l ↔ e_allowances st !! allowance_key a = Some a).
  { intros a. rewrite Hl. unfold GetAllowances. rewrite list_elem_of_fmap. split.
    - intros ([k b] & -> & Hb%elem_of_map_to_list). simpl. by rewrite (Hkey _ _ Hb).
    - intros Ha. exists (allowance_key a, a). by rewrite elem_of_map_to_list. }
  split.
  - apply map_eq. intros k. apply option_eq. intros a. rewrite insert_all_lookup; [|..|by intros; apply lookup_empty].
    + rewrite lookup_empty, list_elem_of_fmap. split.
      * intros [(b & [= -> ->] & Hb%Hin)|?]; done.
      * intros Ha. left. exists a. rewrite Hin. by rewrite (Hkey _ _ Ha).
    + rewrite <- list_fmap_compose, Hl. unfold GetAllowances. rewrite <- list_fmap_compose.
      apply NoDup_fmap_2_strong; [|apply NoDup_map_to_list].
      intros [k1 a1] [k' b] Ha%elem_of_map_to_list Hb%elem_of_map_to_list. simpl.
      rewrite (Hkey _ _ Ha), (Hkey _ _ Hb). intros ->. congruence.
  - intros a Ha%Hin. pose proof (ro_allowance _ Hok _ _ Ha) as Hao. split; [|done].
    destruct Hao as ([id Hid] & _). unfold GetERC20Map. rewrite Hid. destruct (ro_erc20 _ Hok _ _ Hid) as (p & Hp & _). by exists p.
Qed.

(** ** The round trip *)

(** A genesis with the entries of a store, in any order. *)
Definition exports st (data : GenesisState) : Prop :=
  eg_Params data = GetParams st ∧ eg_TokenPairs data ≡ₚ GetTokenPairs st ∧ eg_Allowances data ≡ₚ GetAllowances st ∧
  eg_NativePrecompiles data ≡ₚ GetNativePrecompiles st ∧ eg_DynamicPrecompiles data ≡ₚ GetDynamicPrecompiles st.

(** C18: importing the genesis of a consistent store into an empty one succeeds and
    restores it: pairs with both indexes, allowances, precompiles and parameters, in
    whatever order the entries are listed. *)
Theorem erc20_genesis_roundtrip st data c :
  registry_ok st → canonical (e_native st) → canonical (e_dynamic st) → code_hashes_writable → exports st data →
  ec_store c = empty_store →
  ∃ c', InitGenesis true data c = (c', Ok tt) ∧ ec_store c' = st.
Proof.
  intros Hok Hn Hd Hw (Hpar & Hpairs & Hall & Hnat & Hdyn) Hc.
  destruct (with_pairs_export _ _ Hok Hpairs) as (Hm1 & Hm2 & Hm3).
  destruct (allowances_export _ _ Hok Hall) as (Ham & Hsto).
  unfold InitGenesis, mbind, M_bind, on_store at 1, zoom at 1. cbn [SetParams modify negb]. rewrite Hc, Hpar.
  unfold on_store at 1, zoom at 1. cbn [ec_store].
  rewrite set_pairs_run.
  2:{ rewrite Hpairs. apply exported_nodup; [done|]. intros p q Hp Hq Heq. by eapply same_index; eauto. }
  2:{ rewrite Hpairs. apply exported_nodup; [done|]. intros p q Hp Hq Heq. by eapply same_index; eauto. }
  2:{ intros p _. done. }
  unfold import_precompiles, mbind, M_bind.
  match goal with |- context [for_each (eg_NativePrecompiles data) _ ?c0] => destruct (native_run (eg_NativePrecompiles data) c0 Hw) as (c1 & -> & Hs1) end.
  destruct (dynamic_run (eg_DynamicPrecompiles data) c1 Hw) as (c2 & -> & Hs2).
  assert (Hst : ec_store c2 = set_allowances ∅ st).
  { rewrite Hs2, Hs1. unfold with_pairs, set_native, set_dynamic, set_allowances. cbn. rewrite Hm1, Hm2, Hm3.
    rewrite (canonical_set _ _ Hn Hnat), (canonical_set _ _ Hd Hdyn), !union_empty_r_L. by destruct st. }
  rewrite allowances_run; rewrite Hst.
  - eexists. split; [done|]. cbn. rewrite Ham. by destruct st.
  - intros a Ha. destruct (Hsto a Ha) as [? ?]. by split.
Qed.

(** Validation compares addresses as strings, the import as addresses: two spellings of
    one address pass the first, and the second ends there without an error, leaving out
    precompiles and allowances. *)
Theorem genesis_stops_silently p q data c :
  eg_TokenPairs data = [p; q] → GetERC20Contract p = GetERC20Contract q → tp_Denom p ≠ tp_Denom q →
  ec_store c = empty_store →
  ∃ c', InitGenesis true data c = (c', Ok tt) ∧ e_pairs (ec_store c') = {[GetID p := p]} ∧
    e_allowances (ec_store c') = ∅ ∧ e_native (ec_store c') = ∅ ∧ e_dynamic (ec_store c') = ∅.
Proof.
  intros Hl Heq Hd Hc. unfold InitGenesis, mbind, M_bind, on_store, zoom. cbn [SetParams modify negb ec_store]. rewrite Hc, Hl.
  unfold set_pairs_of. cbn [for_each]. unfold mbind at 1, M_bind at 1. rewrite SetToken_fresh by done.
  unfold mbind at 1, M_bind at 1, SetToken at 1, mbind at 1, M_bind at 1, gets, id.
  unfold IsDenomRegistered, IsERC20Registered. cbn [e_byDenom e_byERC20 add_pair set_byERC20 set_byDenom set_pairs].
  rewrite lookup_insert_ne by done. rewrite bool_decide_eq_false_2 by (by intros [? ?]).
  rewrite Heq, lookup_insert_eq, bool_decide_eq_true_2 by (by eexists). by eexists.
Qed.
End GenesisProps.
End GenesisProps20.
