(* ===== verification/PrecompileAbi.v ===== *)
(** Calls of precompiled contracts by their ABI ([precompiles/common]): the choice of
    the method from the call data ([precompile.go]) and the topics of events
    ([abi.go]).

    Decoding and encoding are go-ethereum's: an ABI is a record of its functions. *)
From S2P Require Import Prelude GoStd AccessList Sdk StateDB EvmTx.

(** Decoded arguments and outputs, by their Go type. *)
Inductive AbiValue :=
| VAddress (a : Address)
| VBigInt (z : Z)
| VUint8 (z : Z)
| VBool (b : bool)
| VString (s : string)
| VBalances (bs : list (Address * Z)).

Inductive FunctionType := Function | Fallback | Receive.
#[export] Instance FunctionType_eq_dec : EqDecision FunctionType.
Proof. solve_decision. Defined.
Record Method := mkMethod { me_Name : string; me_Type : FunctionType }.
Record ABI := mkABI {
  abi_MethodById : string → option Method;
  abi_HasReceive : bool;
  abi_Receive : Method;
  abi_HasFallback : bool;
  abi_Fallback : Method;
  abi_Unpack : Method → string → option (list AbiValue);
  (** [method.Outputs.Pack]. *)
  abi_Pack : Method → AbiValue → option string;
  (** The identifier of an event, and its packed data. *)
  abi_EventID : string → Hash;
  abi_PackNumber : Z → option string;
}.

(** [vm.Contract]; the value is an unsigned integer of 256 bits. *)
Record Contract := mkContract { ct_Caller : Address; ct_Value : Z; ct_Input : string }.

Definition ErrExecutionReverted : SdkError := ErrPlain "execution reverted".
Definition ErrWriteProtection : SdkError := ErrPlain "write protection".
Definition ErrAbi : SdkError := ErrPlain "abi".
Definition ErrUnknownMethod : SdkError := ErrPlain "unknown method".
Definition ErrInvalidNumberOfArgs : SdkError := ErrPlain "invalid number of arguments".
Definition ErrInvalidType : SdkError := ErrPlain "invalid type".

Definition input_len (ct : Contract) : Z := Z.of_nat (String.length (ct_Input ct)).
Definition method_id (input : string) : string := String.substring 0 4 input.

Definition emptyCallData (api : ABI) (ct : Contract) : res SdkError Method :=
  if (0 <? ct_Value ct) && abi_HasReceive api then Ok (abi_Receive api)
  else if abi_HasFallback api then Ok (abi_Fallback api)
  else Err ErrExecutionReverted.
Definition methodIDCallData (api : ABI) : res SdkError Method :=
  if negb (abi_HasFallback api) then Err ErrExecutionReverted else Ok (abi_Fallback api).
Definition standardCallData (api : ABI) (ct : Contract) : res SdkError Method :=
  match abi_MethodById api (method_id (ct_Input ct)) with
  | None => if negb (abi_HasFallback api) then Err ErrAbi else Ok (abi_Fallback api)
  | Some m => Ok m
  end.

Definition SetupABI (api : ABI) (ct : Contract) (readOnly : bool) (isTransaction : Method → bool) :
    res SdkError (Method * list AbiValue) :=
  match (if input_len ct =? 0 then emptyCallData api ct
         else if input_len ct <? 4 then methodIDCallData api
         else standardCallData api ct) with
  | Err e => Err e
  | Panic p => Panic p
  | Ok method =>
      if readOnly && isTransaction method then Err ErrWriteProtection
      else if bool_decide (me_Type method = Function) then
        if input_len ct <? 4 then Panic "slice bounds out of range"
        else
          match abi_Unpack api method (String.substring 4 (String.length (ct_Input ct) - 4) (ct_Input ct)) with
          | None => Err ErrAbi
          | Some args => Ok (method, args)
          end
      else Ok (method, [])
  end.

(** ** Topics: 32 bytes as an unsigned integer *)

(** Bytes of a topic from the last one. *)
Fixpoint int_bytes (rule : Z) (size : nat) : Z :=
  match size with
  | O => 0
  | S size' => Z.land (Z.shiftr rule (8 * Z.of_nat size')) 255 * 2 ^ (8 * Z.of_nat size') + int_bytes rule size'
  end.
(** The low bytes are those of the number, the others its sign. *)
Definition genIntType (rule : Z) (size : nat) : Z :=
  int_bytes rule size + (if rule <? 0 then 2 ^ 256 - 2 ^ (8 * Z.of_nat size) else 0).

(** The types of rules; integers carry their size in bytes. *)
Inductive TopicRule :=
| RHash (h : Hash)
| RAddress (a : Address)
| RBigInt (z : Z)
| RBool (b : bool)
| RInt (size : nat) (z : Z)
| RUint (z : Z)
| RString (s : string)
| RBytes (s : string)
| RArray (len : nat) (z : Z)
| ROther.
Section Topics.
Context `{HCr : Crypto}.
(** [copy] into the last bytes panics when a number has more than 32. *)
Definition MakeTopic (rule : TopicRule) : res SdkError Hash :=
  match rule with
  | RHash h => Ok h
  | RAddress a => Ok a
  | RBigInt z => if 2 ^ 256 <=? Z.abs z then Panic "slice bounds out of range" else Ok (Z.abs z)
  | RBool b => Ok (if b then 1 else 0)
  | RInt size z => Ok (genIntType z size)
  | RUint z => Ok z
  | RString s => Ok (Keccak256Hash s)
  | RBytes s => Ok (Keccak256Hash s)
  | RArray len z => if 32 <? Z.of_nat len then Panic "slice bounds out of range" else Ok (z * 2 ^ (8 * (32 - Z.of_nat len)))
  | ROther => Err (ErrPlain "unsupported indexed type")
  end.
End Topics.

(** ** Properties *)

Lemma int_bytes_mod rule size : int_bytes rule size = rule mod 2 ^ (8 * Z.of_nat size).
Proof.
  induction size as [|size IH]; [by rewrite Z.mod_1_r|]. cbn [int_bytes]. rewrite IH.
  replace (8 * Z.of_nat (S size)) with (8 * Z.of_nat size + 8) by lia.
  set (n := 8 * Z.of_nat size). assert (0 ≤ n) by lia.
  change 255 with (Z.ones 8). rewrite Z.land_ones, Z.shiftr_div_pow2 by lia.
  rewrite Z.pow_add_r by lia. rewrite Z.rem_mul_r by (try apply Z.pow_nonzero; lia). lia.
Qed.

(** An indexed integer is its two's complement in 256 bits, as Solidity has it. *)
Theorem genIntType_twos_complement rule (size : nat) :
  (size ≤ 32)%nat → - 2 ^ (8 * Z.of_nat size) ≤ rule < 2 ^ (8 * Z.of_nat size) →
  genIntType rule size = rule mod 2 ^ 256.
Proof.
  intros Hs Hr. unfold genIntType. rewrite int_bytes_mod.
  assert (2 ^ (8 * Z.of_nat size) ≤ 2 ^ 256) by (apply Z.pow_le_mono_r; lia).
  destruct (Z.ltb_spec rule 0).
  - rewrite <- (Z.mod_unique rule (2 ^ (8 * Z.of_nat size)) (-1) (rule + 2 ^ (8 * Z.of_nat size))) by lia.
    rewrite <- (Z.mod_unique rule (2 ^ 256) (-1) (rule + 2 ^ 256)) by lia. lia.
  - rewrite !Z.mod_small by lia. lia.
Qed.

(** A method that writes is refused in a read-only call, whatever the call data. *)
Lemma SetupABI_read_only api ct isTransaction m args :
  SetupABI api ct true isTransaction = Ok (m, args) → isTransaction m = false.
Proof.
  unfold SetupABI. destruct (if _ =? 0 then _ else _) as [m'|e|p]; [|done..].
  destruct (isTransaction m') eqn:Ht; [done|]. simpl. case_bool_decide; [|by intros [= <- <-]].
  destruct (_ <? _); [done|]. destruct (abi_Unpack _ _ _); [|done]. by intros [= <- <-].
Qed.
