(* ===== verification/Erc20Precompile.v ===== *)
(** The ERC-20 precompile of a coin ([precompiles/erc20]), its extension for the
    native coin ([precompiles/werc20]) and the denominations of IBC vouchers
    ([ibc/utils.go]).

    An instance serves one token pair over the registry and the bank.  [Run] passes
    [Execute] to [runNativeAction] of [Precompile]. *)
From Stdlib Require Import Ascii.
From S2P Require Import Prelude GoStd AccessList Sdk EvmCoin StateDB EvmParams EvmTx Erc20Registry Erc20Convert PrecompileAbi.
Import ER.

(** The bank and transfer keepers as the precompiles use them. *)
Class TokenBank (B : Type) := {
  (** [Send] of the bank's message server. *)
  tb_MsgSend : Address → Address → Coins → M B SdkError unit;
  tb_SendCoins : Address → Address → Coins → M B SdkError unit;
  tb_GetBalance : B → Address → string → Z;
  tb_SpendableCoin : B → Address → string → Z;
  tb_GetSupply : B → string → Z;
  tb_GetDenomMetaData : B → string → option Metadata;
  tb_Coins_Validate : Coins → res SdkError unit;
  (** Whether the keeper is the bank's [BaseKeeper], or a pointer to it. *)
  tb_IsBaseKeeper : bool;
  (** The base denomination of the transfer keeper's [GetDenom]. *)
  tk_GetDenom : B → string → option string;
}.
(** The text of an error, with everything it wraps; [transfertypes.ParseHexHash];
    [strings.ToUpper], which follows the Unicode tables. *)
Class TextLib := {
  error_text : SdkError → string;
  ParseHexHash_bytes : string → option string;
  ToUpper : string → string;
}.

Definition ErrNoIBCVoucherDenom : SdkError := ErrPlain "denom is not an IBC voucher".
Definition ErrDenomNotFound : SdkError := ErrPlain "denom not found".
Definition ErrInvalidBaseDenom : SdkError := ErrPlain "invalid base denomination".
Definition ErrNegativeAmount : SdkError := ErrPlain "cannot approve negative values".
Definition ErrDecreasedAllowanceBelowZero : SdkError := ErrPlain "ERC20: decreased allowance below zero".
Definition ErrInsufficientAllowance : SdkError := ErrPlain "ERC20: insufficient allowance".
Definition ErrTransferAmountExceedsBalance : SdkError := ErrPlain "ERC20: transfer amount exceeds balance".
Definition ErrCannotReceiveFunds : SdkError := ErrPlain "cannot receive funds".
Definition ErrIntegerOverflow : SdkError := ErrPlain "amount causes integer overflow".

(** [strings.Contains]. *)
Definition str_contains (s sub : string) : bool := bool_decide (is_Some (String.index 0 sub s)).
(** The last part of a string split by "/". *)
Fixpoint last_segment (acc s : string) : string :=
  match s with
  | EmptyString => acc
  | String c s' =>
      if Ascii.eqb c "/" then last_segment EmptyString s' else last_segment (String.append acc (String c EmptyString)) s'
  end.
(** [string(b)]: the UTF-8 form of the character of a byte. *)
Definition string_of_byte (c : ascii) : string :=
  let n := N_of_ascii c in
  if (n <? 128)%N then String c EmptyString
  else String (ascii_of_N (192 + n / 64)) (String (ascii_of_N (128 + n mod 64)) EmptyString).

(** Methods, by the names of the ABI. *)
Definition TransferMethod : string := "transfer".
Definition TransferFromMethod : string := "transferFrom".
Definition ApproveMethod : string := "approve".
Definition NameMethod : string := "name".
Definition SymbolMethod : string := "symbol".
Definition DecimalsMethod : string := "decimals".
Definition TotalSupplyMethod : string := "totalSupply".
Definition BalanceOfMethod : string := "balanceOf".
Definition AllowanceMethod : string := "allowance".
Definition DepositMethod : string := "deposit".
Definition WithdrawMethod : string := "withdraw".

Record PLog := mkPLog { pl_Address : Address; pl_Topics : list Hash; pl_Data : string; pl_BlockNumber : Z }.
(** What an action works on: the registry, the bank and the logs it adds. *)
Record precompileCtx (B : Type) := mkPCtx { px_store : erc20Store; px_bank : B; px_logs : list PLog }.
Arguments mkPCtx {B}.
Arguments px_store {B}.
Arguments px_bank {B}.
Arguments px_logs {B}.

(** ** Arguments *)

Definition ParseTransferArgs (args : list AbiValue) : res SdkError (Address * Z) :=
  match args with
  | [VAddress to; VBigInt amount] => Ok (to, amount)
  | [VAddress _; _] => Err (ErrPlain "invalid amount")
  | [_; _] => Err (ErrPlain "invalid to address")
  | _ => Err ErrInvalidNumberOfArgs
  end.
Definition ParseTransferFromArgs (args : list AbiValue) : res SdkError (Address * Address * Z) :=
  match args with
  | [VAddress from; VAddress to; VBigInt amount] => Ok (from, to, amount)
  | [VAddress _; VAddress _; _] => Err (ErrPlain "invalid amount")
  | [VAddress _; _; _] => Err (ErrPlain "invalid to address")
  | [_; _; _] => Err (ErrPlain "invalid from address")
  | _ => Err ErrInvalidNumberOfArgs
  end.
Definition ParseApproveArgs (args : list AbiValue) : res SdkError (Address * Z) :=
  match args with
  | [VAddress spender; VBigInt amount] => Ok (spender, amount)
  | [VAddress _; _] => Err (ErrPlain "invalid amount")
  | [_; _] => Err (ErrPlain "invalid spender address")
  | _ => Err ErrInvalidNumberOfArgs
  end.
Definition ParseAllowanceArgs (args : list AbiValue) : res SdkError (Address * Address) :=
  match args with
  | [VAddress owner; VAddress spender] => Ok (owner, spender)
  | [VAddress _; _] => Err (ErrPlain "invalid spender address")
  | [_; _] => Err (ErrPlain "invalid owner address")
  | _ => Err ErrInvalidNumberOfArgs
  end.
Definition ParseBalanceOfArgs (args : list AbiValue) : res SdkError Address :=
  match args with
  | [VAddress account] => Ok account
  | [_] => Err (ErrPlain "invalid account address")
  | _ => Err ErrInvalidNumberOfArgs
  end.

Module EP.
Section Precompile.
Context {B : Type}.
Context `{HP : ParamsLib, HL : Erc20Lib, HCr : Crypto, HB : !TokenBank B, HT : TextLib, HCL : CoinsLib}.
(** The ABI, the token pair of the instance, the block height and the coin
    configuration. *)
Context (api : ABI) (tokenPair : TokenPair) (height : Z) (info : EvmCoinInfo).
Abbreviation PM := (M (precompileCtx B) SdkError).
Definition address : Address := GetERC20Contract tokenPair.
Definition on_registry {X} : M erc20Store SdkError X → PM X :=
  zoom px_store (λ st c, mkPCtx st (px_bank c) (px_logs c)).
Definition on_bank {X} : M B SdkError X → PM X := zoom px_bank (λ b c, mkPCtx (px_store c) b (px_logs c)).
Definition AddLog (l : PLog) : PM unit := modify (λ c, mkPCtx (px_store c) (px_bank c) (px_logs c ++ [l])).
Definition pack (m : Method) (v : AbiValue) : PM string :=
  match abi_Pack api m v with Some bz => mret bz | None => throw ErrAbi end.

(** ** IBC vouchers *)

Definition GetDenom (b : B) (voucherDenom : string) : res SdkError string :=
  if negb (String.prefix "ibc/" voucherDenom) then Err ErrNoIBCVoucherDenom
  else
    match ParseHexHash_bytes (String.substring 4 (String.length voucherDenom - 4) voucherDenom) with
    | None => Err (ErrPlain "invalid hash")
    | Some hash => match tk_GetDenom b hash with None => Err ErrDenomNotFound | Some base => Ok base end
    end.
Definition DeriveDecimalsFromDenom (baseDenom : string) : res SdkError Z :=
  match baseDenom with
  | EmptyString => Err ErrInvalidBaseDenom
  | String c _ => if Ascii.eqb c "u" then Ok 6 else if Ascii.eqb c "a" then Ok 18 else Err ErrInvalidBaseDenom
  end.

(** ** Errors and events *)

Definition ConvertErrToERC20Error (err : SdkError) : SdkError :=
  let text := error_text err in
  if str_contains text "spendable balance" then ErrTransferAmountExceedsBalance
  else if str_contains text "requested amount is more than spend limit" then ErrInsufficientAllowance
  else if str_contains text "subtracted value cannot be greater than existing allowance"
  then ErrDecreasedAllowanceBelowZero
  else if str_contains text "integer overflow when increasing allowance" then ErrExecutionReverted
  else if bool_decide (err = ErrNoIBCVoucherDenom) || bool_decide (err = ErrDenomNotFound) ||
          str_contains text "invalid base denomination" || str_contains text "display denomination not found" ||
          str_contains text "invalid decimals"
  then ErrExecutionReverted
  else err.
(** [return nil, ConvertErrToERC20Error(err)]. *)
Definition converting {X} (m : PM X) : PM X := on_err m (λ e, mret (ConvertErrToERC20Error e)).
Definition convert_res {X} (r : res SdkError X) : res SdkError X :=
  match r with Err e => Err (ConvertErrToERC20Error e) | r => r end.

(** An event with indexed addresses and a number; the height is kept in 64 bits. *)
Definition emit_event (event : string) (topics : list Address) (value : Z) : PM unit :=
  match abi_PackNumber api value with
  | None => throw ErrAbi
  | Some packed => AddLog (mkPLog address (abi_EventID api event :: topics) packed (height mod 2 ^ 64))
  end.
Definition EmitTransferEvent (from to : Address) (value : Z) : PM unit := emit_event "Transfer" [from; to] value.
Definition EmitApprovalEvent (owner spender : Address) (value : Z) : PM unit := emit_event "Approval" [owner; spender] value.

(** ** Transactions *)

Definition Send (from to : Address) (coins : Coins) : PM unit :=
  if tb_IsBaseKeeper then converting (on_bank (tb_MsgSend from to coins)) else throw (ErrPlain "invalid keeper type").

(** The allowance of the caller, reduced by the amount. *)
Definition spend_allowance (from spender : Address) (amount : Z) : PM Z :=
  prevAllowance ← gets (λ c, GetAllowance (px_store c) address from spender);
  let newAllowance := prevAllowance - amount in
  if newAllowance <? 0 then throw ErrInsufficientAllowance
  else
    converting (on_registry
      (if newAllowance =? 0 then DeleteAllowance address from spender
       else SetAllowance address from spender (Some newAllowance))) ;;
    mret newAllowance.
Definition transfer (ct : Contract) (m : Method) (from to : Address) (amount : Z) : PM string :=
  amountInt ← int_checked amount;
  let coins := [mkCoin (tp_Denom tokenPair) amountInt] in
  return_res (tb_Coins_Validate coins) ;;
  let isTransferFrom := String.eqb (me_Name m) TransferFromMethod in
  newAllowance ← (if isTransferFrom then spend_allowance from (ct_Caller ct) amount else mret 0);
  converting (Send from to coins) ;;
  EmitTransferEvent from to amount ;;
  (if isTransferFrom then EmitApprovalEvent from (ct_Caller ct) newAllowance else mret tt) ;;
  pack m (VBool true).
Definition Transfer (ct : Contract) (m : Method) (args : list AbiValue) : PM string :=
  '(to, amount) ← return_res (ParseTransferArgs args);
  transfer ct m (ct_Caller ct) to amount.
Definition TransferFrom (ct : Contract) (m : Method) (args : list AbiValue) : PM string :=
  '(from, to, amount) ← return_res (ParseTransferFromArgs args);
  transfer ct m from to amount.

Definition precompile_setAllowance (owner spender : Address) (allowance : Z) : PM unit :=
  if 2 ^ MaxBitLen <=? Z.abs allowance then throw ErrIntegerOverflow
  else on_registry (SetAllowance address owner spender (Some allowance)).
Definition Approve (ct : Contract) (m : Method) (args : list AbiValue) : PM string :=
  '(spender, amount) ← return_res (ParseApproveArgs args);
  let owner := ct_Caller ct in
  allowance ← gets (λ c, GetAllowance (px_store c) address owner spender);
  (if (allowance =? 0) && (amount <? 0) then throw ErrNegativeAmount
   else if (allowance =? 0) && (0 <? amount) then precompile_setAllowance owner spender amount
   else if (0 <? allowance) && (amount <=? 0) then on_registry (DeleteAllowance address owner spender)
   else if (0 <? allowance) && (0 <? amount) then precompile_setAllowance owner spender amount
   else mret tt) ;;
  EmitApprovalEvent owner spender amount ;;
  pack m (VBool true).

(** ** Queries *)

Definition getBaseDenomFromIBCVoucher (b : B) (voucherDenom : string) : res SdkError string :=
  match GetDenom b voucherDenom with
  | Ok base => if Z.of_nat (String.length base) <? 3 then Err ErrInvalidBaseDenom else Ok base
  | r => r
  end.
Definition metadata_of (b : B) : option Metadata := tb_GetDenomMetaData b (tp_Denom tokenPair).
Definition Name (m : Method) : PM string :=
  b ← gets px_bank;
  match metadata_of b with
  | Some metadata => pack m (VString (mt_Name metadata))
  | None =>
      baseDenom ← return_res (convert_res (getBaseDenomFromIBCVoucher b (tp_Denom tokenPair)));
      match baseDenom with
      | String _ (String c rest) => pack m (VString (String.append (ToUpper (string_of_byte c)) rest))
      | _ => panic "index out of range"
      end
  end.
Definition Symbol (m : Method) : PM string :=
  b ← gets px_bank;
  match metadata_of b with
  | Some metadata => pack m (VString (mt_Symbol metadata))
  | None =>
      baseDenom ← return_res (convert_res (getBaseDenomFromIBCVoucher b (tp_Denom tokenPair)));
      pack m (VString (ToUpper (String.substring 1 (String.length baseDenom - 1) baseDenom)))
  end.
(** The exponent of the last unit whose name is the display denomination. *)
Definition display_exponent (metadata : Metadata) : option Z :=
  let display := if String.prefix "ibc/" (mt_Base metadata) then last_segment "" (mt_Display metadata)
                 else mt_Display metadata in
  snd <$> find (λ u, String.eqb (fst u) display) (reverse (mt_DenomUnits metadata)).
Definition Decimals (m : Method) : PM string :=
  b ← gets px_bank;
  match metadata_of b with
  | None =>
      base ← return_res (convert_res (GetDenom b (tp_Denom tokenPair)));
      decimals ← return_res (convert_res (DeriveDecimalsFromDenom base));
      pack m (VUint8 decimals)
  | Some metadata =>
      match display_exponent metadata with
      | None => throw (ConvertErrToERC20Error (ErrPlain "display denomination not found"))
      | Some decimals =>
          if 255 <? decimals then throw (ConvertErrToERC20Error (ErrPlain "uint8 overflow: invalid decimals"))
          else pack m (VUint8 decimals)
      end
  end.
Definition TotalSupply (m : Method) : PM string :=
  supply ← gets (λ c, tb_GetSupply (px_bank c) (tp_Denom tokenPair));
  pack m (VBigInt supply).
Definition query_BalanceOf (m : Method) (args : list AbiValue) : PM string :=
  account ← return_res (ParseBalanceOfArgs args);
  balance ← gets (λ c, tb_SpendableCoin (px_bank c) account (tp_Denom tokenPair));
  pack m (VBigInt balance).
Definition query_Allowance (m : Method) (args : list AbiValue) : PM string :=
  '(owner, spender) ← return_res (ParseAllowanceArgs args);
  allowance ← gets (λ c, GetAllowance (px_store c) address owner spender);
  pack m (VBigInt allowance).

(** ** The contract *)

Definition gas_table : list (string * Z) :=
  [(TransferMethod, 9000); (TransferFromMethod, 30500); (ApproveMethod, 8100); (NameMethod, 3421); (SymbolMethod, 3464);
   (DecimalsMethod, 427); (TotalSupplyMethod, 2480); (BalanceOfMethod, 2870); (AllowanceMethod, 3225)].
Definition RequiredGas (input : string) : Z :=
  if Z.of_nat (String.length input) <? 4 then 0
  else
    match abi_MethodById api (method_id input) with
    | None => 0
    | Some m => from_option snd 0 (find (λ g, String.eqb (fst g) (me_Name m)) gas_table)
    end.
Definition IsTransaction (m : Method) : bool :=
  bool_decide (me_Name m ∈ [TransferMethod; TransferFromMethod; ApproveMethod]).
Definition HandleMethod (ct : Contract) (m : Method) (args : list AbiValue) : PM string :=
  let name := me_Name m in
  if String.eqb name TransferMethod then Transfer ct m args
  else if String.eqb name TransferFromMethod then TransferFrom ct m args
  else if String.eqb name ApproveMethod then Approve ct m args
  else if String.eqb name NameMethod then Name m
  else if String.eqb name SymbolMethod then Symbol m
  else if String.eqb name DecimalsMethod then Decimals m
  else if String.eqb name TotalSupplyMethod then TotalSupply m
  else if String.eqb name BalanceOfMethod then query_BalanceOf m args
  else if String.eqb name AllowanceMethod then query_Allowance m args
  else throw ErrUnknownMethod.
Definition Execute (ct : Contract) (readOnly : bool) : PM string :=
  if 0 <? ct_Value ct then throw ErrCannotReceiveFunds
  else
    '(m, args) ← return_res (SetupABI api ct readOnly IsTransaction);
    HandleMethod ct m args.

(** ** The wrapped native coin *)

Definition createWERC20Event (event : string) (a : Address) (amount : Z) : PM unit := emit_event event [a] amount.
Definition Deposit (ct : Contract) : PM string :=
  depositedAmount ← int_checked (ct_Value ct);
  on_bank (tb_SendCoins address (ct_Caller ct) (NewCoins [mkCoin (eci_ExtendedDenom info) depositedAmount])) ;;
  createWERC20Event "Deposit" (ct_Caller ct) (ct_Value ct) ;;
  mret ""%string.
Definition Withdraw (ct : Contract) (args : list AbiValue) : PM string :=
  match args with
  | [] => panic "index out of range"
  | VBigInt amount :: _ =>
      amountInt ← int_checked amount;
      nativeBalance ← gets (λ c, tb_SpendableCoin (px_bank c) (ct_Caller ct) (eci_Denom info));
      if nativeBalance <? amountInt then throw (ErrPlain "account balance is lower than withdraw balance")
      else createWERC20Event "Withdrawal" (ct_Caller ct) amount ;; mret ""%string
  | _ => throw (ErrPlain "invalid argument type")
  end.
Definition werc20_RequiredGas (input : string) : Z :=
  if Z.of_nat (String.length input) <? 4 then 23878
  else
    match abi_MethodById api (method_id input) with
    | None => 0
    | Some m => if String.eqb (me_Name m) DepositMethod then 23878
                else if String.eqb (me_Name m) WithdrawMethod then 9207 else RequiredGas input
    end.
Definition werc20_IsTransaction (m : Method) : bool :=
  bool_decide (me_Name m ∈ [DepositMethod; WithdrawMethod]) || bool_decide (me_Type m ∈ [Fallback; Receive]) ||
  IsTransaction m.
Definition werc20_Execute (ct : Contract) (readOnly : bool) : PM string :=
  '(m, args) ← return_res (SetupABI api ct readOnly werc20_IsTransaction);
  if bool_decide (me_Type m = Fallback) || bool_decide (me_Type m = Receive) || String.eqb (me_Name m) DepositMethod
  then Deposit ct
  else if String.eqb (me_Name m) WithdrawMethod then Withdraw ct args
  else HandleMethod ct m args.
End Precompile.
End EP.
