(* ===== verification/Erc20PrecompileProps.v ===== *)
(** The ERC-20 precompile of a coin refines the ERC-20 standard over the bank's
    balances and the module's allowances, and a spender never takes more than it was
    allowed. *)
From S2P Require Import Prelude GoStd AccessList Sdk EvmCoin StateDB EvmParams EvmTx Erc20Registry Erc20RegistryProps Erc20Convert PrecompileAbi Erc20Precompile.
Import ER RegistryProps EP.

(** Documented behaviour of the bank: a list of one coin is valid when its amount is
    positive, and a message moves exactly its coins, which must be spendable. *)
Definition coins_moved `{TokenBank B} (from to : Address) (d : string) (v : Z) (b b' : B) : Prop :=
  ∀ a e, tb_GetBalance b' a e = tb_GetBalance b a e
    - (if decide (a = from ∧ e = d) then v else 0) + (if decide (a = to ∧ e = d) then v else 0).
Class TokenBankLaws (B : Type) `{HB : !TokenBank B} : Prop := {
  tbl_validate d v : tb_Coins_Validate [mkCoin d v] = Ok tt → 0 < v;
  tbl_send from to d v b b' :
    tb_MsgSend from to [mkCoin d v] b = (b', Ok tt) → v ≤ tb_SpendableCoin b from d ∧ coins_moved from to d v b b';
}.

(** ** The standard *)

Record tokenView := mkView { tv_balance : Address → Z; tv_allowance : Address → Address → Z }.
Definition same_view (v w : tokenView) : Prop :=
  (∀ a, tv_balance w a = tv_balance v a) ∧ (∀ o s, tv_allowance w o s = tv_allowance v o s).
Definition tokens_moved (from to : Address) (amount : Z) (v w : tokenView) : Prop :=
  ∀ a, tv_balance w a = tv_balance v a - (if decide (a = from) then amount else 0) + (if decide (a = to) then amount else 0).
Definition allowance_set (owner spender : Address) (amount : Z) (v w : tokenView) : Prop :=
  ∀ o s, tv_allowance w o s = if decide (o = owner ∧ s = spender) then amount else tv_allowance v o s.

(** A call of a method by [caller]. *)
Inductive spec_call (caller : Address) : string → list AbiValue → tokenView → tokenView → Prop :=
| spec_transfer to amount v w :
    0 < amount → tokens_moved caller to amount v w → (∀ o s, tv_allowance w o s = tv_allowance v o s) →
    spec_call caller TransferMethod [VAddress to; VBigInt amount] v w
| spec_transferFrom from to amount v w :
    0 < amount ≤ tv_allowance v from caller → tokens_moved from to amount v w →
    allowance_set from caller (tv_allowance v from caller - amount) v w →
    spec_call caller TransferFromMethod [VAddress from; VAddress to; VBigInt amount] v w
| spec_approve spender amount v w :
    (∀ a, tv_balance w a = tv_balance v a) → allowance_set caller spender (Z.max 0 amount) v w →
    spec_call caller ApproveMethod [VAddress spender; VBigInt amount] v w
| spec_query name args v w :
    name ∉ [TransferMethod; TransferFromMethod; ApproveMethod] → same_view v w → spec_call caller name args v w.

Module PrecompileProps20.
Section Props.
Context {B : Type}.
Context `{HP : ParamsLib, HL : Erc20Lib, HEL : !Erc20Laws, HCr : Crypto, HB : !TokenBank B, HT : TextLib, HCL : CoinsLib,
          HBL : !TokenBankLaws B}.
Context (api : ABI) (tokenPair : TokenPair) (height : Z).
Implicit Types (c : precompileCtx B) (st : erc20Store).
Abbreviation addr := (address tokenPair).
Definition view c : tokenView :=
  mkView (λ a, tb_GetBalance (px_bank c) a (tp_Denom tokenPair)) (λ o s, GetAllowance (px_store c) addr o s).

(** ** Steps *)

Lemma converting_ok {X} (m : M (precompileCtx B) SdkError X) c c' x :
  converting m c = (c', Ok x) → m c = (c', Ok x).
Proof. unfold converting, on_err. destruct (m c) as [c1 [y|e|p]]; by intros [= <-]; subst. Qed.
Lemma on_registry_ok {X} (m : M erc20Store SdkError X) c c' x :
  on_registry m c = (c', Ok x) →
  m (px_store c) = (px_store c', Ok x) ∧ px_bank c' = px_bank c ∧ px_logs c' = px_logs c.
Proof. unfold on_registry, zoom. destruct (m _). by intros [= <- <-]. Qed.
Lemma on_bank_ok {X} (m : M B SdkError X) c c' x :
  on_bank m c = (c', Ok x) →
  m (px_bank c) = (px_bank c', Ok x) ∧ px_store c' = px_store c ∧ px_logs c' = px_logs c.
Proof. unfold on_bank, zoom. destruct (m _). by intros [= <- <-]. Qed.
Lemma emit_event_ok event topics value c c' :
  emit_event api tokenPair height event topics value c = (c', Ok tt) →
  px_store c' = px_store c ∧ px_bank c' = px_bank c.
Proof. unfold emit_event. destruct (abi_PackNumber _ _); [|done]. by intros [= <-]. Qed.
Lemma pack_ok m v c c' out : pack api m v c = (c', Ok out) → c' = c ∧ abi_Pack api m v = Some out.
Proof. unfold pack. destruct (abi_Pack _ _ _); [|done]. by intros [= <- <-]. Qed.

(** Setting an allowance sets that allowance, and no other. *)
Lemma setAllowance_get erc20 owner spender v unsafe st st' :
  setAllowance erc20 owner spender (Some v) unsafe st = (st', Ok tt) →
  ∀ e o s, GetAllowance st' e o s = if decide ((e, o, s) = (erc20, owner, spender)) then v else GetAllowance st e o s.
Proof.
  unfold setAllowance. intros Hr. bind_step Hr. injection Hstep as <- <-. destruct (GetTokenPair _ _); [|done].
  destruct (_ && _); [done|]. destruct (owner =? 0); [done|]. destruct (spender =? 0); [done|].
  destruct (v <? 0); [done|]. destruct (_ <=? v); [done|].
  destruct (Z.eqb_spec v 0) as [->|]; injection Hr as <-; intros e o s; unfold GetAllowance; simpl;
    destruct (decide _) as [->|Hne].
  - by rewrite lookup_delete_eq.
  - by rewrite lookup_delete_ne.
  - by rewrite lookup_insert_eq.
  - by rewrite lookup_insert_ne.
Qed.
Lemma allowance_set_view owner spender v c c' :
  setAllowance addr owner spender (Some v) false (px_store c) = (px_store c', Ok tt) →
  allowance_set owner spender v (view c) (view c').
Proof.
  intros Hr o s. simpl. rewrite (setAllowance_get _ _ _ _ _ _ _ Hr).
  destruct (decide (o = owner ∧ s = spender)) as [[-> ->]|Hne]; [by rewrite decide_True|].
  rewrite decide_False; [done|]. naive_solver.
Qed.
Lemma setAllowance_keeps_ok erc20 o s v st st' :
  registry_ok st → setAllowance erc20 o s v false st = (st', Ok tt) → registry_ok st'.
Proof. intros Hok Hr. pose proof (setAllowance_ok erc20 o s v false st Hok) as H. by rewrite Hr in H. Qed.

Lemma GetAllowance_nonneg st e o s : registry_ok st → 0 ≤ GetAllowance st e o s.
Proof.
  intros Hok. unfold GetAllowance. destruct (e_allowances st !! (e, o, s)) eqn:Ha; simpl; [|done].
  destruct (ro_allowance _ Hok _ _ Ha) as (_ & _ & _ & ? & _). lia.
Qed.

Lemma spend_allowance_ok from spender amount c c' x :
  registry_ok (px_store c) → spend_allowance tokenPair from spender amount c = (c', Ok x) →
  x = GetAllowance (px_store c) addr from spender - amount ∧ 0 ≤ x ∧ px_bank c' = px_bank c ∧
  registry_ok (px_store c') ∧ allowance_set from spender x (view c) (view c').
Proof.
  intros Hok. unfold spend_allowance. intros Hr. bind_step Hr. injection Hstep as <- <-.
  destruct (Z.ltb_spec (GetAllowance (px_store c) addr from spender - amount) 0) as [|Hle]; [done|].
  bind_step Hr. injection Hr as <- <-. apply converting_ok in Hstep. apply on_registry_ok in Hstep as (Hset & Hb & _).
  destruct x0. unfold DeleteAllowance, SetAllowance in Hset.
  destruct (Z.eqb_spec (GetAllowance (px_store c) addr from spender - amount) 0) as [H0|];
    split_and!; try done; try (by eapply setAllowance_keeps_ok); by eapply allowance_set_view; rewrite ?H0 in *.
Qed.

(** ** Calls *)

(** The common part of the two transfers, after the allowance. *)
Lemma Send_ok from to v c c' :
  Send from to [mkCoin (tp_Denom tokenPair) v] c = (c', Ok tt) →
  px_store c' = px_store c ∧ v ≤ tb_SpendableCoin (px_bank c) from (tp_Denom tokenPair) ∧
  tokens_moved from to v (view c) (view c').
Proof.
  unfold Send. destruct tb_IsBaseKeeper; [|done]. intros Hr%converting_ok. apply on_bank_ok in Hr as (Hs & Hst & _).
  apply tbl_send in Hs as [Hle Hm]. split_and!; [done|done|]. intros a. simpl. rewrite Hm.
  by repeat (destruct (decide _)); naive_solver lia.
Qed.
Lemma transfer_ok ct m from to amount c c' out :
  registry_ok (px_store c) → transfer api tokenPair height ct m from to amount c = (c', Ok out) →
  0 < amount ∧ registry_ok (px_store c') ∧ tokens_moved from to amount (view c) (view c') ∧
  if String.eqb (me_Name m) TransferFromMethod
  then amount ≤ tv_allowance (view c) from (ct_Caller ct) ∧
       allowance_set from (ct_Caller ct) (tv_allowance (view c) from (ct_Caller ct) - amount) (view c) (view c')
  else px_store c' = px_store c.
Proof.
  intros Hok. unfold transfer. intros Hr. bind_step Hr. unfold int_checked in Hstep.
  destruct (int_fits _); [|done]. injection Hstep as <- <-.
  bind_step Hr. unfold return_res in Hstep. injection Hstep as <- Hv. destruct x. apply tbl_validate in Hv.
  bind_step Hr. rename s into c1, Hstep into Ha. bind_step Hr. destruct x0. apply converting_ok, Send_ok in Hstep as (Hs1 & _ & Hm1).
  rename s into c2. bind_step Hr. destruct x0. apply emit_event_ok in Hstep as [Hs2 Hb2]. rename s into c3.
  bind_step Hr. destruct x0. apply pack_ok in Hr as [-> _]. rename s into c4.
  assert (Hlast : px_store c4 = px_store c3 ∧ px_bank c4 = px_bank c3).
  { destruct (String.eqb _ _); [by eapply emit_event_ok|by injection Hstep as <-]. }
  destruct Hlast as [Hs3 Hb3]. destruct (String.eqb (me_Name m) TransferFromMethod).
  - apply spend_allowance_ok in Ha as (-> & Hle & Hb & Hok1 & Hset); [|done]. split_and!; [done|congruence|..].
    + intros a. specialize (Hm1 a). simpl in *. rewrite Hb3, Hb2, Hm1. by rewrite Hb.
    + simpl. lia.
    + intros o s. specialize (Hset o s). simpl in *. by rewrite Hs3, Hs2, Hs1, Hset.
  - injection Ha as <- _. split_and!; [done|congruence| |congruence].
    intros a. specialize (Hm1 a). simpl in *. by rewrite Hb3, Hb2, Hm1.
Qed.
Lemma Approve_ok ct m spender amount c c' out :
  registry_ok (px_store c) → Approve api tokenPair height ct m [VAddress spender; VBigInt amount] c = (c', Ok out) →
  registry_ok (px_store c') ∧ px_bank c' = px_bank c ∧
  allowance_set (ct_Caller ct) spender (Z.max 0 amount) (view c) (view c').
Proof.
  intros Hok. unfold Approve. intros Hr. bind_step Hr. injection Hstep as <- <-. bind_step Hr. injection Hstep as <- <-.
  bind_step Hr. rename s into c1, Hstep into Ha. destruct x. bind_step Hr. destruct x. apply emit_event_ok in Hstep as [Hs2 Hb2].
  apply pack_ok in Hr as [-> _]. rename s into c2.
  pose proof (GetAllowance_nonneg (px_store c) addr (ct_Caller ct) spender Hok) as Hnn.
  assert (Hset : ∀ v, v = Z.max 0 amount → on_registry (SetAllowance addr (ct_Caller ct) spender (Some v)) c = (c1, Ok tt) →
    registry_ok (px_store c2) ∧ px_bank c2 = px_bank c ∧ allowance_set (ct_Caller ct) spender (Z.max 0 amount) (view c) (view c2)).
  { intros v -> (Hrun & Hb & _)%on_registry_ok. split_and!; [rewrite Hs2; by eapply setAllowance_keeps_ok|congruence|].
    apply allowance_set_view. by rewrite Hs2. }
  unfold precompile_setAllowance in Ha.
  destruct (Z.eqb_spec (GetAllowance (px_store c) addr (ct_Caller ct) spender) 0) as [H0|H0];
    destruct (Z.ltb_spec amount 0); destruct (Z.ltb_spec 0 amount); destruct (Z.leb_spec amount 0);
    destruct (Z.ltb_spec 0 (GetAllowance (px_store c) addr (ct_Caller ct) spender)); simpl in Ha; try lia; try done;
    try (destruct (_ <=? Z.abs amount); [done|]); try (by apply (Hset amount); [lia|done]); try (by apply (Hset 0); [lia|done]).
  injection Ha as <-. split_and!; [congruence|done|]. intros o s. simpl. rewrite Hs2.
  destruct (decide _) as [[-> ->]|]; [|done]. rewrite H0. lia.
Qed.

(** Queries write nothing. *)
Lemma query_same ct m args c c' out :
  me_Name m ∉ [TransferMethod; TransferFromMethod; ApproveMethod] →
  HandleMethod api tokenPair height ct m args c = (c', Ok out) → c' = c.
Proof.
  intros Hn. unfold HandleMethod.
  destruct (String.eqb_spec (me_Name m) TransferMethod); [set_solver|].
  destruct (String.eqb_spec (me_Name m) TransferFromMethod); [set_solver|].
  destruct (String.eqb_spec (me_Name m) ApproveMethod); [set_solver|].
  unfold Name, Symbol, Decimals, TotalSupply, query_BalanceOf, query_Allowance, return_res, pack, throw, panic, mbind, M_bind,
    gets, mret, M_ret.
  repeat (case_match; simplify_eq/=; try done); intros; simplify_eq/=; try done; repeat (case_match; simplify_eq/=; try done).
Qed.

Lemma ParseTransferArgs_ok args to v : ParseTransferArgs args = Ok (to, v) → args = [VAddress to; VBigInt v].
Proof. unfold ParseTransferArgs. repeat case_match; naive_solver. Qed.
Lemma ParseTransferFromArgs_ok args from to v :
  ParseTransferFromArgs args = Ok (from, to, v) → args = [VAddress from; VAddress to; VBigInt v].
Proof. unfold ParseTransferFromArgs. repeat case_match; naive_solver. Qed.
Lemma ParseApproveArgs_ok args a v : ParseApproveArgs args = Ok (a, v) → args = [VAddress a; VBigInt v].
Proof. unfold ParseApproveArgs. repeat case_match; naive_solver. Qed.

Lemma HandleMethod_refines ct m args c c' out :
  registry_ok (px_store c) → HandleMethod api tokenPair height ct m args c = (c', Ok out) →
  registry_ok (px_store c') ∧ spec_call (ct_Caller ct) (me_Name m) args (view c) (view c').
Proof.
  intros Hok Hr.
  destruct (decide (me_Name m ∈ [TransferMethod; TransferFromMethod; ApproveMethod])) as [Hin|Hout].
  2:{ apply query_same in Hr as ->; [|done]. split; [done|]. by apply spec_query. }
  unfold HandleMethod in Hr. destruct (String.eqb_spec (me_Name m) TransferMethod) as [Hn|H1].
  { unfold Transfer in Hr. bind_step Hr. destruct x as [to v]. unfold return_res in Hstep. injection Hstep as <- Hp.
    apply ParseTransferArgs_ok in Hp as ->. apply transfer_ok in Hr as (Hpos & Hok' & Hm & Hs); [|done].
    rewrite Hn in *. split; [done|]. apply spec_transfer; [done..|]. intros o s. simpl. by rewrite Hs. }
  destruct (String.eqb_spec (me_Name m) TransferFromMethod) as [Hn|H2].
  { unfold TransferFrom in Hr. bind_step Hr. destruct x as [[from to] v]. unfold return_res in Hstep. injection Hstep as <- Hp.
    apply ParseTransferFromArgs_ok in Hp as ->. apply transfer_ok in Hr as (Hpos & Hok' & Hm & Hs); [|done].
    rewrite Hn in *. destruct Hs as [Hle Hset]. split; [done|]. by apply spec_transferFrom. }
  destruct (String.eqb_spec (me_Name m) ApproveMethod) as [Hn|H3].
  2:{ rewrite !elem_of_cons, elem_of_nil in Hin. naive_solver. }
  assert (Hp : ∃ spender v, args = [VAddress spender; VBigInt v]).
  { unfold Approve in Hr. bind_step Hr. destruct x as [a v]. unfold return_res in Hstep. injection Hstep as _ Hp.
    apply ParseApproveArgs_ok in Hp. eauto. }
  destruct Hp as (spender & v & ->). apply Approve_ok in Hr as (Hok' & Hb & Hset); [|done].
  rewrite Hn. split; [done|]. apply spec_approve; [|done]. intros a. simpl. by rewrite Hb.
Qed.

(** C39: the ERC-20 precompile of a coin refines the standard.  A call that returns is
    the call of the method its data selects: transfers and approvals change the bank's
    balances and the module's allowances exactly as ERC-20 says, queries and read-only
    calls change nothing, and no value was sent along. *)
Theorem precompile_refines_standard ct readOnly c c' out :
  registry_ok (px_store c) → Execute api tokenPair height ct readOnly c = (c', Ok out) →
  ct_Value ct ≤ 0 ∧
  ∃ m args, SetupABI api ct readOnly IsTransaction = Ok (m, args) ∧
    spec_call (ct_Caller ct) (me_Name m) args (view c) (view c') ∧ registry_ok (px_store c') ∧
    (readOnly = true → c' = c).
Proof.
  intros Hok. unfold Execute. destruct (Z.ltb_spec 0 (ct_Value ct)) as [|Hv]; [done|]. intros Hr.
  bind_step Hr. destruct x as [m args]. unfold return_res in Hstep. injection Hstep as <- Hsetup.
  split; [done|]. exists m, args. destruct (HandleMethod_refines _ _ _ _ _ _ Hok Hr) as [Hok' Hspec].
  split_and!; [done..|]. intros ->. apply SetupABI_read_only in Hsetup.
  unfold IsTransaction in Hsetup. apply bool_decide_eq_false in Hsetup. by eapply query_same.
Qed.

(** ** Spending *)

(** Calls by any callers, one after the other. *)
Inductive calls : precompileCtx B → list (Address * string * list AbiValue) → precompileCtx B → Prop :=
| calls_nil c : calls c [] c
| calls_cons ct m args out c c1 c' tr :
    HandleMethod api tokenPair height ct m args c = (c1, Ok out) → calls c1 tr c' →
    calls c ((ct_Caller ct, me_Name m, args) :: tr) c'.

(** What [spender] has moved out of the account of [owner] by its allowance. *)
Definition spent_by (owner spender : Address) (call : Address * string * list AbiValue) : Z :=
  match call with
  | (caller, name, [VAddress from; VAddress _; VBigInt amount]) =>
      if bool_decide (caller = spender ∧ name = TransferFromMethod ∧ from = owner) then amount else 0
  | _ => 0
  end.
Definition approves (owner spender : Address) (call : Address * string * list AbiValue) : Prop :=
  call.1 = (owner, ApproveMethod) ∧ ∃ v, call.2 = [VAddress spender; VBigInt v].

(** Between two approvals of a spender, what it has spent and what it has left add up
    to what it was allowed, so it never spends more. *)
Theorem spending_within_allowance owner spender c tr c' :
  registry_ok (px_store c) → calls c tr c' → Forall (λ call, ¬ approves owner spender call) tr →
  foldr (λ call sum, spent_by owner spender call + sum) 0 tr + GetAllowance (px_store c') addr owner spender =
    GetAllowance (px_store c) addr owner spender ∧ 0 ≤ GetAllowance (px_store c') addr owner spender.
Proof.
  intros Hok Hc. revert Hok. induction Hc as [c|ct m args out c c1 c' tr Hr _ IH]; intros Hok Hno.
  - split; [simpl; lia|by apply GetAllowance_nonneg].
  - apply Forall_cons in Hno as [Hno Htr]. apply HandleMethod_refines in Hr as [Hok1 Hspec]; [|done].
    destruct (IH Hok1 Htr) as [IHsum IHpos]. split; [|done]. cbn [foldr].
    assert (Hstep : spent_by owner spender (ct_Caller ct, me_Name m, args) + GetAllowance (px_store c1) addr owner spender =
              GetAllowance (px_store c) addr owner spender); [|lia].
    clear IH IHsum IHpos Hok1. inversion Hspec as [to v x y Hv Hm Ha|from to v x y Hv Hm Ha|a v x y Hb Ha|name as' x y Hn Hs]; subst.
    + simpl in Ha. specialize (Ha owner spender). cbn. lia.
    + specialize (Ha owner spender). cbn in Ha |- *. rewrite Ha.
      destruct (decide (owner = from ∧ spender = ct_Caller ct)) as [[-> ->]|Hne].
      * rewrite bool_decide_eq_true_2 by done. lia.
      * rewrite bool_decide_eq_false_2 by naive_solver. lia.
    + specialize (Ha owner spender). cbn in Ha |- *. rewrite Ha. rewrite decide_False; [done|].
      intros [-> ->]. apply Hno. split; [simpl; congruence|]. by exists v.
    + destruct Hs as [_ Hs]. specialize (Hs owner spender). cbn in Hs. rewrite Hs.
      assert (Hz : spent_by owner spender (ct_Caller ct, me_Name m, args) = 0); [|lia].
      unfold spent_by. destruct (decide (me_Name m = TransferFromMethod)) as [Heq|]; [rewrite Heq in Hn; set_solver|].
      repeat case_match; try done. rename select (bool_decide _ = true) into Hb. apply bool_decide_eq_true in Hb. naive_solver.
Qed.

(** ** Limits *)

(** The bank refuses an amount of zero, so the precompile does too: the standard treats
    it as a transfer. *)
Theorem zero_transfer_refused ct m from to c c' out :
  transfer api tokenPair height ct m from to 0 c ≠ (c', Ok out).
Proof.
  unfold transfer. intros Hr. bind_step Hr. injection Hstep as <- <-. bind_step Hr.
  unfold return_res in Hstep. injection Hstep as <- Hv. destruct x. apply tbl_validate in Hv. lia.
Qed.
(** The withdrawal of the wrapped coin is checked against the balance of the integer
    denomination: on a chain with fewer than 18 decimals a covered withdrawal fails. *)
Theorem withdraw_checks_integer_balance info ct amount c :
  int_fits amount = true → tb_SpendableCoin (px_bank c) (ct_Caller ct) (eci_Denom info) < amount →
  ∃ e, Withdraw api tokenPair height info ct [VBigInt amount] c = (c, Err e).
Proof.
  intros Hf Hlt. unfold Withdraw, int_checked, mbind, M_bind, gets. rewrite Hf. cbn.
  destruct (Z.ltb_spec (tb_SpendableCoin (px_bank c) (ct_Caller ct) (eci_Denom info)) amount); [by eexists|lia].
Qed.
End Props.
End PrecompileProps20.
