(* ===== verification/QueryPrecompiles.v ===== *)
(** Precompiles that only read: the bank ([precompiles/bank]), the conversion of
    addresses ([precompiles/bech32]) and the verification of P-256 signatures
    ([precompiles/p256]). *)
From Stdlib Require Import Ascii.
From S2P Require Import Prelude GoStd AccessList Sdk EvmCoin StateDB EvmParams EvmTx Erc20Registry PrecompileAbi.
Import ER.

(** [IterateAccountBalances] and [IterateTotalSupply] in their order. *)
Class BankIteration (B : Type) := {
  bi_AccountBalances : B → Address → list Coin;
  bi_TotalSupply : B → list Coin;
  bi_GetSupply : B → string → Z;
}.
(** Addresses of 20 bytes in bech32; [None] is an error. *)
Class Bech32Lib := {
  VerifyAddressFormat : string → bool;
  Bech32ifyAddressBytes : string → string → option string;
  GetFromBech32 : string → string → option string;
  AddressBytes20 : Address → string;
  BytesToAddress20 : string → Address;
  secp256r1_Verify : string → Z → Z → Z → Z → bool;
}.

Module QP.
(** ** The bank *)

Definition BalancesMethod : string := "balances".
Definition BankTotalSupplyMethod : string := "totalSupply".
Definition SupplyOfMethod : string := "supplyOf".
Definition GasBalances : Z := 2851.
Definition GasTotalSupply : Z := 2477.
Definition GasSupplyOf : Z := 2477.

Definition ParseBalancesArgs (args : list AbiValue) : res SdkError Address :=
  match args with
  | [VAddress account] => Ok account
  | [_] => Err ErrInvalidType
  | _ => Err ErrInvalidNumberOfArgs
  end.
Definition ParseSupplyOfArgs (args : list AbiValue) : res SdkError Address :=
  match args with
  | [VAddress erc20Address] => Ok erc20Address
  | [_] => Err ErrInvalidType
  | _ => Err ErrInvalidNumberOfArgs
  end.

Section Bank.
Context {B : Type} `{HP : ParamsLib, HL : Erc20Lib, HB : !BankIteration B}.
Context (api : ABI) (st : erc20Store) (b : B).
(** The gas consumed on the meter; running out of it is the meter's panic. *)
Context (limit : Z).
Abbreviation GM := (M Z SdkError).
Definition ConsumeGas (gas : Z) : GM unit := λ used,
  if limit <? used + gas then (used + gas, Panic "ErrorOutOfGas") else (used + gas, Ok tt).

(** The callback over the coins: every coin but the first costs gas, and only those
    with a contract are listed. *)
Fixpoint list_coins (cost : Z) (first : bool) (coins : list Coin) : GM (list (Address * Z)) :=
  match coins with
  | [] => mret []
  | coin :: coins' =>
      (if first then mret tt else ConsumeGas cost) ;;
      rest ← list_coins cost false coins';
      match GetCoinAddress st (Denom coin) with
      | Ok contractAddress => mret ((contractAddress, Amount coin) :: rest)
      | Err _ => mret rest
      | Panic p => panic p
      end
  end.
Definition pack_out (m : Method) (v : AbiValue) : GM string :=
  match abi_Pack api m v with Some bz => mret bz | None => throw ErrAbi end.
Definition Balances (m : Method) (args : list AbiValue) : GM string :=
  account ← return_res (ParseBalancesArgs args);
  balances ← list_coins GasBalances true (bi_AccountBalances b account);
  pack_out m (VBalances balances).
Definition bank_TotalSupply (m : Method) : GM string :=
  totalSupply ← list_coins GasTotalSupply true (bi_TotalSupply b);
  pack_out m (VBalances totalSupply).
Definition SupplyOf (m : Method) (args : list AbiValue) : GM string :=
  erc20ContractAddress ← return_res (ParseSupplyOfArgs args);
  match GetTokenPair st (GetERC20Map st erc20ContractAddress) with
  | None => pack_out m (VBigInt 0)
  | Some tokenPair => pack_out m (VBigInt (bi_GetSupply b (tp_Denom tokenPair)))
  end.
Definition bank_RequiredGas (input : string) : Z :=
  if Z.of_nat (String.length input) <? 4 then 0
  else
    match abi_MethodById api (method_id input) with
    | None => 0
    | Some m =>
        if String.eqb (me_Name m) BalancesMethod then GasBalances
        else if String.eqb (me_Name m) BankTotalSupplyMethod then GasTotalSupply
        else if String.eqb (me_Name m) SupplyOfMethod then GasSupplyOf
        else 0
    end.
Definition bank_IsTransaction (m : Method) : bool := false.
Definition bank_Execute (ct : Contract) (readOnly : bool) : GM string :=
  '(m, args) ← return_res (SetupABI api ct readOnly bank_IsTransaction);
  if String.eqb (me_Name m) BalancesMethod then Balances m args
  else if String.eqb (me_Name m) BankTotalSupplyMethod then bank_TotalSupply m
  else if String.eqb (me_Name m) SupplyOfMethod then SupplyOf m args
  else throw ErrUnknownMethod.

(** The coins that have a contract, with it. *)
Definition registered_coins (coins : list Coin) : list (Address * Z) :=
  omap (λ c, match GetCoinAddress st (Denom c) with Ok a => Some (a, Amount c) | _ => None end) coins.
Lemma GetCoinAddress_no_panic d p : GetCoinAddress st d ≠ Panic p.
Proof.
  unfold GetCoinAddress, GetIBCDenomAddress. repeat case_match; done.
Qed.

(** A list of coins holds exactly those with a contract, in order, and costs one unit for
    every coin but the first, whether it is listed or not. *)
Theorem list_coins_exact cost first coins used :
  0 ≤ cost → used + cost * Z.of_nat (length coins) ≤ limit →
  list_coins cost first coins used =
    (used + cost * (if first then Z.max 0 (Z.of_nat (length coins) - 1) else Z.of_nat (length coins)),
     Ok (registered_coins coins)).
Proof.
  revert first used. induction coins as [|c coins IH]; intros first used Hc Hl; cbn [list_coins registered_coins omap length] in *.
  - unfold mret, M_ret. f_equal. destruct first; cbn; lia.
  - assert (Hlen : Z.of_nat (S (length coins)) = Z.of_nat (length coins) + 1) by lia.
    assert (Hcost : ∃ used', (if first then mret tt else ConsumeGas cost) used = (used', Ok tt) ∧
              used' = used + (if first then 0 else cost)).
    { destruct first; [exists used; split; [done|lia]|]. exists (used + cost). split; [|done]. unfold ConsumeGas.
      destruct (Z.ltb_spec limit (used + cost)); [|done]. rewrite Hlen in Hl. nia. }
    destruct Hcost as (used' & Hrun & ->). unfold mbind, M_bind. rewrite Hrun. rewrite IH; [|done|destruct first; nia].
    unfold registered_coins. simpl. destruct (GetCoinAddress st (Denom c)) as [a|e|p] eqn:Ha.
    + unfold mret, M_ret. f_equal. rewrite Hlen. destruct first; [rewrite Z.max_r by lia|]; ring.
    + unfold mret, M_ret. f_equal. rewrite Hlen. destruct first; [rewrite Z.max_r by lia|]; ring.
    + by destruct (GetCoinAddress_no_panic _ _ Ha).
Qed.
End Bank.

(** ** Addresses *)

Section Bech32.
Context `{HL : Erc20Lib, HB : Bech32Lib}.
Context (api : ABI).
Definition out (m : Method) (v : AbiValue) : res SdkError string :=
  match abi_Pack api m v with Some bz => Ok bz | None => Err ErrAbi end.
(** [strings.SplitN(s, "1", 2)[0]]. *)
Fixpoint before_one (s : string) : string :=
  match s with
  | EmptyString => EmptyString
  | String c s' => if Ascii.eqb c "1" then EmptyString else String c (before_one s')
  end.
Definition hexToBech32_value (a : Address) (prefix : string) : res SdkError string :=
  if String.eqb (TrimSpace prefix) "" then Err (ErrPlain "invalid bech32 human readable prefix (HRP)")
  else if negb (VerifyAddressFormat (AddressBytes20 a)) then Err (ErrPlain "invalid address format")
  else match Bech32ifyAddressBytes prefix (AddressBytes20 a) with Some s => Ok s | None => Err (ErrPlain "bech32") end.
Definition bech32ToHex_value (address : string) : res SdkError Address :=
  if String.eqb address "" then Err (ErrPlain "invalid bech32 address")
  else
    let bech32Prefix := before_one address in
    if String.eqb bech32Prefix address then Err (ErrPlain "invalid bech32 address")
    else
      match GetFromBech32 address bech32Prefix with
      | None => Err (ErrPlain "decoding bech32 failed")
      | Some addressBz =>
          if negb (VerifyAddressFormat addressBz) then Err (ErrPlain "invalid address format")
          else Ok (BytesToAddress20 addressBz)
      end.
(** A prefix that is not a string is empty. *)
Definition HexToBech32 (m : Method) (args : list AbiValue) : res SdkError string :=
  match args with
  | [VAddress a; v] =>
      match hexToBech32_value a (match v with VString prefix => prefix | _ => "" end) with
      | Ok s => out m (VString s)
      | Err e => Err e
      | Panic p => Panic p
      end
  | [_; _] => Err (ErrPlain "invalid hex address")
  | _ => Err ErrInvalidNumberOfArgs
  end.
Definition Bech32ToHex (m : Method) (args : list AbiValue) : res SdkError string :=
  match args with
  | [VString s] =>
      match bech32ToHex_value s with
      | Ok a => out m (VAddress a)
      | Err e => Err e
      | Panic p => Panic p
      end
  | [_] => Err (ErrPlain "invalid bech32 address")
  | _ => Err ErrInvalidNumberOfArgs
  end.
(** Another method returns no bytes. *)
Definition bech32_Run (ct : Contract) : res SdkError string :=
  if input_len ct <? 4 then Err ErrExecutionReverted
  else
    match abi_MethodById api (method_id (ct_Input ct)) with
    | None => Err ErrAbi
    | Some m =>
        match abi_Unpack api m (String.substring 4 (String.length (ct_Input ct) - 4) (ct_Input ct)) with
        | None => Err ErrAbi
        | Some args =>
            if String.eqb (me_Name m) "hexToBech32" then HexToBech32 m args
            else if String.eqb (me_Name m) "bech32ToHex" then Bech32ToHex m args
            else Ok ""%string
        end
    end.

(** Documented behaviour: bech32 puts a "1" after the prefix, and decoding with the prefix
    of an address gives its bytes back. *)
Class Bech32Laws : Prop := {
  bl_form prefix bz s : Bech32ifyAddressBytes prefix bz = Some s → ∃ tail, s = String.append prefix (String "1" tail);
  bl_decode prefix bz s : Bech32ifyAddressBytes prefix bz = Some s → GetFromBech32 s prefix = Some bz;
  bl_bytes a : BytesToAddress20 (AddressBytes20 a) = a;
}.
Fixpoint has_one (s : string) : bool :=
  match s with EmptyString => false | String c s' => Ascii.eqb c "1" || has_one s' end.
Lemma before_one_append prefix tail : has_one prefix = false → before_one (String.append prefix (String "1" tail)) = prefix.
Proof.
  induction prefix as [|c p IH]; simpl; [done|]. destruct (Ascii.eqb c "1"); [done|]. simpl. intros Hp. by rewrite IH.
Qed.
Lemma append_longer p t : String.append p (String "1" t) ≠ p.
Proof. induction p as [|c p IH]; simpl; [done|]. intros [= Heq]. by apply IH. Qed.

(** An address converted with a prefix that has no "1" converts back. *)
Theorem bech32_roundtrip `{!Bech32Laws} a prefix s :
  has_one prefix = false → hexToBech32_value a prefix = Ok s → bech32ToHex_value s = Ok a.
Proof.
  intros Hone. unfold hexToBech32_value. destruct (String.eqb _ _); [done|].
  destruct (VerifyAddressFormat (AddressBytes20 a)) eqn:Hv; [|done]. simpl.
  destruct (Bech32ifyAddressBytes prefix (AddressBytes20 a)) as [s'|] eqn:Hb; [|done]. intros [= <-].
  destruct (bl_form _ _ _ Hb) as [tail ->]. pose proof (bl_decode _ _ _ Hb) as Hd.
  unfold bech32ToHex_value. rewrite before_one_append, Hd, Hv by done. simpl. rewrite bl_bytes.
  destruct (String.eqb_spec (String.append prefix (String "1" tail)) ""); [by destruct prefix|].
  destruct (String.eqb_spec prefix (String.append prefix (String "1" tail))) as [Heq|]; [|done].
  symmetry in Heq. by apply append_longer in Heq.
Qed.

(** ** P-256 signatures *)

(** [SetBytes]: the bytes as an unsigned integer, most significant first. *)
Fixpoint be_number (acc : Z) (s : string) : Z :=
  match s with EmptyString => acc | String c s' => be_number (256 * acc + Z.of_N (N_of_ascii c)) s' end.
Fixpoint zero_bytes (n : nat) : string := match n with O => EmptyString | S n' => String "000" (zero_bytes n') end.
Definition one_32 : string := String.append (zero_bytes 31) (String "001" EmptyString).
Definition VerifyGas : Z := 3450.
Definition p256_Run (input : string) : string :=
  if negb (Z.of_nat (String.length input) =? 160) then ""%string
  else
    let word i := be_number 0 (String.substring (32 * i) 32 input) in
    if secp256r1_Verify (String.substring 0 32 input) (word 1%nat) (word 2%nat) (word 3%nat) (word 4%nat)
    then one_32 else ""%string.
End Bech32.
End QP.
