(* ===== verification/DemoChain.v ===== *)
(** A small chain on which the properties of transactions are witnessed: in-memory
    auth and bank modules, an interpreter that understands two programs, and
    go-ethereum's functions on short encodings.  Each instance comes with the laws
    the properties assume of it. *)
From Stdlib Require Import Ascii.
From S2P Require Import Prelude GoStd AccessList Sdk EvmCoin SdkLedger LegacyDec StateDB EvmKeeper EvmKeeperProps FeeMarket FeeMarketProps EvmParams EvmTx StateTransition EvmFees EvmTransaction Ante Erc20Registry.

Module DemoChain.
#[export] Existing Instance MemoryChain.memory_auth.
#[export] Existing Instance MemoryChain.memory_auth_laws.
#[export] Existing Instance MemoryChain.memory_bank.
#[export] Existing Instance MemoryChain.memory_hash.
#[export] Existing Instance MemoryChain.copy_snapshotter.
#[export] Existing Instance MemoryChain.copy_cache.
Abbreviation auth := MemoryChain.auth.
Abbreviation bank := MemoryChain.bank.
Abbreviation acct := MemoryChain.acct.
Abbreviation chain := MemoryChain.chain.

(** ** go-ethereum *)

(** Integers as strings: a sign and the bits. *)
Fixpoint bits_of (p : positive) : string :=
  match p with
  | xH => ""
  | xO p => String "0"%char (bits_of p)
  | xI p => String "1"%char (bits_of p)
  end.
Fixpoint of_bits (s : string) : positive :=
  match s with
  | String "0"%char s => xO (of_bits s)
  | String _ s => xI (of_bits s)
  | EmptyString => xH
  end.
Definition bytes_of (a : Address) : string :=
  match a with Z0 => "0" | Zpos p => String "+"%char (bits_of p) | Zneg p => String "-"%char (bits_of p) end.
Definition of_bytes (s : string) : Address :=
  match s with String "+"%char s => Zpos (of_bits s) | String "-"%char s => Zneg (of_bits s) | _ => 0 end.

Lemma of_bits_of p : of_bits (bits_of p) = p.
Proof. induction p; simpl; congruence. Qed.
Lemma of_bytes_of a : of_bytes (bytes_of a) = a.
Proof. destruct a; simpl; by rewrite ?of_bits_of. Qed.

(** Transactions are signed by address 1; an authorization carries its signer. *)
#[export] Instance demo_EthLib : EthLib unit := {
  BytesToAddress := of_bytes;
  AddressBytes := bytes_of;
  Sender _ _ := Some 1;
  tx_Cost tx := tx_Gas tx * tx_GasPrice tx + tx_Value tx;
  EffectiveGasTip tx b :=
    match b with None => tx_GasTipCap tx | Some b => Z.min (tx_GasTipCap tx) (tx_GasFeeCap tx - b) end;
  IntrinsicGas _ _ _ create _ _ _ := Some (if create then 53000 else 21000);
  FloorDataGas _ := Some 21000;
  Authority a := if String.eqb (auth_Signature a) "" then None else Some (of_bytes (auth_Signature a));
  AddressToDelegation a := String "d"%char (bytes_of a);
  delegation_target code := match code with String "d"%char s => Some (of_bytes s) | _ => None end;
  CreateAddress a n := 1000 * a + n;
}.
#[export] Instance demo_EthLaws : EthLaws unit.
Proof.
  split; try done.
  - exact of_bytes_of.
  - intros a. split; [simpl; by rewrite of_bytes_of|done].
Qed.
#[export] Instance demo_TxLib : TxLib unit := {
  TransactionToMessage _ tx baseFee := Some (message_of tx 1 baseFee);
}.
#[export] Instance demo_TxLaws : TxLaws unit.
Proof. by split. Qed.
#[export] Instance demo_AnteLib : AnteLib unit := {
  ValidateTransaction tx _ _ _ _ _ := if tx_Gas tx <? 21000 then Err ErrIntrinsicGas else accept;
  MakeSigner _ _ := tt;
}.
#[export] Instance demo_config : ChainConfig := {
  cc_ChainID := 9001;
  cc_IsHomestead _ := true;
  cc_IsIstanbul _ := true;
  cc_IsLondon h := 1 <=? h;
  cc_IsShanghai _ _ := true;
  cc_Rules h _ := mkVmRules (mkRules true false true) true true (1 <=? h) true;
}.
#[export] Instance demo_ParamsLib : ParamsLib := {
  IsHexAddress s :=
    match s with String c _ => existsb (Ascii.eqb c) ["0"; "+"; "-"]%char && no_bar s | EmptyString => false end;
  hex := bytes_of;
  HexToAddress := of_bytes;
  ValidEip e := 0 <=? e;
  ChannelIdentifierValidator _ := true;
  PrecompiledAddressesPrague := [];
}.
#[export] Instance demo_bloom : BloomLib := {
  log_Address _ := "log"; log_Topics _ := []; bloom_Add b s := Z.lor b (2 ^ Z.of_nat (String.length s));
}.

(** ** The SDK *)

#[export] Instance demo_coins : FeeCoins := {
  cs_IsZero cs := forallb (λ c, Amount c =? 0) cs;
  cs_Sort cs := cs;
}.
#[export] Instance demo_coins_laws : FeeCoinsLaws.
Proof. split; try done. intros c. simpl. apply andb_true_r. Qed.

Definition collector : Address := 99.
Definition move (x y : Address) (coin : Coin) : M (sdkContext bank string) SdkError unit := λ c,
  let b := cx_store c in
  let from := MemoryChain.mem_balance b x (Denom coin) in
  if from <? Amount coin then (c, Err ErrInsufficientFunds)
  else
    let b := <[(x, Denom coin) := from - Amount coin]> b in
    let b := <[(y, Denom coin) := MemoryChain.mem_balance b y (Denom coin) + Amount coin]> b in
    (mkCtx b (cx_events c), Ok tt).
Definition move_all (x y : Address) (coins : Coins) : M (sdkContext bank string) SdkError unit :=
  for_each coins (move x y).
#[export] Instance demo_bank : FeeBank bank string := {
  fb_module _ := collector;
  fb_AccountToModule a _ := move_all a collector;
  fb_ModuleToAccount _ a := move_all collector a;
  fb_AccountToModuleVirtual a _ := move_all a collector;
  fb_ModuleToAccountVirtual _ a := move_all collector a;
  fb_GetDenomMetaData _ _ := None;
}.
Lemma move_balance x y d v c c' :
  move_all x y [mkCoin d v] c = (c', Ok tt) → ∀ a e,
  MemoryChain.mem_balance (cx_store c') a e = MemoryChain.mem_balance (cx_store c) a e
    - (if decide (a = x ∧ e = d) then v else 0) + (if decide (a = y ∧ e = d) then v else 0).
Proof.
  unfold move_all, move, for_each, mbind, M_bind. simpl. destruct (_ <? v); [done|]. intros [= <-] a e. simpl.
  unfold MemoryChain.mem_balance. destruct (decide (a = y ∧ e = d)) as [[-> ->]|Hy].
  - rewrite lookup_insert_eq. destruct (decide (y = x)) as [->|Hx].
    + rewrite lookup_insert_eq, decide_True by done. done.
    + rewrite lookup_insert_ne by naive_solver. rewrite decide_False by naive_solver. simpl. lia.
  - rewrite lookup_insert_ne by naive_solver. destruct (decide (a = x ∧ e = d)) as [[-> ->]|Hx].
    + rewrite lookup_insert_eq. simpl. lia.
    + rewrite lookup_insert_ne by naive_solver. lia.
Qed.
#[export] Instance demo_bank_laws : FeeBankLaws auth bank string.
Proof. split; intros *; simpl; apply move_balance. Qed.

#[export] Instance demo_ante : AuthAnte auth bank acct string := {
  GetSignerAcc s a := match ak_GetAccount s a with Some acc => Ok acc | None => Err ErrUnknownAddress end;
  authante_DeductFees send a fees := send a FeeCollectorName fees;
}.
#[export] Instance demo_ante_laws : AuthAnteLaws auth bank acct string.
Proof. split; [|done]. intros s a acc. unfold GetSignerAcc, demo_ante. case_match; congruence. Qed.
#[export] Instance demo_TxEvents : TxEvents string := {
  ev_EthereumTx _ _ := "ethereum_tx"; ev_Message _ _ := "message";
  ev_BlockBloom _ := "bloom"; ev_BaseFee _ := "base_fee";
}.
#[export] Instance demo_AnteEvents : AnteEvents string := { ev_Fee _ := "fee"; ev_TxHash _ _ := "tx_hash" }.

(** ** The interpreter *)

#[export] Instance demo_keeper : Keeper chain string := EvmKeeper.evm_Keeper info18.

(** A call moves the value, writes slot 5 of the callee and adds 4800 to the refund
    counter for 10000 gas; with the data "fail" it then fails. *)
#[export] Instance demo_interpreter : Interpreter chain chain string := {
  ActivePrecompiles _ := [3];
  evm_Create evm from data gas value :=
    if gas <? 0 then panic "negative gas" else mret (mkCallResult "" 0 (Some "out of gas") "");
  evm_Call evm from to data gas value := λ s,
    if gas <? 10000 then (s, if gas <? 0 then Panic "negative gas" else Ok (mkCallResult "" 0 (Some "out of gas") ""))
    else
      match (SubBalance from value ;; AddBalance to value ;; StateDB.SetState to 5 9 ;; AddRefund 4800) s with
      | (s', Ok _) =>
          if String.eqb data "fail"
          then (s', Ok (mkCallResult "" (gas - 10000) (Some "invalid opcode") ""))
          else (s', Ok (mkCallResult "done" (gas - 10000) None ""))
      | (s', _) => (s', Panic "unreachable")
      end;
}.
#[export] Instance demo_interpreter_laws : InterpreterLaws chain chain string.
Proof.
  split.
  - intros evm from data gas value s s' r. simpl. destruct (Z.ltb_spec gas 0); [done|].
    intros [= _ <-]. simpl. lia.
  - intros evm from to data gas value s s' r. cbn [evm_Call demo_interpreter].
    destruct (Z.ltb_spec gas 10000).
    + destruct (Z.ltb_spec gas 0); [done|]. intros [= _ <-]. simpl. lia.
    + destruct ((SubBalance from value ;; _) s) as [s1 [u|e|p]]; [|done..].
      destruct (String.eqb data "fail"); intros [= _ <-]; simpl; lia.
Qed.

(** ** A block with one transaction *)

Definition env5 : blockEnv := mkEnv 5 1700000000 (Some 77) 0 0 (Some 10000000) None.
Definition ante5 : anteEnv Z := mkAnteEnv env5 false false 0.

(** Address 1 has nonce 7 and calls address 2 with 3 aevm. *)
Definition call_tx (data : string) : Transaction :=
  mkTransaction DynamicFeeTxType 7 100000 (2 * 10 ^ 9) (2 * 10 ^ 9) (10 ^ 9) (Some 2) 3 data [] [] [] None 4242.
Definition eth_msg (data : string) : MsgEthereumTx := mkMsgEthereumTx (bytes_of 1) (Some (call_tx data)).
Definition sdk_tx (data : string) : sdkTx :=
  mkSdkTx None true "" 0 0 1 0 (Some (mkFee [mkCoin "aevm" (2 * 10 ^ 14)] 100000 "" "")) false 0 true [EthMsg (eth_msg data)].
Definition demo_params : evmParams := DefaultEvmParams.
Definition ctx0 : sdkContext chain string :=
  mkCtx (mkEvmStore {[1 := (7, [])]} {[(1, "aevm") := 10 ^ 18]} ∅ ∅ ∅) [].
Definition ante_run (data : string) := AnteHandle info18 false 0 demo_params market ante5 false (sdk_tx data) ctx0.
Definition cfg5 : EVMConfig Z := mkEVMConfig demo_params market 50 (Some (10 ^ 9)).
Definition before (data : string) : txState (A := auth) (B := bank) (Ev := string) :=
  mkTxState (mkStores (fst (ante_run data)) (mkObj ∅ ∅)) (GasMeter.mkMeter 0 100000).
Definition tx_run (data : string) :=
  ApplyTransaction (C := chain) (D := Z) info18 false env5 (Ok cfg5) None tt None (call_tx data) (before data).
End DemoChain.
