(* ===== verification/TxWitnesses.v ===== *)
(** Witnesses of the properties of transactions, on the chain of [DemoChain]. *)
From S2P Require Import Prelude GoStd AccessList Sdk EvmCoin SdkLedger StateDB StateDBRevert EvmKeeper EvmKeeperProps LegacyDec FeeMarket FeeMarketProps EvmTx EvmParams StateTransition StateTransitionProps EvmFees EvmTransaction Ante AnteProps EvmTransactionProps EvmHistory FeeChecker DemoChain.
Import DemoChain.

(** ** The ante handler *)

Abbreviation handled data := (fst (ante_run data)).



(** ** Transactions *)

Abbreviation after data := (fst (tx_run data)).
Definition response (vmError ret : string) : MsgEthereumTxResponse :=
  mkResponse 50000 31000 vmError ret [] 4242 77 1700000000.

(** A call that fails after having moved the value and written storage. *)
Lemma transaction_is_atomic_witness :
  snd (tx_run "fail") = Ok (response "invalid opcode" "") ∧
  ∃ msg tmp r x1,
    run_message (C := chain) info18 env5 cfg5 None (call_tx "fail") msg (branch (x_stores (before "fail"))) = (tmp, Ok r) ∧
    RefundGas info18 false msg (if r_GasUsed r <? m_GasLimit msg then m_GasLimit msg - r_GasUsed r else 0)
      "aevm" (xs_ctx (x_stores x1)) = (xs_ctx (x_stores (after "fail")), Ok tt) ∧
    response "invalid opcode" "" = r ∧
    (if Failed r then x_stores x1 = x_stores (before "fail")
     else cx_store (xs_ctx (x_stores x1)) = cx_store (xs_ctx tmp)).
Proof.
  assert (Hok : snd (tx_run "fail") = Ok (response "invalid opcode" "")) by (vm_compute; reflexivity).
  assert (Hl : 0 ≤ GasMeter.limit (x_meter (before "fail")) ≤ MaxUint64) by (simpl; unfold MaxUint64; lia).
  split; [exact Hok|].
  destruct (proj2 (TxProps.transaction_is_atomic info18 false env5 cfg5 None tt None (call_tx "fail") (before "fail") Hl)
              (after "fail") _ (run_outcome _ _ _ Hok)) as (msg & tmp & r & from & x1 & H1 & H2 & H3 & H4).
  exists msg, tmp, r, x1. split_and!; [exact H1|exact H2|exact H3|exact H4].
Defined.


(** ** Messages *)

Definition fresh (c : sdkContext chain string) : StateDB chain chain string := New c 0.
Definition call_msg : Message := message_of (call_tx "") 1 (Some (10 ^ 9)).
Definition message_run (internal : bool) :=
  ApplyMessageWithConfig env5 (λ _, 0) call_msg false false cfg5 4242 internal None (fresh ctx0).
Definition message_response (gasUsed : Z) : MsgEthereumTxResponse :=
  mkResponse gasUsed 31000 "" "done" [] 4242 77 1700000000.

(** 31000 gas used, 4800 refunded: 26200 for an internal call; the half of the limit
    that is the minimum otherwise. *)
Lemma gas_charged_exactly_witness :
  snd (message_run true) = Ok (message_response 26200) ∧ snd (message_run false) = Ok (message_response 50000) ∧
  r_GasUsed (message_response 26200) = 31000 - Z.min 4800 (31000 / 1) ∧
  r_GasUsed (message_response 50000) = Z.max (31000 - Z.min 4800 (31000 / 5)) (100000 * one_half / Precision).
Proof.
  assert (H1 : snd (message_run true) = Ok (message_response 26200)) by (vm_compute; reflexivity).
  assert (H2 : snd (message_run false) = Ok (message_response 50000)) by (vm_compute; reflexivity).
  assert (Hr1 : sdb_refund (fst (message_run true)) = 4800) by (vm_compute; reflexivity).
  assert (Hr2 : sdb_refund (fst (message_run false)) = 4800) by (vm_compute; reflexivity).
  assert (Hl : 0 ≤ m_GasLimit call_msg < 2 ^ 63) by (simpl; lia).
  assert (Hv : validateMinGasMultiplier (Some one_half) = None) by (vm_compute; reflexivity).
  split; [exact H1|]. split; [exact H2|]. split.
  - destruct (Transition.gas_charged_exactly env5 (λ _, 0) call_msg false false cfg5 4242 true one_half (fresh ctx0)
      (fst (message_run true)) _ Hl eq_refl Hv (run_outcome _ _ _ H1)) as (_ & Hg & _); [rewrite Hr1; lia|].
    rewrite Hr1 in Hg. exact Hg.
  - destruct (Transition.gas_charged_exactly env5 (λ _, 0) call_msg false false cfg5 4242 false one_half (fresh ctx0)
      (fst (message_run false)) _ Hl eq_refl Hv (run_outcome _ _ _ H2)) as (_ & Hg & _); [rewrite Hr2; lia|].
    rewrite Hr2 in Hg. exact Hg.
Defined.

(** Address 1, with nonce 7, delegates to address 6. *)
Definition delegate : SetCodeAuthorization := mkAuthorization 9001 6 7 (bytes_of 1).
Lemma authorization_applied_exactly_witness :
  ∃ s', applyAuthorization delegate 9001 (fresh ctx0) = (s', Ok tt) ∧
    nonce_of s' 1 = 8 ∧ code_of s' 1 = Some (AddressToDelegation 6) ∧ sdb_refund s' = 12500.
Proof.
  assert (Hn : 0 ≤ auth_Nonce delegate ≤ MaxUint64) by (simpl; unfold MaxUint64; lia).
  destruct (Transition.authorization_applied_exactly (fresh ctx0) delegate 9001 Hn) as (s' & Hrun & Hs).
  assert (Hv : Transition.authorization_verdict (fresh ctx0) delegate 9001 = Ok 1) by (vm_compute; reflexivity).
  assert (Ho : bool_decide (is_Some (obj_of (fresh ctx0) 1)) = true) by (vm_compute; reflexivity).
  rewrite Hv in Hrun, Hs. destruct Hs as (_ & H1 & _ & H2 & H3). rewrite Ho in H3.
  exists s'. split_and!; [exact Hrun|exact H1|exact H2|exact H3].
Defined.

(** ** Blocks *)

Lemma base_fee_agrees_witness :
  snd (EvmTx.GetBaseFee true 18 market ()) = Ok (Some (10 ^ 9)) ∧
  snd (Keeper_GetBaseFee one_half true 18 market_state) = Ok (Some (10 ^ 9)).
Proof.
  assert (H : snd (EvmTx.GetBaseFee true 18 market ()) = Ok (Some (10 ^ 9))) by (vm_compute; reflexivity).
  split; [exact H|].
  rewrite <- (BaseFee.base_fee_agrees one_half true 18 market_state () (10 ^ 9 * Precision) eq_refl eq_refl). exact H.
Defined.

(** The history contract with a window of two blocks; three blocks are recorded. *)
Definition history_params : evmParams :=
  mkEvmParams "aevm" [] [] DefaultAccessControl [] 2 None.
Definition history_ctx : sdkContext chain string :=
  mkCtx (mkEvmStore {[HistoryStorageAddress := (1, [])]} ∅ {[HistoryStorageAddress := 4]} {[4 := "code"%string]} ∅) [].
Lemma history_serves_recent_hashes_witness :
  ∃ c', History.record_blocks info18 history_params 2 [22; 33; 44] history_ctx = (c', Ok tt) ∧
    GetHashFn env5 history_params (cx_store c') None 4 = 44 ∧
    GetHashFn env5 history_params (cx_store c') None 3 = 33 ∧
    GetHashFn env5 history_params (cx_store c') None 5 = 77.
Proof.
  assert (Hin : History.installed history_ctx).
  { split; [vm_compute; eexists; reflexivity|vm_compute; reflexivity]. }
  assert (Hl : 2 + Z.of_nat (length [22; 33; 44]) ≤ MaxInt64) by (vm_compute; discriminate).
  destruct (History.history_serves_recent_hashes info18 history_params 2 [22; 33; 44] history_ctx env5 None
              Hin ltac:(lia) Hl) as (c' & Hrun & Hrec & Hnow & _).
  exists c'. split_and!.
  - exact Hrun.
  - apply (Hrec 2%nat 44); [reflexivity|vm_compute; discriminate|vm_compute; reflexivity].
  - apply (Hrec 1%nat 33); [reflexivity|vm_compute; discriminate|vm_compute; reflexivity].
  - apply Hnow. vm_compute. discriminate.
Defined.
