(* ===== verification/Erc20Witnesses.v ===== *)
(** Witnesses of the properties of the ERC-20 module and of internal calls: a chain
    with an in-memory bank and token contracts that follow the standard. *)
From Stdlib Require Import Ascii.
From S2P Require Import Prelude GoStd AccessList Sdk EvmCoin SdkLedger StateDB EvmKeeper EvmKeeperProps LegacyDec FeeMarket FeeMarketProps EvmTx EvmParams StateTransition EvmTransaction Erc20Registry Erc20RegistryProps Erc20Names Erc20Convert Erc20Props CallEvm Erc20Ibc Erc20Genesis PrecompileAbi Erc20Precompile Erc20PrecompileProps DemoChain.
Import ER RegistryProps ConvertProps EG GenesisProps20 EP PrecompileProps20 DemoChain.

Module TokenChain.
(** ** Libraries *)

#[export] Instance tok_Erc20Lib : Erc20Lib := {
  tmhash_Sum s := String "h"%char s;
  TrimSpace s := s;
  ParseHexHash s := Some (of_bytes s);
}.
Lemma bits_no_bar p : no_bar (bits_of p) = true.
Proof. by induction p. Qed.
#[export] Instance tok_Erc20Laws : Erc20Laws.
Proof.
  split.
  - done.
  - by intros s t [=].
  - intros a. split; [|apply of_bytes_of]. destruct a; simpl; rewrite ?bits_no_bar; reflexivity.
  - intros [|c s]; [done|]. cbn [IsHexAddress demo_ParamsLib]. intros H. by apply andb_prop in H as [_ ?].
Qed.

(** Calls as strings: a letter and the encoded arguments. *)
#[export] Instance tok_Abi : Erc20Abi := {
  pack_transfer to amount := if amount <? 0 then None else Some (String "t"%char (bits_of (encode (to, amount))));
  pack_balanceOf a := Some (String "b"%char (bytes_of a));
  pack_query m := Some (String "q"%char m);
  unpack_bool s := if String.eqb s "true" then Some true else None;
  unpack_uint256 s := Some (of_bytes s);
  unpack_uint8 s := Some 6;
  unpack_string s := Some s;
  logTransferSigHash := "Transfer";
  lg_Address _ := "";
  lg_Topics _ := [];
}.
#[export] Instance tok_Env : Erc20Env := {
  AccAddressFromBech32 s := Some (of_bytes s);
  addrCodec_StringToBytes s := Some (of_bytes s);
  ModuleAddress := 77;
  Metadata_Validate _ := true;
  Erc20Bytecode := "erc20";
}.

(** ** The chain *)

(** Coins of accounts, supplies, tokens by contract and account, and metadata. *)
Record world := mkWorld {
  w_coins : gmap (Address * string) Z;
  w_supply : gmap string Z;
  w_tokens : gmap (Address * Address) N;
  w_meta : gmap string Metadata;
}.
Implicit Types w : world.
Definition coins_at w (a : Address) (d : string) : Z := default 0 (w_coins w !! (a, d)).
Definition supply_at w (d : string) : Z := default 0 (w_supply w !! d).
Definition tokens_at w (c a : Address) : Z := Z.of_N (default 0%N (w_tokens w !! (c, a))).
Definition with_coins v w := mkWorld v (w_supply w) (w_tokens w) (w_meta w).

(** Contracts are the addresses from 500, which are plain tokens; 400 is the precompile
    of the coin "stake", whose balances are the bank's, and any committed call of 401
    mints coins. *)
Definition reply (ret : string) : MsgEthereumTxResponse := mkResponse 1000 0 "" ret [] 0 0 0.
Definition transfer_tokens (c from to amount : Z) w : world :=
  let w1 := mkWorld (w_coins w) (w_supply w)
              (<[(c, from) := Z.to_N (tokens_at w c from - amount)]> (w_tokens w)) (w_meta w) in
  mkWorld (w_coins w) (w_supply w) (<[(c, to) := Z.to_N (tokens_at w1 c to + amount)]> (w_tokens w1)) (w_meta w).
Definition call_token (from : Address) (contract : option Address) (data : string) (commit cfp : bool) (cap : option Z) :
    M world SdkError MsgEthereumTxResponse := λ w,
  match contract, data with
  | Some 400, String "b"%char a => (w, Ok (reply (bytes_of (coins_at w (of_bytes a) "stake"))))
  | Some 401, _ =>
      (if commit then mkWorld (w_coins w) (<["stake"%string := supply_at w "stake" + 1]> (w_supply w)) (w_tokens w) (w_meta w) else w,
       Ok (reply "true"))
  | Some c, String "b"%char a => (w, Ok (reply (bytes_of (tokens_at w c (of_bytes a)))))
  | Some _, String "q"%char _ => (w, Ok (reply "token"))
  | Some c, String "t"%char args =>
      match decode (A := Z * Z) (of_bits args) with
      | Some (to, amount) =>
          if (0 <=? amount) && (amount <=? tokens_at w c from)
          then (if commit then transfer_tokens c from to amount w else w, Ok (reply "true"))
          else (w, Err ErrVMExecution)
      | None => (w, Err ErrVMExecution)
      end
  | _, _ => (w, Err ErrVMExecution)
  end.
#[export] Instance tok_EVMKeeper : EVMKeeper world := {
  evk_GetAccountWithoutBalance _ a := if 500 <=? a then Some (EvmKeeper.mkKAccount 1 (Some 0) 1) else None;
  evk_GetAccount _ a := Ok (if 500 <=? a then Some (EvmKeeper.mkKAccount 1 (Some 0) 1) else None);
  evk_GetCode _ _ := Some "code"%string;
  evk_SetCode _ _ w := w;
  evk_SetAccount _ _ := mret tt;
  evk_CallEVMWithData := call_token;
}.

Definition send_coin (x y : Address) (coin : Coin) : M world SdkError unit := λ w,
  let from := coins_at w x (Denom coin) in
  if from <? Amount coin then (w, Err ErrInsufficientFunds)
  else
    let w1 := with_coins (<[(x, Denom coin) := from - Amount coin]> (w_coins w)) w in
    (with_coins (<[(y, Denom coin) := coins_at w1 y (Denom coin) + Amount coin]> (w_coins w1)) w1, Ok tt).
(** Minting and burning: the balance of the module and the supply move together. *)
Definition issue (sign : Z) (coin : Coin) : M world SdkError unit := λ w,
  let x := sign * Amount coin in
  if coins_at w ModuleAddress (Denom coin) + x <? 0 then (w, Err ErrInsufficientFunds)
  else
    (mkWorld (<[(ModuleAddress, Denom coin) := coins_at w ModuleAddress (Denom coin) + x]> (w_coins w))
       (<[Denom coin := supply_at w (Denom coin) + x]> (w_supply w)) (w_tokens w) (w_meta w), Ok tt).
#[export] Instance tok_Bank : Erc20Bank world := {
  wb_GetBalance := coins_at;
  wb_BlockedAddr a := a =? ModuleAddress;
  wb_IsSendEnabled _ _ := true;
  wb_AccountToModule a _ cs := for_each cs (send_coin a ModuleAddress);
  wb_ModuleToAccount _ a cs := for_each cs (send_coin ModuleAddress a);
  wb_MintCoins _ cs := for_each cs (issue 1);
  wb_BurnCoins _ cs := for_each cs (issue (-1));
  wb_GetDenomMetaData w d := w_meta w !! d;
  wb_SetDenomMetaData md w := mkWorld (w_coins w) (w_supply w) (w_tokens w) (<[mt_Base md := md]> (w_meta w));
}.
#[export] Instance tok_World : ConversionWorld world := {
  cw_supply := supply_at;
  cw_tokens := tokens_at;
  cw_plain c := 500 ≤ c;
}.

(** ** The laws *)

Lemma send_coin_ledgers x y coin w w' : send_coin x y coin w = (w', Ok tt) → same_ledgers w w'.
Proof. unfold send_coin. destruct (_ <? _); [done|]. by intros [= <-]. Qed.
Lemma send_coins_ledgers x y cs w w' : for_each cs (send_coin x y) w = (w', Ok tt) → same_ledgers w w'.
Proof.
  revert w. induction cs as [|coin cs IH]; intros w Hr; [by injection Hr as <-|]. simpl in Hr. bind_step Hr.
  destruct x0. eapply ledgers_trans; [by eapply send_coin_ledgers|by apply IH].
Qed.
Lemma issue_moves sign d x w w' : for_each [mkCoin d x] (issue sign) w = (w', Ok tt) → supply_moves w w' d (sign * x).
Proof.
  simpl. unfold mbind, M_bind, issue. simpl. destruct (_ <? _); [done|]. intros [= <-]. split; [|done].
  intros c _. generalize (coin_of c). intros d'. simpl. unfold supply_at. simpl. destruct (decide (d' = d)) as [->|].
  - by rewrite lookup_insert_eq.
  - rewrite lookup_insert_ne by done. lia.
Qed.
Lemma transfer_tokens_at c from to amount w c' a :
  0 ≤ amount ≤ tokens_at w c from →
  tokens_at (transfer_tokens c from to amount w) c' a =
    tokens_at w c' a - (if decide (c' = c ∧ a = from) then amount else 0) + (if decide (c' = c ∧ a = to) then amount else 0).
Proof.
  intros Hr. unfold transfer_tokens, tokens_at in *. simpl.
  destruct (decide (c' = c ∧ a = to)) as [[-> ->]|Ht].
  - rewrite lookup_insert_eq. simpl. destruct (decide (c = c ∧ to = from)) as [[_ ->]|Hf].
    + rewrite lookup_insert_eq. simpl. lia.
    + rewrite lookup_insert_ne by naive_solver. lia.
  - rewrite lookup_insert_ne by naive_solver. destruct (decide (c' = c ∧ a = from)) as [[-> ->]|Hf].
    + rewrite lookup_insert_eq. simpl. lia.
    + rewrite lookup_insert_ne by naive_solver. lia.
Qed.
(** What a call that returns has done. *)
Lemma call_token_run from c data commit cfp cap w w' r :
  500 ≤ c → call_token from (Some c) data commit cfp cap w = (w', r) →
  w' = w ∨ ∃ args to amount, data = String "t"%char args ∧ decode (A := Z * Z) (of_bits args) = Some (to, amount) ∧
    commit = true ∧ 0 ≤ amount ≤ tokens_at w c from ∧ w' = transfer_tokens c from to amount w.
Proof.
  intros Hc. unfold call_token. destruct data as [|ch args]; [intros Hr; left; repeat case_match; simplify_eq; done || lia|].
  repeat (case_match; try lia; try (intros [= <- _]; by left)); subst; intros [= <- _]; right;
    do 3 eexists; (split_and!; [done..|lia|lia|done]).
Qed.
Lemma call_token_frame from c data commit cfp cap w w' r :
  500 ≤ c → call_token from (Some c) data commit cfp cap w = (w', r) →
  (∀ d, supply_at w' d = supply_at w d) ∧ (∀ c' a, c' ≠ c → tokens_at w' c' a = tokens_at w c' a).
Proof.
  intros Hc [->|(args & to & amount & _ & _ & _ & Hle & ->)]%call_token_run; [done| |done]. split; [done|].
  intros c' a Hne. rewrite transfer_tokens_at by done. rewrite !decide_False by naive_solver. lia.
Qed.
Lemma plain_balance c a w w' b : 500 ≤ c →
  match call_token ModuleAddress (Some c) (String "b"%char (bytes_of a)) false false None w with
  | (w', Ok res) => (w', Ok (unpack_uint256 (r_Ret res)))
  | (w', Err _) => (w', Ok None)
  | (w', Panic p) => (w', Panic p)
  end = (w', Ok (Some b) : res SdkError (option Z)) → b = tokens_at w c a.
Proof.
  intros Hc. assert (Hcall : call_token ModuleAddress (Some c) (String "b"%char (bytes_of a)) false false None w =
    (w, Ok (reply (bytes_of (tokens_at w c a))))).
  { unfold call_token. rewrite of_bytes_of. repeat case_match; lia || done. }
  rewrite Hcall. cbn -[bytes_of of_bytes]. rewrite of_bytes_of. by intros [= _ <-].
Qed.
#[export] Instance tok_Laws : ConversionLaws world.
Proof.
  split.
  - intros m c x w w' _ Hr. apply issue_moves in Hr. by rewrite Z.mul_1_l in Hr.
  - intros m c x w w' _ Hr. apply issue_moves in Hr. by replace (- x) with (-1 * x) by lia.
  - intros a m c x w w' _. apply send_coins_ledgers.
  - intros m a c x w w' _. apply send_coins_ledgers.
  - done.
  - intros from c data cap w w' r Hc Hr. by apply call_token_run in Hr as [->|(? & ? & ? & ? & ? & ? & ?)].
  - intros c a w w' b Hc. cbn in Hc. unfold BalanceOf, CallEVM. cbn [evk_CallEVMWithData tok_EVMKeeper pack_balanceOf tok_Abi].
    intros Hr. apply plain_balance in Hr; done.
  - intros from c data cfp cap w w' r Hc Hr. destruct (call_token_frame _ _ _ _ _ _ _ _ _ Hc Hr) as [H1 H2].
    split; [intros; apply H1|intros; by apply H2].
  - intros to amount c data cfp cap w w' res Hc Hpos Hp Hr.
    cbn [evk_CallEVMWithData tok_EVMKeeper cw_tokens tok_World pack_transfer tok_Abi] in *.
    destruct (Z.ltb_spec amount 0); [done|]. injection Hp as <-.
    apply call_token_run in Hr as [->|(args & to' & amount' & [= <-] & Hd & _ & Hle & ->)]; [lia| |done].
    rewrite of_bits_of, decode_encode in Hd. injection Hd as <- <-.
    rewrite transfer_tokens_at by done. rewrite decide_True by done. case_decide; lia.
  - intros w c a _. cbn. unfold tokens_at. lia.
Qed.
(** The laws would be false of the other two contracts. *)
Example precompile_balance_moves :
  let w := mkWorld {[(9, "stake"%string) := 5]} ∅ ∅ ∅ in
  snd (BalanceOf 400 9 w) = Ok (Some 5) ∧
  snd (BalanceOf 400 9 (fst (send_coin 9 8 (mkCoin "stake" 5) w))) = Ok (Some 0).
Proof. vm_compute. done. Qed.
Example minting_call :
  supply_at (fst (call_token 7 (Some 401) "t" true false None (mkWorld ∅ ∅ ∅ ∅))) "stake" = 1.
Proof. vm_compute. done. Qed.

(** ** A history *)

(** Account 7 has 100 tokens of contract 500. *)
Definition start : erc20Ctx world := mkECtx empty_store (mkWorld ∅ ∅ {[(500, 7) := 100%N]} ∅) [].
Definition registered := fst (RegisterERC20 "gov" "gov" [bytes_of 500] start).
Definition to_coins := fst (ConvertERC20 (mkMsgConvertERC20 (bytes_of 500) 40 (bytes_of 8) (bytes_of 7)) registered).
Definition coin500 : string := CreateDenom (bytes_of 500).
Definition to_tokens := fst (ConvertCoin (mkMsgConvertCoin (mkCoin coin500 15) (bytes_of 9) (bytes_of 8)) to_coins).
Definition pair500 : TokenPair := mkPair (bytes_of 500) coin500 true OWNER_EXTERNAL.

Example history_balances :
  supply_at (ec_world to_tokens) coin500 = 25 ∧ tokens_at (ec_world to_tokens) 500 77 = 25 ∧
  tokens_at (ec_world to_tokens) 500 9 = 15 ∧ coins_at (ec_world to_tokens) 8 coin500 = 25.
Proof. vm_compute. done. Qed.

(** Registered, 40 tokens into coins, 15 coins back into tokens. *)
Lemma conversions_keep_backing_witness :
  e_pairs (ec_store to_tokens) !! GetID pair500 = Some pair500 ∧
  cw_supply (ec_world to_tokens) (tp_Denom pair500) ≤
    cw_tokens (ec_world to_tokens) (GetERC20Contract pair500) ModuleAddress.
Proof.
  assert (H1 : snd (RegisterERC20 "gov" "gov" [bytes_of 500] start) = Ok tt) by (vm_compute; reflexivity).
  assert (H2 : snd (ConvertERC20 (mkMsgConvertERC20 (bytes_of 500) 40 (bytes_of 8) (bytes_of 7)) registered) = Ok true)
    by (vm_compute; reflexivity).
  assert (H3 : snd (ConvertCoin (mkMsgConvertCoin (mkCoin coin500 15) (bytes_of 9) (bytes_of 8)) to_coins) = Ok tt)
    by (vm_compute; reflexivity).
  split; [vm_compute; reflexivity|].
  apply (conversions_keep_backing start to_tokens pair500); [reflexivity| |vm_compute; left|reflexivity].
  apply (rtc_l _ _ registered).
  { refine (step_RegisterERC20 _ _ _ _ _ _ (run_outcome _ _ _ H1)).
    constructor; [|constructor]. split; vm_compute; discriminate. }
  apply (rtc_l _ _ to_coins); [exact (step_ConvertERC20 _ _ _ _ (run_outcome _ _ _ H2))|].
  apply rtc_once. exact (step_ConvertCoin _ _ _ (run_outcome _ _ _ H3)).
Defined.

(** A pair with an allowance of 30. *)
Definition with_pair : erc20Store := fst (SetToken pair500 empty_store).
Definition with_allowance : erc20Store := fst (setAllowance 500 7 8 (Some 30) false with_pair).
Lemma registry_bijective_witness :
  GetTokenDenom with_allowance 500 = Ok coin500 ∧ GetCoinAddress with_allowance coin500 = Ok 500 ∧
  GetAllowance with_allowance 500 7 8 = 30 ∧ IsERC20Registered with_allowance 500 = true.
Proof.
  assert (Hr : rtc registry_step empty_store with_allowance).
  { apply (rtc_l _ _ with_pair); [by apply (step_SetToken empty_store pair500)|].
    apply rtc_once. apply (step_allowance with_pair). }
  destruct (registry_bijective with_allowance Hr) as (Hab & _ & Hal).
  split; [vm_compute; reflexivity|]. split; [apply Hab; vm_compute; reflexivity|].
  split; [vm_compute; reflexivity|]. apply (Hal 500 7 8). vm_compute. discriminate.
Defined.

(** ** Genesis *)

Definition with_native : erc20Store := fst (SetNativePrecompile 500 with_allowance).
Lemma with_allowance_ok : registry_ok with_allowance.
Proof.
  unfold with_allowance, with_pair. apply setAllowance_ok, SetToken_ok; [reflexivity|apply empty_ok].
Qed.
Lemma writable : code_hashes_writable (W := world).
Proof. intros a w. by eexists. Qed.
Lemma erc20_genesis_roundtrip_witness :
  length (eg_TokenPairs (ExportGenesis with_native)) = 1%nat ∧ length (eg_Allowances (ExportGenesis with_native)) = 1%nat ∧
  ∃ c', InitGenesis true (ExportGenesis with_native) start = (c', Ok tt) ∧ ec_store c' = with_native.
Proof.
  split; [vm_compute; reflexivity|]. split; [vm_compute; reflexivity|].
  apply (erc20_genesis_roundtrip with_native (ExportGenesis with_native) start).
  - destruct with_allowance_ok. by split.
  - apply SetNativePrecompile_canonical. intros s. set_solver.
  - intros s. set_solver.
  - exact writable.
  - by repeat split.
  - reflexivity.
Defined.
(** Two spellings of address 0. *)
#[export] Instance tok_coins : CoinsLib := {
  ValidateDenom d := negb (String.eqb d "");
  IsValid cs := forallb (λ c, 0 <? Amount c) cs;
  AmountOf cs d := foldr (λ c n, (if String.eqb (Denom c) d then Amount c else 0) + n) 0 cs;
  SubCoin cs c := None;
  IsAllPositive cs := forallb (λ c, 0 <? Amount c) cs;
  NewCoins cs := cs;
}.
Definition two_spellings : GenesisState :=
  mkErc20Genesis DefaultParams [mkPair "0" "coina" true 2; mkPair "0z" "coinb" true 2]
    [mkAllowance "0" (bytes_of 7) (bytes_of 8) 5] ["0"%string] [].
Example valid_genesis_truncated :
  GenesisState_Validate two_spellings = Ok tt ∧ snd (InitGenesis true two_spellings start) = Ok tt ∧
  e_allowances (ec_store (fst (InitGenesis true two_spellings start))) = ∅.
Proof. vm_compute. done. Qed.

(** ** Refunds *)

#[export] Instance tok_Ibc : IbcLib := {
  UnmarshalPacketData _ := Some (mkPacketData coin500 (bytes_of 15) (bytes_of 8) (bytes_of 9));
  UnmarshalAck _ := Some true;
  ExtractDenomFromPath d := mkTraceDenom [] d;
  IBCDenom d := td_Base d;
  HasPrefix _ _ _ := false;
  NewIntFromString s := Some (of_bytes s);
}.
#[export] Instance tok_IbcWorld : IbcWorld world := { sk_BondDenom _ := Ok "stake"%string; ak_IsModuleAccount _ a := a =? 77 }.

(** ** The precompile *)

#[export] Instance tok_Text : TextLib := {
  error_text e := match e with ErrInsufficientFunds => "spendable balance is smaller" | ErrPlain s => s | _ => "" end;
  ParseHexHash_bytes s := Some s;
  ToUpper s := s;
}.
#[export] Instance tok_TokenBank : TokenBank world := {
  tb_MsgSend from to cs := for_each cs (send_coin from to);
  tb_SendCoins from to cs := for_each cs (send_coin from to);
  tb_GetBalance := coins_at;
  tb_SpendableCoin := coins_at;
  tb_GetSupply := supply_at;
  tb_GetDenomMetaData w d := w_meta w !! d;
  tb_Coins_Validate cs := if forallb (λ c, 0 <? Amount c) cs then Ok tt else Err ErrInvalidCoins;
  tb_IsBaseKeeper := true;
  tk_GetDenom _ _ := None;
}.
#[export] Instance tok_TokenBankLaws : TokenBankLaws world.
Proof.
  split.
  - intros d v. cbn. destruct (Z.ltb_spec 0 v); done.
  - intros from to d v w w'. cbn. unfold mbind, M_bind, send_coin. cbn.
    destruct (Z.ltb_spec (coins_at w from d) v); [done|]. intros [= <-]. split; [done|]. intros a e. cbn.
    unfold coins_at. cbn. destruct (decide (a = to ∧ e = d)) as [[-> ->]|Ht].
    + rewrite lookup_insert_eq. destruct (decide (to = from ∧ d = d)) as [[-> _]|Hf].
      * by rewrite lookup_insert_eq.
      * rewrite lookup_insert_ne by naive_solver. cbn. lia.
    + rewrite lookup_insert_ne by naive_solver. destruct (decide (a = from ∧ e = d)) as [[-> ->]|Hf].
      * rewrite lookup_insert_eq. cbn. lia.
      * rewrite lookup_insert_ne by naive_solver. lia.
Qed.
(** The selector "trFr" with the encoded arguments. *)
Definition from_method : Method := mkMethod TransferFromMethod Function.
Definition tok_ABI : ABI := {|
  abi_MethodById id := if String.eqb id "trFr" then Some from_method else None;
  abi_HasReceive := false;
  abi_Receive := from_method;
  abi_HasFallback := false;
  abi_Fallback := from_method;
  abi_Unpack _ s :=
    match decode (A := Z * Z * Z) (of_bits s) with
    | Some (from, to, v) => Some [VAddress from; VAddress to; VBigInt v]
    | None => None
    end;
  abi_Pack _ _ := Some "true"%string;
  abi_EventID e := Z.of_nat (String.length e);
  abi_PackNumber z := Some (bytes_of z);
|}.
(** Account 8 moves 12 of the 30 coins that account 7 allowed it to account 9. *)
Definition spend_call : Contract := mkContract 8 0 (String.append "trFr" (bits_of (encode (7, 9, 12)))).
Definition rich : precompileCtx world := mkPCtx with_allowance (mkWorld {[(7, coin500) := 100]} {[coin500 := 100]} ∅ ∅) [].
Definition spend_run := Execute (B := world) tok_ABI pair500 10 spend_call false rich.
Lemma precompile_refines_standard_witness :
  GetAllowance (px_store (fst spend_run)) 500 7 8 = 18 ∧ coins_at (px_bank (fst spend_run)) 9 coin500 = 12 ∧
  ct_Value spend_call ≤ 0 ∧
  ∃ m args, SetupABI tok_ABI spend_call false IsTransaction = Ok (m, args) ∧
    spec_call 8 (me_Name m) args (view pair500 rich) (view pair500 (fst spend_run)) ∧
    registry_ok (px_store (fst spend_run)) ∧ (false = true → fst spend_run = rich).
Proof.
  assert (Hok : snd spend_run = Ok "true"%string) by (vm_compute; reflexivity).
  split; [vm_compute; reflexivity|]. split; [vm_compute; reflexivity|].
  exact (precompile_refines_standard tok_ABI pair500 10 spend_call false rich (fst spend_run) "true"
           with_allowance_ok (run_outcome _ _ _ Hok)).
Defined.
End TokenChain.

(** ** Internal calls *)

Module CallChain.
#[export] Instance call_meter : TxGasMeter (Z * Z) := {
  tg_Limit g := g.2;
  tg_GasConsumed g := g.1;
  tg_RefundGas x g := ((g.1 - x, g.2), Ok tt);
  tg_ConsumeGas x g := if g.2 <? g.1 + x then (g, Panic "out of gas") else ((g.1 + x, g.2), Ok tt);
}.
Abbreviation keeps_db := (keeps (sdb_ctx (K := chain) (C := chain) (Ev := string)) (E := SdkError)).
Lemma keeps_modify_ctx f :
  (∀ s : StateDB chain chain string, sdb_ctx (f s) = sdb_ctx s) → keeps_db (modify f).
Proof. intros Hf s s' r [= <- _]. apply Hf. Qed.
Ltac keeps_steps :=
  repeat (case_match || apply keeps_bind || apply keeps_ret || apply keeps_gets || apply keeps_throw ||
          apply keeps_panic || (by apply keeps_modify_ctx) || intros ?).
(** The interpreter of the chain only goes through the state database. *)
#[export] Instance demo_frame : InterpreterFrame chain chain string.
Proof.
  split. intros evm from to data gas value s s' r. cbn [evm_Call demo_interpreter].
  destruct (gas <? 10000); [by intros [= <- _]|].
  assert (Hk : keeps_db (SubBalance from value ;; AddBalance to value ;; StateDB.SetState to 5 9 ;; AddRefund 4800)).
  { unfold SubBalance, AddBalance, StateDB.SetState, AddRefund, obj_SetState, obj_AddBalance, obj_SubBalance,
      obj_SetBalance, obj_GetState, obj_GetCommittedState, getOrNewStateObject, createObject, getStateObject.
    keeps_steps. }
  destruct ((SubBalance from value ;; _) s) as [s1 r1] eqn:H1. apply Hk in H1.
  destruct r1; [destruct (String.eqb data "fail")|..]; by intros [= <- _].
Qed.

(** The query costs gas, and the transfer it makes is thrown away. *)
Definition query_run :=
  CallEVMWithData (C := chain) (D := Z) info18 env5 (Ok cfg5) None 1 (Some 2) "" false false None (mkCallCtx ctx0 (0, 100000)).
Lemma query_reads_only_witness :
  cl_meter (fst query_run) = (26200, 100000) ∧ cl_ctx (fst query_run) = ctx0.
Proof.
  split; [vm_compute; reflexivity|].
  apply (query_reads_only (C := chain) (D := Z) info18 env5 (Ok cfg5) None 1 2 "" None
           (mkCallCtx ctx0 (0, 100000)) (fst query_run) (snd query_run)).
  apply surjective_pairing.
Defined.
End CallChain.
